(* ===== verification/_CoqProject ===== *)
-Q . S2P
Prelude.v
Riscv.v
Mem.v
KString.v
Kalloc.v
Vm.v
VmWalk.v
VmMap.v
VmUser.v
VmFree.v
VmCopy.v
Machine.v
VmTheorems.v
Bio.v
BioSpec.v
BioProofs.v
BioTheorems.v
Block.v
Log.v
LogProofs.v
LogTheorems.v
TxSpec.v
LogTx.v
LogConc.v
Crash.v
Fs.v
FsBlock.v
FsProofs.v
FsInode.v
FsWrite.v
FsTheorems.v
FsNames.v
FsDir.v
Mkfs.v
MkfsProofs.v
Boot.v
Pipe.v
File.v
FileProofs.v
Sysfile.v
SysfileProofs.v
UserVm.v
Spinlock.v
Proc.v
ProcTable.v
Exec.v
Syscall.v
SyscallProofs.v
SleepWakeup.v
Hart.v
Asm.v
AsmProofs.v
Start.v
Trap.v
TrapProofs.v
TrapExamples.v
Ring.v
Printf.v
PrintfProofs.v
Uart.v
UartProofs.v
Console.v
ConsoleProofs.v
ConsoleExamples.v
Virtio.v
VirtioProofs.v
VirtioTheorems.v
VirtioInit.v
VirtioExamples.v
Umalloc.v
UmallocProofs.v
Ulib.v
UlibProofs.v
Grep.v
GrepProofs.v
Sh.v
ShGrammar.v
ShProofs.v
ShRunProofs.v
UserExamples.v
