(* ===== verification/Prelude.v ===== *)
(** * A verification of xv6-riscv

    The program is a small Unix: a kernel for RISC-V (src/kernel), the tool that
    lays out its disk (src/mkfs) and user programs (src/user).  User programs
    enter the kernel by system calls; these work on processes, their page
    tables and memory, open files, pipes and a file system, which reaches the
    disk through a write-ahead log and a buffer cache.  Below are the drivers and
    the assembly that enters and leaves the kernel, above the library and the
    programs of user space.  The development follows that structure, one group
    of files for each layer.

    ** How the code is modelled

    A kernel routine is a function of the monad [M S A] (this file): it takes the
    state [S] and returns, calls [panic], touches an address that is not there
    ([Fault]), or runs for ever ([Diverge]).  [wp c s Q] says that [c] run from [s]
    returns, with a result that satisfies [Q], so that every theorem stated with
    it includes the absence of panics, faults and endless loops.  Integers are
    [Z] with the wrap-around of their C type written out ([u32], [s32], [u64]).
    A section of code under one spin lock is one atomic step; what the locks
    are relied on for is proved in Spinlock, and where the order of such
    sections matters the code is a step relation over all interleavings
    (Pipe, LogConc, ProcTable, SleepWakeup, Uart, Console, Virtio).  Assembly is
    a list of instructions of a hart with its registers, control registers,
    mode and page table (Hart).

    Loops that C bounds by a counter are structural; the others carry fuel.  In
    the kernel the fuel is computed from the arguments (the number of pages of a
    range, of free pages, of bytes of a string, of used entries of a queue) so
    that the theorems need no hypothesis about it.  The user programs have loops
    and recursions without any bound in the C, and their fuel is an argument: the
    theorems about them say how much is enough, in terms of the input or of the
    limit of the heap, and hold of every larger amount.

    Code that is not in the repository is an argument with what it documents as
    a hypothesis: the registers of the serial line and of the disk, the disk's
    own work on its queues, the files of the host for mkfs.  A program's system
    calls are arguments of its model in the same way ([read], [sbrk]).

    ** The files

    - Prelude: the monad and its rules, integers, lists, tactics, hints.
    - Riscv: param.h, memlayout.h, the paging macros of riscv.h.  Mem: byte
      memory.  KString: string.c.
    - Kalloc: kalloc.c, the free list inside the free pages.
    - Vm: vm.c; VmWalk, VmMap, VmUser, VmFree, VmCopy: its lemmas; Machine: a
      concrete machine for the witnesses; VmTheorems: the results.
    - Bio: bio.c and the sleep lock of a buffer; BioSpec: the interface of a
      block cache; BioProofs, BioTheorems: the cache of bio.c implements it.
    - Block: blocks as arrays of bytes and words.  Log: log.c over any block
      cache; LogProofs, LogTheorems.  TxSpec: the interface of a transactional
      block store, with crash states; LogTx: log.c over bio.c implements it.
      LogConc: the reservations of concurrent operations.  Crash: boot and whole
      transactions.
    - Fs: fs.c over any block store; FsBlock, FsProofs, FsInode, FsWrite: its
      invariant; FsTheorems, FsNames, FsDir: results on blocks, inodes, names
      and path resolution.
    - Mkfs, MkfsProofs: mkfs.c and the image it writes.  Boot: the start-up of
      the file system from such an image (fsinit, and its callers in main.c and
      proc.c), and reading a file of it.
    - Pipe: pipe.c.  File, FileProofs: file.c.  Sysfile, SysfileProofs:
      sysfile.c.  UserVm: user memory as vm.c implements it, and sys_write from
      the user address to the disk.
    - Spinlock: spinlock.c.  Proc: proc.c; ProcTable: the process table under
      all interleavings; SleepWakeup: sleep and wakeup.  Exec: exec.c.  Syscall,
      SyscallProofs: syscall.c and sysproc.c.
    - Hart: the machine of riscv.h.  Asm, AsmProofs: trampoline.S, kernelvec.S,
      swtch.S and entry.S.  Start: start.c.  Trap, TrapProofs: trap.c and plic.c
      over the two of them; TrapExamples: a machine that takes traps.
    - Ring: arrays used as rings.  Printf, PrintfProofs: printf.c of the kernel
      and of user space.  Uart, UartProofs: uart.c.  Console, ConsoleProofs,
      ConsoleExamples: console.c and procdump.
    - Virtio: virtio_disk.c with a device that works at the same time;
      VirtioProofs: the invariant of the queues; VirtioTheorems; VirtioInit: the
      start of the driver; VirtioExamples: a write from call to return.
    - Umalloc, UmallocProofs: user/umalloc.c.  Ulib, UlibProofs: user/ulib.c.
      Grep, GrepProofs: user/grep.c.  Sh: user/sh.c; ShGrammar: the language of
      the shell; ShProofs: the parser; ShRunProofs: what a command runs.
      UserExamples: programs at work.

    The layers meet in type classes: [Layout] (where RAM is), [BlockCache]
    (BioSpec), [BlockStore] (TxSpec), [UserMem] (File).  Client theorems are
    proved against the class and hold of the code below by its instance.

    ** What the theorems show

    - Memory: the allocator never loses or duplicates a page; mapping, growing,
      copying and freeing an address space do what they say, roll back when
      memory runs out, and touch nothing else; the copies between kernel and
      user space move exactly the bytes asked for, or fail if one of them is
      not mapped for the user.
    - Disk: the cache returns the current contents of a block and recycles the
      least recently used buffer; a transaction is atomic under a crash at any
      disk write, recovery included; reservations keep the log from overflowing
      if it has room for LOGSIZE data blocks, and do not with the log that
      mkfs lays out.
    - Files: reads return the file's bytes, writes change those bytes and no
      other file, block allocation is exact, a large write that is cut by a
      crash leaves a prefix, and a path leads to the inode its elements name
      with every reference count exact.  The image mkfs writes is a file system
      in the sense these theorems ask for: a kernel that boots from it finds
      each file by its path and reads the bytes the file has on the host.
    - System calls: sys_write takes the bytes at the user address to the disk;
      sys_dup and sys_pipe keep the reference counts exact on every path; sbrk,
      sysinfo and the dispatch behave as documented.
    - Processes: spin locks exclude each other and nest with interrupts off; no
      wakeup is lost; every process has a live parent and pids are distinct;
      pipes deliver the bytes in order.
    - Traps: a system call reaches its handler with the registers of the user
      and returns behind the ecall with nothing changed but the result;
      interrupts, in user space and in the kernel, and context switches are
      transparent to the code they interrupt; a hart boots into main in
      supervisor mode on its own stack.
    - Devices: a call of virtio_disk_rw takes effect once and as a whole under
      every interleaving of processes, interrupts and device, no section panics
      and every call can always be completed, which is what the cache assumes of the disk;
      the serial line sends what is written in order; the console is a
      line-buffered terminal; printf prints the text its format describes.
    - User space: malloc and free keep the blocks in use apart and intact; grep
      prints the lines in the language of the pattern; the parser of the shell
      accepts its grammar and no more, and the programs of a command get the
      descriptors the command gives them.

    Behaviour that departs from what the code means to do is proved as well:
    LogConc.log_reservation_overflow, Pipe.pipe_kill_loses_wakeup,
    ProcTable.kill_zero_hits_newborn, SyscallProofs.growproc_underflow,
    MkfsProofs.mkfs_root_hole, UmallocProofs.malloc_truncates.

    ** Not modelled

    - The calls of main.c that only run the initialisers of the components one
      after the other (the start of the file system is modelled, in Boot), the
      initialisers that only set pointers or flags (consoleinit, printfinit,
      kvminit, kvminithart), the endless loop of the scheduler around its scan
      of the table, and the layout of the image in kernel.ld.
    - vmprint, which prints a page table.
    - ramdisk.c, which is not linked into this kernel.
    - Memory weaker than sequential consistency, and cached translations: the
      fences of the code have no effect in the models.
    - In user space the call instructions (usys.pl, initcode.S), the main
      functions that open files and pass them on, the short utilities that only
      hand their arguments to system calls, and the programs that test the
      kernel (usertests, grind, forktest, stressfs, sysinfotest): their
      promises are those of the system calls.
    - The disk below the log is an array of blocks that is read and written a
      block at a time, which VirtioTheorems proves of the driver; the two are
      not composed into one state. *)
From stdpp Require Export base list sets gmap strings.
From Stdlib Require Export ZArith Lia.
#[global] Open Scope Z_scope.

(** ** Machine integers

    The C types of kernel/types.h as [Z], with the wrap-around written out. *)

Definition u8 (x : Z) : Z := x mod 2 ^ 8.
Definition u16 (x : Z) : Z := x mod 2 ^ 16.
Definition u32 (x : Z) : Z := x mod 2 ^ 32.
Definition u64 (x : Z) : Z := x mod 2 ^ 64.
Definition s16 (x : Z) : Z := (x + 2 ^ 15) mod 2 ^ 16 - 2 ^ 15.
Definition s32 (x : Z) : Z := (x + 2 ^ 31) mod 2 ^ 32 - 2 ^ 31.

(** A C truth value: [0] is false, everything else is true. *)
Definition ctrue (x : Z) : bool := negb (x =? 0).

(** ** The outcome of a piece of kernel code

    Kernel code returns, calls [panic], touches an address that is not RAM,
    or runs for ever.  [Diverge] is the result of a loop whose fuel ran out;
    every theorem that a routine returns rules it out. *)
Inductive outcome (A : Type) : Type :=
| Ret (a : A)
| Panic (msg : string)
| Fault
| Diverge.
Arguments Ret {A} a.
Arguments Panic {A} msg.
Arguments Fault {A}.
Arguments Diverge {A}.

(** Code over a state [S] that returns an [A]. *)
Definition M (S A : Type) : Type := S -> outcome (A * S).

Definition ret {S A} (a : A) : M S A := fun s => Ret (a, s).
Definition panic {S A} (msg : string) : M S A := fun _ => Panic msg.
Definition fault {S A} : M S A := fun _ => Fault.
Definition diverge {S A} : M S A := fun _ => Diverge.
Definition get {S} : M S S := fun s => Ret (s, s).
Definition put {S} (s : S) : M S unit := fun _ => Ret (tt, s).
Definition gets {S A} (f : S -> A) : M S A := fun s => Ret (f s, s).
Definition modify {S} (f : S -> S) : M S unit := fun s => Ret (tt, f s).
Definition bind {S A B} (c : M S A) (k : A -> M S B) : M S B :=
  fun s => match c s with
           | Ret (a, s') => k a s'
           | Panic msg => Panic msg
           | Fault => Fault
           | Diverge => Diverge
           end.
Definition when {S} (b : bool) (c : M S unit) : M S unit :=
  if b then c else ret tt.

Declare Scope xv6_scope.
Delimit Scope xv6_scope with xv6.
Notation "x <- c ;; k" := (bind c (fun x => k))
  (at level 100, c at next level, right associativity) : xv6_scope.
Notation "' p <- c ;; k" := (bind c (fun x => match x with p => k end))
  (at level 100, p pattern, c at next level, right associativity) : xv6_scope.
Notation "c ;; k" := (bind c (fun _ => k))
  (at level 100, right associativity) : xv6_scope.
#[global] Open Scope xv6_scope.

(** [for(i = lo; i < lo + n; i++) body(i)] for a body that cannot break. *)
Fixpoint for_loop {S} (n : nat) (i : Z) (body : Z -> M S unit) : M S unit :=
  match n with
  | O => ret tt
  | S n' => body i;; for_loop n' (i + 1) body
  end.

(** ** Total correctness of outcomes

    [wp c s Q]: run from [s], the code [c] returns, and its result and final
    state satisfy [Q].  A panic, a fault or a divergence falsifies it. *)
Definition wp {S A} (c : M S A) (s : S) (Q : A -> S -> Prop) : Prop :=
  match c s with Ret (a, s') => Q a s' | _ => False end.

Lemma wp_bind {S A B} (c : M S A) (k : A -> M S B) s Q :
  wp c s (fun a s' => wp (k a) s' Q) -> wp (bind c k) s Q.
Proof. unfold wp, bind. by destruct (c s) as [[a s']| | |]. Qed.

Lemma wp_ret {S A} (a : A) (s : S) (Q : A -> S -> Prop) : Q a s -> wp (ret a) s Q.
Proof. done. Qed.

Lemma wp_get {S} (s : S) (Q : S -> S -> Prop) : Q s s -> wp get s Q.
Proof. done. Qed.

Lemma wp_put {S} (s s' : S) (Q : unit -> S -> Prop) : Q tt s' -> wp (put s') s Q.
Proof. done. Qed.

Lemma wp_gets {S A} (f : S -> A) (s : S) (Q : A -> S -> Prop) : Q (f s) s -> wp (gets f) s Q.
Proof. done. Qed.

Lemma wp_modify {S} (f : S -> S) (s : S) (Q : unit -> S -> Prop) :
  Q tt (f s) -> wp (modify f) s Q.
Proof. done. Qed.

Lemma wp_mono {S A} (c : M S A) s (Q Q' : A -> S -> Prop) :
  wp c s Q -> (forall a s', Q a s' -> Q' a s') -> wp c s Q'.
Proof. unfold wp. destruct (c s) as [[a s']| | |]; naive_solver. Qed.

(** A sequence of three, cut after the second. *)
Lemma wp_bind_assoc {S A B C} (c : M S A) (f : A -> M S B) (g : B -> M S C) s Q :
  wp (bind (bind c f) g) s Q -> wp (bind c (fun x => bind (f x) g)) s Q.
Proof. unfold wp, bind. by destruct (c s) as [[a s']| | |]. Qed.

Lemma wp_inv {S A} (c : M S A) s (Q : A -> S -> Prop) :
  wp c s Q -> exists a s', c s = Ret (a, s') /\ Q a s'.
Proof. unfold wp. destruct (c s) as [[a s']| | |]; naive_solver. Qed.

Lemma wp_ret_inv {S A} (c : M S A) s a s' (Q : A -> S -> Prop) : wp c s Q -> c s = Ret (a, s') -> Q a s'.
Proof. unfold wp. intros H E. by rewrite E in H. Qed.

Lemma wp_eq {S A} (c : M S A) s a s' (Q : A -> S -> Prop) :
  c s = Ret (a, s') -> Q a s' -> wp c s Q.
Proof. unfold wp. by intros ->. Qed.

Lemma bind_ret_eq {S A B} (c : M S A) (k : A -> M S B) s a s' :
  c s = Ret (a, s') -> bind c k s = k a s'.
Proof. unfold bind. by intros ->. Qed.

(** An invariant kept by the body of a counting loop holds after it. *)
Lemma wp_for_loop {S} (I : Z -> S -> Prop) (Q : unit -> S -> Prop) body n lo s :
  I lo s ->
  (forall i s, lo <= i < lo + Z.of_nat n -> I i s -> wp (body i) s (fun _ => I (i + 1))) ->
  (forall s, I (lo + Z.of_nat n) s -> Q tt s) ->
  wp (for_loop n lo body) s Q.
Proof.
  revert lo s. induction n as [|n IH]; intros lo s H0 Hbody HQ; simpl.
  - apply wp_ret, HQ. by rewrite Z.add_0_r.
  - apply wp_bind. eapply wp_mono; [apply Hbody; [lia|done]|].
    intros [] s' Hs'. apply IH; [done| |].
    + intros i s1 Hi. apply Hbody. lia.
    + intros s1 H1. apply HQ. by replace (lo + Z.of_nat (Datatypes.S n)) with (lo + 1 + Z.of_nat n) by lia.
Qed.

(** ** Integer facts *)

Lemma u8_range x : 0 <= u8 x < 2 ^ 8.
Proof. apply Z.mod_pos_bound. lia. Qed.
Lemma u32_range x : 0 <= u32 x < 2 ^ 32.
Proof. apply Z.mod_pos_bound. lia. Qed.
Lemma u64_range x : 0 <= u64 x < 2 ^ 64.
Proof. apply Z.mod_pos_bound. lia. Qed.
Lemma u8_small x : 0 <= x < 2 ^ 8 -> u8 x = x.
Proof. apply Z.mod_small. Qed.
Lemma u32_small x : 0 <= x < 2 ^ 32 -> u32 x = x.
Proof. apply Z.mod_small. Qed.
Lemma u64_small x : 0 <= x < 2 ^ 64 -> u64 x = x.
Proof. apply Z.mod_small. Qed.
Lemma s32_range x : - 2 ^ 31 <= s32 x < 2 ^ 31.
Proof. unfold s32. pose proof (Z.mod_pos_bound (x + 2 ^ 31) (2 ^ 32)). lia. Qed.
Lemma s32_small x : - 2 ^ 31 <= x < 2 ^ 31 -> s32 x = x.
Proof. intros. unfold s32. rewrite Z.mod_small; lia. Qed.

Lemma ctrue_true x : ctrue x = true <-> x <> 0.
Proof. unfold ctrue. rewrite negb_true_iff, Z.eqb_neq. done. Qed.
Lemma ctrue_false x : ctrue x = false <-> x = 0.
Proof. unfold ctrue. rewrite negb_false_iff, Z.eqb_eq. done. Qed.

(** Bits of a value below [2 ^ n] stop at [n]. *)
Lemma testbit_high x n i : 0 <= x < 2 ^ n -> n <= i -> Z.testbit x i = false.
Proof.
  intros Hx Hi. destruct (Z.eq_dec x 0) as [->|Hne]; [apply Z.testbit_0_l|].
  apply Z.bits_above_log2; [lia|]. assert (Z.log2 x < n) by (apply Z.log2_lt_pow2; lia). lia.
Qed.

(** A value with no bit at or above [n] is below [2 ^ n]. *)
Lemma bits_bound x n : 0 <= x -> 0 <= n -> (forall i, n <= i -> Z.testbit x i = false) -> x < 2 ^ n.
Proof.
  intros Hx Hn Hb. destruct (Z.eq_dec x 0) as [->|Hne]; [by apply Z.pow_pos_nonneg|].
  apply Z.log2_lt_pow2; [lia|]. destruct (Z.lt_ge_cases (Z.log2 x) n) as [|Hge]; [done|].
  pose proof (Z.bit_log2 x) as Hbit. rewrite Hb in Hbit by lia. specialize (Hbit ltac:(lia)). done.
Qed.

(** ** Lists *)

Lemma NoDup_bind_inv {A B} (f : A -> list B) (l : list A) :
  NoDup (l ≫= f) ->
  (forall x, x ∈ l -> NoDup (f x)) /\
  (NoDup l -> forall x y z, x ∈ l -> y ∈ l -> z ∈ f x -> z ∈ f y -> x = y).
Proof.
  induction l as [|a l IH]; [set_solver|]. rewrite bind_cons. intros (Ha & Hd & Hl)%NoDup_app.
  destruct (IH Hl) as [IH1 IH2]. split; [set_solver|].
  intros [Hna Hnd]%NoDup_cons x y z Hx Hy Hzx Hzy.
  assert (Hout : forall w, w ∈ l -> z ∈ f w -> z ∈ f a -> False).
  { intros w Hw Hzw Hza. apply (Hd z Hza), list_elem_of_bind. eauto. }
  apply elem_of_cons in Hx as [->|Hx], Hy as [->|Hy]; naive_solver.
Qed.

Lemma app_self_nil {A} (k l : list A) : l = k ++ l -> k = [].
Proof. intros H. apply (f_equal length) in H. rewrite length_app in H. destruct k; [done|simpl in H; lia]. Qed.

Lemma submseteq_NoDup {A} (l1 l2 : list A) : NoDup l2 -> l1 ⊆+ l2 -> NoDup l1.
Proof.
  intros Hnd [k Hk]%submseteq_Permutation. rewrite Hk in Hnd. by apply NoDup_app in Hnd as [? _].
Qed.

(** Replacing one block of a concatenation by a longer one. *)
Lemma bind_update {A B} (f g : A -> list B) (l : list A) i new :
  NoDup l -> i ∈ l -> (forall j, j ∈ l -> j <> i -> g j = f j) -> g i ≡ₚ new ++ f i ->
  (l ≫= g) ≡ₚ new ++ (l ≫= f).
Proof.
  intros Hnd Hi Hj Hg. induction l as [|a l IH]; [by apply not_elem_of_nil in Hi|].
  apply NoDup_cons in Hnd as [Hna Hnd]. rewrite !bind_cons.
  apply elem_of_cons in Hi as [<-|Hi].
  - rewrite Hg, <- app_assoc. do 2 f_equiv. apply Permutation_refl', Forall_bind_ext, Forall_forall.
    set_solver.
  - rewrite IH by set_solver. rewrite (Hj a) by set_solver. solve_Permutation.
Qed.

(** ** Automation *)

Create HintDb xv6.
#[export] Hint Resolve u8_range u32_range u64_range s32_range : xv6.

(** Reduce the head of a [wp] goal by one step of the monad. *)
Ltac wp_step :=
  lazymatch goal with
  | |- wp (bind _ _) _ _ => apply wp_bind
  | |- wp (ret _) _ _ => apply wp_ret
  | |- wp get _ _ => apply wp_get
  | |- wp (put _) _ _ => apply wp_put
  | |- wp (gets _) _ _ => apply wp_gets
  | |- wp (modify _) _ _ => apply wp_modify
  | |- wp (when ?b _) _ _ => unfold when; destruct b eqn:?
  end.
Ltac wp_steps := repeat (wp_step; cbn beta iota).

(** Turn boolean comparisons in the context and the goal into propositions. *)
Ltac bool_prop :=
  repeat match goal with
  | H : (_ && _)%bool = true |- _ => apply andb_prop in H as [? ?]
  | H : (_ && _)%bool = false |- _ => apply andb_false_iff in H
  | H : (_ || _)%bool = false |- _ => apply orb_false_iff in H as [? ?]
  | H : (_ || _)%bool = true |- _ => apply orb_true_iff in H
  | H : negb _ = true |- _ => apply negb_true_iff in H
  | H : negb _ = false |- _ => apply negb_false_iff in H
  | H : (_ =? _) = true |- _ => apply Z.eqb_eq in H
  | H : (_ =? _) = false |- _ => apply Z.eqb_neq in H
  | H : (_ <? _) = true |- _ => apply Z.ltb_lt in H
  | H : (_ <? _) = false |- _ => apply Z.ltb_ge in H
  | H : (_ <=? _) = true |- _ => apply Z.leb_le in H
  | H : (_ <=? _) = false |- _ => apply Z.leb_gt in H
  | H : (_ >=? _) = true |- _ => rewrite Z.geb_leb in H
  | H : (_ >=? _) = false |- _ => rewrite Z.geb_leb in H
  | H : (_ >? _) = true |- _ => rewrite Z.gtb_ltb in H
  | H : (_ >? _) = false |- _ => rewrite Z.gtb_ltb in H
  | H : ctrue _ = true |- _ => apply ctrue_true in H
  | H : ctrue _ = false |- _ => apply ctrue_false in H
  end.

(** Distinctness of a list all of whose elements, with multiplicity, are in
    the distinct list of [H]. *)
Ltac nodup_from H := eapply submseteq_NoDup; [exact H|]; solve_submseteq.

(** Membership in concatenations of lists. *)
Ltac in_cases :=
  repeat match goal with
  | H : _ ∈ _ ++ _ |- _ => apply elem_of_app in H as [H|H]
  | H : _ ∈ _ :: _ |- _ => apply elem_of_cons in H as [H|H]
  | H : _ ∈ [] |- _ => by apply not_elem_of_nil in H
  | H : _ ∈ _ \/ _ |- _ => destruct H as [H|H]
  end.
Ltac in_solve :=
  match goal with
  | H : ?P |- ?P => exact H
  | |- ?x = ?x => exact eq_refl
  | |- _ \/ _ => left; in_solve
  | |- _ \/ _ => right; in_solve
  | H : ?P, H' : ?P -> False |- _ => destruct (H' H)
  | H : ?P, H' : ~ ?P |- _ => destruct (H' H)
  end.
Ltac in_list :=
  intros; in_cases;
  repeat first [rewrite elem_of_app | rewrite elem_of_cons | rewrite elem_of_nil]; in_solve.

(** Case analysis on every comparison of the goal, closing the impossible cases. *)
Ltac zcases :=
  repeat match goal with
  | |- context [?a <=? ?b] => destruct (Z.leb_spec a b)
  | |- context [?a <? ?b] => destruct (Z.ltb_spec a b)
  | |- context [?a =? ?b] => destruct (Z.eqb_spec a b)
  end; cbn [andb orb negb]; try done; try lia.
