(* ===== verification/Riscv.v ===== *)
(** * Constants and address arithmetic

    kernel/param.h, kernel/memlayout.h and the Sv39 macros of kernel/riscv.h.
    The macros keep the C bit operations; the lemmas give the arithmetic the
    page-table proofs use. *)
From S2P Require Import Prelude.

(** ** kernel/param.h *)
Definition NPROC : Z := 64.
Definition NCPU : Z := 8.
Definition NOFILE : Z := 16.
Definition NFILE : Z := 100.
Definition NINODE : Z := 50.
Definition NDEV : Z := 10.
Definition ROOTDEV : Z := 1.
Definition MAXARG : Z := 32.
Definition MAXOPBLOCKS : Z := 10.
Definition LOGSIZE : Z := MAXOPBLOCKS * 3.
Definition NBUF : Z := MAXOPBLOCKS * 3.
Definition FSSIZE : Z := 2000.
Definition MAXPATH : Z := 128.

(** ** kernel/riscv.h: pages and page-table entries *)
Definition PGSIZE : Z := 4096.
Definition PGSHIFT : Z := 12.
Definition PGROUNDUP (sz : Z) : Z := Z.land (u64 (sz + PGSIZE - 1)) (u64 (Z.lnot (PGSIZE - 1))).
Definition PGROUNDDOWN (a : Z) : Z := Z.land a (u64 (Z.lnot (PGSIZE - 1))).

Definition PTE_V : Z := Z.shiftl 1 0.
Definition PTE_R : Z := Z.shiftl 1 1.
Definition PTE_W : Z := Z.shiftl 1 2.
Definition PTE_X : Z := Z.shiftl 1 3.
Definition PTE_U : Z := Z.shiftl 1 4.

Definition PA2PTE (pa : Z) : Z := u64 (Z.shiftl (Z.shiftr pa 12) 10).
Definition PTE2PA (pte : Z) : Z := u64 (Z.shiftl (Z.shiftr pte 10) 12).
Definition PTE_FLAGS (pte : Z) : Z := Z.land pte 0x3FF.

Definition PXMASK : Z := 0x1FF.
Definition PXSHIFT (level : Z) : Z := PGSHIFT + 9 * level.
Definition PX (level va : Z) : Z := Z.land (Z.shiftr va (PXSHIFT level)) PXMASK.
Definition MAXVA : Z := Z.shiftl 1 (9 + 9 + 9 + 12 - 1).

Definition SATP_SV39 : Z := Z.shiftl 8 60.
Definition MAKE_SATP (pagetable : Z) : Z := Z.lor SATP_SV39 (Z.shiftr pagetable 12).

(** ** kernel/memlayout.h *)
Definition UART0 : Z := 0x10000000.
Definition UART0_IRQ : Z := 10.
Definition VIRTIO0 : Z := 0x10001000.
Definition VIRTIO0_IRQ : Z := 1.
Definition CLINT : Z := 0x2000000.
Definition PLIC : Z := 0x0c000000.
Definition KERNBASE : Z := 0x80000000.
Definition PHYSTOP : Z := KERNBASE + 128 * 1024 * 1024.
Definition TRAMPOLINE : Z := MAXVA - PGSIZE.
Definition KSTACK (p : Z) : Z := TRAMPOLINE - (p + 1) * 2 * PGSIZE.
Definition TRAPFRAME : Z := TRAMPOLINE - PGSIZE.

(** ** Arithmetic readings of the macros *)

Lemma land_page_mask x : 0 <= x < 2 ^ 64 -> Z.land x (u64 (Z.lnot (PGSIZE - 1))) = x - x mod PGSIZE.
Proof.
  intros Hx. replace (x - x mod PGSIZE) with (Z.ldiff x (Z.ones 12)).
  2:{ rewrite Z.ldiff_ones_r by lia. rewrite Z.shiftr_div_pow2, Z.shiftl_mul_pow2 by lia.
      unfold PGSIZE. pose proof (Z.div_mod x 4096). change (2 ^ 12) with 4096. lia. }
  change (u64 (Z.lnot (PGSIZE - 1))) with (Z.land (Z.lnot (Z.ones 12)) (Z.ones 64)).
  apply Z.bits_inj'. intros i Hi.
  rewrite Z.land_spec, Z.land_spec, Z.ldiff_spec, Z.lnot_spec by done.
  destruct (Z.lt_ge_cases i 64).
  - rewrite (Z.ones_spec_low 64) by lia. by rewrite andb_true_r.
  - by rewrite (testbit_high x 64) by lia.
Qed.

Lemma PGROUNDDOWN_eq a : 0 <= a < 2 ^ 64 -> PGROUNDDOWN a = a - a mod PGSIZE.
Proof. apply land_page_mask. Qed.

Lemma PGROUNDUP_eq a :
  0 <= a -> a + PGSIZE - 1 < 2 ^ 64 -> PGROUNDUP a = (a + PGSIZE - 1) / PGSIZE * PGSIZE.
Proof.
  intros H0 H1. unfold PGROUNDUP. rewrite u64_small by (unfold PGSIZE in *; lia).
  rewrite land_page_mask by (unfold PGSIZE in *; lia).
  unfold PGSIZE in *. pose proof (Z.div_mod (a + 4096 - 1) 4096). lia.
Qed.

(** Facts in the form [lia] uses: rounding up stays within a page and is aligned. *)
Lemma PGROUNDUP_bounds a :
  0 <= a -> a + PGSIZE - 1 < 2 ^ 64 ->
  a <= PGROUNDUP a < a + PGSIZE /\ PGROUNDUP a mod PGSIZE = 0.
Proof.
  intros H0 H1. rewrite PGROUNDUP_eq by done. unfold PGSIZE in *.
  rewrite Z.mod_mul by lia. pose proof (Z.div_mod (a + 4096 - 1) 4096).
  pose proof (Z.mod_pos_bound (a + 4096 - 1) 4096). lia.
Qed.

Lemma PGROUNDDOWN_bounds a :
  0 <= a < 2 ^ 64 ->
  a - PGSIZE < PGROUNDDOWN a <= a /\ 0 <= PGROUNDDOWN a /\ PGROUNDDOWN a mod PGSIZE = 0.
Proof.
  intros H. rewrite PGROUNDDOWN_eq by done. unfold PGSIZE in *.
  pose proof (Z.mod_pos_bound a 4096 ltac:(lia)). pose proof (Z.div_mod a 4096 ltac:(lia)).
  assert (0 <= a / 4096) by (apply Z.div_pos; lia).
  replace (a - a mod 4096) with (a / 4096 * 4096) by lia. rewrite Z.mod_mul by lia. lia.
Qed.

Lemma PGROUNDUP_aligned a :
  0 <= a -> a + PGSIZE - 1 < 2 ^ 64 -> a mod PGSIZE = 0 -> PGROUNDUP a = a.
Proof.
  intros H0 H1 H2. pose proof (PGROUNDUP_bounds a H0 H1) as [Hb Hm]. unfold PGSIZE in *.
  pose proof (Z.div_mod a 4096 ltac:(lia)). pose proof (Z.div_mod (PGROUNDUP a) 4096 ltac:(lia)). lia.
Qed.

Lemma PGROUNDDOWN_aligned a : 0 <= a < 2 ^ 64 -> a mod PGSIZE = 0 -> PGROUNDDOWN a = a.
Proof. intros H0 H1. rewrite PGROUNDDOWN_eq by done. lia. Qed.

Lemma MAXVA_eq : MAXVA = 274877906944.
Proof. done. Qed.

Lemma TRAPFRAME_eq : TRAPFRAME = 274877898752.
Proof. done. Qed.

(** The addresses that the three indices of Sv39 tell apart; [MAXVA] is half of it. *)
Definition VASPAN : Z := 2 ^ 39.

Lemma VASPAN_eq : VASPAN = 549755813888.
Proof. done. Qed.

(** Arithmetic on virtual addresses. *)
Ltac va_lia := rewrite ?MAXVA_eq, ?VASPAN_eq, ?TRAPFRAME_eq in *; unfold PGSIZE in *; lia.

Lemma PX_range level va : 0 <= PX level va < 512.
Proof.
  unfold PX. change PXMASK with (Z.ones 9). rewrite Z.land_ones by lia.
  apply Z.mod_pos_bound. lia.
Qed.

Lemma PX_eq level va : 0 <= level -> PX level va = va / 2 ^ (12 + 9 * level) mod 512.
Proof.
  intros H. unfold PX. change PXMASK with (Z.ones 9). rewrite Z.land_ones by lia.
  unfold PXSHIFT, PGSHIFT. by rewrite Z.shiftr_div_pow2 by lia.
Qed.

(** Two Sv39 addresses with the same three indices share a page. *)
Lemma PX_inj va va' :
  0 <= va < 2 ^ 39 -> 0 <= va' < 2 ^ 39 ->
  PX 2 va = PX 2 va' -> PX 1 va = PX 1 va' -> PX 0 va = PX 0 va' ->
  va / PGSIZE = va' / PGSIZE.
Proof.
  intros Hva Hva'. rewrite !PX_eq by lia. unfold PGSIZE.
  change (12 + 9 * 2) with 30. change (12 + 9 * 1) with 21. change (12 + 9 * 0) with 12.
  replace (va / 2 ^ 30) with (va / 4096 / 512 / 512) by (rewrite !Z.div_div by lia; done).
  replace (va' / 2 ^ 30) with (va' / 4096 / 512 / 512) by (rewrite !Z.div_div by lia; done).
  replace (va / 2 ^ 21) with (va / 4096 / 512) by (rewrite !Z.div_div by lia; done).
  replace (va' / 2 ^ 21) with (va' / 4096 / 512) by (rewrite !Z.div_div by lia; done).
  change (2 ^ 12) with 4096.
  assert (0 <= va / 4096 < 2 ^ 27) by (split; [apply Z.div_pos; lia|apply Z.div_lt_upper_bound; lia]).
  assert (0 <= va' / 4096 < 2 ^ 27) by (split; [apply Z.div_pos; lia|apply Z.div_lt_upper_bound; lia]).
  generalize dependent (va / 4096). generalize dependent (va' / 4096). intros y Hy x Hx.
  intros H2 H1 H0. Z.div_mod_to_equations. lia.
Qed.

(** The indices only look at the page of an address. *)
Lemma PX_page level va :
  0 <= level -> PX level va = PX level (va / PGSIZE * PGSIZE).
Proof.
  intros H. rewrite !PX_eq by done. unfold PGSIZE. rewrite Z.pow_add_r by lia.
  change (2 ^ 12) with 4096. rewrite <- !Z.div_div by lia. by rewrite Z.div_mul by lia.
Qed.

Lemma lor_flags x fl : 0 <= fl < 2 ^ 10 -> Z.lor (x * 2 ^ 10) fl = x * 2 ^ 10 + fl.
Proof.
  intros H. symmetry. apply Z.add_nocarry_lor. apply Z.bits_inj'. intros i Hi.
  rewrite Z.land_spec, Z.testbit_0_l. destruct (Z.lt_ge_cases i 10).
  - by rewrite Z.mul_pow2_bits_low by lia.
  - by rewrite (testbit_high fl 10) by lia; rewrite andb_false_r.
Qed.

Lemma PA2PTE_eq pa : 0 <= pa < 2 ^ 56 -> PA2PTE pa = pa / PGSIZE * 2 ^ 10.
Proof.
  intros H. unfold PA2PTE. rewrite Z.shiftr_div_pow2, Z.shiftl_mul_pow2 by lia.
  change (2 ^ 12) with PGSIZE. apply u64_small. unfold PGSIZE.
  assert (0 <= pa / 4096 < 2 ^ 44) by (split; [apply Z.div_pos; lia|apply Z.div_lt_upper_bound; lia]).
  lia.
Qed.

(** A page-table entry made from a page address and flags, taken apart again. *)
Lemma PTE2PA_PA2PTE pa fl :
  0 <= pa < 2 ^ 56 -> pa mod PGSIZE = 0 -> 0 <= fl < 2 ^ 10 ->
  PTE2PA (Z.lor (PA2PTE pa) fl) = pa.
Proof.
  intros H Hal Hf. rewrite PA2PTE_eq, lor_flags by done. unfold PTE2PA.
  rewrite Z.shiftr_div_pow2, Z.shiftl_mul_pow2 by lia.
  rewrite Z.div_add_l, (Z.div_small fl) by lia. rewrite Z.add_0_r.
  unfold PGSIZE in *. pose proof (Z.div_mod pa 4096 ltac:(lia)).
  rewrite u64_small; lia.
Qed.

Lemma PTE_FLAGS_PA2PTE pa fl :
  0 <= pa < 2 ^ 56 -> 0 <= fl < 2 ^ 10 -> PTE_FLAGS (Z.lor (PA2PTE pa) fl) = fl.
Proof.
  intros H Hf. rewrite PA2PTE_eq, lor_flags by done. unfold PTE_FLAGS.
  change 0x3FF with (Z.ones 10). rewrite Z.land_ones by lia.
  rewrite Z.add_comm, Z.mod_add by lia. by apply Z.mod_small.
Qed.

Lemma pte_range pa fl :
  0 <= pa < 2 ^ 56 -> 0 <= fl < 2 ^ 10 -> 0 <= Z.lor (PA2PTE pa) fl < 2 ^ 64.
Proof.
  intros H Hf. rewrite PA2PTE_eq, lor_flags by done. unfold PGSIZE.
  assert (0 <= pa / 4096 < 2 ^ 44) by (split; [apply Z.div_pos; lia|apply Z.div_lt_upper_bound; lia]).
  lia.
Qed.

(** A flag bit of an entry is a flag bit of its low ten bits. *)
Lemma land_flag_PTE_FLAGS pte b : 0 <= b < 2 ^ 10 -> Z.land pte b = Z.land (PTE_FLAGS pte) b.
Proof.
  intros H. unfold PTE_FLAGS. rewrite <- Z.land_assoc. f_equal.
  change 0x3FF with (Z.ones 10). rewrite Z.land_comm, Z.land_ones by lia. by rewrite Z.mod_small by lia.
Qed.

#[export] Hint Resolve PX_range : xv6.
