(* ===== verification/Mem.v ===== *)
(** * Byte-addressed memory

    Physical memory as the kernel's direct map sees it: a function from
    addresses to byte values, with the little-endian multi-byte accesses the
    compiled code performs.  Reads go through [ld8], so a memory cell always
    reads as a byte. *)
From S2P Require Import Prelude.

Definition memory : Type := Z -> Z.

Definition ld8 (m : memory) (a : Z) : Z := u8 (m a).
Definition st8 (m : memory) (a v : Z) : memory := fun x => if x =? a then u8 v else m x.

(** [n]-byte little-endian load and store. *)
Fixpoint ldn (n : nat) (m : memory) (a : Z) : Z :=
  match n with
  | O => 0
  | S n' => ld8 m a + 256 * ldn n' m (a + 1)
  end.

Fixpoint stn (n : nat) (m : memory) (a v : Z) : memory :=
  match n with
  | O => m
  | S n' => stn n' (st8 m a v) (a + 1) (v / 256)
  end.

Definition ld16 : memory -> Z -> Z := ldn 2.
Definition st16 : memory -> Z -> Z -> memory := stn 2.
Definition ld32 : memory -> Z -> Z := ldn 4.
Definition st32 : memory -> Z -> Z -> memory := stn 4.
Definition ld64 : memory -> Z -> Z := ldn 8.
Definition st64 : memory -> Z -> Z -> memory := stn 8.

(** The [n] bytes at [a], and writing a list of bytes at [a]. *)
Fixpoint rd_bytes (n : nat) (m : memory) (a : Z) : list Z :=
  match n with
  | O => []
  | S n' => ld8 m a :: rd_bytes n' m (a + 1)
  end.

Fixpoint wr_bytes (m : memory) (a : Z) (bs : list Z) : memory :=
  match bs with
  | [] => m
  | b :: bs' => wr_bytes (st8 m a b) (a + 1) bs'
  end.

(** Two memories agree on the bytes from [lo] up to [hi]. *)
Definition agree (lo hi : Z) (m m' : memory) : Prop := forall x, lo <= x < hi -> ld8 m x = ld8 m' x.

Lemma agree_refl lo hi m : agree lo hi m m.
Proof. done. Qed.

Lemma agree_sym lo hi m m' : agree lo hi m m' -> agree lo hi m' m.
Proof. intros H x Hx. by rewrite H. Qed.

Lemma agree_trans lo hi m1 m2 m3 : agree lo hi m1 m2 -> agree lo hi m2 m3 -> agree lo hi m1 m3.
Proof. intros H1 H2 x Hx. by rewrite H1, H2. Qed.

Lemma agree_sub lo hi lo' hi' m m' : agree lo hi m m' -> lo <= lo' -> hi' <= hi -> agree lo' hi' m m'.
Proof. intros H Hl Hh x Hx. apply H. lia. Qed.

Lemma ld8_range m a : 0 <= ld8 m a < 256.
Proof. apply u8_range. Qed.

Lemma u8_ld8 m a : u8 (ld8 m a) = ld8 m a.
Proof. apply u8_small, ld8_range. Qed.

Lemma ld8_st8 m a v x : ld8 (st8 m a v) x = if x =? a then u8 v else ld8 m x.
Proof. unfold ld8, st8. zcases. apply u8_small, u8_range. Qed.

Lemma ldn_S n m a : ldn (S n) m a = ld8 m a + 256 * ldn n m (a + 1).
Proof. done. Qed.

Lemma stn_S n m a v : stn (S n) m a v = stn n (st8 m a v) (a + 1) (v / 256).
Proof. done. Qed.

Lemma pow_8S n : 2 ^ (8 * Z.of_nat (S n)) = 256 * 2 ^ (8 * Z.of_nat n).
Proof.
  replace (8 * Z.of_nat (S n)) with (8 + 8 * Z.of_nat n) by lia. by rewrite Z.pow_add_r by lia.
Qed.

Lemma ldn_range n m a : 0 <= ldn n m a < 2 ^ (8 * Z.of_nat n).
Proof.
  revert a. induction n as [|n IH]; intros a; [done|].
  rewrite ldn_S, pow_8S. specialize (IH (a + 1)). pose proof (ld8_range m a). lia.
Qed.

Lemma ldn_agree n m m' a : agree a (a + Z.of_nat n) m m' -> ldn n m a = ldn n m' a.
Proof.
  revert a. induction n as [|n IH]; intros a H; [done|].
  rewrite !ldn_S, (H a), (IH (a + 1)); [done| |lia]. eapply agree_sub; [done|lia|lia].
Qed.

Lemma stn_frame n m a v x : x < a \/ a + Z.of_nat n <= x -> ld8 (stn n m a v) x = ld8 m x.
Proof.
  revert m a v. induction n as [|n IH]; intros m a v H; [done|].
  rewrite stn_S, IH, ld8_st8 by lia. zcases.
Qed.

Lemma ldn_stn_eq n m a v : ldn n (stn n m a v) a = v mod 2 ^ (8 * Z.of_nat n).
Proof.
  revert m a v. induction n as [|n IH]; intros m a v; [by rewrite Z.mod_1_r|].
  rewrite ldn_S, stn_S, IH, stn_frame, ld8_st8, Z.eqb_refl, pow_8S by lia.
  by rewrite Z.rem_mul_r by lia.
Qed.

Lemma ldn_stn_ne n k m a b v :
  b + Z.of_nat n <= a \/ a + Z.of_nat k <= b -> ldn n (stn k m a v) b = ldn n m b.
Proof. intros H. apply ldn_agree. intros x Hx. apply stn_frame. lia. Qed.

Lemma ld64_range m a : 0 <= ld64 m a < 2 ^ 64.
Proof. apply (ldn_range 8). Qed.

Lemma ld64_agree m m' a : agree a (a + 8) m m' -> ld64 m a = ld64 m' a.
Proof. apply (ldn_agree 8). Qed.

Lemma ld64_st64_eq m a v : 0 <= v < 2 ^ 64 -> ld64 (st64 m a v) a = v.
Proof. intros H. unfold ld64, st64. rewrite (ldn_stn_eq 8). by apply Z.mod_small. Qed.

Lemma ld64_st64_ne m a b v : b + 8 <= a \/ a + 8 <= b -> ld64 (st64 m a v) b = ld64 m b.
Proof. intros H. apply (ldn_stn_ne 8 8). lia. Qed.

Lemma st64_frame m a v x : x < a \/ a + 8 <= x -> ld8 (st64 m a v) x = ld8 m x.
Proof. intros H. apply (stn_frame 8). lia. Qed.

Lemma ld64_zero m a : (forall x, a <= x < a + 8 -> ld8 m x = 0) -> ld64 m a = 0.
Proof. intros H. rewrite (ld64_agree m (fun _ => 0)); [done|]. intros x Hx. by rewrite H. Qed.

Lemma rd_bytes_length n m a : length (rd_bytes n m a) = n.
Proof. revert a. induction n; intros a; simpl; auto. Qed.

Lemma rd_bytes_lookup n m a i : (i < n)%nat -> rd_bytes n m a !! i = Some (ld8 m (a + Z.of_nat i)).
Proof.
  revert a i. induction n as [|n IH]; intros a i Hi; [lia|]. destruct i as [|i]; simpl.
  - by rewrite Z.add_0_r.
  - rewrite IH by lia. do 2 f_equal. lia.
Qed.

Lemma rd_bytes_agree n m m' a : agree a (a + Z.of_nat n) m m' -> rd_bytes n m a = rd_bytes n m' a.
Proof.
  revert a. induction n as [|n IH]; intros a H; simpl; [done|].
  rewrite (H a) by lia. f_equal. apply IH. eapply agree_sub; [done|lia|lia].
Qed.

Lemma rd_bytes_app n k m a : rd_bytes (n + k) m a = rd_bytes n m a ++ rd_bytes k m (a + Z.of_nat n).
Proof.
  revert a. induction n as [|n IH]; intros a; simpl.
  - by rewrite Z.add_0_r.
  - rewrite IH. do 2 f_equal. f_equal. lia.
Qed.

Lemma wr_bytes_frame m a bs x :
  x < a \/ a + Z.of_nat (length bs) <= x -> ld8 (wr_bytes m a bs) x = ld8 m x.
Proof.
  revert m a. induction bs as [|b bs IH]; intros m a H; simpl in *; [done|].
  rewrite IH, ld8_st8 by lia. zcases.
Qed.

Lemma wr_bytes_at m a bs x b :
  a <= x -> bs !! Z.to_nat (x - a) = Some b -> ld8 (wr_bytes m a bs) x = u8 b.
Proof.
  revert m a. induction bs as [|b' bs IH]; intros m a Hx Hb; [done|]. simpl.
  destruct (Z.eq_dec x a) as [->|Hne].
  - rewrite wr_bytes_frame, ld8_st8, Z.eqb_refl by lia. rewrite Z.sub_diag in Hb. by simplify_eq/=.
  - apply IH; [lia|]. replace (Z.to_nat (x - a)) with (S (Z.to_nat (x - (a + 1)))) in Hb by lia. done.
Qed.

Lemma rd_wr_bytes m a bs :
  Forall (fun b => 0 <= b < 256) bs -> rd_bytes (length bs) (wr_bytes m a bs) a = bs.
Proof.
  intros Hb. apply list_eq. intros i. destruct (Nat.lt_ge_cases i (length bs)) as [Hi|Hi].
  - rewrite rd_bytes_lookup by done. destruct (lookup_lt_is_Some_2 bs i Hi) as [b Hlook].
    rewrite Hlook. f_equal. rewrite (wr_bytes_at _ _ _ _ b); [|lia|].
    + rewrite Forall_lookup in Hb. apply u8_small. by apply (Hb i).
    + by replace (Z.to_nat (a + Z.of_nat i - a)) with i by lia.
  - rewrite !lookup_ge_None_2; [done|done|by rewrite rd_bytes_length].
Qed.

Lemma rd_bytes_byte n m a : Forall (fun b => 0 <= b < 256) (rd_bytes n m a).
Proof. revert a. induction n; intros a; simpl; constructor; auto using ld8_range. Qed.

#[export] Hint Resolve agree_refl ld8_range ld64_range : xv6.
Arguments ldn : simpl never.
Arguments stn : simpl never.
Arguments ld64 : simpl never.
Arguments st64 : simpl never.
