(* ===== verification/KString.v ===== *)
(** * kernel/string.c

    The kernel's memory and string routines, loop for loop, over the byte
    memory of [Mem].  A pointer is a memory and an address; routines that read
    through two pointers take a memory for each, so that they also apply to
    arrays that live outside RAM (a local buffer is a memory based at 0). *)
From S2P Require Import Prelude Mem.

(** ** Definitions *)

Fixpoint memset_loop (k : nat) (m : memory) (cdst c i : Z) : memory :=
  match k with
  | O => m
  | S k' => memset_loop k' (st8 m (cdst + i) c) cdst c (i + 1)
  end.
Definition memset (m : memory) (dst c n : Z) : memory := memset_loop (Z.to_nat n) m dst c 0.

Fixpoint memcmp_loop (n : nat) (m1 : memory) (s1 : Z) (m2 : memory) (s2 : Z) : Z :=
  match n with
  | O => 0
  | S n' => if negb (ld8 m1 s1 =? ld8 m2 s2) then ld8 m1 s1 - ld8 m2 s2
            else memcmp_loop n' m1 (s1 + 1) m2 (s2 + 1)
  end.
Definition memcmp (m1 : memory) (v1 : Z) (m2 : memory) (v2 n : Z) : Z :=
  memcmp_loop (Z.to_nat n) m1 v1 m2 v2.

(** [while(n-- > 0) *--d = *--s;] *)
Fixpoint memmove_down (n : nat) (m : memory) (d s : Z) : memory :=
  match n with
  | O => m
  | S n' => memmove_down n' (st8 m (d - 1) (ld8 m (s - 1))) (d - 1) (s - 1)
  end.
(** [while(n-- > 0) *d++ = *s++;] *)
Fixpoint memmove_up (n : nat) (m : memory) (d s : Z) : memory :=
  match n with
  | O => m
  | S n' => memmove_up n' (st8 m d (ld8 m s)) (d + 1) (s + 1)
  end.
Definition memmove (m : memory) (dst src n : Z) : memory :=
  if n =? 0 then m
  else if (src <? dst) && (src + n >? dst)
  then memmove_down (Z.to_nat n) m (dst + n) (src + n)
  else memmove_up (Z.to_nat n) m dst src.

Definition memcpy (m : memory) (dst src n : Z) : memory := memmove m dst src n.

Fixpoint strncmp (n : nat) (m1 : memory) (p : Z) (m2 : memory) (q : Z) : Z :=
  match n with
  | O => 0
  | S n' => if ctrue (ld8 m1 p) && (ld8 m1 p =? ld8 m2 q)
            then strncmp n' m1 (p + 1) m2 (q + 1)
            else ld8 m1 p - ld8 m2 q
  end.

(** [while(n-- > 0) *s++ = 0;] *)
Fixpoint zero_fill (n : nat) (m : memory) (s : Z) : memory :=
  match n with
  | O => m
  | S n' => zero_fill n' (st8 m s 0) (s + 1)
  end.
(** [ms] is the memory written, [mt] the one [t] points into before the call. *)
Fixpoint strncpy (n : nat) (ms : memory) (s : Z) (mt : memory) (t : Z) : memory :=
  match n with
  | O => ms
  | S n' => let c := ld8 mt t in
            let ms' := st8 ms s c in
            if ctrue c then strncpy n' ms' (s + 1) mt (t + 1) else zero_fill n' ms' (s + 1)
  end.

(** [while(--n > 0 && ( *s++ = *t++ ) != 0); *s = 0;] with [k = n - 1] copies left. *)
Fixpoint safestrcpy_loop (k : nat) (ms : memory) (s : Z) (mt : memory) (t : Z) : memory :=
  match k with
  | O => st8 ms s 0
  | S k' => let c := ld8 mt t in
            let ms' := st8 ms s c in
            if ctrue c then safestrcpy_loop k' ms' (s + 1) mt (t + 1) else st8 ms' (s + 1) 0
  end.
Definition safestrcpy (ms : memory) (s : Z) (mt : memory) (t n : Z) : memory :=
  if n <=? 0 then ms else safestrcpy_loop (Z.to_nat (n - 1)) ms s mt t.

(** [strlen] with a bound on the bytes it may look at; [None] when no NUL was
    met within the bound. *)
Fixpoint strlen_from (fuel : nat) (m : memory) (s n : Z) : option Z :=
  match fuel with
  | O => None
  | S k => if ctrue (ld8 m (s + n)) then strlen_from k m s (n + 1) else Some n
  end.
Definition strlen (fuel : nat) (m : memory) (s : Z) : option Z := strlen_from fuel m s 0.

(** The C string at [p], cut at [n] bytes: what a [char[n]] field holds. *)
Fixpoint cstr (n : nat) (m : memory) (p : Z) : list Z :=
  match n with
  | O => []
  | S n' => if ctrue (ld8 m p) then ld8 m p :: cstr n' m (p + 1) else []
  end.

(** ** memset, memmove *)

Lemma memset_loop_at k m cdst c i x :
  ld8 (memset_loop k m cdst c i) x =
  if (cdst + i <=? x) && (x <? cdst + i + Z.of_nat k) then u8 c else ld8 m x.
Proof.
  revert m i. induction k as [|k IH]; intros m i; cbn [memset_loop]; [zcases|].
  rewrite IH, ld8_st8. zcases.
Qed.

Lemma memset_at m dst c n x :
  ld8 (memset m dst c n) x = if (dst <=? x) && (x <? dst + n) then u8 c else ld8 m x.
Proof. unfold memset. rewrite memset_loop_at. zcases. Qed.

Lemma memset_in m dst c n x : dst <= x < dst + n -> ld8 (memset m dst c n) x = u8 c.
Proof. intros H. rewrite memset_at. zcases. Qed.

Lemma memset_out m dst c n x : x < dst \/ dst + n <= x -> ld8 (memset m dst c n) x = ld8 m x.
Proof. intros H. rewrite memset_at. zcases. Qed.

Lemma memmove_down_at n m d s x :
  s <= d ->
  ld8 (memmove_down n m d s) x =
  if (d - Z.of_nat n <=? x) && (x <? d) then ld8 m (s + (x - d)) else ld8 m x.
Proof.
  revert m d s. induction n as [|n IH]; intros m d s Hsd; cbn [memmove_down]; [zcases|].
  rewrite IH, !ld8_st8, u8_ld8 by lia.
  replace (s - 1 + (x - (d - 1))) with (s + (x - d)) by lia.
  zcases; f_equal; lia.
Qed.

Lemma memmove_up_at n m d s x :
  d <= s \/ s + Z.of_nat n <= d ->
  ld8 (memmove_up n m d s) x =
  if (d <=? x) && (x <? d + Z.of_nat n) then ld8 m (s + (x - d)) else ld8 m x.
Proof.
  revert m d s. induction n as [|n IH]; intros m d s Hsd; cbn [memmove_up]; [zcases|].
  rewrite IH, !ld8_st8, u8_ld8 by lia.
  replace (s + 1 + (x - (d + 1))) with (s + (x - d)) by lia.
  zcases; f_equal; lia.
Qed.

Lemma memmove_at m dst src n x :
  0 <= n ->
  ld8 (memmove m dst src n) x =
  if (dst <=? x) && (x <? dst + n) then ld8 m (src + (x - dst)) else ld8 m x.
Proof.
  intros Hn. unfold memmove. destruct (Z.eqb_spec n 0) as [->|Hn0]; [zcases|].
  destruct ((src <? dst) && (src + n >? dst)) eqn:E.
  - bool_prop. rewrite memmove_down_at by lia. rewrite Z2Nat.id by lia.
    replace (dst + n - n) with dst by lia.
    by replace (src + n + (x - (dst + n))) with (src + (x - dst)) by lia.
  - rewrite memmove_up_at; [by rewrite Z2Nat.id by lia|].
    rewrite Z2Nat.id by lia. bool_prop. destruct E; bool_prop; lia.
Qed.

(** ** strncmp, strncpy, safestrcpy, strlen *)

Lemma cstr_agree n m m' p p' :
  (forall i, 0 <= i < Z.of_nat n -> ld8 m (p + i) = ld8 m' (p' + i)) -> cstr n m p = cstr n m' p'.
Proof.
  revert p p'. induction n as [|n IH]; intros p p' H; simpl; [done|].
  pose proof (H 0 ltac:(lia)) as H0. rewrite !Z.add_0_r in H0. rewrite H0.
  destruct (ctrue _); [|done]. f_equal. apply IH. intros i Hi.
  replace (p + 1 + i) with (p + (1 + i)) by lia. replace (p' + 1 + i) with (p' + (1 + i)) by lia.
  apply H. lia.
Qed.

Lemma strncmp_cstr n m1 p m2 q : strncmp n m1 p m2 q = 0 <-> cstr n m1 p = cstr n m2 q.
Proof.
  revert p q. induction n as [|n IH]; intros p q; simpl; [done|].
  pose proof (ld8_range m1 p). pose proof (ld8_range m2 q).
  destruct (ctrue (ld8 m1 p)) eqn:Ep, (ctrue (ld8 m2 q)) eqn:Eq, (Z.eqb_spec (ld8 m1 p) (ld8 m2 q));
    bool_prop; simpl; try lia; rewrite ?IH; split; intros Hx; try done; try lia; try congruence.
Qed.

Lemma zero_fill_at n m s x :
  ld8 (zero_fill n m s) x = if (s <=? x) && (x <? s + Z.of_nat n) then 0 else ld8 m x.
Proof.
  revert m s. induction n as [|n IH]; intros m s; cbn [zero_fill]; [zcases|].
  rewrite IH, ld8_st8. zcases.
Qed.

Lemma strncpy_frame n ms s mt t x :
  x < s \/ s + Z.of_nat n <= x -> ld8 (strncpy n ms s mt t) x = ld8 ms x.
Proof.
  revert ms s t. induction n as [|n IH]; intros ms s t H; cbn [strncpy]; [done|].
  destruct (ctrue _); [rewrite IH by lia|rewrite zero_fill_at]; rewrite ld8_st8; zcases.
Qed.

Lemma strncpy_cstr n ms s mt t : cstr n (strncpy n ms s mt t) s = cstr n mt t.
Proof.
  revert ms s t. induction n as [|n IH]; intros ms s t; cbn [strncpy cstr]; [done|].
  destruct (ctrue (ld8 mt t)) eqn:E.
  - rewrite strncpy_frame, ld8_st8, Z.eqb_refl, u8_ld8, E, IH by lia. done.
  - rewrite zero_fill_at, ld8_st8, Z.eqb_refl, u8_ld8. bool_prop.
    rewrite E. by destruct (_ && _).
Qed.

Lemma safestrcpy_loop_cstr k ms s mt t :
  cstr (S k) (safestrcpy_loop k ms s mt t) s = cstr k mt t /\
  (forall x, x < s \/ s + Z.of_nat (S k) <= x -> ld8 (safestrcpy_loop k ms s mt t) x = ld8 ms x).
Proof.
  revert ms s t. induction k as [|k IH]; intros ms s t; cbn [safestrcpy_loop].
  - split; [cbn [cstr]; by rewrite ld8_st8, Z.eqb_refl|]. intros x Hx. rewrite ld8_st8. zcases.
  - destruct (ctrue (ld8 mt t)) eqn:E.
    + destruct (IH (st8 ms s (ld8 mt t)) (s + 1) (t + 1)) as [IH1 IH2]. split.
      * cbn [cstr] in IH1 |- *. rewrite IH1, IH2, ld8_st8, Z.eqb_refl, u8_ld8, E by lia. done.
      * intros x Hx. rewrite IH2, ld8_st8 by lia. zcases.
    + split.
      * cbn [cstr]. rewrite E, !ld8_st8, Z.eqb_refl, u8_ld8. destruct (Z.eqb_spec s (s + 1)); [lia|]. by rewrite E.
      * intros x Hx. rewrite !ld8_st8. zcases.
Qed.

Lemma strlen_from_cstr fuel m s n r :
  strlen_from fuel m s n = Some r ->
  n <= r < n + Z.of_nat fuel /\ ld8 m (s + r) = 0 /\ (forall i, n <= i < r -> ld8 m (s + i) <> 0).
Proof.
  revert n. induction fuel as [|k IH]; intros n H; [done|]. cbn [strlen_from] in H.
  destruct (ctrue (ld8 m (s + n))) eqn:E; bool_prop.
  - destruct (IH _ H) as (Hr & Hz & Hnz). repeat split; try lia. intros i Hi.
    destruct (Z.eq_dec i n) as [->|]; [done|]. apply Hnz. lia.
  - simplify_eq. repeat split; try lia.
Qed.

Lemma strlen_from_total fuel m s n k :
  n <= k < n + Z.of_nat fuel -> ld8 m (s + k) = 0 -> exists r, strlen_from fuel m s n = Some r /\ r <= k.
Proof.
  revert n. induction fuel as [|f IH]; intros n Hk Hz; [lia|]. cbn [strlen_from].
  destruct (ctrue (ld8 m (s + n))) eqn:E; bool_prop; [|exists n; split; [done|lia]].
  destruct (Z.eq_dec k n) as [->|]; [done|]. apply IH; [lia|done].
Qed.

#[global] Opaque memset.

(** ** Theorems *)

(** [memmove] copies correctly whatever the overlap.  After the call every
    byte of the destination range is the byte the source range held before
    it, and every byte outside the destination is unchanged. *)
Theorem memmove_correct (m : memory) (dst src n x : Z) :
  0 <= n ->
  ld8 (memmove m dst src n) x =
  if (dst <=? x) && (x <? dst + n) then ld8 m (src + (x - dst)) else ld8 m x.
Proof. apply memmove_at. Qed.

Lemma memmove_correct_witness :
  let m := wr_bytes (fun _ => 0) 10 [1; 2; 3; 4] in
  ld8 (memmove m 12 10 4) 15 = 4 /\ ld8 (memmove m 12 10 4) 11 = 2.
Proof.
  intros m. split; rewrite (memmove_correct m 12 10 4) by lia; reflexivity.
Defined.
