(* ===== verification/Kalloc.v ===== *)
(** * kernel/kalloc.c: the physical page allocator

    The free list is threaded through the free pages themselves
    ([struct run] in the first eight bytes of each), so the model keeps it in
    the byte memory.  A critical section under [kmem.lock] is one atomic step.
    Accesses go through [rd64], [wr64] and [kmemset], which fault outside RAM:
    a theorem that a routine returns therefore also shows that it stays inside
    physical memory. *)
From S2P Require Import Prelude Riscv Mem KString.

(** Addresses fixed by kernel/kernel.ld: the end of the kernel text, the end
    of the kernel image and the trampoline page, the last page of the text. *)
Class Layout : Type := {
  etext : Z;
  kend : Z;
  trampoline : Z;
  layout_etext : etext mod PGSIZE = 0;
  layout_trampoline : trampoline = etext - PGSIZE;
  layout_text : KERNBASE <= trampoline;
  layout_end : etext <= kend <= PHYSTOP;
}.

(** The memory and [kmem.freelist]. *)
Record kst : Type := Kst { mem : memory; freelist : Z }.

Definition in_ram (a n : Z) : bool := (KERNBASE <=? a) && (a + n <=? PHYSTOP).

Definition rd64 (a : Z) : M kst Z :=
  fun s => if in_ram a 8 then Ret (ld64 (mem s) a, s) else Fault.
Definition wr64 (a v : Z) : M kst unit :=
  fun s => if in_ram a 8 then Ret (tt, Kst (st64 (mem s) a v) (freelist s)) else Fault.
Definition kmemset (a c n : Z) : M kst unit :=
  fun s => if in_ram a n then Ret (tt, Kst (memset (mem s) a c n) (freelist s)) else Fault.

Section Allocator.
Context {L : Layout}.

(** ** The code *)

Definition kfree (pa : Z) : M kst unit :=
  if negb (pa mod PGSIZE =? 0) || (pa <? kend) || (pa >=? PHYSTOP) then panic "kfree" else
  kmemset pa 1 PGSIZE;;
  head <- gets freelist;;
  wr64 pa head;;
  modify (fun s => Kst (mem s) pa).

Fixpoint freerange_loop (fuel : nat) (p pa_end : Z) : M kst unit :=
  if p + PGSIZE <=? pa_end then
    match fuel with
    | O => diverge
    | S k => kfree p;; freerange_loop k (p + PGSIZE) pa_end
    end
  else ret tt.
Definition freerange (pa_start pa_end : Z) : M kst unit :=
  let p := PGROUNDUP pa_start in
  freerange_loop (Z.to_nat ((pa_end - p) / PGSIZE)) p pa_end.

Definition kinit : M kst unit := freerange kend PHYSTOP.

Definition kalloc : M kst Z :=
  r <- gets freelist;;
  (if ctrue r then
     next <- rd64 r;;
     modify (fun s => Kst (mem s) next);;
     kmemset r 5 PGSIZE
   else ret tt);;
  ret r.

Fixpoint get_free_mem_loop (fuel : nat) (r pages : Z) : M kst Z :=
  if ctrue r then
    match fuel with
    | O => diverge
    | S k => next <- rd64 r;; get_free_mem_loop k next (u64 (pages + 1))
    end
  else ret pages.
(** One iteration per page of RAM is enough for a list without repetition. *)
Definition free_mem_fuel : nat := Z.to_nat ((PHYSTOP - KERNBASE) / PGSIZE).
Definition get_free_mem : M kst Z :=
  r <- gets freelist;;
  pages <- get_free_mem_loop free_mem_fuel r 0;;
  ret (u64 (Z.shiftl pages 12)).

(** ** The representation invariant *)

(** What [kfree] accepts. *)
Definition page_ok (pa : Z) : Prop := pa mod PGSIZE = 0 /\ kend <= pa < PHYSTOP.

(** The list that starts at [h] holds exactly the pages [l], in order. *)
Fixpoint free_chain (m : memory) (h : Z) (l : list Z) : Prop :=
  match l with
  | [] => h = 0
  | p :: l' => h = p /\ page_ok p /\ free_chain m (ld64 m p) l'
  end.

Definition free_list (s : kst) (l : list Z) : Prop :=
  free_chain (mem s) (freelist s) l /\ NoDup l.

(** Only bytes of the pages [ps] differ. *)
Definition mod_only (ps : list Z) (m m' : memory) : Prop :=
  forall x, (forall p, p ∈ ps -> ~ (p <= x < p + PGSIZE)) -> ld8 m x = ld8 m' x.

(** The [n] pages from [p] up. *)
Definition page_run (p : Z) (n : nat) : list Z := (fun i => p + PGSIZE * Z.of_nat i) <$> seq 0 n.

(** Every page [kinit] hands to the allocator. *)
Definition all_pages : list Z :=
  page_run (PGROUNDUP kend) (Z.to_nat ((PHYSTOP - PGROUNDUP kend) / PGSIZE)).

(** ** A client of the allocator

    [held] are the pages the rest of the kernel owns.  It may allocate, free a
    page it holds, and write whatever it likes into pages it holds. *)
Inductive client_step : kst * list Z -> kst * list Z -> Prop :=
| client_alloc s held r s' :
    kalloc s = Ret (r, s') ->
    client_step (s, held) (s', if ctrue r then r :: held else held)
| client_free s held p held' s' :
    held ≡ₚ p :: held' -> kfree p s = Ret (tt, s') ->
    client_step (s, held) (s', held')
| client_write s held s' :
    freelist s' = freelist s -> mod_only held (mem s) (mem s') ->
    client_step (s, held) (s', held).
End Allocator.

Section AllocatorProofs.
Context {L : Layout}.

(** ** Pages *)

Lemma kend_bounds : KERNBASE + PGSIZE <= kend <= PHYSTOP.
Proof. pose proof layout_text. pose proof layout_end. pose proof layout_trampoline. lia. Qed.

Lemma page_ok_bounds p : page_ok p -> KERNBASE + PGSIZE <= p /\ p + PGSIZE <= PHYSTOP.
Proof.
  intros [Hm Hp]. pose proof kend_bounds. split; [lia|].
  unfold PHYSTOP, KERNBASE, PGSIZE in *. Z.div_mod_to_equations. lia.
Qed.

Lemma page_ok_range p : page_ok p -> 0 < p < 2 ^ 56.
Proof.
  intros H. apply page_ok_bounds in H. unfold PHYSTOP, KERNBASE, PGSIZE in *. lia.
Qed.

Lemma page_disjoint p q :
  p mod PGSIZE = 0 -> q mod PGSIZE = 0 -> p <> q -> p + PGSIZE <= q \/ q + PGSIZE <= p.
Proof. unfold PGSIZE. intros. Z.div_mod_to_equations. lia. Qed.

Lemma page_ok_disjoint p q : page_ok p -> page_ok q -> p <> q -> p + PGSIZE <= q \/ q + PGSIZE <= p.
Proof. intros [? _] [? _]. by apply page_disjoint. Qed.

(** A word inside a valid page is in RAM. *)
Lemma page_ok_in_ram p a n : page_ok p -> p <= a -> a + n <= p + PGSIZE -> in_ram a n = true.
Proof.
  intros H Ha Hn. apply page_ok_bounds in H. unfold in_ram.
  apply andb_true_intro. rewrite !Z.leb_le. unfold PGSIZE in *. lia.
Qed.

Lemma wp_rd64 a s Q : in_ram a 8 = true -> Q (ld64 (mem s) a) s -> wp (rd64 a) s Q.
Proof. unfold wp, rd64. by intros ->. Qed.

Lemma wp_wr64 a v s Q :
  in_ram a 8 = true -> Q tt (Kst (st64 (mem s) a v) (freelist s)) -> wp (wr64 a v) s Q.
Proof. unfold wp, wr64. by intros ->. Qed.

Lemma wp_kmemset a c n s Q :
  in_ram a n = true -> Q tt (Kst (memset (mem s) a c n) (freelist s)) -> wp (kmemset a c n) s Q.
Proof. unfold wp, kmemset. by intros ->. Qed.

(** ** Frames *)

Lemma mod_only_refl ps m : mod_only ps m m.
Proof. done. Qed.

Lemma mod_only_trans ps m1 m2 m3 : mod_only ps m1 m2 -> mod_only ps m2 m3 -> mod_only ps m1 m3.
Proof. intros H1 H2 x Hx. by rewrite H1, H2. Qed.

Lemma mod_only_sub ps qs m m' : mod_only ps m m' -> (forall p, p ∈ ps -> p ∈ qs) -> mod_only qs m m'.
Proof. intros H Hs x Hx. apply H. naive_solver. Qed.

Lemma mod_only_comp ps qs rs m1 m2 m3 :
  mod_only ps m1 m2 -> mod_only qs m2 m3 ->
  (forall p, p ∈ ps -> p ∈ rs) -> (forall p, p ∈ qs -> p ∈ rs) -> mod_only rs m1 m3.
Proof. intros H1 H2 Hp Hq. eapply mod_only_trans; eapply mod_only_sub; eauto. Qed.

Lemma mod_only_agree ps q m m' :
  mod_only ps m m' -> (forall p, p ∈ ps -> p mod PGSIZE = 0) -> q mod PGSIZE = 0 -> q ∉ ps ->
  agree q (q + PGSIZE) m m'.
Proof.
  intros H Hps Hq Hn x Hx. apply H. intros p Hp Hin.
  destruct (page_disjoint p q); auto; [congruence|lia|lia].
Qed.

Lemma memset_mod_only p c m : mod_only [p] m (memset m p c PGSIZE).
Proof.
  intros x Hx. rewrite memset_out; [done|]. specialize (Hx p ltac:(set_solver)). lia.
Qed.

Lemma st64_mod_only p a v m : p <= a -> a + 8 <= p + PGSIZE -> mod_only [p] m (st64 m a v).
Proof.
  intros H1 H2 x Hx. rewrite st64_frame; [done|]. specialize (Hx p ltac:(set_solver)). lia.
Qed.

Lemma free_chain_pages m h l p : free_chain m h l -> p ∈ l -> page_ok p.
Proof.
  revert h. induction l as [|q l IH]; intros h H Hp; [by apply not_elem_of_nil in Hp|].
  destruct H as (-> & Hq & H). apply elem_of_cons in Hp as [->|Hp]; eauto.
Qed.

Lemma free_chain_frame m m' h l :
  (forall p, p ∈ l -> agree p (p + PGSIZE) m m') -> free_chain m h l -> free_chain m' h l.
Proof.
  revert h. induction l as [|q l IH]; intros h Ha H; [done|].
  destruct H as (-> & Hq & H). split; [done|]. split; [done|].
  rewrite <- (ld64_agree m). { apply IH; [set_solver|done]. }
  eapply agree_sub; [apply (Ha q); set_solver|lia|unfold PGSIZE; lia].
Qed.

(** A change outside the free pages keeps the free list. *)
Lemma free_list_frame ps s s' l :
  free_list s l -> freelist s' = freelist s -> mod_only ps (mem s) (mem s') ->
  (forall p, p ∈ ps -> p mod PGSIZE = 0 /\ p ∉ l) -> free_list s' l.
Proof.
  intros [Hc Hnd] Hf Hm Hps. split; [|done]. rewrite Hf. eapply free_chain_frame; [|done].
  intros p Hp. pose proof (free_chain_pages _ _ _ _ Hc Hp) as [Hal _].
  eapply mod_only_agree; [done| |done|]; [naive_solver|]. intros Hin. by apply (Hps p).
Qed.

(** ** What the routines do *)

Lemma kfree_panics pa s : ~ page_ok pa -> kfree pa s = Panic "kfree".
Proof.
  intros H. unfold kfree. destruct (_ || _) eqn:E; [done|]. exfalso. apply H.
  bool_prop. split; [done|lia].
Qed.

Lemma wp_kfree pa s l :
  free_list s l -> page_ok pa -> pa ∉ l ->
  wp (kfree pa) s (fun _ s' => free_list s' (pa :: l) /\ mod_only [pa] (mem s) (mem s')).
Proof.
  intros [Hc Hnd] Hpa Hn. unfold kfree.
  destruct (_ || _) eqn:E.
  { exfalso. destruct Hpa as [H1 H2]. rewrite Z.geb_leb in E.
    apply orb_prop in E as [E|E]; [apply orb_prop in E as [E|E]|]; bool_prop; lia. }
  pose proof (page_ok_range pa Hpa) as Hr.
  wp_step. apply wp_kmemset; [eapply page_ok_in_ram; eauto; lia|]. cbn beta.
  wp_step. wp_step. cbn [freelist]. wp_step.
  apply wp_wr64; [eapply page_ok_in_ram; eauto; unfold PGSIZE; lia|]. wp_step. cbn [mem freelist].
  assert (Hmo : mod_only [pa] (mem s) (st64 (memset (mem s) pa 1 PGSIZE) pa (freelist s))).
  { eapply mod_only_trans; [apply memset_mod_only|apply st64_mod_only; unfold PGSIZE; lia]. }
  split; [|done]. split; [|by constructor].
  split; [done|]. split; [done|]. cbn [mem freelist]. rewrite ld64_st64_eq.
  2:{ destruct l as [|q l]; simpl in Hc; [lia|]. destruct Hc as (-> & Hq & _).
      apply page_ok_range in Hq. lia. }
  eapply free_chain_frame; [|done]. intros q Hq.
  pose proof (free_chain_pages _ _ _ _ Hc Hq) as [Hal _].
  eapply mod_only_agree; [done| |done|set_solver].
  intros p Hp. apply list_elem_of_singleton in Hp as ->. apply Hpa.
Qed.

Lemma kalloc_nil s : free_list s [] -> kalloc s = Ret (0, s).
Proof. intros [Hc _]. unfold kalloc, bind, gets. simpl in Hc. by rewrite Hc. Qed.

Lemma wp_kalloc_cons s p l :
  free_list s (p :: l) ->
  wp kalloc s (fun r s' => r = p /\ page_ok p /\ free_list s' l /\ p ∉ l /\
                 mod_only [p] (mem s) (mem s') /\
                 forall x, p <= x < p + PGSIZE -> ld8 (mem s') x = 5).
Proof.
  intros [Hc Hnd]. destruct Hc as (Hf & Hp & Hc). unfold kalloc. wp_step. wp_step. rewrite Hf.
  pose proof (page_ok_range p Hp) as Hr.
  assert (ctrue p = true) as -> by (apply ctrue_true; lia).
  wp_step. wp_step. apply wp_rd64; [eapply page_ok_in_ram; eauto; unfold PGSIZE; lia|].
  wp_step. wp_step. apply wp_kmemset; [eapply page_ok_in_ram; eauto; lia|]. wp_step. cbn [mem freelist].
  apply NoDup_cons in Hnd as [Hnin Hnd]. split; [done|]. split; [done|]. split; [|split; [done|split]].
  - apply (free_list_frame [p] (Kst (mem s) (ld64 (mem s) p)) _ l); cbn [mem freelist];
      [by split|done|apply memset_mod_only|].
    intros q Hq. apply list_elem_of_singleton in Hq as ->. split; [apply Hp|done].
  - apply memset_mod_only.
  - intros x Hx. by apply memset_in.
Qed.

(** [kalloc] on any well-formed allocator: the head of the list, or 0. *)
Lemma wp_kalloc s l :
  free_list s l ->
  wp kalloc s (fun r s' => (r = 0 /\ l = [] /\ s' = s) \/
    exists l', l = r :: l' /\ page_ok r /\ free_list s' l' /\ r ∉ l' /\ mod_only [r] (mem s) (mem s')).
Proof.
  intros H. destruct l as [|p l].
  - eapply wp_eq; [by apply kalloc_nil|]. by left.
  - eapply wp_mono; [by apply wp_kalloc_cons|]. intros r s' (-> & ? & ? & ? & ? & _).
    right. exists l. done.
Qed.

(** ** Initialisation *)

Lemma page_run_S p n : page_run p (S n) = p :: page_run (p + PGSIZE) n.
Proof.
  unfold page_run. cbn [seq fmap list_fmap]. f_equal; [lia|].
  rewrite <- fmap_S_seq, <- list_fmap_compose. apply list_fmap_ext. intros i x Hx. simpl. lia.
Qed.

Lemma elem_of_page_run q p n :
  q ∈ page_run p n <-> exists i, (i < n)%nat /\ q = p + PGSIZE * Z.of_nat i.
Proof.
  unfold page_run. rewrite list_elem_of_fmap. setoid_rewrite elem_of_seq. naive_solver lia.
Qed.

Lemma PGROUNDUP_kend : kend <= PGROUNDUP kend <= PHYSTOP /\ PGROUNDUP kend mod PGSIZE = 0.
Proof.
  pose proof kend_bounds as H. destruct (PGROUNDUP_bounds kend) as [Hb Hm];
    [unfold KERNBASE, PGSIZE in *; lia|unfold PHYSTOP, KERNBASE, PGSIZE in *; lia|].
  split; [|done]. unfold PHYSTOP, KERNBASE, PGSIZE in *. Z.div_mod_to_equations. lia.
Qed.

Lemma elem_of_all_pages p : p ∈ all_pages <-> page_ok p.
Proof.
  unfold all_pages. rewrite elem_of_page_run. pose proof PGROUNDUP_kend as [Hb Hm].
  pose proof kend_bounds. pose proof (PGROUNDUP_bounds kend) as Hr.
  unfold page_ok, PHYSTOP, KERNBASE, PGSIZE in *. specialize (Hr ltac:(lia) ltac:(lia)). split.
  - intros (i & Hi & ->). Z.div_mod_to_equations. lia.
  - intros [H1 H2]. exists (Z.to_nat ((p - PGROUNDUP kend) / 4096)). Z.div_mod_to_equations. lia.
Qed.

Lemma wp_freerange_loop n p s l :
  free_list s l -> p mod PGSIZE = 0 -> kend <= p -> p + PGSIZE * Z.of_nat n = PHYSTOP ->
  (forall q, q ∈ l -> q < p) ->
  wp (freerange_loop n p PHYSTOP) s (fun _ s' => free_list s' (reverse (page_run p n) ++ l)).
Proof.
  revert p s l. induction n as [|n IH]; intros p s l Hl Hal Hlo Hend Hq; cbn [freerange_loop].
  - rewrite (proj2 (Z.leb_gt _ _)) by (unfold PGSIZE in *; lia). by wp_step.
  - rewrite (proj2 (Z.leb_le _ _)) by (unfold PGSIZE in *; lia). wp_step.
    assert (page_ok p) by (split; [done|unfold PGSIZE in *; lia]).
    eapply wp_mono; [apply wp_kfree; [done|done|]|].
    { intros Hin. specialize (Hq _ Hin). lia. }
    intros [] s' [Hl' _]. rewrite page_run_S, reverse_cons, <- (assoc_L (++)). cbn [app].
    apply IH; [done|unfold PGSIZE in *; Z.div_mod_to_equations; lia|unfold PGSIZE in *; lia
              |unfold PGSIZE in *; lia|].
    intros q Hin. unfold PGSIZE. apply elem_of_cons in Hin as [->|Hin]; [lia|].
    specialize (Hq _ Hin). lia.
Qed.

Lemma wp_kinit m : wp kinit (Kst m 0) (fun _ s' => free_list s' (reverse all_pages)).
Proof.
  unfold kinit, freerange. pose proof PGROUNDUP_kend as [Hb Hm].
  eapply wp_mono; [apply (wp_freerange_loop _ _ _ [])|].
  - split; [done|constructor].
  - done.
  - lia.
  - rewrite Z2Nat.id by (apply Z.div_pos; unfold PGSIZE; lia).
    unfold PHYSTOP, KERNBASE, PGSIZE in *. Z.div_mod_to_equations. lia.
  - set_solver.
  - intros [] s' H. by rewrite app_nil_r in H.
Qed.

(** ** Counting *)

Lemma length_page_run p n : length (page_run p n) = n.
Proof. unfold page_run. by rewrite length_fmap, length_seq. Qed.

Lemma length_pages l : NoDup l -> (forall p, p ∈ l -> page_ok p) -> (length l <= length all_pages)%nat.
Proof.
  intros Hnd Hok. apply submseteq_length, NoDup_submseteq; [done|].
  intros p Hp. by apply elem_of_all_pages, Hok.
Qed.

Lemma length_all_pages : Z.of_nat (length all_pages) <= (PHYSTOP - KERNBASE) / PGSIZE.
Proof.
  unfold all_pages. rewrite length_page_run. pose proof PGROUNDUP_kend as [Hb _].
  pose proof kend_bounds. unfold PHYSTOP, KERNBASE, PGSIZE in *. Z.div_mod_to_equations. lia.
Qed.

Lemma get_free_mem_loop_eq l fuel h k s :
  free_chain (mem s) h l -> (length l <= fuel)%nat -> 0 <= k -> k + Z.of_nat (length l) < 2 ^ 64 ->
  get_free_mem_loop fuel h k s = Ret (k + Z.of_nat (length l), s).
Proof.
  revert fuel h k. induction l as [|p l IH]; intros fuel h k Hc Hf Hk Hb; simpl in Hc.
  - subst. destruct fuel; cbn; by rewrite Z.add_0_r.
  - destruct Hc as (-> & Hp & Hc). destruct fuel as [|fuel]; [cbn in Hf; lia|].
    cbn [get_free_mem_loop length] in *. pose proof (page_ok_range p Hp).
    rewrite (proj2 (ctrue_true p)) by lia. unfold bind, rd64.
    rewrite (page_ok_in_ram p p 8) by (done || unfold PGSIZE; lia).
    rewrite u64_small by lia. rewrite IH by (done || lia). do 2 f_equal. lia.
Qed.

Lemma get_free_mem_eq s l :
  free_list s l -> get_free_mem s = Ret (PGSIZE * Z.of_nat (length l), s).
Proof.
  intros [Hc Hnd]. unfold get_free_mem. cbn [gets bind].
  pose proof (length_pages l Hnd (fun p => free_chain_pages _ _ _ p Hc)) as Hlen.
  pose proof length_all_pages as Hall.
  change ((PHYSTOP - KERNBASE) / PGSIZE) with 32768 in Hall.
  unfold bind, gets. rewrite (get_free_mem_loop_eq l); [|done| |lia|lia].
  - rewrite Z.add_0_l. cbn [ret]. unfold ret. rewrite Z.shiftl_mul_pow2 by lia.
    rewrite u64_small by lia. do 2 f_equal. unfold PGSIZE. lia.
  - unfold free_mem_fuel. change ((PHYSTOP - KERNBASE) / PGSIZE) with 32768. lia.
Qed.

(** ** Conservation of pages *)

Definition conserved (c : kst * list Z) : Prop :=
  exists l, free_list c.1 l /\ l ++ c.2 ≡ₚ all_pages.

Lemma NoDup_all_pages : NoDup all_pages.
Proof.
  unfold all_pages, page_run. apply NoDup_fmap_2; [|apply NoDup_seq].
  intros i j H. unfold PGSIZE in H. lia.
Qed.

Lemma conserved_held_ok held l p :
  l ++ held ≡ₚ all_pages -> p ∈ held -> page_ok p /\ p ∉ l.
Proof.
  intros Hp Hin. pose proof NoDup_all_pages as Hnd. rewrite <- Hp in Hnd.
  apply NoDup_app in Hnd as (_ & Hd & _). split.
  - apply elem_of_all_pages. rewrite <- Hp. set_solver.
  - intros Hl. by apply (Hd p).
Qed.

Lemma client_step_conserved c c' : client_step c c' -> conserved c -> conserved c'.
Proof.
  intros Hstep (l & Hl & Hp). destruct Hstep as [s held r s' Hk|s held p held' s' Hh Hk|s held s' Hf Hm];
    cbn [fst snd] in *.
  - pose proof (wp_kalloc s l Hl) as Hw. apply wp_inv in Hw as (r' & s'' & Heq & Hw).
    rewrite Hk in Heq. simplify_eq. destruct Hw as [(-> & -> & ->)|(l' & -> & Hr & Hl' & _)].
    + by exists [].
    + pose proof (page_ok_range _ Hr). rewrite (proj2 (ctrue_true r')) by lia.
      exists l'. split; [done|]. rewrite <- Hp. cbn. by rewrite Permutation_middle.
  - destruct (conserved_held_ok held l p Hp) as (Hok & Hn); [rewrite Hh; set_solver|].
    pose proof (wp_kfree p s l Hl Hok Hn) as Hw. apply wp_inv in Hw as ([] & s'' & Heq & Hw & _).
    rewrite Hk in Heq. simplify_eq. exists (p :: l). split; [done|].
    rewrite <- Hp, Hh. cbn. by rewrite Permutation_middle.
  - exists l. split; [|done]. eapply free_list_frame; [done|done|done|].
    intros p Hin. destruct (conserved_held_ok held l p Hp Hin) as ([? _] & ?). done.
Qed.

Lemma conserved_reachable m s c : kinit (Kst m 0) = Ret (tt, s) -> rtc client_step (s, []) c -> conserved c.
Proof.
  intros Hi Hr. assert (conserved (s, [])) as H0.
  { pose proof (wp_kinit m) as Hw. apply wp_inv in Hw as ([] & s' & Heq & Hw).
    rewrite Hi in Heq. simplify_eq. exists (reverse all_pages). split; [done|].
    cbn. rewrite app_nil_r. apply reverse_Permutation. }
  revert H0. generalize (s, @nil Z) Hr. clear. intros c0 Hr.
  induction Hr; eauto using client_step_conserved.
Qed.

(** C16: page conservation.  [kinit] returns, and after it and any sequence of
    allocations, frees of held pages and writes into held pages, the free list
    threaded through memory and the held pages are together exactly the RAM
    pages above the kernel: [kalloc] returns 0 only when nothing is free and
    otherwise a page nobody holds, every held page can be freed, and
    [get_free_mem] reports the bytes nobody holds. *)
Theorem kalloc_conservation (m : memory) :
  exists s, kinit (Kst m 0) = Ret (tt, s) /\
  forall s1 held, rtc client_step (s, []) (s1, held) ->
  exists l, free_list s1 l /\ l ++ held ≡ₚ all_pages /\
    wp kalloc s1 (fun r _ => (r = 0 /\ l = []) \/ (page_ok r /\ r ∉ held)) /\
    (forall p, p ∈ held -> wp (kfree p) s1 (fun _ s2 => free_list s2 (p :: l))) /\
    get_free_mem s1 = Ret (PGSIZE * (Z.of_nat (length all_pages) - Z.of_nat (length held)), s1).
Proof.
  pose proof (wp_kinit m) as Hw. apply wp_inv in Hw as ([] & s & Hi & _).
  exists s. split; [done|]. intros s1 held Hr.
  destruct (conserved_reachable _ _ _ Hi Hr) as (l & Hl & Hp). cbn [fst snd] in *.
  exists l. split; [done|]. split; [done|]. split; [|split].
  - eapply wp_mono; [by apply wp_kalloc|]. intros r s' [(-> & -> & _)|(l' & -> & Hok & _)]; [by left|].
    right. split; [done|]. pose proof NoDup_all_pages as Hnd. rewrite <- Hp in Hnd.
    apply NoDup_app in Hnd as (_ & Hd & _). apply Hd. set_solver.
  - intros p Hin. destruct (conserved_held_ok held l p Hp Hin) as (Hok & Hn).
    eapply wp_mono; [by apply wp_kfree|]. by intros [] s2 [? _].
  - rewrite (get_free_mem_eq s1 l Hl). do 3 f_equal. apply Permutation_length in Hp.
    rewrite length_app in Hp. lia.
Qed.
End AllocatorProofs.
