(* ===== verification/Vm.v ===== *)
(** * kernel/vm.c: Sv39 page tables and user memory

    The page-table code over the byte memory of [Kalloc]: a page table is the
    physical address of a page of 512 little-endian entries.  A kernel-side
    buffer of [copyout] or [copyin] is a list of bytes; user memory is reached
    only through the page table, as in the C.  Loops whose bound is not
    syntactic carry fuel computed from their arguments; running out of it is
    [Diverge], which the theorems of VmWalk, VmMap and VmCopy exclude. *)
From S2P Require Import Prelude Riscv Mem KString Kalloc.

Section Vm.
Context {L : Layout}.

(** ** walk *)

(** The loop of [walk] from [level] down; [pagetable] is the table at that level. *)
Fixpoint walk_levels (level : nat) (pagetable va : Z) (alloc : bool) : M kst Z :=
  match level with
  | O => ret (pagetable + 8 * PX 0 va)
  | S level' =>
      let pte := pagetable + 8 * PX (Z.of_nat level) va in
      e <- rd64 pte;;
      if ctrue (Z.land e PTE_V) then walk_levels level' (PTE2PA e) va alloc
      else if negb alloc then ret 0 else
      page <- kalloc;;
      if page =? 0 then ret 0 else
      kmemset page 0 PGSIZE;;
      wr64 pte (Z.lor (PA2PTE page) PTE_V);;
      walk_levels level' page va alloc
  end.
Definition walk (pagetable va : Z) (alloc : bool) : M kst Z :=
  if va >=? MAXVA then panic "walk" else walk_levels 2 pagetable va alloc.

Definition walkaddr (pagetable va : Z) : M kst Z :=
  if va >=? MAXVA then ret 0 else
  pte <- walk pagetable va false;;
  if pte =? 0 then ret 0 else
  e <- rd64 pte;;
  if Z.land e PTE_V =? 0 then ret 0 else
  if Z.land e PTE_U =? 0 then ret 0 else
  ret (PTE2PA e).

(** ** mappages and unmapping *)

Fixpoint mappages_loop (fuel : nat) (pagetable a last pa perm : Z) : M kst Z :=
  match fuel with
  | O => diverge
  | S k =>
      pte <- walk pagetable a true;;
      if pte =? 0 then ret (-1) else
      e <- rd64 pte;;
      if ctrue (Z.land e PTE_V) then panic "mappages: remap" else
      wr64 pte (Z.lor (Z.lor (PA2PTE pa) perm) PTE_V);;
      if a =? last then ret 0
      else mappages_loop k pagetable (u64 (a + PGSIZE)) last (u64 (pa + PGSIZE)) perm
  end.
(** The loop meets [last], or (when the range wraps) leaves the address space
    and panics in [walk]. *)
Definition mappages_fuel (a last : Z) : nat :=
  Z.to_nat ((if a <=? last then last - a else MAXVA) / PGSIZE + 1).
Definition mappages (pagetable va size pa perm : Z) : M kst Z :=
  if size =? 0 then panic "mappages: size" else
  let a := PGROUNDDOWN va in
  let last := PGROUNDDOWN (u64 (va + size - 1)) in
  mappages_loop (mappages_fuel a last) pagetable a last pa perm.

Definition kvmmap (kpgtbl va pa sz perm : Z) : M kst unit :=
  r <- mappages kpgtbl va sz pa perm;;
  if negb (r =? 0) then panic "kvmmap" else ret tt.
Definition kvmmap2 (pt va pa sz perm : Z) : M kst unit :=
  r <- mappages pt va sz pa perm;;
  if negb (r =? 0) then panic "kvmmap2" else ret tt.

Fixpoint uvmunmap_loop (fuel : nat) (pagetable a stop : Z) (do_free : bool) : M kst unit :=
  if a <? stop then
    match fuel with
    | O => diverge
    | S k =>
        pte <- walk pagetable a false;;
        if pte =? 0 then panic "uvmunmap: walk" else
        e <- rd64 pte;;
        if Z.land e PTE_V =? 0 then panic "uvmunmap: not mapped" else
        if PTE_FLAGS e =? PTE_V then panic "uvmunmap: not a leaf" else
        (if do_free then kfree (PTE2PA e) else ret tt);;
        wr64 pte 0;;
        uvmunmap_loop k pagetable (u64 (a + PGSIZE)) stop do_free
    end
  else ret tt.
Definition uvmunmap (pagetable va npages : Z) (do_free : bool) : M kst unit :=
  if negb (va mod PGSIZE =? 0) then panic "uvmunmap: not aligned" else
  uvmunmap_loop (Z.to_nat npages) pagetable va (u64 (va + npages * PGSIZE)) do_free.

Fixpoint kvmunmap_loop (fuel : nat) (pagetable a stop : Z) : M kst unit :=
  if a <? stop then
    match fuel with
    | O => diverge
    | S k =>
        pte <- walk pagetable a false;;
        if pte =? 0 then panic "kvmunmap: walk" else
        e <- rd64 pte;;
        if Z.land e PTE_V =? 0 then panic "kvmunmap: not mapped" else
        if PTE_FLAGS e =? PTE_V then panic "kvmunmap: not a leaf" else
        wr64 pte 0;;
        kvmunmap_loop k pagetable (u64 (a + PGSIZE)) stop
    end
  else ret tt.
Definition kvmunmap (pagetable va size : Z) : M kst unit :=
  if negb (va mod PGSIZE =? 0) then panic "kvmunmap: not aligned" else
  kvmunmap_loop (Z.to_nat (size / PGSIZE + 1)) pagetable va (u64 (va + size)).

(** ** User address spaces *)

Definition uvmcreate : M kst Z :=
  pagetable <- kalloc;;
  if pagetable =? 0 then ret 0 else
  kmemset pagetable 0 PGSIZE;;
  ret pagetable.

(** Copy a kernel-side buffer into RAM. *)
Definition kwrite (dst : Z) (src : list Z) : M kst unit :=
  fun s => if in_ram dst (Z.of_nat (length src))
           then Ret (tt, Kst (wr_bytes (mem s) dst src) (freelist s)) else Fault.
(** Copy RAM into a kernel-side buffer. *)
Definition kread (src n : Z) : M kst (list Z) :=
  fun s => if in_ram src n then Ret (rd_bytes (Z.to_nat n) (mem s) src, s) else Fault.
Definition kmemmove (dst src n : Z) : M kst unit :=
  fun s => if in_ram dst n && in_ram src n
           then Ret (tt, Kst (memmove (mem s) dst src n) (freelist s)) else Fault.

(** [src] is the initcode array; its length is the argument [sz]. *)
Definition uvmfirst (pagetable : Z) (src : list Z) : M kst unit :=
  if Z.of_nat (length src) >=? PGSIZE then panic "uvmfirst: more than a page" else
  page <- kalloc;;
  kmemset page 0 PGSIZE;;
  _ <- mappages pagetable 0 PGSIZE page (Z.lor (Z.lor (Z.lor PTE_W PTE_R) PTE_X) PTE_U);;
  kwrite page src.

Definition uvmdealloc (pagetable oldsz newsz : Z) : M kst Z :=
  if newsz >=? oldsz then ret oldsz else
  (if PGROUNDUP newsz <? PGROUNDUP oldsz then
     let npages := s32 ((PGROUNDUP oldsz - PGROUNDUP newsz) / PGSIZE) in
     uvmunmap pagetable (PGROUNDUP newsz) (u64 npages) true
   else ret tt);;
  ret newsz.

Fixpoint uvmalloc_loop (fuel : nat) (pagetable a oldsz newsz xperm : Z) : M kst Z :=
  if a <? newsz then
    match fuel with
    | O => diverge
    | S k =>
        page <- kalloc;;
        if page =? 0 then (_ <- uvmdealloc pagetable a oldsz;; ret 0) else
        kmemset page 0 PGSIZE;;
        r <- mappages pagetable a PGSIZE page (Z.lor (Z.lor PTE_R PTE_U) xperm);;
        if negb (r =? 0) then
          (kfree page;; _ <- uvmdealloc pagetable a oldsz;; ret 0)
        else uvmalloc_loop k pagetable (u64 (a + PGSIZE)) oldsz newsz xperm
    end
  else ret newsz.
Definition uvmalloc (pagetable oldsz newsz xperm : Z) : M kst Z :=
  if newsz <? oldsz then ret oldsz else
  let oldsz := PGROUNDUP oldsz in
  uvmalloc_loop (Z.to_nat ((newsz - oldsz + PGSIZE - 1) / PGSIZE)) pagetable oldsz oldsz newsz xperm.

(** [fuel] bounds the depth of the recursion: three levels of tables. *)
Fixpoint freewalk (fuel : nat) (pagetable : Z) : M kst unit :=
  match fuel with
  | O => diverge
  | S k =>
      for_loop 512 0 (fun i =>
        pte <- rd64 (pagetable + 8 * i);;
        if ctrue (Z.land pte PTE_V) && (Z.land pte (Z.lor (Z.lor PTE_R PTE_W) PTE_X) =? 0) then
          freewalk k (PTE2PA pte);;
          wr64 (pagetable + 8 * i) 0
        else if ctrue (Z.land pte PTE_V) then panic "freewalk: leaf"
        else ret tt);;
      kfree pagetable
  end.

Definition uvmfree (pagetable sz : Z) : M kst unit :=
  (if sz >? 0 then uvmunmap pagetable 0 (PGROUNDUP sz / PGSIZE) true else ret tt);;
  freewalk 3 pagetable.

Fixpoint uvmcopy_loop (fuel : nat) (old new i sz : Z) : M kst Z :=
  if i <? sz then
    match fuel with
    | O => diverge
    | S k =>
        pte <- walk old i false;;
        if pte =? 0 then panic "uvmcopy: pte should exist" else
        e <- rd64 pte;;
        if Z.land e PTE_V =? 0 then panic "uvmcopy: page not present" else
        page <- kalloc;;
        if page =? 0 then (uvmunmap new 0 (i / PGSIZE) true;; ret (-1)) else
        kmemmove page (PTE2PA e) PGSIZE;;
        r <- mappages new i PGSIZE page (PTE_FLAGS e);;
        if negb (r =? 0) then
          (kfree page;; uvmunmap new 0 (i / PGSIZE) true;; ret (-1))
        else uvmcopy_loop k old new (u64 (i + PGSIZE)) sz
    end
  else ret 0.
Definition uvmcopy (old new sz : Z) : M kst Z :=
  uvmcopy_loop (Z.to_nat ((sz + PGSIZE - 1) / PGSIZE)) old new 0 sz.

Definition uvmclear (pagetable va : Z) : M kst unit :=
  pte <- walk pagetable va false;;
  if pte =? 0 then panic "uvmclear" else
  e <- rd64 pte;;
  wr64 pte (Z.land e (u64 (Z.lnot PTE_U))).

(** ** Copies between the kernel and user memory *)

(** [src] holds the [len] bytes still to copy. *)
Fixpoint copyout_loop (fuel : nat) (pagetable dstva : Z) (src : list Z) : M kst Z :=
  let len := Z.of_nat (length src) in
  if len >? 0 then
    match fuel with
    | O => diverge
    | S k =>
        let va0 := PGROUNDDOWN dstva in
        pa0 <- walkaddr pagetable va0;;
        if pa0 =? 0 then ret (-1) else
        let n := PGSIZE - (dstva - va0) in
        let n := if n >? len then len else n in
        kwrite (pa0 + (dstva - va0)) (take (Z.to_nat n) src);;
        copyout_loop k pagetable (u64 (va0 + PGSIZE)) (drop (Z.to_nat n) src)
    end
  else ret 0.
(** Every round but the first and the last moves a whole page. *)
Definition copy_fuel (len : Z) : nat := Z.to_nat (len / PGSIZE + 2).
Definition copyout (pagetable dstva : Z) (src : list Z) : M kst Z :=
  copyout_loop (copy_fuel (Z.of_nat (length src))) pagetable dstva src.

(** The result pairs the return value with the bytes stored at [dst]. *)
Fixpoint copyin_new_loop (fuel : nat) (pagetable : Z) (dst : list Z) (srcva len : Z) : M kst (Z * list Z) :=
  if len >? 0 then
    match fuel with
    | O => diverge
    | S k =>
        let va0 := PGROUNDDOWN srcva in
        pa0 <- walkaddr pagetable va0;;
        if pa0 =? 0 then ret (-1, dst) else
        let n := PGSIZE - (srcva - va0) in
        let n := if n >? len then len else n in
        bs <- kread (pa0 + (srcva - va0)) n;;
        copyin_new_loop k pagetable (dst ++ bs) (u64 (va0 + PGSIZE)) (len - n)
    end
  else ret (0, dst).
Definition copyin_new (pagetable srcva len : Z) : M kst (Z * list Z) :=
  copyin_new_loop (copy_fuel len) pagetable [] srcva len.
Definition copyin (pagetable srcva len : Z) : M kst (Z * list Z) := copyin_new pagetable srcva len.

(** The inner loop of [copyinstr_new]: up to [n] bytes from [p]; returns
    [got_null], the bytes stored at [dst] and what is left of [max]. *)
Fixpoint copyinstr_page (n : nat) (p : Z) (dst : list Z) (max : Z) : M kst (bool * list Z * Z) :=
  match n with
  | O => ret (false, dst, max)
  | S n' =>
      bs <- kread p 1;;
      let c := hd 0 bs in
      if c =? 0 then ret (true, dst ++ [0], max)
      else copyinstr_page n' (p + 1) (dst ++ [c]) (max - 1)
  end.
Fixpoint copyinstr_new_loop (fuel : nat) (pagetable : Z) (dst : list Z) (srcva max : Z) : M kst (Z * list Z) :=
  if max >? 0 then
    match fuel with
    | O => diverge
    | S k =>
        let va0 := PGROUNDDOWN srcva in
        pa0 <- walkaddr pagetable va0;;
        if pa0 =? 0 then ret (-1, dst) else
        let n := PGSIZE - (srcva - va0) in
        let n := if n >? max then max else n in
        '(got_null, dst', max') <- copyinstr_page (Z.to_nat n) (pa0 + (srcva - va0)) dst max;;
        if got_null : bool then ret (0, dst')
        else copyinstr_new_loop k pagetable dst' (u64 (va0 + PGSIZE)) max'
    end
  else ret (-1, dst).
Definition copyinstr_new (pagetable srcva max : Z) : M kst (Z * list Z) :=
  copyinstr_new_loop (copy_fuel max) pagetable [] srcva max.
Definition copyinstr (pagetable srcva max : Z) : M kst (Z * list Z) := copyinstr_new pagetable srcva max.

(** ** Kernel page tables *)

Definition vmmake : M kst Z :=
  pt <- kalloc;;
  kmemset pt 0 PGSIZE;;
  kvmmap2 pt UART0 UART0 PGSIZE (Z.lor PTE_R PTE_W);;
  kvmmap2 pt VIRTIO0 VIRTIO0 PGSIZE (Z.lor PTE_R PTE_W);;
  kvmmap2 pt CLINT CLINT 0x10000 (Z.lor PTE_R PTE_W);;
  kvmmap2 pt PLIC PLIC 0x400000 (Z.lor PTE_R PTE_W);;
  kvmmap2 pt KERNBASE KERNBASE (etext - KERNBASE) (Z.lor PTE_R PTE_X);;
  kvmmap2 pt etext etext (PHYSTOP - etext) (Z.lor PTE_R PTE_W);;
  kvmmap2 pt TRAMPOLINE trampoline PGSIZE (Z.lor PTE_R PTE_X);;
  ret pt.

Definition proc_mapstacks (kpgtbl : Z) : M kst unit :=
  for_loop (Z.to_nat NPROC) 0 (fun p =>
    pa <- kalloc;;
    if pa =? 0 then panic "kalloc" else
    kvmmap kpgtbl (KSTACK p) pa PGSIZE (Z.lor PTE_R PTE_W)).

Definition kvmmake : M kst Z :=
  kpgtbl <- kalloc;;
  kmemset kpgtbl 0 PGSIZE;;
  kvmmap kpgtbl UART0 UART0 PGSIZE (Z.lor PTE_R PTE_W);;
  kvmmap kpgtbl VIRTIO0 VIRTIO0 PGSIZE (Z.lor PTE_R PTE_W);;
  kvmmap kpgtbl PLIC PLIC 0x400000 (Z.lor PTE_R PTE_W);;
  kvmmap kpgtbl KERNBASE KERNBASE (etext - KERNBASE) (Z.lor PTE_R PTE_X);;
  kvmmap kpgtbl etext etext (PHYSTOP - etext) (Z.lor PTE_R PTE_W);;
  kvmmap kpgtbl TRAMPOLINE trampoline PGSIZE (Z.lor PTE_R PTE_X);;
  proc_mapstacks kpgtbl;;
  ret kpgtbl.
End Vm.
