(* ===== verification/VmWalk.v ===== *)
(** * Page-table trees and [walk]

    What a page table in memory means ([pte_addr], [pte_val]), which pages it
    is made of ([pt_pages]) and when it is well formed ([pt_wf]); then what
    [walk] does to all three.  [level] counts down as in the C: 2 at the root,
    0 at the leaf tables. *)
From S2P Require Import Prelude Riscv Mem KString Kalloc Vm.

Definition pte_valid (e : Z) : bool := ctrue (Z.land e PTE_V).

(** The indices of the 512 entries of a table, sealed so that comparing two
    tables never enumerates them. *)
Definition pt_indices_aux : seal (seqZ 0 512).
Proof. by eexists. Qed.
Definition pt_indices : list Z := pt_indices_aux.(unseal).

Lemma elem_of_pt_indices i : i ∈ pt_indices <-> 0 <= i < 512.
Proof. unfold pt_indices. rewrite seal_eq, elem_of_seqZ. lia. Qed.

Lemma NoDup_pt_indices : NoDup pt_indices.
Proof. unfold pt_indices. rewrite seal_eq. apply NoDup_seqZ. Qed.

(** The pages the table [pt] is made of: itself and, above level 0, the tables
    its valid entries point to. *)
Fixpoint pt_pages (level : nat) (m : memory) (pt : Z) : list Z :=
  pt :: match level with
        | O => []
        | S l => pt_indices ≫= fun i =>
                   let e := ld64 m (pt + 8 * i) in
                   if pte_valid e then pt_pages l m (PTE2PA e) else []
        end.

(** The address of the leaf entry for [va], if the tables above it exist. *)
Fixpoint pte_addr (level : nat) (m : memory) (pt va : Z) : option Z :=
  match level with
  | O => Some (pt + 8 * PX 0 va)
  | S l => let e := ld64 m (pt + 8 * PX (Z.of_nat level) va) in
           if pte_valid e then pte_addr l m (PTE2PA e) va else None
  end.

(** The leaf entry for [va]; 0, an invalid entry, where there is no leaf table. *)
Definition pte_val (level : nat) (m : memory) (pt va : Z) : Z :=
  match pte_addr level m pt va with Some a => ld64 m a | None => 0 end.

Section Wf.
Context {L : Layout}.

(** Every table is a page of RAM above the kernel, and the valid entries of
    the upper levels carry no permission bits, so they are not leaves. *)
Fixpoint pt_wf (level : nat) (m : memory) (pt : Z) : Prop :=
  page_ok pt /\
  match level with
  | O => True
  | S l => forall i, 0 <= i < 512 ->
             let e := ld64 m (pt + 8 * i) in
             pte_valid e = true -> PTE_FLAGS e = PTE_V /\ pt_wf l m (PTE2PA e)
  end.

(** A table and the allocator: the table is well formed, and its pages are
    distinct from each other and from the free pages. *)
Definition pt_inv (level : nat) (s : kst) (pt : Z) (fl : list Z) : Prop :=
  free_list s fl /\ pt_wf level (mem s) pt /\ NoDup (pt_pages level (mem s) pt ++ fl).

(** The table took [new] pages from the head of the free list, and nothing but
    the pages of the table changed. *)
Definition pt_grow (level : nat) (s s' : kst) (pt : Z) (fl fl' : list Z) : Prop :=
  exists new, fl = new ++ fl' /\
    pt_pages level (mem s') pt ≡ₚ new ++ pt_pages level (mem s) pt /\
    free_list s' fl' /\ pt_wf level (mem s') pt /\
    mod_only (pt_pages level (mem s') pt) (mem s) (mem s').
End Wf.

Section WalkProofs.
Context {L : Layout}.
Implicit Types (m : memory) (s : kst) (pt va : Z).

Lemma pt_pages_S l m pt :
  pt_pages (S l) m pt =
  pt :: (pt_indices ≫= fun i => if pte_valid (ld64 m (pt + 8 * i))
                               then pt_pages l m (PTE2PA (ld64 m (pt + 8 * i))) else []).
Proof. done. Qed.

Lemma pt_pages_0 m pt : pt_pages 0 m pt = [pt].
Proof. done. Qed.

Lemma pte_addr_S l m pt va :
  pte_addr (S l) m pt va =
  if pte_valid (ld64 m (pt + 8 * PX (Z.of_nat (S l)) va))
  then pte_addr l m (PTE2PA (ld64 m (pt + 8 * PX (Z.of_nat (S l)) va))) va else None.
Proof. done. Qed.

Lemma pt_pages_head level m pt : pt ∈ pt_pages level m pt.
Proof. destruct level; set_solver. Qed.

Lemma elem_of_pt_pages_S l m pt p :
  p ∈ pt_pages (S l) m pt <->
  p = pt \/ exists i, 0 <= i < 512 /\ pte_valid (ld64 m (pt + 8 * i)) = true /\
                      p ∈ pt_pages l m (PTE2PA (ld64 m (pt + 8 * i))).
Proof.
  rewrite pt_pages_S, elem_of_cons, list_elem_of_bind. setoid_rewrite elem_of_pt_indices.
  split; (intros [->|H]; [by left|right]).
  - destruct H as (i & Hp & Hi). destruct (pte_valid _) eqn:E; [|set_solver].
    exists i. done.
  - destruct H as (i & Hi & He & Hp). exists i. rewrite He. done.
Qed.

Lemma pt_wf_page level m pt : pt_wf level m pt -> page_ok pt.
Proof. destruct level; by intros [? _]. Qed.

Lemma pt_wf_pages level m pt p : pt_wf level m pt -> p ∈ pt_pages level m pt -> page_ok p.
Proof.
  revert pt. induction level as [|l IH]; intros pt Hwf Hp.
  - simpl in Hp. apply list_elem_of_singleton in Hp as ->. by eapply pt_wf_page.
  - apply elem_of_pt_pages_S in Hp as [->|(i & Hi & He & Hp)]; [by eapply pt_wf_page|].
    destruct Hwf as [_ Hwf]. destruct (Hwf i Hi He) as [_ Hc]. eauto.
Qed.

(** An entry of a table lies inside the table's page. *)
Lemma entry_bounds i pt : 0 <= i < 512 -> pt <= pt + 8 * i /\ pt + 8 * i + 8 <= pt + PGSIZE.
Proof. unfold PGSIZE. lia. Qed.

Lemma entry_in_ram pt i : page_ok pt -> 0 <= i < 512 -> in_ram (pt + 8 * i) 8 = true.
Proof. intros Hp Hi. destruct (entry_bounds i pt Hi). by eapply page_ok_in_ram. Qed.

Lemma entry_agree m m' pt i : agree pt (pt + PGSIZE) m m' -> 0 <= i < 512 ->
  ld64 m (pt + 8 * i) = ld64 m' (pt + 8 * i).
Proof. intros Ha Hi. destruct (entry_bounds i pt Hi). apply ld64_agree. by eapply agree_sub. Qed.

(** The leaf entry lies in a page of the table. *)
Lemma pte_addr_page level m pt va a :
  pte_addr level m pt va = Some a ->
  exists p, p ∈ pt_pages level m pt /\ a = p + 8 * PX 0 va.
Proof.
  revert pt. induction level as [|l IH]; intros pt H.
  - simpl in H. simplify_eq. exists pt. split; [apply (pt_pages_head 0)|done].
  - rewrite pte_addr_S in H. destruct (pte_valid _) eqn:E; [|done].
    destruct (IH _ H) as (p & Hp & ->). exists p. split; [|done].
    apply elem_of_pt_pages_S. right. eexists. split; [apply PX_range|]. done.
Qed.

(** ** Frames: memory that agrees on the pages of a table *)

Lemma pt_frame level m m' pt :
  (forall p, p ∈ pt_pages level m pt -> agree p (p + PGSIZE) m m') ->
  pt_pages level m' pt = pt_pages level m pt /\
  (pt_wf level m pt -> pt_wf level m' pt) /\
  forall va, pte_addr level m' pt va = pte_addr level m pt va.
Proof.
  revert pt. induction level as [|l IH]; intros pt Ha; [done|].
  assert (Hroot : forall i, 0 <= i < 512 -> ld64 m' (pt + 8 * i) = ld64 m (pt + 8 * i)).
  { intros i Hi. symmetry. apply entry_agree; [|done]. apply Ha, pt_pages_head. }
  assert (Hsub : forall i, 0 <= i < 512 -> pte_valid (ld64 m (pt + 8 * i)) = true ->
    forall p, p ∈ pt_pages l m (PTE2PA (ld64 m (pt + 8 * i))) -> agree p (p + PGSIZE) m m').
  { intros i Hi He p Hp. apply Ha, elem_of_pt_pages_S. right. eauto. }
  split; [|split].
  - rewrite !pt_pages_S. f_equal. apply Forall_bind_ext, Forall_forall.
    intros i Hi%elem_of_pt_indices. rewrite Hroot by done.
    destruct (pte_valid _) eqn:E; [|done]. by apply IH, Hsub.
  - intros [Hp Hwf]. split; [done|]. intros i Hi. simpl. rewrite Hroot by done. intros He.
    destruct (Hwf i Hi He) as [Hf Hc]. split; [done|]. by apply IH; [apply Hsub|].
  - intros va. rewrite !pte_addr_S, Hroot by apply PX_range.
    destruct (pte_valid _) eqn:E; [|done]. apply IH, Hsub; [apply PX_range|done].
Qed.

Lemma pte_val_frame level m m' pt va :
  (forall p, p ∈ pt_pages level m pt -> agree p (p + PGSIZE) m m') ->
  pte_val level m' pt va = pte_val level m pt va.
Proof.
  intros Ha. unfold pte_val. destruct (pt_frame _ _ _ _ Ha) as (_ & _ & ->).
  destruct (pte_addr _ _ _ _) as [a|] eqn:E; [|done].
  apply pte_addr_page in E as (p & Hp & ->). symmetry. apply entry_agree; [by apply Ha|apply PX_range].
Qed.

(** ** Disjointness inside a tree *)

Lemma pt_nodup_child l m pt i :
  NoDup (pt_pages (S l) m pt) -> 0 <= i < 512 -> pte_valid (ld64 m (pt + 8 * i)) = true ->
  let sub j := pt_pages l m (PTE2PA (ld64 m (pt + 8 * j))) in
  NoDup (sub i) /\ pt ∉ sub i /\
  forall j p, 0 <= j < 512 -> j <> i -> pte_valid (ld64 m (pt + 8 * j)) = true -> p ∈ sub i -> p ∉ sub j.
Proof.
  rewrite pt_pages_S. intros [Hpt Hnd]%NoDup_cons Hi He sub.
  apply NoDup_bind_inv in Hnd as [Hsub Hdis]. specialize (Hdis NoDup_pt_indices).
  pose proof (Hsub i ltac:(by apply elem_of_pt_indices)) as Hs. simpl in Hs. rewrite He in Hs.
  split; [done|]. split.
  - intros Hin. apply Hpt, list_elem_of_bind. exists i. rewrite He. by rewrite elem_of_pt_indices.
  - intros j p Hj Hne Hej Hpi Hpj. apply Hne, (Hdis j i p); rewrite ?elem_of_pt_indices; try done.
    + by rewrite Hej.
    + by rewrite He.
Qed.

(** A change confined to the subtree of one entry and to pages outside the
    tree leaves the root's entries and the other subtrees alone. *)
Lemma pt_confined l m m' pt i qs :
  pt_wf (S l) m pt -> NoDup (pt_pages (S l) m pt) -> 0 <= i < 512 ->
  pte_valid (ld64 m (pt + 8 * i)) = true ->
  mod_only qs m m' ->
  (forall q, q ∈ qs -> q mod PGSIZE = 0 /\
     (q ∈ pt_pages l m (PTE2PA (ld64 m (pt + 8 * i))) \/ q ∉ pt_pages (S l) m pt)) ->
  (forall j, 0 <= j < 512 -> ld64 m' (pt + 8 * j) = ld64 m (pt + 8 * j)) /\
  forall j p, 0 <= j < 512 -> j <> i -> pte_valid (ld64 m (pt + 8 * j)) = true ->
    p ∈ pt_pages l m (PTE2PA (ld64 m (pt + 8 * j))) -> agree p (p + PGSIZE) m m'.
Proof.
  intros Hwf Hnd Hi He Hm Hqs. destruct (pt_nodup_child _ _ _ _ Hnd Hi He) as (_ & Hpt & Hdis).
  assert (Hag : forall p, p ∈ pt_pages (S l) m pt ->
    p ∉ pt_pages l m (PTE2PA (ld64 m (pt + 8 * i))) -> agree p (p + PGSIZE) m m').
  { intros p Hp Hn. eapply mod_only_agree; [done|naive_solver| |naive_solver].
    by destruct (pt_wf_pages _ _ _ _ Hwf Hp). }
  split.
  - intros j Hj. symmetry. apply entry_agree; [|done]. apply Hag; [apply pt_pages_head|done].
  - intros j p Hj Hne Hej Hp. apply Hag; [apply elem_of_pt_pages_S; right; eauto|].
    intros Hpi. by apply (Hdis j p).
Qed.

(** Such a change that grows the subtree by [new] grows the tree by [new]. *)
Lemma pt_child_grow l m m' pt i qs new :
  pt_wf (S l) m pt -> NoDup (pt_pages (S l) m pt) -> 0 <= i < 512 ->
  let c := PTE2PA (ld64 m (pt + 8 * i)) in
  pte_valid (ld64 m (pt + 8 * i)) = true ->
  mod_only qs m m' ->
  (forall q, q ∈ qs -> q mod PGSIZE = 0 /\ (q ∈ pt_pages l m c \/ q ∉ pt_pages (S l) m pt)) ->
  pt_pages l m' c ≡ₚ new ++ pt_pages l m c -> pt_wf l m' c ->
  pt_pages (S l) m' pt ≡ₚ new ++ pt_pages (S l) m pt /\ pt_wf (S l) m' pt /\
  forall va, if PX (Z.of_nat (S l)) va =? i
             then pte_addr (S l) m pt va = pte_addr l m c va /\
                  pte_addr (S l) m' pt va = pte_addr l m' c va
             else pte_addr (S l) m' pt va = pte_addr (S l) m pt va /\
                  pte_val (S l) m' pt va = pte_val (S l) m pt va.
Proof.
  intros Hwf Hnd Hi c He Hm Hqs Hpg Hwfc.
  destruct (pt_confined _ _ _ _ _ _ Hwf Hnd Hi He Hm Hqs) as [Hroot Hsib].
  assert (Hoth : forall j, 0 <= j < 512 -> j <> i -> pte_valid (ld64 m (pt + 8 * j)) = true ->
    forall p, p ∈ pt_pages l m (PTE2PA (ld64 m (pt + 8 * j))) -> agree p (p + PGSIZE) m m') by eauto.
  split; [|split].
  - rewrite !pt_pages_S, <- Permutation_middle. constructor. apply (bind_update _ _ _ i).
    + apply NoDup_pt_indices.
    + by apply elem_of_pt_indices.
    + intros j Hj%elem_of_pt_indices Hne. simpl. rewrite Hroot by done.
      destruct (pte_valid (ld64 m (pt + 8 * j))) eqn:E; [|done]. by apply pt_frame, Hoth.
    + simpl. rewrite Hroot, He by done. done.
  - destruct Hwf as [Hp Hwf]. split; [done|]. intros j Hj. simpl. rewrite Hroot by done. intros Hej.
    destruct (Hwf j Hj Hej) as [Hf Hc]. split; [done|].
    destruct (Z.eq_dec j i) as [->|Hne]; [done|]. apply (pt_frame l m); [by apply Hoth|done].
  - intros va. destruct (Z.eqb_spec (PX (Z.of_nat (S l)) va) i) as [Hx|Hx].
    + rewrite !pte_addr_S, Hroot, Hx, He by apply PX_range. done.
    + unfold pte_val. rewrite !pte_addr_S, Hroot by apply PX_range.
      destruct (pte_valid (ld64 m (pt + 8 * PX _ va))) eqn:E; [|done]. pose proof (Hoth _ (PX_range _ va) Hx E) as Ha.
      split; [by apply pt_frame|]. by apply (pte_val_frame l).
Qed.

(** ** Writing a leaf entry *)

Lemma pt_leaf_update level m pt va a v :
  pt_wf level m pt -> NoDup (pt_pages level m pt) -> pte_addr level m pt va = Some a ->
  let m' := st64 m a v in
  pt_pages level m' pt ≡ₚ pt_pages level m pt /\ pt_wf level m' pt /\
  forall va', pte_addr level m' pt va' = pte_addr level m pt va'.
Proof.
  intros Hwf Hnd Ha m'. revert pt Hwf Hnd Ha. induction level as [|l IH]; intros pt Hwf Hnd Ha; [done|].
  rewrite pte_addr_S in Ha. set (i := PX (Z.of_nat (S l)) va) in *.
  destruct (pte_valid _) eqn:He; [|done].
  pose proof (PX_range (Z.of_nat (S l)) va) as Hi. fold i in Hi.
  destruct (pte_addr_page _ _ _ _ _ Ha) as (p & Hp & Hap).
  destruct (proj2 Hwf i Hi He) as [_ Hwfc]. pose proof (pt_wf_pages _ _ _ _ Hwfc Hp) as Hpok.
  destruct (pt_nodup_child _ _ _ _ Hnd Hi He) as (Hndc & _).
  destruct (IH _ Hwfc Hndc Ha) as (Hpg & Hwf' & Had).
  destruct (pt_child_grow l m m' pt i [p] []) as (H1 & H2 & H3); try done.
  - apply st64_mod_only; subst a; apply entry_bounds, PX_range.
  - intros q Hq%list_elem_of_singleton. subst q. split; [apply Hpok|by left].
  - split; [done|]. split; [done|]. intros va'. specialize (H3 va').
    destruct (_ =? i); destruct H3 as [H3 H4]; [by rewrite H3, H4|done].
Qed.

(** Two addresses with the same leaf entry have the same index at each level. *)
Lemma pte_addr_inj level m pt va va' a :
  pt_wf level m pt -> NoDup (pt_pages level m pt) ->
  pte_addr level m pt va = Some a -> pte_addr level m pt va' = Some a ->
  forall k, (k <= level)%nat -> PX (Z.of_nat k) va = PX (Z.of_nat k) va'.
Proof.
  revert pt. induction level as [|l IH]; intros pt Hwf Hnd Ha Ha' k Hk.
  - cbn [pte_addr] in Ha, Ha'. assert (k = O) as -> by lia. change (Z.of_nat 0) with 0.
    assert (pt + 8 * PX 0 va = pt + 8 * PX 0 va') by congruence. lia.
  - rewrite pte_addr_S in Ha, Ha'. destruct (pte_valid _) eqn:E in Ha; [|done].
    destruct (pte_valid _) eqn:E' in Ha'; [|done].
    pose proof (PX_range (Z.of_nat (S l)) va) as Hi. pose proof (PX_range (Z.of_nat (S l)) va') as Hi'.
    destruct (pt_nodup_child _ _ _ _ Hnd Hi E) as (Hndc & _ & Hdis).
    destruct (proj2 Hwf _ Hi E) as [_ Hwfc]. destruct (proj2 Hwf _ Hi' E') as [_ Hwfc'].
    destruct (Z.eq_dec (PX (Z.of_nat (S l)) va) (PX (Z.of_nat (S l)) va')) as [Heq|Hne].
    + destruct (decide (k = S l)) as [->|]; [done|]. rewrite <- Heq in Ha'.
      exact (IH _ Hwfc Hndc Ha Ha' k ltac:(lia)).
    + exfalso. destruct (pte_addr_page _ _ _ _ _ Ha) as (p & Hp & Hap).
      destruct (pte_addr_page _ _ _ _ _ Ha') as (p' & Hp' & Hap').
      destruct (pt_wf_pages _ _ _ _ Hwfc Hp) as [Hal _]. destruct (pt_wf_pages _ _ _ _ Hwfc' Hp') as [Hal' _].
      pose proof (PX_range 0 va). pose proof (PX_range 0 va').
      assert (p = p') as <- by (unfold PGSIZE in *; Z.div_mod_to_equations; lia).
      by apply (Hdis _ p Hi').
Qed.
(** ** Adding a table *)

(** A zeroed page is an empty table of any level. *)
Lemma pt_zero_page level m p :
  page_ok p -> (forall x, p <= x < p + PGSIZE -> ld8 m x = 0) ->
  pt_pages level m p = [p] /\ pt_wf level m p /\ forall va, pte_val level m p va = 0.
Proof.
  intros Hp Hz. assert (He : forall i, 0 <= i < 512 -> ld64 m (p + 8 * i) = 0).
  { intros i Hi. apply ld64_zero. intros x Hx. apply Hz. destruct (entry_bounds i p Hi). lia. }
  destruct level as [|l].
  - split; [done|]. split; [done|]. intros va. apply He, PX_range.
  - split; [|split].
    + rewrite pt_pages_S. f_equal. rewrite (Forall_bind_ext _ (fun _ => [])).
      { by induction pt_indices. }
      apply Forall_forall. intros i Hi%elem_of_pt_indices. by rewrite He.
    + split; [done|]. intros i Hi. simpl. by rewrite He.
    + intros va. unfold pte_val. by rewrite pte_addr_S, He by apply PX_range.
Qed.

(** Linking a zeroed page [p] into an invalid entry of the root. *)
Lemma pt_link l m m' pt i p :
  pt_wf (S l) m pt -> NoDup (pt_pages (S l) m pt) -> 0 <= i < 512 ->
  pte_valid (ld64 m (pt + 8 * i)) = false -> page_ok p -> p ∉ pt_pages (S l) m pt ->
  mod_only [p; pt] m m' -> (forall x, p <= x < p + PGSIZE -> ld8 m' x = 0) ->
  ld64 m' (pt + 8 * i) = Z.lor (PA2PTE p) PTE_V ->
  (forall j, 0 <= j < 512 -> j <> i -> ld64 m' (pt + 8 * j) = ld64 m (pt + 8 * j)) ->
  pt_pages (S l) m' pt ≡ₚ p :: pt_pages (S l) m pt /\ pt_wf (S l) m' pt /\
  forall va, pte_val (S l) m' pt va = pte_val (S l) m pt va.
Proof.
  intros Hwf Hnd Hi He Hp Hfresh Hm Hz Hei Hother.
  destruct (pt_zero_page l m' p Hp Hz) as (Hzp & Hzwf & Hzv).
  pose proof (page_ok_range p Hp). pose proof Hp as [Hpal _].
  assert (Hc : PTE2PA (ld64 m' (pt + 8 * i)) = p) by (rewrite Hei; apply PTE2PA_PA2PTE; done || lia).
  assert (Hfl : PTE_FLAGS (ld64 m' (pt + 8 * i)) = PTE_V) by (rewrite Hei; apply PTE_FLAGS_PA2PTE; done || lia).
  assert (Hv : pte_valid (ld64 m' (pt + 8 * i)) = true).
  { unfold pte_valid. rewrite land_flag_PTE_FLAGS, Hfl by done. done. }
  assert (Hsub : forall j, 0 <= j < 512 -> j <> i -> pte_valid (ld64 m (pt + 8 * j)) = true ->
    forall q, q ∈ pt_pages l m (PTE2PA (ld64 m (pt + 8 * j))) -> agree q (q + PGSIZE) m m').
  { intros j Hj Hne Hej q Hq.
    assert (q ∈ pt_pages (S l) m pt) as Hq' by (apply elem_of_pt_pages_S; eauto).
    destruct (pt_nodup_child _ _ _ _ Hnd Hj Hej) as (_ & Hpt & _).
    destruct (pt_wf_page _ _ _ Hwf) as [Hptal _]. destruct (pt_wf_pages _ _ _ _ Hwf Hq') as [Hqal _].
    eapply mod_only_agree; [done|set_solver|done|]. set_solver. }
  split; [|split].
  - rewrite !pt_pages_S. change (p :: ?a :: ?b) with ([p] ++ a :: b).
    rewrite <- Permutation_middle. constructor. apply (bind_update _ _ _ i).
    + apply NoDup_pt_indices.
    + by apply elem_of_pt_indices.
    + intros j Hj%elem_of_pt_indices Hne. simpl. rewrite Hother by done.
      destruct (pte_valid (ld64 m (pt + 8 * j))) eqn:E; [|done]. by apply pt_frame, Hsub.
    + by rewrite Hv, He, Hc, Hzp.
  - split; [by eapply pt_wf_page|]. intros j Hj. destruct (Z.eq_dec j i) as [->|Hne]; simpl.
    + by rewrite Hc.
    + rewrite Hother by done. intros Hej. destruct (proj2 Hwf j Hj Hej) as [Hf Hwfc].
      split; [done|]. by apply (pt_frame l m); [apply Hsub|].
  - intros va. unfold pte_val. rewrite !pte_addr_S.
    pose proof (PX_range (Z.of_nat (S l)) va) as Hx.
    destruct (Z.eq_dec (PX (Z.of_nat (S l)) va) i) as [->|Hne].
    + rewrite Hv, He, Hc. apply (Hzv va).
    + rewrite Hother by done. destruct (pte_valid (ld64 m (pt + 8 * PX _ va))) eqn:E; [|done].
      by apply (pte_val_frame l), Hsub.
Qed.

(** ** Growth *)

Lemma pt_grow_refl level s pt fl : pt_inv level s pt fl -> pt_grow level s s pt fl fl.
Proof. intros (? & ? & ?). exists []. split; [done|]. split; [done|]. split; [done|]. split; [done|]. apply mod_only_refl. Qed.

Lemma pt_grow_trans level s1 s2 s3 pt fl1 fl2 fl3 :
  pt_grow level s1 s2 pt fl1 fl2 -> pt_grow level s2 s3 pt fl2 fl3 -> pt_grow level s1 s3 pt fl1 fl3.
Proof.
  intros (n1 & -> & Hp1 & Hf1 & Hw1 & Hm1) (n2 & -> & Hp2 & Hf2 & Hw2 & Hm2).
  exists (n1 ++ n2). split; [by rewrite app_assoc|].
  split; [rewrite Hp2, Hp1; solve_Permutation|]. split; [done|]. split; [done|].
  eapply mod_only_trans; [|done]. eapply mod_only_sub; [done|]. intros p Hp. rewrite Hp2. set_solver.
Qed.

Lemma pt_grow_inv level s s' pt fl fl' :
  pt_inv level s pt fl -> pt_grow level s s' pt fl fl' -> pt_inv level s' pt fl'.
Proof.
  intros (Hf & Hw & Hnd) (new & -> & Hp & Hf' & Hw' & _). split; [done|]. split; [done|].
  rewrite Hp. revert Hnd. apply NoDup_Permutation_proper. solve_Permutation.
Qed.

(** The invariant of a tree gives that of the subtree of a valid entry. *)
Lemma pt_inv_child l s pt fl i :
  pt_inv (S l) s pt fl -> 0 <= i < 512 -> pte_valid (ld64 (mem s) (pt + 8 * i)) = true ->
  pt_inv l s (PTE2PA (ld64 (mem s) (pt + 8 * i))) fl.
Proof.
  intros (Hf & Hw & Hnd) Hi He. split; [done|]. split; [by apply (proj2 Hw)|].
  apply NoDup_app in Hnd as (Hnd & Hdis & Hndf).
  destruct (pt_nodup_child _ _ _ _ Hnd Hi He) as (Hndc & _).
  apply NoDup_app. split; [done|]. split; [|done].
  intros p Hp. apply Hdis, elem_of_pt_pages_S. eauto.
Qed.

(** Growth of a subtree is growth of the tree. *)
Lemma pt_grow_child l s s' pt fl fl' i :
  pt_inv (S l) s pt fl -> 0 <= i < 512 -> pte_valid (ld64 (mem s) (pt + 8 * i)) = true ->
  let c := PTE2PA (ld64 (mem s) (pt + 8 * i)) in
  pt_grow l s s' c fl fl' ->
  pt_grow (S l) s s' pt fl fl' /\
  forall va, if PX (Z.of_nat (S l)) va =? i
             then pte_addr (S l) (mem s) pt va = pte_addr l (mem s) c va /\
                  pte_addr (S l) (mem s') pt va = pte_addr l (mem s') c va
             else pte_addr (S l) (mem s') pt va = pte_addr (S l) (mem s) pt va /\
                  pte_val (S l) (mem s') pt va = pte_val (S l) (mem s) pt va.
Proof.
  intros (Hf & Hw & Hnd) Hi He c (new & -> & Hp & Hf' & Hw' & Hm).
  apply NoDup_app in Hnd as (Hnd & Hdis & Hndf).
  destruct (pt_child_grow l (mem s) (mem s') pt i _ new Hw Hnd Hi He Hm) as (H1 & H2 & H3); [|done|done|].
  { intros q Hq. split; [by destruct (pt_wf_pages _ _ _ _ Hw' Hq)|].
    rewrite Hp, elem_of_app in Hq. destruct Hq as [Hq|Hq]; [right|by left]. set_solver. }
  split; [|done]. exists new. do 4 (split; [done|]). eapply mod_only_sub; [done|].
  intros p. rewrite Hp, H1, !elem_of_app. intros [?|?]; [by left|right].
  apply elem_of_pt_pages_S. eauto.
Qed.

(** ** walk *)

(** Looking up never changes anything: the result is the address of the leaf
    entry, or 0. *)
Lemma walk_levels_lookup level pt va s :
  pt_wf level (mem s) pt ->
  walk_levels level pt va false s = Ret (default 0 (pte_addr level (mem s) pt va), s).
Proof.
  revert pt. induction level as [|l IH]; intros pt Hw; [done|]. cbn [walk_levels].
  assert (Hr : in_ram (pt + 8 * PX (Z.of_nat (S l)) va) 8 = true)
    by (apply entry_in_ram; [by eapply pt_wf_page|apply PX_range]).
  unfold bind, rd64. rewrite Hr, pte_addr_S. fold (pte_valid (ld64 (mem s) (pt + 8 * PX (Z.of_nat (S l)) va))).
  destruct (pte_valid _) eqn:E; [|done]. apply IH, (proj2 Hw); [apply PX_range|done].
Qed.

(** The memory after [memset] of a fresh page and the store of its entry. *)
Lemma link_stores m m1 pt i p :
  page_ok pt -> page_ok p -> pt <> p -> 0 <= i < 512 -> mod_only [p] m m1 ->
  let m' := st64 (memset m1 p 0 PGSIZE) (pt + 8 * i) (Z.lor (PA2PTE p) PTE_V) in
  mod_only [p; pt] m m' /\ mod_only [p; pt] m1 m' /\
  (forall x, p <= x < p + PGSIZE -> ld8 m' x = 0) /\
  ld64 m' (pt + 8 * i) = Z.lor (PA2PTE p) PTE_V /\
  forall j, 0 <= j < 512 -> j <> i -> ld64 m' (pt + 8 * j) = ld64 m (pt + 8 * j).
Proof.
  intros Hpt Hp Hne Hi Hm m'. pose proof (page_ok_range p Hp) as Hr.
  destruct (entry_bounds i pt Hi) as [Hb1 Hb2].
  pose proof (page_ok_disjoint pt p Hpt Hp Hne) as Hd.
  set (m2 := memset m1 p 0 PGSIZE) in *.
  assert (Hm2 : mod_only [p] m m2) by (eapply mod_only_trans; [done|apply memset_mod_only]).
  assert (Hm3 : mod_only [pt] m2 m') by (by apply st64_mod_only).
  assert (Hall : forall m0, mod_only [p] m0 m2 -> mod_only [p; pt] m0 m').
  { intros m0 H0. eapply mod_only_trans; eapply mod_only_sub; [exact H0| |exact Hm3|]; set_solver. }
  split; [by apply Hall|]. split; [apply Hall, memset_mod_only|]. split; [|split].
  - intros x Hx. unfold m'. rewrite st64_frame by lia. by apply memset_in.
  - apply ld64_st64_eq, pte_range; [lia|done].
  - intros j Hj Hji. unfold m'. rewrite ld64_st64_ne by lia. symmetry. apply entry_agree; [|done].
    destruct Hpt as [Hptal _], Hp as [Hpal _]. apply (mod_only_agree [p]); [done| |done|].
    + by intros q ->%list_elem_of_singleton.
    + by rewrite list_elem_of_singleton.
Qed.

(** What [kalloc], [memset] and the store of the new entry do to the tree. *)
Lemma wp_new_table l pt i s fl Q (k : Z -> M kst Z) :
  pt_inv (S l) s pt fl -> 0 <= i < 512 -> pte_valid (ld64 (mem s) (pt + 8 * i)) = false ->
  (fl = [] -> Q 0 s) ->
  (forall p fl' s', length fl = S (length fl') -> pt_grow (S l) s s' pt fl fl' ->
     (forall va, pte_val (S l) (mem s') pt va = pte_val (S l) (mem s) pt va) ->
     pte_valid (ld64 (mem s') (pt + 8 * i)) = true -> p = PTE2PA (ld64 (mem s') (pt + 8 * i)) ->
     wp (k p) s' Q) ->
  wp (page <- kalloc;;
      if page =? 0 then ret 0 else
      kmemset page 0 PGSIZE;;
      wr64 (pt + 8 * i) (Z.lor (PA2PTE page) PTE_V);;
      k page) s Q.
Proof.
  intros (Hf & Hw & Hnd) Hi He H0 HQ. pose proof (pt_wf_page _ _ _ Hw) as Hpt.
  wp_step. eapply wp_mono; [by apply wp_kalloc|]. intros p s1 [(-> & -> & ->)|(fl' & -> & Hp & Hf1 & Hnf & Hm1)].
  { rewrite Z.eqb_refl. wp_step. auto. }
  pose proof (page_ok_range p Hp) as Hr. rewrite (proj2 (Z.eqb_neq p 0)) by lia.
  apply NoDup_app in Hnd as (Hnd & Hdis & Hndf).
  assert (Hpn : p ∉ pt_pages (S l) (mem s) pt) by (intros Hin; apply (Hdis _ Hin); left).
  pose proof (pt_pages_head (S l) (mem s) pt) as Hhead. assert (Hne : pt <> p) by congruence.
  destruct (link_stores _ _ _ i _ Hpt Hp Hne Hi Hm1) as (Hm & Hm' & Hz & Hei & Hoth).
  wp_step. apply wp_kmemset; [by apply (page_ok_in_ram p)|].
  wp_step. apply wp_wr64; [by apply entry_in_ram|]. cbn [mem freelist].
  destruct (pt_link l (mem s) _ pt i p Hw Hnd Hi He Hp Hpn Hm Hz Hei Hoth) as (Hpg & Hwf' & Hval).
  destruct (proj2 Hwf' i Hi) as [_ _].
  { unfold pte_valid. rewrite Hei, land_flag_PTE_FLAGS, PTE_FLAGS_PA2PTE; done || lia. }
  apply (HQ p fl'); cbn [mem]; [done| |done| |].
  - exists [p]. split; [done|]. split; [done|]. split; [|split; [done|]].
    + eapply (free_list_frame [p; pt] s1); [done|done|done|].
      destruct Hp as [Hpal _], Hpt as [Hptal _].
      intros q. rewrite elem_of_cons, list_elem_of_singleton.
      intros [->| ->]; (split; [done|]); [done|]. intros Hin. apply (Hdis pt Hhead). by right.
    + eapply mod_only_sub; [done|]. intros q. rewrite Hpg. set_solver.
  - unfold pte_valid. rewrite Hei, land_flag_PTE_FLAGS, PTE_FLAGS_PA2PTE; done || lia.
  - rewrite Hei, PTE2PA_PA2PTE; try done; [lia|apply Hp].
Qed.

(** Walking with [alloc] set: entries keep their values, and the result is the
    leaf entry's address unless the allocator ran dry. *)
Lemma wp_walk_levels level pt va s fl :
  pt_inv level s pt fl ->
  wp (walk_levels level pt va true) s (fun r s' => exists fl',
    pt_grow level s s' pt fl fl' /\
    (forall va', pte_val level (mem s') pt va' = pte_val level (mem s) pt va') /\
    ((r = 0 /\ fl' = [] /\ (length fl < level)%nat) \/
     (r <> 0 /\ pte_addr level (mem s') pt va = Some r /\ (length fl <= length fl' + level)%nat))).
Proof.
  revert pt s fl. induction level as [|l IH]; intros pt s fl Hinv.
  - cbn [walk_levels]. wp_step. exists fl. split; [by apply pt_grow_refl|]. split; [done|]. right.
    destruct Hinv as (_ & Hw & _). apply pt_wf_page, page_ok_range in Hw.
    pose proof (PX_range 0 va). split; [lia|]. split; [done|lia].
  - pose proof (PX_range (Z.of_nat (S l)) va) as Hi. cbn [walk_levels].
    set (i := PX (Z.of_nat (S l)) va) in *.
    assert (Hdesc : forall s1 fl1, pt_inv (S l) s1 pt fl1 -> pte_valid (ld64 (mem s1) (pt + 8 * i)) = true ->
      wp (walk_levels l (PTE2PA (ld64 (mem s1) (pt + 8 * i))) va true) s1 (fun r s' => exists fl',
        pt_grow (S l) s1 s' pt fl1 fl' /\
        (forall va', pte_val (S l) (mem s') pt va' = pte_val (S l) (mem s1) pt va') /\
        ((r = 0 /\ fl' = [] /\ (length fl1 < l)%nat) \/
         (r <> 0 /\ pte_addr (S l) (mem s') pt va = Some r /\ (length fl1 <= length fl' + l)%nat)))).
    { intros s1 fl1 H1 He. eapply wp_mono; [by apply IH, pt_inv_child|].
      intros r s' (fl' & Hg & Hv & Hr). exists fl'.
      destruct (pt_grow_child _ _ _ _ _ _ _ H1 Hi He Hg) as [Hg' Ha]. split; [done|]. split.
      - intros va'. specialize (Ha va'). destruct (_ =? i); [|by destruct Ha].
        destruct Ha as [Ha Ha']. unfold pte_val. rewrite Ha, Ha'. apply Hv.
      - specialize (Ha va). fold i in Ha. rewrite Z.eqb_refl in Ha. destruct Ha as [_ ->]. done. }
    wp_step. apply wp_rd64. { apply entry_in_ram; [eapply pt_wf_page, Hinv|done]. }
    destruct (ctrue _) eqn:He.
    { eapply wp_mono; [by apply (Hdesc s fl)|]. intros r s' (fl' & ? & ? & Hr). exists fl'.
      split; [done|]. split; [done|]. destruct Hr as [(-> & -> & ?)|(? & ? & ?)]; [left|right]; auto with lia. }
    cbn [negb].
    apply (wp_new_table l _ _ _ fl); [done|done|done| |].
    + intros ->. exists []. split; [by apply pt_grow_refl|]. split; [done|]. left. split; [done|]. split; [done|simpl; lia].
    + intros p fl1 s1 Hlen Hg Hv Hval ->. eapply wp_mono; [by apply (Hdesc s1 fl1); [eapply pt_grow_inv|]|].
      intros r s' (fl' & Hg' & Hv' & Hr). exists fl'. split; [by eapply pt_grow_trans|].
      split; [intros va'; by rewrite Hv', Hv|].
      destruct Hr as [(-> & -> & ?)|(? & ? & ?)]; [left|right]; auto with lia.
Qed.
End WalkProofs.

#[global] Opaque pt_pages.
