(* ===== verification/VmMap.v ===== *)
(** * Mapping and unmapping

    The three-level view of a page table ([pte]), what [walk], [walkaddr],
    [mappages] and [uvmunmap] do to it, and how many pages they consume. *)
From S2P Require Import Prelude Riscv Mem KString Kalloc Vm VmWalk.

(** The leaf entry of [va] in the table [pt]. *)
Definition pte (s : kst) (pt va : Z) : Z := pte_val 2 (mem s) pt va.

(** The entry [mappages] stores. *)
Definition mk_pte (pa perm : Z) : Z := Z.lor (Z.lor (PA2PTE pa) perm) PTE_V.

(** The number of pages that [size] bytes from [va] touch. *)
Definition span (va size : Z) : nat :=
  Z.to_nat ((PGROUNDDOWN (va + size - 1) - PGROUNDDOWN va) / PGSIZE + 1).

(** [va] is mapped to the page [p] by a leaf entry. *)
Definition leaf (s : kst) (pt va p : Z) : Prop :=
  pte_valid (pte s pt va) = true /\ PTE_FLAGS (pte s pt va) <> PTE_V /\ PTE2PA (pte s pt va) = p.

Section MapProofs.
Context {L : Layout}.
Implicit Types (s : kst) (pt va : Z) (fl ps : list Z).

Notation table := (pt_pages 2).
Notation pt_ok := (pt_inv 2).

(** ** One page *)

Lemma pte_addr_same_page m pt va va' :
  va / PGSIZE = va' / PGSIZE -> pte_addr 2 m pt va = pte_addr 2 m pt va'.
Proof.
  intros H. cbn [pte_addr]. rewrite !(PX_page _ va), !(PX_page _ va'), H by lia. done.
Qed.

Lemma pte_same_page s pt va va' : va / PGSIZE = va' / PGSIZE -> pte s pt va = pte s pt va'.
Proof. intros H. unfold pte, pte_val. by rewrite (pte_addr_same_page _ _ _ va'). Qed.

Lemma pte_frame s s' pt va :
  (forall p, p ∈ table (mem s) pt -> agree p (p + PGSIZE) (mem s) (mem s')) -> pte s' pt va = pte s pt va.
Proof. apply pte_val_frame. Qed.

Lemma walk_lookup s pt va fl :
  pt_ok s pt fl -> 0 <= va < MAXVA ->
  walk pt va false s = Ret (default 0 (pte_addr 2 (mem s) pt va), s).
Proof.
  intros (_ & Hw & _) Hva. unfold walk. rewrite Z.geb_leb. zcases. by apply walk_levels_lookup.
Qed.

Lemma wp_walk_alloc s pt va fl :
  pt_ok s pt fl -> 0 <= va < MAXVA ->
  wp (walk pt va true) s (fun r s' => exists fl',
    pt_grow 2 s s' pt fl fl' /\ (forall va', pte s' pt va' = pte s pt va') /\
    ((r = 0 /\ fl' = [] /\ (length fl < 2)%nat) \/
     (r <> 0 /\ pte_addr 2 (mem s') pt va = Some r /\ (length fl <= length fl' + 2)%nat))).
Proof. intros H Hva. unfold walk. rewrite Z.geb_leb. zcases. by apply wp_walk_levels. Qed.

Lemma pte_addr_in_ram s pt va a fl :
  pt_ok s pt fl -> pte_addr 2 (mem s) pt va = Some a -> in_ram a 8 = true /\ a <> 0.
Proof.
  intros (_ & Hw & _) Ha. apply pte_addr_page in Ha as (p & Hp & ->).
  pose proof (pt_wf_pages _ _ _ _ Hw Hp) as Hpok. pose proof (PX_range 0 va).
  split; [apply entry_in_ram; [done|lia]|]. apply page_ok_range in Hpok. lia.
Qed.

Lemma pte_some s pt va a : pte_addr 2 (mem s) pt va = Some a -> pte s pt va = ld64 (mem s) a.
Proof. unfold pte, pte_val. by intros ->. Qed.

(** A valid entry has a place. *)
Lemma pte_valid_addr s pt va :
  pte_valid (pte s pt va) = true -> exists a, pte_addr 2 (mem s) pt va = Some a.
Proof. unfold pte, pte_val. destruct (pte_addr _ _ _ _); [eauto|done]. Qed.

(** Storing a leaf entry changes the mapping of its page only. *)
Lemma set_pte s pt va a v fl :
  pt_ok s pt fl -> 0 <= va < MAXVA -> pte_addr 2 (mem s) pt va = Some a -> 0 <= v < 2 ^ 64 ->
  let s' := Kst (st64 (mem s) a v) (freelist s) in
  pt_grow 2 s s' pt fl fl /\
  forall va', 0 <= va' < VASPAN -> pte s' pt va' = if va' / PGSIZE =? va / PGSIZE then v else pte s pt va'.
Proof.
  intros (Hf & Hw & Hnd) Hva Ha Hv s'. apply NoDup_app in Hnd as (Hnd & Hdis & _).
  destruct (pt_leaf_update 2 _ _ _ _ v Hw Hnd Ha) as (Hpg & Hw' & Had).
  destruct (pte_addr_page _ _ _ _ _ Ha) as (p & Hp & Hap).
  pose proof (pt_wf_pages _ _ _ _ Hw Hp) as [Hpal _].
  assert (Hm : mod_only [p] (mem s) (mem s')) by (apply st64_mod_only; subst a; apply entry_bounds, PX_range).
  split.
  - exists []. split; [done|]. split; [done|]. split; [|split; [done|]].
    + eapply (free_list_frame [p] s); [done|done|done|].
      intros q ->%list_elem_of_singleton. split; [done|]. by apply Hdis.
    + eapply mod_only_sub; [done|]. intros q ->%list_elem_of_singleton. cbn [mem s']. by rewrite Hpg.
  - intros va' Hva'. unfold pte, pte_val. cbn [mem s']. rewrite Had.
    destruct (Z.eqb_spec (va' / PGSIZE) (va / PGSIZE)) as [Heq|Hne].
    { rewrite (pte_addr_same_page _ _ _ _ Heq), Ha. by apply ld64_st64_eq. }
    destruct (pte_addr 2 (mem s) pt va') as [a'|] eqn:Ea'; [|done].
    destruct (pte_addr_page _ _ _ _ _ Ea') as (p' & Hp' & Hap').
    pose proof (pt_wf_pages _ _ _ _ Hw Hp') as [Hpal' _].
    pose proof (PX_range 0 va). pose proof (PX_range 0 va').
    apply ld64_st64_ne. destruct (Z.eq_dec a' a) as [->|]; [|unfold PGSIZE in *; Z.div_mod_to_equations; lia].
    exfalso. apply Hne. pose proof (pte_addr_inj 2 _ _ _ _ _ Hw Hnd Ha Ea') as Hix.
    symmetry. apply PX_inj; [va_lia|done|apply (Hix 2%nat)|apply (Hix 1%nat)|apply (Hix 0%nat)]; lia.
Qed.

(** ** walkaddr *)

(** The physical page a user address names, 0 if it is not mapped for the user. *)
Definition user_page s pt va : Z :=
  let e := pte s pt va in
  if (MAXVA <=? va) || negb (pte_valid e) || (Z.land e PTE_U =? 0) then 0 else PTE2PA e.

Lemma walkaddr_eq s pt va fl :
  pt_ok s pt fl -> 0 <= va -> walkaddr pt va s = Ret (user_page s pt va, s).
Proof.
  intros Hok Hva. unfold walkaddr, user_page. rewrite Z.geb_leb.
  destruct (Z.leb_spec MAXVA va); [done|]. cbn [orb].
  erewrite bind_ret_eq by (apply (walk_lookup _ _ _ fl); [done|lia]). unfold pte, pte_val.
  destruct (pte_addr 2 (mem s) pt va) as [a|] eqn:Ea; [|done]. change (default 0 (Some a)) with a.
  destruct (pte_addr_in_ram _ _ _ _ _ Hok Ea) as [Hr Hne]. rewrite (proj2 (Z.eqb_neq a 0)) by done.
  unfold bind, rd64. rewrite Hr. unfold pte_valid, ctrue. rewrite negb_involutive.
  destruct (_ =? 0); [done|]. cbn [orb]. by destruct (_ =? 0).
Qed.

(** ** mappages *)

Lemma lor_V_range perm : 0 <= perm < 2 ^ 10 -> 0 <= Z.lor perm PTE_V < 2 ^ 10.
Proof.
  intros Hp. assert (0 <= Z.lor perm PTE_V) by (apply Z.lor_nonneg; split; [lia|done]).
  split; [done|]. apply bits_bound; [done|lia|]. intros i Hi.
  rewrite Z.lor_spec, !(testbit_high _ 10); done || lia.
Qed.

Lemma mk_pte_range pa perm : 0 <= pa < 2 ^ 56 -> 0 <= perm < 2 ^ 10 -> 0 <= mk_pte pa perm < 2 ^ 64.
Proof.
  intros Hpa Hp. unfold mk_pte. rewrite <- Z.lor_assoc. apply pte_range; [done|]. by apply lor_V_range.
Qed.

Lemma mk_pte_flags pa perm :
  0 <= pa < 2 ^ 56 -> 0 <= perm < 2 ^ 10 -> PTE_FLAGS (mk_pte pa perm) = Z.lor perm PTE_V.
Proof.
  intros Hpa Hp. unfold mk_pte. rewrite <- Z.lor_assoc. apply PTE_FLAGS_PA2PTE; [done|].
  by apply lor_V_range.
Qed.

Lemma mk_pte_pa pa perm :
  0 <= pa < 2 ^ 56 -> pa mod PGSIZE = 0 -> 0 <= perm < 2 ^ 10 -> PTE2PA (mk_pte pa perm) = pa.
Proof.
  intros Hpa Hal Hp. unfold mk_pte. rewrite <- Z.lor_assoc. apply PTE2PA_PA2PTE; [done|done|].
  by apply lor_V_range.
Qed.

Lemma mk_pte_valid pa perm :
  0 <= pa < 2 ^ 56 -> 0 <= perm < 2 ^ 10 -> pte_valid (mk_pte pa perm) = true.
Proof.
  intros Hpa Hp. unfold pte_valid. rewrite land_flag_PTE_FLAGS, mk_pte_flags by done.
  apply ctrue_true. intros H0. apply (f_equal (fun z => Z.testbit z 0)) in H0.
  by rewrite Z.land_spec, Z.lor_spec, orb_true_r in H0.
Qed.

Lemma wp_mappages_loop k fuel pt a pa perm s fl :
  pt_ok s pt fl -> (k < fuel)%nat -> a mod PGSIZE = 0 -> 0 <= a ->
  a + Z.of_nat (S k) * PGSIZE <= MAXVA ->
  0 <= pa -> pa + Z.of_nat k * PGSIZE < 2 ^ 56 -> 0 <= perm < 2 ^ 10 ->
  (forall va, a <= va < a + Z.of_nat (S k) * PGSIZE -> pte_valid (pte s pt va) = false) ->
  wp (mappages_loop fuel pt a (a + Z.of_nat k * PGSIZE) pa perm) s (fun r s' => exists fl' j,
    pt_grow 2 s s' pt fl fl' /\
    (r = 0 /\ j = S k /\ (length fl <= length fl' + 2 * S k)%nat \/
     r = -1 /\ (j <= k)%nat /\ fl' = [] /\ (length fl < 2 * S k)%nat) /\
    forall va, 0 <= va < VASPAN ->
      pte s' pt va = if (a <=? va) && (va <? a + Z.of_nat j * PGSIZE)
                     then mk_pte (pa + (va / PGSIZE * PGSIZE - a)) perm else pte s pt va).
Proof.
  revert k a pa s fl. induction fuel as [|fuel IH];
    intros k a pa s fl Hok Hfuel Hal Ha Hend Hpa Hpend Hperm Hun; [lia|].
  assert (Hk : 0 <= Z.of_nat k * PGSIZE) by (unfold PGSIZE; lia).
  cbn [mappages_loop]. wp_step. eapply wp_mono; [apply (wp_walk_alloc s pt a fl Hok); unfold PGSIZE in *; lia|].
  intros r s1 (fl1 & Hg1 & Hv1 & Hr). pose proof (pt_grow_inv _ _ _ _ _ _ Hok Hg1) as Hok1.
  destruct Hr as [(-> & -> & Hlen)|(Hr0 & Haddr & Hlen)].
  { rewrite Z.eqb_refl. wp_step. exists [], O. split; [done|]. split; [right; split; [done|split; [lia|split; [done|lia]]]|].
    intros va Hva. rewrite Hv1. zcases. }
  rewrite (proj2 (Z.eqb_neq r 0)) by done. wp_step. apply wp_rd64; [by eapply pte_addr_in_ram|].
  rewrite <- (pte_some _ _ _ _ Haddr). fold (pte_valid (pte s1 pt a)).
  rewrite Hv1, Hun by (unfold PGSIZE; lia). wp_step. apply wp_wr64; [by eapply pte_addr_in_ram|].
  fold (mk_pte pa perm).
  destruct (set_pte s1 pt a r (mk_pte pa perm) fl1 Hok1) as [Hg2 Hv2];
    [unfold PGSIZE in *; lia|done|apply mk_pte_range; lia|].
  set (s2 := Kst _ _) in *. pose proof (pt_grow_inv _ _ _ _ _ _ Hok1 Hg2) as Hok2.
  pose proof (pt_grow_trans _ _ _ _ _ _ _ _ Hg1 Hg2) as Hg.
  destruct k as [|k].
  - rewrite (proj2 (Z.eqb_eq a _)) by lia. wp_step. exists fl1, 1%nat. split; [done|]. split; [left; split; [done|split; [done|lia]]|].
    intros va Hva. rewrite Hv2, Hv1 by done. unfold PGSIZE in *.
    destruct (Z.eqb_spec (va / 4096) (a / 4096)); zcases; try (f_equal; Z.div_mod_to_equations; lia).
  - rewrite (proj2 (Z.eqb_neq a _)) by (unfold PGSIZE; lia).
    rewrite !u64_small by va_lia.
    replace (a + Z.of_nat (S k) * PGSIZE) with (a + PGSIZE + Z.of_nat k * PGSIZE) by lia.
    assert (Hal' : (a + PGSIZE) mod PGSIZE = 0) by (unfold PGSIZE in *; Z.div_mod_to_equations; lia).
    rewrite Nat2Z.inj_succ in *.
    eapply wp_mono; [apply (IH k (a + PGSIZE) (pa + PGSIZE) s2 fl1); try done; try (unfold PGSIZE in *; lia)|].
    + intros va Hva. rewrite Hv2, Hv1 by va_lia.
      destruct (Z.eqb_spec (va / PGSIZE) (a / PGSIZE)); [unfold PGSIZE in *; Z.div_mod_to_equations; lia|].
      apply Hun. unfold PGSIZE in *. lia.
    + intros r' s3 (fl3 & j & Hg3 & Hj & Hv3). exists fl3, (S j).
      split; [by eapply pt_grow_trans|].
      split; [destruct Hj as [(-> & -> & ?)|(-> & ? & -> & ?)];
        [left; split; [done|split; [done|lia]]|right; split; [done|split; [lia|split; [done|lia]]]]|].
      intros va Hva. rewrite Hv3, Hv2, Hv1 by done. unfold PGSIZE in *.
      destruct (Z.eqb_spec (va / 4096) (a / 4096)); zcases; try (f_equal; Z.div_mod_to_equations; lia);
      exfalso; Z.div_mod_to_equations; lia.
Qed.

Lemma PGROUNDDOWN_span va size :
  0 <= va -> 0 < size -> va + size <= 2 ^ 64 ->
  let a := PGROUNDDOWN va in
  PGROUNDDOWN (va + size - 1) = a + Z.of_nat (span va size - 1) * PGSIZE /\ (0 < span va size)%nat /\
  0 <= a <= va /\ va < a + PGSIZE /\ a mod PGSIZE = 0 /\
  va + size <= a + Z.of_nat (span va size) * PGSIZE < va + size + PGSIZE.
Proof.
  intros Hva Hsz Hend a. unfold span.
  destruct (PGROUNDDOWN_bounds va) as (H1 & H2 & H3); [lia|].
  destruct (PGROUNDDOWN_bounds (va + size - 1)) as (H4 & H5 & H6); [lia|].
  fold a in H1, H2, H3 |- *. set (b := PGROUNDDOWN (va + size - 1)) in *.
  unfold PGSIZE in *. assert (Hd : b - a = 4096 * ((b - a) / 4096)) by (Z.div_mod_to_equations; lia).
  assert (a <= b) by (Z.div_mod_to_equations; lia). assert (0 <= (b - a) / 4096) by (apply Z.div_pos; lia).
  lia.
Qed.

(** [mappages] maps the pages of the range in order.  It returns 0 when all of
    them are mapped; it returns -1 when the allocator ran dry, with a prefix
    mapped.  No other entry changes. *)
Lemma wp_mappages pt va size pa perm s fl :
  pt_ok s pt fl -> 0 <= va -> 0 < size -> va + size <= MAXVA ->
  0 <= pa -> pa + size + PGSIZE <= 2 ^ 56 -> 0 <= perm < 2 ^ 10 ->
  let a := PGROUNDDOWN va in let n := span va size in
  (forall v, a <= v < a + Z.of_nat n * PGSIZE -> pte_valid (pte s pt v) = false) ->
  wp (mappages pt va size pa perm) s (fun r s' => exists fl' j,
    pt_grow 2 s s' pt fl fl' /\
    (r = 0 /\ j = n /\ (length fl <= length fl' + 2 * n)%nat \/
     r = -1 /\ (j < n)%nat /\ fl' = [] /\ (length fl < 2 * n)%nat) /\
    forall v, 0 <= v < VASPAN ->
      pte s' pt v = if (a <=? v) && (v <? a + Z.of_nat j * PGSIZE)
                    then mk_pte (pa + (v / PGSIZE * PGSIZE - a)) perm else pte s pt v).
Proof.
  intros Hok Hva Hsz Hend Hpa Hpend Hperm a n Hun. rewrite MAXVA_eq in *. unfold mappages.
  destruct (PGROUNDDOWN_span va size Hva Hsz) as (Hlast & Hn & Ha & Hlo & Hal & Hhi); [lia|].
  fold a n in Hlast, Hn, Ha, Hlo, Hal, Hhi |- *. rewrite (proj2 (Z.eqb_neq size 0)) by lia.
  rewrite u64_small, Hlast by lia. replace n with (S (n - 1)) in * by lia.
  set (k := (n - 1)%nat) in *. replace (S k - 1)%nat with k by lia.
  eapply wp_mono; [apply (wp_mappages_loop k _ pt a pa perm s fl); try done|].
  - unfold mappages_fuel. rewrite (proj2 (Z.leb_le _ _)) by (unfold PGSIZE; lia).
    replace (a + Z.of_nat k * PGSIZE - a) with (Z.of_nat k * PGSIZE) by lia.
    rewrite Z.div_mul by (unfold PGSIZE; lia). lia.
  - lia.
  - rewrite MAXVA_eq. unfold PGSIZE in *. Z.div_mod_to_equations. lia.
  - unfold PGSIZE in *. lia.
  - intros r s' (fl' & j & Hg & Hj & Hv). exists fl', j. split; [done|]. split; [|done].
    destruct Hj as [(-> & -> & ?)|(-> & ? & -> & ?)]; [by left|right]. split; [done|]. split; [lia|done].
Qed.

(** Mapping one page. *)
Lemma span_page va : 0 <= va -> va + PGSIZE <= 2 ^ 64 -> va mod PGSIZE = 0 ->
  PGROUNDDOWN va = va /\ span va PGSIZE = 1%nat.
Proof.
  intros H0 H1 Hal. unfold PGSIZE in *. split; [apply PGROUNDDOWN_aligned; [lia|done]|].
  unfold span. rewrite !PGROUNDDOWN_eq by (unfold PGSIZE; lia). unfold PGSIZE.
  replace ((va + 4096 - 1) mod 4096) with 4095 by (Z.div_mod_to_equations; lia).
  rewrite Hal. replace (va + 4096 - 1 - 4095 - (va - 0)) with 0 by lia. done.
Qed.

Lemma wp_mappages_page pt va pa perm s fl :
  pt_ok s pt fl -> 0 <= va -> va + PGSIZE <= MAXVA -> va mod PGSIZE = 0 ->
  page_ok pa -> 0 <= perm < 2 ^ 10 -> pte_valid (pte s pt va) = false ->
  wp (mappages pt va PGSIZE pa perm) s (fun r s' => exists fl', pt_grow 2 s s' pt fl fl' /\
    (r = 0 /\ (length fl <= length fl' + 2)%nat /\ (forall v, 0 <= v < VASPAN ->
               pte s' pt v = if v / PGSIZE =? va / PGSIZE then mk_pte pa perm else pte s pt v) \/
     r = -1 /\ fl' = [] /\ (length fl < 2)%nat /\ forall v, 0 <= v < VASPAN -> pte s' pt v = pte s pt v)).
Proof.
  intros Hok Hva Hend Hal Hpa Hperm Hun. pose proof (page_ok_bounds pa Hpa) as Hb.
  destruct (span_page va Hva) as [Ha Hn]; [rewrite MAXVA_eq in *; lia|done|].
  eapply wp_mono; [apply (wp_mappages pt va PGSIZE pa perm s fl); try done|].
  - unfold PHYSTOP, KERNBASE, PGSIZE in *. lia.
  - unfold PHYSTOP, KERNBASE, PGSIZE in *. lia.
  - rewrite Ha, Hn. intros v Hv. rewrite (pte_same_page _ _ v va); [done|].
    unfold PGSIZE in *. Z.div_mod_to_equations. lia.
  - rewrite Ha, Hn. intros r s' (fl' & j & Hg & Hj & Hv). exists fl'. split; [done|].
    destruct Hj as [(-> & -> & ?)|(-> & Hj & -> & ?)]; [left|right]; (split; [done|]).
    + split; [lia|]. intros v Hvr. rewrite Hv by done. unfold PGSIZE in *.
      destruct (Z.eqb_spec (v / 4096) (va / 4096)); zcases; try (f_equal; Z.div_mod_to_equations; lia).
    + split; [done|]. split; [lia|]. intros v Hvr. rewrite Hv by done. assert (j = O) as -> by lia. zcases.
Qed.

(** ** uvmunmap *)

(** Freeing a page outside the table leaves the table alone. *)
Lemma wp_kfree_table p s pt fl :
  pt_ok s pt fl -> page_ok p -> p ∉ table (mem s) pt -> p ∉ fl ->
  wp (kfree p) s (fun _ s' => pt_ok s' pt (p :: fl) /\ table (mem s') pt = table (mem s) pt /\
    mod_only [p] (mem s) (mem s') /\ (forall va, pte s' pt va = pte s pt va) /\
    forall va, pte_addr 2 (mem s') pt va = pte_addr 2 (mem s) pt va).
Proof.
  intros (Hf & Hw & Hnd) Hp Hnt Hnf. eapply wp_mono; [by apply wp_kfree|]. intros [] s' [Hf' Hm].
  assert (Ha : forall q, q ∈ table (mem s) pt -> agree q (q + PGSIZE) (mem s) (mem s')).
  { intros q Hq. pose proof (pt_wf_pages _ _ _ _ Hw Hq) as [Hqal _]. pose proof Hp as [Hpal _].
    apply (mod_only_agree [p]); [done| |done|].
    - by intros ? ->%list_elem_of_singleton.
    - rewrite list_elem_of_singleton. congruence. }
  destruct (pt_frame 2 _ _ _ Ha) as (Hpg & Hw' & Had).
  split; [|split; [done|split; [done|split; [|done]]]].
  - split; [done|]. split; [by apply Hw'|]. rewrite Hpg. apply NoDup_app in Hnd as (H1 & H2 & H3).
    apply NoDup_app. split; [done|]. split; [|by constructor]. intros x Hx [->|Hin]%elem_of_cons; [done|].
    by apply (H2 x).
  - intros va. by apply pte_frame.
Qed.

(** The pages a call with [do_free] gives back. *)
Definition freed (do_free : bool) ps : list Z := if do_free then ps else [].

(** One turn of the loop: the page is freed if asked, then its entry cleared. *)
Lemma wp_unmap_one do_free p pt a s fl (k : M kst unit) Q :
  pt_ok s pt fl -> 0 <= a < MAXVA -> leaf s pt a p ->
  Forall page_ok (freed do_free [p]) -> NoDup (table (mem s) pt ++ freed do_free [p] ++ fl) ->
  (forall s', pt_ok s' pt (freed do_free [p] ++ fl) -> table (mem s') pt ≡ₚ table (mem s) pt ->
     mod_only (table (mem s) pt ++ freed do_free [p]) (mem s) (mem s') ->
     (forall va, 0 <= va < VASPAN -> pte s' pt va = if va / PGSIZE =? a / PGSIZE then 0 else pte s pt va) ->
     wp k s' Q) ->
  wp (pte <- walk pt a false;;
      if pte =? 0 then panic "uvmunmap: walk" else
      e <- rd64 pte;;
      if Z.land e PTE_V =? 0 then panic "uvmunmap: not mapped" else
      if PTE_FLAGS e =? PTE_V then panic "uvmunmap: not a leaf" else
      (if do_free then kfree (PTE2PA e) else ret tt);;
      wr64 pte 0;;
      k) s Q.
Proof.
  intros Hok Ha (Hv & Hfl & <-) Hfr Hnd HQ.
  destruct (pte_valid_addr _ _ _ Hv) as [x Hx]. destruct (pte_addr_in_ram _ _ _ _ _ Hok Hx) as [Hr Hx0].
  wp_step. eapply wp_eq; [by eapply walk_lookup|]. rewrite Hx. change (default 0 (Some x)) with x.
  rewrite (proj2 (Z.eqb_neq x 0)) by done. wp_step. apply wp_rd64; [done|].
  rewrite <- (pte_some _ _ _ _ Hx). unfold pte_valid, ctrue in Hv. apply negb_true_iff in Hv. rewrite Hv.
  rewrite (proj2 (Z.eqb_neq _ PTE_V)) by done. wp_step.
  assert (Hfin : forall s1, pt_ok s1 pt (freed do_free [PTE2PA (pte s pt a)] ++ fl) ->
    table (mem s1) pt = table (mem s) pt -> mod_only (freed do_free [PTE2PA (pte s pt a)]) (mem s) (mem s1) ->
    (forall va, pte s1 pt va = pte s pt va) -> pte_addr 2 (mem s1) pt a = Some x -> wp (wr64 x 0;; k) s1 Q).
  { intros s1 Hok1 Ht Hm1 Hv1 Hx1. wp_step. apply wp_wr64; [done|].
    destruct (set_pte s1 pt a x 0 _ Hok1 Ha Hx1 ltac:(lia)) as [Hg Hv2].
    pose proof (pt_grow_inv _ _ _ _ _ _ Hok1 Hg) as Hok2.
    destruct Hg as (new & Hnew & Hp & _ & _ & Hm).
    apply app_self_nil in Hnew as ->.
    apply HQ; [done|by rewrite Hp, Ht| |].
    - eapply mod_only_comp; [exact Hm1|exact Hm|in_list|]. intros q. rewrite Hp, Ht. in_list.
    - intros va Hva. by rewrite Hv2, Hv1. }
  destruct do_free; cbn [freed] in *.
  - apply Forall_cons in Hfr as [Hfr _]. apply NoDup_app in Hnd as (_ & Hd1 & [Hd2 _]%NoDup_cons).
    eapply wp_mono; [apply (wp_kfree_table _ s pt fl); try done|].
    + intros Hin. apply (Hd1 _ Hin). by left.
    + intros [] s1 (Hok1 & Ht & Hm & Hv1 & Hx1). apply Hfin; try done. by rewrite Hx1.
  - wp_step. by apply Hfin.
Qed.

(** Unmapping a run of leaves: their entries become 0, the freed pages are on
    the free list, and the table keeps its own pages. *)
Lemma wp_uvmunmap_loop do_free ps fuel pt a s fl :
  pt_ok s pt fl -> a mod PGSIZE = 0 -> 0 <= a -> (length ps <= fuel)%nat ->
  let n := Z.of_nat (length ps) in
  a + n * PGSIZE <= MAXVA ->
  (forall i p, ps !! i = Some p -> leaf s pt (a + Z.of_nat i * PGSIZE) p) ->
  Forall page_ok (freed do_free ps) -> NoDup (table (mem s) pt ++ freed do_free ps ++ fl) ->
  wp (uvmunmap_loop fuel pt a (a + n * PGSIZE) do_free) s (fun _ s' =>
    pt_ok s' pt (reverse (freed do_free ps) ++ fl) /\ table (mem s') pt ≡ₚ table (mem s) pt /\
    mod_only (table (mem s) pt ++ freed do_free ps) (mem s) (mem s') /\
    forall va, 0 <= va < VASPAN ->
      pte s' pt va = if (a <=? va) && (va <? a + n * PGSIZE) then 0 else pte s pt va).
Proof.
  revert fuel a s fl. induction ps as [|p ps IH];
    intros fuel a s fl Hok Hal Ha Hfuel n Hend Hleaf Hfr Hnd.
  { replace (a + n * PGSIZE) with a by (unfold n; simpl; lia).
    destruct fuel; cbn [uvmunmap_loop]; rewrite Z.ltb_irrefl; wp_step;
    (split; [by destruct do_free|split; [done|split; [apply mod_only_refl|]]]); intros va Hva; zcases. }
  destruct fuel as [|fuel]; [simpl in Hfuel; lia|]. simpl in Hfuel.
  assert (Hn : n = Z.of_nat (length ps) + 1) by (unfold n; simpl; lia).
  cbn [uvmunmap_loop]. rewrite (proj2 (Z.ltb_lt _ _)) by (unfold PGSIZE; lia).
  assert (Hfc : freed do_free (p :: ps) = freed do_free [p] ++ freed do_free ps) by (by destruct do_free).
  rewrite Hfc in *. apply Forall_app in Hfr as [Hfr1 Hfr2].
  apply (wp_unmap_one do_free p pt a s fl); [done|unfold PGSIZE in *; lia| |done| |].
  { replace a with (a + Z.of_nat 0 * PGSIZE) by lia. by apply Hleaf. }
  { nodup_from Hnd. }
  intros s1 Hok1 Ht1 Hm1 Hv1.
  assert (Hal' : (a + PGSIZE) mod PGSIZE = 0) by (unfold PGSIZE in *; Z.div_mod_to_equations; lia).
  rewrite u64_small by va_lia.
  replace (a + n * PGSIZE) with (a + PGSIZE + Z.of_nat (length ps) * PGSIZE) by lia.
  eapply wp_mono; [apply (IH fuel (a + PGSIZE) s1 (freed do_free [p] ++ fl)); try done|].
  - unfold PGSIZE. lia.
  - lia.
  - lia.
  - intros i q Hi. pose proof (Hleaf (S i) q Hi) as Hl. pose proof (lookup_lt_Some _ _ _ Hi).
    replace (a + PGSIZE + Z.of_nat i * PGSIZE) with (a + Z.of_nat (S i) * PGSIZE) by lia.
    unfold leaf in *. rewrite Hv1 by va_lia.
    destruct (Z.eqb_spec ((a + Z.of_nat (S i) * PGSIZE) / PGSIZE) (a / PGSIZE)) as [E|]; [|done].
    rewrite Z.div_add in E by (unfold PGSIZE; lia). lia.
  - rewrite Ht1. revert Hnd. apply NoDup_Permutation_proper. solve_Permutation.
  - intros [] s' (Hok' & Ht' & Hm' & Hv'). split; [|split; [by rewrite Ht'|split]].
    + rewrite reverse_app, <- app_assoc. replace (reverse (freed do_free [p])) with (freed do_free [p]); [done|by destruct do_free].
    + eapply mod_only_comp; [exact Hm1|exact Hm'|in_list|]. intros q. rewrite elem_of_app, Ht1. in_list.
    + intros va Hva. rewrite Hv', Hv1 by done. unfold PGSIZE in *.
      destruct (Z.eqb_spec (va / 4096) (a / 4096)); zcases; exfalso; Z.div_mod_to_equations; lia.
Qed.
End MapProofs.
