(* ===== verification/VmUser.v ===== *)
(** * User address spaces: uvmalloc, uvmdealloc, uvmcopy, uvmfree

    A user address space is a page table whose first pages map, in order, the
    frames of the process's memory.  The theorems say what each routine does
    to the frames and, on every path, where every physical page went. *)
From S2P Require Import Prelude Riscv Mem KString Kalloc Vm VmWalk VmMap.

Notation table := (pt_pages 2).
Notation pt_ok := (pt_inv 2).

Section User.
Context {L : Layout}.
Implicit Types (s : kst) (pt va : Z) (fl frames : list Z).

(** The pages from address 0 up map [frames]; from there to the trap frame
    nothing is mapped; tables, frames and free pages are all distinct. *)
Record uspace s pt frames fl : Prop := {
  us_table : pt_ok s pt fl;
  us_frames : Forall page_ok frames;
  us_leaf : forall i p, frames !! i = Some p -> leaf s pt (Z.of_nat i * PGSIZE) p;
  us_above : forall va, Z.of_nat (length frames) * PGSIZE <= va < TRAPFRAME ->
               pte_valid (pte s pt va) = false;
  us_size : Z.of_nat (length frames) * PGSIZE <= TRAPFRAME;
  us_nodup : NoDup (table (mem s) pt ++ frames ++ fl);
}.

(** No physical page is lost or duplicated between two states of a space. *)
Definition conserves s s' pt frames frames' fl fl' : Prop :=
  table (mem s') pt ++ frames' ++ fl' ≡ₚ table (mem s) pt ++ frames ++ fl.

(** ** Frames *)

Lemma page_of v n : v / PGSIZE = n -> n * PGSIZE <= v < (n + 1) * PGSIZE.
Proof. unfold PGSIZE. intros. Z.div_mod_to_equations. lia. Qed.

Lemma page_frame_agree qs q m m' :
  mod_only qs m m' -> (forall p, p ∈ qs -> page_ok p) -> page_ok q -> q ∉ qs -> agree q (q + PGSIZE) m m'.
Proof.
  intros Hm Hqs [Hq _] Hn. eapply mod_only_agree; [done| |done|done]. intros p Hp. by destruct (Hqs p Hp).
Qed.

Lemma uspace_frame s s' pt frames fl fl' qs :
  uspace s pt frames fl -> mod_only qs (mem s) (mem s') ->
  (forall q, q ∈ qs -> page_ok q /\ q ∉ table (mem s) pt) ->
  free_list s' fl' -> NoDup (table (mem s) pt ++ frames ++ fl') ->
  uspace s' pt frames fl' /\ table (mem s') pt = table (mem s) pt /\ forall va, pte s' pt va = pte s pt va.
Proof.
  intros [(Hf & Hw & _) Hfr Hl Hab Hsz Hnd] Hm Hqs Hf' Hnd'.
  assert (Ha : forall p, p ∈ table (mem s) pt -> agree p (p + PGSIZE) (mem s) (mem s')).
  { intros p Hp. eapply page_frame_agree; [done|intros q Hq; apply (Hqs q Hq)|by eapply pt_wf_pages|]. intros Hin. by apply (Hqs p). }
  destruct (pt_frame 2 _ _ _ Ha) as (Hpg & Hw' & _).
  assert (Hv : forall va, pte s' pt va = pte s pt va) by (intros va; by apply pte_frame).
  split; [|done]. split; try done.
  - split; [done|]. split; [by apply Hw'|]. rewrite Hpg. nodup_from Hnd'.
  - unfold leaf. by setoid_rewrite Hv.
  - intros va Hva. rewrite Hv. auto.
  - by rewrite Hpg.
Qed.

Lemma pt_grow_foot s s' pt fl fl' :
  pt_grow 2 s s' pt fl fl' -> mod_only (table (mem s) pt ++ fl) (mem s) (mem s').
Proof.
  intros (new & -> & Hp & _ & _ & Hm). eapply mod_only_sub; [done|]. intros p. rewrite Hp. in_list.
Qed.

Lemma pt_grow_perm s s' pt fl fl' :
  pt_grow 2 s s' pt fl fl' -> table (mem s') pt ++ fl' ≡ₚ table (mem s) pt ++ fl.
Proof. intros (new & -> & Hp & _). rewrite Hp. solve_Permutation. Qed.

(** The table grew without changing an entry. *)
Lemma uspace_grow s s' pt frames fl fl' :
  uspace s pt frames fl -> pt_grow 2 s s' pt fl fl' ->
  (forall v, 0 <= v < VASPAN -> pte s' pt v = pte s pt v) ->
  uspace s' pt frames fl' /\ conserves s s' pt frames frames fl fl'.
Proof.
  intros [Hok Hfr Hl Hab Hsz Hnd] Hg Hv. pose proof (pt_grow_perm _ _ _ _ _ Hg) as Hp.
  assert (Hc : conserves s s' pt frames frames fl fl').
  { unfold conserves. rewrite (Permutation_app_comm frames fl'), (Permutation_app_comm frames fl), !app_assoc.
    by rewrite Hp. }
  split; [|done]. split; try done.
  - by eapply pt_grow_inv.
  - intros i p Hi. pose proof (lookup_lt_Some _ _ _ Hi). unfold leaf.
    rewrite Hv by (rewrite VASPAN_eq, TRAPFRAME_eq in *; unfold PGSIZE in *; lia). by apply Hl.
  - intros va Hva. rewrite Hv by (rewrite VASPAN_eq, TRAPFRAME_eq in *; unfold PGSIZE in *; lia). auto.
  - unfold conserves in Hc. by rewrite Hc.
Qed.

(** The table grew and maps one more page. *)
Lemma uspace_map s s' pt frames fl fl' p e :
  uspace s pt frames fl -> page_ok p -> NoDup (table (mem s) pt ++ frames ++ p :: fl) ->
  pt_grow 2 s s' pt fl fl' ->
  (Z.of_nat (length frames) + 1) * PGSIZE <= TRAPFRAME ->
  pte_valid e = true -> PTE_FLAGS e <> PTE_V -> PTE2PA e = p ->
  (forall v, 0 <= v < VASPAN ->
     pte s' pt v = if v / PGSIZE =? Z.of_nat (length frames) then e else pte s pt v) ->
  uspace s' pt (frames ++ [p]) fl' /\ conserves s s' pt frames (frames ++ [p]) (p :: fl) fl'.
Proof.
  intros [Hok Hfr Hl Hab Hsz Hnd] Hp Hndp Hg Hend He1 He2 He3 Hv. pose proof (pt_grow_perm _ _ _ _ _ Hg) as Hpm.
  assert (Hc : conserves s s' pt frames (frames ++ [p]) (p :: fl) fl').
  { unfold conserves. trans ((frames ++ [p]) ++ (table (mem s') pt ++ fl')); [solve_Permutation|].
    rewrite Hpm. solve_Permutation. }
  split; [|done]. split.
  - by eapply pt_grow_inv.
  - apply Forall_app. by split; [|constructor].
  - intros i q Hi. pose proof (lookup_lt_Some _ _ _ Hi) as Hlt. rewrite length_app in Hlt. simpl in Hlt.
    unfold leaf. rewrite Hv by (rewrite VASPAN_eq, TRAPFRAME_eq in *; unfold PGSIZE in *; lia).
    rewrite Z.div_mul by (unfold PGSIZE; lia). destruct (Z.eqb_spec (Z.of_nat i) (Z.of_nat (length frames))) as [E|E].
    + rewrite lookup_app_r in Hi by lia. replace (i - length frames)%nat with O in Hi by lia. simpl in Hi. by simplify_eq.
    + rewrite lookup_app_l in Hi by lia. by apply Hl.
  - intros va Hva. rewrite length_app in Hva. simpl in Hva.
    rewrite Hv by (rewrite VASPAN_eq, TRAPFRAME_eq in *; unfold PGSIZE in *; lia).
    destruct (Z.eqb_spec (va / PGSIZE) (Z.of_nat (length frames))).
    + unfold PGSIZE in *. Z.div_mod_to_equations. lia.
    + apply Hab. unfold PGSIZE in *. lia.
  - rewrite length_app. simpl. lia.
  - unfold conserves in Hc. by rewrite Hc.
Qed.

Lemma conserves_refl s pt frames fl : conserves s s pt frames frames fl fl.
Proof. unfold conserves. done. Qed.

Lemma conserves_trans s1 s2 s3 pt f1 f2 f3 l1 l2 l3 :
  conserves s1 s2 pt f1 f2 l1 l2 -> conserves s2 s3 pt f2 f3 l2 l3 -> conserves s1 s3 pt f1 f3 l1 l3.
Proof. unfold conserves. intros H1 H2. by rewrite H2. Qed.

Lemma conserves_cons s s' pt f f' l l' p :
  conserves s s' pt f f' l l' -> conserves s s' pt f f' (p :: l) (p :: l').
Proof.
  unfold conserves. rewrite !app_assoc, <- !Permutation_middle. intros ->. done.
Qed.

Lemma conserves_nodup s s' pt f f' l l' :
  conserves s s' pt f f' l l' -> NoDup (table (mem s) pt ++ f ++ l) -> NoDup (table (mem s') pt ++ f' ++ l').
Proof. unfold conserves. by intros ->. Qed.

(** Pages of the table and free pages are valid pages. *)
Lemma uspace_pages s pt frames fl q : uspace s pt frames fl -> q ∈ table (mem s) pt ++ fl -> page_ok q.
Proof.
  intros [([Hch _] & Hw & _) _ _ _ _ _] [Hq|Hq]%elem_of_app; [by eapply pt_wf_pages|by eapply free_chain_pages].
Qed.

(** ** Adding one page

    [uvmalloc] and [uvmcopy] add pages the same way: allocate a page, fill it,
    map it, and give it back if it cannot be mapped. *)

Lemma wp_map_page (F K : M kst Z) Q pt a p perm s frames fl :
  uspace s pt frames fl -> a = Z.of_nat (length frames) * PGSIZE -> a + PGSIZE <= TRAPFRAME ->
  0 <= perm < 2 ^ 10 -> Z.lor perm PTE_V <> PTE_V ->
  page_ok p -> NoDup (table (mem s) pt ++ frames ++ p :: fl) ->
  (forall s' fl', (length fl < 2)%nat -> uspace s' pt frames fl' -> conserves s s' pt frames frames (p :: fl) fl' ->
     mod_only (table (mem s) pt ++ p :: fl) (mem s) (mem s') ->
     (forall v, 0 <= v < VASPAN -> pte s' pt v = pte s pt v) -> wp F s' Q) ->
  (forall s' fl', (length fl <= length fl' + 2)%nat ->
     uspace s' pt (frames ++ [p]) fl' -> conserves s s' pt frames (frames ++ [p]) (p :: fl) fl' ->
     mod_only (table (mem s) pt ++ fl) (mem s) (mem s') ->
     (forall v, 0 <= v < VASPAN ->
        pte s' pt v = if v / PGSIZE =? Z.of_nat (length frames) then mk_pte p perm else pte s pt v) ->
     wp K s' Q) ->
  wp (r <- mappages pt a PGSIZE p perm;;
      if negb (r =? 0) then (kfree p;; F) else K) s Q.
Proof.
  intros Hus Ha Hend Hperm HpV Hp Hnd HF HK. pose proof (page_ok_range p Hp) as Hr.
  assert (Hal : a mod PGSIZE = 0) by (subst a; by apply Z.mod_mul).
  wp_step. eapply wp_mono; [apply (wp_mappages_page pt a p perm s fl); try done|].
  { apply Hus. }
  { unfold PGSIZE in *. lia. }
  { rewrite MAXVA_eq. rewrite TRAPFRAME_eq in *. unfold PGSIZE in *. lia. }
  { apply (us_above _ _ _ _ Hus). unfold PGSIZE in *. lia. }
  intros r s1 (fl1 & Hg & Hcase). pose proof (pt_grow_foot _ _ _ _ _ Hg) as Hm.
  destruct Hcase as [(-> & Hlen & Hv)|(-> & -> & Hlen & Hv)]; cbn [negb Z.eqb].
  - subst a. setoid_rewrite Z.div_mul in Hv; [|done].
    destruct (uspace_map s s1 pt frames fl fl1 p (mk_pte p perm) Hus Hp) as [Hus1 Hc1]; try done.
    { lia. }
    { apply mk_pte_valid; [lia|done]. }
    { rewrite mk_pte_flags; [done|lia|done]. }
    { apply mk_pte_pa; [lia|apply Hp|done]. }
    by apply (HK s1 fl1).
  - destruct (uspace_grow s s1 pt frames fl [] Hus Hg Hv) as [Hus1 Hc1].
    assert (Hnd1 : NoDup (table (mem s1) pt ++ frames ++ [p])).
    { eapply conserves_nodup; [by apply conserves_cons|done]. }
    wp_step. eapply wp_mono; [apply (wp_kfree p s1 []); [apply Hus1|done|set_solver]|].
    intros [] s2 [Hf2 Hm2].
    destruct (uspace_frame s1 s2 pt frames [] [p] [p] Hus1 Hm2) as (Hus2 & Ht2 & Hv2); [|done|done|].
    { intros q ->%list_elem_of_singleton. split; [done|]. apply NoDup_app in Hnd1. set_solver. }
    apply (HF s2 [p]); [done|done| | |].
    + apply (conserves_trans s s1 s2 _ _ frames _ _ [p]); [by apply conserves_cons|].
      unfold conserves. by rewrite Ht2.
    + eapply mod_only_comp; [exact Hm|exact Hm2|in_list|in_list].
    + intros v Hvr. by rewrite Hv2, Hv.
Qed.

Lemma wp_add_page (init : Z -> M kst unit) (c : Z -> Z) (F K : M kst Z) Q pt a perm s frames fl :
  uspace s pt frames fl -> a = Z.of_nat (length frames) * PGSIZE -> a + PGSIZE <= TRAPFRAME ->
  0 <= perm < 2 ^ 10 -> Z.lor perm PTE_V <> PTE_V ->
  (forall p s1, p ∈ fl -> page_ok p -> mod_only [p] (mem s) (mem s1) ->
     wp (init p) s1 (fun _ s2 => freelist s2 = freelist s1 /\ mod_only [p] (mem s1) (mem s2) /\
       forall o, 0 <= o < PGSIZE -> ld8 (mem s2) (p + o) = c o)) ->
  (forall s' fl', (length fl < 3)%nat -> uspace s' pt frames fl' -> conserves s s' pt frames frames fl fl' ->
     mod_only (table (mem s) pt ++ fl) (mem s) (mem s') ->
     (forall v, 0 <= v < VASPAN -> pte s' pt v = pte s pt v) -> wp F s' Q) ->
  (forall p s' fl', p ∈ fl -> (length fl <= length fl' + 3)%nat -> uspace s' pt (frames ++ [p]) fl' ->
     conserves s s' pt frames (frames ++ [p]) fl fl' ->
     mod_only (table (mem s) pt ++ fl) (mem s) (mem s') ->
     (forall v, 0 <= v < VASPAN ->
        pte s' pt v = if v / PGSIZE =? Z.of_nat (length frames) then mk_pte p perm else pte s pt v) ->
     (forall o, 0 <= o < PGSIZE -> ld8 (mem s') (p + o) = c o) -> wp K s' Q) ->
  wp (page <- kalloc;;
      if page =? 0 then F else
      init page;;
      r <- mappages pt a PGSIZE page perm;;
      if negb (r =? 0) then (kfree page;; F) else K) s Q.
Proof.
  intros Hus Ha Hend Hperm HpV Hinit HF HK. pose proof (us_nodup _ _ _ _ Hus) as Hnd.
  wp_step. eapply wp_mono; [apply wp_kalloc, Hus|].
  intros p s1 [(-> & -> & ->)|(fl1 & -> & Hp & Hf1 & Hnf & Hm1)].
  { rewrite Z.eqb_refl. apply (HF s []); [simpl; lia|done|apply conserves_refl|apply mod_only_refl|done]. }
  pose proof (page_ok_range p Hp) as Hr. rewrite (proj2 (Z.eqb_neq p 0)) by lia. wp_step.
  eapply wp_mono; [apply Hinit; [by left|done|done]|]. intros [] s2 (Hfl2 & Hm2 & Hc).
  assert (Hpt : p ∉ table (mem s) pt).
  { intros Hin. apply NoDup_app in Hnd as (_ & Hd & _). apply (Hd p Hin). in_list. }
  assert (Hnd1 : NoDup (table (mem s) pt ++ frames ++ fl1)) by nodup_from Hnd.
  pose proof (mod_only_trans _ _ _ _ Hm1 Hm2) as Hm12.
  destruct (uspace_frame s s2 pt frames (p :: fl1) fl1 [p] Hus Hm12) as (Hus2 & Ht2 & Hv2); [| |done|].
  { intros q ->%list_elem_of_singleton. done. }
  { eapply (free_list_frame [p] s1); [done|done|done|]. intros q ->%list_elem_of_singleton.
    split; [apply Hp|done]. }
  apply (wp_map_page F K Q pt a p perm s2 frames fl1); try done.
  - by rewrite Ht2.
  - intros s3 fl3 Hlen Hus3 Hc3 Hm3 Hv3. rewrite Ht2 in Hm3. apply (HF s3 fl3); [simpl; lia|done| | |].
    + unfold conserves in *. by rewrite Hc3, Ht2.
    + eapply mod_only_comp; [exact Hm12|exact Hm3|in_list|in_list].
    + intros v Hvr. by rewrite Hv3, Hv2.
  - intros s3 fl3 Hlen Hus3 Hc3 Hm3 Hv3. apply (HK p s3 fl3); [by left|simpl; lia|done| | | |].
    + unfold conserves in *. by rewrite Hc3, Ht2.
    + eapply mod_only_comp; [exact Hm12|exact Hm3|in_list|]. rewrite Ht2. in_list.
    + intros v Hvr. by rewrite Hv3, Hv2.
    + intros o Ho. rewrite <- Hc by done. symmetry.
      eapply (page_frame_agree _ p); [exact Hm3|intros q; by apply (uspace_pages s2 pt frames)|done| |lia].
      rewrite Ht2, elem_of_app. tauto.
Qed.

(** ** Removing pages *)

(** Unmapping the frames from the [n]-th up, freeing them. *)
Lemma wp_drop_frames n pt s frames fl :
  uspace s pt frames fl -> (n <= length frames)%nat ->
  wp (uvmunmap pt (Z.of_nat n * PGSIZE) (Z.of_nat (length frames - n)) true) s (fun _ s' =>
    let fl' := reverse (drop n frames) ++ fl in
    uspace s' pt (take n frames) fl' /\ conserves s s' pt frames (take n frames) fl fl' /\
    table (mem s') pt ≡ₚ table (mem s) pt /\
    mod_only (table (mem s) pt ++ drop n frames) (mem s) (mem s') /\
    forall v, 0 <= v < VASPAN ->
      pte s' pt v = if (Z.of_nat n * PGSIZE <=? v) && (v <? Z.of_nat (length frames) * PGSIZE) then 0 else pte s pt v).
Proof.
  intros [Hok Hfr Hl Hab Hsz Hnd] Hn. rewrite TRAPFRAME_eq in *. unfold uvmunmap. rewrite Z.mod_mul by done. cbn [negb Z.eqb].
  rewrite Nat2Z.id. rewrite u64_small by (unfold PGSIZE in *; lia).
  replace (length frames - n)%nat with (length (drop n frames)) by apply length_drop.
  assert (Hend : Z.of_nat n * PGSIZE + Z.of_nat (length (drop n frames)) * PGSIZE = Z.of_nat (length frames) * PGSIZE)
    by (rewrite length_drop; unfold PGSIZE; lia).
  rewrite <- (take_drop n frames) in Hfr, Hnd. apply Forall_app in Hfr as [Hfr1 Hfr2].
  eapply wp_mono; [apply (wp_uvmunmap_loop true (drop n frames) _ pt _ s fl); try done|].
  - by apply Z.mod_mul.
  - unfold PGSIZE. lia.
  - rewrite Hend, MAXVA_eq. lia.
  - intros i p Hi. rewrite lookup_drop in Hi. apply Hl in Hi.
    by replace (Z.of_nat n * PGSIZE + Z.of_nat i * PGSIZE) with (Z.of_nat (n + i) * PGSIZE) by lia.
  - cbn [freed]. nodup_from Hnd.
  - rewrite Hend. cbn [freed]. intros [] s' (Hok' & Ht' & Hm' & Hv').
    assert (Hc : conserves s s' pt frames (take n frames) fl (reverse (drop n frames) ++ fl)).
    { unfold conserves. rewrite Ht', reverse_Permutation. rewrite <- (take_drop n frames) at 3. solve_Permutation. }
    split; [|split; [done|split; [done|split; [done|done]]]].
    split; [done|done| | | |by eapply conserves_nodup; [done|rewrite <- (take_drop n frames)]].
    + intros i p Hi. apply lookup_take_Some in Hi as [Hi Hlt]. unfold leaf.
      rewrite Hv' by (rewrite VASPAN_eq; unfold PGSIZE in *; lia). 
      rewrite (proj2 (Z.leb_gt _ _)) by (unfold PGSIZE; lia). by apply Hl.
    + rewrite length_take_le by done. intros v Hv. rewrite TRAPFRAME_eq in *.
      rewrite Hv' by (rewrite VASPAN_eq; unfold PGSIZE in *; lia).
      destruct (_ && _) eqn:E; [done|]. apply Hab. apply andb_false_iff in E as [E|E]; bool_prop; lia.
    + rewrite length_take_le by done. rewrite TRAPFRAME_eq. unfold PGSIZE in *. lia.
Qed.

(** The number of pages of a process of [sz] bytes. *)
Definition npages (sz : Z) : nat := Z.to_nat (PGROUNDUP sz / PGSIZE).

Lemma npages_spec sz : 0 <= sz <= TRAPFRAME ->
  PGROUNDUP sz = Z.of_nat (npages sz) * PGSIZE /\ sz <= Z.of_nat (npages sz) * PGSIZE < sz + PGSIZE /\
  Z.of_nat (npages sz) * PGSIZE <= TRAPFRAME.
Proof.
  rewrite TRAPFRAME_eq. intros H. destruct (PGROUNDUP_bounds sz) as [H1 H2]; [lia|unfold PGSIZE; lia|].
  unfold npages. unfold PGSIZE in *. Z.div_mod_to_equations. lia.
Qed.

Lemma npages_mono sz sz' : 0 <= sz <= sz' -> sz' <= TRAPFRAME -> (npages sz <= npages sz')%nat.
Proof.
  intros H1 H2. destruct (npages_spec sz) as (_ & ? & _); [lia|]. destruct (npages_spec sz') as (_ & ? & _); [lia|].
  unfold PGSIZE in *. lia.
Qed.

Lemma npages_mul n : Z.of_nat n * PGSIZE <= TRAPFRAME -> npages (Z.of_nat n * PGSIZE) = n.
Proof.
  intros H. destruct (npages_spec (Z.of_nat n * PGSIZE)) as (_ & ? & _); [unfold PGSIZE in *; lia|].
  unfold PGSIZE in *. lia.
Qed.

Lemma wp_uvmdealloc pt oldsz newsz s frames fl :
  uspace s pt frames fl -> length frames = npages oldsz -> 0 <= newsz <= oldsz -> oldsz <= TRAPFRAME ->
  let n := npages newsz in
  wp (uvmdealloc pt oldsz newsz) s (fun r s' => r = newsz /\
    let fl' := reverse (drop n frames) ++ fl in
    uspace s' pt (take n frames) fl' /\ conserves s s' pt frames (take n frames) fl fl' /\
    mod_only (table (mem s) pt ++ drop n frames) (mem s) (mem s') /\
    forall v, 0 <= v < Z.of_nat n * PGSIZE \/ TRAPFRAME <= v < VASPAN -> pte s' pt v = pte s pt v).
Proof.
  intros Hus Hlen Hsz Hold n. destruct (npages_spec newsz) as (Hn1 & Hn2 & Hn3); [lia|].
  destruct (npages_spec oldsz) as (Ho1 & Ho2 & Ho3); [lia|]. fold n in Hn1, Hn2, Hn3.
  pose proof (npages_mono newsz oldsz Hsz Hold) as Hmono. fold n in Hmono. rewrite <- Hlen in *.
  assert (Hsame : n = length frames -> let fl' := reverse (drop n frames) ++ fl in
    uspace s pt (take n frames) fl' /\ conserves s s pt frames (take n frames) fl fl' /\
    mod_only (table (mem s) pt ++ drop n frames) (mem s) (mem s) /\
    forall v, 0 <= v < Z.of_nat n * PGSIZE \/ TRAPFRAME <= v < VASPAN -> pte s pt v = pte s pt v).
  { intros ->. rewrite drop_ge, firstn_all by done.
    split; [done|]. split; [apply conserves_refl|]. split; [apply mod_only_refl|done]. }
  unfold uvmdealloc. rewrite Z.geb_leb. destruct (Z.leb_spec oldsz newsz) as [Hle|Hlt].
  { wp_step. split; [lia|]. apply Hsame. unfold n. by replace newsz with oldsz by lia. }
  wp_step. rewrite Hn1, Ho1. destruct (Z.ltb_spec (Z.of_nat n * PGSIZE) (Z.of_nat (length frames) * PGSIZE)) as [Hpg|Hpg].
  - replace ((Z.of_nat (length frames) * PGSIZE - Z.of_nat n * PGSIZE) / PGSIZE) with (Z.of_nat (length frames - n)).
    2:{ rewrite <- Z.mul_sub_distr_r, Z.div_mul by done. lia. }
    rewrite TRAPFRAME_eq in *. rewrite s32_small, u64_small by (unfold PGSIZE in *; lia).
    eapply wp_mono; [by apply wp_drop_frames|]. intros [] s' (Hus' & Hc' & Ht' & Hm' & Hv'). wp_step.
    do 3 (split; [done|]). split; [done|]. intros v Hv. rewrite Hv' by va_lia. destruct (_ && _) eqn:E; [|done]. bool_prop. va_lia.
  - wp_step. wp_step. split; [done|]. apply Hsame. unfold PGSIZE in *. lia.
Qed.

(** ** uvmalloc *)

(** The pages a space gained, with its tables and the free list, were in its
    tables or free before. *)
Lemma conserves_in s s' pt frames new fl fl' :
  conserves s s' pt frames (frames ++ new) fl fl' ->
  forall q, q ∈ table (mem s') pt ++ new ++ fl' <-> q ∈ table (mem s) pt ++ fl.
Proof.
  unfold conserves. intros Hc q.
  cut (table (mem s') pt ++ new ++ fl' ≡ₚ table (mem s) pt ++ fl); [by intros ->|].
  apply (Permutation_app_inv_l frames). etrans; [|etrans; [exact Hc|]]; solve_Permutation.
Qed.

(** Changing tables and free pages leaves the bytes of the frames alone. *)
Lemma uspace_foot_frame s s' pt frames fl p o :
  uspace s pt frames fl -> mod_only (table (mem s) pt ++ fl) (mem s) (mem s') -> p ∈ frames ->
  0 <= o < PGSIZE -> ld8 (mem s) (p + o) = ld8 (mem s') (p + o).
Proof.
  intros Hus Hm Hp Ho.
  eapply (page_frame_agree _ p); [exact Hm|intros q; by apply (uspace_pages s pt frames)| | |lia].
  - eapply Forall_forall; [apply (us_frames _ _ _ _ Hus)|done].
  - pose proof (us_nodup _ _ _ _ Hus) as Hnd. intros Hin.
    assert (Hnd' : NoDup (frames ++ (table (mem s) pt ++ fl))) by nodup_from Hnd.
    apply NoDup_app in Hnd' as (_ & Hd & _). by apply (Hd p).
Qed.

(** What a successful growth by the pages [new] gives.  [c n] are the contents
    and [perm n] the permissions of the [n]-th page of the space. *)
Record grown s s' pt frames new fl fl' (c : nat -> Z -> Z) (perm : nat -> Z) : Prop := {
  gr_space : uspace s' pt (frames ++ new) fl';
  gr_conserves : conserves s s' pt frames (frames ++ new) fl fl';
  gr_new : forall i p, new !! i = Some p ->
             let n := (length frames + i)%nat in
             pte s' pt (Z.of_nat n * PGSIZE) = mk_pte p (perm n) /\
             forall o, 0 <= o < PGSIZE -> ld8 (mem s') (p + o) = c n o;
  gr_old : forall v, 0 <= v < Z.of_nat (length frames) * PGSIZE \/ TRAPFRAME <= v < VASPAN ->
             pte s' pt v = pte s pt v;
  gr_foot : mod_only (table (mem s) pt ++ fl) (mem s) (mem s');
}.

Lemma grown_nil s pt frames fl c perm : uspace s pt frames fl -> grown s s pt frames [] fl fl c perm.
Proof.
  intros Hus. split; rewrite ?app_nil_r; [done|apply conserves_refl|done|done|apply mod_only_refl].
Qed.

Lemma grown_cons s s1 s2 pt frames p new fl fl1 fl2 c perm :
  uspace s1 pt (frames ++ [p]) fl1 ->
  conserves s s1 pt frames (frames ++ [p]) fl fl1 ->
  mod_only (table (mem s) pt ++ fl) (mem s) (mem s1) ->
  (forall v, 0 <= v < VASPAN ->
     pte s1 pt v = if v / PGSIZE =? Z.of_nat (length frames) then mk_pte p (perm (length frames)) else pte s pt v) ->
  (forall o, 0 <= o < PGSIZE -> ld8 (mem s1) (p + o) = c (length frames) o) ->
  grown s1 s2 pt (frames ++ [p]) new fl1 fl2 c perm ->
  grown s s2 pt frames (p :: new) fl fl2 c perm.
Proof.
  intros Hus1 Hc1 Hm1 Hv1 Hz1 [Hus2 Hc2 Hn2 Ho2 Hm2].
  assert (Hcons : (frames ++ [p]) ++ new = frames ++ p :: new) by (by rewrite <- app_assoc).
  rewrite Hcons in *. pose proof (us_size _ _ _ _ Hus1) as Hsz. rewrite length_app in Hsz, Ho2. cbn [length] in Hsz, Ho2.
  split.
  - done.
  - by eapply conserves_trans.
  - intros [|i] q Hq n.
    + unfold n. rewrite Nat.add_0_r. simpl in Hq. simplify_eq.
      split; [rewrite Ho2, Hv1, Z.div_mul, Z.eqb_refl by (done || va_lia); done|].
      intros o Ho. rewrite <- (Hz1 o Ho). symmetry. by apply (uspace_foot_frame s1 s2 pt (frames ++ [q]) fl1); [| |in_list|].
    + replace n with (length (frames ++ [p]) + i)%nat by (unfold n; rewrite length_app; simpl; lia).
      by apply Hn2.
  - intros v Hv. rewrite Ho2, Hv1 by va_lia.
    destruct (Z.eqb_spec (v / PGSIZE) (Z.of_nat (length frames))) as [Heq|]; [|done].
    apply page_of in Heq. va_lia.
  - eapply mod_only_comp; [exact Hm1|exact Hm2|done|].
    intros q Hq. apply (conserves_in _ _ _ _ _ _ _ Hc1). in_list.
Qed.

(** What a failed growth leaves: the frames [f0] it started with; the pages
    [added] in the meantime are free again. *)
Record rolled_back s s' pt f0 added fl fl' : Prop := {
  rb_space : uspace s' pt f0 fl';
  rb_conserves : conserves s s' pt (f0 ++ added) f0 fl fl';
  rb_old : forall v, 0 <= v < Z.of_nat (length f0) * PGSIZE \/ TRAPFRAME <= v < VASPAN ->
             pte s' pt v = pte s pt v;
  rb_foot : mod_only (table (mem s) pt ++ added ++ fl) (mem s) (mem s');
}.

(** The failure path: [uvmdealloc] back to [f0] after a step that changed
    nothing but tables. *)
Lemma wp_roll_back s s1 pt f0 added fl fl1 :
  conserves s s1 pt (f0 ++ added) (f0 ++ added) fl fl1 ->
  mod_only (table (mem s) pt ++ fl) (mem s) (mem s1) ->
  (forall v, 0 <= v < VASPAN -> pte s1 pt v = pte s pt v) ->
  uspace s1 pt (f0 ++ added) fl1 ->
  wp (_ <- uvmdealloc pt (Z.of_nat (length (f0 ++ added)) * PGSIZE) (Z.of_nat (length f0) * PGSIZE);; ret 0) s1
     (fun r s' => r = 0 /\ exists fl', rolled_back s s' pt f0 added fl fl').
Proof.
  intros Hc Hm Hv Hus. pose proof (us_size _ _ _ _ Hus) as Hsz.
  assert (Hf0 : Z.of_nat (length f0) * PGSIZE <= Z.of_nat (length (f0 ++ added)) * PGSIZE)
    by (rewrite length_app; va_lia).
  wp_step. eapply wp_mono; [apply (wp_uvmdealloc _ _ _ s1 (f0 ++ added) fl1); try done|].
  - by rewrite npages_mul.
  - va_lia.
  - rewrite npages_mul by lia. rewrite take_app_length, drop_app_length.
    intros r s' (-> & Hus' & Hc' & Hm' & Hv'). wp_step. split; [done|]. eexists. split; [exact Hus'| | |].
    + by eapply conserves_trans.
    + intros v Hvr. rewrite Hv', Hv by va_lia. done.
    + eapply mod_only_comp; [exact Hm|exact Hm'|in_list|].
      rewrite <- (app_nil_r (f0 ++ added)) in Hc at 2.
      intros q. rewrite elem_of_app. intros [Hq|Hq]; [|in_list].
      assert (q ∈ table (mem s) pt ++ fl) by (apply (conserves_in _ _ _ _ _ _ _ Hc); in_list). in_list.
Qed.

Lemma uvmalloc_perm_ok xperm :
  0 <= xperm < 2 ^ 10 -> let perm := Z.lor (Z.lor PTE_R PTE_U) xperm in
  0 <= perm < 2 ^ 10 /\ Z.lor perm PTE_V <> PTE_V.
Proof.
  intros Hx perm. assert (0 <= perm) by (apply Z.lor_nonneg; split; [done|lia]). split.
  - split; [done|]. apply bits_bound; [done|lia|]. intros i Hi. unfold perm.
    rewrite Z.lor_spec, !(testbit_high _ 10); done || lia.
  - intros H0. apply (f_equal (fun z => Z.testbit z 1)) in H0. unfold perm in H0.
    by rewrite !Z.lor_spec in H0.
Qed.

Lemma wp_uvmalloc_loop fuel pt newsz xperm f0 added s fl :
  let frames := f0 ++ added in let perm := Z.lor (Z.lor PTE_R PTE_U) xperm in
  uspace s pt frames fl -> newsz <= TRAPFRAME -> 0 <= xperm < 2 ^ 10 -> 0 <= newsz ->
  (length frames <= npages newsz)%nat -> (npages newsz <= length frames + fuel)%nat ->
  wp (uvmalloc_loop fuel pt (Z.of_nat (length frames) * PGSIZE) (Z.of_nat (length f0) * PGSIZE) newsz xperm) s
     (fun r s' => (r = newsz /\ exists new fl', length (frames ++ new) = npages newsz /\
                     grown s s' pt frames new fl fl' (fun _ _ => 0) (fun _ => perm)) \/
                  (r = 0 /\ (length fl < 3 * (npages newsz - length frames))%nat /\
                   exists fl', rolled_back s s' pt f0 added fl fl')).
Proof.
  intros frames perm. revert added frames s fl.
  induction fuel as [|fuel IH]; intros added frames s fl Hus Hnew Hx Hnn Hle Hfuel; cbn [uvmalloc_loop];
    destruct (npages_spec newsz) as (_ & Hnp & _); try lia.
  { rewrite (proj2 (Z.ltb_ge _ _)) by va_lia. wp_step. left. split; [done|]. exists [], fl.
    rewrite app_nil_r. split; [lia|]. by apply grown_nil. }
  destruct (Z.ltb_spec (Z.of_nat (length frames) * PGSIZE) newsz) as [Hlt|Hge].
  2:{ wp_step. left. split; [done|]. exists [], fl. rewrite app_nil_r. split; [va_lia|]. by apply grown_nil. }
  destruct (uvmalloc_perm_ok xperm Hx) as [Hp1 Hp2]. fold perm in Hp1, Hp2.
  apply (wp_add_page (fun p => kmemset p 0 PGSIZE) (fun _ => 0) _ _ _ pt _ perm s frames fl); try done.
  - destruct (npages_spec newsz) as (_ & _ & ?); [lia|]. va_lia.
  - intros p s1 _ Hp _. apply wp_kmemset; [by apply (page_ok_in_ram p)|]. split; [done|].
    split; [apply memset_mod_only|]. intros o Ho. apply memset_in. lia.
  - intros s' fl' Hlen Hus' Hc' Hm' Hv'. eapply wp_mono; [by apply (wp_roll_back s s' pt f0 added fl fl')|].
    intros r s2 [-> H]. right. split; [done|]. split; [va_lia|done].
  - intros p s1 fl1 Hpf Hlen Hus1 Hc1 Hm1 Hv1 Hz1. rewrite u64_small by va_lia.
    replace (Z.of_nat (length frames) * PGSIZE + PGSIZE) with (Z.of_nat (length (f0 ++ added ++ [p])) * PGSIZE)
      by (unfold frames; rewrite !length_app; simpl; lia).
    assert (Happ : f0 ++ added ++ [p] = frames ++ [p]) by (unfold frames; by rewrite app_assoc).
    eapply wp_mono; [apply (IH (added ++ [p]) s1 fl1); rewrite ?Happ, ?length_app; simpl; try done; va_lia|].
    rewrite Happ. intros r s2 [(-> & new & fl2 & Hnl & Hgr)|(-> & Hfew & fl2 & [Hrs Hrc Hro Hrf])].
    + left. split; [done|]. exists (p :: new), fl2. split; [rewrite <- Hnl, <- app_assoc; done|].
      by eapply (grown_cons s s1).
    + right. split; [done|]. rewrite length_app in Hfew. simpl in Hfew. split; [lia|].
      exists fl2. rewrite Happ in Hrc.
      assert (Hflen : (length f0 <= length frames)%nat) by (unfold frames; rewrite length_app; lia).
      split; [done|by eapply conserves_trans| |].
      * intros v Hv. rewrite Hro, Hv1 by va_lia.
        destruct (Z.eqb_spec (v / PGSIZE) (Z.of_nat (length frames))) as [Heq|]; [|done].
        apply page_of in Heq. pose proof (us_size _ _ _ _ Hus1) as Hs1. rewrite length_app in Hs1. simpl in Hs1. va_lia.
      * eapply mod_only_comp; [exact Hm1|exact Hrf|in_list|].
        intros q Hq. destruct (decide (q ∈ added)); [in_list|].
        assert (q ∈ table (mem s) pt ++ fl) by (apply (conserves_in _ _ _ _ _ _ _ Hc1); in_list). in_list.
Qed.

Lemma wp_uvmalloc pt oldsz newsz xperm s frames fl :
  uspace s pt frames fl -> length frames = npages oldsz ->
  0 <= oldsz <= newsz -> newsz <= TRAPFRAME -> 0 <= xperm < 2 ^ 10 ->
  let perm := Z.lor (Z.lor PTE_R PTE_U) xperm in
  wp (uvmalloc pt oldsz newsz xperm) s
     (fun r s' => (r = newsz /\ exists new fl', length (frames ++ new) = npages newsz /\
                     grown s s' pt frames new fl fl' (fun _ _ => 0) (fun _ => perm)) \/
                  (r = 0 /\ (length fl < 3 * (npages newsz - npages oldsz))%nat /\
                   exists fl', rolled_back s s' pt frames [] fl fl')).
Proof.
  intros Hus Hlen Hsz Hnew Hx perm. destruct (npages_spec oldsz) as (Ho1 & Ho2 & _); [lia|].
  destruct (npages_spec newsz) as (Hn1 & Hn2 & _); [lia|]. pose proof (npages_mono oldsz newsz Hsz Hnew) as Hmono.
  unfold uvmalloc. rewrite (proj2 (Z.ltb_ge _ _)) by lia. rewrite Ho1, <- Hlen.
  rewrite <- (app_nil_r frames) in Hus.
  pose proof (wp_uvmalloc_loop (Z.to_nat ((newsz - Z.of_nat (length frames) * PGSIZE + PGSIZE - 1) / PGSIZE))
    pt newsz xperm frames [] s fl Hus) as Hloop. rewrite app_nil_r in Hloop.
  apply Hloop; try done; [lia|lia|]. rewrite <- Hlen in Ho2. rewrite TRAPFRAME_eq in *. unfold PGSIZE in *.
  Z.div_mod_to_equations. lia.
Qed.

(** ** uvmcopy *)

(** Two address spaces that share nothing. *)
Definition two_spaces s old fo new fn fl : Prop :=
  uspace s old fo fl /\ uspace s new fn fl /\
  NoDup (table (mem s) old ++ fo ++ table (mem s) new ++ fn ++ fl).

Lemma two_spaces_step s s' old fo new fn fn' fl fl' :
  two_spaces s old fo new fn fl -> uspace s' new fn' fl' ->
  conserves s s' new fn fn' fl fl' -> mod_only (table (mem s) new ++ fn ++ fl) (mem s) (mem s') ->
  two_spaces s' old fo new fn' fl' /\ (forall va, pte s' old va = pte s old va) /\
  forall p o, p ∈ fo -> 0 <= o < PGSIZE -> ld8 (mem s') (p + o) = ld8 (mem s) (p + o).
Proof.
  intros (Ho & Hn & Hnd) Hn' Hc Hm. unfold conserves in Hc.
  assert (Hok : forall q, q ∈ table (mem s) new ++ fn ++ fl -> page_ok q).
  { intros q Hq. destruct (decide (q ∈ fn)) as [Hin|].
    - eapply Forall_forall; [apply (us_frames _ _ _ _ Hn)|done].
    - apply (uspace_pages _ _ _ _ _ Hn). in_list. }
  assert (Hdis : forall q, q ∈ table (mem s) new ++ fn ++ fl -> q ∉ table (mem s) old ++ fo).
  { rewrite app_assoc in Hnd. apply NoDup_app in Hnd as (_ & Hd & _). intros q Hq Hq'. by apply (Hd q). }
  assert (Hnd' : NoDup (table (mem s) old ++ fo ++ table (mem s') new ++ fn' ++ fl')) by (by rewrite Hc).
  destruct (uspace_frame s s' old fo fl fl' _ Ho Hm) as (Ho' & Ht & Hv).
  - intros q Hq. split; [by apply Hok|]. intros Hin. apply (Hdis q Hq). in_list.
  - apply Hn'.
  - nodup_from Hnd'.
  - split; [split; [done|split; [done|by rewrite Ht]]|]. split; [done|].
    intros p o Hp Hoff. symmetry. eapply (page_frame_agree _ p); [exact Hm|done| | |lia].
    + eapply Forall_forall; [apply (us_frames _ _ _ _ Ho)|done].
    + intros Hin. apply (Hdis p Hin). in_list.
Qed.

(** The failure path of [uvmcopy]. *)
Lemma wp_uncopy s s1 pt frames fl fl1 :
  conserves s s1 pt frames frames fl fl1 ->
  mod_only (table (mem s) pt ++ fl) (mem s) (mem s1) ->
  (forall v, 0 <= v < VASPAN -> pte s1 pt v = pte s pt v) ->
  uspace s1 pt frames fl1 ->
  wp (uvmunmap pt 0 (Z.of_nat (length frames) * PGSIZE / PGSIZE) true;; ret (-1)) s1
     (fun r s' => r = -1 /\ exists fl', rolled_back s s' pt [] frames fl fl').
Proof.
  intros Hc Hm Hv Hus. rewrite Z.div_mul by done. wp_step. pose proof (us_size _ _ _ _ Hus) as Hsz.
  pose proof (wp_drop_frames 0 pt s1 frames fl1 Hus) as Hd. rewrite Nat.sub_0_r in Hd.
  eapply wp_mono; [apply Hd; lia|]. rewrite drop_0. change (take 0 frames) with (@nil Z).
  intros [] s' (Hus' & Hc' & Ht' & Hm' & Hv'). wp_step. split; [done|].
  exists (reverse frames ++ fl1). split; [done|by eapply conserves_trans| |].
  { simpl. intros v Hvr. rewrite Hv', Hv by va_lia. destruct (_ && _) eqn:E; [|done]. bool_prop. va_lia. }
  eapply mod_only_comp; [exact Hm|exact Hm'|in_list|].
  rewrite <- (app_nil_r frames) in Hc at 2.
  intros q. rewrite elem_of_app. intros [Hq|Hq]; [|in_list].
  assert (q ∈ table (mem s) pt ++ fl) by (apply (conserves_in _ _ _ _ _ _ _ Hc); in_list). in_list.
Qed.

Lemma leaf_flags s pt va p :
  leaf s pt va p -> let f := PTE_FLAGS (pte s pt va) in 0 <= f < 2 ^ 10 /\ Z.lor f PTE_V <> PTE_V.
Proof.
  intros (Hv & Hf & _) f. assert (0 <= f < 2 ^ 10).
  { unfold f, PTE_FLAGS. change 0x3FF with (Z.ones 10). rewrite Z.land_ones by lia. apply Z.mod_pos_bound. lia. }
  split; [done|]. replace (Z.lor f PTE_V) with f; [done|].
  unfold pte_valid in Hv. rewrite land_flag_PTE_FLAGS in Hv by done. fold f in Hv. apply ctrue_true in Hv.
  apply Z.bits_inj'. intros i Hi. rewrite Z.lor_spec. destruct (Z.eq_dec i 0) as [->|Hne].
  - destruct (Z.testbit f 0) eqn:E; [done|]. exfalso. apply Hv. apply Z.bits_inj'. intros j Hj.
    rewrite Z.land_spec, Z.testbit_0_l. destruct (Z.eq_dec j 0) as [->|]; [by rewrite E|].
    rewrite (testbit_high PTE_V 1 j) by (done || lia). apply andb_false_r.
  - rewrite (testbit_high PTE_V 1 i) by (done || lia). by rewrite orb_false_r.
Qed.

(** Copying a frame into a fresh page. *)
Lemma wp_copy_frame p q s s1 (c : Z -> Z) :
  page_ok p -> page_ok q -> p <> q -> mod_only [p] (mem s) (mem s1) ->
  (forall o, 0 <= o < PGSIZE -> ld8 (mem s) (q + o) = c o) ->
  wp (kmemmove p q PGSIZE) s1 (fun _ s2 => freelist s2 = freelist s1 /\ mod_only [p] (mem s1) (mem s2) /\
    forall o, 0 <= o < PGSIZE -> ld8 (mem s2) (p + o) = c o).
Proof.
  intros Hp Hq Hne Hm Hc. unfold wp, kmemmove.
  rewrite (page_ok_in_ram p p PGSIZE), (page_ok_in_ram q q PGSIZE) by (done || lia). cbn [andb mem freelist].
  split; [done|]. split.
  - intros x Hx. specialize (Hx p ltac:(by left)). rewrite memmove_at by (unfold PGSIZE; lia). zcases.
  - intros o Ho. rewrite memmove_at by (unfold PGSIZE; lia). zcases.
    replace (q + (p + o - p)) with (q + o) by lia. rewrite <- Hc by done. symmetry.
    eapply (page_frame_agree [p] q); [done|by intros ? ->%list_elem_of_singleton|done| |lia].
    rewrite list_elem_of_singleton. congruence.
Qed.

Section Copy.
Context (old new sz : Z) (fo : list Z) (c : nat -> Z -> Z) (perm : nat -> Z).

(** The parent's pages hold [c] with permissions [perm]. *)
Definition parent s : Prop :=
  forall n p, fo !! n = Some p ->
    perm n = PTE_FLAGS (pte s old (Z.of_nat n * PGSIZE)) /\
    forall o, 0 <= o < PGSIZE -> ld8 (mem s) (p + o) = c n o.

Lemma wp_uvmcopy_loop fuel s fn fl :
  two_spaces s old fo new fn fl -> parent s -> 0 <= sz <= TRAPFRAME -> (npages sz <= length fo)%nat ->
  (length fn <= npages sz)%nat -> (npages sz <= length fn + fuel)%nat ->
  wp (uvmcopy_loop fuel old new (Z.of_nat (length fn) * PGSIZE) sz) s
     (fun r s' => (r = 0 /\ exists add fl', length (fn ++ add) = npages sz /\
                     grown s s' new fn add fl fl' c perm) \/
                  (r = -1 /\ (length fl < 3 * (npages sz - length fn))%nat /\
                   exists fl', rolled_back s s' new [] fn fl fl')).
Proof.
  revert s fn fl. induction fuel as [|fuel IH]; intros s fn fl H2 Hpar Hsz Hfo Hle Hfuel;
    cbn [uvmcopy_loop]; destruct (npages_spec sz Hsz) as (_ & Hnp & Hnt); pose proof H2 as (Ho & Hn & Hnd).
  { rewrite (proj2 (Z.ltb_ge _ _)) by va_lia. wp_step. left. split; [done|]. exists [], fl.
    rewrite app_nil_r. split; [lia|]. by apply grown_nil. }
  destruct (Z.ltb_spec (Z.of_nat (length fn) * PGSIZE) sz) as [Hlt|Hge].
  2:{ wp_step. left. split; [done|]. exists [], fl. rewrite app_nil_r. split; [va_lia|]. by apply grown_nil. }
  destruct (lookup_lt_is_Some_2 fo (length fn)) as [q Hq]; [va_lia|].
  destruct (Hpar _ _ Hq) as [Hperm Hc]. pose proof (us_leaf _ _ _ _ Ho _ _ Hq) as Hleaf.
  destruct (leaf_flags _ _ _ _ Hleaf) as [Hp1 Hp2]. destruct Hleaf as (Hv & Hf & Hpa).
  destruct (pte_valid_addr _ _ _ Hv) as [x Hx].
  destruct (pte_addr_in_ram _ _ _ _ _ (us_table _ _ _ _ Ho) Hx) as [Hr Hx0].
  wp_step. eapply wp_eq; [eapply walk_lookup; [apply Ho|va_lia]|]. rewrite Hx. change (default 0 (Some x)) with x.
  rewrite (proj2 (Z.eqb_neq x 0)) by done. wp_step. apply wp_rd64; [done|].
  rewrite <- (pte_some _ _ _ _ Hx). unfold pte_valid, ctrue in Hv. apply negb_true_iff in Hv. rewrite Hv, Hpa, <- Hperm.
  rewrite <- Hperm in Hp1, Hp2.
  assert (Hqok : page_ok q).
  { eapply Forall_forall; [apply (us_frames _ _ _ _ Ho)|]. by eapply list_elem_of_lookup_2. }
  apply (wp_add_page (fun p => kmemmove p q PGSIZE) (c (length fn)) _ _ _ new _ (perm (length fn)) s fn fl); try done.
  - va_lia.
  - intros p s1 Hpf Hp Hm. apply (wp_copy_frame p q s); try done. intros ->.
    apply NoDup_app in Hnd as (_ & _ & Hnd). apply NoDup_app in Hnd as (_ & Hd & _).
    apply (Hd q); [by eapply list_elem_of_lookup_2|in_list].
  - intros s' fl' Hlen Hus' Hc' Hm' Hv'. eapply wp_mono; [by apply (wp_uncopy s s' new fn fl fl')|].
    intros r s2 [-> H]. right. split; [done|]. split; [va_lia|done].
  - intros p s1 fl1 Hpf Hlen Hus1 Hc1 Hm1 Hv1 Hz1.
    destruct (two_spaces_step s s1 old fo new fn (fn ++ [p]) fl fl1 H2 Hus1 Hc1) as (H2' & Hvo & Hco).
    { eapply mod_only_sub; [exact Hm1|in_list]. }
    rewrite u64_small by va_lia.
    replace (Z.of_nat (length fn) * PGSIZE + PGSIZE) with (Z.of_nat (length (fn ++ [p])) * PGSIZE)
      by (rewrite !length_app; simpl; lia).
    eapply wp_mono; [apply (IH s1 (fn ++ [p]) fl1); rewrite ?length_app; simpl; try done; try va_lia|].
    { intros n p' Hp'. rewrite Hvo. destruct (Hpar n p' Hp') as [? Hcc]. split; [done|].
      intros o Hoo. rewrite Hco by (done || by eapply list_elem_of_lookup_2). auto. }
    intros r s2 [(-> & add & fl2 & Hnl & Hgr)|(-> & Hfew & fl2 & Hrb)].
    + left. split; [done|]. exists (p :: add), fl2. split; [rewrite <- Hnl, <- app_assoc; done|].
      by eapply (grown_cons s s1).
    + right. split; [done|]. rewrite length_app in Hfew. simpl in Hfew. split; [lia|].
      exists fl2. destruct Hrb as [Hrs Hrc Hro Hrf].
      split; [done|by eapply conserves_trans| |].
      { simpl in *. intros v Hvr. rewrite Hro, Hv1 by va_lia.
        destruct (Z.eqb_spec (v / PGSIZE) (Z.of_nat (length fn))) as [Heq|]; [|done]. apply page_of in Heq. va_lia. }
      eapply mod_only_comp; [exact Hm1|exact Hrf|in_list|].
      intros y Hy. destruct (decide (y ∈ fn)); [in_list|].
      assert (y ∈ table (mem s) new ++ fl) by (apply (conserves_in _ _ _ _ _ _ _ Hc1); in_list). in_list.
Qed.
End Copy.
End User.
