(* ===== verification/VmFree.v ===== *)
(** * Freeing an address space: freewalk and uvmfree

    [freewalk] gives back every page of a table that has no leaf left;
    [uvmfree] gives back the frames first. *)
From S2P Require Import Prelude Riscv Mem KString Kalloc Vm VmWalk VmMap VmUser.

Section Free.
Context {L : Layout}.
Implicit Types (m : memory) (s : kst) (pt va : Z) (fl frames : list Z).

(** No leaf table holds a valid entry. *)
Fixpoint no_leaves (level : nat) (m : memory) (pt : Z) : Prop :=
  match level with
  | O => forall i, 0 <= i < 512 -> pte_valid (ld64 m (pt + 8 * i)) = false
  | S l => forall i, 0 <= i < 512 -> pte_valid (ld64 m (pt + 8 * i)) = true ->
             no_leaves l m (PTE2PA (ld64 m (pt + 8 * i)))
  end.

Lemma no_leaves_frame level m m' pt :
  (forall p, p ∈ pt_pages level m pt -> agree p (p + PGSIZE) m m') ->
  no_leaves level m pt -> no_leaves level m' pt.
Proof.
  revert pt. induction level as [|l IH]; intros pt Ha Hn i Hi.
  - rewrite <- (entry_agree m m') by (done || apply Ha, pt_pages_head). by apply Hn.
  - rewrite <- (entry_agree m m') by (done || apply Ha, pt_pages_head). intros He. apply IH; [|by apply Hn].
    intros p Hp. apply Ha, elem_of_pt_pages_S. right. eauto.
Qed.

(** The leaf entry depends on the indices below the level only. *)
Lemma pte_val_indices level m pt va va' :
  (forall k, (k <= level)%nat -> PX (Z.of_nat k) va = PX (Z.of_nat k) va') ->
  pte_val level m pt va = pte_val level m pt va'.
Proof.
  intros H. unfold pte_val. replace (pte_addr level m pt va) with (pte_addr level m pt va'); [done|].
  revert pt. induction level as [|l IH]; intros pt.
  - cbn [pte_addr]. change (PX 0) with (PX (Z.of_nat 0)). by rewrite (H O).
  - rewrite !pte_addr_S, (H (S l)) by lia. destruct (pte_valid _); [|done]. apply IH. intros k Hk. apply H. lia.
Qed.

Lemma PX_high_low k l i va :
  0 <= i < 512 -> 0 <= va < 2 ^ (12 + 9 * Z.of_nat (S l)) -> (k <= S l)%nat ->
  PX (Z.of_nat k) (i * 2 ^ (12 + 9 * Z.of_nat (S l)) + va) =
  if decide (k = S l) then i else PX (Z.of_nat k) va.
Proof.
  intros Hi Hva Hk. rewrite !PX_eq by lia. destruct (decide (k = S l)) as [->|Hne].
  - rewrite Z.div_add_l, (Z.div_small va) by lia. rewrite Z.add_0_r. by apply Z.mod_small.
  - replace (12 + 9 * Z.of_nat (S l)) with ((12 + 9 * Z.of_nat k) + 9 + 9 * Z.of_nat (l - k)) by lia.
    rewrite !Z.pow_add_r by lia. change (2 ^ 9) with 512.
    replace (i * (2 ^ 12 * 2 ^ (9 * Z.of_nat k) * 512 * 2 ^ (9 * Z.of_nat (l - k))) + va)
      with (i * 2 ^ (9 * Z.of_nat (l - k)) * 512 * (2 ^ 12 * 2 ^ (9 * Z.of_nat k)) + va) by lia.
    rewrite Z.div_add_l by lia. by rewrite Z.add_comm, Z.mod_add by lia.
Qed.

Lemma no_leaves_of level m pt :
  (forall va, 0 <= va < 2 ^ (12 + 9 * Z.of_nat (S level)) -> pte_valid (pte_val level m pt va) = false) ->
  no_leaves level m pt.
Proof.
  revert pt. induction level as [|l IH]; intros pt H i Hi.
  - specialize (H (i * PGSIZE)). unfold pte_val in H. cbn [pte_addr] in H.
    rewrite PX_eq in H by lia. change (2 ^ (12 + 9 * 0)) with PGSIZE in H.
    rewrite Z.div_mul, Z.mod_small in H by done. apply H. unfold PGSIZE. simpl. lia.
  - intros He. apply IH. intros va Hva.
    assert (Hpow : 2 ^ (12 + 9 * Z.of_nat (S (S l))) = 512 * 2 ^ (12 + 9 * Z.of_nat (S l))).
    { replace (12 + 9 * Z.of_nat (S (S l))) with (9 + (12 + 9 * Z.of_nat (S l))) by lia. by rewrite Z.pow_add_r by lia. }
    specialize (H (i * 2 ^ (12 + 9 * Z.of_nat (S l)) + va)).
    unfold pte_val in H. rewrite pte_addr_S in H.
    rewrite PX_high_low in H by (done || lia). rewrite decide_True in H by done. rewrite He in H.
    rewrite <- (pte_val_indices l _ _ (i * 2 ^ (12 + 9 * Z.of_nat (S l)) + va)); [apply H; nia|].
    intros k Hk. rewrite PX_high_low by (done || lia). by rewrite decide_False by lia.
Qed.

(** ** freewalk *)

(** The pages below the entries [0 .. i-1] of a table. *)
Definition sub_pages l m pt (i : Z) : list Z :=
  if pte_valid (ld64 m (pt + 8 * i)) then pt_pages l m (PTE2PA (ld64 m (pt + 8 * i))) else [].

Lemma seqZ_one i : seqZ i 1 = [i].
Proof. unfold seqZ. simpl. by rewrite Z.add_0_l. Qed.

Lemma sub_pages_split l m pt i :
  0 <= i < 512 ->
  exists rest, pt_pages (S l) m pt ≡ₚ pt :: (seqZ 0 i ≫= sub_pages l m pt) ++ sub_pages l m pt i ++ rest.
Proof.
  intros Hi. exists (seqZ (i + 1) (511 - i) ≫= sub_pages l m pt).
  rewrite pt_pages_S. unfold pt_indices. rewrite seal_eq.
  replace 512 with (i + (1 + (511 - i))) by lia. rewrite seqZ_app, bind_app by lia.
  rewrite seqZ_app, bind_app by lia. rewrite !Z.add_0_l, seqZ_one, bind_singleton. done.
Qed.

Lemma sub_pages_last l m pt i :
  0 <= i -> seqZ 0 (i + 1) ≫= sub_pages l m pt = (seqZ 0 i ≫= sub_pages l m pt) ++ sub_pages l m pt i.
Proof.
  intros Hi. rewrite seqZ_app, bind_app by lia. f_equal. rewrite Z.add_0_l.
  by rewrite seqZ_one, bind_singleton.
Qed.

(** The loop of [freewalk] before entry [i]: the subtrees of the entries below
    [i] are free, the rest of the table is as it was. *)
Definition walk_inv l s0 pt fl (i : Z) s : Prop :=
  exists fr, free_list s (fr ++ fl) /\ fr ≡ₚ (seqZ 0 i ≫= sub_pages l (mem s0) pt) /\
    mod_only (pt :: fr) (mem s0) (mem s) /\
    forall j, i <= j < 512 -> ld64 (mem s) (pt + 8 * j) = ld64 (mem s0) (pt + 8 * j).

Lemma wp_freewalk_entry l s0 pt fl i s (IH : forall c s fl, pt_inv l s c fl -> no_leaves l (mem s) c ->
    wp (freewalk (S l) c) s (fun _ s' => exists fr, free_list s' (fr ++ fl) /\
      fr ≡ₚ pt_pages l (mem s) c /\ mod_only (pt_pages l (mem s) c) (mem s) (mem s'))) :
  pt_inv (S l) s0 pt fl -> no_leaves (S l) (mem s0) pt -> 0 <= i < 512 -> walk_inv l s0 pt fl i s ->
  wp (pte <- rd64 (pt + 8 * i);;
      if ctrue (Z.land pte PTE_V) && (Z.land pte (Z.lor (Z.lor PTE_R PTE_W) PTE_X) =? 0) then
        freewalk (S l) (PTE2PA pte);;
        wr64 (pt + 8 * i) 0
      else if ctrue (Z.land pte PTE_V) then panic "freewalk: leaf"
      else ret tt) s (fun _ s' => walk_inv l s0 pt fl (i + 1) s').
Proof.
  intros (Hf & Hw & Hnd) Hnl Hi (fr & Hfl & Hfr & Hm & Hent).
  pose proof (pt_wf_page _ _ _ Hw) as Hpt. wp_step. apply wp_rd64; [by apply entry_in_ram|].
  rewrite Hent by lia. fold (pte_valid (ld64 (mem s0) (pt + 8 * i))).
  destruct (pte_valid (ld64 (mem s0) (pt + 8 * i))) eqn:He; cbn [andb].
  2:{ wp_step. exists fr. split; [done|]. split; [|split; [done|intros j Hj; apply Hent; lia]].
      rewrite sub_pages_last by lia. unfold sub_pages at 2. by rewrite He, app_nil_r. }
  destruct (proj2 Hw i Hi He) as [Hflag Hwc].
  rewrite land_flag_PTE_FLAGS, Hflag by done. cbn [PTE_V]. change (_ =? 0) with true. cbv iota.
  set (c := PTE2PA (ld64 (mem s0) (pt + 8 * i))) in *.
  destruct (sub_pages_split l (mem s0) pt i Hi) as [rest Hsplit].
  unfold sub_pages at 2 in Hsplit. rewrite He in Hsplit. fold c in Hsplit. rewrite Hsplit, <- Hfr in Hnd.
  assert (Hout : forall p, p ∈ pt_pages l (mem s0) c -> p ∉ pt :: fr).
  { intros p Hp Hin. assert (Hnd' : NoDup ((pt :: fr) ++ pt_pages l (mem s0) c)) by nodup_from Hnd.
    apply NoDup_app in Hnd' as (_ & Hd & _). by apply (Hd p). }
  assert (Hfrok : forall p, p ∈ pt :: fr -> page_ok p).
  { intros p Hp. apply (pt_wf_pages _ _ _ _ Hw). rewrite Hsplit, <- Hfr. in_list. }
  assert (Ha : forall p, p ∈ pt_pages l (mem s0) c -> agree p (p + PGSIZE) (mem s0) (mem s)).
  { intros p Hp. eapply page_frame_agree; [exact Hm|done|by eapply pt_wf_pages|by apply Hout]. }
  destruct (pt_frame l _ _ _ Ha) as (Hpg & Hwc' & _).
  wp_step. eapply wp_mono; [apply (IH c s (fr ++ fl))|].
  { split; [done|]. split; [by apply Hwc'|]. rewrite Hpg. nodup_from Hnd. }
  { apply (no_leaves_frame l _ _ _ Ha). by apply Hnl. }
  rewrite Hpg. intros [] s1 (fr1 & Hf1 & Hp1 & Hm1). apply wp_wr64; [by apply entry_in_ram|].
  exists (fr1 ++ fr). destruct (entry_bounds i pt Hi) as [Hb1 Hb2].
  assert (Hm2 : mod_only [pt] (mem s1) (st64 (mem s1) (pt + 8 * i) 0)) by (by apply st64_mod_only).
  assert (Hptn : pt ∉ fr1 ++ fr ++ fl).
  { rewrite Hp1. assert (Hnd' : NoDup ([pt] ++ (pt_pages l (mem s0) c ++ fr ++ fl))) by nodup_from Hnd.
    apply NoDup_app in Hnd' as (_ & Hd & _). apply Hd. by left. }
  split; [|split; [|split]]; cbn [mem freelist].
  - rewrite <- app_assoc. eapply (free_list_frame [pt] s1); [done|done|done|].
    intros q ->%list_elem_of_singleton. split; [apply Hpt|done].
  - rewrite sub_pages_last by lia. unfold sub_pages at 2. rewrite He. fold c. rewrite Hp1, Hfr. solve_Permutation.
  - eapply (mod_only_comp (pt :: fr) (pt :: fr1)); [exact Hm| | |].
    + eapply mod_only_comp; [exact Hm1|exact Hm2| |in_list]. intros q. rewrite <- Hp1. in_list.
    + in_list.
    + in_list.
  - intros j Hj. rewrite ld64_st64_ne by lia. rewrite <- Hent by lia. symmetry. apply entry_agree; [|lia].
    eapply page_frame_agree; [exact Hm1|intros q; by apply (pt_wf_pages l _ c)|done|].
    rewrite <- Hp1. intros Hin. apply Hptn. in_list.
Qed.

(** [freewalk] gives back exactly the pages of the table. *)
Lemma wp_freewalk level pt s fl :
  pt_inv level s pt fl -> no_leaves level (mem s) pt ->
  wp (freewalk (S level) pt) s (fun _ s' => exists fr, free_list s' (fr ++ fl) /\
    fr ≡ₚ pt_pages level (mem s) pt /\ mod_only (pt_pages level (mem s) pt) (mem s) (mem s')).
Proof.
  revert pt s fl. induction level as [|l IH]; intros pt s fl Hinv Hnl;
    pose proof Hinv as (Hf & Hw & Hnd); pose proof (pt_wf_page _ _ _ Hw) as Hpt;
    cbn [freewalk]; wp_step.
  - apply (wp_for_loop (fun _ s' => s' = s)); [done| |].
    + intros i s1 Hi ->. wp_step. apply wp_rd64; [by apply entry_in_ram|].
      fold (pte_valid (ld64 (mem s) (pt + 8 * i))). rewrite !Hnl by done. cbn [andb].
      by wp_step.
    + intros s1 ->. apply NoDup_app in Hnd as (_ & Hd & _).
      eapply wp_mono; [apply (wp_kfree pt s fl); [done|done|apply Hd, pt_pages_head]|].
      intros [] s' [Hf' Hm']. exists [pt]. rewrite pt_pages_0. done.
  - apply (wp_for_loop (walk_inv l s pt fl)).
    + exists []. split; [done|]. split; [done|]. split; [apply mod_only_refl|done].
    + intros i s1 Hi Hinv1. by apply wp_freewalk_entry.
    + change (0 + Z.of_nat 512) with 512. intros s1 (fr & Hfl & Hfr & Hm & _).
      assert (Hall : pt_pages (S l) (mem s) pt ≡ₚ pt :: fr).
      { rewrite Hfr, pt_pages_S. unfold pt_indices. by rewrite seal_eq. }
      rewrite Hall in Hnd. simpl in Hnd. apply NoDup_cons in Hnd as [Hn _].
      eapply wp_mono; [apply (wp_kfree pt s1 (fr ++ fl)); done|].
      intros [] s' [Hf' Hm']. exists (pt :: fr). split; [done|]. split; [done|].
      eapply mod_only_comp; [exact Hm|exact Hm'| |]; intros q; rewrite Hall; in_list.
Qed.

(** ** uvmfree *)

(** [uvmfree] gives back every frame and every page of the table. *)
Lemma wp_uvmfree pt sz s frames fl :
  uspace s pt frames fl -> length frames = npages sz -> 0 <= sz <= TRAPFRAME ->
  (forall va, TRAPFRAME <= va < VASPAN -> pte_valid (pte s pt va) = false) ->
  wp (uvmfree pt sz) s (fun _ s' => exists fl', free_list s' fl' /\
    fl' ≡ₚ table (mem s) pt ++ frames ++ fl /\
    mod_only (table (mem s) pt ++ frames) (mem s) (mem s')).
Proof.
  intros Hus Hlen Hsz Htop. destruct (npages_spec sz Hsz) as (Hn1 & Hn2 & _). unfold uvmfree. wp_step.
  assert (Hwalk : forall s1 fl1, uspace s1 pt [] fl1 -> conserves s s1 pt frames [] fl fl1 ->
    mod_only (table (mem s) pt ++ frames) (mem s) (mem s1) -> table (mem s1) pt ≡ₚ table (mem s) pt ->
    (forall va, TRAPFRAME <= va < VASPAN -> pte_valid (pte s1 pt va) = false) ->
    wp (freewalk 3 pt) s1 (fun _ s' => exists fl', free_list s' fl' /\
      fl' ≡ₚ table (mem s) pt ++ frames ++ fl /\ mod_only (table (mem s) pt ++ frames) (mem s) (mem s'))).
  { intros s1 fl1 Hus1 Hc1 Hm1 Ht1 Htop1. eapply wp_mono; [apply (wp_freewalk 2 pt s1 fl1); [apply Hus1|]|].
    - apply no_leaves_of. intros va Hva. change (2 ^ (12 + 9 * Z.of_nat 3)) with VASPAN in Hva.
      destruct (Z.lt_ge_cases va TRAPFRAME); [|apply Htop1; lia].
      apply (us_above _ _ _ _ Hus1). simpl. lia.
    - intros [] s2 (fr & Hf2 & Hfr & Hm2). exists (fr ++ fl1). split; [done|]. split.
      + rewrite Hfr. exact Hc1.
      + eapply mod_only_comp; [exact Hm1|exact Hm2|done|]. intros q. rewrite Ht1. in_list. }
  rewrite Z.gtb_ltb. destruct (Z.ltb_spec 0 sz) as [Hpos|Hz].
  - rewrite Hn1, Z.div_mul, <- Hlen by done. pose proof (wp_drop_frames 0 pt s frames fl Hus) as Hd.
    rewrite Nat.sub_0_r in Hd. eapply wp_mono; [apply Hd; lia|]. rewrite drop_0. change (take 0 frames) with (@nil Z).
    intros [] s1 (Hus1 & Hc1 & Ht1 & Hm1 & Hv1). apply (Hwalk s1 (reverse frames ++ fl)); try done.
    intros va Hva. pose proof (us_size _ _ _ _ Hus). rewrite Hv1 by va_lia.
    destruct (_ && _); [done|]. by apply Htop.
  - assert (frames = []) as -> by (apply nil_length_inv; va_lia).
    wp_step. apply (Hwalk s fl); try done. apply conserves_refl.
Qed.
End Free.
