(* ===== verification/VmCopy.v ===== *)
(** * Copies between the kernel and user memory

    [copyin], [copyout] and [copyinstr] against the bytes a user address
    names through the page table ([ubyte]). *)
From S2P Require Import Prelude Riscv Mem KString Kalloc Vm VmWalk VmMap VmUser.

(** The byte at a user address, if the user may access it. *)
Definition ubyte (s : kst) (pt va : Z) : option Z :=
  if user_page s pt va =? 0 then None else Some (ld8 (mem s) (user_page s pt va + va mod PGSIZE)).

(** The user's bytes [va .. va+n-1], if all of them are accessible. *)
Fixpoint ubytes (n : nat) (s : kst) (pt va : Z) : option (list Z) :=
  match n with
  | O => Some []
  | S n' => c ← ubyte s pt va; cons c <$> ubytes n' s pt (va + 1)
  end.

(** Whether the [n] bytes from [va] are accessible. *)
Definition umapped (n : nat) (s : kst) (pt va : Z) : bool :=
  match ubytes n s pt va with Some _ => true | None => false end.

(** The user's string at [va] with its terminator, if it ends within [n] bytes. *)
Fixpoint ustring (n : nat) (s : kst) (pt va : Z) : option (list Z) :=
  match n with
  | O => None
  | S n' => c ← ubyte s pt va; if c =? 0 then Some [0] else cons c <$> ustring n' s pt (va + 1)
  end.

Section Copy.
Context {L : Layout}.
Implicit Types (s : kst) (pt va : Z) (fl frames : list Z).

(** A space whose trap frame and trampoline the user cannot touch. *)
Definition user_space s pt frames fl : Prop :=
  uspace s pt frames fl /\
  forall va, TRAPFRAME <= va < MAXVA -> Z.land (pte s pt va) PTE_U = 0.

(** The number of pages that [len] bytes from [va] touch. *)
Definition rounds (va len : Z) : Z := (va mod PGSIZE + len + PGSIZE - 1) / PGSIZE.

Lemma user_page_frame s pt frames fl va :
  user_space s pt frames fl -> 0 <= va -> user_page s pt va <> 0 ->
  va < TRAPFRAME /\ frames !! Z.to_nat (va / PGSIZE) = Some (user_page s pt va) /\ page_ok (user_page s pt va).
Proof.
  intros [Hus Htop] Hva. unfold user_page.
  destruct (Z.leb_spec MAXVA va); [done|]. cbn [orb].
  destruct (pte_valid (pte s pt va)) eqn:Hv; [|done]. cbn [negb orb].
  destruct (Z.eqb_spec (Z.land (pte s pt va) PTE_U) 0) as [|HU]; [done|]. intros _.
  destruct (Z.lt_ge_cases va TRAPFRAME) as [Hlt|Hge]; [|exfalso; apply HU, Htop; lia].
  destruct (Z.lt_ge_cases va (Z.of_nat (length frames) * PGSIZE)) as [Hin|Hout].
  2:{ by rewrite (us_above _ _ _ _ Hus) in Hv by lia. }
  assert (Hi : 0 <= va / PGSIZE < Z.of_nat (length frames)) by (unfold PGSIZE in *; Z.div_mod_to_equations; lia).
  destruct (lookup_lt_is_Some_2 frames (Z.to_nat (va / PGSIZE))) as [p Hp]; [lia|].
  destruct (us_leaf _ _ _ _ Hus _ _ Hp) as (_ & _ & Hpa). rewrite Z2Nat.id in Hpa by lia.
  rewrite (pte_same_page _ _ (va / PGSIZE * PGSIZE) va) in Hpa by (by rewrite Z.div_mul).
  rewrite Hpa. split; [done|]. split; [done|].
  eapply Forall_forall; [apply (us_frames _ _ _ _ Hus)|by eapply list_elem_of_lookup_2].
Qed.

(** Addresses of one page share their physical page. *)
Lemma user_page_same s pt va va' : va / PGSIZE = va' / PGSIZE -> user_page s pt va = user_page s pt va'.
Proof.
  intros H. unfold user_page. rewrite (pte_same_page _ _ _ _ H). do 3 f_equal.
  destruct (Z.leb_spec MAXVA va), (Z.leb_spec MAXVA va'); [done| | |done];
    exfalso; rewrite MAXVA_eq in *; unfold PGSIZE in *; Z.div_mod_to_equations; lia.
Qed.

Lemma PGROUNDDOWN_split va : 0 <= va < 2 ^ 64 ->
  PGROUNDDOWN va / PGSIZE = va / PGSIZE /\ va - PGROUNDDOWN va = va mod PGSIZE /\ 0 <= PGROUNDDOWN va <= va.
Proof.
  intros H. destruct (PGROUNDDOWN_bounds va H) as (H1 & H2 & H3). rewrite PGROUNDDOWN_eq in * by done.
  unfold PGSIZE in *. Z.div_mod_to_equations. lia.
Qed.

Lemma ubytes_app n k s pt va :
  ubytes (n + k) s pt va = bs ← ubytes n s pt va; app bs <$> ubytes k s pt (va + Z.of_nat n).
Proof.
  revert va. induction n as [|n IH]; intros va; cbn [ubytes Nat.add].
  - rewrite Z.add_0_r. cbn [mbind option_bind]. by destruct (ubytes k s pt va).
  - destruct (ubyte s pt va) as [c|]; cbn [mbind option_bind]; [|done]. rewrite IH.
    replace (va + 1 + Z.of_nat n) with (va + Z.of_nat (S n)) by lia.
    destruct (ubytes n s pt (va + 1)) as [bs|]; simpl; [|done]. by destruct (ubytes k s pt _).
Qed.

Lemma ubyte_at s pt va p o :
  user_page s pt va = p -> p <> 0 -> 0 <= o -> va mod PGSIZE + o < PGSIZE ->
  ubyte s pt (va + o) = Some (ld8 (mem s) (p + va mod PGSIZE + o)).
Proof.
  intros Hp Hne Ho Hend. unfold ubyte.
  assert (Hpage : (va + o) / PGSIZE = va / PGSIZE) by (unfold PGSIZE in *; Z.div_mod_to_equations; lia).
  rewrite (user_page_same _ _ _ _ Hpage), Hp, (proj2 (Z.eqb_neq _ _) Hne). do 2 f_equal.
  unfold PGSIZE in *. Z.div_mod_to_equations. lia.
Qed.

Lemma ubytes_page n s pt va p :
  user_page s pt va = p -> p <> 0 -> va mod PGSIZE + Z.of_nat n <= PGSIZE ->
  ubytes n s pt va = Some (rd_bytes n (mem s) (p + va mod PGSIZE)).
Proof.
  intros Hp Hne Hend.
  assert (H : forall k o, 0 <= o -> va mod PGSIZE + o + Z.of_nat k <= PGSIZE ->
    ubytes k s pt (va + o) = Some (rd_bytes k (mem s) (p + va mod PGSIZE + o))).
  { induction k as [|k IH]; intros o Ho Hk; cbn [ubytes rd_bytes]; [done|].
    rewrite (ubyte_at _ _ _ p) by (done || lia). cbn [mbind option_bind].
    replace (va + o + 1) with (va + (o + 1)) by lia.
    replace (p + va mod PGSIZE + o + 1) with (p + va mod PGSIZE + (o + 1)) by lia. by rewrite IH by lia. }
  specialize (H n 0). rewrite !Z.add_0_r in H. apply H; lia.
Qed.

Lemma ubytes_none n s pt va : user_page s pt va = 0 -> (0 < n)%nat -> ubytes n s pt va = None.
Proof.
  intros H Hn. destruct n as [|n]; [lia|]. cbn [ubytes]. unfold ubyte. by rewrite H.
Qed.

(** ** The common arithmetic of the loops *)

(** The bytes one round of a copy loop moves. *)
Definition chunk (va len : Z) : Z :=
  let n := PGSIZE - va mod PGSIZE in if n >? len then len else n.

Lemma chunk_spec va len : 0 < len ->
  0 < chunk va len <= len /\ va mod PGSIZE + chunk va len <= PGSIZE /\
  (chunk va len < len -> rounds (va + chunk va len) (len - chunk va len) = rounds va len - 1 /\
                         (va + chunk va len) mod PGSIZE = 0) /\
  0 < rounds va len.
Proof.
  intros H. unfold chunk, rounds. rewrite Z.gtb_ltb. pose proof (Z.mod_pos_bound va PGSIZE ltac:(done)).
  destruct (Z.ltb_spec len (PGSIZE - va mod PGSIZE)).
  - split; [lia|]. split; [lia|]. split; [lia|]. apply Z.div_str_pos. unfold PGSIZE in *. lia.
  - split; [lia|]. split; [lia|].
    assert (Hz : (va + (PGSIZE - va mod PGSIZE)) mod PGSIZE = 0) by (unfold PGSIZE in *; Z.div_mod_to_equations; lia).
    split; [|apply Z.div_str_pos; unfold PGSIZE in *; lia].
    intros Hlt. rewrite Hz. split; [|done].
    replace (va mod PGSIZE + len + PGSIZE - 1) with ((0 + (len - (PGSIZE - va mod PGSIZE)) + PGSIZE - 1) + 1 * PGSIZE) by lia.
    rewrite Z.div_add by done. lia.
Qed.

Lemma copy_fuel_enough va len : 0 <= len -> rounds va len <= Z.of_nat (copy_fuel len).
Proof.
  intros H. unfold rounds, copy_fuel. unfold PGSIZE. Z.div_mod_to_equations. lia.
Qed.

(** What one round of a loop finds: the page of the address, or none. *)
Lemma walkaddr_round s pt frames fl va :
  user_space s pt frames fl -> 0 <= va < 2 ^ 64 ->
  walkaddr pt (PGROUNDDOWN va) s = Ret (user_page s pt va, s).
Proof.
  intros [Hus _] Hva. destruct (PGROUNDDOWN_split va Hva) as (Hp & _ & Hb).
  rewrite (walkaddr_eq s pt _ fl) by (apply Hus || lia). by rewrite (user_page_same _ _ _ _ Hp).
Qed.

(** The next round starts at the next page. *)
Lemma next_round va len : 0 <= va < TRAPFRAME -> 0 < len -> chunk va len < len ->
  u64 (PGROUNDDOWN va + PGSIZE) = va + chunk va len.
Proof.
  intros Hva Hlen Hlt. rewrite TRAPFRAME_eq in Hva. destruct (PGROUNDDOWN_split va) as (_ & Hm & Hb); [lia|].
  unfold chunk in *. rewrite Z.gtb_ltb in *. destruct (Z.ltb_spec len (PGSIZE - va mod PGSIZE)); [lia|].
  rewrite u64_small by (unfold PGSIZE in *; lia). lia.
Qed.

Lemma page_chunk_in_ram p va len : page_ok p -> 0 < len ->
  in_ram (p + va mod PGSIZE) (chunk va len) = true.
Proof.
  intros Hp Hlen. pose proof (Z.mod_pos_bound va PGSIZE ltac:(done)). destruct (chunk_spec va len Hlen) as (? & ? & _).
  apply (page_ok_in_ram p); [done|lia|lia].
Qed.

(** ** copyin *)

Lemma copyin_new_loop_eq fuel pt dst srcva len s frames fl :
  user_space s pt frames fl -> 0 <= srcva < 2 ^ 64 -> 0 <= len -> rounds srcva len <= Z.of_nat fuel ->
  exists r bs, copyin_new_loop fuel pt dst srcva len s = Ret ((r, dst ++ bs), s) /\
    match ubytes (Z.to_nat len) s pt srcva with Some b => r = 0 /\ bs = b | None => r = -1 end.
Proof.
  intros Hus. revert dst srcva len. induction fuel as [|fuel IH]; intros dst srcva len Hva Hlen Hfuel;
    cbn [copyin_new_loop]; rewrite Z.gtb_ltb; destruct (Z.ltb_spec 0 len) as [Hpos|Hz].
  1: pose proof (chunk_spec srcva len Hpos); lia.
  1,3: replace len with 0 by lia; exists 0, []; rewrite app_nil_r; by split.
  destruct (chunk_spec srcva len Hpos) as (Hc1 & Hc2 & Hc3 & _).
  destruct (PGROUNDDOWN_split srcva Hva) as (_ & Hoff & _).
  erewrite bind_ret_eq by (by eapply walkaddr_round). rewrite Hoff. fold (chunk srcva len).
  destruct (Z.eqb_spec (user_page s pt srcva) 0) as [H0|Hne].
  { exists (-1), []. rewrite app_nil_r. split; [done|]. by rewrite ubytes_none by (done || lia). }
  destruct (user_page_frame _ _ _ _ srcva Hus ltac:(lia) Hne) as (Htf & _ & Hok).
  erewrite bind_ret_eq by (unfold kread; by rewrite page_chunk_in_ram).
  set (n := chunk srcva len) in *.
  replace (Z.to_nat len) with (Z.to_nat n + Z.to_nat (len - n))%nat by lia.
  rewrite ubytes_app, (ubytes_page _ _ _ _ _ eq_refl Hne) by lia. cbn [mbind option_bind].
  set (b := rd_bytes _ _ _). rewrite Z2Nat.id by lia.
  destruct (Z.eq_dec n len) as [He|Hlt].
  - rewrite He, Z.sub_diag. exists 0, b. split; [by destruct fuel|]. simpl. split; [done|by rewrite app_nil_r].
  - rewrite (next_round srcva len) by (fold n; lia). fold n. destruct (Hc3 ltac:(lia)) as [Hrd _].
    destruct (IH (dst ++ b) (srcva + n) (len - n)) as (r & bs & Heq & Hr); [unfold PGSIZE in *; rewrite TRAPFRAME_eq in *; pose proof (Z.mod_pos_bound srcva 4096 ltac:(done)); lia|lia|lia|].
    exists r, (b ++ bs). rewrite Heq, app_assoc. split; [done|].
    destruct (ubytes _ s pt (srcva + n)); simpl; [|done]. by destruct Hr as [-> ->].
Qed.

Lemma copyin_eq pt srcva len s frames fl :
  user_space s pt frames fl -> 0 <= srcva < 2 ^ 64 -> 0 <= len ->
  exists r bs, copyin pt srcva len s = Ret ((r, bs), s) /\
    match ubytes (Z.to_nat len) s pt srcva with Some b => r = 0 /\ bs = b | None => r = -1 end.
Proof.
  intros Hus Hva Hlen.
  destruct (copyin_new_loop_eq (copy_fuel len) pt [] srcva len s frames fl Hus Hva Hlen) as (r & bs & H); [|by exists r, bs].
  by apply copy_fuel_enough.
Qed.

(** ** copyinstr *)

Lemma copyinstr_page_eq n p dst max s pt va :
  page_ok p -> user_page s pt va = p -> va mod PGSIZE + Z.of_nat n <= PGSIZE ->
  exists (got : bool) bs max', copyinstr_page n (p + va mod PGSIZE) dst max s = Ret ((got, dst ++ bs, max'), s) /\
    if got then forall k, ustring (n + k) s pt va = Some bs
    else max' = max - Z.of_nat n /\
         forall k, ustring (n + k) s pt va = app bs <$> ustring k s pt (va + Z.of_nat n).
Proof.
  intros Hp Hpg Hend. pose proof (page_ok_range p Hp) as Hr. pose proof (Z.mod_pos_bound va PGSIZE ltac:(done)).
  assert (H' : forall n o dst max, 0 <= o -> va mod PGSIZE + o + Z.of_nat n <= PGSIZE ->
    exists (got : bool) bs max', copyinstr_page n (p + va mod PGSIZE + o) dst max s = Ret ((got, dst ++ bs, max'), s) /\
    if got then forall k, ustring (n + k) s pt (va + o) = Some bs
    else max' = max - Z.of_nat n /\
         forall k, ustring (n + k) s pt (va + o) = app bs <$> ustring k s pt (va + o + Z.of_nat n)).
  2:{ destruct (H' n 0 dst max) as (g & bs & mx & E); [lia|lia|]. rewrite !Z.add_0_r in E. eauto. }
  clear n Hend dst max. induction n as [|n IH]; intros o dst max Ho Hk; cbn [copyinstr_page].
  - exists false, [], max. rewrite app_nil_r. split; [done|]. split; [lia|]. intros k. rewrite Z.add_0_r.
    simpl. by destruct (ustring k s pt (va + o)).
  - erewrite bind_ret_eq by (unfold kread; by rewrite (page_ok_in_ram p) by (done || lia)). cbn [rd_bytes Z.to_nat Pos.to_nat].
    change (hd 0 (rd_bytes (Z.to_nat 1) (mem s) (p + va mod PGSIZE + o))) with (ld8 (mem s) (p + va mod PGSIZE + o)).
    cbn [ustring Nat.add]. rewrite (ubyte_at s pt va p o) by (done || lia). cbn [mbind option_bind].
    destruct (ld8 (mem s) (p + va mod PGSIZE + o) =? 0); [by exists true, [0], max|].
    destruct (IH (o + 1) (dst ++ [ld8 (mem s) (p + va mod PGSIZE + o)]) (max - 1)) as (g & bs & mx & E & Hg); [lia|lia|].
    rewrite !Z.add_assoc in E. rewrite !Z.add_assoc in Hg. exists g, (ld8 (mem s) (p + va mod PGSIZE + o) :: bs), mx. rewrite E.
    split; [by rewrite <- app_assoc|]. destruct g.
    + intros k. by rewrite Hg.
    + destruct Hg as [-> Hg]. split; [lia|]. intros k. rewrite Hg.
      replace (va + o + 1 + Z.of_nat n) with (va + o + Z.of_nat (S n)) by lia. by destruct (ustring k s pt _).
Qed.

Lemma copyinstr_new_loop_eq fuel pt dst srcva max s frames fl :
  user_space s pt frames fl -> 0 <= srcva < 2 ^ 64 -> 0 <= max -> rounds srcva max <= Z.of_nat fuel ->
  exists r bs, copyinstr_new_loop fuel pt dst srcva max s = Ret ((r, dst ++ bs), s) /\
    match ustring (Z.to_nat max) s pt srcva with Some b => r = 0 /\ bs = b | None => r = -1 end.
Proof.
  intros Hus. revert dst srcva max. induction fuel as [|fuel IH]; intros dst srcva max Hva Hmax Hfuel;
    cbn [copyinstr_new_loop]; rewrite Z.gtb_ltb; destruct (Z.ltb_spec 0 max) as [Hpos|Hz].
  1: pose proof (chunk_spec srcva max Hpos); lia.
  1,3: replace max with 0 by lia; exists (-1), []; rewrite app_nil_r; by split.
  destruct (chunk_spec srcva max Hpos) as (Hc1 & Hc2 & Hc3 & _).
  destruct (PGROUNDDOWN_split srcva Hva) as (_ & Hoff & _).
  erewrite bind_ret_eq by (by eapply walkaddr_round). rewrite Hoff. fold (chunk srcva max).
  destruct (Z.eqb_spec (user_page s pt srcva) 0) as [H0|Hne].
  { exists (-1), []. rewrite app_nil_r. split; [done|]. destruct (Z.to_nat max); [done|].
    simpl. unfold ubyte. by rewrite H0. }
  destruct (user_page_frame _ _ _ _ srcva Hus ltac:(lia) Hne) as (Htf & _ & Hok).
  set (n := chunk srcva max) in *.
  destruct (copyinstr_page_eq (Z.to_nat n) (user_page s pt srcva) dst max s pt srcva Hok eq_refl)
    as (got & b & max' & Heq & Hg); [lia|].
  erewrite bind_ret_eq by exact Heq. cbn beta iota.
  replace (Z.to_nat max) with (Z.to_nat n + Z.to_nat (max - n))%nat by lia.
  destruct got; [exists 0, b; by rewrite Hg|]. destruct Hg as [-> Hg]. rewrite Hg, Z2Nat.id by lia.
  destruct (Z.eq_dec n max) as [He|Hlt].
  - rewrite He, Z.sub_diag. exists (-1), b. split; [by destruct fuel|done].
  - rewrite (next_round srcva max) by (fold n; lia). fold n. destruct (Hc3 ltac:(lia)) as [Hrd _].
    destruct (IH (dst ++ b) (srcva + n) (max - n)) as (r & bs & Heq' & Hr);
      [pose proof (Z.mod_pos_bound srcva PGSIZE ltac:(done)); va_lia|lia|lia|].
    exists r, (b ++ bs). rewrite Heq', app_assoc. split; [done|].
    destruct (ustring _ s pt (srcva + n)); simpl; [|done]. by destruct Hr as [-> ->].
Qed.

Lemma copyinstr_eq pt srcva max s frames fl :
  user_space s pt frames fl -> 0 <= srcva < 2 ^ 64 -> 0 <= max ->
  exists r bs, copyinstr pt srcva max s = Ret ((r, bs), s) /\
    match ustring (Z.to_nat max) s pt srcva with Some b => r = 0 /\ bs = b | None => r = -1 end.
Proof.
  intros Hus Hva Hlen.
  destruct (copyinstr_new_loop_eq (copy_fuel max) pt [] srcva max s frames fl Hus Hva Hlen) as (r & bs & H); [|by exists r, bs].
  by apply copy_fuel_enough.
Qed.

(** ** copyout *)

(** Storing bytes inside one user page. *)
Lemma user_write s pt frames fl va (bs : list Z) :
  user_space s pt frames fl -> 0 <= va -> user_page s pt va <> 0 ->
  va mod PGSIZE + Z.of_nat (length bs) <= PGSIZE ->
  let p := user_page s pt va in
  let s' := Kst (wr_bytes (mem s) (p + va mod PGSIZE) bs) (freelist s) in
  user_space s' pt frames fl /\ (forall v, pte s' pt v = pte s pt v) /\ mod_only frames (mem s) (mem s') /\
  forall v, 0 <= v -> ubyte s' pt v = if (va <=? v) && (v <? va + Z.of_nat (length bs))
                                     then u8 <$> bs !! Z.to_nat (v - va) else ubyte s pt v.
Proof.
  intros Hsp Hva Hne Hlen p s'. pose proof (Z.mod_pos_bound va PGSIZE ltac:(done)) as Hmod.
  destruct (user_page_frame _ _ _ _ _ Hsp Hva Hne) as (Htf & Hfr & Hp). fold p in Hfr, Hp, Hne. pose proof Hsp as [Hus Htop].
  assert (Hin : p ∈ frames) by (by eapply list_elem_of_lookup_2).
  assert (Hm : mod_only [p] (mem s) (mem s')).
  { intros x Hx. specialize (Hx p ltac:(by left)). cbn [mem s']. rewrite wr_bytes_frame; [done|lia]. }
  pose proof (us_nodup _ _ _ _ Hus) as Hnd.
  assert (Hout : p ∉ table (mem s) pt /\ p ∉ fl).
  { apply NoDup_app in Hnd as (_ & Hd1 & Hnd2). apply NoDup_app in Hnd2 as (Hnf & Hd2 & _).
    split; [|by apply Hd2]. intros Ht. apply (Hd1 p Ht). in_list. }
  destruct (uspace_frame s s' pt frames fl fl [p] Hus Hm) as (Hus' & _ & Hv); [| |done|].
  { intros q ->%list_elem_of_singleton. by destruct Hout. }
  { eapply (free_list_frame [p] s); [apply Hus|done|done|]. intros q ->%list_elem_of_singleton.
    split; [apply Hp|apply Hout]. }
  split; [split; [done|]; intros v Hvr; rewrite Hv; auto|]. split; [done|].
  split; [by eapply mod_only_sub; [exact Hm|]; intros q ->%list_elem_of_singleton|].
  intros v Hv0. assert (Hup : user_page s' pt v = user_page s pt v) by (unfold user_page; by rewrite Hv).
  unfold ubyte. rewrite Hup. destruct ((va <=? v) && (v <? va + Z.of_nat (length bs))) eqn:Er; bool_prop.
  - assert (Hpage : v / PGSIZE = va / PGSIZE) by (unfold PGSIZE in *; Z.div_mod_to_equations; lia).
    rewrite (user_page_same _ _ _ _ Hpage). fold p. rewrite (proj2 (Z.eqb_neq _ _) Hne).
    destruct (lookup_lt_is_Some_2 bs (Z.to_nat (v - va))) as [b Hb]; [lia|]. rewrite Hb. cbn [fmap option_fmap option_map].
    f_equal. cbn [mem s']. apply wr_bytes_at; [unfold PGSIZE in *; Z.div_mod_to_equations; lia|].
    rewrite <- Hb. do 2 f_equal. unfold PGSIZE in *. Z.div_mod_to_equations. lia.
  - destruct (Z.eqb_spec (user_page s pt v) 0) as [|Hne']; [done|]. f_equal.
    destruct (user_page_frame _ _ _ _ _ Hsp Hv0 Hne') as (_ & Hfr' & Hp').
    pose proof (Z.mod_pos_bound v PGSIZE ltac:(done)).
    cbn [mem s']. apply wr_bytes_frame. destruct (Z.eq_dec (user_page s pt v) p) as [Heq|Hdiff].
    + rewrite Heq in *.
      assert (Hij : Z.to_nat (v / PGSIZE) = Z.to_nat (va / PGSIZE)).
      { eapply NoDup_lookup; [|exact Hfr'|exact Hfr]. nodup_from Hnd. }
      assert (v / PGSIZE = va / PGSIZE) by (apply Z2Nat.inj; try apply Z.div_pos; done).
      destruct Er as [Er|Er]; bool_prop; unfold PGSIZE in *; Z.div_mod_to_equations; lia.
    + destruct (page_ok_disjoint _ _ Hp' Hp Hdiff); lia.
Qed.

Lemma umapped_pte n s s' pt va :
  (forall v, pte s' pt v = pte s pt v) -> umapped n s' pt va = umapped n s pt va.
Proof.
  intros H. unfold umapped. revert va. induction n as [|n IH]; intros va; cbn [ubytes]; [done|].
  unfold ubyte. replace (user_page s' pt va) with (user_page s pt va) by (unfold user_page; by rewrite H).
  destruct (_ =? 0); cbn [mbind option_bind]; [done|]. specialize (IH (va + 1)).
  destruct (ubytes n s' pt (va + 1)), (ubytes n s pt (va + 1)); done.
Qed.

Lemma umapped_app n k s pt va :
  umapped (n + k) s pt va = umapped n s pt va && umapped k s pt (va + Z.of_nat n).
Proof.
  unfold umapped. rewrite ubytes_app. destruct (ubytes n s pt va); [|done]. simpl. by destruct (ubytes k s pt _).
Qed.

(** What [copyout] of [src] to [dstva] has done when it returns [r]. *)
Definition copied_out s s' pt frames fl dstva (src : list Z) (r : Z) : Prop :=
  let inside v := dstva <= v < dstva + Z.of_nat (length src) in
  user_space s' pt frames fl /\ (forall v, pte s' pt v = pte s pt v) /\ mod_only frames (mem s) (mem s') /\
  (forall v, 0 <= v -> ~ inside v -> ubyte s' pt v = ubyte s pt v) /\
  if umapped (length src) s pt dstva
  then r = 0 /\ forall v, inside v -> ubyte s' pt v = u8 <$> src !! Z.to_nat (v - dstva)
  else r = -1.

Lemma copied_out_nil s pt frames fl dstva : user_space s pt frames fl -> copied_out s s pt frames fl dstva [] 0.
Proof.
  intros H. split; [done|]. split; [done|]. split; [apply mod_only_refl|]. split; [done|]. split; [done|]. simpl. lia.
Qed.

(** The first [n] bytes, then the rest. *)
Lemma copied_out_app s s1 s2 pt frames fl dstva src n r :
  0 <= dstva -> (n <= length src)%nat -> umapped n s pt dstva = true ->
  (forall v, pte s1 pt v = pte s pt v) -> mod_only frames (mem s) (mem s1) ->
  (forall v, 0 <= v -> ubyte s1 pt v = if (dstva <=? v) && (v <? dstva + Z.of_nat n)
                                      then u8 <$> src !! Z.to_nat (v - dstva) else ubyte s pt v) ->
  copied_out s1 s2 pt frames fl (dstva + Z.of_nat n) (drop n src) r ->
  copied_out s s2 pt frames fl dstva src r.
Proof.
  intros Hd Hn Hmap Hv1 Hm1 Hu1 (Hus & Hv2 & Hm2 & Ho2 & Hr). rewrite length_drop in Ho2, Hr.
  split; [done|]. split; [intros v; by rewrite Hv2|]. split; [by eapply mod_only_trans|]. split.
  - intros v H0 Hv. rewrite Ho2, Hu1 by lia. zcases.
  - assert (Hs : umapped (length src) s pt dstva = umapped (length src - n) s pt (dstva + Z.of_nat n)).
    { replace (length src) with (n + (length src - n))%nat at 1 by lia. by rewrite umapped_app, Hmap. }
    rewrite Hs.
    rewrite (umapped_pte _ s s1) in Hr by done. destruct (umapped (length src - n) s pt _); [|done].
    destruct Hr as [-> Hr]. split; [done|]. intros v Hv.
    destruct (Z.lt_ge_cases v (dstva + Z.of_nat n)).
    + rewrite Ho2, Hu1 by lia. zcases.
    + rewrite Hr, lookup_drop by lia. do 2 f_equal. lia.
Qed.

Lemma wp_copyout_loop fuel pt dstva src s frames fl :
  user_space s pt frames fl -> 0 <= dstva < 2 ^ 64 -> rounds dstva (Z.of_nat (length src)) <= Z.of_nat fuel ->
  wp (copyout_loop fuel pt dstva src) s (fun r s' => copied_out s s' pt frames fl dstva src r).
Proof.
  revert dstva src s. induction fuel as [|fuel IH]; intros dstva src s Hus Hva Hfuel;
    cbn [copyout_loop]; rewrite Z.gtb_ltb; destruct (Z.ltb_spec 0 (Z.of_nat (length src))) as [Hpos|Hz].
  1: pose proof (chunk_spec dstva _ Hpos); lia.
  1,3: (destruct src; [|simpl in Hz; lia]); wp_step; by apply copied_out_nil.
  set (len := Z.of_nat (length src)) in *.
  destruct (chunk_spec dstva len Hpos) as (Hc1 & Hc2 & Hc3 & _).
  destruct (PGROUNDDOWN_split dstva Hva) as (_ & Hoff & _).
  wp_step. eapply wp_eq; [by eapply walkaddr_round|]. rewrite Hoff. fold (chunk dstva len).
  destruct (Z.eqb_spec (user_page s pt dstva) 0) as [H0|Hne].
  { wp_step. split; [done|]. split; [done|]. split; [apply mod_only_refl|]. split; [done|].
    unfold umapped. by rewrite ubytes_none by (done || lia). }
  destruct (user_page_frame _ _ _ _ dstva Hus ltac:(lia) Hne) as (Htf & _ & Hok).
  set (n := chunk dstva len) in *. set (b := take (Z.to_nat n) src).
  assert (Hb : length b = Z.to_nat n) by (unfold b; rewrite length_take; lia).
  destruct (user_write s pt frames fl dstva b Hus ltac:(lia) Hne ltac:(lia)) as (Hus1 & Hv1 & Hm1 & Hu1).
  wp_step. unfold kwrite at 1, wp at 1. rewrite Hb, Z2Nat.id by lia. unfold n at 1. rewrite page_chunk_in_ram by done.
  set (s1 := Kst _ _) in *. rewrite Hb, Z2Nat.id in Hu1 by lia.
  assert (Hmap1 : umapped (Z.to_nat n) s pt dstva = true).
  { unfold umapped. by rewrite (ubytes_page _ _ _ _ _ eq_refl Hne) by lia. }
  assert (Hdl : Z.of_nat (length (drop (Z.to_nat n) src)) = len - n) by (rewrite length_drop; lia).
  cut (wp (copyout_loop fuel pt (u64 (PGROUNDDOWN dstva + PGSIZE)) (drop (Z.to_nat n) src)) s1
          (fun r s2 => copied_out s1 s2 pt frames fl (dstva + n) (drop (Z.to_nat n) src) r)).
  { intros Hrest. eapply wp_mono; [exact Hrest|]. intros r s2 H2.
    apply (copied_out_app s s1 s2 pt frames fl dstva src (Z.to_nat n) r); try done; [lia|lia| |by rewrite Z2Nat.id by lia].
    intros v H0v. rewrite Z2Nat.id, Hu1 by lia. destruct (_ && _) eqn:E; [|done]. bool_prop.
    unfold b. by rewrite lookup_take_lt by lia. }
  destruct (Z.eq_dec n len) as [He|Hlt].
  - replace (drop (Z.to_nat n) src) with (@nil Z) by (symmetry; apply drop_ge; lia).
    destruct fuel; apply (wp_ret 0); by apply copied_out_nil.
  - rewrite (next_round dstva len) by (fold n; lia). fold n. destruct (Hc3 ltac:(lia)) as [Hrd _].
    apply IH; [done| |by rewrite Hdl; lia].
    pose proof (Z.mod_pos_bound dstva PGSIZE ltac:(done)). va_lia.
Qed.

Lemma wp_copyout pt dstva src s frames fl :
  user_space s pt frames fl -> 0 <= dstva < 2 ^ 64 ->
  wp (copyout pt dstva src) s (fun r s' => copied_out s s' pt frames fl dstva src r).
Proof. intros Hus Hva. apply wp_copyout_loop; [done|done|]. apply copy_fuel_enough. lia. Qed.
End Copy.
