(* ===== verification/Machine.v ===== *)
(** * A concrete machine

    One kernel image and one small memory, used to evaluate the theorems on
    concrete inputs: six free pages, and an empty user page table. *)
From S2P Require Import Prelude Riscv Mem KString Kalloc Vm VmWalk VmMap VmUser VmCopy.

#[local] Obligation Tactic := unfold KERNBASE, PHYSTOP, PGSIZE; done.
#[global] Program Instance layout0 : Layout :=
  {| etext := 0x80008000; kend := 0x80022000; trampoline := 0x80007000 |}.

Definition pg (i : Z) : Z := 0x80100000 + PGSIZE * i.

(** Pages 1 to 6 are free, linked in this order; page 0 is an empty table. *)
Definition mem0 : memory :=
  st64 (st64 (st64 (st64 (st64 (fun _ => 0) (pg 1) (pg 2)) (pg 2) (pg 3)) (pg 3) (pg 4)) (pg 4) (pg 5)) (pg 5) (pg 6).
Definition state0 : kst := Kst mem0 (pg 1).
Definition free0 : list Z := [pg 1; pg 2; pg 3; pg 4; pg 5; pg 6].

Lemma pg_ok i : 0 <= i <= 16 -> page_ok (pg i).
Proof. intros H. unfold page_ok, pg, PHYSTOP, KERNBASE, PGSIZE. simpl. Z.div_mod_to_equations. lia. Qed.

Lemma free_list0 : free_list state0 free0.
Proof.
  split; [|apply (bool_decide_eq_true_1 _); vm_compute; reflexivity].
  repeat (split; [vm_compute; reflexivity|]; split; [apply pg_ok; lia|]). vm_compute. reflexivity.
Qed.

Lemma pg0_zero x : pg 0 <= x < pg 0 + PGSIZE -> ld8 mem0 x = 0.
Proof.
  unfold mem0, pg, PGSIZE. intros Hx. rewrite !st64_frame by lia. done.
Qed.

Lemma uspace0 : uspace state0 (pg 0) [] free0.
Proof.
  destruct (pt_zero_page 2 mem0 (pg 0)) as (Hp & Hw & Hv); [apply pg_ok; lia|apply pg0_zero|].
  assert (Hnd : NoDup (pt_pages 2 mem0 (pg 0) ++ free0)).
  { rewrite Hp. apply (bool_decide_eq_true_1 _); vm_compute; reflexivity. }
  split; try done.
  - split; [apply free_list0|]. done.
  - intros va _. unfold pte. by rewrite Hv.
Qed.

Lemma user_space0 : user_space state0 (pg 0) [] free0.
Proof.
  split; [apply uspace0|]. intros va _. unfold pte.
  destruct (pt_zero_page 2 mem0 (pg 0)) as (Hp & Hw & Hv); [apply pg_ok; lia|apply pg0_zero|]. by rewrite Hv.
Qed.
