(* ===== verification/VmTheorems.v ===== *)
(** * What kernel/vm.c guarantees

    The theorems about page tables and user memory, each with an instance on
    the machine of [Machine]. *)
From S2P Require Import Prelude Riscv Mem KString Kalloc Vm VmWalk VmMap VmUser VmFree VmCopy Machine.

(** A process of 100 bytes on the machine of [Machine]. *)
Lemma space1 : exists s p fl,
  uvmalloc (pg 0) 0 100 PTE_W state0 = Ret (100, s) /\ user_space s (pg 0) [p] fl /\
  user_page s (pg 0) 0 = p /\ p <> 0 /\
  (forall va, TRAPFRAME <= va < VASPAN -> pte s (pg 0) va = 0) /\
  table (mem s) (pg 0) ++ [p] ++ fl ≡ₚ pg 0 :: free0 /\ mod_only (pg 0 :: free0) mem0 (mem s).
Proof.
  destruct (pt_zero_page 2 mem0 (pg 0)) as (Hpz & _ & Hz); [apply pg_ok; lia|apply pg0_zero|].
  pose proof (wp_uvmalloc (pg 0) 0 100 PTE_W state0 [] free0 uspace0 eq_refl ltac:(lia) ltac:(done) ltac:(done)) as H.
  apply wp_inv in H as (r & s & Heq & H).
  destruct H as [(-> & new & fl & Hlen & [Hus Hc Hn Ho Hm])|(-> & Hfew & _)].
  2:{ exfalso. revert Hfew. vm_compute. lia. }
  simpl in Hlen, Hus, Hn, Ho. change (npages 100) with 1%nat in Hlen.
  destruct new as [|p [|]]; [done| |done]. exists s, p, fl. split; [exact Heq|]. clear Heq.
  assert (Htop : forall va, TRAPFRAME <= va < VASPAN -> pte s (pg 0) va = 0).
  { intros va Hva. rewrite Ho by (right; done). unfold pte. apply Hz. }
  assert (Hp : page_ok p) by (pose proof (us_frames _ _ _ _ Hus) as Hf; by apply Forall_cons in Hf as [? _]).
  pose proof (page_ok_range p Hp) as Hr. split; [split; [done|]|split; [|split; [lia|split; [done|]]]].
  - intros va Hva. rewrite Htop by va_lia. done.
  - destruct (Hn O p eq_refl) as [Hp0 _]. change (Z.of_nat 0 * PGSIZE) with 0 in Hp0.
    unfold user_page. rewrite Hp0, mk_pte_valid, land_flag_PTE_FLAGS, mk_pte_flags by (done || lia).
    change (_ || _) with false. cbv iota. apply mk_pte_pa; [lia|apply Hp|done].
  - unfold conserves in Hc. cbn [mem state0] in Hc, Hm. rewrite Hpz in Hc, Hm. done.
Qed.

(** Beside it, an empty child. *)
Lemma space2 : exists s p fl, two_spaces s (pg 0) [p] (pg 7) [] fl.
Proof.
  destruct space1 as (s & p & fl & _ & [Hus _] & _ & _ & _ & Hperm & Hm). exists s, p, fl.
  assert (Hn : pg 7 ∉ pg 0 :: free0) by (apply (bool_decide_eq_true_1 _); vm_compute; reflexivity).
  destruct (pt_zero_page 2 (mem s) (pg 7)) as (Hp & Hw & Hv); [apply pg_ok; lia| |].
  { intros x Hx. assert (H0 : ld8 mem0 x = 0).
    { unfold mem0, pg, PGSIZE in *. rewrite !st64_frame by lia. done. }
    rewrite <- H0. symmetry. eapply (page_frame_agree _ (pg 7)); [exact Hm| |apply pg_ok; lia|exact Hn|exact Hx].
    intros q. revert q. apply (Forall_forall page_ok). repeat (constructor; [apply pg_ok; lia|]). constructor. }
  pose proof (us_nodup _ _ _ _ Hus) as Hnd.
  assert (Hnd7 : NoDup (pg 7 :: table (mem s) (pg 0) ++ [p] ++ fl)) by (constructor; [by rewrite Hperm|done]).
  split; [done|]. split; [|rewrite Hp; nodup_from Hnd7].
  assert (Hnd' : NoDup (table (mem s) (pg 7) ++ fl)) by (rewrite Hp; nodup_from Hnd7).
  split; [split; [apply Hus|done]|constructor|done| |done|done].
  intros va _. unfold pte. by rewrite Hv.
Qed.

(** The first page of that process is accessible to the user. *)
Lemma space1_mapped s p fl n va : user_space s (pg 0) [p] fl -> user_page s (pg 0) 0 = p -> p <> 0 ->
  0 <= va -> va + Z.of_nat n <= PGSIZE -> ubytes n s (pg 0) va = Some (rd_bytes n (mem s) (p + va)).
Proof.
  intros _ Hp Hne H0 Hn. destruct n as [|n]; [done|].
  assert (Hm : va mod PGSIZE = va) by (apply Z.mod_small; lia).
  rewrite (ubytes_page _ _ _ _ p); [by rewrite Hm| |done|lia].
  rewrite <- Hp. apply user_page_same. rewrite Z.div_small by lia. done.
Qed.

(** ** Mapping *)

(** [mappages] maps exactly the pages of its range.  On a well-formed table
    whose range is unmapped it never panics; it returns 0 with every page of
    the range mapped to the matching physical page with the permissions asked
    for, or -1 only when fewer than two free pages per page were left, with a
    prefix mapped.  Every other entry keeps its value, the table stays well
    formed, and the only pages taken from the allocator are new tables. *)
Theorem mappages_correct {L : Layout} pt va size pa perm s fl :
  pt_ok s pt fl -> 0 <= va -> 0 < size -> va + size <= MAXVA ->
  0 <= pa -> pa + size + PGSIZE <= 2 ^ 56 -> 0 <= perm < 2 ^ 10 ->
  let a := PGROUNDDOWN va in let n := span va size in
  (forall v, a <= v < a + Z.of_nat n * PGSIZE -> pte_valid (pte s pt v) = false) ->
  wp (mappages pt va size pa perm) s (fun r s' => exists fl' j,
    pt_ok s' pt fl' /\ table (mem s') pt ++ fl' ≡ₚ table (mem s) pt ++ fl /\
    (r = 0 /\ j = n \/ r = -1 /\ (j < n)%nat /\ (length fl < 2 * n)%nat) /\
    forall v, 0 <= v < VASPAN ->
      pte s' pt v = if (a <=? v) && (v <? a + Z.of_nat j * PGSIZE)
                    then mk_pte (pa + (v / PGSIZE * PGSIZE - a)) perm else pte s pt v).
Proof.
  intros Hok Hva Hsz Hend Hpa Hpend Hperm a n Hun. eapply wp_mono; [by apply wp_mappages|].
  intros r s' (fl' & j & Hg & Hj & Hv). exists fl', j. split; [by eapply pt_grow_inv|].
  split; [by apply pt_grow_perm|]. split; [tauto|done].
Qed.

Lemma mappages_correct_witness :
  wp (mappages (pg 0) 0x3000 0x2000 0x10000000 PTE_R) state0 (fun r s' =>
    r = 0 /\ pte s' (pg 0) 0x4008 = mk_pte 0x10001000 PTE_R /\ pte s' (pg 0) 0x5000 = 0).
Proof.
  destruct (pt_zero_page 2 mem0 (pg 0)) as (_ & _ & Hz); [apply pg_ok; lia|apply pg0_zero|].
  eapply wp_mono; [apply (mappages_correct (pg 0) 0x3000 0x2000 0x10000000 PTE_R state0 free0)|].
  - apply uspace0.
  - lia.
  - lia.
  - vm_compute. discriminate.
  - lia.
  - unfold PGSIZE. lia.
  - split; [vm_compute; discriminate|done].
  - intros v _. unfold pte. by rewrite Hz.
  - change (span 0x3000 0x2000) with 2%nat. change (PGROUNDDOWN 0x3000) with 0x3000.
    intros r s' (fl' & j & _ & _ & [[-> ->]|(_ & _ & Hf)] & Hv); [|exfalso; revert Hf; vm_compute; lia].
    split; [done|]. split; rewrite Hv by (rewrite VASPAN_eq; lia); [done|].
    unfold pte. apply Hz.
Defined.

(** ** Growing and shrinking a process *)

(** [uvmalloc] grows a process or leaves it as it was.  On success the
    space has the pages of the new size, the new ones are zero, readable and
    accessible to the user with the permissions asked for, and the entries of
    the old pages, of the trap frame and of the trampoline are unchanged.  It
    fails only when there were fewer than three free pages per page to add,
    and then every frame it had added is free again.  On both paths every
    physical page is still in the tables, in the frames or free, once. *)
Theorem uvmalloc_correct {L : Layout} pt oldsz newsz xperm s frames fl :
  uspace s pt frames fl -> length frames = npages oldsz ->
  0 <= oldsz <= newsz -> newsz <= TRAPFRAME -> 0 <= xperm < 2 ^ 10 ->
  wp (uvmalloc pt oldsz newsz xperm) s (fun r s' =>
    (r = newsz /\ exists new fl', length (frames ++ new) = npages newsz /\
       grown s s' pt frames new fl fl' (fun _ _ => 0) (fun _ => Z.lor (Z.lor PTE_R PTE_U) xperm)) \/
    (r = 0 /\ (length fl < 3 * (npages newsz - npages oldsz))%nat /\
       exists fl', rolled_back s s' pt frames [] fl fl')).
Proof. apply wp_uvmalloc. Qed.

Lemma uvmalloc_correct_witness :
  wp (uvmalloc (pg 0) 0 8000 PTE_W) state0 (fun r s' =>
    r = 8000 /\ exists p q fl', uspace s' (pg 0) [p; q] fl').
Proof.
  eapply wp_mono; [apply (uvmalloc_correct (pg 0) 0 8000 PTE_W state0 [] free0 uspace0 eq_refl)|].
  - lia.
  - rewrite TRAPFRAME_eq. lia.
  - split; [vm_compute; discriminate|done].
  - intros r s' [(-> & new & fl' & Hlen & Hg)|(_ & Hf & _)]; [|exfalso; revert Hf; vm_compute; lia].
    split; [done|]. apply gr_space in Hg. simpl in Hlen, Hg. change (npages 8000) with 2%nat in Hlen.
    destruct new as [|p [|q [|]]]; try done. by exists p, q, fl'.
Defined.

(** [uvmdealloc] undoes [uvmalloc].  After a successful growth from
    [oldsz] to [newsz], shrinking back to [oldsz] returns [oldsz] and leaves
    the frames and the entries the process had before, with every page of the
    growth free again or kept as an empty table. *)
Theorem uvmdealloc_uvmalloc {L : Layout} pt oldsz newsz xperm s frames fl :
  uspace s pt frames fl -> length frames = npages oldsz ->
  0 <= oldsz <= newsz -> newsz <= TRAPFRAME -> 0 <= xperm < 2 ^ 10 ->
  (3 * (npages newsz - npages oldsz) <= length fl)%nat ->
  wp (r <- uvmalloc pt oldsz newsz xperm;; uvmdealloc pt r oldsz) s (fun r s' => r = oldsz /\
    exists fl', uspace s' pt frames fl' /\ conserves s s' pt frames frames fl fl' /\
      forall v, 0 <= v < Z.of_nat (length frames) * PGSIZE \/ TRAPFRAME <= v < VASPAN ->
        pte s' pt v = pte s pt v).
Proof.
  intros Hus Hlen Hsz Hnew Hx Hfree. wp_step. eapply wp_mono; [by apply wp_uvmalloc|].
  intros r s1 [(-> & new & fl1 & Hnl & [Hus1 Hc1 _ Ho1 _])|(_ & Hf & _)]; [|lia].
  eapply wp_mono; [by apply (wp_uvmdealloc pt newsz oldsz s1 (frames ++ new) fl1)|].
  intros r s2 (-> & Hus2 & Hc2 & _ & Ho2). split; [done|].
  rewrite <- Hlen in Hus2, Hc2, Ho2. rewrite take_app_length, drop_app_length in *. eexists. split; [exact Hus2|].
  split; [by eapply conserves_trans|]. intros v Hv. by rewrite Ho2, Ho1.
Qed.

Lemma uvmdealloc_uvmalloc_witness :
  wp (r <- uvmalloc (pg 0) 0 8000 PTE_W;; uvmdealloc (pg 0) r 0) state0 (fun r s' => r = 0 /\
    exists fl', uspace s' (pg 0) [] fl').
Proof.
  eapply wp_mono; [apply (uvmdealloc_uvmalloc (pg 0) 0 8000 PTE_W state0 [] free0 uspace0 eq_refl)|].
  - lia.
  - rewrite TRAPFRAME_eq. lia.
  - split; [vm_compute; discriminate|done].
  - vm_compute. lia.
  - intros r s' (-> & fl' & H & _). split; [done|]. by exists fl'.
Defined.

(** ** fork's copy *)

(** C15: [uvmcopy] duplicates an address space.  On success the child has as
    many pages as the parent's size needs, in fresh frames, with the parent's
    bytes and the parent's permissions page for page.  It fails only when
    memory runs short, and then the child has no frame left and no page is
    lost.  On both paths the parent's entries and bytes are unchanged and the
    two spaces share no page. *)
Theorem uvmcopy_correct {L : Layout} old new sz s fo fl :
  two_spaces s old fo new [] fl -> 0 <= sz <= TRAPFRAME -> (npages sz <= length fo)%nat ->
  wp (uvmcopy old new sz) s (fun r s' => exists fn fl',
    two_spaces s' old fo new fn fl' /\ conserves s s' new [] fn fl fl' /\
    (forall va, pte s' old va = pte s old va) /\
    (forall p o, p ∈ fo -> 0 <= o < PGSIZE -> ld8 (mem s') (p + o) = ld8 (mem s) (p + o)) /\
    (r = 0 /\ length fn = npages sz /\
     (forall i p q, fn !! i = Some p -> fo !! i = Some q ->
        pte s' new (Z.of_nat i * PGSIZE) = mk_pte p (PTE_FLAGS (pte s old (Z.of_nat i * PGSIZE))) /\
        forall o, 0 <= o < PGSIZE -> ld8 (mem s') (p + o) = ld8 (mem s) (q + o)) \/
     r = -1 /\ fn = [] /\ (length fl < 3 * npages sz)%nat)).
Proof.
  intros H2 Hsz Hfo. destruct (npages_spec sz Hsz) as (_ & Hnp & _). unfold uvmcopy.
  change 0 with (Z.of_nat (@length Z []) * PGSIZE) at 3.
  eapply wp_mono.
  { apply (wp_uvmcopy_loop old new sz fo (fun n o => ld8 (mem s) (default 0 (fo !! n) + o))
      (fun n => PTE_FLAGS (pte s old (Z.of_nat n * PGSIZE))) _ s [] fl); try done.
    - intros n p Hp. rewrite Hp. done.
    - simpl. lia.
    - simpl. unfold PGSIZE in *. Z.div_mod_to_equations. lia. }
  intros r s' Hr. assert (Hcases : exists fn fl', uspace s' new fn fl' /\ conserves s s' new [] fn fl fl' /\
    mod_only (table (mem s) new ++ [] ++ fl) (mem s) (mem s') /\
    (r = 0 /\ length fn = npages sz /\
     (forall i p q, fn !! i = Some p -> fo !! i = Some q ->
        pte s' new (Z.of_nat i * PGSIZE) = mk_pte p (PTE_FLAGS (pte s old (Z.of_nat i * PGSIZE))) /\
        forall o, 0 <= o < PGSIZE -> ld8 (mem s') (p + o) = ld8 (mem s) (q + o)) \/
     r = -1 /\ fn = [] /\ (length fl < 3 * npages sz)%nat)).
  { destruct Hr as [(-> & fn & fl' & Hlen & [Hus Hc Hn _ Hm])|(-> & Hf & fl' & [Hus Hc _ Hm])].
    - exists fn, fl'. do 3 (split; [done|]). left. do 2 (split; [done|]). intros i p q Hp Hq.
      destruct (Hn i p Hp) as [H1 H3]. simpl in H1, H3. split; [done|]. intros o Ho. by rewrite H3, Hq.
    - exists [], fl'. do 3 (split; [done|]). right. split; [done|]. split; [done|]. simpl in Hf. lia. }
  destruct Hcases as (fn & fl' & Hus & Hc & Hm & Hres).
  destruct (two_spaces_step s s' old fo new [] fn fl fl' H2 Hus Hc Hm) as (H2' & Hv & Hb).
  by exists fn, fl'.
Qed.

Lemma uvmcopy_correct_witness : exists s p,
  wp (uvmcopy (pg 0) (pg 7) 100) s (fun r s' => exists fn fl', two_spaces s' (pg 0) [p] (pg 7) fn fl').
Proof.
  destruct space2 as (s & p & fl & H2). exists s, p.
  eapply wp_mono; [apply (uvmcopy_correct (pg 0) (pg 7) 100 s [p] fl H2)|].
  - rewrite TRAPFRAME_eq. lia.
  - vm_compute. lia.
  - intros r s' (fn & fl' & H & _). by exists fn, fl'.
Defined.

(** ** Freeing a process's memory *)

(** C29: [uvmfree] loses nothing.  If nothing but the process's own pages is
    mapped, it returns without panicking, and the free list afterwards is a
    permutation of the page-table pages, the frames and the pages that were
    free before: no leak and no double free. *)
Theorem uvmfree_complete {L : Layout} pt sz s frames fl :
  uspace s pt frames fl -> length frames = npages sz -> 0 <= sz <= TRAPFRAME ->
  (forall va, TRAPFRAME <= va < VASPAN -> pte_valid (pte s pt va) = false) ->
  wp (uvmfree pt sz) s (fun _ s' => exists fl', free_list s' fl' /\
    fl' ≡ₚ table (mem s) pt ++ frames ++ fl /\
    mod_only (table (mem s) pt ++ frames) (mem s) (mem s')).
Proof. apply wp_uvmfree. Qed.

(** The memory of a process of 100 bytes is freed: all seven pages are free. *)
Lemma uvmfree_complete_witness :
  wp (sz <- uvmalloc (pg 0) 0 100 PTE_W;; uvmfree (pg 0) sz) state0
     (fun _ s' => exists fl', free_list s' fl' /\ fl' ≡ₚ pg 0 :: free0).
Proof.
  destruct space1 as (s & p & fl & Heq & [Hus _] & _ & _ & Htop & Hperm & _).
  wp_step. eapply wp_eq; [exact Heq|].
  eapply wp_mono; [apply (uvmfree_complete (pg 0) 100 s [p] fl Hus eq_refl)|].
  - rewrite TRAPFRAME_eq. lia.
  - intros va Hva. by rewrite Htop.
  - intros [] s' (fl' & Hf & Hp & _). exists fl'. split; [exact Hf|]. by rewrite Hp.
Defined.

(** ** Copies between kernel and user *)

(** C30: [copyout] writes exactly the bytes it is given, exactly where it should.
    If every byte of the destination is accessible to the user it returns 0
    and the user sees the bytes of [src] there; otherwise it returns -1.  In
    both cases every user byte outside the destination, every page-table
    entry and every page that is not a frame of the process is unchanged. *)
Theorem copyout_correct {L : Layout} pt dstva src s frames fl :
  user_space s pt frames fl -> 0 <= dstva < 2 ^ 64 ->
  wp (copyout pt dstva src) s (fun r s' => copied_out s s' pt frames fl dstva src r).
Proof. apply wp_copyout. Qed.

Lemma copyout_correct_witness : exists s,
  wp (copyout (pg 0) 4090 [1; 2; 3]) s (fun r s' => r = 0 /\ ubyte s' (pg 0) 4091 = Some 2).
Proof.
  destruct space1 as (s & p & fl & _ & Hus & Hp & Hne & _). exists s.
  eapply wp_mono; [apply (copyout_correct (pg 0) 4090 [1; 2; 3] s [p] fl Hus)|].
  - lia.
  - intros r s' (_ & _ & _ & _ & Hr). unfold umapped in Hr.
    rewrite (space1_mapped s p fl) in Hr by (done || unfold PGSIZE; simpl; lia).
    destruct Hr as [-> Hr]. split; [done|]. rewrite Hr by (simpl; lia). done.
Defined.

(** C31: [copyin] returns 0 with the user's bytes when all of them are
    accessible, and -1 otherwise; it never changes memory. *)
Theorem copyin_correct {L : Layout} pt srcva len s frames fl :
  user_space s pt frames fl -> 0 <= srcva < 2 ^ 64 -> 0 <= len ->
  exists r bs, copyin pt srcva len s = Ret ((r, bs), s) /\
    match ubytes (Z.to_nat len) s pt srcva with Some b => r = 0 /\ bs = b | None => r = -1 end.
Proof. apply copyin_eq. Qed.

Lemma copyin_correct_witness : exists s p,
  copyin (pg 0) 10 20 s = Ret ((0, rd_bytes 20 (mem s) (p + 10)), s).
Proof.
  destruct space1 as (s & p & fl & _ & Hus & Hp & Hne & _). exists s, p.
  destruct (copyin_correct (pg 0) 10 20 s [p] fl Hus) as (r & bs & Heq & Hr); [lia|lia|].
  rewrite (space1_mapped s p fl) in Hr by (done || unfold PGSIZE; simpl; lia). destruct Hr as [-> ->].
  exact Heq.
Defined.

(** [copyin] reads back what [copyout] wrote. *)
Theorem copyout_copyin_roundtrip {L : Layout} pt va src s frames fl :
  user_space s pt frames fl -> 0 <= va < 2 ^ 64 -> Forall (fun b => 0 <= b < 256) src ->
  umapped (length src) s pt va = true ->
  wp (r <- copyout pt va src;; copyin pt va (Z.of_nat (length src))) s
     (fun r _ => r = (0, src)).
Proof.
  intros Hus Hva Hb Hmap. wp_step. eapply wp_mono; [by apply wp_copyout|].
  intros r s1 (Hus1 & Hv & _ & _ & Hr). rewrite Hmap in Hr. destruct Hr as [-> Hr].
  destruct (copyin_eq pt va (Z.of_nat (length src)) s1 frames fl Hus1 Hva ltac:(lia)) as (r & bs & Heq & Hres).
  eapply wp_eq; [exact Heq|]. rewrite Nat2Z.id in Hres.
  assert (Hall : forall k n, (n + k = length src)%nat -> ubytes k s1 pt (va + Z.of_nat n) = Some (drop n src)).
  { induction k as [|k IH]; intros n Hn; cbn [ubytes]; [by rewrite drop_ge by lia|].
    destruct (lookup_lt_is_Some_2 src n) as [b Hbn]; [lia|].
    rewrite Hr by lia. replace (Z.to_nat (va + Z.of_nat n - va)) with n by lia. rewrite Hbn. cbn.
    replace (va + Z.of_nat n + 1) with (va + Z.of_nat (S n)) by lia. rewrite IH by lia. cbn.
    rewrite u8_small by (eapply Forall_lookup_1 in Hb; [|exact Hbn]; done). f_equal.
    symmetry. by apply drop_S. }
  specialize (Hall (length src) O eq_refl). rewrite Z.add_0_r in Hall. rewrite Hall in Hres.
  destruct Hres as [-> ->]. done.
Qed.

Lemma copyout_copyin_roundtrip_witness : exists s,
  wp (r <- copyout (pg 0) 100 [104; 105; 0];; copyin (pg 0) 100 3) s (fun r _ => r = (0, [104; 105; 0])).
Proof.
  destruct space1 as (s & p & fl & _ & Hus & Hp & Hne & _). exists s.
  apply (copyout_copyin_roundtrip (pg 0) 100 [104; 105; 0] s [p] fl Hus).
  - lia.
  - repeat (constructor; [lia|]). constructor.
  - unfold umapped. by rewrite (space1_mapped s p fl) by (done || unfold PGSIZE; simpl; lia).
Defined.

(** [copyinstr] returns 0 with the user's string, terminator included, if
    it ends within [max] accessible bytes, and -1 otherwise; it never changes
    memory and never reads past the terminator or past [max]. *)
Theorem copyinstr_correct {L : Layout} pt srcva max s frames fl :
  user_space s pt frames fl -> 0 <= srcva < 2 ^ 64 -> 0 <= max ->
  exists r bs, copyinstr pt srcva max s = Ret ((r, bs), s) /\
    match ustring (Z.to_nat max) s pt srcva with Some b => r = 0 /\ bs = b | None => r = -1 end.
Proof. apply copyinstr_eq. Qed.

(** A string written by [copyout] is read back by [copyinstr]. *)
Lemma copyinstr_correct_witness : exists s,
  wp (r <- copyout (pg 0) 100 [104; 105; 0];; copyinstr (pg 0) 100 128) s (fun r _ => r = (0, [104; 105; 0])).
Proof.
  destruct space1 as (s & p & fl & _ & Hus & Hp & Hne & _). exists s.
  wp_step. eapply wp_mono; [apply (wp_copyout (pg 0) 100 [104; 105; 0] s [p] fl Hus); lia|].
  intros r s1 (Hus1 & _ & _ & _ & Hr). unfold umapped in Hr.
  rewrite (space1_mapped s p fl) in Hr by (done || unfold PGSIZE; simpl; lia). destruct Hr as [_ Hr].
  destruct (copyinstr_correct (pg 0) 100 128 s1 [p] fl Hus1) as (r' & bs & Heq & Hres); [lia|lia|].
  eapply wp_eq; [exact Heq|].
  replace (Z.to_nat 128) with (3 + Z.to_nat 125)%nat in Hres by lia. cbn [ustring Nat.add] in Hres.
  rewrite !Hr in Hres by (simpl; lia). cbn in Hres. destruct Hres as [-> ->]. done.
Defined.
