(* ===== verification/Bio.v ===== *)
(** * kernel/bio.c: the buffer cache

    The cache is the array [bcache.buf] with the list head as one more
    element, linked through [prev] and [next] indices, as in the C.  The disk
    is a map from block numbers to blocks; [virtio_disk_rw] is one atomic
    transfer, and every write is appended to [writes], the history from which
    the states after a crash are read.

    The code is run by one process, [mypid]: [acquiresleep] of a buffer that is
    already locked would sleep for ever and is [Diverge]. *)
From S2P Require Import Prelude Riscv.

Definition BSIZE : Z := 1024.
Definition nbuf : nat := Z.to_nat NBUF.
(** The index of [bcache.head]. *)
Definition head : nat := nbuf.

Notation block := (list Z).

Record buf : Type := Buf {
  valid : bool;
  bdev : Z;
  blockno : Z;
  lock : option Z;      (* the sleep lock: the pid that holds it *)
  refcnt : Z;
  prev : nat;
  next : nat;
  data : block;
}.
#[global] Instance buf_inhabited : Inhabited buf := populate (Buf false 0 0 None 0 0 0 []).

Definition set_valid (v : bool) (b : buf) := Buf v (bdev b) (blockno b) (lock b) (refcnt b) (prev b) (next b) (data b).
Definition set_lock (l : option Z) (b : buf) := Buf (valid b) (bdev b) (blockno b) l (refcnt b) (prev b) (next b) (data b).
Definition set_refcnt (r : Z) (b : buf) := Buf (valid b) (bdev b) (blockno b) (lock b) r (prev b) (next b) (data b).
Definition set_prev (p : nat) (b : buf) := Buf (valid b) (bdev b) (blockno b) (lock b) (refcnt b) p (next b) (data b).
Definition set_next (n : nat) (b : buf) := Buf (valid b) (bdev b) (blockno b) (lock b) (refcnt b) (prev b) n (data b).
Definition set_data (d : block) (b : buf) := Buf (valid b) (bdev b) (blockno b) (lock b) (refcnt b) (prev b) (next b) d.
Definition recycle (dev bno : Z) (b : buf) := Buf false dev bno (lock b) 1 (prev b) (next b) (data b).

Record bst : Type := Bst {
  bufs : list buf;
  disk : Z -> block;
  writes : list (Z * block);
  mypid : Z;
}.

(** ** Access to the array *)

Definition getb (i : nat) : M bst buf :=
  fun s => match bufs s !! i with Some b => Ret (b, s) | None => Fault end.
Definition setb (i : nat) (f : buf -> buf) : M bst unit :=
  fun s => match bufs s !! i with
           | Some b => Ret (tt, Bst (<[i := f b]> (bufs s)) (disk s) (writes s) (mypid s))
           | None => Fault
           end.

(** ** kernel/sleeplock.c, for the lock of a buffer *)

Definition initsleeplock (i : nat) : M bst unit := setb i (set_lock None).
Definition acquiresleep (i : nat) : M bst unit :=
  b <- getb i;;
  match lock b with
  | Some _ => diverge
  | None => pid <- gets mypid;; setb i (set_lock (Some pid))
  end.
Definition releasesleep (i : nat) : M bst unit := setb i (set_lock None).
Definition holdingsleep (i : nat) : M bst bool :=
  b <- getb i;; pid <- gets mypid;;
  ret match lock b with Some p => p =? pid | None => false end.

(** ** The disk *)

Definition fupd {A} (f : Z -> A) (k : Z) (v : A) : Z -> A := fun x => if x =? k then v else f x.

(** One transfer between a buffer and its block.  The driver looks at the
    block number only. *)
Definition virtio_disk_rw (i : nat) (write : bool) : M bst unit :=
  b <- getb i;;
  if write then
    modify (fun s => Bst (bufs s) (fupd (disk s) (blockno b) (data b)) (writes s ++ [(blockno b, data b)]) (mypid s))
  else
    d <- gets (fun s => disk s (blockno b));; setb i (set_data d).

(** ** bio.c *)

(** Link [i] in at the front of the list. *)
Definition link_front (i : nat) : M bst unit :=
  h <- getb head;;
  setb i (set_next (next h));;
  setb i (set_prev head).
Definition link_back (i : nat) : M bst unit :=
  h <- getb head;;
  setb (next h) (set_prev i);;
  setb head (set_next i).

Fixpoint binit_loop (k : nat) (i : nat) : M bst unit :=
  match k with
  | O => ret tt
  | S k' => link_front i;; initsleeplock i;; link_back i;; binit_loop k' (S i)
  end.
Definition binit : M bst unit :=
  setb head (set_prev head);;
  setb head (set_next head);;
  binit_loop nbuf 0.

(** [for(b = b0; b != &bcache.head; b = b->step) if(test(b)) return b] *)
Fixpoint bsearch (fuel : nat) (step : buf -> nat) (test : buf -> bool) (i : nat) : M bst (option nat) :=
  if (i =? head)%nat then ret None else
  match fuel with
  | O => diverge
  | S k => b <- getb i;; if test b then ret (Some i) else bsearch k step test (step b)
  end.

Definition bget (dev bno : Z) : M bst nat :=
  h <- getb head;;
  r <- bsearch nbuf next (fun b => (bdev b =? dev) && (blockno b =? bno)) (next h);;
  match r with
  | Some i =>
      setb i (fun b => set_refcnt (u32 (refcnt b + 1)) b);;
      acquiresleep i;;
      ret i
  | None =>
      r <- bsearch nbuf prev (fun b => refcnt b =? 0) (prev h);;
      match r with
      | Some i => setb i (recycle dev bno);; acquiresleep i;; ret i
      | None => panic "bget: no buffers"
      end
  end.

Definition bread (dev bno : Z) : M bst nat :=
  i <- bget dev bno;;
  b <- getb i;;
  (if negb (valid b) then virtio_disk_rw i false;; setb i (set_valid true) else ret tt);;
  ret i.

Definition bwrite (i : nat) : M bst unit :=
  h <- holdingsleep i;;
  if negb h then panic "bwrite" else virtio_disk_rw i true.

Definition brelse (i : nat) : M bst unit :=
  h <- holdingsleep i;;
  if negb h then panic "brelse" else
  releasesleep i;;
  setb i (fun b => set_refcnt (u32 (refcnt b - 1)) b);;
  b <- getb i;;
  if refcnt b =? 0 then
    setb (next b) (set_prev (prev b));;
    setb (prev b) (set_next (next b));;
    link_front i;;
    link_back i
  else ret tt.

Definition bpin (i : nat) : M bst unit := setb i (fun b => set_refcnt (u32 (refcnt b + 1)) b).
Definition bunpin (i : nat) : M bst unit := setb i (fun b => set_refcnt (u32 (refcnt b - 1)) b).

(** Reading [b->blockno], reading and writing [b->data]. *)
Definition bblockno (i : nat) : M bst Z := b <- getb i;; ret (blockno b).
Definition bdata (i : nat) : M bst block := b <- getb i;; ret (data b).
Definition set_bdata (i : nat) (d : block) : M bst unit := setb i (set_data d).

(** The state before [binit]: the zeroed array, with a given disk. *)
Definition bst_init (d : Z -> block) (pid : Z) : bst :=
  Bst (replicate (S nbuf) (Buf false 0 0 None 0 0 0 (replicate (Z.to_nat BSIZE) 0))) d [] pid.

Lemma fupd_eq {A} (f : Z -> A) k v : fupd f k v k = v.
Proof. unfold fupd. by rewrite Z.eqb_refl. Qed.

Lemma fupd_ne {A} (f : Z -> A) k v x : x <> k -> fupd f k v x = f x.
Proof. unfold fupd. intros H. by rewrite (proj2 (Z.eqb_neq x k)). Qed.
