(* ===== verification/BioSpec.v ===== *)
(** * What the buffer cache promises

    The interface between the buffer cache and its clients, the log and the
    file system: the operations of bio.c, an abstract view of the cache and
    the laws that relate them.  [Bio] implements it (BioProofs); [Log] is
    written against it. *)
From S2P Require Import Prelude Riscv Bio.

Class BlockCache (C : Type) : Type := {
  (** The operations. *)
  c_bread : Z -> Z -> M C nat;
  c_bwrite : nat -> M C unit;
  c_brelse : nat -> M C unit;
  c_bpin : nat -> M C unit;
  c_bunpin : nat -> M C unit;
  c_blockno : nat -> M C Z;
  c_data : nat -> M C block;
  c_set_data : nat -> block -> M C unit;
  (** The view: the disk and the history of its writes, the current contents
      of each block (the cached copy if there is one), the number of
      references to it, and the buffer through which it is locked. *)
  c_ok : C -> Prop;
  c_disk : C -> Z -> block;
  c_writes : C -> list (Z * block);
  c_cont : C -> Z -> block;
  c_refs : C -> Z -> Z;
  c_held : C -> Z -> option nat;
  c_used : C -> list Z;
  (** The laws of the view. *)
  c_refs_nonneg c b : c_ok c -> 0 <= c_refs c b;
  c_used_nodup c : c_ok c -> NoDup (c_used c);
  c_used_spec c b : c_ok c -> b ∈ c_used c <-> 0 < c_refs c b;
  c_held_refs c b h : c_ok c -> c_held c b = Some h -> 0 < c_refs c b;
  c_held_inj c b b' h : c_ok c -> c_held c b = Some h -> c_held c b' = Some h -> b = b';
  c_unused_clean c b : c_ok c -> c_refs c b = 0 -> c_cont c b = c_disk c b;
  (** The laws of the operations. *)
  c_bread_spec c b :
    c_ok c -> c_held c b = None -> c_refs c b < 2 ^ 31 ->
    0 < c_refs c b \/ (length (c_used c) < nbuf)%nat ->
    wp (c_bread ROOTDEV b) c (fun h c' => c_ok c' /\ c_disk c' = c_disk c /\ c_writes c' = c_writes c /\
      (forall x, c_cont c' x = c_cont c x) /\ (forall x, c_refs c' x = fupd (c_refs c) b (c_refs c b + 1) x) /\
      (forall x, c_held c' x = fupd (c_held c) b (Some h) x));
  c_blockno_spec c b h : c_ok c -> c_held c b = Some h -> c_blockno h c = Ret (b, c);
  c_data_spec c b h : c_ok c -> c_held c b = Some h -> c_data h c = Ret (c_cont c b, c);
  c_set_data_spec c b h d :
    c_ok c -> c_held c b = Some h ->
    wp (c_set_data h d) c (fun _ c' => c_ok c' /\ c_disk c' = c_disk c /\ c_writes c' = c_writes c /\
      (forall x, c_cont c' x = fupd (c_cont c) b d x) /\ (forall x, c_refs c' x = c_refs c x) /\
      (forall x, c_held c' x = c_held c x));
  c_bwrite_spec c b h :
    c_ok c -> c_held c b = Some h ->
    wp (c_bwrite h) c (fun _ c' => c_ok c' /\ c_disk c' = fupd (c_disk c) b (c_cont c b) /\
      c_writes c' = c_writes c ++ [(b, c_cont c b)] /\
      (forall x, c_cont c' x = c_cont c x) /\ (forall x, c_refs c' x = c_refs c x) /\
      (forall x, c_held c' x = c_held c x));
  c_brelse_spec c b h :
    c_ok c -> c_held c b = Some h -> (c_refs c b = 1 -> c_cont c b = c_disk c b) ->
    wp (c_brelse h) c (fun _ c' => c_ok c' /\ c_disk c' = c_disk c /\ c_writes c' = c_writes c /\
      (forall x, c_cont c' x = c_cont c x) /\ (forall x, c_refs c' x = fupd (c_refs c) b (c_refs c b - 1) x) /\
      (forall x, c_held c' x = fupd (c_held c) b None x));
  c_bpin_spec c b h :
    c_ok c -> c_held c b = Some h -> c_refs c b < 2 ^ 31 ->
    wp (c_bpin h) c (fun _ c' => c_ok c' /\ c_disk c' = c_disk c /\ c_writes c' = c_writes c /\
      (forall x, c_cont c' x = c_cont c x) /\ (forall x, c_refs c' x = fupd (c_refs c) b (c_refs c b + 1) x) /\
      (forall x, c_held c' x = c_held c x));
  c_bunpin_spec c b h :
    c_ok c -> c_held c b = Some h -> 1 < c_refs c b ->
    wp (c_bunpin h) c (fun _ c' => c_ok c' /\ c_disk c' = c_disk c /\ c_writes c' = c_writes c /\
      (forall x, c_cont c' x = c_cont c x) /\ (forall x, c_refs c' x = fupd (c_refs c) b (c_refs c b - 1) x) /\
      (forall x, c_held c' x = c_held c x));
}.
