(* ===== verification/BioProofs.v ===== *)
(** * The buffer cache keeps its promises

    The list through [prev] and [next] is a circular list of all buffers, in
    order of last use; a block is cached at most once; an unused buffer is
    clean.  Each operation of [Bio] keeps this and has the effect [BioSpec]
    promises. *)
From S2P Require Import Prelude Riscv Bio BioSpec.

Implicit Types (s : bst) (bs : list buf).

(** ** The circular list *)

Definition nxt bs (i : nat) : nat := next (bs !!! i).
Definition prv bs (i : nat) : nat := prev (bs !!! i).

(** Neighbours in [l] are linked both ways. *)
Fixpoint path bs (l : list nat) : Prop :=
  match l with
  | x :: (y :: _) as t => nxt bs x = y /\ prv bs y = x /\ path bs t
  | _ => True
  end.

(** The list of buffers is [ord], most recently used first. *)
Definition lru bs (ord : list nat) : Prop :=
  ord ≡ₚ seq 0 nbuf /\ path bs (head :: ord ++ [head]).

Lemma path_cons bs x y l : path bs (x :: y :: l) <-> nxt bs x = y /\ prv bs y = x /\ path bs (y :: l).
Proof. done. Qed.

Lemma path_split bs l1 x l2 : path bs (l1 ++ x :: l2) <-> path bs (l1 ++ [x]) /\ path bs (x :: l2).
Proof.
  induction l1 as [|a l1 IH]; [simpl; tauto|]. destruct l1 as [|b l1]; cbn [app] in *.
  - rewrite !path_cons. simpl. tauto.
  - rewrite !path_cons. tauto.
Qed.

(** A path depends on [next] of all its nodes but the last and on [prev] of
    all its nodes but the first. *)
Lemma path_ext bs bs' l :
  (forall x l1 y l2, l = l1 ++ x :: y :: l2 -> nxt bs' x = nxt bs x /\ prv bs' y = prv bs y) ->
  path bs l -> path bs' l.
Proof.
  induction l as [|x l IH]; [done|]. destruct l as [|y l]; [done|]. rewrite !path_cons.
  intros H (H1 & H2 & H3). destruct (H x [] y l eq_refl) as [-> ->].
  split; [done|]. split; [done|]. apply IH; [|done]. intros x' l1 y' l2 E. apply (H x' (x :: l1) y' l2). by rewrite E.
Qed.

Lemma path_same_links bs bs' l :
  (forall x, nxt bs' x = nxt bs x /\ prv bs' x = prv bs x) -> path bs l -> path bs' l.
Proof. intros H. apply path_ext. intros x l1 y l2 _. split; apply H. Qed.

(** ** Reading and updating the array *)

Definition upd s (i : nat) (b : buf) : bst := Bst (<[i := b]> (bufs s)) (disk s) (writes s) (mypid s).

Lemma wp_getb i b s Q : bufs s !! i = Some b -> Q b s -> wp (getb i) s Q.
Proof. unfold wp, getb. by intros ->. Qed.

Lemma wp_setb i f b s Q : bufs s !! i = Some b -> Q tt (upd s i (f b)) -> wp (setb i f) s Q.
Proof. unfold wp, setb. by intros ->. Qed.

Lemma lookup_upd_eq s i b b' : bufs s !! i = Some b' -> bufs (upd s i b) !! i = Some b.
Proof. intros H. simpl. apply list_lookup_insert_eq. by eapply lookup_lt_Some. Qed.

Lemma lookup_upd_ne s i j b : i <> j -> bufs (upd s i b) !! j = bufs s !! j.
Proof. intros H. simpl. by apply list_lookup_insert_ne. Qed.

Lemma total_upd s i b b' j :
  bufs s !! i = Some b' -> bufs (upd s i b) !!! j = if decide (j = i) then b else bufs s !!! j.
Proof.
  intros H. rewrite !list_lookup_total_alt. destruct (decide (j = i)) as [->|Hne].
  - by rewrite (lookup_upd_eq _ _ _ _ H).
  - by rewrite lookup_upd_ne.
Qed.

Lemma lookup_total_of s i b : bufs s !! i = Some b -> bufs s !!! i = b.
Proof. apply list_lookup_total_correct. Qed.

(** ** Searching *)

(** The first buffer of [l] that passes the test. *)
Fixpoint first bs (test : buf -> bool) (l : list nat) : option nat :=
  match l with
  | [] => None
  | x :: l' => if test (bs !!! x) then Some x else first bs test l'
  end.

(** [step] leads from each node of [l] to the next, and from the last to the head. *)
Fixpoint follows bs (step : buf -> nat) (l : list nat) : Prop :=
  match l with
  | [] => True
  | x :: l' => step (bs !!! x) = hd head l' /\ follows bs step l'
  end.

Lemma bsearch_eq step test l fuel s :
  length (bufs s) = S nbuf -> (forall x, x ∈ l -> (x < nbuf)%nat) -> (length l <= fuel)%nat ->
  follows (bufs s) step l ->
  bsearch fuel step test (hd head l) s = Ret (first (bufs s) test l, s).
Proof.
  intros Hlen Hin Hfuel Hf. revert fuel Hfuel. induction l as [|x l IH]; intros fuel Hfuel; cbn [hd first].
  - by destruct fuel; cbn [bsearch]; rewrite Nat.eqb_refl.
  - assert (Hx : (x < nbuf)%nat) by (apply Hin; by left).
    destruct fuel as [|fuel]; [simpl in Hfuel; lia|]. cbn [bsearch].
    rewrite (proj2 (Nat.eqb_neq x head)) by (unfold head; lia).
    destruct (lookup_lt_is_Some_2 (bufs s) x) as [b Hb]; [lia|].
    erewrite bind_ret_eq by (unfold getb; by rewrite Hb). rewrite (lookup_total_of _ _ _ Hb).
    destruct (test b); [done|]. destruct Hf as [Hs Hf]. rewrite (lookup_total_of _ _ _ Hb) in Hs. rewrite Hs.
    apply IH; [|done|simpl in Hfuel; lia]. intros y Hy. apply Hin. by right.
Qed.

Lemma first_Some bs test l i : first bs test l = Some i ->
  exists l1 l2, l = l1 ++ i :: l2 /\ test (bs !!! i) = true /\ forall x, x ∈ l1 -> test (bs !!! x) = false.
Proof.
  induction l as [|x l IH]; [done|]. cbn [first]. destruct (test (bs !!! x)) eqn:E.
  - intros [= ->]. exists [], l. split; [done|]. split; [done|]. by intros y ?%not_elem_of_nil.
  - intros H. destruct (IH H) as (l1 & l2 & -> & Ht & Hn). exists (x :: l1), l2. split; [done|]. split; [done|].
    intros y [->|Hy]%elem_of_cons; auto.
Qed.

Lemma first_None bs test l : first bs test l = None -> forall x, x ∈ l -> test (bs !!! x) = false.
Proof.
  induction l as [|x l IH]; [by intros _ y ?%not_elem_of_nil|]. cbn [first]. destruct (test (bs !!! x)) eqn:E; [done|].
  intros H y [->|Hy]%elem_of_cons; auto.
Qed.

Lemma path_follows_next bs x l : path bs (x :: l ++ [head]) -> nxt bs x = hd head l /\ follows bs next l.
Proof.
  revert x. induction l as [|y l IH]; intros x; cbn [app]; rewrite path_cons; intros (H1 & H2 & H3); [done|].
  split; [done|]. by apply IH.
Qed.

Lemma path_follows_prev bs l y : path bs (head :: l ++ [y]) -> prv bs y = hd head (reverse l) /\ follows bs prev (reverse l).
Proof.
  revert y. induction l as [|x l IH] using rev_ind; intros y H.
  - destruct H as (_ & H & _). done.
  - rewrite <- app_assoc in H. cbn [app] in H. change (head :: l ++ x :: [y]) with ((head :: l) ++ x :: [y]) in H.
    apply path_split in H as [H1 (_ & H2 & _)]. destruct (IH x H1) as [H3 H4].
    rewrite reverse_app. cbn [reverse rev_append app hd follows]. by rewrite H2.
Qed.

(** ** Moving a buffer to the front *)

Lemma path_drop_links bs bs' l :
  (forall x, x ∈ l -> nxt bs' x = nxt bs x /\ prv bs' x = prv bs x) -> path bs l -> path bs' l.
Proof.
  intros H. apply path_ext. intros x l1 y l2 ->. split; apply H; rewrite elem_of_app, !elem_of_cons; tauto.
Qed.

Lemma consecutive_last (L : list nat) x y R p :
  NoDup (L ++ x :: y :: R) -> last (L ++ x :: y :: R) = Some p -> x <> p.
Proof.
  intros Hnd Hl ->. rewrite last_app_cons in Hl.
  apply NoDup_app in Hnd as (_ & _ & [Hn _]%NoDup_cons). apply Hn.
  destruct (last (y :: R)) as [z|] eqn:E; [|by apply last_None in E].
  rewrite last_cons, E in Hl. simplify_eq. by eapply last_Some_elem_of.
Qed.

(** Taking [i] out of the list. *)
Lemma unlink_path bs bs' l1 i l2 p n :
  path bs (head :: l1 ++ i :: l2 ++ [head]) -> NoDup (head :: l1 ++ i :: l2) ->
  prv bs i = p -> nxt bs i = n ->
  (forall x, nxt bs' x = if decide (x = p) then n else nxt bs x) ->
  (forall x, prv bs' x = if decide (x = n) then p else prv bs x) ->
  path bs' (head :: (l1 ++ l2) ++ [head]).
Proof.
  intros Hp Hnd Hpi Hni Hn Hv.
  change (head :: l1 ++ i :: l2 ++ [head]) with ((head :: l1) ++ i :: l2 ++ [head]) in Hp.
  apply path_split in Hp as [Hp1 Hp2].
  assert (Hlast : last (head :: l1) = Some p /\ path bs (head :: l1)).
  { destruct (exists_last (l := head :: l1)) as (A & q & E); [done|]. rewrite E in Hp1 |- *.
    rewrite <- app_assoc in Hp1. apply path_split in Hp1 as [Hp1 (_ & H & _)]. rewrite last_snoc. split; [congruence|done]. }
  destruct Hlast as [Hlast Hpa].
  assert (Hhd : exists B, l2 ++ [head] = n :: B).
  { destruct (l2 ++ [head]) as [|m B] eqn:E; [by destruct l2|]. destruct Hp2 as (H & _). exists B. congruence. }
  destruct Hhd as [B HB]. rewrite HB in Hp2. destruct Hp2 as (_ & _ & Hpb).
  assert (Hndl : NoDup (head :: l1)) by nodup_from Hnd.
  assert (Hndr : NoDup (l2 ++ [head])) by nodup_from Hnd.
  assert (Hpn : p ∉ l2).
  { apply last_Some_elem_of in Hlast. assert (Hd : NoDup ((head :: l1) ++ l2)) by nodup_from Hnd.
    apply NoDup_app in Hd as (_ & Hd & _). by apply Hd. }
  assert (Hnn : n ∉ l1).
  { assert (Hd : NoDup (l1 ++ (l2 ++ [head]))) by nodup_from Hnd. apply NoDup_app in Hd as (_ & Hd & _).
    intros Hin. apply (Hd n Hin). rewrite HB. by left. }
  assert (HA : path bs' (head :: l1)).
  { apply (path_ext bs); [|done]. intros x L y R E. rewrite Hn, Hv. rewrite E in Hndl, Hlast.
    rewrite decide_False by (by eapply consecutive_last). rewrite decide_False; [done|]. intros ->. apply Hnn.
    destruct L as [|a L]; injection E as _ E; rewrite E; in_list. }
  assert (HBp : path bs' (n :: B)).
  { apply (path_ext bs); [|done]. intros x L y R E. rewrite Hn, Hv.
    rewrite HB, E in Hndr. rewrite decide_False; [rewrite decide_False; [done|]|].
    - intros ->. destruct L as [|a L]; injection E as E1 _; apply NoDup_cons in Hndr as [Hx _];
        apply Hx; rewrite <- E1; in_list.
    - intros ->. assert (Hlp : last (l2 ++ [head]) = Some head) by apply last_snoc. rewrite HB, E in Hlp.
      assert (p <> head) by (by eapply consecutive_last).
      assert (Hin : p ∈ l2 ++ [head]) by (rewrite HB, E; in_list).
      apply elem_of_app in Hin as [|Hin]; [done|]. by apply list_elem_of_singleton in Hin. }
  rewrite <- app_assoc, HB. destruct (exists_last (l := head :: l1)) as (A & q & E); [done|].
  rewrite E, last_snoc in Hlast. assert (q = p) as -> by congruence.
  change (head :: l1 ++ n :: B) with ((head :: l1) ++ n :: B). rewrite E, <- app_assoc. cbn [app].
  apply path_split. rewrite E in HA. split; [done|]. rewrite path_cons, Hn, Hv, !decide_True by done. done.
Qed.

(** Putting [i] in at the front. *)
Lemma front_path bs bs' i l :
  path bs (head :: l ++ [head]) -> NoDup (i :: l ++ [head]) ->
  (forall x, nxt bs' x = if decide (x = head) then i else if decide (x = i) then nxt bs head else nxt bs x) ->
  (forall x, prv bs' x = if decide (x = nxt bs head) then i else if decide (x = i) then head else prv bs x) ->
  path bs' (head :: i :: l ++ [head]).
Proof.
  intros Hp Hnd Hn Hv. destruct (l ++ [head]) as [|n B] eqn:HB; [by destruct l|].
  destruct Hp as (Hnh & Hph & Hpb). rewrite Hnh in *.
  assert (Hi : i <> head /\ i <> n).
  { apply NoDup_cons in Hnd as [Hx _]. split; intros ->; apply Hx; [|by left].
    rewrite <- HB. in_list. }
  destruct Hi as [Hih Hin]. rewrite !path_cons. rewrite !Hn, !Hv.
  rewrite (decide_True _ _ (P := head = head)), (decide_True _ _ (P := n = n)) by done.
  rewrite (decide_False _ _ (P := i = head)), (decide_False _ _ (P := i = n)) by done.
  rewrite !(decide_True _ _ (P := i = i)) by done. do 4 (split; [done|]).
  apply (path_ext bs); [|done]. intros x L y R E. rewrite Hn, Hv. rewrite E in Hnd.
  apply NoDup_cons in Hnd as [Hx Hnd].
  assert (x <> head /\ y <> n).
  { split.
    - intros ->. assert (Hlp : last (l ++ [head]) = Some head) by apply last_snoc. rewrite HB, E in Hlp.
      by eapply consecutive_last.
    - intros ->. destruct L as [|a L]; injection E as E1 _; apply NoDup_cons in Hnd as [Hz _]; apply Hz;
        rewrite <- E1; in_list. }
  rewrite elem_of_app, !elem_of_cons in Hx. rewrite !decide_False; [done|..]; intuition congruence.
Qed.

(** ** The invariant *)

(** A buffer is unused since boot, or caches a block of the disk; a locked
    buffer is valid and referenced; an unreferenced buffer is clean. *)
Definition buf_ok (d : Z -> block) (pid : Z) (b : buf) : Prop :=
  0 <= refcnt b <= 2 ^ 31 /\
  (bdev b = 0 /\ refcnt b = 0 /\ lock b = None /\ valid b = false \/
   bdev b = ROOTDEV /\ (lock b = None \/ lock b = Some pid /\ valid b = true /\ 0 < refcnt b)) /\
  (0 < refcnt b -> valid b = true) /\
  (refcnt b = 0 -> valid b = true -> data b = d (blockno b)).

Definition caches (b : buf) (bno : Z) : Prop := bdev b = ROOTDEV /\ blockno b = bno.
#[global] Instance caches_dec b bno : Decision (caches b bno) := _.

Record cache_ok s : Prop := {
  ck_len : length (bufs s) = S nbuf;
  ck_list : exists ord, lru (bufs s) ord;
  ck_uniq : forall i j b b', (i < nbuf)%nat -> (j < nbuf)%nat -> bufs s !! i = Some b -> bufs s !! j = Some b' ->
              caches b (blockno b') -> caches b' (blockno b') -> i = j;
  ck_buf : forall i b, (i < nbuf)%nat -> bufs s !! i = Some b -> buf_ok (disk s) (mypid s) b;
}.

(** The buffer that caches a block. *)
Definition find_buf s (bno : Z) : option (nat * buf) :=
  list_find (fun b => caches b bno) (take nbuf (bufs s)).

Definition v_cont s (bno : Z) : block :=
  match find_buf s bno with Some (_, b) => if valid b then data b else disk s bno | None => disk s bno end.
Definition v_refs s (bno : Z) : Z := match find_buf s bno with Some (_, b) => refcnt b | None => 0 end.
Definition v_held s (bno : Z) : option nat :=
  match find_buf s bno with Some (i, b) => match lock b with Some _ => Some i | None => None end | None => None end.
Definition v_used s : list Z := blockno <$> filter (fun b => 0 < refcnt b) (take nbuf (bufs s)).

Lemma find_buf_Some s bno i b :
  cache_ok s -> find_buf s bno = Some (i, b) <-> (i < nbuf)%nat /\ bufs s !! i = Some b /\ caches b bno.
Proof.
  intros Hok. unfold find_buf. rewrite list_find_Some. split.
  - intros (Hl & Hc & _). apply lookup_take_Some in Hl as [? ?]. done.
  - intros (Hi & Hl & Hc). split; [by apply lookup_take_Some|]. split; [done|].
    intros j b' Hj Hlt Hc'. apply lookup_take_Some in Hj as [Hj Hjn].
    assert (j = i); [|lia]. destruct Hc as [Hd Hb]. apply (ck_uniq _ Hok j i b' b); try done.
    by rewrite Hb.
Qed.

Lemma find_buf_None s bno :
  find_buf s bno = None <-> forall i b, (i < nbuf)%nat -> bufs s !! i = Some b -> ~ caches b bno.
Proof.
  unfold find_buf. rewrite list_find_None, Forall_lookup. split.
  - intros H i b Hi Hb. apply (H i). by apply lookup_take_Some.
  - intros H i b [Hb Hi]%lookup_take_Some. eauto.
Qed.

(** ** Updates that keep the links and the identity of a buffer *)

Lemma find_buf_upd s i b b' bno :
  cache_ok s -> cache_ok (upd s i b') -> (i < nbuf)%nat -> bufs s !! i = Some b ->
  bdev b' = bdev b -> blockno b' = blockno b ->
  find_buf (upd s i b') bno =
  match find_buf s bno with Some (j, c) => Some (j, if decide (j = i) then b' else c) | None => None end.
Proof.
  intros Hok Hok' Hi Hb Hd Hn. destruct (find_buf s bno) as [[j c]|] eqn:E.
  - apply find_buf_Some in E as (Hj & Hjb & Hc); [|done]. apply find_buf_Some; [done|]. split; [done|].
    destruct (decide (j = i)) as [->|Hne].
    + split; [by eapply lookup_upd_eq|]. unfold caches. rewrite Hd, Hn. by simplify_eq.
    + by rewrite lookup_upd_ne.
  - rewrite find_buf_None in E. apply find_buf_None. intros j c Hj Hjb. destruct (decide (j = i)) as [->|Hne].
    + rewrite (lookup_upd_eq _ _ _ _ Hb) in Hjb. simplify_eq. unfold caches. rewrite Hd, Hn. by apply (E i).
    + rewrite lookup_upd_ne in Hjb by done. eauto.
Qed.

Lemma lru_same_links bs bs' ord :
  (forall x, nxt bs' x = nxt bs x /\ prv bs' x = prv bs x) -> lru bs ord -> lru bs' ord.
Proof. intros H [H1 H2]. split; [done|]. by eapply path_same_links. Qed.

Lemma cache_ok_upd s i b b' :
  cache_ok s -> (i < nbuf)%nat -> bufs s !! i = Some b ->
  bdev b' = bdev b -> blockno b' = blockno b -> prev b' = prev b -> next b' = next b ->
  buf_ok (disk s) (mypid s) b' -> cache_ok (upd s i b').
Proof.
  intros [Hlen [ord Hord] Huniq Hbuf] Hi Hb Hd Hn Hp Hx Hb'. split.
  - simpl. by rewrite length_insert.
  - exists ord. eapply lru_same_links; [|done]. intros x. unfold nxt, prv. rewrite (total_upd _ _ _ _ x Hb).
    destruct (decide (x = i)) as [->|]; [|done]. by rewrite (lookup_total_of _ _ _ Hb).
  - intros j k c c' Hj Hk Hjc Hkc Hc Hc'.
    assert (Hid : forall m e, (m < nbuf)%nat -> bufs (upd s i b') !! m = Some e ->
      exists e', bufs s !! m = Some e' /\ bdev e' = bdev e /\ blockno e' = blockno e).
    { intros m e Hm He. destruct (decide (m = i)) as [->|Hne].
      - rewrite (lookup_upd_eq _ _ _ _ Hb) in He. simplify_eq. exists b. done.
      - rewrite lookup_upd_ne in He by done. by exists e. }
    destruct (Hid j c Hj Hjc) as (d & Hjd & Hd1 & Hd2). destruct (Hid k c' Hk Hkc) as (d' & Hkd & Hd3 & Hd4).
    unfold caches in *. rewrite <- Hd1, <- Hd2, <- Hd3, <- Hd4 in *. by apply (Huniq j k d d').
  - intros j c Hj Hjc. simpl. destruct (decide (j = i)) as [->|Hne].
    + rewrite (lookup_upd_eq _ _ _ _ Hb) in Hjc. by simplify_eq.
    + rewrite lookup_upd_ne in Hjc by done. by apply (Hbuf j).
Qed.

(** What the view of a block is when buffer [i] caches it. *)
Lemma view_at s i b bno :
  cache_ok s -> (i < nbuf)%nat -> bufs s !! i = Some b -> caches b bno ->
  v_refs s bno = refcnt b /\ v_cont s bno = (if valid b then data b else disk s bno) /\
  v_held s bno = (if lock b then Some i else None).
Proof.
  intros Hok Hi Hb Hc. assert (E : find_buf s bno = Some (i, b)) by (by apply find_buf_Some).
  unfold v_refs, v_cont, v_held. by rewrite E.
Qed.

Lemma view_upd s i b b' bno :
  cache_ok s -> cache_ok (upd s i b') -> (i < nbuf)%nat -> bufs s !! i = Some b -> caches b bno ->
  bdev b' = bdev b -> blockno b' = blockno b ->
  (forall x, v_refs (upd s i b') x = fupd (v_refs s) bno (refcnt b') x) /\
  (forall x, v_cont (upd s i b') x = fupd (v_cont s) bno (if valid b' then data b' else disk s bno) x) /\
  (forall x, v_held (upd s i b') x = fupd (v_held s) bno (if lock b' then Some i else None) x).
Proof.
  intros Hok Hok' Hi Hb Hc Hd Hn.
  assert (E : find_buf s bno = Some (i, b)) by (by apply find_buf_Some).
  assert (Hx : forall x, find_buf (upd s i b') x = if x =? bno then Some (i, b') else find_buf s x).
  { intros x. rewrite (find_buf_upd _ _ _ _ _ Hok Hok' Hi Hb Hd Hn).
    destruct (Z.eqb_spec x bno) as [->|Hne]; [by rewrite E, decide_True|].
    destruct (find_buf s x) as [[j c]|] eqn:Ex; [|done]. apply find_buf_Some in Ex as (_ & Hj & [_ Hcx]); [|done].
    rewrite decide_False; [done|]. intros ->. simplify_eq. destruct Hc. congruence. }
  unfold v_refs, v_cont, v_held, fupd. split; [|split]; intros x; rewrite Hx; by destruct (Z.eqb_spec x bno) as [->|].
Qed.

(** ** Changes of the links alone *)

Definition same_core (b b' : buf) : Prop :=
  valid b' = valid b /\ bdev b' = bdev b /\ blockno b' = blockno b /\ lock b' = lock b /\
  refcnt b' = refcnt b /\ data b' = data b.

Definition relinked s s' : Prop :=
  length (bufs s') = length (bufs s) /\ disk s' = disk s /\ writes s' = writes s /\ mypid s' = mypid s /\
  forall i b, bufs s !! i = Some b -> exists b', bufs s' !! i = Some b' /\ same_core b b'.

Lemma relinked_back s s' i b' :
  relinked s s' -> bufs s' !! i = Some b' -> exists b, bufs s !! i = Some b /\ same_core b b'.
Proof.
  intros (Hl & _ & _ & _ & H) Hb'. destruct (lookup_lt_is_Some_2 (bufs s) i) as [b Hb].
  { rewrite <- Hl. by eapply lookup_lt_Some. }
  destruct (H i b Hb) as (b'' & Hb'' & Hc). simplify_eq. by exists b.
Qed.

Lemma relinked_ok s s' ord : cache_ok s -> relinked s s' -> lru (bufs s') ord -> cache_ok s'.
Proof.
  intros [Hlen _ Huniq Hbuf] Hr Hord. pose proof Hr as (Hl & Hd & _ & Hpid & _). split.
  - by rewrite Hl.
  - by exists ord.
  - intros i j b b' Hi Hj Hb Hb' Hc Hc'.
    destruct (relinked_back _ _ _ _ Hr Hb) as (c & Hc1 & _ & Hcd & Hcb & _).
    destruct (relinked_back _ _ _ _ Hr Hb') as (c' & Hc2 & _ & Hcd' & Hcb' & _).
    unfold caches in *. apply (Huniq i j c c'); congruence || by (split; congruence).
  - intros i b Hi Hb. destruct (relinked_back _ _ _ _ Hr Hb) as (c & Hc1 & Hv & Hcd & Hcb & Hlk & Hrf & Hda).
    pose proof (Hbuf i c Hi Hc1) as Hok. unfold buf_ok in *. by rewrite Hd, Hpid, Hv, Hcd, Hcb, Hlk, Hrf, Hda.
Qed.

Lemma relinked_view s s' :
  cache_ok s -> cache_ok s' -> relinked s s' ->
  (forall x, v_refs s' x = v_refs s x) /\ (forall x, v_cont s' x = v_cont s x) /\ (forall x, v_held s' x = v_held s x).
Proof.
  intros Hok Hok' Hr. pose proof Hr as (Hl & Hd & _ & _ & Hf).
  assert (H : forall x, match find_buf s x, find_buf s' x with
                        | Some (i, b), Some (j, b') => i = j /\ same_core b b'
                        | None, None => True | _, _ => False end).
  { intros x. destruct (find_buf s x) as [[i b]|] eqn:E.
    - apply find_buf_Some in E as (Hi & Hb & Hc); [|done]. destruct (Hf i b Hb) as (b' & Hb' & Hsc).
      assert (find_buf s' x = Some (i, b')) as ->; [|done]. apply find_buf_Some; [done|]. split; [done|].
      split; [done|]. destruct Hsc as (_ & H1 & H2 & _), Hc. split; congruence.
    - destruct (find_buf s' x) as [[j b']|] eqn:E'; [|done]. apply find_buf_Some in E' as (Hj & Hb' & Hc); [|done].
      destruct (relinked_back _ _ _ _ Hr Hb') as (b & Hb & _ & H1 & H2 & _).
      rewrite find_buf_None in E. apply (E j b Hj Hb). destruct Hc. split; congruence. }
  unfold v_refs, v_cont, v_held. split; [|split]; intros x; specialize (H x);
    destruct (find_buf s x) as [[i b]|], (find_buf s' x) as [[j b']|]; try done;
    destruct H as [-> (H1 & H2 & H3 & H4 & H5 & H6)]; rewrite ?H1, ?H4, ?H5, ?H6, ?Hd; done.
Qed.

(** ** bget *)

Lemma lru_head s ord :
  cache_ok s -> lru (bufs s) ord ->
  exists h, bufs s !! head = Some h /\ next h = hd head ord /\ prev h = hd head (reverse ord) /\
    follows (bufs s) next ord /\ follows (bufs s) prev (reverse ord) /\ (forall x, x ∈ ord -> (x < nbuf)%nat) /\
    length ord = nbuf.
Proof.
  intros [Hlen _ _ _] [Hperm Hpath]. destruct (lookup_lt_is_Some_2 (bufs s) head) as [h Hh]; [unfold head; lia|].
  exists h. split; [done|]. destruct (path_follows_next _ _ _ Hpath) as [H1 H2].
  destruct (path_follows_prev _ _ _ Hpath) as [H3 H4]. unfold nxt, prv in H1, H3.
  rewrite (lookup_total_of _ _ _ Hh) in H1, H3. do 4 (split; [done|]). split.
  - intros x. rewrite Hperm, elem_of_seq. lia.
  - apply Permutation_length in Hperm. by rewrite length_seq in Hperm.
Qed.

Definition hit (dev bno : Z) (b : buf) : bool := (bdev b =? dev) && (blockno b =? bno).

Lemma hit_caches b bno : hit ROOTDEV bno b = true <-> caches b bno.
Proof. unfold hit, caches. rewrite andb_true_iff, !Z.eqb_eq. done. Qed.

Lemma upd_upd s i b1 b2 : upd (upd s i b1) i b2 = upd s i b2.
Proof. unfold upd. simpl. by rewrite list_insert_insert_eq. Qed.

(** A step of [setb] on a buffer that was just set. *)
Lemma wp_setb_upd i f b b0 s Q :
  bufs s !! i = Some b0 -> Q tt (upd s i (f b)) -> wp (setb i f) (upd s i b) Q.
Proof. intros Hb HQ. eapply wp_setb; [by eapply lookup_upd_eq|]. by rewrite upd_upd. Qed.

Lemma wp_acquire_upd i b b0 s Q :
  bufs s !! i = Some b0 -> lock b = None -> Q tt (upd s i (set_lock (Some (mypid s)) b)) ->
  wp (acquiresleep i) (upd s i b) Q.
Proof.
  intros Hb Hl HQ. unfold acquiresleep. wp_step. eapply wp_getb; [by eapply lookup_upd_eq|]. rewrite Hl.
  wp_step. wp_step. by eapply wp_setb_upd.
Qed.

(** The end of [bread], once the buffer is locked. *)
Lemma wp_bread_fill i b b0 s Q :
  bufs s !! i = Some b0 ->
  Q i (upd s i (if valid b then b else set_valid true (set_data (disk s (blockno b)) b))) ->
  wp (c <- getb i;;
      (if negb (valid c) then virtio_disk_rw i false;; setb i (set_valid true) else ret tt);;
      ret i) (upd s i b) Q.
Proof.
  intros Hb HQ. wp_step. eapply wp_getb; [by eapply lookup_upd_eq|]. destruct (valid b) eqn:E; cbn [negb].
  - wp_step. wp_step. by wp_step.
  - wp_step. wp_step. unfold virtio_disk_rw. wp_step. eapply wp_getb; [by eapply lookup_upd_eq|]. wp_step. wp_step.
    eapply wp_setb_upd; [done|]. eapply wp_setb_upd; [done|]. wp_step. done.
Qed.

(** Reusing buffer [i], unreferenced, for a block that is not cached. *)
Lemma recycle_ok s i b bno :
  cache_ok s -> (i < nbuf)%nat -> bufs s !! i = Some b -> refcnt b = 0 -> find_buf s bno = None ->
  let b' := Buf true ROOTDEV bno (Some (mypid s)) 1 (prev b) (next b) (disk s bno) in
  cache_ok (upd s i b') /\
  (forall x, v_refs (upd s i b') x = fupd (v_refs s) bno 1 x) /\
  (forall x, v_cont (upd s i b') x = v_cont s x) /\
  (forall x, v_held (upd s i b') x = fupd (v_held s) bno (Some i) x).
Proof.
  intros Hok Hi Hb Hr Hnone b'. pose proof Hok as [Hlen [ord Hord] Huniq Hbuf].
  assert (Hn : forall j c, (j < nbuf)%nat -> bufs s !! j = Some c -> ~ caches c bno) by (by apply find_buf_None).
  assert (Hok' : cache_ok (upd s i b')).
  { split.
    - simpl. by rewrite length_insert.
    - exists ord. eapply lru_same_links; [|done]. intros x. unfold nxt, prv. rewrite (total_upd _ _ _ _ x Hb).
      destruct (decide (x = i)) as [->|]; [|done]. by rewrite (lookup_total_of _ _ _ Hb).
    - intros j k c c' Hj Hk Hjc Hkc Hc Hc'. destruct (decide (j = i)) as [->|Hji], (decide (k = i)) as [->|Hki]; [done|..].
      + rewrite (lookup_upd_eq _ _ _ _ Hb) in Hjc. rewrite lookup_upd_ne in Hkc by done. simplify_eq.
        destruct Hc as [_ Hc]. simpl in Hc. rewrite <- Hc in Hc'. by destruct (Hn k c' Hk Hkc).
      + rewrite (lookup_upd_eq _ _ _ _ Hb) in Hkc. rewrite lookup_upd_ne in Hjc by done. simplify_eq.
        by destruct (Hn j c Hj Hjc).
      + rewrite lookup_upd_ne in Hjc, Hkc by done. by apply (Huniq j k c c').
    - intros j c Hj Hjc. simpl. destruct (decide (j = i)) as [->|Hne].
      + rewrite (lookup_upd_eq _ _ _ _ Hb) in Hjc. simplify_eq. split; [simpl; lia|]. split; [|by split].
        right. split; [done|]. right. simpl. split; [done|]. split; [done|lia].
      + rewrite lookup_upd_ne in Hjc by done. by apply (Hbuf j). }
  split; [done|].
  assert (Hf : forall x, find_buf (upd s i b') x = if x =? bno then Some (i, b') else
    match find_buf s x with Some (j, c) => if decide (j = i) then None else Some (j, c) | None => None end).
  { intros x. destruct (Z.eqb_spec x bno) as [->|Hx].
    - apply find_buf_Some; [done|]. split; [done|]. split; [by eapply lookup_upd_eq|done].
    - destruct (find_buf s x) as [[j c]|] eqn:E.
      + apply find_buf_Some in E as (Hj & Hjc & Hcx); [|done]. destruct (decide (j = i)) as [->|Hne].
        * apply find_buf_None. intros k e Hk Hke [He1 He2]. destruct (decide (k = i)) as [->|Hki].
          -- rewrite (lookup_upd_eq _ _ _ _ Hb) in Hke. by simplify_eq.
          -- rewrite lookup_upd_ne in Hke by done. apply Hki. destruct Hcx as [Hc1 Hc2].
             apply (Huniq k i e c); try done; split; congruence.
        * apply find_buf_Some; [done|]. split; [done|]. by rewrite lookup_upd_ne.
      + apply find_buf_None. rewrite find_buf_None in E. intros k e Hk Hke He. destruct (decide (k = i)) as [->|Hki].
        * rewrite (lookup_upd_eq _ _ _ _ Hb) in Hke. simplify_eq. destruct He as [_ He]. simpl in He. congruence.
        * rewrite lookup_upd_ne in Hke by done. by apply (E k e). }
  assert (Hold : forall x c, find_buf s x = Some (i, c) -> refcnt c = 0 /\ lock c = None /\
    (if valid c then data c else disk s x) = disk s x).
  { intros x c Hx. apply find_buf_Some in Hx as (_ & Hc & [_ Hcx]); [|done]. simplify_eq.
    destruct (Hbuf i _ Hi Hb) as (_ & Hcase & _ & Hclean). split; [done|]. split.
    - destruct Hcase as [(_ & _ & ? & _)|(_ & [?|(_ & _ & ?)])]; [done|done|lia].
    - destruct (valid _); [|done]. by apply Hclean. }
  unfold v_refs, v_cont, v_held, fupd. split; [|split]; intros x; rewrite Hf; destruct (Z.eqb_spec x bno) as [->|Hx];
    [done| |by rewrite Hnone| |done|]; (destruct (find_buf s x) as [[j c]|] eqn:E; [|done]);
    (destruct (decide (j = i)) as [->|]; [|done]); destruct (Hold x c E) as (H1 & H2 & H3); rewrite ?H1, ?H2, ?H3; done.
Qed.

(** Some buffer is unreferenced when fewer than [nbuf] blocks are in use. *)
Lemma used_all s :
  cache_ok s -> (forall i, (i < nbuf)%nat -> (refcnt (bufs s !!! i) =? 0) = false) -> length (v_used s) = nbuf.
Proof.
  intros [Hlen _ _ Hbuf] H. unfold v_used. rewrite length_fmap.
  assert (Hall : Forall (fun b => 0 < refcnt b) (take nbuf (bufs s))).
  { apply Forall_lookup. intros i b [Hb Hi]%lookup_take_Some. specialize (H i Hi).
    rewrite (lookup_total_of _ _ _ Hb) in H. bool_prop. destruct (Hbuf i b Hi Hb) as [? _]. lia. }
  revert Hall. generalize (take nbuf (bufs s)) (length_take_le (bufs s) nbuf ltac:(lia)). intros l <- Hall.
  induction Hall as [|b l Hb Hl IH]; [done|]. rewrite filter_cons_True by done. simpl. by rewrite IH.
Qed.

(** A hit: the buffer gets one more reference and the lock. *)
Lemma hit_ok s i b bno :
  cache_ok s -> (i < nbuf)%nat -> bufs s !! i = Some b -> caches b bno -> lock b = None -> refcnt b < 2 ^ 31 ->
  let b1 := set_lock (Some (mypid s)) (set_refcnt (refcnt b + 1) b) in
  let b' := if valid b1 then b1 else set_valid true (set_data (disk s (blockno b1)) b1) in
  cache_ok (upd s i b') /\
  (forall x, v_refs (upd s i b') x = fupd (v_refs s) bno (v_refs s bno + 1) x) /\
  (forall x, v_cont (upd s i b') x = v_cont s x) /\
  (forall x, v_held (upd s i b') x = fupd (v_held s) bno (Some i) x).
Proof.
  intros Hok Hi Hb Hc Hl Hr b1 b'. destruct (view_at s i b bno Hok Hi Hb Hc) as (Hvr & Hvc & Hvh).
  assert (Hb' : valid b' = true /\ bdev b' = bdev b /\ blockno b' = blockno b /\ prev b' = prev b /\ next b' = next b /\
    refcnt b' = refcnt b + 1 /\ lock b' = Some (mypid s) /\ data b' = v_cont s bno).
  { rewrite Hvc. destruct Hc as [_ <-]. unfold b', b1. simpl. by destruct (valid b) eqn:E. }
  destruct Hb' as (Hv & Hd & Hn & Hp & Hx & Hrf & Hlk & Hda).
  destruct (ck_buf _ Hok i b Hi Hb) as ((Hr0 & _) & _).
  assert (Hok' : cache_ok (upd s i b')).
  { eapply cache_ok_upd; try done. split; [lia|]. split; [|split; [done|lia]].
    right. destruct Hc as [Hc _]. split; [congruence|]. right. split; [done|]. split; [done|lia]. }
  destruct (view_upd s i b b' bno Hok Hok' Hi Hb Hc Hd Hn) as (H1 & H2 & H3).
  split; [done|]. split; [|split]; intros x.
  - by rewrite H1, Hrf, Hvr.
  - rewrite H2, Hv, Hda. unfold fupd. by destruct (Z.eqb_spec x bno) as [->|].
  - by rewrite H3, Hlk.
Qed.

Lemma wp_bread s bno :
  cache_ok s -> v_held s bno = None -> v_refs s bno < 2 ^ 31 ->
  0 < v_refs s bno \/ (length (v_used s) < nbuf)%nat ->
  wp (bread ROOTDEV bno) s (fun h s' => cache_ok s' /\ disk s' = disk s /\ writes s' = writes s /\
    (forall x, v_cont s' x = v_cont s x) /\ (forall x, v_refs s' x = fupd (v_refs s) bno (v_refs s bno + 1) x) /\
    (forall x, v_held s' x = fupd (v_held s) bno (Some h) x)).
Proof.
  intros Hok Hheld Href Hroom. pose proof Hok as [Hlen [ord Hord] _ Hbuf].
  destruct (lru_head s ord Hok Hord) as (h & Hh & Hnx & Hpv & Hfn & Hfp & Hin & Hol).
  unfold bread, bget. wp_step. wp_step. eapply wp_getb; [exact Hh|]. rewrite Hnx. wp_step.
  eapply wp_eq; [apply bsearch_eq; [done|done|lia|done]|].
  destruct (first (bufs s) _ ord) as [i|] eqn:E.
  - apply first_Some in E as (l1 & l2 & Heq & Ht & _). apply hit_caches in Ht.
    assert (Hi : (i < nbuf)%nat) by (apply Hin; rewrite Heq; in_list).
    destruct (lookup_lt_is_Some_2 (bufs s) i) as [b Hb]; [lia|]. rewrite (lookup_total_of _ _ _ Hb) in Ht.
    destruct (view_at s i b bno Hok Hi Hb Ht) as (Hvr & _ & Hvh).
    assert (Hl : lock b = None) by (rewrite Hvh in Hheld; by destruct (lock b)).
    destruct (Hbuf i b Hi Hb) as ((Hr0 & _) & _).
    wp_step. eapply wp_setb; [exact Hb|]. rewrite u32_small by lia.
    wp_step. eapply wp_acquire_upd; [done|done|]. wp_step. eapply wp_bread_fill; [done|].
    destruct (hit_ok s i b bno) as (H1 & H2 & H3 & H4); try done. lia.
  - assert (Hnone : find_buf s bno = None).
    { apply find_buf_None. intros i b Hi Hb Hc. destruct Hord as [Hperm _].
      pose proof (first_None _ _ _ E i) as Hf. rewrite Hperm, elem_of_seq in Hf. specialize (Hf ltac:(lia)).
      rewrite (lookup_total_of _ _ _ Hb) in Hf. apply hit_caches in Hc. unfold hit in Hc. congruence. }
    assert (Hv0 : v_refs s bno = 0) by (unfold v_refs; by rewrite Hnone).
    wp_step. rewrite Hpv. eapply wp_eq; [apply bsearch_eq; [done| |rewrite length_reverse; lia|done]|].
    { intros x. rewrite elem_of_reverse. apply Hin. }
    destruct (first (bufs s) _ (reverse ord)) as [i|] eqn:E2.
    + apply first_Some in E2 as (l1 & l2 & Heq & Ht & _). bool_prop.
      assert (Hi : (i < nbuf)%nat) by (apply Hin, elem_of_reverse; rewrite Heq; in_list).
      destruct (lookup_lt_is_Some_2 (bufs s) i) as [b Hb]; [lia|]. rewrite (lookup_total_of _ _ _ Hb) in Ht.
      destruct (recycle_ok s i b bno) as (H1 & H2 & H3 & H4); try done.
      assert (Hl : lock b = None).
      { destruct (Hbuf i b Hi Hb) as (_ & [(_ & _ & ? & _)|(_ & [?|(_ & _ & ?)])] & _); [done|done|lia]. }
      wp_step. eapply wp_setb; [exact Hb|]. wp_step. eapply wp_acquire_upd; [done|done|]. wp_step.
      eapply wp_bread_fill; [done|]. rewrite Hv0. done.
    + exfalso. pose proof (used_all s Hok) as Hu. rewrite Hv0 in Hroom. destruct Hroom as [|Hroom]; [lia|].
      rewrite Hu in Hroom; [lia|]. intros i Hi. apply (first_None _ _ _ E2). rewrite elem_of_reverse.
      destruct Hord as [Hperm _]. rewrite Hperm. apply elem_of_seq. lia.
Qed.

(** ** The operations on a held buffer *)

Lemma held_buf s bno h :
  cache_ok s -> v_held s bno = Some h ->
  exists b, (h < nbuf)%nat /\ bufs s !! h = Some b /\ caches b bno /\ lock b = Some (mypid s) /\
    valid b = true /\ 0 < refcnt b <= 2 ^ 31 /\ v_refs s bno = refcnt b /\ v_cont s bno = data b.
Proof.
  intros Hok Hh. unfold v_held in Hh. destruct (find_buf s bno) as [[i b]|] eqn:E; [|done].
  destruct (lock b) as [p|] eqn:El; [|done]. simplify_eq.
  apply find_buf_Some in E as (Hi & Hb & Hc); [|done]. exists b.
  destruct (ck_buf _ Hok h b Hi Hb) as (Hr & Hcase & _). destruct Hcase as [(_ & _ & ? & _)|(_ & [?|(Hl & Hv & Hp)])]; [congruence|congruence|].
  destruct (view_at s h b bno Hok Hi Hb Hc) as (Hvr & Hvc & _). rewrite Hv in Hvc.
  split; [done|]. split; [done|]. split; [done|]. split; [congruence|]. split; [done|]. split; [lia|]. done.
Qed.

Lemma wp_holding s h b Q :
  bufs s !! h = Some b -> lock b = Some (mypid s) -> Q true s -> wp (holdingsleep h) s Q.
Proof.
  intros Hb Hl HQ. unfold holdingsleep. wp_step. eapply wp_getb; [exact Hb|]. wp_step. wp_step. wp_step.
  by rewrite Hl, Z.eqb_refl.
Qed.

Lemma wp_set_bdata s bno h d :
  cache_ok s -> v_held s bno = Some h ->
  wp (set_bdata h d) s (fun _ s' => cache_ok s' /\ disk s' = disk s /\ writes s' = writes s /\
    (forall x, v_cont s' x = fupd (v_cont s) bno d x) /\ (forall x, v_refs s' x = v_refs s x) /\
    (forall x, v_held s' x = v_held s x)).
Proof.
  intros Hok Hh. pose proof (held_buf s bno h Hok Hh) as (b & Hi & Hb & Hc & Hl & Hv & Hr & Hvr & Hvc).
  unfold set_bdata. eapply wp_setb; [exact Hb|].
  assert (Hok' : cache_ok (upd s h (set_data d b))).
  { eapply cache_ok_upd; try done. destruct (ck_buf _ Hok h b Hi Hb) as (? & ? & ? & ?).
    split; [done|]. split; [done|]. split; [done|]. simpl. lia. }
  destruct (view_upd s h b (set_data d b) bno Hok Hok' Hi Hb Hc eq_refl eq_refl) as (H1 & H2 & H3).
  split; [done|]. split; [done|]. split; [done|]. split; [|split]; intros x.
  - rewrite H2. simpl. by rewrite Hv.
  - rewrite H1. unfold fupd. destruct (Z.eqb_spec x bno) as [->|]; [|done]. simpl. congruence.
  - rewrite H3. unfold fupd. destruct (Z.eqb_spec x bno) as [->|]; [|done]. simpl. rewrite Hl. congruence.
Qed.

(** Changing the reference count of a held buffer. *)
Lemma refcnt_ok s bno h b r :
  cache_ok s -> v_held s bno = Some h -> bufs s !! h = Some b -> 0 < r <= 2 ^ 31 ->
  cache_ok (upd s h (set_refcnt r b)) /\
  (forall x, v_cont (upd s h (set_refcnt r b)) x = v_cont s x) /\
  (forall x, v_refs (upd s h (set_refcnt r b)) x = fupd (v_refs s) bno r x) /\
  (forall x, v_held (upd s h (set_refcnt r b)) x = v_held s x).
Proof.
  intros Hok Hh Hb Hr. pose proof (held_buf s bno h Hok Hh) as (b' & Hi & Hb' & Hc & Hl & Hv & _ & _ & Hvc).
  assert (b = b') as -> by congruence.
  assert (Hok' : cache_ok (upd s h (set_refcnt r b'))).
  { eapply cache_ok_upd; try done. split; [simpl; lia|]. split; [|split; [done|simpl; lia]].
    right. destruct Hc. split; [done|]. right. simpl. split; [done|]. split; [done|lia]. }
  destruct (view_upd s h b' (set_refcnt r b') bno Hok Hok' Hi Hb' Hc eq_refl eq_refl) as (H1 & H2 & H3).
  split; [done|]. split; [|split]; intros x.
  - rewrite H2. unfold fupd. destruct (Z.eqb_spec x bno) as [->|]; [|done]. simpl. by rewrite Hv.
  - by rewrite H1.
  - rewrite H3. unfold fupd. destruct (Z.eqb_spec x bno) as [->|]; [|done]. simpl. rewrite Hl. congruence.
Qed.

Lemma wp_bpin s bno h :
  cache_ok s -> v_held s bno = Some h -> v_refs s bno < 2 ^ 31 ->
  wp (bpin h) s (fun _ s' => cache_ok s' /\ disk s' = disk s /\ writes s' = writes s /\
    (forall x, v_cont s' x = v_cont s x) /\ (forall x, v_refs s' x = fupd (v_refs s) bno (v_refs s bno + 1) x) /\
    (forall x, v_held s' x = v_held s x)).
Proof.
  intros Hok Hh Hlt. pose proof (held_buf s bno h Hok Hh) as (b & Hi & Hb & Hc & Hl & Hv & Hr & Hvr & Hvc).
  unfold bpin. eapply wp_setb; [exact Hb|]. rewrite u32_small by lia.
  destruct (refcnt_ok s bno h b (refcnt b + 1)) as (H1 & H2 & H3 & H4); try done; [lia|]. by rewrite Hvr.
Qed.

Lemma wp_bunpin s bno h :
  cache_ok s -> v_held s bno = Some h -> 1 < v_refs s bno ->
  wp (bunpin h) s (fun _ s' => cache_ok s' /\ disk s' = disk s /\ writes s' = writes s /\
    (forall x, v_cont s' x = v_cont s x) /\ (forall x, v_refs s' x = fupd (v_refs s) bno (v_refs s bno - 1) x) /\
    (forall x, v_held s' x = v_held s x)).
Proof.
  intros Hok Hh Hlt. pose proof (held_buf s bno h Hok Hh) as (b & Hi & Hb & Hc & Hl & Hv & Hr & Hvr & Hvc).
  unfold bunpin. eapply wp_setb; [exact Hb|]. rewrite u32_small by lia.
  destruct (refcnt_ok s bno h b (refcnt b - 1)) as (H1 & H2 & H3 & H4); try done; [lia|]. by rewrite Hvr.
Qed.

Lemma wp_bwrite s bno h :
  cache_ok s -> v_held s bno = Some h ->
  wp (bwrite h) s (fun _ s' => cache_ok s' /\ disk s' = fupd (disk s) bno (v_cont s bno) /\
    writes s' = writes s ++ [(bno, v_cont s bno)] /\
    (forall x, v_cont s' x = v_cont s x) /\ (forall x, v_refs s' x = v_refs s x) /\
    (forall x, v_held s' x = v_held s x)).
Proof.
  intros Hok Hh. pose proof (held_buf s bno h Hok Hh) as (b & Hi & Hb & Hc & Hl & Hv & Hr & Hvr & Hvc).
  unfold bwrite. wp_step. eapply wp_holding; [done|done|]. cbn [negb]. unfold virtio_disk_rw. wp_step.
  eapply wp_getb; [exact Hb|]. wp_step. destruct Hc as [Hcd Hcb].
  rewrite Hcb, Hvc. set (s' := Bst _ _ _ _).
  assert (Hfind : forall x, find_buf s' x = find_buf s x) by done.
  assert (Hok' : cache_ok s').
  { destruct Hok as [Hlen Hlist Huniq Hbuf]. split; try done. intros i c Hci Hc. change (bufs s') with (bufs s) in Hc.
    destruct (Hbuf i c Hci Hc) as (H1 & H2 & H3 & H4). split; [done|]. split; [done|]. split; [done|].
    intros Hr0 Hv0. simpl. unfold fupd. destruct (Z.eqb_spec (blockno c) bno) as [E|]; [|by apply H4].
    exfalso. assert (i = h); [|subst i; assert (c = b) as -> by congruence; lia]. apply (Huniq i h c b); try done.
    - split; [|congruence]. destruct H2 as [(_ & _ & _ & ?)|[? _]]; [congruence|done]. }
  split; [done|]. split; [done|]. split; [done|].
  split; [|done]. intros x. unfold v_cont. rewrite Hfind. simpl. unfold fupd.
  destruct (Z.eqb_spec x bno) as [->|]; [|done]. 
  assert (E : find_buf s bno = Some (h, b)) by (by apply find_buf_Some). by rewrite E, Hv.
Qed.

(** ** brelse *)

Lemma same_core_refl b : same_core b b.
Proof. done. Qed.

Lemma relinked_refl s : relinked s s.
Proof. split; [done|]. split; [done|]. split; [done|]. split; [done|]. intros i b Hb. by exists b. Qed.

Lemma relinked_trans s1 s2 s3 : relinked s1 s2 -> relinked s2 s3 -> relinked s1 s3.
Proof.
  intros (L1 & D1 & W1 & P1 & H1) (L2 & D2 & W2 & P2 & H2).
  split; [congruence|]. split; [congruence|]. split; [congruence|]. split; [congruence|].
  intros i b Hb. destruct (H1 i b Hb) as (b1 & Hb1 & C1). destruct (H2 i b1 Hb1) as (b2 & Hb2 & C2).
  exists b2. split; [done|]. unfold same_core in *. intuition congruence.
Qed.

(** Setting one link. *)
Lemma wp_set_prev j p s (Q : unit -> bst -> Prop) :
  (j < length (bufs s))%nat ->
  (forall s', relinked s s' -> (forall x, nxt (bufs s') x = nxt (bufs s) x) ->
     (forall x, prv (bufs s') x = if decide (x = j) then p else prv (bufs s) x) -> Q tt s') ->
  wp (setb j (set_prev p)) s Q.
Proof.
  intros Hj HQ. destruct (lookup_lt_is_Some_2 (bufs s) j Hj) as [b Hb]. eapply wp_setb; [exact Hb|].
  apply HQ; [|intros x; unfold nxt; rewrite (total_upd _ _ _ _ x Hb)|intros x; unfold prv; rewrite (total_upd _ _ _ _ x Hb)].
  - split; [simpl; by rewrite length_insert|]. do 3 (split; [done|]). intros i c Hc.
    destruct (decide (i = j)) as [->|Hne].
    + rewrite (lookup_upd_eq _ _ _ _ Hb). eexists. split; [done|]. simplify_eq. by split.
    + rewrite lookup_upd_ne by done. by exists c.
  - destruct (decide (x = j)) as [->|]; [|done]. by rewrite (lookup_total_of _ _ _ Hb).
  - by destruct (decide (x = j)).
Qed.

Lemma wp_set_next j p s (Q : unit -> bst -> Prop) :
  (j < length (bufs s))%nat ->
  (forall s', relinked s s' -> (forall x, prv (bufs s') x = prv (bufs s) x) ->
     (forall x, nxt (bufs s') x = if decide (x = j) then p else nxt (bufs s) x) -> Q tt s') ->
  wp (setb j (set_next p)) s Q.
Proof.
  intros Hj HQ. destruct (lookup_lt_is_Some_2 (bufs s) j Hj) as [b Hb]. eapply wp_setb; [exact Hb|].
  apply HQ; [|intros x; unfold prv; rewrite (total_upd _ _ _ _ x Hb)|intros x; unfold nxt; rewrite (total_upd _ _ _ _ x Hb)].
  - split; [simpl; by rewrite length_insert|]. do 3 (split; [done|]). intros i c Hc.
    destruct (decide (i = j)) as [->|Hne].
    + rewrite (lookup_upd_eq _ _ _ _ Hb). eexists. split; [done|]. simplify_eq. by split.
    + rewrite lookup_upd_ne by done. by exists c.
  - destruct (decide (x = j)) as [->|]; [|done]. by rewrite (lookup_total_of _ _ _ Hb).
  - by destruct (decide (x = j)).
Qed.

Lemma wp_getb_total i s (Q : buf -> bst -> Prop) :
  (i < length (bufs s))%nat -> Q (bufs s !!! i) s -> wp (getb i) s Q.
Proof.
  intros Hi HQ. destruct (lookup_lt_is_Some_2 (bufs s) i Hi) as [b Hb]. eapply wp_getb; [exact Hb|].
  by rewrite <- (lookup_total_of _ _ _ Hb).
Qed.

Lemma wp_link_front i s (Q : unit -> bst -> Prop) :
  length (bufs s) = S nbuf -> (i < nbuf)%nat ->
  (forall s', relinked s s' ->
     (forall x, nxt (bufs s') x = if decide (x = i) then nxt (bufs s) head else nxt (bufs s) x) ->
     (forall x, prv (bufs s') x = if decide (x = i) then head else prv (bufs s) x) -> Q tt s') ->
  wp (link_front i) s Q.
Proof.
  intros Hlen Hi HQ. unfold link_front. wp_step. apply wp_getb_total; [unfold head; lia|]. wp_step.
  apply wp_set_next; [lia|]. intros s1 R1 V1 N1. pose proof R1 as (L1 & _).
  apply wp_set_prev; [lia|]. intros s2 R2 N2 V2.
  apply HQ; [by eapply relinked_trans| |]; intros x; [by rewrite N2, N1|by rewrite V2, V1].
Qed.

Lemma wp_link_back i s (Q : unit -> bst -> Prop) :
  length (bufs s) = S nbuf -> (nxt (bufs s) head < S nbuf)%nat ->
  (forall s', relinked s s' ->
     (forall x, nxt (bufs s') x = if decide (x = head) then i else nxt (bufs s) x) ->
     (forall x, prv (bufs s') x = if decide (x = nxt (bufs s) head) then i else prv (bufs s) x) -> Q tt s') ->
  wp (link_back i) s Q.
Proof.
  intros Hlen Hn HQ. unfold link_back. wp_step. apply wp_getb_total; [unfold head; lia|].
  fold (nxt (bufs s) head). wp_step. apply wp_set_prev; [lia|]. intros s1 R1 N1 V1. pose proof R1 as (L1 & _).
  apply wp_set_next; [unfold head; lia|]. intros s2 R2 V2 N2.
  apply HQ; [by eapply relinked_trans| |]; intros x; [by rewrite N2, N1|by rewrite V2, V1].
Qed.

(** Inserting [i], which is not in the list, at the front; [mid] runs between
    the two halves and leaves the links alone. *)
Lemma wp_insert_front (mid : M bst unit) i l s (Q : unit -> bst -> Prop) :
  length (bufs s) = S nbuf -> path (bufs s) (head :: l ++ [head]) -> NoDup (i :: l ++ [head]) ->
  (i < nbuf)%nat -> (forall x, x ∈ l -> (x < nbuf)%nat) ->
  (forall s1, relinked s s1 -> wp mid s1 (fun _ s2 => relinked s1 s2 /\
     (forall x, nxt (bufs s2) x = nxt (bufs s1) x) /\ (forall x, prv (bufs s2) x = prv (bufs s1) x))) ->
  (forall s', relinked s s' -> path (bufs s') (head :: i :: l ++ [head]) -> Q tt s') ->
  wp (link_front i;; mid;; link_back i) s Q.
Proof.
  intros Hlen Hp Hnd Hi Hl Hmid HQ.
  assert (Hih : i <> head) by (unfold head; lia).
  assert (Hn : (nxt (bufs s) head < S nbuf)%nat).
  { destruct (path_follows_next _ _ _ Hp) as [-> _]. destruct l as [|x l]; simpl; [unfold head; lia|].
    specialize (Hl x ltac:(by left)). lia. }
  wp_step. apply wp_link_front; [done|done|]. intros s1 R1 N1 V1. pose proof R1 as (L1 & _).
  wp_step. eapply wp_mono; [by apply Hmid|]. intros [] s2 (R2 & N2 & V2). pose proof R2 as (L2 & _).
  assert (Hhd : nxt (bufs s2) head = nxt (bufs s) head) by (by rewrite N2, N1, decide_False).
  apply wp_link_back; [lia|by rewrite Hhd|]. intros s3 R3 N3 V3.
  apply HQ; [by eapply relinked_trans; [|eapply relinked_trans]; eassumption|].
  apply (front_path (bufs s)); [done|done| |].
  - intros x. by rewrite N3, N2, N1.
  - intros x. by rewrite V3, Hhd, V2, V1.
Qed.

(** Moving [i] to the front. *)
Lemma wp_move_front i b l1 l2 s (Q : unit -> bst -> Prop) :
  length (bufs s) = S nbuf -> lru (bufs s) (l1 ++ i :: l2) -> bufs s !! i = Some b ->
  (forall s', relinked s s' -> lru (bufs s') (i :: l1 ++ l2) -> Q tt s') ->
  wp (setb (next b) (set_prev (prev b));; setb (prev b) (set_next (next b));; link_front i;; link_back i) s Q.
Proof.
  intros Hlen [Hperm Hp] Hb HQ.
  assert (Hnd : NoDup (l1 ++ i :: l2)) by (rewrite Hperm; apply NoDup_seq).
  assert (Hlt : forall x, x ∈ l1 ++ i :: l2 -> (x < nbuf)%nat) by (intros x; rewrite Hperm, elem_of_seq; lia).
  assert (Hhd : head ∉ l1 ++ i :: l2) by (intros Hin; apply Hlt in Hin; unfold head in Hin; lia).
  assert (Hnxt : nxt (bufs s) i = next b) by (unfold nxt; by rewrite (lookup_total_of _ _ _ Hb)).
  assert (Hprv : prv (bufs s) i = prev b) by (unfold prv; by rewrite (lookup_total_of _ _ _ Hb)).
  assert (Hr : forall x, x ∈ head :: l1 ++ i :: l2 -> (x < length (bufs s))%nat).
  { intros x [->|Hx]%elem_of_cons; [unfold head; lia|]. apply Hlt in Hx. lia. }
  rewrite <- app_assoc in Hp. cbn [app] in Hp. pose proof Hp as Hp0.
  change (head :: l1 ++ i :: l2 ++ [head]) with ((head :: l1) ++ i :: l2 ++ [head]) in Hp0.
  apply path_split in Hp0 as [Hpa Hpb].
  assert (Hn : (next b < length (bufs s))%nat).
  { rewrite <- Hnxt. destruct (path_follows_next _ _ _ Hpb) as [-> _]. apply Hr. destruct l2; simpl; in_list. }
  assert (Hv : (prev b < length (bufs s))%nat).
  { rewrite <- Hprv. destruct (path_follows_prev _ _ _ Hpa) as [-> _]. apply Hr.
    destruct l1 as [|x l1 _] using rev_ind; [by left|]. rewrite reverse_app. simpl. in_list. }
  wp_step. apply wp_set_prev; [done|]. intros s1 R1 N1 V1. pose proof R1 as (L1 & _).
  wp_step. apply wp_set_next; [lia|]. intros s2 R2 V2 N2. pose proof R2 as (L2 & _).
  eapply wp_mono; [apply (wp_insert_front (ret tt) i (l1 ++ l2) s2 Q)|by intros [] s'].
  - lia.
  - eapply (unlink_path (bufs s)); [exact Hp|by constructor|exact Hprv|exact Hnxt| |].
    + intros x. by rewrite N2, N1.
    + intros x. by rewrite V2, V1.
  - assert (Hnd' : NoDup (head :: l1 ++ i :: l2)) by (by constructor). nodup_from Hnd'.
  - apply Hlt. in_list.
  - intros x Hx. apply Hlt. in_list.
  - intros s3 _. wp_step. split; [apply relinked_refl|done].
  - intros s3 R3 P3. apply HQ; [by eapply relinked_trans; [|eapply relinked_trans]; eassumption|].
    split; [|done]. rewrite <- Hperm. solve_Permutation.
Qed.

(** Dropping the lock and one reference. *)
Lemma unlock_ok s bno h b r :
  cache_ok s -> v_held s bno = Some h -> bufs s !! h = Some b -> 0 <= r <= 2 ^ 31 ->
  (r = 0 -> v_cont s bno = disk s bno) ->
  let b' := set_refcnt r (set_lock None b) in
  cache_ok (upd s h b') /\
  (forall x, v_cont (upd s h b') x = v_cont s x) /\
  (forall x, v_refs (upd s h b') x = fupd (v_refs s) bno r x) /\
  (forall x, v_held (upd s h b') x = fupd (v_held s) bno None x).
Proof.
  intros Hok Hh Hb Hr Hclean b'. pose proof (held_buf s bno h Hok Hh) as (b0 & Hi & Hb0 & Hc & Hl & Hv & _ & _ & Hvc).
  assert (b = b0) as -> by congruence.
  assert (Hok' : cache_ok (upd s h b')).
  { eapply cache_ok_upd; try done. destruct Hc as [Hcd Hcb]. split; [simpl; lia|]. split; [|split; [done|]].
    - right. split; [done|]. by left.
    - simpl. intros -> _. rewrite Hcb, <- Hvc. auto. }
  destruct (view_upd s h b0 b' bno Hok Hok' Hi Hb0 Hc eq_refl eq_refl) as (H1 & H2 & H3).
  split; [done|]. split; [|split; [by intros x; rewrite H1|by intros x; rewrite H3]].
  intros x. rewrite H2. unfold fupd. destruct (Z.eqb_spec x bno) as [->|]; [|done]. simpl. by rewrite Hv.
Qed.

Lemma wp_brelse s bno h :
  cache_ok s -> v_held s bno = Some h -> (v_refs s bno = 1 -> v_cont s bno = disk s bno) ->
  wp (brelse h) s (fun _ s' => cache_ok s' /\ disk s' = disk s /\ writes s' = writes s /\
    (forall x, v_cont s' x = v_cont s x) /\ (forall x, v_refs s' x = fupd (v_refs s) bno (v_refs s bno - 1) x) /\
    (forall x, v_held s' x = fupd (v_held s) bno None x)).
Proof.
  intros Hok Hh Hclean. pose proof (held_buf s bno h Hok Hh) as (b & Hi & Hb & Hc & Hl & Hv & Hr & Hvr & Hvc).
  unfold brelse. wp_step. eapply wp_holding; [done|done|]. cbn [negb]. wp_step. unfold releasesleep.
  eapply wp_setb; [exact Hb|]. wp_step. eapply wp_setb_upd; [exact Hb|].
  rewrite u32_small by (simpl; lia). wp_step. eapply wp_getb; [by eapply lookup_upd_eq|].
  change (refcnt (set_lock None b)) with (refcnt b). cbn [refcnt set_refcnt].
  destruct (unlock_ok s bno h b (refcnt b - 1)) as (H1 & H2 & H3 & H4); [done|done|done|lia| |].
  { intros E. apply Hclean. lia. }
  set (b' := set_refcnt (refcnt b - 1) (set_lock None b)) in *. rewrite Hvr.
  destruct (Z.eqb_spec (refcnt b - 1) 0) as [E|E]; [|wp_step; done].
  destruct (ck_list _ H1) as [ord Hord].
  assert (Hin : h ∈ ord) by (destruct Hord as [Hperm _]; rewrite Hperm; apply elem_of_seq; lia).
  apply list_elem_of_split in Hin as (l1 & l2 & ->).
  apply (wp_move_front h b' l1 l2); [apply H1|done|by eapply lookup_upd_eq|].
  intros s' Hrel Hlru. pose proof (relinked_ok _ _ _ H1 Hrel Hlru) as Hok'.
  destruct (relinked_view _ _ H1 Hok' Hrel) as (V1 & V2 & V3). destruct Hrel as (_ & Hd & Hw & _).
  split; [done|]. split; [done|]. split; [done|]. split; [|split]; intros x; [by rewrite V2, H2|by rewrite V1, H3|by rewrite V3, H4].
Qed.

(** ** binit *)

Lemma wp_seq3 (a b c k : M bst unit) s (Q : unit -> bst -> Prop) :
  wp (a;; b;; c) s (fun _ s' => wp k s' Q) -> wp (a;; b;; c;; k) s Q.
Proof.
  unfold wp, bind. destruct (a s) as [[[] s1]| | |]; try done. destruct (b s1) as [[[] s2]| | |]; try done.
  by destruct (c s2) as [[[] s3]| | |].
Qed.

Lemma wp_binit_loop k i l s :
  (i + k = nbuf)%nat -> l ≡ₚ seq 0 i -> length (bufs s) = S nbuf ->
  path (bufs s) (head :: l ++ [head]) ->
  (forall j b, bufs s !! j = Some b -> bdev b = 0 /\ refcnt b = 0 /\ lock b = None /\ valid b = false) ->
  wp (binit_loop k i) s (fun _ s' => disk s' = disk s /\ writes s' = writes s /\ mypid s' = mypid s /\
    length (bufs s') = S nbuf /\ (exists ord, lru (bufs s') ord) /\
    forall j b, bufs s' !! j = Some b -> bdev b = 0 /\ refcnt b = 0 /\ lock b = None /\ valid b = false).
Proof.
  revert i l s. induction k as [|k IH]; intros i l s Hik Hl Hlen Hp Hz; cbn [binit_loop].
  { wp_step. do 4 (split; [done|]). split; [|done]. exists l. split; [|done]. by replace nbuf with i by lia. }
  assert (Hlt : forall x, x ∈ l -> (x < i)%nat) by (intros x; rewrite Hl, elem_of_seq; lia).
  apply wp_seq3, (wp_insert_front (initsleeplock i) i l).
  - done.
  - done.
  - constructor.
    + rewrite elem_of_app, list_elem_of_singleton. intros [Hin|Hin]; [apply Hlt in Hin; lia|unfold head in Hin; lia].
    + apply NoDup_app. split; [rewrite Hl; apply NoDup_seq|]. split; [|apply NoDup_singleton].
      intros x Hx ->%list_elem_of_singleton. apply Hlt in Hx. unfold head in Hx. lia.
  - lia.
  - intros x Hx. apply Hlt in Hx. lia.
  - intros s1 R1. pose proof R1 as (L1 & _). destruct (lookup_lt_is_Some_2 (bufs s1) i) as [b1 Hb1]; [lia|].
    destruct (relinked_back _ _ _ _ R1 Hb1) as (b & Hb & _ & _ & _ & Hlk & _). destruct (Hz i b Hb) as (_ & _ & Hn & _).
    assert (Hsame : set_lock None b1 = b1) by (destruct b1; simpl in *; by rewrite Hlk, Hn).
    eapply wp_setb; [exact Hb1|]. rewrite Hsame.
    assert (Hupd : upd s1 i b1 = s1) by (unfold upd; rewrite list_insert_id by done; by destruct s1).
    rewrite Hupd. split; [apply relinked_refl|done].
  - intros s1 R1 P1. pose proof R1 as (L1 & D1 & W1 & I1 & _).
    eapply wp_mono; [apply (IH (S i) (i :: l)); [lia| |lia|done|]|].
    + rewrite seq_S, Hl. simpl. solve_Permutation.
    + intros j b1 Hb1. destruct (relinked_back _ _ _ _ R1 Hb1) as (b & Hb & Hv & Hd & _ & Hlk & Hrf & _).
      destruct (Hz j b Hb) as (? & ? & ? & ?). split; [congruence|]. split; [congruence|]. split; congruence.
    + intros [] s' (D & W & I & H). split; [congruence|]. split; [congruence|]. split; [congruence|done].
Qed.

(** [binit] establishes the invariant over any disk, with nothing cached. *)
Lemma wp_binit d pid :
  wp binit (bst_init d pid) (fun _ s => cache_ok s /\ disk s = d /\ writes s = [] /\
    (forall x, v_cont s x = d x) /\ (forall x, v_refs s x = 0) /\ (forall x, v_held s x = None)).
Proof.
  assert (Hz : forall j b, bufs (bst_init d pid) !! j = Some b -> bdev b = 0 /\ refcnt b = 0 /\ lock b = None /\ valid b = false).
  { intros j b Hb. apply lookup_replicate in Hb as [-> _]. done. }
  assert (L0 : length (bufs (bst_init d pid)) = S nbuf) by apply length_replicate.
  unfold binit. wp_step. apply wp_set_prev; [rewrite L0; unfold head; lia|].
  intros s1 R1 N1 V1. pose proof R1 as (L1 & D1 & W1 & I1 & _). rewrite L0 in L1.
  wp_step. apply wp_set_next; [unfold head; lia|]. intros s2 R2 V2 N2. pose proof R2 as (L2 & D2 & W2 & I2 & _).
  pose proof (relinked_trans _ _ _ R1 R2) as R.
  eapply wp_mono; [apply (wp_binit_loop nbuf 0 [])|].
  - lia.
  - done.
  - lia.
  - cbn [app]. rewrite path_cons, N2, V2, V1, !decide_True by done. done.
  - intros j b2 Hb2. destruct (relinked_back _ _ _ _ R Hb2) as (b & Hb & Hv & Hd & _ & Hlk & Hrf & _).
    destruct (Hz j b Hb) as (? & ? & ? & ?). split; [congruence|]. split; [congruence|]. split; congruence.
  - intros [] s (D & W & I & Hlen & Hord & Hall).
    assert (Hfind : forall x, find_buf s x = None).
    { intros x. apply find_buf_None. intros i b _ Hb [Hd _]. destruct (Hall i b Hb) as (Hd0 & _). by rewrite Hd0 in Hd. }
    split; [split; try done|].
    + intros i j b b' _ _ Hb _ [Hd _] _. destruct (Hall i b Hb) as (Hd0 & _). by rewrite Hd0 in Hd.
    + intros i b _ Hb. destruct (Hall i b Hb) as (H1 & H2 & H3 & H4). split; [lia|]. split; [by left|].
      split; [lia|]. congruence.
    + assert (disk s = d) as Hds by (rewrite D, D2, D1; done).
      split; [done|]. split; [rewrite W, W2, W1; done|].
      unfold v_cont, v_refs, v_held. split; [|split]; intros x; rewrite Hfind; [by rewrite Hds|done|done].
Qed.

(** ** The interface *)

Lemma v_refs_nonneg s b : cache_ok s -> 0 <= v_refs s b.
Proof.
  intros Hok. unfold v_refs. destruct (find_buf s b) as [[i c]|] eqn:E; [|done].
  apply find_buf_Some in E as (Hi & Hc & _); [|done]. by destruct (ck_buf _ Hok i c Hi Hc) as [[? _] _].
Qed.

Lemma used_root s i b : cache_ok s -> (i < nbuf)%nat -> bufs s !! i = Some b -> 0 < refcnt b -> bdev b = ROOTDEV.
Proof. intros Hok Hi Hb Hr. destruct (ck_buf _ Hok i b Hi Hb) as (_ & [(_ & ? & _)|[? _]] & _); [lia|done]. Qed.

Lemma v_used_spec s x : cache_ok s -> x ∈ v_used s <-> 0 < v_refs s x.
Proof.
  intros Hok. unfold v_used. rewrite list_elem_of_fmap. split.
  - intros (b & -> & [Hr (i & Hb)%list_elem_of_lookup]%list_elem_of_filter). apply lookup_take_Some in Hb as [Hb Hi].
    pose proof (used_root s i b Hok Hi Hb Hr). destruct (view_at s i b (blockno b) Hok Hi Hb) as (-> & _); done.
  - unfold v_refs. destruct (find_buf s x) as [[i b]|] eqn:E; [|lia]. intros Hr.
    apply find_buf_Some in E as (Hi & Hb & [_ Hc]); [|done]. exists b. split; [done|].
    apply list_elem_of_filter. split; [done|]. apply list_elem_of_lookup. exists i. by apply lookup_take_Some.
Qed.

Lemma v_used_nodup s : cache_ok s -> NoDup (v_used s).
Proof.
  intros Hok. unfold v_used.
  assert (H : forall l k, (forall i b, l !! i = Some b -> bufs s !! (k + i)%nat = Some b) -> (k + length l <= nbuf)%nat ->
    NoDup (blockno <$> filter (fun b => 0 < refcnt b) l)).
  { induction l as [|b l IH]; intros k Hl Hlen; [constructor|]. simpl in Hlen.
    assert (Htl : NoDup (blockno <$> filter (fun b => 0 < refcnt b) l)).
    { apply (IH (S k)); [|lia]. intros i c Hc. replace (S k + i)%nat with (k + S i)%nat by lia. by apply Hl. }
    rewrite filter_cons. destruct (decide (0 < refcnt b)) as [Hr|]; [|done]. simpl. constructor; [|done].
    intros (c & Hbc & [Hrc (j & Hj)%list_elem_of_lookup]%list_elem_of_filter)%list_elem_of_fmap.
    pose proof (lookup_lt_Some _ _ _ Hj) as Hjl.
    assert (Hkb : bufs s !! k = Some b) by (rewrite <- (Nat.add_0_r k); by apply Hl).
    assert (Hkc : bufs s !! (k + S j)%nat = Some c) by (by apply Hl).
    pose proof (used_root s k b Hok ltac:(lia) Hkb Hr). pose proof (used_root s (k + S j) c Hok ltac:(lia) Hkc Hrc).
    assert (k = k + S j)%nat; [|lia]. apply (ck_uniq _ Hok k (k + S j) b c); try done; lia. }
  apply (H _ 0%nat).
  - intros i b [Hb _]%lookup_take_Some. done.
  - rewrite length_take. lia.
Qed.

Lemma v_held_refs s b h : cache_ok s -> v_held s b = Some h -> 0 < v_refs s b.
Proof. intros Hok Hh. destruct (held_buf s b h Hok Hh) as (c & _ & _ & _ & _ & _ & ? & -> & _). lia. Qed.

Lemma v_held_inj s b b' h : cache_ok s -> v_held s b = Some h -> v_held s b' = Some h -> b = b'.
Proof.
  intros Hok Hh Hh'. destruct (held_buf s b h Hok Hh) as (c & _ & Hc & [_ H1] & _).
  destruct (held_buf s b' h Hok Hh') as (c' & _ & Hc' & [_ H2] & _). congruence.
Qed.

Lemma v_unused_clean s b : cache_ok s -> v_refs s b = 0 -> v_cont s b = disk s b.
Proof.
  intros Hok. unfold v_refs, v_cont. destruct (find_buf s b) as [[i c]|] eqn:E; [|done]. intros Hr.
  apply find_buf_Some in E as (Hi & Hc & [_ <-]); [|done]. destruct (ck_buf _ Hok i c Hi Hc) as (_ & _ & _ & Hcl).
  destruct (valid c); auto.
Qed.

Lemma bdata_eq s b h : cache_ok s -> v_held s b = Some h -> bdata h s = Ret (v_cont s b, s).
Proof.
  intros Hok Hh. destruct (held_buf s b h Hok Hh) as (c & _ & Hc & _ & _ & _ & _ & _ & Hd).
  unfold bdata, bind, getb, ret. by rewrite Hc, Hd.
Qed.

Lemma bblockno_eq s b h : cache_ok s -> v_held s b = Some h -> bblockno h s = Ret (b, s).
Proof.
  intros Hok Hh. destruct (held_buf s b h Hok Hh) as (c & _ & Hc & [_ Hb] & _).
  unfold bblockno, bind, getb, ret. by rewrite Hc, Hb.
Qed.

(** [Bio] implements the interface. *)
#[global] Instance bio_cache : BlockCache bst := {|
  c_bread := bread; c_bwrite := bwrite; c_brelse := brelse; c_bpin := bpin; c_bunpin := bunpin;
  c_blockno := bblockno; c_data := bdata; c_set_data := set_bdata;
  c_ok := cache_ok; c_disk := disk; c_writes := writes; c_cont := v_cont; c_refs := v_refs; c_held := v_held;
  c_used := v_used;
  c_refs_nonneg := v_refs_nonneg; c_used_nodup := v_used_nodup; c_used_spec := v_used_spec;
  c_held_refs := v_held_refs; c_held_inj := v_held_inj; c_unused_clean := v_unused_clean;
  c_bread_spec := wp_bread; c_blockno_spec := bblockno_eq; c_data_spec := bdata_eq; c_set_data_spec := wp_set_bdata;
  c_bwrite_spec := wp_bwrite; c_brelse_spec := wp_brelse; c_bpin_spec := wp_bpin; c_bunpin_spec := wp_bunpin;
|}.
