(* ===== verification/BioTheorems.v ===== *)
(** * Properties of the buffer cache *)
From S2P Require Import Prelude Riscv Bio BioSpec BioProofs.

(** [bread] gives the current contents.  On a well-formed cache, for a block
    nobody has locked and as long as some buffer is free or the block is in
    use, [bread] returns a locked buffer for the block; reading it gives the
    block's current contents; no block's contents and not the disk change, and
    the cache stays well formed. *)
Theorem bread_correct s bno :
  cache_ok s -> v_held s bno = None -> v_refs s bno < 2 ^ 31 ->
  0 < v_refs s bno \/ (length (v_used s) < nbuf)%nat ->
  wp (h <- bread ROOTDEV bno;; x <- bdata h;; ret (h, x)) s (fun r s' =>
    r.2 = v_cont s bno /\ v_held s' bno = Some r.1 /\ v_refs s' bno = v_refs s bno + 1 /\
    cache_ok s' /\ disk s' = disk s /\ writes s' = writes s /\ (forall x, v_cont s' x = v_cont s x)).
Proof.
  intros Hok Hh Hr Hroom. apply wp_bind. eapply wp_mono; [by apply wp_bread|]. cbn beta.
  intros h s' (Hok' & Hd & Hw & Hc & Hr' & Hh').
  apply wp_bind. eapply wp_eq; [apply bdata_eq; [done|by rewrite Hh', fupd_eq]|]. apply wp_ret. cbn [fst snd].
  split_and!; try done; [by rewrite Hh', fupd_eq|by rewrite Hr', fupd_eq].
Qed.

Lemma reverse_split {A} (l l1 : list A) x l2 : reverse l = l1 ++ x :: l2 -> l = reverse l2 ++ x :: reverse l1.
Proof. intros E. rewrite <- (reverse_involutive l), E, reverse_app, reverse_cons, <- app_assoc. done. Qed.

(** The search for a cached copy fails for a block that is not cached. *)
Lemma first_uncached s ord bno : cache_ok s -> lru (bufs s) ord -> find_buf s bno = None ->
  first (bufs s) (hit ROOTDEV bno) ord = None.
Proof.
  intros Hok Hord Hn. destruct (first _ _ _) as [i|] eqn:E; [|done].
  apply first_Some in E as (l1 & l2 & -> & Ht%hit_caches & _). destruct Hord as [Hperm _].
  assert (Hi : (i < nbuf)%nat) by (assert (i ∈ seq 0 nbuf) as ?%elem_of_seq by (rewrite <- Hperm; in_list); lia).
  destruct (lookup_lt_is_Some_2 (bufs s) i) as [b Hb]; [rewrite (ck_len _ Hok); lia|].
  rewrite (lookup_total_of _ _ _ Hb) in Ht. by destruct (proj1 (find_buf_None s bno) Hn i b).
Qed.

(** The cache is LRU.  For a block that is not cached, [bget] takes the least
    recently used of the unreferenced buffers (the list [ord] is most recently
    used first) and gives it to the block, locked, with one reference and not
    yet valid; if every buffer is referenced it panics. *)
Theorem bget_lru s ord bno :
  cache_ok s -> lru (bufs s) ord -> find_buf s bno = None ->
  (exists l1 i l2, ord = l1 ++ i :: l2 /\ refcnt (bufs s !!! i) = 0 /\
     (forall j, j ∈ l2 -> refcnt (bufs s !!! j) <> 0) /\
     wp (bget ROOTDEV bno) s (fun h s' => h = i /\ exists b, bufs s' !! i = Some b /\ caches b bno /\
       lock b = Some (mypid s) /\ refcnt b = 1 /\ valid b = false /\
       disk s' = disk s /\ forall j, j <> i -> bufs s' !! j = bufs s !! j)) \/
  ((forall j, j ∈ ord -> refcnt (bufs s !!! j) <> 0) /\ bget ROOTDEV bno s = Panic "bget: no buffers").
Proof.
  intros Hok Hord Hn. pose proof Hok as [Hlen _ _ Hbuf].
  destruct (lru_head s ord Hok Hord) as (h & Hh & Hnx & Hpv & Hfn & Hfp & Hin & Hol).
  assert (Hs1 : bsearch nbuf next (hit ROOTDEV bno) (next h) s = Ret (None, s)).
  { rewrite Hnx, bsearch_eq, first_uncached by (done || lia). done. }
  assert (Hs2 : bsearch nbuf prev (fun b => refcnt b =? 0) (prev h) s =
    Ret (first (bufs s) (fun b => refcnt b =? 0) (reverse ord), s)).
  { rewrite Hpv. apply bsearch_eq; [done| |rewrite length_reverse; lia|done]. intros x. rewrite elem_of_reverse. apply Hin. }
  assert (Hg : getb head s = Ret (h, s)) by (unfold getb; by rewrite Hh).
  destruct (first (bufs s) _ (reverse ord)) as [i|] eqn:E.
  - left. apply first_Some in E as (l1 & l2 & Heq & Ht & Hlt). bool_prop. apply reverse_split in Heq.
    exists (reverse l2), i, (reverse l1). split_and!; [done|done| |].
    { intros j Hj. rewrite elem_of_reverse in Hj. by apply Z.eqb_neq, Hlt. }
    assert (Hi : (i < nbuf)%nat) by (apply Hin; rewrite Heq; in_list).
    destruct (lookup_lt_is_Some_2 (bufs s) i) as [b Hb]; [lia|]. rewrite (lookup_total_of _ _ _ Hb) in Ht.
    assert (Hl : lock b = None).
    { destruct (Hbuf i b Hi Hb) as (_ & [(_ & _ & ? & _)|(_ & [?|(_ & _ & ?)])] & _); [done|done|lia]. }
    unfold bget. apply wp_bind. eapply wp_eq; [exact Hg|]. apply wp_bind. eapply wp_eq; [exact Hs1|].
    apply wp_bind. eapply wp_eq; [exact Hs2|]. apply wp_bind. eapply wp_setb; [exact Hb|].
    apply wp_bind. eapply wp_acquire_upd; [done|done|]. apply wp_ret. split; [done|].
    eexists. split; [by eapply lookup_upd_eq|]. split_and!; try done. intros j Hj. by apply lookup_upd_ne.
  - right. split; [intros j Hj; apply Z.eqb_neq, (first_None _ _ _ E); by rewrite elem_of_reverse|].
    unfold bget. rewrite (bind_ret_eq _ _ _ _ _ Hg), (bind_ret_eq _ _ _ _ _ Hs1), (bind_ret_eq _ _ _ _ _ Hs2). done.
Qed.

(** ** Witnesses *)

Lemma bread_correct_witness : exists s,
  wp (h <- bread ROOTDEV 5;; x <- bdata h;; ret (h, x)) s (fun r s' =>
    r.2 = v_cont s 5 /\ v_held s' 5 = Some r.1 /\ v_refs s' 5 = v_refs s 5 + 1 /\
    cache_ok s' /\ disk s' = disk s /\ writes s' = writes s /\ (forall x, v_cont s' x = v_cont s x)).
Proof.
  destruct (wp_inv _ _ _ (wp_binit (fun b => [b]) 1)) as (u & s & _ & Hok & _ & _ & _ & Hr & Hh).
  exists s. apply bread_correct; [done|apply Hh|rewrite Hr; lia|right].
  destruct (v_used s) as [|x l] eqn:E; [vm_compute; lia|].
  assert (0 < v_refs s x) by (apply v_used_spec; [done|]; rewrite E; by left). rewrite Hr in *. lia.
Defined.

Lemma bget_lru_witness : exists s ord,
  (exists l1 i l2, ord = l1 ++ i :: l2 /\ refcnt (bufs s !!! i) = 0 /\
     (forall j, j ∈ l2 -> refcnt (bufs s !!! j) <> 0) /\
     wp (bget ROOTDEV 5) s (fun h s' => h = i /\ exists b, bufs s' !! i = Some b /\ caches b 5 /\
       lock b = Some (mypid s) /\ refcnt b = 1 /\ valid b = false /\
       disk s' = disk s /\ forall j, j <> i -> bufs s' !! j = bufs s !! j)) \/
  ((forall j, j ∈ ord -> refcnt (bufs s !!! j) <> 0) /\ bget ROOTDEV 5 s = Panic "bget: no buffers").
Proof.
  destruct (wp_inv _ _ _ (wp_binit (fun b => [b]) 1)) as (u & s & Hrun & Hok & _ & _ & _ & Hr & Hh).
  destruct (ck_list _ Hok) as [ord Hord]. exists s, ord. apply bget_lru; [done|done|].
  assert (Hall : match binit (bst_init (fun b => [b]) 1) with
    Ret (_, s1) => forallb (fun b => negb (bdev b =? ROOTDEV)) (take nbuf (bufs s1)) | _ => false end = true)
    by (vm_compute; reflexivity).
  rewrite Hrun in Hall. destruct (find_buf s 5) as [[i b]|] eqn:E; [|done].
  apply find_buf_Some in E as (Hi & Hb & [Hc _]); [|done]. exfalso.
  rewrite forallb_forall in Hall. specialize (Hall b).
  rewrite Hc in Hall. apply (diff_true_false). symmetry. apply Hall, list_elem_of_In, elem_of_take. eauto.
Defined.
