(* ===== verification/Block.v ===== *)
(** * kernel/fs.h: the super block, and fields in a disk block

    Little-endian integers read from and stored into a block, the way C
    reads a [struct] laid over [bp->data]. *)
From S2P Require Import Prelude Mem Bio.

Record superblock : Type := Superblock {
  magic : Z;
  fssize : Z;
  nblocks : Z;
  ninodes : Z;
  nlog : Z;
  logstart : Z;
  inodestart : Z;
  bmapstart : Z;
}.
Definition FSMAGIC : Z := 0x10203040.

(** The block as a byte memory, for the lemmas of [Mem]. *)
Definition blk_mem (b : block) : memory := fun x => if x <? 0 then 0 else default 0 (b !! Z.to_nat x).

Definition getn (n : nat) (b : block) (off : Z) : Z := ldn n (blk_mem b) off.
Fixpoint putn (n : nat) (b : block) (off v : Z) : block :=
  match n with
  | O => b
  | S n' => putn n' (<[Z.to_nat off := u8 v]> b) (off + 1) (v / 256)
  end.

Definition get16 := getn 2.
Definition get32 := getn 4.
Definition put16 := putn 2.
Definition put32 := putn 4.

Lemma length_putn n b off v : length (putn n b off v) = length b.
Proof. revert b off v. induction n as [|n IH]; intros b off v; simpl; [done|]. by rewrite IH, length_insert. Qed.

Lemma blk_mem_insert b off v x :
  0 <= off < Z.of_nat (length b) -> ld8 (blk_mem (<[Z.to_nat off := u8 v]> b)) x = ld8 (st8 (blk_mem b) off v) x.
Proof.
  intros Hoff. rewrite ld8_st8. unfold ld8, blk_mem. destruct (Z.ltb_spec x 0).
  - rewrite (proj2 (Z.eqb_neq x off)) by lia. done.
  - destruct (Z.eqb_spec x off) as [->|Hne].
    + rewrite list_lookup_insert_eq by lia. simpl. apply u8_small, u8_range.
    + by rewrite list_lookup_insert_ne by lia.
Qed.

Lemma stn_ext n m m' a v x : (forall y, ld8 m y = ld8 m' y) -> ld8 (stn n m a v) x = ld8 (stn n m' a v) x.
Proof.
  revert m m' a v. induction n as [|n IH]; intros m m' a v H; [apply H|]. rewrite !stn_S. apply IH.
  intros y. by rewrite !ld8_st8, H.
Qed.

Lemma blk_mem_putn n b off v x :
  0 <= off -> off + Z.of_nat n <= Z.of_nat (length b) ->
  ld8 (blk_mem (putn n b off v)) x = ld8 (stn n (blk_mem b) off v) x.
Proof.
  revert b off v. induction n as [|n IH]; intros b off v H0 H1; [done|]. cbn [putn]. rewrite stn_S.
  rewrite IH by (rewrite ?length_insert; lia). apply stn_ext. intros y. apply blk_mem_insert. lia.
Qed.

Lemma getn_putn_eq n b off v :
  0 <= off -> off + Z.of_nat n <= Z.of_nat (length b) ->
  getn n (putn n b off v) off = v mod 2 ^ (8 * Z.of_nat n).
Proof.
  intros H0 H1. unfold getn. rewrite <- (ldn_stn_eq n (blk_mem b) off v). apply ldn_agree.
  intros x _. by apply blk_mem_putn.
Qed.

Lemma getn_putn_ne n k b off off' v :
  0 <= off -> off + Z.of_nat k <= Z.of_nat (length b) ->
  off' + Z.of_nat n <= off \/ off + Z.of_nat k <= off' ->
  getn n (putn k b off v) off' = getn n b off'.
Proof.
  intros H0 H1 Hd. unfold getn. rewrite <- (ldn_stn_ne n k (blk_mem b) off off' v Hd). apply ldn_agree.
  intros x _. by apply blk_mem_putn.
Qed.

Lemma getn_range n b off : 0 <= getn n b off < 2 ^ (8 * Z.of_nat n).
Proof. apply ldn_range. Qed.
