(* ===== verification/Log.v ===== *)
(** * kernel/log.c: the write-ahead log

    The code over any implementation of the buffer cache ([BioSpec]).  The
    in-memory log is the record [log]; the header block is read and written
    field by field.  One process runs the code, so where [begin_op] would
    sleep it blocks for ever ([Diverge]); the interleavings of several
    operations are in LogConc. *)
From S2P Require Import Prelude Riscv Mem Bio BioSpec Block.

Record log : Type := Log {
  start : Z;
  size : Z;
  outstanding : Z;
  committing : bool;
  dev : Z;
  lh_n : Z;
  lh_block : list Z;
}.

(** The guards of [begin_op] and [log_write], and the slot [log_write] uses. *)
Definition must_wait (l : log) : bool :=
  committing l || (lh_n l + (outstanding l + 1) * MAXOPBLOCKS >? LOGSIZE).
Definition too_big (l : log) : bool := (lh_n l >=? LOGSIZE) || (lh_n l >=? size l - 1).
(** [for (i = 0; i < log.lh.n; i++) if (log.lh.block[i] == b->blockno) break;] *)
Fixpoint absorb (k i : nat) (bs : list Z) (bno : Z) : nat :=
  match k with
  | O => i
  | S k' => if u32 (default 0 (bs !! i)) =? bno then i else absorb k' (S i) bs bno
  end.

Definition set_n (n : Z) (l : log) := Log (start l) (size l) (outstanding l) (committing l) (dev l) n (lh_block l).
Definition set_outstanding (n : Z) (l : log) := Log (start l) (size l) n (committing l) (dev l) (lh_n l) (lh_block l).
Definition set_committing (b : bool) (l : log) := Log (start l) (size l) (outstanding l) b (dev l) (lh_n l) (lh_block l).
Definition set_blocks (bs : list Z) (l : log) := Log (start l) (size l) (outstanding l) (committing l) (dev l) (lh_n l) bs.

(** [sizeof(struct logheader)] *)
Definition logheader_size : Z := 4 + 4 * LOGSIZE.

Section Log.
Context {C : Type} `{BlockCache C}.

Record lst : Type := Lst { cache : C; lg : log }.

Definition lift {A} (c : M C A) : M lst A :=
  fun s => match c (cache s) with
           | Ret (a, c') => Ret (a, Lst c' (lg s))
           | Panic m => Panic m
           | Fault => Fault
           | Diverge => Diverge
           end.
Definition setlog (f : log -> log) : M lst unit := modify (fun s => Lst (cache s) (f (lg s))).

(** [log.lh.block[i]], read and written; outside the array is a fault. *)
Definition get_block (i : nat) : M lst Z :=
  l <- gets lg;; match lh_block l !! i with Some b => ret b | None => fault end.
Definition put_block (i : nat) (b : Z) : M lst unit :=
  l <- gets lg;;
  if (i <? length (lh_block l))%nat then setlog (set_blocks (<[i := b]> (lh_block l))) else fault.

(** ** The header block *)

Fixpoint read_head_loop (k i : nat) (d : block) : M lst unit :=
  match k with
  | O => ret tt
  | S k' => put_block i (s32 (get32 d (4 + 4 * Z.of_nat i)));; read_head_loop k' (S i) d
  end.
Definition read_head : M lst unit :=
  l <- gets lg;;
  buf <- lift (c_bread (u32 (dev l)) (u32 (start l)));;
  d <- lift (c_data buf);;
  let n := s32 (get32 d 0) in
  setlog (set_n n);;
  read_head_loop (Z.to_nat n) 0 d;;
  lift (c_brelse buf).

Fixpoint write_head_loop (k i : nat) (buf : nat) : M lst unit :=
  match k with
  | O => ret tt
  | S k' =>
      b <- get_block i;;
      d <- lift (c_data buf);;
      lift (c_set_data buf (put32 d (4 + 4 * Z.of_nat i) b));;
      write_head_loop k' (S i) buf
  end.
Definition write_head : M lst unit :=
  l <- gets lg;;
  buf <- lift (c_bread (u32 (dev l)) (u32 (start l)));;
  d <- lift (c_data buf);;
  lift (c_set_data buf (put32 d 0 (lh_n l)));;
  write_head_loop (Z.to_nat (lh_n l)) 0 buf;;
  lift (c_bwrite buf);;
  lift (c_brelse buf).

(** ** Copying between the log and the home locations *)

Fixpoint install_loop (recovering : bool) (k tail : nat) : M lst unit :=
  match k with
  | O => ret tt
  | S k' =>
      l <- gets lg;;
      lbuf <- lift (c_bread (u32 (dev l)) (u32 (start l + Z.of_nat tail + 1)));;
      b <- get_block tail;;
      dbuf <- lift (c_bread (u32 (dev l)) (u32 b));;
      d <- lift (c_data lbuf);;
      lift (c_set_data dbuf d);;
      lift (c_bwrite dbuf);;
      (if recovering then ret tt else lift (c_bunpin dbuf));;
      lift (c_brelse lbuf);;
      lift (c_brelse dbuf);;
      install_loop recovering k' (S tail)
  end.
Definition install_trans (recovering : bool) : M lst unit :=
  l <- gets lg;; install_loop recovering (Z.to_nat (lh_n l)) 0.

Fixpoint write_log_loop (k tail : nat) : M lst unit :=
  match k with
  | O => ret tt
  | S k' =>
      l <- gets lg;;
      to <- lift (c_bread (u32 (dev l)) (u32 (start l + Z.of_nat tail + 1)));;
      b <- get_block tail;;
      from <- lift (c_bread (u32 (dev l)) (u32 b));;
      d <- lift (c_data from);;
      lift (c_set_data to d);;
      lift (c_bwrite to);;
      lift (c_brelse from);;
      lift (c_brelse to);;
      write_log_loop k' (S tail)
  end.
Definition write_log : M lst unit :=
  l <- gets lg;; write_log_loop (Z.to_nat (lh_n l)) 0.

(** ** Transactions *)

Definition recover_from_log : M lst unit :=
  read_head;;
  install_trans true;;
  setlog (set_n 0);;
  write_head.

Definition initlog (d : Z) (sb : superblock) : M lst unit :=
  if logheader_size >=? BSIZE then panic "initlog: too big logheader" else
  setlog (fun l => Log (s32 (logstart sb)) (s32 (nlog sb)) (outstanding l) (committing l) d (lh_n l) (lh_block l));;
  recover_from_log.

Definition commit : M lst unit :=
  l <- gets lg;;
  if lh_n l >? 0 then
    write_log;;
    write_head;;
    install_trans false;;
    setlog (set_n 0);;
    write_head
  else ret tt.

Definition begin_op : M lst unit :=
  l <- gets lg;;
  if must_wait l then diverge
  else setlog (set_outstanding (outstanding l + 1)).

Definition end_op : M lst unit :=
  l <- gets lg;;
  setlog (set_outstanding (outstanding l - 1));;
  if committing l then panic "log.committing" else
  if outstanding l - 1 =? 0 then
    setlog (set_committing true);;
    commit;;
    setlog (set_committing false)
  else ret tt.

Definition log_write (b : nat) : M lst unit :=
  l <- gets lg;;
  if too_big l then panic "too big a transaction" else
  if outstanding l <? 1 then panic "log_write outside of trans" else
  bno <- lift (c_blockno b);;
  let i := absorb (Z.to_nat (lh_n l)) 0 (lh_block l) bno in
  put_block i (s32 bno);;
  if (i =? Z.to_nat (lh_n l))%nat then lift (c_bpin b);; setlog (set_n (lh_n l + 1)) else ret tt.
End Log.
Arguments lst C : clear implicits.
