(* ===== verification/LogProofs.v ===== *)
(** * Proofs about the log

    [recovered] is what recovery makes of a disk.  The lemmas here run each
    loop of log.c over an arbitrary buffer cache and say which disks it goes
    through; the theorems are in LogTheorems. *)
From S2P Require Import Prelude Riscv Mem Bio BioSpec Block Log.

(** ** Headers, and what recovery computes from a disk *)

Definition hdr_n (h : block) : Z := s32 (get32 h 0).
Definition hdr_block (h : block) (i : nat) : Z := s32 (get32 h (4 + 4 * Z.of_nat i)).
Definition hdr_blocks (h : block) : list Z := hdr_block h <$> seq 0 (Z.to_nat (hdr_n h)).

(** Copy the log blocks of [src] from index [i] on to the homes [bs]. *)
Fixpoint replay (src : Z -> block) (st : Z) (i : nat) (bs : list Z) (d : Z -> block) : Z -> block :=
  match bs with
  | [] => d
  | b :: bs' => replay src st (S i) bs' (fupd d b (src (st + Z.of_nat i + 1)))
  end.

(** The disk that recovery of the log at [st] makes of [d]. *)
Definition recovered (st : Z) (d : Z -> block) : Z -> block := replay d st 0 (hdr_blocks (d st)) d.

(** The blocks of the log: its header and its data blocks. *)
Definition in_log (st sz x : Z) : Prop := st <= x < st + sz.
(** Equality on all blocks outside the log. *)
Definition home_eq (st sz : Z) (d d' : Z -> block) : Prop := forall x, ~ in_log st sz x -> d x = d' x.

(** A header recovery can follow: it fits the log, and its blocks are not
    in the log. *)
Definition header_ok (st sz : Z) (h : block) : Prop :=
  0 <= hdr_n h <= LOGSIZE /\ hdr_n h < sz /\ length h = Z.to_nat BSIZE /\
  (forall b, b ∈ hdr_blocks h -> 0 <= b /\ ~ in_log st sz b).

(** ** The disk through a history of writes *)

Definition apply_writes (ws : list (Z * block)) (d : Z -> block) : Z -> block :=
  foldl (fun d w => fupd d w.1 w.2) d ws.

Lemma replay_app src st i bs bs' d :
  replay src st i (bs ++ bs') d = replay src st (i + length bs) bs' (replay src st i bs d).
Proof.
  revert i d. induction bs as [|b bs IH]; intros i d; simpl; [by rewrite Nat.add_0_r|].
  rewrite IH. f_equal. lia.
Qed.

Lemma replay_snoc src st bs b d :
  replay src st 0 (bs ++ [b]) d = fupd (replay src st 0 bs d) b (src (st + Z.of_nat (length bs) + 1)).
Proof. by rewrite replay_app. Qed.

Lemma replay_out src st i bs d x : x ∉ bs -> replay src st i bs d x = d x.
Proof.
  revert i d. induction bs as [|b bs IH]; intros i d Hx; simpl; [done|].
  rewrite not_elem_of_cons in Hx. rewrite IH by apply Hx. apply fupd_ne, Hx.
Qed.

Lemma replay_in src src' st i bs d d' x :
  x ∈ bs -> (forall j, (i <= j < i + length bs)%nat -> src (st + Z.of_nat j + 1) = src' (st + Z.of_nat j + 1)) ->
  replay src st i bs d x = replay src' st i bs d' x.
Proof.
  revert i d d'. induction bs as [|b bs IH]; intros i d d' Hx Hs; simpl; [by apply not_elem_of_nil in Hx|].
  destruct (decide (x ∈ bs)) as [Hin|Hout].
  - apply IH; [done|]. intros j Hj. apply Hs. simpl. lia.
  - apply elem_of_cons in Hx as [->|]; [|done]. rewrite !replay_out by done. rewrite !fupd_eq. apply Hs. simpl. lia.
Qed.

Lemma replay_src_ext src src' st i bs d :
  (forall j, (i <= j < i + length bs)%nat -> src (st + Z.of_nat j + 1) = src' (st + Z.of_nat j + 1)) ->
  replay src st i bs d = replay src' st i bs d.
Proof.
  revert i d. induction bs as [|b bs IH]; intros i d Hs; simpl; [done|].
  rewrite Hs by (simpl; lia). apply IH. intros j Hj. apply Hs. simpl. lia.
Qed.

Lemma replay_lookup src st i bs d j b :
  NoDup bs -> bs !! j = Some b -> replay src st i bs d b = src (st + Z.of_nat (i + j) + 1).
Proof.
  revert i j d. induction bs as [|c bs IH]; intros i j d Hnd Hj; [done|].
  apply NoDup_cons in Hnd as [Hc Hnd]. destruct j as [|j]; simpl in *.
  - injection Hj as ->. rewrite replay_out by done. rewrite fupd_eq. by rewrite Nat.add_0_r.
  - rewrite (IH _ j) by done. do 3 f_equal. lia.
Qed.

Lemma elem_of_take_sub {A} (x : A) k l : x ∈ take k l -> x ∈ l.
Proof. intros (i & Hi & _)%elem_of_take. by eapply list_elem_of_lookup_2. Qed.

(** Recovery of a disk on which part of the log was already replayed. *)
Lemma recovered_replay st sz d k x :
  0 < sz -> header_ok st sz (d st) ->
  recovered st (replay d st 0 (take k (hdr_blocks (d st))) d) x = recovered st d x.
Proof.
  intros Hsz (Hn & Hlt & _ & Hb). set (bs := hdr_blocks (d st)) in *.
  assert (Hlen : length bs = Z.to_nat (hdr_n (d st))) by (unfold bs, hdr_blocks; by rewrite length_fmap, length_seq).
  assert (Hlog : forall y, in_log st sz y -> replay d st 0 (take k bs) d y = d y).
  { intros y Hy. apply replay_out. intros Hin%elem_of_take_sub. by apply Hb in Hin as [_ ?]. }
  unfold recovered at 1. rewrite (Hlog st) by (unfold in_log; lia). fold bs.
  unfold recovered. fold bs. destruct (decide (x ∈ bs)) as [Hin|Hout].
  - apply replay_in; [done|]. intros j Hj. apply Hlog. unfold in_log. lia.
  - rewrite !replay_out; [done|done|by intros ?%elem_of_take_sub|done].
Qed.

Lemma recovered_idle st d : hdr_n (d st) = 0 -> recovered st d = d.
Proof. intros E. unfold recovered, hdr_blocks. by rewrite E. Qed.

(** ** The slot of a block in the header *)

Lemma lookup_take_self (bs l : list Z) i : take (length bs) l = bs -> (i < length bs)%nat -> l !! i = bs !! i.
Proof. intros Htk Hi. rewrite <- Htk at 1. by rewrite lookup_take_lt. Qed.

Lemma absorb_out k i bs b : (i + k <= length bs)%nat ->
  let j := absorb k i bs b in
  (i <= j <= i + k)%nat /\ (forall x, (i <= x < j)%nat -> u32 (default 0 (bs !! x)) <> b) /\
  ((j < i + k)%nat -> u32 (default 0 (bs !! j)) = b).
Proof.
  revert i. induction k as [|k IH]; intros i Hk; cbn [absorb]; [split_and!; lia|].
  destruct (Z.eqb_spec (u32 (default 0 (bs !! i))) b) as [He|He]; [split_and!; [lia|lia|lia|done]|].
  destruct (IH (S i) ltac:(lia)) as (Hj & Hlt & Heq). split_and!; [lia|lia| |].
  - intros x Hx. destruct (decide (x = i)) as [->|]; [done|]. apply Hlt. lia.
  - intros ?. apply Heq. lia.
Qed.

(** The search of [log_write] finds the block's slot, or the end. *)
Lemma absorb_spec bs l b :
  take (length bs) l = bs -> NoDup bs -> (forall x, x ∈ bs -> 0 <= x < 2 ^ 31) -> (length bs <= length l)%nat ->
  let i := absorb (length bs) 0 l b in
  if bool_decide (b ∈ bs) then bs !! i = Some b else i = length bs.
Proof.
  intros Htk Hnd Hrg Hlen i. destruct (absorb_out (length bs) 0 l b) as (Hj & Hlt & Heq); [lia|]. fold i in Hj, Hlt, Heq.
  assert (Hat : forall x y, bs !! x = Some y -> u32 (default 0 (l !! x)) = y).
  { intros x y Hxy. pose proof (lookup_lt_Some _ _ _ Hxy). rewrite (lookup_take_self bs l x), Hxy by done. cbn.
    apply u32_small. assert (0 <= y < 2 ^ 31) by (apply Hrg; by eapply list_elem_of_lookup_2). lia. }
  case_bool_decide as Hin.
  - apply list_elem_of_lookup in Hin as [x Hx]. assert (Hxi : (i < length bs)%nat).
    { pose proof (lookup_lt_Some _ _ _ Hx). destruct (Nat.lt_ge_cases i (length bs)) as [|Hge]; [done|].
      destruct (Hlt x ltac:(lia)). by apply Hat. }
    destruct (lookup_lt_is_Some_2 bs i Hxi) as [y Hy]. rewrite Hy. f_equal. rewrite <- (Hat _ _ Hy). apply Heq. lia.
  - destruct (Nat.lt_ge_cases i (length bs)) as [Hxi|]; [|lia]. destruct Hin.
    destruct (lookup_lt_is_Some_2 bs i Hxi) as [y Hy]. eapply list_elem_of_lookup_2. rewrite Hy. f_equal.
    rewrite <- (Hat _ _ Hy). apply Heq. lia.
Qed.


Section Proofs.
Context {C : Type} `{BlockCache C}.
Implicit Types (c : C) (s : lst C) (pins : list Z) (d : Z -> block).

(** ** Steps of the cache, lifted to the log *)

Lemma wp_lift {A} (p : M C A) s (Q : A -> lst C -> Prop) :
  wp p (cache s) (fun a c' => Q a (Lst c' (lg s))) -> wp (lift p) s Q.
Proof. unfold wp, lift. by destruct (p (cache s)) as [[a c']| | |]. Qed.

(** No buffer is locked, and the blocks [pins] have one reference each. *)
Record quiet (c : C) (pins : list Z) : Prop := Quiet {
  qt_ok : c_ok c;
  qt_held : forall x, c_held c x = None;
  qt_refs : forall x, c_refs c x = if bool_decide (x ∈ pins) then 1 else 0;
}.

Lemma quiet_clean c pins x : quiet c pins -> x ∉ pins -> c_cont c x = c_disk c x.
Proof. intros [Hok _ Hr] Hx. apply c_unused_clean; [done|]. by rewrite Hr, bool_decide_eq_false_2. Qed.

(** References are spread over at most as many buffers as [l] has blocks. *)
Lemma used_bound c l : c_ok c -> (forall x, 0 < c_refs c x -> x ∈ l) -> (length (c_used c) <= length l)%nat.
Proof.
  intros Hok Hl. apply submseteq_length, NoDup_submseteq; [by apply c_used_nodup|].
  intros x Hx. apply Hl. by apply c_used_spec.
Qed.

(** The disks between [c0] and [c] all satisfy [P]. *)
Definition trace (P : (Z -> block) -> Prop) (c0 c : C) : Prop :=
  exists ws, c_writes c = c_writes c0 ++ ws /\ c_disk c = apply_writes ws (c_disk c0) /\
    forall k, P (apply_writes (take k ws) (c_disk c0)).

Lemma trace_refl P c0 c : c_writes c = c_writes c0 -> c_disk c = c_disk c0 -> P (c_disk c0) -> trace P c0 c.
Proof. intros Hw Hd HP. exists []. rewrite app_nil_r. split_and!; [done|done|]. intros k. by rewrite take_nil. Qed.

Lemma trace_write P c0 c c' b x :
  trace P c0 c -> c_writes c' = c_writes c ++ [(b, x)] -> c_disk c' = fupd (c_disk c) b x -> P (c_disk c') ->
  trace P c0 c'.
Proof.
  intros (ws & Hw & Hd & HP) Hw' Hd' HP'. exists (ws ++ [(b, x)]).
  assert (Hall : c_disk c' = apply_writes (ws ++ [(b, x)]) (c_disk c0)).
  { unfold apply_writes. rewrite foldl_snoc. cbn [fst snd]. by rewrite Hd', Hd. }
  split_and!; [by rewrite Hw', Hw, <- app_assoc|done|]. intros k.
  destruct (Nat.lt_ge_cases (length ws) k) as [Hk|Hk].
  - rewrite take_ge by (rewrite length_app; simpl; lia). by rewrite <- Hall.
  - rewrite take_app_le by lia. apply HP.
Qed.

Lemma trace_same P c0 c c' :
  trace P c0 c -> c_writes c' = c_writes c -> c_disk c' = c_disk c -> trace P c0 c'.
Proof. intros (ws & Hw & Hd & HP) Hw' Hd'. exists ws. by rewrite Hw', Hd'. Qed.

Lemma trace_trans (P : (Z -> block) -> Prop) (Q : (Z -> block) -> Prop) c0 c1 c2 :
  trace P c0 c1 -> trace Q c1 c2 -> (forall d, Q d -> P d) -> trace P c0 c2.
Proof.
  intros (ws & Hw & Hd & HP) (ws' & Hw' & Hd' & HQ) HQP. exists (ws ++ ws').
  assert (Happ : forall l, apply_writes (ws ++ l) (c_disk c0) = apply_writes l (c_disk c1)).
  { intros l. unfold apply_writes. by rewrite foldl_app, Hd. }
  split_and!; [by rewrite Hw', Hw, app_assoc|by rewrite Happ|].
  intros k. rewrite take_app. destruct (Nat.le_gt_cases k (length ws)) as [Hk|Hk].
  - replace (k - length ws)%nat with 0%nat by lia. rewrite take_0, app_nil_r. apply HP.
  - rewrite (take_ge ws) by lia. rewrite Happ. apply HQP, HQ.
Qed.

Lemma trace_mono (P Q : (Z -> block) -> Prop) c0 c : trace P c0 c -> (forall d, P d -> Q d) -> trace Q c0 c.
Proof. intros (ws & Hw & Hd & HP) HQ. exists ws. split_and!; auto. Qed.

(** Run one operation of the cache by its law, naming what it changes with
    the suffix [n]. *)
Ltac c_run L := apply wp_bind, wp_lift; cbn [cache]; eapply wp_mono; [eapply L|cbn beta; cbn [lg]].

(** Case analysis on the updates of the goal. *)
Ltac fupds :=
  unfold fupd;
  repeat match goal with |- context [?a =? ?b] => destruct (Z.eqb_spec a b); subst end;
  rewrite ?Z.eqb_refl; try done; try lia.

Lemma fupd_ext {A} (f g : Z -> A) k v x : (forall y, f y = g y) -> fupd f k v x = fupd g k v x.
Proof. intros Hfg. unfold fupd. by destruct (x =? k). Qed.

Lemma wp_write_log_step k tail c l t pins b (Q : unit -> lst C -> Prop) :
  t = start l + Z.of_nat tail + 1 -> quiet c pins -> (length pins < nbuf)%nat -> dev l = ROOTDEV ->
  lh_block l !! tail = Some b -> b ∈ pins -> 0 <= b < 2 ^ 31 -> 0 <= t < 2 ^ 31 -> t ∉ pins ->
  (forall c', quiet c' pins -> c_disk c' = fupd (c_disk c) t (c_cont c b) ->
     c_writes c' = c_writes c ++ [(t, c_cont c b)] -> (forall x, c_cont c' x = fupd (c_cont c) t (c_cont c b) x) ->
     wp (write_log_loop k (S tail)) (Lst c' l) Q) ->
  wp (write_log_loop (S k) tail) (Lst c l) Q.
Proof.
  intros Et [Hok Hheld Hrefs] Hlen Hdev Hblk Hb Hbr Htr Ht Hk. cbn [write_log_loop].
  assert (Htb : t <> b) by (intros ->; done).
  apply wp_bind, wp_gets. cbn [lg]. rewrite Hdev, <- Et. change (u32 ROOTDEV) with ROOTDEV.
  rewrite (u32_small t) by lia.
  assert (Hrt : c_refs c t = 0) by (by rewrite Hrefs, bool_decide_eq_false_2).
  assert (Hrb : c_refs c b = 1) by (by rewrite Hrefs, bool_decide_eq_true_2).
  c_run c_bread_spec; [done|apply Hheld|lia|right|].
  { eapply Nat.le_lt_trans; [apply (used_bound _ pins Hok)|done]. intros x. rewrite Hrefs. by case_bool_decide. }
  intros to c1 (Hok1 & Hd1 & Hw1 & Hc1 & Hr1 & Hh1).
  unfold get_block. apply wp_bind, wp_bind, wp_gets. cbn [lg]. rewrite Hblk. apply wp_ret.
  rewrite (u32_small b) by lia.
  c_run c_bread_spec; [done| | |left|].
  { rewrite Hh1, fupd_ne by done. apply Hheld. }
  { rewrite Hr1, fupd_ne by done. lia. }
  { rewrite Hr1, fupd_ne by done. lia. }
  intros from c2 (Hok2 & Hd2 & Hw2 & Hc2 & Hr2 & Hh2).
  assert (Hhb2 : c_held c2 b = Some from) by (by rewrite Hh2, fupd_eq).
  assert (Hht2 : c_held c2 t = Some to) by (by rewrite Hh2, fupd_ne, Hh1, fupd_eq).
  apply wp_bind, wp_lift. eapply wp_eq; [by apply c_data_spec|]. cbn [cache lg].
  c_run c_set_data_spec; [done|exact Hht2|]. intros [] c3 (Hok3 & Hd3 & Hw3 & Hc3 & Hr3 & Hh3).
  c_run c_bwrite_spec; [done|by rewrite Hh3|]. intros [] c4 (Hok4 & Hd4 & Hw4 & Hc4 & Hr4 & Hh4).
  c_run c_brelse_spec; [done|by rewrite Hh4, Hh3| |].
  { rewrite Hr4, Hr3, Hr2, fupd_eq, Hr1, fupd_ne by done. lia. }
  intros [] c5 (Hok5 & Hd5 & Hw5 & Hc5 & Hr5 & Hh5).
  c_run c_brelse_spec; [done|by rewrite Hh5, fupd_ne, Hh4, Hh3| |].
  { intros _. by rewrite Hc5, Hd5, Hc4, Hd4, fupd_eq. }
  intros [] c6 (Hok6 & Hd6 & Hw6 & Hc6 & Hr6 & Hh6).
  assert (Hcb : c_cont c3 t = c_cont c b) by (by rewrite Hc3, fupd_eq, Hc2, Hc1).
  apply Hk.
  - split; [done| |].
    + intros x. rewrite <- (Hheld x), Hh6. fupds. rewrite Hh5. fupds. rewrite Hh4, Hh3, Hh2. fupds. rewrite Hh1. by fupds.
    + intros x. rewrite <- Hrefs, Hr6. fupds; rewrite !Hr5; fupds; rewrite !Hr4, !Hr3, !Hr2; fupds; rewrite !Hr1; fupds.
  - by rewrite Hd6, Hd5, Hd4, Hd3, Hd2, Hd1, Hcb.
  - by rewrite Hw6, Hw5, Hw4, Hw3, Hw2, Hw1, Hcb.
  - intros x. rewrite Hc6, Hc5, Hc4, Hc3, Hc2, Hc1. apply fupd_ext. intros y. by rewrite Hc2, Hc1.
Qed.

(** How one step of [install_trans] changes the pinned blocks. *)
Definition unpins (recovering : bool) (b : Z) (pins pins' : list Z) : Prop :=
  if recovering then pins' = pins /\ b ∉ pins /\ (S (length pins) < nbuf)%nat
  else pins = b :: pins' /\ b ∉ pins' /\ (length pins < nbuf)%nat.

(** The end of a step: unpin and release both buffers. *)
Lemma wp_install_tail {A} recovering c c4 l t pins pins' b lbuf dbuf (k : M (lst C) A) Q :
  (forall x, c_refs c x = if bool_decide (x ∈ pins) then 1 else 0) -> unpins recovering b pins pins' ->
  t ∉ pins -> t <> b -> c_ok c4 ->
  (forall x, c_refs c4 x = c_refs c x + (if x =? t then 1 else 0) + (if x =? b then 1 else 0)) ->
  (forall x, c_cont c4 x = fupd (c_cont c) b (c_disk c t) x) ->
  (forall x, c_held c4 x = if x =? b then Some dbuf else if x =? t then Some lbuf else None) ->
  c_disk c4 = fupd (c_disk c) b (c_disk c t) -> c_cont c t = c_disk c t ->
  (forall c', quiet c' pins' -> c_disk c' = c_disk c4 -> c_writes c' = c_writes c4 ->
     (forall x, c_cont c' x = fupd (c_cont c) b (c_disk c t) x) -> wp k (Lst c' l) Q) ->
  wp ((if recovering then ret tt else lift (c_bunpin dbuf));; lift (c_brelse lbuf);; lift (c_brelse dbuf);; k)
    (Lst c4 l) Q.
Proof.
  intros Hrefs Hun Ht Htb Hok4 Hr4 Hc4 Hh4 Hd4 Hct Hk. apply wp_bind.
  assert (Hhb : c_held c4 b = Some dbuf) by (by rewrite Hh4, Z.eqb_refl).
  apply (wp_mono _ _ (fun _ s' => exists c5, s' = Lst c5 l /\ c_ok c5 /\ c_disk c5 = c_disk c4 /\
    c_writes c5 = c_writes c4 /\ (forall x, c_cont c5 x = c_cont c4 x) /\
    (forall x, c_refs c5 x = (if bool_decide (x ∈ pins') then 1 else 0) + (if x =? t then 1 else 0) + (if x =? b then 1 else 0)) /\
    (forall x, c_held c5 x = c_held c4 x))).
  { destruct recovering; cbn [unpins] in Hun.
    - destruct Hun as (-> & _). apply wp_ret. exists c4. split_and!; [done..| |done]. intros x. by rewrite Hr4, Hrefs.
    - destruct Hun as (-> & Hb & _). apply wp_lift. cbn [cache lg]. eapply wp_mono; [eapply c_bunpin_spec; [done|exact Hhb|]|].
      { rewrite Hr4, Hrefs, Z.eqb_refl, bool_decide_eq_true_2 by (by left). zcases. }
      intros [] c5 (Hok5 & Hd5 & Hw5 & Hc5 & Hr5 & Hh5). exists c5. split_and!; [done..| |done].
      intros x. rewrite Hr5. unfold fupd. rewrite !Hr4, !Hrefs, (bool_decide_eq_true_2 (b ∈ b :: _)) by (by left).
      destruct (Z.eqb_spec x b) as [->|Hxb]; [rewrite (bool_decide_eq_false_2 (b ∈ pins')) by done; rewrite Z.eqb_refl; lia|].
      by rewrite (bool_decide_ext (x ∈ b :: pins') (x ∈ pins')) by (rewrite elem_of_cons; naive_solver). }
  intros [] s' (c5 & -> & Hok5 & Hd5 & Hw5 & Hc5 & Hr5 & Hh5).
  assert (Htp : t ∉ pins') by (destruct recovering; [by destruct Hun as [-> _]|destruct Hun as [-> _]; by intros ?; apply Ht; right]).
  assert (Hbp : b ∉ pins') by (destruct recovering; [by destruct Hun as (-> & ? & _)|by destruct Hun as (_ & ? & _)]).
  c_run c_brelse_spec; [done|rewrite Hh5, Hh4; fupds|intros _; rewrite Hc5, Hd5, Hc4, Hd4; by fupds|].
  intros [] c6 (Hok6 & Hd6 & Hw6 & Hc6 & Hr6 & Hh6).
  c_run c_brelse_spec; [done|rewrite Hh6, fupd_ne, Hh5 by done; exact Hhb|intros _; rewrite Hc6, Hd6, Hc5, Hd5, Hc4, Hd4; by fupds|].
  intros [] c7 (Hok7 & Hd7 & Hw7 & Hc7 & Hr7 & Hh7). apply Hk.
  - split; [done| |].
    + intros x. rewrite Hh7. fupds. rewrite Hh6. fupds. rewrite Hh5, Hh4. fupds.
    + intros x. rewrite Hr7. fupds; rewrite !Hr6; fupds; rewrite !Hr5; fupds.
  - by rewrite Hd7, Hd6, Hd5.
  - by rewrite Hw7, Hw6, Hw5.
  - intros x. by rewrite Hc7, Hc6, Hc5, Hc4.
Qed.

Lemma wp_install_step recovering k tail c l t pins pins' b (Q : unit -> lst C -> Prop) :
  t = start l + Z.of_nat tail + 1 -> quiet c pins -> unpins recovering b pins pins' -> dev l = ROOTDEV ->
  lh_block l !! tail = Some b -> 0 <= b < 2 ^ 31 -> 0 <= t < 2 ^ 31 -> t ∉ pins -> t <> b ->
  (forall c', quiet c' pins' -> c_disk c' = fupd (c_disk c) b (c_disk c t) ->
     c_writes c' = c_writes c ++ [(b, c_disk c t)] -> (forall x, c_cont c' x = fupd (c_cont c) b (c_disk c t) x) ->
     wp (install_loop recovering k (S tail)) (Lst c' l) Q) ->
  wp (install_loop recovering (S k) tail) (Lst c l) Q.
Proof.
  intros Et Hq Hun Hdev Hblk Hbr Htr Ht Htb Hk. cbn [install_loop].
  assert (Hct : c_cont c t = c_disk c t) by (by eapply quiet_clean). destruct Hq as [Hok Hheld Hrefs].
  apply wp_bind, wp_gets. cbn [lg]. rewrite Hdev, <- Et. change (u32 ROOTDEV) with ROOTDEV.
  rewrite (u32_small t) by lia.
  assert (Hrt : c_refs c t = 0) by (by rewrite Hrefs, bool_decide_eq_false_2).
  assert (Hlen : (length pins < nbuf)%nat) by (destruct recovering; unfold unpins in Hun; lia).
  assert (Hpin : forall x, 0 < c_refs c x -> x ∈ pins) by (intros x; rewrite Hrefs; by case_bool_decide).
  assert (Hrb : c_refs c b = if recovering then 0 else 1).
  { rewrite Hrefs. destruct recovering; [by rewrite bool_decide_eq_false_2 by apply Hun|].
    rewrite bool_decide_eq_true_2; [done|]. destruct Hun as [-> _]. by left. }
  assert (Hb0 : 0 <= c_refs c b <= 1) by (destruct recovering; lia).
  c_run c_bread_spec; [done|apply Hheld|lia|right|].
  { eapply Nat.le_lt_trans; [by apply (used_bound _ pins Hok)|done]. }
  intros lbuf c1 (Hok1 & Hd1 & Hw1 & Hc1 & Hr1 & Hh1).
  unfold get_block. apply wp_bind, wp_bind, wp_gets. cbn [lg]. rewrite Hblk. apply wp_ret.
  rewrite (u32_small b) by lia.
  c_run c_bread_spec; [done|rewrite Hh1, fupd_ne by done; apply Hheld|rewrite Hr1, fupd_ne by done; lia| |].
  { rewrite Hr1, fupd_ne by done. destruct recovering; [right|left; lia].
    eapply Nat.le_lt_trans; [apply (used_bound _ (t :: pins) Hok1)|simpl; apply Hun].
    intros x. rewrite Hr1. fupds; intros; [by left|right; auto]. }
  intros dbuf c2 (Hok2 & Hd2 & Hw2 & Hc2 & Hr2 & Hh2).
  assert (Hhb2 : c_held c2 b = Some dbuf) by (by rewrite Hh2, fupd_eq).
  assert (Hht2 : c_held c2 t = Some lbuf) by (by rewrite Hh2, fupd_ne, Hh1, fupd_eq).
  assert (Hv : c_cont c2 t = c_disk c t) by (by rewrite Hc2, Hc1).
  apply wp_bind, wp_lift. eapply wp_eq; [by apply c_data_spec|]. cbn [cache lg]. rewrite Hv.
  c_run c_set_data_spec; [done|exact Hhb2|]. intros [] c3 (Hok3 & Hd3 & Hw3 & Hc3 & Hr3 & Hh3).
  c_run c_bwrite_spec; [done|by rewrite Hh3|]. intros [] c4 (Hok4 & Hd4 & Hw4 & Hc4 & Hr4 & Hh4).
  rewrite Hc3, fupd_eq in Hd4, Hw4. rewrite Hd3, Hd2, Hd1 in Hd4. rewrite Hw3, Hw2, Hw1 in Hw4.
  assert (Hr4' : forall x, c_refs c4 x = c_refs c x + (if x =? t then 1 else 0) + (if x =? b then 1 else 0)).
  { intros x. rewrite Hr4, Hr3, Hr2. fupds; rewrite !Hr1; fupds. }
  assert (Hc4' : forall x, c_cont c4 x = fupd (c_cont c) b (c_disk c t) x).
  { intros x. rewrite Hc4, Hc3. apply fupd_ext. intros y. by rewrite Hc2, Hc1. }
  assert (Hh4' : forall x, c_held c4 x = if x =? b then Some dbuf else if x =? t then Some lbuf else None).
  { intros x. rewrite Hh4, Hh3, Hh2. fupds; rewrite Hh1; fupds; by rewrite Hheld. }
  eapply (wp_install_tail recovering c); [exact Hrefs|exact Hun|exact Ht|exact Htb|exact Hok4|exact Hr4'|exact Hc4'|exact Hh4'|exact Hd4|exact Hct|].
  rewrite Hd4, Hw4. exact Hk.
Qed.

(** ** The loops *)

(** The log has room for its header, lies within the disk's block numbers
    and has an array of [LOGSIZE] entries. *)
Record geo (l : log) : Prop := Geo {
  geo_start : 0 <= start l;
  geo_size : 0 < size l;
  geo_end : start l + size l <= 2 ^ 31;
  geo_dev : dev l = ROOTDEV;
  geo_len : length (lh_block l) = Z.to_nat LOGSIZE;
}.

(** Blocks outside the log [l]. *)
Definition homes (l : log) (bs : list Z) : Prop :=
  forall b, b ∈ bs -> 0 <= b < 2 ^ 31 /\ ~ in_log (start l) (size l) b.

Lemma homes_not_log l bs x : homes l bs -> in_log (start l) (size l) x -> x ∉ bs.
Proof. intros Hh Hx Hin. by apply Hh in Hin as [_ ?]. Qed.

Lemma wp_write_log_loop k tail c l pins :
  geo l -> quiet c pins -> (length pins < nbuf)%nat -> homes l pins ->
  (forall i, (tail <= i < tail + k)%nat -> exists b, lh_block l !! i = Some b /\ b ∈ pins) ->
  Z.of_nat tail + Z.of_nat k < size l ->
  wp (write_log_loop k tail) (Lst c l) (fun _ s' => exists c', s' = Lst c' l /\ quiet c' pins /\
    (forall x, ~ in_log (start l) (size l) x -> c_cont c' x = c_cont c x) /\
    (forall x, ~ (start l + Z.of_nat tail < x <= start l + Z.of_nat tail + Z.of_nat k) -> c_disk c' x = c_disk c x) /\
    (forall i b, (tail <= i < tail + k)%nat -> lh_block l !! i = Some b -> c_disk c' (start l + Z.of_nat i + 1) = c_cont c b) /\
    trace (fun d => forall x, ~ (start l < x < start l + size l) -> d x = c_disk c x) c c').
Proof.
  intros Hg. revert tail c. induction k as [|k IH]; intros tail c Hq Hlen Hhm Hblk Hroom.
  - apply wp_ret. exists c. split_and!; [done..|lia|]. by apply trace_refl.
  - destruct (Hblk tail) as (b & Hb & Hbp); [lia|]. destruct (Hhm b Hbp) as [Hbr Hbl].
    destruct Hg as [Hst Hsz Hend Hdev Hl]. set (t := start l + Z.of_nat tail + 1).
    assert (Ht : in_log (start l) (size l) t) by (unfold in_log, t; lia).
    eapply (wp_write_log_step _ _ _ _ t pins b); [done..|unfold t; lia|by eapply homes_not_log|].
    intros c1 Hq1 Hd1 Hw1 Hc1.
    eapply wp_mono; [apply IH; [done..| |lia]; intros i Hi; apply Hblk; lia|]. cbn beta.
    intros [] s' (c' & -> & Hq' & Hc' & Hd' & Hl' & Htr). exists c'. split_and!; [done..| | | |].
    + intros x Hx. rewrite Hc', Hc1 by done. apply fupd_ne. intros ->. done.
    + intros x Hx. rewrite Hd', Hd1 by lia. apply fupd_ne. unfold t. lia.
    + intros i b' Hi Hb'. destruct (decide (i = tail)) as [->|Hne].
      * rewrite Hd', Hd1 by lia. fold t. rewrite fupd_eq. congruence.
      * destruct (Hblk i ltac:(lia)) as (b2 & Hb2 & Hp2). rewrite (Hl' i b') by (try done; lia).
        rewrite Hc1. apply fupd_ne. intros ->. assert (b2 = t) as -> by congruence.
        by apply (homes_not_log l pins t).
    + eapply trace_trans; [|exact Htr|].
      * eapply trace_write; [by apply (trace_refl _ c)|done|done|].
        intros x Hx. rewrite Hd1. apply fupd_ne. unfold t. lia.
      * intros d Hd x Hx. rewrite Hd, Hd1 by done. apply fupd_ne. unfold t. lia.
Qed.

Lemma wp_install_loop (recovering : bool) (bs : list Z) tail c l :
  geo l -> quiet c (if recovering then [] else bs) -> homes l bs ->
  (recovering = false -> NoDup bs /\ (length bs < nbuf)%nat) ->
  (forall i, (i < length bs)%nat -> lh_block l !! (tail + i)%nat = bs !! i) ->
  Z.of_nat tail + Z.of_nat (length bs) < size l ->
  wp (install_loop recovering (length bs) tail) (Lst c l) (fun _ s' => exists c', s' = Lst c' l /\ quiet c' [] /\
    c_disk c' = replay (c_disk c) (start l) tail bs (c_disk c) /\
    (forall x, x ∉ bs -> c_cont c' x = c_cont c x) /\
    trace (fun d => exists j, d = replay (c_disk c) (start l) tail (take j bs) (c_disk c)) c c').
Proof.
  intros Hg. revert tail c. induction bs as [|b bs IH]; intros tail c Hq Hhm Hrec Hblk Hroom.
  - apply wp_ret. exists c. split_and!; [done|by destruct recovering|done|done|]. apply trace_refl; [done..|]. by exists 0%nat.
  - destruct (Hhm b) as [Hbr Hbl]; [by left|]. pose proof Hg as [Hst Hsz Hend Hdev Hl]. cbn [length] in *.
    set (t := start l + Z.of_nat tail + 1). assert (Ht : in_log (start l) (size l) t) by (unfold in_log, t; lia).
    assert (Hhm' : homes l bs) by (intros x Hx; apply Hhm; by right).
    eapply (wp_install_step _ _ _ _ _ t _ (if recovering then [] else bs) b);
      [done|exact Hq| |done|..|unfold t; lia| |by intros Htb; rewrite Htb in Ht|].
    { destruct recovering; cbn [unpins]; [split_and!; [done|set_solver|vm_compute; lia]|].
      destruct (Hrec eq_refl) as [[? ?]%NoDup_cons ?]. done. }
    { pose proof (Hblk 0%nat (Nat.lt_0_succ _)) as Hb0. by rewrite Nat.add_0_r in Hb0. }
    { done. }
    { destruct recovering; [set_solver|by eapply homes_not_log]. }
    intros c1 Hq1 Hd1 Hw1 Hc1.
    eapply wp_mono; [apply IH; [done|done| | |lia]|].
    { intros ->. destruct (Hrec eq_refl) as [[? ?]%NoDup_cons ?]. split; [done|lia]. }
    { intros i Hi. assert (Hi' : (S i < S (length bs))%nat) by lia. pose proof (Hblk _ Hi') as Hb1. by rewrite Nat.add_succ_r in Hb1. }
    cbn beta. intros [] s' (c' & -> & Hq' & Hd' & Hc' & Htr). exists c'.
    assert (Hrep : forall j, replay (c_disk c1) (start l) (S tail) (take j bs) (c_disk c1) =
        replay (c_disk c) (start l) tail (take (S j) (b :: bs)) (c_disk c)).
    { intros j. cbn [take replay]. fold t. rewrite Hd1. apply replay_src_ext. intros i Hi. apply fupd_ne. intros <-.
      apply Hbl. rewrite length_take in Hi. unfold in_log. lia. }
    split_and!; [done|done| | |].
    + specialize (Hrep (length bs)). cbn [take] in Hrep. rewrite firstn_all in Hrep. by rewrite Hd', Hrep.
    + intros x [Hxb Hx]%not_elem_of_cons. rewrite Hc', Hc1 by done. by apply fupd_ne.
    + eapply trace_trans; [|exact Htr|].
      * eapply trace_write; [apply (trace_refl _ c); [done..|by exists 0%nat]|done|done|].
        exists 1%nat. simpl. by rewrite Hd1.
      * intros d (j & ->). exists (S j). apply Hrep.
Qed.

(** ** The header *)

Lemma wp_put_block i b c l (Q : unit -> lst C -> Prop) :
  (i < length (lh_block l))%nat -> Q tt (Lst c (set_blocks (<[i := b]> (lh_block l)) l)) ->
  wp (put_block i b) (Lst c l) Q.
Proof. intros Hi HQ. unfold put_block. wp_steps. cbn [lg]. by rewrite (proj2 (Nat.ltb_lt _ _) Hi). Qed.

Lemma wp_read_head_loop k i (d : block) c l :
  (i + k <= length (lh_block l))%nat ->
  wp (read_head_loop k i d) (Lst c l) (fun _ s' => exists bs, s' = Lst c (set_blocks bs l) /\
    length bs = length (lh_block l) /\
    forall j, bs !! j = if bool_decide (i <= j < i + k)%nat then Some (hdr_block d j) else lh_block l !! j).
Proof.
  revert i l. induction k as [|k IH]; intros i l Hk.
  - apply wp_ret. exists (lh_block l). split_and!; [by destruct l|done|]. intros j. by rewrite bool_decide_eq_false_2 by lia.
  - cbn [read_head_loop]. apply wp_bind, wp_put_block; [lia|].
    eapply wp_mono; [apply IH; cbn [lh_block set_blocks]; rewrite length_insert; lia|].
    cbn beta. intros [] s' (bs & -> & Hlen & Hbs). exists bs. split; [done|]. cbn [lh_block set_blocks] in *.
    rewrite length_insert in Hlen. split; [done|]. intros j. rewrite Hbs.
    destruct (decide (j = i)) as [->|Hne].
    + rewrite bool_decide_eq_false_2, bool_decide_eq_true_2 by lia. by rewrite list_lookup_insert_eq by lia.
    + rewrite list_lookup_insert_ne by done. by rewrite (bool_decide_ext (S i <= j < S i + k)%nat (i <= j < i + S k)%nat) by lia.
Qed.

Lemma take_hdr_blocks (h : block) (bs : list Z) :
  (Z.to_nat (hdr_n h) <= length bs)%nat ->
  (forall j, (j < Z.to_nat (hdr_n h))%nat -> bs !! j = Some (hdr_block h j)) ->
  take (Z.to_nat (hdr_n h)) bs = hdr_blocks h.
Proof.
  intros Hlen Hbs. apply list_eq. intros j. unfold hdr_blocks. rewrite list_lookup_fmap.
  destruct (Nat.lt_ge_cases j (Z.to_nat (hdr_n h))) as [Hj|Hj].
  - rewrite lookup_take_lt, Hbs by done. by rewrite lookup_seq_lt.
  - rewrite lookup_take_ge by done. by rewrite lookup_seq_ge.
Qed.

Lemma wp_read_head c l pins :
  geo l -> quiet c pins -> (length pins < nbuf)%nat -> start l ∉ pins -> hdr_n (c_disk c (start l)) <= LOGSIZE ->
  let h := c_disk c (start l) in
  wp read_head (Lst c l) (fun _ s' => exists c' bs, s' = Lst c' (set_blocks bs (set_n (hdr_n h) l)) /\ quiet c' pins /\
    c_disk c' = c_disk c /\ c_writes c' = c_writes c /\ (forall x, c_cont c' x = c_cont c x) /\
    length bs = Z.to_nat LOGSIZE /\ take (Z.to_nat (hdr_n h)) bs = hdr_blocks h).
Proof.
  intros [Hst Hsz Hend Hdev Hl] Hq Hlen Hpin Hn h. pose proof (quiet_clean _ _ _ Hq Hpin) as Hcl.
  destruct Hq as [Hok Hheld Hrefs]. unfold read_head. apply wp_bind, wp_gets. cbn [lg].
  rewrite Hdev. change (u32 ROOTDEV) with ROOTDEV. rewrite (u32_small (start l)) by lia.
  assert (Hr0 : c_refs c (start l) = 0) by (by rewrite Hrefs, bool_decide_eq_false_2).
  c_run c_bread_spec; [done|apply Hheld|lia|right|].
  { eapply Nat.le_lt_trans; [apply (used_bound _ pins Hok)|done]. intros x. rewrite Hrefs. by case_bool_decide. }
  intros buf c1 (Hok1 & Hd1 & Hw1 & Hc1 & Hr1 & Hh1).
  apply wp_bind, wp_lift. cbn [cache lg].
  eapply wp_eq; [apply (c_data_spec _ (start l)); [done|by rewrite Hh1, fupd_eq]|].
  rewrite Hc1, Hcl. fold h. apply wp_bind. unfold setlog. apply wp_modify. cbn [cache lg].
  change (s32 (get32 h 0)) with (hdr_n h). apply wp_bind.
  eapply wp_mono; [apply wp_read_head_loop; cbn [lh_block set_n]; rewrite Hl; fold h in Hn; lia|]. cbn beta.
  intros [] s' (bs & -> & Hbl & Hbs). cbn [lh_block set_n] in Hbl, Hbs. apply wp_lift. cbn [cache].
  eapply wp_mono; [eapply c_brelse_spec; [done|by rewrite Hh1, fupd_eq|by rewrite Hc1, Hd1, Hcl]|]. cbn beta.
  intros [] c2 (Hok2 & Hd2 & Hw2 & Hc2 & Hr2 & Hh2). exists c2, bs. cbn [lg]. split_and!; [done| |..].
  - split; [done| |]; intros x.
    + rewrite Hh2. fupds. rewrite Hh1. by fupds.
    + rewrite <- Hrefs, Hr2. fupds; rewrite !Hr1; fupds.
  - by rewrite Hd2, Hd1.
  - by rewrite Hw2, Hw1.
  - intros x. by rewrite Hc2, Hc1.
  - by rewrite Hbl.
  - fold h in Hn. apply take_hdr_blocks; [lia|]. intros j Hj. rewrite Hbs. by rewrite bool_decide_eq_true_2 by lia.
Qed.

Lemma wp_write_head_loop k i buf st c l :
  c_ok c -> c_held c st = Some buf -> length (c_cont c st) = Z.to_nat BSIZE ->
  length (lh_block l) = Z.to_nat LOGSIZE -> (i + k <= Z.to_nat LOGSIZE)%nat ->
  wp (write_head_loop k i buf) (Lst c l) (fun _ s' => exists c', s' = Lst c' l /\ c_ok c' /\
    c_disk c' = c_disk c /\ c_writes c' = c_writes c /\ (forall x, x <> st -> c_cont c' x = c_cont c x) /\
    (forall x, c_refs c' x = c_refs c x) /\ (forall x, c_held c' x = c_held c x) /\
    length (c_cont c' st) = Z.to_nat BSIZE /\ get32 (c_cont c' st) 0 = get32 (c_cont c st) 0 /\
    (forall j, (j < i)%nat -> get32 (c_cont c' st) (4 + 4 * Z.of_nat j) = get32 (c_cont c st) (4 + 4 * Z.of_nat j)) /\
    (forall j b, (i <= j < i + k)%nat -> lh_block l !! j = Some b -> get32 (c_cont c' st) (4 + 4 * Z.of_nat j) = u32 b)).
Proof.
  revert i c. induction k as [|k IH]; intros i c Hok Hh Hlen Hl Hk.
  - apply wp_ret. exists c. split_and!; try done. lia.
  - cbn [write_head_loop]. destruct (lookup_lt_is_Some_2 (lh_block l) i) as [b Hb]; [lia|].
    unfold get_block. apply wp_bind, wp_bind, wp_gets. cbn [lg]. rewrite Hb. apply wp_ret.
    apply wp_bind, wp_lift. cbn [cache lg]. eapply wp_eq; [by apply c_data_spec|].
    assert (Hoff : 4 + 4 * Z.of_nat i + Z.of_nat 4 <= Z.of_nat (length (c_cont c st))).
    { rewrite Hlen. unfold BSIZE, LOGSIZE, MAXOPBLOCKS in *. lia. }
    c_run c_set_data_spec; [done|done|]. intros [] c1 (Hok1 & Hd1 & Hw1 & Hc1 & Hr1 & Hh1).
    eapply wp_mono; [apply (IH (S i) c1); [done|by rewrite Hh1| |done|lia]|].
    { rewrite Hc1, fupd_eq. unfold put32. by rewrite length_putn. }
    cbn beta. intros [] s' (c' & -> & Hok' & Hd' & Hw' & Hc' & Hr' & Hh' & Hlen' & H0 & Hlo & Hhi).
    rewrite Hc1, fupd_eq in H0, Hlo. exists c'. split_and!; [done|done|congruence|congruence|..].
    + intros x Hx. rewrite Hc', Hc1 by done. by apply fupd_ne.
    + intros x. by rewrite Hr'.
    + intros x. by rewrite Hh'.
    + done.
    + rewrite H0. apply getn_putn_ne; lia.
    + intros j Hj. rewrite Hlo by lia. apply getn_putn_ne; lia.
    + intros j b' Hj Hb'. destruct (decide (j = i)) as [->|Hne]; [|apply Hhi; [lia|done]].
      rewrite Hlo by lia. assert (b' = b) as -> by congruence. apply getn_putn_eq; lia.
Qed.

Lemma s32_u32 x : - 2 ^ 31 <= x < 2 ^ 31 -> s32 (u32 x) = x.
Proof. intros Hx. unfold s32, u32. rewrite Zplus_mod_idemp_l. rewrite Z.mod_small; lia. Qed.

Lemma wp_write_head c l pins :
  geo l -> quiet c pins -> (length pins < nbuf)%nat -> start l ∉ pins -> 0 <= lh_n l <= LOGSIZE ->
  length (c_disk c (start l)) = Z.to_nat BSIZE ->
  (forall b, b ∈ take (Z.to_nat (lh_n l)) (lh_block l) -> 0 <= b < 2 ^ 31) ->
  wp write_head (Lst c l) (fun _ s' => exists c' h, s' = Lst c' l /\ quiet c' pins /\
    c_disk c' = fupd (c_disk c) (start l) h /\ c_writes c' = c_writes c ++ [(start l, h)] /\
    (forall x, x <> start l -> c_cont c' x = c_cont c x) /\ length h = Z.to_nat BSIZE /\
    hdr_n h = lh_n l /\ hdr_blocks h = take (Z.to_nat (lh_n l)) (lh_block l)).
Proof.
  intros [Hst Hsz Hend Hdev Hl] Hq Hlen Hpin Hn Hlb Hbs. pose proof (quiet_clean _ _ _ Hq Hpin) as Hcl.
  destruct Hq as [Hok Hheld Hrefs]. unfold write_head. apply wp_bind, wp_gets. cbn [lg].
  rewrite Hdev. change (u32 ROOTDEV) with ROOTDEV. rewrite (u32_small (start l)) by lia.
  assert (Hr0 : c_refs c (start l) = 0) by (by rewrite Hrefs, bool_decide_eq_false_2).
  c_run c_bread_spec; [done|apply Hheld|lia|right|].
  { eapply Nat.le_lt_trans; [apply (used_bound _ pins Hok)|done]. intros x. rewrite Hrefs. by case_bool_decide. }
  intros buf c1 (Hok1 & Hd1 & Hw1 & Hc1 & Hr1 & Hh1).
  assert (Hhs : c_held c1 (start l) = Some buf) by (by rewrite Hh1, fupd_eq).
  apply wp_bind, wp_lift. cbn [cache lg]. eapply wp_eq; [by apply c_data_spec|]. rewrite Hc1, Hcl.
  set (h0 := c_disk c (start l)) in *.
  c_run c_set_data_spec; [done|done|]. intros [] c2 (Hok2 & Hd2 & Hw2 & Hc2 & Hr2 & Hh2).
  apply wp_bind. eapply wp_mono; [apply (wp_write_head_loop _ _ _ (start l)); [done|by rewrite Hh2| |done|lia]|].
  { rewrite Hc2, fupd_eq. unfold put32. by rewrite length_putn. }
  cbn beta. intros [] s' (c3 & -> & Hok3 & Hd3 & Hw3 & Hc3 & Hr3 & Hh3 & Hlen3 & H0 & _ & Hhi).
  rewrite Hc2, fupd_eq in H0. set (h := c_cont c3 (start l)) in *.
  assert (Hn' : hdr_n h = lh_n l).
  { unfold hdr_n. rewrite H0. unfold get32, put32. rewrite getn_putn_eq by (rewrite ?Hlb; unfold BSIZE; lia).
    apply s32_u32. unfold LOGSIZE, MAXOPBLOCKS in Hn. lia. }
  c_run c_bwrite_spec; [done|by rewrite Hh3, Hh2|]. intros [] c4 (Hok4 & Hd4 & Hw4 & Hc4 & Hr4 & Hh4).
  apply wp_lift. cbn [cache lg]. eapply wp_mono; [eapply (c_brelse_spec _ (start l)); [done|by rewrite Hh4, Hh3, Hh2|]|].
  { intros _. by rewrite Hc4, Hd4, fupd_eq. }
  cbn beta. intros [] c5 (Hok5 & Hd5 & Hw5 & Hc5 & Hr5 & Hh5). exists c5, h. split_and!; [done| |..].
  - split; [done| |]; intros x.
    + rewrite Hh5. fupds. rewrite Hh4, Hh3, Hh2, Hh1. by fupds.
    + rewrite <- Hrefs, Hr5. fupds; rewrite !Hr4, !Hr3, !Hr2, !Hr1; fupds.
  - by rewrite Hd5, Hd4, Hd3, Hd2, Hd1.
  - by rewrite Hw5, Hw4, Hw3, Hw2, Hw1.
  - intros x Hx. rewrite Hc5, Hc4, Hc3, Hc2, fupd_ne by done. apply Hc1.
  - done.
  - done.
  - rewrite <- Hn'. symmetry. apply take_hdr_blocks; [rewrite Hn', Hl; lia|]. intros j Hj. rewrite Hn' in Hj.
    destruct (lookup_lt_is_Some_2 (lh_block l) j) as [b Hb]; [lia|]. rewrite Hb. f_equal. unfold hdr_block.
    rewrite (Hhi j b) by (try done; lia). symmetry. apply s32_u32.
    enough (0 <= b < 2 ^ 31) by lia. apply Hbs, elem_of_take. eauto.
Qed.
End Proofs.
