(* ===== verification/LogTheorems.v ===== *)
(** * Crash safety of recovery and commit

    Every disk a crash can leave behind during recovery or during a commit is
    one from which recovery gives the right file system: the disk writes of
    the code are the steps of [trace], so a property of a trace holds at every
    crash point. *)
From S2P Require Import Prelude Riscv Mem Bio BioSpec Block Log LogProofs.

Section Theorems.
Context {C : Type} `{BlockCache C}.
Implicit Types (c : C) (s : lst C) (bs pins : list Z) (d : Z -> block).

(** The log between two transactions' commits: the blocks [bs] are logged,
    each pinned once, nothing is locked, and the header on disk is empty. *)
Record log_inv (s : lst C) (bs : list Z) : Prop := LogInv {
  li_geo : geo (lg s);
  li_n : lh_n (lg s) = Z.of_nat (length bs);
  li_room : lh_n (lg s) < size (lg s);
  li_size : size (lg s) <= LOGSIZE;
  li_bs : take (length bs) (lh_block (lg s)) = bs;
  li_nodup : NoDup bs;
  li_homes : homes (lg s) bs;
  li_quiet : quiet (cache s) bs;
  li_hdr : hdr_n (c_disk (cache s) (start (lg s))) = 0;
  li_hlen : length (c_disk (cache s) (start (lg s))) = Z.to_nat BSIZE;
}.

Lemma hdr_block_lt h i : hdr_block h i < 2 ^ 31.
Proof. apply s32_range. Qed.

Lemma header_homes l h : header_ok (start l) (size l) h -> homes l (hdr_blocks h).
Proof.
  intros (_ & _ & _ & Hb) b Hin. destruct (Hb b Hin) as [H0 Hl]. split; [|done]. split; [done|].
  unfold hdr_blocks in Hin. apply list_elem_of_fmap in Hin as (i & -> & _). apply hdr_block_lt.
Qed.

Lemma home_eq_sym st sz d d' : home_eq st sz d d' -> home_eq st sz d' d.
Proof. intros Hd x Hx. symmetry. by apply Hd. Qed.

(** Writing the header does not touch the blocks outside the log. *)
Lemma home_fupd st sz d h : 0 < sz -> home_eq st sz (fupd d st h) d.
Proof. intros Hsz x Hx. apply fupd_ne. intros ->. apply Hx. unfold in_log. lia. Qed.

(** Clearing the header after a replay leaves the recovered disk. *)
Lemma cleared_recovered st sz d h :
  0 < sz -> hdr_n h = 0 -> home_eq st sz (recovered st (fupd (recovered st d) st h)) (recovered st d).
Proof. intros Hsz Hh. rewrite recovered_idle by (by rewrite fupd_eq). by apply home_fupd. Qed.

(** The replay of a consistent log, then its clearing: the end of both
    recovery and commit. *)
Lemma wp_install_clear (recovering : bool) c l bs :
  geo l -> quiet c (if recovering then [] else bs) ->
  (recovering = false -> NoDup bs /\ (length bs < nbuf)%nat) ->
  header_ok (start l) (size l) (c_disk c (start l)) -> hdr_blocks (c_disk c (start l)) = bs ->
  take (length bs) (lh_block l) = bs -> lh_n l = Z.of_nat (length bs) ->
  wp (install_trans recovering;; setlog (set_n 0);; write_head) (Lst c l) (fun _ s' => exists c',
    s' = Lst c' (set_n 0 l) /\ quiet c' [] /\
    home_eq (start l) (size l) (c_disk c') (recovered (start l) (c_disk c)) /\
    (forall x, ~ in_log (start l) (size l) x -> x ∉ bs -> c_cont c' x = c_cont c x) /\
    hdr_n (c_disk c' (start l)) = 0 /\ length (c_disk c' (start l)) = Z.to_nat BSIZE /\
    trace (fun d => home_eq (start l) (size l) (recovered (start l) d) (recovered (start l) (c_disk c))) c c').
Proof.
  intros Hg Hq Hrec Hok Hbs Htk Hn. pose proof (header_homes _ _ Hok) as Hhm. rewrite Hbs in Hhm.
  destruct Hok as (Hn0 & Hn1 & Hlen & Hb) eqn:Eok. clear Eok. pose proof (geo_size _ Hg) as Hsz.
  assert (Hnbs : length bs = Z.to_nat (hdr_n (c_disk c (start l)))).
  { rewrite <- Hbs. unfold hdr_blocks. by rewrite length_fmap, length_seq. }
  apply wp_bind. unfold install_trans. apply wp_bind, wp_gets. cbn [lg]. rewrite Hn, Nat2Z.id.
  eapply wp_mono; [apply wp_install_loop; [done|exact Hq|done|done| |lia]|].
  { intros i Hi. rewrite Nat.add_0_l. rewrite <- Htk at 1. by rewrite lookup_take_lt. }
  cbn beta. intros [] s' (c1 & -> & Hq1 & Hd1 & Hc1 & Htr1).
  assert (Hrd : c_disk c1 = recovered (start l) (c_disk c)) by (unfold recovered; by rewrite Hbs).
  assert (Hst : recovered (start l) (c_disk c) (start l) = c_disk c (start l)).
  { unfold recovered. rewrite Hbs. apply replay_out. apply (homes_not_log l); [done|]. unfold in_log. lia. }
  apply wp_bind. unfold setlog. apply wp_modify. cbn [cache lg].
  eapply wp_mono; [apply (wp_write_head c1 (set_n 0 l) []); [by destruct Hg; split|done| | |cbn [lh_n set_n]..]|].
  { vm_compute. lia. } { set_solver. } { unfold LOGSIZE, MAXOPBLOCKS. lia. }
  { cbn [start set_n]. by rewrite Hrd, Hst. } { cbn. intros b Hin. by apply not_elem_of_nil in Hin. }
  cbn beta. cbn [start lh_n set_n].
  intros [] s' (c2 & h & -> & Hq2 & Hd2 & Hw2 & Hc2 & Hl2 & Hh & _). exists c2.
  rewrite Hrd in Hd2. split_and!; [done|done| | | | |].
  - rewrite Hd2. by apply home_fupd.
  - intros x Hx Hxb. rewrite Hc2; [by apply Hc1|]. intros ->. apply Hx. unfold in_log. lia.
  - by rewrite Hd2, fupd_eq.
  - by rewrite Hd2, fupd_eq.
  - eapply trace_write; [|exact Hw2|by rewrite Hd2, Hrd|].
    + eapply trace_mono; [exact Htr1|]. intros d (j & ->) x _. rewrite <- Hbs. by apply (recovered_replay _ (size l)).
    + rewrite Hd2. by apply cleared_recovered.
Qed.

(** Recovery at boot.  [initlog], run on a fresh cache over any disk whose
    log header is sane, returns; the file system is then what the log says
    ([recovered]), the header is empty, nothing is left pinned or locked, and
    a crash at any of its disk writes leaves a disk that recovers to the same
    file system. *)
Lemma wp_initlog (c : C) (l0 : log) (sb : superblock) :
  let st := logstart sb in let sz := nlog sb in
  quiet c [] -> length (lh_block l0) = Z.to_nat LOGSIZE ->
  0 <= st -> 0 < sz <= LOGSIZE -> st + sz < 2 ^ 31 -> header_ok st sz (c_disk c st) ->
  wp (initlog ROOTDEV sb) (Lst c l0) (fun _ s' =>
    log_inv s' [] /\ start (lg s') = st /\ size (lg s') = sz /\
    outstanding (lg s') = outstanding l0 /\ committing (lg s') = committing l0 /\
    home_eq st sz (c_disk (cache s')) (recovered st (c_disk c)) /\
    trace (fun d => home_eq st sz (recovered st d) (recovered st (c_disk c))) c (cache s')).
Proof.
  intros st sz Hq Hl Hst Hsz Hend Hok. unfold initlog. change (logheader_size >=? BSIZE) with false. cbn iota.
  apply wp_bind. unfold setlog. apply wp_modify. cbn [cache lg]. rewrite !s32_small by (unfold st, sz in *; lia).
  fold st sz. unfold recover_from_log. set (l := Log st sz _ _ _ _ _).
  assert (Hg : geo l) by (split; cbn; try lia; try done; rewrite Hl; done).
  apply wp_bind. destruct Hok as (Hn0 & Hn1 & Hlen & Hb) eqn:Eok. clear Eok.
  eapply wp_mono; [apply (wp_read_head c l []); [done|done|vm_compute; lia|set_solver|cbn [start l]; lia]|].
  cbn beta. cbn [start l]. intros [] s' (c1 & bs & -> & Hq1 & Hd1 & Hw1 & Hc1 & Hbl & Htk).
  set (l1 := set_blocks bs (set_n _ l)). set (hb := hdr_blocks (c_disk c st)) in *.
  assert (Hnbs : length hb = Z.to_nat (hdr_n (c_disk c st))) by (unfold hb, hdr_blocks; by rewrite length_fmap, length_seq).
  eapply wp_mono; [apply (wp_install_clear true c1 l1 hb);
    [by destruct Hg; split|done|done|cbn; by rewrite Hd1|cbn; by rewrite Hd1| |cbn; lia]|].
  { cbn [l1 lh_block set_blocks]. by rewrite Hnbs. }
  cbn beta. intros [] s' (c2 & -> & Hq2 & Hd2 & _ & Hh2 & Hl2 & Htr). cbn [l1 start size set_blocks set_n l] in *.
  rewrite Hd1 in Hd2, Htr. split_and!; try done.
  - split; cbn; try done; try lia.
    + destruct Hg. by split.
    + by constructor.
    + intros b Hin. by apply not_elem_of_nil in Hin.
  - destruct Htr as (ws & Hw & Hdd & Htr). exists ws. rewrite Hd1 in Hdd, Htr. cbn [cache]. by rewrite Hw, Hw1.
Qed.

Lemma log_inv_bound s bs : log_inv s bs -> (length bs < nbuf)%nat /\ Z.of_nat (length bs) < LOGSIZE.
Proof.
  intros Hi. pose proof (li_n _ _ Hi). pose proof (li_room _ _ Hi). pose proof (li_size _ _ Hi).
  split; [|lia]. change nbuf with (Z.to_nat LOGSIZE). lia.
Qed.

(** Commit is atomic with respect to crashes.  From a log that holds the
    blocks [bs], [commit] returns; every disk it goes through recovers either
    to the file system before the transaction or to the one after it (the
    cached contents of all blocks), the last one to the latter; and then the
    log is empty and nothing is pinned. *)
Lemma wp_commit (s : lst C) (bs : list Z) :
  let st := start (lg s) in let sz := size (lg s) in
  log_inv s bs ->
  wp commit s (fun _ s' =>
    log_inv s' [] /\ lg s' = set_n 0 (lg s) /\
    home_eq st sz (c_disk (cache s')) (c_cont (cache s)) /\
    home_eq st sz (c_cont (cache s')) (c_cont (cache s)) /\
    trace (fun d => home_eq st sz (recovered st d) (c_disk (cache s)) \/
                    home_eq st sz (recovered st d) (c_cont (cache s))) (cache s) (cache s')).
Proof.
  destruct s as [c l]. intros st sz Hi. pose proof (log_inv_bound _ _ Hi) as [Hnb HnL].
  destruct Hi as [Hg Hn Hroom Hsz Htk Hnd Hhm Hq Hh Hhl]. cbn [cache lg] in *. fold st sz in Hroom, Hsz, Hh, Hhl.
  pose proof (geo_size _ Hg) as Hsz0. fold sz in Hsz0.
  assert (Hst : st ∉ bs) by (apply (homes_not_log l); [done|]; unfold in_log; lia).
  unfold commit. apply wp_bind, wp_gets. cbn [lg]. destruct (lh_n l >? 0) eqn:Epos.
  2:{ assert (bs = []) as -> by (destruct bs; [done|]; bool_prop; simpl in Hn; lia).
      apply wp_ret. cbn [cache lg]. assert (Hl : l = set_n 0 l) by (destruct l; cbn in *; by subst).
      assert (Hcl : home_eq st sz (c_disk c) (c_cont c)) by (intros x _; symmetry; eapply quiet_clean; [done|set_solver]).
      split_and!; try done. apply trace_refl; [done..|]. left. by rewrite recovered_idle. }
  apply wp_bind. unfold write_log. apply wp_bind, wp_gets. cbn [lg]. rewrite Hn, Nat2Z.id.
  eapply wp_mono; [apply (wp_write_log_loop _ _ _ _ bs); [done..| |lia]|].
  { intros i Hi. destruct (lookup_lt_is_Some_2 bs i) as [b Hb]; [lia|]. exists b.
    rewrite (lookup_take_self bs) by (try done; lia). split; [done|]. by eapply list_elem_of_lookup_2. }
  cbn beta. intros [] s' (c1 & -> & Hq1 & Hc1 & Hd1 & Hl1 & Htr1). fold st sz in Hc1, Hd1, Hl1, Htr1.
  assert (Hd1st : c_disk c1 st = c_disk c st) by (apply Hd1; lia).
  apply wp_bind. eapply wp_mono; [apply (wp_write_head c1 l bs); [done|done|done|done|lia| |]|].
  { fold st. by rewrite Hd1st. } { rewrite Hn, Nat2Z.id, Htk. intros b Hb. by apply Hhm. }
  cbn beta. intros [] s' (c2 & h & -> & Hq2 & Hd2 & Hw2 & Hc2 & Hlh & Hnh & Hbh). fold st in Hd2, Hw2, Hc2.
  rewrite Hn, Nat2Z.id, Htk in Hbh.
  assert (Hnew : home_eq st sz (recovered st (c_disk c2)) (c_cont c)).
  { intros x Hx. unfold recovered. rewrite Hd2, fupd_eq, Hbh. destruct (decide (x ∈ bs)) as [Hin|Hout].
    - apply list_elem_of_lookup in Hin as [j Hj]. pose proof (lookup_lt_Some _ _ _ Hj).
      rewrite (replay_lookup _ _ _ _ _ j) by done. rewrite fupd_ne by lia. apply Hl1; [lia|].
      by rewrite (lookup_take_self bs).
    - rewrite replay_out, fupd_ne by (try done; intros ->; apply Hx; unfold in_log; lia).
      rewrite Hd1 by (intros ?; apply Hx; unfold in_log; lia). symmetry. by eapply quiet_clean. }
  eapply wp_mono; [apply (wp_install_clear false c2 l bs); [done|done|done| | |done|done]|].
  { fold st sz. rewrite Hd2, fupd_eq. split_and!; [lia|lia|lia|done|]. rewrite Hbh. intros b Hb. destruct (Hhm b Hb). by split; [lia|]. }
  { fold st. by rewrite Hd2, fupd_eq. }
  cbn beta. fold st sz. intros [] s' (c3 & -> & Hq3 & Hd3 & _ & Hh3 & Hlh3 & Htr3). cbn [cache lg].
  assert (Hfin : home_eq st sz (c_disk c3) (c_cont c)) by (intros x Hx; rewrite Hd3 by done; by apply Hnew).
  split_and!; [|done|done| |].
  - split; cbn; try done; try lia; [by destruct Hg; split|by constructor|]. intros b Hb. by apply not_elem_of_nil in Hb.
  - intros x Hx. rewrite <- Hfin by done. eapply quiet_clean; [done|set_solver].
  - eapply (trace_trans _ (fun d => home_eq st sz (recovered st d) (recovered st (c_disk c2)))); [|exact Htr3|].
    + eapply trace_write; [eapply trace_mono; [exact Htr1|]|exact Hw2|exact Hd2|by right].
      intros d Hd. left. rewrite recovered_idle by (by rewrite Hd by lia). intros x Hx. apply Hd.
      intros ?. apply Hx. unfold in_log. lia.
    + intros d Hd. right. intros x Hx. rewrite Hd by done. by apply Hnew.
Qed.
End Theorems.
