(* ===== verification/TxSpec.v ===== *)
(** * What the log promises to the file system

    The interface between the log with its buffer cache and fs.c: block
    operations inside a transaction, and the transaction's boundaries.

    [tx s w d m bs hs] says that in state [s] a transaction is open; the disk
    has seen the writes [w], the committed contents of the blocks are [d], the
    current ones [m]; the blocks [bs] are logged, and the buffers [hs] (block
    number and buffer) are locked.  [idle s w d]: no transaction is open.
    [crash w] is the file system that recovery finds after a crash when
    the disk has seen the writes [w]. *)
From S2P Require Import Prelude Riscv Bio.

(** Equality on the blocks of the file system. *)
Definition eq_on (home : Z -> Prop) (d d' : Z -> block) : Prop := forall x, home x -> d x = d' x.

(** The logged blocks after [log_write] of [b]. *)
Definition log_add (b : Z) (bs : list Z) : list Z := if bool_decide (b ∈ bs) then bs else bs ++ [b].
Lemma length_log_add b bs : (length (log_add b bs) <= S (length bs))%nat.
Proof. unfold log_add. case_bool_decide; rewrite ?length_app; cbn; lia. Qed.
(** The locked buffers after [brelse] of block [b]. *)
Definition unlock (b : Z) (hs : list (Z * nat)) : list (Z * nat) := filter (fun p => p.1 <> b) hs.

Class BlockStore (S : Type) : Type := {
  b_bread : Z -> Z -> M S nat;
  b_brelse : nat -> M S unit;
  b_data : nat -> M S block;
  b_set_data : nat -> block -> M S unit;
  b_log_write : nat -> M S unit;
  b_begin_op : M S unit;
  b_end_op : M S unit;
  home : Z -> Prop;
  (** How many distinct blocks a transaction may log. *)
  b_cap : nat;
  crash : list (Z * block) -> Z -> block;
  idle : S -> list (Z * block) -> (Z -> block) -> Prop;
  tx : S -> list (Z * block) -> (Z -> block) -> (Z -> block) -> list Z -> list (Z * nat) -> Prop;
  tx_clean s w d m bs hs b : tx s w d m bs hs -> home b -> b ∉ bs -> b ∉ hs.*1 -> m b = d b;
  tx_nodup s w d m bs hs : tx s w d m bs hs -> NoDup hs.*1;
  tx_ext s w d m m' bs hs : eq_on home m m' -> tx s w d m bs hs -> tx s w d m' bs hs;
  tx_bread s w d m bs hs b :
    tx s w d m bs hs -> home b -> b ∉ hs.*1 -> b ∈ bs \/ (length bs + length hs < nbuf)%nat ->
    wp (b_bread ROOTDEV b) s (fun h s' => tx s' w d m bs ((b, h) :: hs));
  tx_data s w d m bs hs b h : tx s w d m bs hs -> (b, h) ∈ hs -> b_data h s = Ret (m b, s);
  tx_set_data s w d m bs hs b h x :
    tx s w d m bs hs -> (b, h) ∈ hs -> wp (b_set_data h x) s (fun _ s' => tx s' w d (fupd m b x) bs hs);
  tx_log_write s w d m bs hs b h :
    tx s w d m bs hs -> (b, h) ∈ hs -> (length bs < b_cap)%nat ->
    wp (b_log_write h) s (fun _ s' => tx s' w d m (log_add b bs) hs);
  tx_brelse s w d m bs hs b h :
    tx s w d m bs hs -> (b, h) ∈ hs -> b ∈ bs \/ m b = d b ->
    wp (b_brelse h) s (fun _ s' => tx s' w d m bs (unlock b hs));
  tx_begin_op s w d : idle s w d -> wp b_begin_op s (fun _ s' => tx s' w d d [] []);
  tx_end_op s w d m bs :
    tx s w d m bs [] -> wp b_end_op s (fun _ s' => exists ws, idle s' (w ++ ws) m /\
      forall k, eq_on home (crash (w ++ take k ws)) d \/ eq_on home (crash (w ++ take k ws)) m);
  idle_crash s w d : idle s w d -> eq_on home (crash w) d;
}.
