(* ===== verification/LogTx.v ===== *)
(** * The log implements transactions

    [log_store] shows that log.c, over any buffer cache, keeps the promises of
    TxSpec for the blocks outside the log. *)
From S2P Require Import Prelude Riscv Mem Bio BioSpec Block Log LogProofs LogTheorems TxSpec.

Section Tx.
Context {C : Type} `{BlockCache C}.
(** The place of the log on disk and the disk at boot. *)
Context (st sz : Z) (d0 : Z -> block).

Definition log_home (b : Z) : Prop := 0 <= b < 2 ^ 31 /\ ~ in_log st sz b.
Definition log_crash (w : list (Z * block)) : Z -> block := recovered st (apply_writes w d0).

Record log_tx (s : lst C) (w : list (Z * block)) (d m : Z -> block) (bs : list Z) (hs : list (Z * nat)) : Prop := LogTx {
  lt_geo : geo (lg s);
  lt_place : start (lg s) = st /\ size (lg s) = sz /\ sz <= LOGSIZE;
  lt_idle : outstanding (lg s) = 1 /\ committing (lg s) = false;
  lt_n : lh_n (lg s) = Z.of_nat (length bs);
  lt_room : lh_n (lg s) < sz;
  lt_bs : take (length bs) (lh_block (lg s)) = bs;
  lt_nodup : NoDup bs;
  lt_home : forall b, b ∈ bs -> log_home b;
  lt_ok : c_ok (cache s);
  lt_held : forall x h, c_held (cache s) x = Some h <-> (x, h) ∈ hs;
  lt_locks : NoDup hs.*1;
  lt_lhome : forall b, b ∈ hs.*1 -> log_home b;
  lt_refs : forall x, c_refs (cache s) x = (if bool_decide (x ∈ bs) then 1 else 0) + (if bool_decide (x ∈ hs.*1) then 1 else 0);
  lt_hdr : hdr_n (c_disk (cache s) st) = 0 /\ length (c_disk (cache s) st) = Z.to_nat BSIZE;
  lt_hist : c_writes (cache s) = w /\ c_disk (cache s) = apply_writes w d0;
  lt_disk : eq_on log_home (c_disk (cache s)) d;
  lt_cont : eq_on log_home (c_cont (cache s)) m;
}.

Definition log_idle (s : lst C) (w : list (Z * block)) (d : Z -> block) : Prop :=
  log_inv s [] /\ start (lg s) = st /\ size (lg s) = sz /\ outstanding (lg s) = 0 /\ committing (lg s) = false /\
  c_writes (cache s) = w /\ c_disk (cache s) = apply_writes w d0 /\ eq_on log_home (c_disk (cache s)) d.

Lemma log_tx_clean s w d m bs hs b : log_tx s w d m bs hs -> log_home b -> b ∉ bs -> b ∉ hs.*1 -> m b = d b.
Proof.
  intros Ht Hb Hbs Hhs. rewrite <- (lt_cont _ _ _ _ _ _ Ht b Hb), <- (lt_disk _ _ _ _ _ _ Ht b Hb).
  apply c_unused_clean; [apply Ht|]. rewrite (lt_refs _ _ _ _ _ _ Ht). by rewrite !bool_decide_eq_false_2.
Qed.

Lemma log_tx_ext s w d m m' bs hs : eq_on log_home m m' -> log_tx s w d m bs hs -> log_tx s w d m' bs hs.
Proof. intros Hm [? ? ? ? ? ? ? ? ? ? ? ? ? ? ? ? Hc]. split; try done. intros x Hx. rewrite Hc by done. by apply Hm. Qed.

Lemma held_in_log_tx s w d m bs hs b h : log_tx s w d m bs hs -> (b, h) ∈ hs -> c_held (cache s) b = Some h /\ log_home b /\ b ∈ hs.*1.
Proof.
  intros Ht Hin. split; [by apply (lt_held _ _ _ _ _ _ Ht)|].
  assert (b ∈ hs.*1) by (apply list_elem_of_fmap; by exists (b, h)). split; [|done]. by apply (lt_lhome _ _ _ _ _ _ Ht).
Qed.

(** The cache changed, the log and the disk did not. *)
Lemma log_tx_cache s c' w d m m' bs hs hs' :
  log_tx s w d m bs hs -> c_ok c' -> c_disk c' = c_disk (cache s) -> c_writes c' = c_writes (cache s) ->
  eq_on log_home (c_cont c') m' -> (forall x h, c_held c' x = Some h <-> (x, h) ∈ hs') ->
  NoDup hs'.*1 -> (forall b, b ∈ hs'.*1 -> log_home b) ->
  (forall x, c_refs c' x = (if bool_decide (x ∈ bs) then 1 else 0) + (if bool_decide (x ∈ hs'.*1) then 1 else 0)) ->
  log_tx (Lst c' (lg s)) w d m' bs hs'.
Proof. intros [] ? Hd Hw. split; cbn; rewrite ?Hd, ?Hw; done. Qed.

Lemma log_tx_bread s w d m bs hs b :
  log_tx s w d m bs hs -> log_home b -> b ∉ hs.*1 -> b ∈ bs \/ (length bs + length hs < nbuf)%nat ->
  wp (lift (c_bread ROOTDEV b)) s (fun h s' => log_tx s' w d m bs ((b, h) :: hs)).
Proof.
  intros Ht Hb Hhs Hroom. pose proof (lt_refs _ _ _ _ _ _ Ht) as Hr.
  assert (Hn : c_held (cache s) b = None).
  { destruct (c_held (cache s) b) as [h|] eqn:E; [|done]. apply (lt_held _ _ _ _ _ _ Ht) in E.
    destruct Hhs. apply list_elem_of_fmap. by exists (b, h). }
  apply wp_lift. eapply wp_mono; [apply c_bread_spec; [apply Ht|done| |]|].
  - rewrite Hr. repeat case_bool_decide; lia.
  - destruct Hroom as [Hin|Hlt]; [left; rewrite Hr, bool_decide_eq_true_2 by done; case_bool_decide; lia|right].
    eapply Nat.le_lt_trans; [apply (used_bound _ (bs ++ hs.*1)); [apply Ht|]|rewrite length_app, length_fmap; lia].
    intros x. rewrite Hr, elem_of_app. repeat case_bool_decide; auto; lia.
  - cbn beta. intros h c' (Hok & Hd & Hw & Hc & Hr' & Hh).
    apply (log_tx_cache s c' w d m m bs hs); [done..| | | | |].
    + intros x Hx. rewrite Hc. by apply (lt_cont _ _ _ _ _ _ Ht).
    + intros x h'. rewrite Hh. unfold fupd. rewrite elem_of_cons, <- (lt_held _ _ _ _ _ _ Ht).
      destruct (Z.eqb_spec x b) as [->|Hne]; [rewrite Hn|]; naive_solver.
    + cbn. constructor; [done|apply Ht].
    + cbn. intros x [->|Hx]%elem_of_cons; [done|by apply (lt_lhome _ _ _ _ _ _ Ht)].
    + intros x. rewrite Hr'. unfold fupd. cbn [fmap list_fmap fst]. destruct (Z.eqb_spec x b) as [->|Hne].
      * rewrite Hr, (bool_decide_eq_false_2 _ Hhs), (bool_decide_eq_true_2 (b ∈ b :: _)) by (by left). lia.
      * rewrite Hr. rewrite (bool_decide_ext (x ∈ b :: hs.*1) (x ∈ hs.*1)); [done|]. rewrite elem_of_cons. naive_solver.
Qed.

Lemma log_tx_data s w d m bs hs b h : log_tx s w d m bs hs -> (b, h) ∈ hs -> lift (c_data h) s = Ret (m b, s).
Proof.
  intros Ht Hin. destruct (held_in_log_tx _ _ _ _ _ _ _ _ Ht Hin) as (Hh & Hb & _).
  unfold lift. rewrite (c_data_spec _ b) by (done || apply Ht). rewrite (lt_cont _ _ _ _ _ _ Ht b Hb). by destruct s.
Qed.

Lemma log_tx_set_data s w d m bs hs b h x :
  log_tx s w d m bs hs -> (b, h) ∈ hs ->
  wp (lift (c_set_data h x)) s (fun _ s' => log_tx s' w d (fupd m b x) bs hs).
Proof.
  intros Ht Hin. destruct (held_in_log_tx _ _ _ _ _ _ _ _ Ht Hin) as (Hh & Hb & _).
  apply wp_lift. eapply wp_mono; [eapply c_set_data_spec; [apply Ht|done]|]. cbn beta.
  intros [] c' (Hok & Hd & Hw & Hc & Hr & Hh'). apply (log_tx_cache s c' w d m _ bs hs); [done..| | |apply Ht|apply Ht|].
  - intros y Hy. rewrite Hc. unfold fupd. destruct (y =? b); [done|]. by apply (lt_cont _ _ _ _ _ _ Ht).
  - intros y h'. rewrite Hh'. apply Ht.
  - intros y. rewrite Hr. apply Ht.
Qed.

Lemma unlock_fst b hs y : y ∈ (unlock b hs).*1 <-> y <> b /\ y ∈ hs.*1.
Proof.
  unfold unlock. rewrite !list_elem_of_fmap. split.
  - intros (p & -> & Hp). apply list_elem_of_filter in Hp as [Hne Hp]. eauto.
  - intros (Hne & p & -> & Hp). exists p. by rewrite list_elem_of_filter.
Qed.

Lemma unlock_nodup b hs : NoDup hs.*1 -> NoDup (unlock b hs).*1.
Proof. intros Hnd. eapply sublist_NoDup; [exact Hnd|]. apply fmap_sublist, sublist_filter. Qed.

Lemma log_tx_brelse s w d m bs hs b h :
  log_tx s w d m bs hs -> (b, h) ∈ hs -> b ∈ bs \/ m b = d b ->
  wp (lift (c_brelse h)) s (fun _ s' => log_tx s' w d m bs (unlock b hs)).
Proof.
  intros Ht Hin Hcl. destruct (held_in_log_tx _ _ _ _ _ _ _ _ Ht Hin) as (Hh & Hb & Hf).
  pose proof (lt_refs _ _ _ _ _ _ Ht) as Hr.
  apply wp_lift. eapply wp_mono; [eapply c_brelse_spec; [apply Ht|done|]|].
  { rewrite Hr, (bool_decide_eq_true_2 (b ∈ hs.*1)) by done. intros Hone. destruct Hcl as [Hbs|Hcl].
    - rewrite bool_decide_eq_true_2 in Hone by done. lia.
    - by rewrite (lt_cont _ _ _ _ _ _ Ht b Hb), (lt_disk _ _ _ _ _ _ Ht b Hb). }
  cbn beta. intros [] c' (Hok & Hd & Hw & Hc & Hr' & Hh'). apply (log_tx_cache s c' w d m _ bs hs); [done..| | | | |].
  - intros y Hy. rewrite Hc. by apply (lt_cont _ _ _ _ _ _ Ht).
  - intros y h'. rewrite Hh'. unfold unlock, fupd. rewrite list_elem_of_filter, <- (lt_held _ _ _ _ _ _ Ht). cbn.
    destruct (Z.eqb_spec y b) as [->|]; naive_solver.
  - apply unlock_nodup, Ht.
  - intros y [_ Hy]%unlock_fst. by apply (lt_lhome _ _ _ _ _ _ Ht).
  - intros y. rewrite Hr'. unfold fupd. rewrite !Hr, (bool_decide_ext _ _ (unlock_fst b hs y)).
    destruct (Z.eqb_spec y b) as [->|Hne].
    + rewrite (bool_decide_eq_true_2 (b ∈ hs.*1)), (bool_decide_eq_false_2 (b <> b /\ _)) by naive_solver. lia.
    + rewrite (bool_decide_ext (y <> b /\ y ∈ hs.*1) (y ∈ hs.*1)) by naive_solver. lia.
Qed.

(** The two cases of [log_write]: the block already has a slot, or takes the
    next one. *)
Lemma log_tx_absorbed s w d m bs hs b :
  log_tx s w d m bs hs -> b ∈ bs ->
  let i := absorb (length bs) 0 (lh_block (lg s)) b in
  (i < length bs)%nat /\ log_tx (Lst (cache s) (set_blocks (<[i := s32 b]> (lh_block (lg s))) (lg s))) w d m bs hs.
Proof.
  intros [[Hg1 Hg2 Hg3 Hg4 Hg5] Hp Hi Hn Hrm Hbs Hnd Hho Hok Hhe Hlk Hlh Hr Hhd Hhi Hd Hc] Hin i.
  assert (Hlen : (length bs <= length (lh_block (lg s)))%nat) by (rewrite <- Hbs, length_take; lia).
  assert (Hrg : forall x, x ∈ bs -> 0 <= x < 2 ^ 31) by (intros x Hx; apply Hho, Hx).
  pose proof (absorb_spec bs _ b Hbs Hnd Hrg Hlen) as Ha. cbv zeta in Ha. rewrite bool_decide_eq_true_2 in Ha by done.
  fold i in Ha. pose proof (lookup_lt_Some _ _ _ Ha) as Hi'. split; [done|].
  rewrite list_insert_id; [by split; cbn|]. rewrite (lookup_take_self bs) by done. rewrite Ha. f_equal. symmetry.
  apply s32_small. specialize (Hrg b Hin). lia.
Qed.

Lemma log_tx_added s c' w d m bs hs b :
  log_tx s w d m bs hs -> b ∉ bs -> log_home b -> Z.of_nat (length bs) + 1 < sz ->
  c_ok c' -> c_disk c' = c_disk (cache s) -> c_writes c' = c_writes (cache s) ->
  (forall x, c_cont c' x = c_cont (cache s) x) -> (forall x, c_held c' x = c_held (cache s) x) ->
  (forall x, c_refs c' x = fupd (c_refs (cache s)) b (c_refs (cache s) b + 1) x) ->
  log_tx (Lst c' (set_n (lh_n (lg s) + 1) (set_blocks (<[length bs := s32 b]> (lh_block (lg s))) (lg s)))) w d m (bs ++ [b]) hs.
Proof.
  intros [[Hg1 Hg2 Hg3 Hg4 Hg5] Hp Hi Hn Hrm Hbs Hnd Hho Hok Hhe Hlk Hlh Hr Hhd Hhi Hd Hc] Hb Hbh Hroom Hok' Hd' Hw' Hc' Hh' Hr'.
  split; cbn; rewrite ?length_app, ?Hd', ?Hw'; cbn [length]; try done; try lia.
  - split; cbn; try done. by rewrite length_insert.
  - rewrite Nat.add_1_r, (take_S_r _ _ b), take_insert_ge, Hbs; [done|lia|].
    rewrite list_lookup_insert_eq by (unfold log_home in *; lia). f_equal. apply s32_small. unfold log_home in Hbh. lia.
  - apply NoDup_app. split_and!; [done|set_solver|apply NoDup_singleton].
  - intros x [Hx|Hx]%elem_of_app; [by apply Hho|]. apply list_elem_of_singleton in Hx as ->. done.
  - intros x h'. by rewrite Hh'.
  - intros x. rewrite Hr'. unfold fupd. rewrite !Hr. destruct (Z.eqb_spec x b) as [->|Hne].
    + rewrite (bool_decide_eq_false_2 (b ∈ bs)), (bool_decide_eq_true_2 (b ∈ bs ++ [b])) by set_solver. lia.
    + rewrite (bool_decide_ext (x ∈ bs ++ [b]) (x ∈ bs)) by set_solver. lia.
  - intros x Hx. rewrite Hc'. by apply Hc.
Qed.

Lemma log_tx_log_write s w d m bs hs b h :
  log_tx s w d m bs hs -> (b, h) ∈ hs -> (length bs < Z.to_nat (sz - 1))%nat ->
  wp (log_write h) s (fun _ s' => log_tx s' w d m (log_add b bs) hs).
Proof.
  intros Ht Hin Hcap. destruct (held_in_log_tx _ _ _ _ _ _ _ _ Ht Hin) as (Hh & Hb & Hf).
  pose proof (lt_place _ _ _ _ _ _ Ht) as (Est & Esz & Hsz). pose proof (lt_n _ _ _ _ _ _ Ht) as Hn.
  pose proof (lt_idle _ _ _ _ _ _ Ht) as [Hout _]. pose proof (geo_len _ (lt_geo _ _ _ _ _ _ Ht)) as Hl.
  unfold log_write, too_big. apply wp_bind, wp_gets. rewrite Hn, Esz, Hout.
  replace (Z.of_nat (length bs) >=? LOGSIZE) with false by (symmetry; rewrite Z.geb_leb; apply Z.leb_gt; lia).
  replace (Z.of_nat (length bs) >=? sz - 1) with false by (symmetry; rewrite Z.geb_leb; apply Z.leb_gt; lia).
  cbn [orb]. change (1 <? 1) with false. cbn iota.
  apply wp_bind, wp_lift. eapply wp_eq; [apply c_blockno_spec; [apply Ht|done]|]. rewrite Nat2Z.id.
  apply wp_bind, wp_put_block.
  { destruct (absorb_out (length bs) 0 (lh_block (lg s)) b) as (Hj & _); lia. }
  unfold log_add. case_bool_decide as Hbs.
  - destruct (log_tx_absorbed _ _ _ _ _ _ b Ht Hbs) as [Hlt Ht'].
    rewrite (proj2 (Nat.eqb_neq _ _)) by lia. by apply wp_ret.
  - pose proof (absorb_spec bs (lh_block (lg s)) b (lt_bs _ _ _ _ _ _ Ht) (lt_nodup _ _ _ _ _ _ Ht)) as Ha.
    cbv zeta in Ha. rewrite bool_decide_eq_false_2 in Ha by done.
    rewrite Ha by (try lia; intros x Hx; by apply (lt_home _ _ _ _ _ _ Ht)). rewrite Nat.eqb_refl.
    apply wp_bind, wp_lift. cbn [cache lg]. eapply wp_mono; [eapply c_bpin_spec; [apply Ht|done|]|].
    { rewrite (lt_refs _ _ _ _ _ _ Ht). repeat case_bool_decide; lia. }
    cbn beta. intros [] c' (Hok & Hd & Hw & Hc & Hr & Hh'). unfold setlog. apply wp_modify. cbn [cache lg].
    rewrite <- Hn. by apply log_tx_added; [..|lia| | | | | |].
Qed.

Lemma log_begin_op s w d : log_idle s w d -> wp begin_op s (fun _ s' => log_tx s' w d d [] []).
Proof.
  intros ([Hg Hn Hrm Hsz Htk Hnd Hho [Hok Hhe Hr] Hhd Hhl] & Est & Esz & Hout & Hcm & Hw & Hd & Heq).
  unfold begin_op, must_wait. apply wp_bind, wp_gets. rewrite Hcm, Hn, Hout. cbn [length]. change (_ || _) with false. cbn iota.
  unfold setlog. apply wp_modify. cbn [cache lg]. rewrite Est, Esz in *.
  split; cbn; try done; try lia; try (intros b Hb; by apply not_elem_of_nil in Hb).
  - by destruct Hg; split.
  - intros x h. rewrite Hhe. split; [done|]. intros Hx. by apply not_elem_of_nil in Hx.
  - intros x Hx. rewrite <- Heq by done. apply c_unused_clean; [done|apply Hr].
Qed.

Lemma log_tx_inv s w d m bs l' :
  log_tx s w d m bs [] -> geo l' -> start l' = st -> size l' = sz -> lh_n l' = lh_n (lg s) -> lh_block l' = lh_block (lg s) ->
  log_inv (Lst (cache s) l') bs.
Proof.
  intros [Hg (Est & Esz & Hsz) Hi Hn Hrm Hbs Hnd Hho Hok Hhe Hlk Hlh Hr Hhd Hhi Hd Hc] Hg' Hst' Hsz' Hn' Hbl'.
  split; cbn; rewrite ?Hn', ?Hbl', ?Hst', ?Hsz'; try done; try lia.
  - intros b Hb. unfold log_home in Hho. rewrite Hst', Hsz'. by apply Hho.
  - split; [done| |].
    + intros x. destruct (c_held (cache s) x) eqn:E; [|done]. apply Hhe in E. by apply not_elem_of_nil in E.
    + intros x. rewrite Hr. cbn. rewrite (bool_decide_eq_false_2 (x ∈ [])) by apply not_elem_of_nil. lia.
Qed.

Lemma log_end_op s w d m bs :
  log_tx s w d m bs [] -> wp end_op s (fun _ s' => exists ws, log_idle s' (w ++ ws) m /\
    forall k, eq_on log_home (log_crash (w ++ take k ws)) d \/ eq_on log_home (log_crash (w ++ take k ws)) m).
Proof.
  intros Ht. pose proof (lt_place _ _ _ _ _ _ Ht) as (Est & Esz & Hsz). pose proof (lt_geo _ _ _ _ _ _ Ht) as Hg.
  pose proof (lt_idle _ _ _ _ _ _ Ht) as [Hout Hcm]. pose proof (lt_hist _ _ _ _ _ _ Ht) as [Hw Hd].
  unfold end_op. apply wp_bind, wp_gets. unfold setlog. apply wp_bind, wp_modify. rewrite Hcm, Hout. cbn [cache lg].
  change (1 - 1 =? 0) with true. cbn iota. apply wp_bind, wp_modify. cbn [cache lg]. apply wp_bind.
  set (l1 := set_committing true _).
  assert (Hi : log_inv (Lst (cache s) l1) bs) by (eapply log_tx_inv; [exact Ht|by destruct Hg; split|done..]).
  eapply wp_mono; [apply (wp_commit _ _ Hi)|]. cbn beta zeta. cbn [cache lg].
  replace (start l1) with st by done. replace (size l1) with sz by done.
  intros [] [c' l'] (Hi' & Hl' & Hfin & _ & ws & Hw' & Hd' & Htr). cbn [cache lg] in *. subst l'. apply wp_modify. cbn [cache lg].
  assert (Hon : forall f g, home_eq st sz f g -> eq_on log_home f g) by (intros f g Hfg x [_ Hx]; by apply Hfg).
  assert (Hmc : eq_on log_home (c_cont (cache s)) m) by apply Ht.
  assert (Hdc : eq_on log_home (c_disk (cache s)) d) by apply Ht.
  assert (Happ : forall l, apply_writes (w ++ l) d0 = apply_writes l (c_disk (cache s))).
  { intros l. rewrite Hd. unfold apply_writes. by rewrite foldl_app. }
  exists ws. split.
  - split_and!; cbn; try done.
    + destruct Hi'; split; try done. cbn in *. by destruct li_geo; split.
    + by rewrite Hw', Hw.
    + by rewrite Hd', Happ.
    + intros x Hx. rewrite (Hon _ _ Hfin) by done. by apply Hmc.
  - intros k. unfold log_crash. rewrite Happ. destruct (Htr k) as [Hk|Hk]; [left|right]; intros x Hx;
      rewrite (Hon _ _ Hk) by done; [by apply Hdc|by apply Hmc].
Qed.

Lemma log_idle_crash s w d : log_idle s w d -> eq_on log_home (log_crash w) d.
Proof.
  intros ([Hg Hn Hrm Hsz Htk Hnd Hho Hq Hhd Hhl] & Est & Esz & _ & _ & Hw & Hd & Heq). rewrite Est in Hhd.
  unfold log_crash. rewrite <- Hd, recovered_idle by done. done.
Qed.
End Tx.

(** The log over a buffer cache implements transactions on the blocks
    outside [st, st + sz); [d0] is the disk at boot. *)
Definition log_store {C} `{BlockCache C} (st sz : Z) (d0 : Z -> block) : BlockStore (lst C) := {|
  b_bread dev b := lift (c_bread dev b); b_brelse h := lift (c_brelse h); b_data h := lift (c_data h);
  b_set_data h x := lift (c_set_data h x); b_log_write := log_write; b_begin_op := begin_op; b_end_op := end_op;
  home := log_home st sz; b_cap := Z.to_nat (sz - 1); crash := log_crash st d0;
  idle := log_idle st sz d0; tx := log_tx st sz d0;
  tx_clean := log_tx_clean st sz d0; tx_nodup s w d m bs hs Ht := lt_locks _ _ _ _ _ _ _ _ _ Ht;
  tx_ext := log_tx_ext st sz d0; tx_bread := log_tx_bread st sz d0; tx_data := log_tx_data st sz d0;
  tx_set_data := log_tx_set_data st sz d0; tx_log_write := log_tx_log_write st sz d0;
  tx_brelse := log_tx_brelse st sz d0; tx_begin_op := log_begin_op st sz d0; tx_end_op := log_end_op st sz d0;
  idle_crash := log_idle_crash st sz d0;
|}.
