(* ===== verification/LogConc.v ===== *)
(** * Several operations in one transaction

    [begin_op], [log_write] and [end_op] of concurrent system calls, one step
    per critical section of [log.lock].  Each running operation carries the
    blocks it has written; a well-behaved one writes at most [MAXOPBLOCKS].
    The commit is one step, taken when no operation is running (its own steps
    are in LogTheorems). *)
From S2P Require Import Prelude Riscv Bio BioSpec Block Log LogProofs.

Record conc : Type := Conc { clog : log; ops : list (list Z) }.

Inductive cmd : Type :=
| Begin
| Write (i : nat) (b : Z)
| End (i : nat)
| Commit.

(** [log_write] of block [b], once its guards have passed. *)
Definition log_write_slot (b : Z) (l : log) : log :=
  let i := absorb (Z.to_nat (lh_n l)) 0 (lh_block l) b in
  let l' := set_blocks (<[i := s32 b]> (lh_block l)) l in
  if (i =? Z.to_nat (lh_n l))%nat then set_n (lh_n l + 1) l' else l'.

(** One critical section; [None] if it has to wait, panics, or is not what a
    well-behaved operation does. *)
Definition exec (c : cmd) (s : conc) : option conc :=
  let l := clog s in
  match c with
  | Begin => if must_wait l then None else Some (Conc (set_outstanding (outstanding l + 1) l) (ops s ++ [[]]))
  | Write i b =>
      w ← ops s !! i;
      if bool_decide ((b ∈ w \/ Z.of_nat (length w) < MAXOPBLOCKS) /\ 0 <= b < 2 ^ 31) && negb (too_big l) && (outstanding l >=? 1)
      then Some (Conc (log_write_slot b l) (<[i := if bool_decide (b ∈ w) then w else w ++ [b]]> (ops s)))
      else None
  | End i =>
      w ← ops s !! i;
      let l' := set_outstanding (outstanding l - 1) l in
      if committing l then None
      else Some (Conc (if outstanding l - 1 =? 0 then set_committing true l' else l') (delete i (ops s)))
  | Commit => if committing l then Some (Conc (set_n 0 (set_committing false l)) (ops s)) else None
  end.

Inductive reachable (s0 : conc) : conc -> Prop :=
| reach_init : reachable s0 s0
| reach_step s c s' : reachable s0 s -> exec c s = Some s' -> reachable s0 s'.

(** The log after [initlog]. *)
Definition conc_init (sz : Z) : conc := Conc (Log 2 sz 0 false ROOTDEV 0 (replicate (Z.to_nat LOGSIZE) 0)) [].

(** ** The reservation invariant *)

(** What the running operations may still log. *)
Definition reserved (os : list (list Z)) : Z := foldr (fun w r => MAXOPBLOCKS - Z.of_nat (length w) + r) 0 os.

Record conc_inv (sz : Z) (s : conc) : Prop := ConcInv {
  ci_size : size (clog s) = sz;
  ci_len : length (lh_block (clog s)) = Z.to_nat LOGSIZE;
  ci_n : 0 <= lh_n (clog s) <= LOGSIZE;
  ci_out : outstanding (clog s) = Z.of_nat (length (ops s));
  ci_budget : lh_n (clog s) + reserved (ops s) <= LOGSIZE;
  ci_range : forall b, b ∈ take (Z.to_nat (lh_n (clog s))) (lh_block (clog s)) -> 0 <= b < 2 ^ 31;
  ci_nodup : NoDup (take (Z.to_nat (lh_n (clog s))) (lh_block (clog s)));
  ci_each : forall w, w ∈ ops s -> NoDup w /\ Z.of_nat (length w) <= MAXOPBLOCKS /\
              forall b, b ∈ w -> 0 <= b < 2 ^ 31 /\ b ∈ take (Z.to_nat (lh_n (clog s))) (lh_block (clog s));
  ci_commit : committing (clog s) = true -> ops s = [];
}.

Lemma reserved_app os os' : reserved (os ++ os') = reserved os + reserved os'.
Proof. induction os as [|w os IH]; simpl; lia. Qed.

Lemma reserved_nonneg os : (forall w, w ∈ os -> Z.of_nat (length w) <= MAXOPBLOCKS) -> 0 <= reserved os.
Proof.
  induction os as [|w os IH]; intros Hw; simpl; [lia|]. pose proof (Hw w ltac:(by left)).
  assert (0 <= reserved os) by (apply IH; intros; apply Hw; by right). lia.
Qed.

Lemma reserved_lookup os i w : os !! i = Some w ->
  reserved os = reserved (delete i os) + (MAXOPBLOCKS - Z.of_nat (length w)).
Proof.
  revert i. induction os as [|x os IH]; intros [|i] Hi; try done; simpl in *; [injection Hi as ->; lia|].
  rewrite (IH i) by done. lia.
Qed.

Lemma reserved_insert os i w w' : os !! i = Some w ->
  reserved (<[i := w']> os) = reserved os + Z.of_nat (length w) - Z.of_nat (length w').
Proof.
  revert i. induction os as [|x os IH]; intros [|i] Hi; try done; simpl in *; [injection Hi as ->; lia|].
  rewrite (IH i) by done. lia.
Qed.

Lemma reserved_le os : reserved os <= MAXOPBLOCKS * Z.of_nat (length os).
Proof. induction os as [|w os IH]; simpl; lia. Qed.

Lemma elem_of_insert_inv {A} (x y : A) (i : nat) (l : list A) : x ∈ <[i := y]> l -> x ∈ l \/ x = y.
Proof.
  intros [j Hj]%list_elem_of_lookup. apply list_lookup_insert_Some in Hj as [(-> & -> & _)|[_ Hj]]; [by right|left].
  by eapply list_elem_of_lookup_2.
Qed.

(** What [log_write] does to the logged blocks. *)
Lemma log_write_slot_spec b l bs :
  length (lh_block l) = Z.to_nat LOGSIZE -> 0 <= lh_n l < LOGSIZE -> 0 <= b < 2 ^ 31 ->
  bs = take (Z.to_nat (lh_n l)) (lh_block l) -> NoDup bs -> (forall x, x ∈ bs -> 0 <= x < 2 ^ 31) ->
  let l' := log_write_slot b l in
  let bs' := if bool_decide (b ∈ bs) then bs else bs ++ [b] in
  size l' = size l /\ outstanding l' = outstanding l /\ committing l' = committing l /\
  length (lh_block l') = Z.to_nat LOGSIZE /\ lh_n l' = Z.of_nat (length bs') /\
  take (Z.to_nat (lh_n l')) (lh_block l') = bs'.
Proof.
  intros Hlen Hn Hb Ebs Hnd Hrg.
  assert (Hbl : length bs = Z.to_nat (lh_n l)) by (rewrite Ebs, length_take; lia).
  assert (Htk : take (length bs) (lh_block l) = bs) by (by rewrite Hbl).
  pose proof (absorb_spec bs (lh_block l) b Htk Hnd Hrg ltac:(lia)) as Ha. cbv zeta in Ha. rewrite Hbl in Ha.
  unfold log_write_slot. set (i := absorb _ _ _ _) in *. case_bool_decide as Hin; cbv zeta.
  - pose proof (lookup_lt_Some _ _ _ Ha). rewrite (proj2 (Nat.eqb_neq _ _)) by lia.
    rewrite list_insert_id; [split_and!; cbn; try done; lia|].
    rewrite (lookup_take_self bs), Ha by (done || lia). by rewrite s32_small by lia.
  - rewrite Ha, Nat.eqb_refl. split_and!; cbn; try done; [by rewrite length_insert|rewrite length_app; cbn; lia|].
    replace (Z.to_nat (lh_n l + 1)) with (S (length bs)) by lia. rewrite <- Hbl, (take_S_r _ _ b), take_insert_ge, Htk; [done|lia|].
    rewrite list_lookup_insert_eq by lia. by rewrite s32_small by lia.
Qed.

Lemma conc_inv_write sz s i b s' : conc_inv sz s -> exec (Write i b) s = Some s' -> conc_inv sz s'.
Proof.
  intros [Hsz Hlen Hn Hout Hbud Hrg Hnd Heach Hcom] E. cbn in E. destruct (ops s !! i) as [w|] eqn:Hi; [|done]. cbn in E.
  destruct (_ && _ && _) eqn:Eg; [|done]. injection E as <-. unfold too_big in Eg. bool_prop.
  match goal with H : bool_decide _ = true |- _ => apply bool_decide_eq_true_1 in H as [Hw Hb] end. bool_prop.
  assert (Hin : w ∈ ops s) by (by eapply list_elem_of_lookup_2).
  destruct (Heach w Hin) as (Hndw & Hlw & Hsub).
  destruct (log_write_slot_spec b (clog s) _ Hlen ltac:(lia) Hb eq_refl Hnd Hrg) as (E1 & E2 & E3 & E4 & E5 & E6).
  set (l' := log_write_slot b (clog s)) in *. set (bs := take _ (lh_block (clog s))) in *.
  assert (Hbl : Z.of_nat (length bs) = lh_n (clog s)) by (unfold bs; rewrite length_take; lia).
  assert (Hadd : forall x, x ∈ bs -> x ∈ if bool_decide (b ∈ bs) then bs else bs ++ [b]).
  { intros x Hx. case_bool_decide; [done|]. apply elem_of_app. by left. }
  assert (Hbin : b ∈ if bool_decide (b ∈ bs) then bs else bs ++ [b]) by (case_bool_decide; set_solver).
  assert (Hres : reserved (<[i := if bool_decide (b ∈ w) then w else w ++ [b]]> (ops s)) =
     reserved (ops s) - (if bool_decide (b ∈ w) then 0 else 1)).
  { rewrite (reserved_insert _ _ w) by done. destruct (bool_decide (b ∈ w)); rewrite ?length_app; cbn [length]; lia. }
  split; cbn [clog ops]; rewrite ?E1, ?E2, ?E3, ?E6; try done.
  - rewrite E5. destruct (bool_decide (b ∈ bs)); rewrite ?length_app; cbn [length]; lia.
  - by rewrite length_insert.
  - rewrite E5, Hres. destruct (bool_decide (b ∈ w)) eqn:Ew.
    + apply bool_decide_eq_true_1 in Ew. destruct (Hsub b Ew) as [_ ?]. rewrite bool_decide_eq_true_2 by done. lia.
    + destruct (bool_decide (b ∈ bs)); rewrite ?length_app; cbn [length]; lia.
  - intros x. destruct (bool_decide_reflect (b ∈ bs)); [apply Hrg|]. intros [Hx|Hx]%elem_of_app; [by apply Hrg|].
    apply list_elem_of_singleton in Hx as ->. done.
  - destruct (bool_decide_reflect (b ∈ bs)); [done|]. apply NoDup_app. split_and!; [done|set_solver|apply NoDup_singleton].
  - intros x [Hx| ->]%elem_of_insert_inv.
    + destruct (Heach x Hx) as (? & ? & Hs). split_and!; [done..|]. intros y Hy. destruct (Hs y Hy). auto.
    + case_bool_decide as Ew.
      * split_and!; [done..|]. intros y Hy. destruct (Hsub y Hy). auto.
      * split_and!; [apply NoDup_app; split_and!; [done|set_solver|apply NoDup_singleton]|rewrite length_app; cbn [length]; destruct Hw; [done|lia]|].
        intros y [Hy|Hy]%elem_of_app; [destruct (Hsub y Hy); auto|]. apply list_elem_of_singleton in Hy as ->. done.
  - intros Hc. specialize (Hcom Hc). rewrite Hcom in Hi. done.
Qed.

Lemma conc_inv_init sz : conc_inv sz (conc_init sz).
Proof.
  split; cbn [conc_init clog ops size lh_n lh_block outstanding committing]; try done;
    try (intros ? Hx; by apply not_elem_of_nil in Hx). constructor.
Qed.

Lemma elem_of_delete_sub {A} (x : A) (i : nat) (l : list A) : x ∈ delete i l -> x ∈ l.
Proof. intros Hx. eapply (elem_of_submseteq _ _ _ Hx), sublist_submseteq, sublist_delete. Qed.

Lemma conc_inv_step sz s c s' : conc_inv sz s -> exec c s = Some s' -> conc_inv sz s'.
Proof.
  intros Hi E. destruct c as [|i b|i|]; [|by eapply conc_inv_write| |]; destruct Hi as [Hsz Hlen Hn Hout Hbud Hrg Hnd Heach Hcom].
  - cbn in E. destruct (must_wait (clog s)) eqn:Ew; [done|]. injection E as <-. unfold must_wait in Ew. bool_prop.
    assert (Hres : reserved (ops s ++ [[]]) = reserved (ops s) + MAXOPBLOCKS) by (rewrite reserved_app; done).
    pose proof (reserved_le (ops s)). split; cbn [clog ops]; try done.
    + cbn [outstanding set_outstanding]. rewrite length_app. cbn [length]. lia.
    + rewrite Hres. cbn [lh_n set_outstanding]. lia.
    + intros w [Hw|Hw]%elem_of_app; [by apply Heach|]. apply list_elem_of_singleton in Hw as ->. split_and!; [constructor|done|].
      intros b Hb. by apply not_elem_of_nil in Hb.
    + cbn [committing set_outstanding]. congruence.
  - cbn in E. destruct (ops s !! i) as [w|] eqn:Hw; [|done]. cbn in E. destruct (committing (clog s)) eqn:Ec; [done|].
    injection E as <-. pose proof (reserved_lookup _ _ _ Hw) as Hres. pose proof (lookup_lt_Some _ _ _ Hw) as Hlt.
    assert (Hle : Z.of_nat (length w) <= MAXOPBLOCKS) by (apply Heach; by eapply list_elem_of_lookup_2).
    assert (Hdl : length (delete i (ops s)) = (length (ops s) - 1)%nat) by (rewrite length_delete; [lia|by exists w]).
    assert (Hd : forall w, w ∈ delete i (ops s) -> w ∈ ops s) by (intros w' Hw'; by eapply elem_of_delete_sub).
    destruct (outstanding (clog s) - 1 =? 0) eqn:E0; bool_prop; split; cbn [clog ops]; try done;
      cbn [outstanding set_outstanding set_committing lh_n committing]; rewrite ?Hdl; try lia; try (by intros w' Hw'; apply Heach, Hd).
    + intros _. apply nil_length_inv. lia.
    + congruence.
  - cbn in E. destruct (committing (clog s)) eqn:Ec; [|done]. injection E as <-. rewrite (Hcom eq_refl) in *.
    split; cbn [clog ops]; try done; cbn [lh_n set_n take Z.to_nat]; try done.
    + intros b Hb. by apply not_elem_of_nil in Hb.
    + constructor.
    + intros w Hw. by apply not_elem_of_nil in Hw.
Qed.

Lemma conc_inv_reachable sz s : reachable (conc_init sz) s -> conc_inv sz s.
Proof. induction 1 as [|s c s' _ IH E]; [apply conc_inv_init|by eapply conc_inv_step]. Qed.


(** A run of critical sections. *)
Fixpoint run (cs : list cmd) (s : conc) : option conc :=
  match cs with
  | [] => Some s
  | c :: cs' => s' ← exec c s; run cs' s'
  end.

Lemma run_reachable s0 cs s s' : reachable s0 s -> run cs s = Some s' -> reachable s0 s'.
Proof.
  revert s. induction cs as [|c cs IH]; intros s Hr E; cbn in E; [by injection E as <-|].
  destruct (exec c s) as [s1|] eqn:E1; [|done]. eapply IH; [|exact E]. by eapply reach_step.
Qed.

(** Three operations start, and log 29 blocks, ten, ten and nine. *)
Definition full_run : list cmd :=
  [Begin; Begin; Begin] ++ ((fun b => Write (Z.to_nat (b / 10)) (100 + b)) <$> seqZ 0 29).

(** C40: with the log mkfs lays out ([nlog = LOGSIZE], header included), the
    reservation is not enough: three operations that [begin_op] admitted can
    reach a state in which one of them, having written nine blocks, panics in
    its next [log_write]. *)
Theorem log_reservation_overflow :
  exists s w, reachable (conc_init LOGSIZE) s /\ ops s !! 2%nat = Some w /\
    Z.of_nat (length w) < MAXOPBLOCKS /\ too_big (clog s) = true.
Proof.
  destruct (run full_run (conc_init LOGSIZE)) as [s|] eqn:E; [|vm_compute in E; discriminate].
  exists s, (seqZ 120 9). pose proof (run_reachable _ _ _ _ (reach_init _) E) as Hr. split; [done|].
  vm_compute in E. injection E as <-. vm_compute. done.
Qed.

