(* ===== verification/Crash.v ===== *)
(** * Crash safety of the log over the buffer cache

    The code of bio.c and log.c together: boot with recovery, and a whole
    transaction in the pattern log.c documents.  The crash points are the
    prefixes of the disk writes. *)
From S2P Require Import Prelude Riscv Mem Bio BioSpec BioProofs Block Log LogProofs LogTheorems TxSpec LogTx.

(** The log before [initlog]: zero. *)
Definition log0 : log := Log 0 0 0 false 0 0 (replicate (Z.to_nat LOGSIZE) 0).

(** [main] calls [binit]; the first process calls [initlog] through [fsinit]. *)
Definition boot (sb : superblock) : M (lst bst) unit := lift binit;; initlog ROOTDEV sb.

(** bp = bread(...); modify bp->data[]; log_write(bp); brelse(bp) *)
Fixpoint log_updates {C} `{BlockCache C} (us : list (Z * block)) : M (lst C) unit :=
  match us with
  | [] => ret tt
  | (b, x) :: us' =>
      h <- lift (c_bread ROOTDEV b);;
      lift (c_set_data h x);;
      log_write h;;
      lift (c_brelse h);;
      log_updates us'
  end.
Definition transaction {C} `{BlockCache C} (us : list (Z * block)) : M (lst C) unit :=
  begin_op;; log_updates us;; end_op.

Lemma eq_on_home st sz f g : home_eq st sz f g -> eq_on (log_home st sz) f g.
Proof. intros Hfg x [_ Hx]. by apply Hfg. Qed.

Lemma wp_boot (d : Z -> block) (pid : Z) (sb : superblock) :
  let st := logstart sb in let sz := nlog sb in
  0 <= st -> 0 < sz <= LOGSIZE -> st + sz < 2 ^ 31 -> header_ok st sz (d st) ->
  wp (boot sb) (Lst (bst_init d pid) log0) (fun _ s' => exists ws,
    log_idle st sz d s' ws (recovered st d) /\
    forall k, eq_on (log_home st sz) (log_crash st d (take k ws)) (recovered st d)).
Proof.
  intros st sz Hst Hsz Hend Hok. unfold boot. apply wp_bind, wp_lift. cbn [cache lg].
  eapply wp_mono; [apply wp_binit|]. cbn beta. intros [] c (Hck & Hd & Hw & _ & Hr & Hh).
  assert (Hq : quiet c []).
  { split; [done|done|]. intros x. rewrite bool_decide_eq_false_2 by apply not_elem_of_nil. apply Hr. }
  eapply wp_mono; [apply wp_initlog; [done|reflexivity|done..|]|].
  { change (c_disk c) with (disk c). by rewrite Hd. }
  cbn beta zeta. fold st sz. intros [] s' (Hi & Est & Esz & Hout & Hcm & Hfs & ws & Hw' & Hd' & Htr).
  change (c_disk c) with (disk c) in *. change (c_writes c) with (writes c) in Hw'. rewrite Hd, Hw in *. exists ws. split.
  - split_and!; try done. by apply eq_on_home.
  - intros k. apply eq_on_home, Htr.
Qed.

(** C9: recovery at boot.  On any disk whose log header is sane, the buffer cache
    and the log start up; the file system is then what the log on disk says,
    and a crash at any point of the recovery leaves a disk that recovers to the
    same file system. *)
Theorem boot_recovers (d : Z -> block) (pid : Z) (sb : superblock) :
  let st := logstart sb in let sz := nlog sb in
  0 <= st -> 0 < sz <= LOGSIZE -> st + sz < 2 ^ 31 -> header_ok st sz (d st) ->
  wp (boot sb) (Lst (bst_init d pid) log0) (fun _ s' => exists ws,
    log_idle st sz d s' ws (recovered st d) /\
    forall k, eq_on (log_home st sz) (log_crash st d (take k ws)) (recovered st d)).
Proof. apply wp_boot. Qed.

(** ** Transactions *)

Section Transaction.
Context {C : Type} `{BlockCache C} (st sz : Z) (d0 : Z -> block).

Lemma wp_log_updates us s w d m bs :
  log_tx st sz d0 s w d m bs [] -> (forall b x, (b, x) ∈ us -> log_home st sz b) ->
  (length bs + length us <= Z.to_nat (sz - 1))%nat -> sz <= LOGSIZE ->
  wp (log_updates us) s (fun _ s' => exists bs', log_tx st sz d0 s' w d (apply_writes us m) bs' []).
Proof.
  revert s m bs. induction us as [|[b x] us IH]; intros s m bs Ht Hus Hlen Hsz; cbn [log_updates].
  - apply wp_ret. by exists bs.
  - assert (Hb : log_home st sz b) by (apply (Hus b x); by left). cbn [length] in Hlen.
    apply wp_bind. eapply wp_mono; [apply (log_tx_bread st sz d0); [exact Ht|done|apply not_elem_of_nil|right]|].
    { change nbuf with (Z.to_nat LOGSIZE). cbn [length]. lia. }
    cbn beta. intros h s1 Ht1. assert (Hin : (b, h) ∈ [(b, h)]) by (by left).
    apply wp_bind. eapply wp_mono; [apply (log_tx_set_data st sz d0); [exact Ht1|exact Hin]|]. cbn beta. intros [] s2 Ht2.
    apply wp_bind. eapply wp_mono; [apply (log_tx_log_write st sz d0); [exact Ht2|exact Hin|lia]|]. cbn beta. intros [] s3 Ht3.
    apply wp_bind. eapply wp_mono; [eapply (log_tx_brelse st sz d0); [exact Ht3|exact Hin|left]|].
    { unfold log_add. case_bool_decide; [done|]. apply elem_of_app. right. by left. }
    cbn beta. intros [] s4 Ht4. replace (unlock b [(b, h)]) with (@nil (Z * nat)) in Ht4.
    2:{ unfold unlock. by rewrite filter_cons_False by naive_solver. }
    pose proof (length_log_add b bs). eapply wp_mono; [apply (IH s4 _ _ Ht4); [|lia|done]|by cbn].
    intros b' x' Hin'. eapply Hus. right. exact Hin'.
Qed.

(** C3: a transaction is atomic.  From an idle log, a transaction that updates at
    most as many blocks as the log holds, in the pattern log.c documents,
    returns; the log is idle again and the updates are on disk; and a crash
    at any of its disk writes recovers to the file system before it or to the
    one with all its updates. *)
Theorem transaction_atomic (us : list (Z * block)) (s : lst C) (w : list (Z * block)) (d : Z -> block) :
  log_idle st sz d0 s w d -> (forall b x, (b, x) ∈ us -> log_home st sz b) -> Z.of_nat (length us) < sz ->
  wp (transaction us) s (fun _ s' => exists ws,
    log_idle st sz d0 s' (w ++ ws) (apply_writes us d) /\
    forall k, eq_on (log_home st sz) (log_crash st d0 (w ++ take k ws)) d \/
              eq_on (log_home st sz) (log_crash st d0 (w ++ take k ws)) (apply_writes us d)).
Proof.
  intros Hi Hus Hlen. assert (Hsz : sz <= LOGSIZE).
  { destruct Hi as (Hi & _ & <- & _). by apply (li_size _ _ Hi). }
  unfold transaction. apply wp_bind. eapply wp_mono; [by apply (log_begin_op st sz d0)|]. cbn beta. intros [] s1 Ht1.
  apply wp_bind. eapply wp_mono; [apply (wp_log_updates us _ _ _ _ _ Ht1 Hus); [cbn [length]; lia|done]|].
  cbn beta. intros [] s2 (bs & Ht2). by apply (log_end_op st sz d0 _ _ _ _ bs).
Qed.
End Transaction.

(** ** Witnesses *)

(** A zeroed disk with a log of [LOGSIZE] blocks at block 2, as mkfs lays out. *)
Definition blank : Z -> block := fun _ => replicate (Z.to_nat BSIZE) 0.
Definition sb0 : superblock := Superblock FSMAGIC 1000 954 200 LOGSIZE 2 32 45.

Lemma header_ok_blank : header_ok 2 LOGSIZE (blank 2).
Proof.
  assert (Hn : hdr_n (blank 2) = 0) by (vm_compute; reflexivity). unfold header_ok. rewrite Hn.
  split_and!; [done..|]. unfold hdr_blocks. rewrite Hn. intros b Hb. by apply not_elem_of_nil in Hb.
Qed.

Lemma boot_recovers_witness :
  wp (boot sb0) (Lst (bst_init blank 1) log0) (fun _ s' => exists ws,
    log_idle 2 LOGSIZE blank s' ws (recovered 2 blank) /\
    forall k, eq_on (log_home 2 LOGSIZE) (log_crash 2 blank (take k ws)) (recovered 2 blank)).
Proof. exact (boot_recovers blank 1 sb0 ltac:(done) ltac:(done) ltac:(done) header_ok_blank). Defined.

Lemma transaction_atomic_witness : exists (s : lst bst) w,
  log_idle 2 LOGSIZE blank s w (recovered 2 blank) /\
  wp (transaction [(50, [1]); (60, [2])]) s (fun _ s' => exists ws,
    log_idle 2 LOGSIZE blank s' (w ++ ws) (apply_writes [(50, [1]); (60, [2])] (recovered 2 blank)) /\
    forall k, eq_on (log_home 2 LOGSIZE) (log_crash 2 blank (w ++ take k ws)) (recovered 2 blank) \/
              eq_on (log_home 2 LOGSIZE) (log_crash 2 blank (w ++ take k ws))
                (apply_writes [(50, [1]); (60, [2])] (recovered 2 blank))).
Proof.
  destruct (wp_inv _ _ _ (wp_boot blank 1 sb0 ltac:(done) ltac:(done) ltac:(done) header_ok_blank)) as (u & s & _ & w & Hi & _).
  exists s, w. split; [exact Hi|]. apply (transaction_atomic 2 LOGSIZE blank); [exact Hi| |done].
  intros b x Hin. unfold log_home, in_log. change LOGSIZE with 30.
  apply elem_of_cons in Hin as [[= -> _]|Hin]; [lia|]. apply list_elem_of_singleton in Hin as [= -> _]. lia.
Defined.
