(* ===== verification/Fs.v ===== *)
(** * kernel/fs.c: blocks, inodes, directories, paths

    The file system over any implementation of transactions (TxSpec).  An
    inode pointer is an index into the table [itable]; NULL is [None].  The
    code is run by one process; locking an inode that is already locked
    blocks for ever ([Diverge]). *)
From S2P Require Import Prelude Riscv Mem KString Bio Block TxSpec.

(** ** fs.h, stat.h, file.h *)

Definition ROOTINO : Z := 1.
Definition NDIRECT : Z := 12.
Definition NINDIRECT : Z := BSIZE / 4.
Definition MAXFILE : Z := NDIRECT + NINDIRECT.
Definition dinode_size : Z := 2 + 2 + 2 + 2 + 4 + 4 * (NDIRECT + 1).
Definition IPB : Z := BSIZE / dinode_size.
Definition IBLOCK (i : Z) (sb : superblock) : Z := i / IPB + inodestart sb.
Definition BPB : Z := BSIZE * 8.
Definition BBLOCK (b : Z) (sb : superblock) : Z := b / BPB + bmapstart sb.
Definition DIRSIZ : Z := 14.
Definition dirent_size : Z := 2 + DIRSIZ.
Definition T_DIR : Z := 1.
Definition T_FILE : Z := 2.
Definition T_DEVICE : Z := 3.

Record inode : Type := Inode {
  idev : Z;
  inum : Z;
  iref : Z;
  ilocked : bool;
  ivalid : bool;
  itype : Z;
  imajor : Z;
  iminor : Z;
  inlink : Z;
  isize : Z;
  iaddrs : list Z;
}.
#[global] Instance inode_inhabited : Inhabited inode := populate (Inode 0 0 0 false false 0 0 0 0 0 []).

Definition set_iref (r : Z) (ip : inode) := Inode (idev ip) (inum ip) r (ilocked ip) (ivalid ip) (itype ip) (imajor ip) (iminor ip) (inlink ip) (isize ip) (iaddrs ip).
Definition set_ilocked (b : bool) (ip : inode) := Inode (idev ip) (inum ip) (iref ip) b (ivalid ip) (itype ip) (imajor ip) (iminor ip) (inlink ip) (isize ip) (iaddrs ip).
Definition set_ivalid (b : bool) (ip : inode) := Inode (idev ip) (inum ip) (iref ip) (ilocked ip) b (itype ip) (imajor ip) (iminor ip) (inlink ip) (isize ip) (iaddrs ip).
Definition set_itype (t : Z) (ip : inode) := Inode (idev ip) (inum ip) (iref ip) (ilocked ip) (ivalid ip) t (imajor ip) (iminor ip) (inlink ip) (isize ip) (iaddrs ip).
Definition set_inlink (n : Z) (ip : inode) := Inode (idev ip) (inum ip) (iref ip) (ilocked ip) (ivalid ip) (itype ip) (imajor ip) (iminor ip) n (isize ip) (iaddrs ip).
Definition set_isize (n : Z) (ip : inode) := Inode (idev ip) (inum ip) (iref ip) (ilocked ip) (ivalid ip) (itype ip) (imajor ip) (iminor ip) (inlink ip) n (iaddrs ip).
Definition set_iaddrs (a : list Z) (ip : inode) := Inode (idev ip) (inum ip) (iref ip) (ilocked ip) (ivalid ip) (itype ip) (imajor ip) (iminor ip) (inlink ip) (isize ip) a.

(** ** The inode on disk: [struct dinode] at offset [o] of its block *)

Definition dinode_off (inum : Z) : Z := (inum mod IPB) * dinode_size.

Fixpoint get_addrs (k : nat) (d : block) (o : Z) : list Z :=
  match k with
  | O => []
  | S k' => get32 d o :: get_addrs k' d (o + 4)
  end.
Fixpoint put_addrs (l : list Z) (d : block) (o : Z) : block :=
  match l with
  | [] => d
  | a :: l' => put_addrs l' (put32 d o a) (o + 4)
  end.

(** The fields of [ip] that live on disk, written to and read from a block. *)
Definition put_dinode (ip : inode) (d : block) (o : Z) : block :=
  let d := put16 d o (itype ip) in
  let d := put16 d (o + 2) (imajor ip) in
  let d := put16 d (o + 4) (iminor ip) in
  let d := put16 d (o + 6) (inlink ip) in
  let d := put32 d (o + 8) (isize ip) in
  put_addrs (iaddrs ip) d (o + 12).
Definition get_dinode (ip : inode) (d : block) (o : Z) : inode :=
  Inode (idev ip) (inum ip) (iref ip) (ilocked ip) (ivalid ip)
    (s16 (get16 d o)) (s16 (get16 d (o + 2))) (s16 (get16 d (o + 4))) (s16 (get16 d (o + 6)))
    (get32 d (o + 8)) (get_addrs (Z.to_nat (NDIRECT + 1)) d (o + 12)).

(** [memset(dip, 0, sizeof( *dip))] *)
Fixpoint zero_bytes (k : nat) (d : block) (o : Z) : block :=
  match k with
  | O => d
  | S k' => zero_bytes k' (putn 1 d o 0) (o + 1)
  end.
(** [memmove(bp->data + o, src, length src)] *)
Fixpoint put_bytes (l : list Z) (d : block) (o : Z) : block :=
  match l with
  | [] => d
  | x :: l' => put_bytes l' (putn 1 d o x) (o + 1)
  end.
(** The [n] bytes at [bp->data + o]. *)
Definition get_bytes (n : nat) (d : block) (o : Z) : list Z := (fun i => getn 1 d (o + Z.of_nat i)) <$> seq 0 n.

(** ** Bits of the free map *)

Definition bit_free (d : block) (bi : Z) : bool := Z.land (getn 1 d (bi / 8)) (Z.shiftl 1 (bi mod 8)) =? 0.
Definition set_bit (d : block) (bi : Z) : block :=
  putn 1 d (bi / 8) (Z.lor (getn 1 d (bi / 8)) (Z.shiftl 1 (bi mod 8))).
Definition clear_bit (d : block) (bi : Z) : block :=
  putn 1 d (bi / 8) (Z.land (getn 1 d (bi / 8)) (Z.lnot (Z.shiftl 1 (bi mod 8)))).
(** [for(bi = ...; bi < BPB && b + bi < sb.size; bi++) if(free) ...] *)
Fixpoint find_free (k : nat) (d : block) (b size bi : Z) : option Z :=
  match k with
  | O => None
  | S k' => if (bi <? BPB) && (b + bi <? size)
            then if bit_free d bi then Some bi else find_free k' d b size (bi + 1)
            else None
  end.

Definition blk_zero : block := replicate (Z.to_nat BSIZE) 0.

(** ** Names *)

Definition namecmp (s t : list Z) : Z := strncmp (Z.to_nat DIRSIZ) (blk_mem s) 0 (blk_mem t) 0.

Definition SLASH : Z := 47.
(** [while( *path == '/') path++;] *)
Fixpoint skip_slashes (path : list Z) : list Z :=
  match path with
  | c :: p => if c =? SLASH then skip_slashes p else path
  | [] => []
  end.
(** [while( *path != '/' && *path != 0) path++;] as the element and the rest. *)
Fixpoint take_elem (path : list Z) : list Z * list Z :=
  match path with
  | c :: p => if c =? SLASH then ([], path) else let '(e, r) := take_elem p in (c :: e, r)
  | [] => ([], [])
  end.
(** A path is the string's bytes before its NUL; [name] is the caller's buffer
    of [DIRSIZ] bytes, of which only what [memmove] writes changes. *)
Definition skipelem (path name : list Z) : option (list Z * list Z) :=
  let path := skip_slashes path in
  match path with
  | [] => None
  | _ =>
      let '(e, rest) := take_elem path in
      let name' := if Z.of_nat (length e) >=? DIRSIZ then take (Z.to_nat DIRSIZ) e
                   else e ++ [0] ++ drop (S (length e)) name in
      Some (skip_slashes rest, name')
  end.

(** The bytes of a [struct dirent] after [de.inum = inum; strncpy(de.name, name, DIRSIZ)]. *)
Definition dirent_bytes (inum : Z) (name : list Z) : list Z :=
  [u8 inum; u8 (inum / 256)] ++ rd_bytes (Z.to_nat DIRSIZ) (strncpy (Z.to_nat DIRSIZ) (fun _ => 0) 0 (blk_mem name) 0) 0.
Definition de_inum (de : list Z) : Z := get16 de 0.
Definition de_name (de : list Z) : list Z := drop 2 de.

(** ** The state *)

Section Fs.
Context {S : Type} `{BlockStore S}.

Record fsys : Type := Fsys {
  store : S;
  sb : superblock;
  itable : list inode;
  cwd : nat;               (* myproc()->cwd *)
}.

Definition liftS {A} (c : M S A) : M fsys A :=
  fun s => match c (store s) with
           | Ret (a, s') => Ret (a, Fsys s' (sb s) (itable s) (cwd s))
           | Panic m => Panic m
           | Fault => Fault
           | Diverge => Diverge
           end.
Definition fbread (dev b : Z) : M fsys nat := liftS (b_bread dev b).
Definition fbrelse (h : nat) : M fsys unit := liftS (b_brelse h).
Definition fdata (h : nat) : M fsys block := liftS (b_data h).
Definition fset_data (h : nat) (d : block) : M fsys unit := liftS (b_set_data h d).
Definition flog_write (h : nat) : M fsys unit := liftS (b_log_write h).

Definition geti (i : nat) : M fsys inode :=
  fun s => match itable s !! i with Some ip => Ret (ip, s) | None => Fault end.
Definition seti (i : nat) (f : inode -> inode) : M fsys unit :=
  fun s => match itable s !! i with
           | Some ip => Ret (tt, Fsys (store s) (sb s) (<[i := f ip]> (itable s)) (cwd s))
           | None => Fault
           end.

(** ** Blocks *)

Definition readsb (dev : Z) : M fsys unit :=
  bp <- fbread dev 1;;
  d <- fdata bp;;
  modify (fun s => Fsys (store s)
    (Superblock (get32 d 0) (get32 d 4) (get32 d 8) (get32 d 12) (get32 d 16) (get32 d 20) (get32 d 24) (get32 d 28))
    (itable s) (cwd s));;
  fbrelse bp.

Definition bzero (dev bno : Z) : M fsys unit :=
  bp <- fbread dev bno;;
  fset_data bp blk_zero;;
  flog_write bp;;
  fbrelse bp.

Fixpoint balloc_loop (fuel : nat) (dev b : Z) : M fsys Z :=
  s <- gets sb;;
  if b <? fssize s then
    match fuel with
    | O => diverge
    | Datatypes.S k =>
        bp <- fbread dev (BBLOCK b s);;
        d <- fdata bp;;
        match find_free (Datatypes.S (Z.to_nat BPB)) d b (fssize s) 0 with
        | Some bi =>
            fset_data bp (set_bit d bi);;
            flog_write bp;;
            fbrelse bp;;
            bzero dev (b + bi);;
            ret (b + bi)
        | None => fbrelse bp;; balloc_loop k dev (b + BPB)
        end
    end
  else ret 0.
Definition balloc (dev : Z) : M fsys Z :=
  s <- gets sb;; balloc_loop (Z.to_nat (fssize s)) dev 0.

Definition bfree (dev b : Z) : M fsys unit :=
  s <- gets sb;;
  bp <- fbread dev (BBLOCK b s);;
  d <- fdata bp;;
  let bi := b mod BPB in
  if bit_free d bi then panic "freeing free block" else
  fset_data bp (clear_bit d bi);;
  flog_write bp;;
  fbrelse bp.

(** ** Inodes *)

(** The search of [iget]: the entry for the inode, and the first empty one. *)
Fixpoint iget_scan (tbl : list inode) (i : nat) (empty : option nat) (dev n : Z) : option nat * option nat :=
  match tbl with
  | [] => (None, empty)
  | ip :: tbl' =>
      if (iref ip >? 0) && (idev ip =? dev) && (inum ip =? n) then (Some i, empty)
      else iget_scan tbl' (Datatypes.S i)
             (match empty with None => if iref ip =? 0 then Some i else None | Some _ => empty end) dev n
  end.
Definition iget (dev n : Z) : M fsys nat :=
  tbl <- gets itable;;
  match iget_scan tbl 0 None dev n with
  | (Some i, _) => seti i (fun ip => set_iref (iref ip + 1) ip);; ret i
  | (None, Some i) =>
      seti i (fun ip => Inode dev n 1 (ilocked ip) false (itype ip) (imajor ip) (iminor ip) (inlink ip) (isize ip) (iaddrs ip));;
      ret i
  | (None, None) => panic "iget: no inodes"
  end.

(** [iinit]: the table with every lock free. *)
Definition iinit : M fsys unit :=
  modify (fun s => Fsys (store s) (sb s) (set_ilocked false <$> itable s) (cwd s)).

Fixpoint ialloc_loop (fuel : nat) (dev type n : Z) : M fsys (option nat) :=
  s <- gets sb;;
  if n <? ninodes s then
    match fuel with
    | O => diverge
    | Datatypes.S k =>
        bp <- fbread dev (IBLOCK n s);;
        d <- fdata bp;;
        let o := dinode_off n in
        if s16 (get16 d o) =? 0 then
          fset_data bp (put16 (zero_bytes (Z.to_nat dinode_size) d o) o type);;
          flog_write bp;;
          fbrelse bp;;
          i <- iget dev n;;
          ret (Some i)
        else fbrelse bp;; ialloc_loop k dev type (n + 1)
    end
  else ret None.
Definition ialloc (dev type : Z) : M fsys (option nat) :=
  s <- gets sb;; ialloc_loop (Z.to_nat (ninodes s)) dev type 1.

Definition iupdate (i : nat) : M fsys unit :=
  ip <- geti i;;
  s <- gets sb;;
  bp <- fbread (idev ip) (IBLOCK (inum ip) s);;
  d <- fdata bp;;
  fset_data bp (put_dinode ip d (dinode_off (inum ip)));;
  flog_write bp;;
  fbrelse bp.

Definition idup (i : nat) : M fsys nat := seti i (fun ip => set_iref (iref ip + 1) ip);; ret i.

Definition iacquire (i : nat) : M fsys unit :=
  ip <- geti i;; if ilocked ip then diverge else seti i (set_ilocked true).
Definition irelease (i : nat) : M fsys unit := seti i (set_ilocked false).

Definition ilock (i : nat) : M fsys unit :=
  ip <- geti i;;
  if iref ip <? 1 then panic "ilock" else
  iacquire i;;
  if ivalid ip then ret tt else
  s <- gets sb;;
  bp <- fbread (idev ip) (IBLOCK (inum ip) s);;
  d <- fdata bp;;
  seti i (fun ip => get_dinode ip d (dinode_off (inum ip)));;
  fbrelse bp;;
  seti i (set_ivalid true);;
  ip <- geti i;;
  if itype ip =? 0 then panic "ilock: no type" else ret tt.

Definition iunlock (i : nat) : M fsys unit :=
  ip <- geti i;;
  if negb (ilocked ip) || (iref ip <? 1) then panic "iunlock" else irelease i.

(** ** Inode contents *)

(** [ip->addrs[k]], allocated if it is zero. *)
Definition addr_at (i : nat) (k : nat) : M fsys Z :=
  ip <- geti i;;
  let addr := default 0 (iaddrs ip !! k) in
  if addr =? 0 then
    a <- balloc (idev ip);;
    if a =? 0 then ret 0 else
    seti i (fun ip => set_iaddrs (<[k := a]> (iaddrs ip)) ip);; ret a
  else ret addr.

Definition bmap (i : nat) (bn : Z) : M fsys Z :=
  if bn <? NDIRECT then addr_at i (Z.to_nat bn) else
  let bn := bn - NDIRECT in
  if bn <? NINDIRECT then
    addr <- addr_at i (Z.to_nat NDIRECT);;
    if addr =? 0 then ret 0 else
    ip <- geti i;;
    bp <- fbread (idev ip) addr;;
    d <- fdata bp;;
    let addr := get32 d (4 * bn) in
    (if addr =? 0 then
       a <- balloc (idev ip);;
       (if negb (a =? 0) then d <- fdata bp;; fset_data bp (put32 d (4 * bn) a);; flog_write bp else ret tt);;
       fbrelse bp;;
       ret a
     else fbrelse bp;; ret addr)
  else panic "bmap: out of range".

Fixpoint itrunc_direct (k : nat) (i : nat) (j : nat) : M fsys unit :=
  match k with
  | O => ret tt
  | Datatypes.S k' =>
      ip <- geti i;;
      let a := default 0 (iaddrs ip !! j) in
      (if negb (a =? 0) then bfree (idev ip) a;; seti i (fun ip => set_iaddrs (<[j := 0]> (iaddrs ip)) ip) else ret tt);;
      itrunc_direct k' i (Datatypes.S j)
  end.
Fixpoint itrunc_indirect (k : nat) (dev : Z) (bp : nat) (j : Z) : M fsys unit :=
  match k with
  | O => ret tt
  | Datatypes.S k' =>
      d <- fdata bp;;
      let a := get32 d (4 * j) in
      (if negb (a =? 0) then bfree dev a else ret tt);;
      itrunc_indirect k' dev bp (j + 1)
  end.
Definition itrunc (i : nat) : M fsys unit :=
  itrunc_direct (Z.to_nat NDIRECT) i 0;;
  ip <- geti i;;
  let a := default 0 (iaddrs ip !! Z.to_nat NDIRECT) in
  (if negb (a =? 0) then
     bp <- fbread (idev ip) a;;
     itrunc_indirect (Z.to_nat NINDIRECT) (idev ip) bp 0;;
     fbrelse bp;;
     bfree (idev ip) a;;
     seti i (fun ip => set_iaddrs (<[Z.to_nat NDIRECT := 0]> (iaddrs ip)) ip)
   else ret tt);;
  seti i (set_isize 0);;
  iupdate i.

Definition iput (i : nat) : M fsys unit :=
  ip <- geti i;;
  (if (iref ip =? 1) && ivalid ip && (inlink ip =? 0) then
     iacquire i;;
     itrunc i;;
     seti i (set_itype 0);;
     iupdate i;;
     seti i (set_ivalid false);;
     irelease i
   else ret tt);;
  seti i (fun ip => set_iref (iref ip - 1) ip).

Definition iunlockput (i : nat) : M fsys unit := iunlock i;; iput i.

(** [struct stat] and [stati]. *)
Record stat : Type := Stat { st_dev : Z; st_ino : Z; st_type : Z; st_nlink : Z; st_size : Z }.
Definition stati (i : nat) : M fsys stat :=
  ip <- geti i;; ret (Stat (s32 (idev ip)) (inum ip) (itype ip) (inlink ip) (isize ip)).

(** ** Reading and writing

    [either_copyout] and [either_copyin] are arguments, since their memory is
    not part of this state.  [out acc tot bytes] is the destination after the
    copy of [bytes] to [dst + tot], and whether the copy succeeded; [inp tot m]
    is what the copy of [m] bytes from [src + tot] put into the buffer, and
    whether it succeeded. *)

Fixpoint readi_loop {A} (fuel : nat) (out : A -> Z -> list Z -> A * bool) (acc : A) (i : nat) (tot off n : Z) : M fsys (Z * A) :=
  if tot <? n then
    match fuel with
    | O => diverge
    | Datatypes.S k =>
        addr <- bmap i (off / BSIZE);;
        if addr =? 0 then ret (tot, acc) else
        ip <- geti i;;
        bp <- fbread (idev ip) addr;;
        d <- fdata bp;;
        let m := Z.min (n - tot) (BSIZE - off mod BSIZE) in
        let '(acc', ok) := out acc tot (get_bytes (Z.to_nat m) d (off mod BSIZE)) in
        fbrelse bp;;
        if ok then readi_loop k out acc' i (tot + m) (off + m) n else ret (-1, acc')
    end
  else ret (tot, acc).
Definition readi {A} (out : A -> Z -> list Z -> A * bool) (acc : A) (i : nat) (off n : Z) : M fsys (Z * A) :=
  ip <- geti i;;
  if (off >? isize ip) || (u32 (off + n) <? off) then ret (0, acc) else
  let n := if u32 (off + n) >? isize ip then isize ip - off else n in
  readi_loop (Z.to_nat (n / BSIZE + 2)) out acc i 0 off n.

(** The loop returns the bytes written and the final offset. *)
Fixpoint writei_loop (fuel : nat) (inp : Z -> Z -> list Z * bool) (i : nat) (tot off n : Z) : M fsys (Z * Z) :=
  if tot <? n then
    match fuel with
    | O => diverge
    | Datatypes.S k =>
        addr <- bmap i (off / BSIZE);;
        if addr =? 0 then ret (tot, off) else
        ip <- geti i;;
        bp <- fbread (idev ip) addr;;
        let m := Z.min (n - tot) (BSIZE - off mod BSIZE) in
        let '(bytes, ok) := inp tot m in
        d <- fdata bp;;
        fset_data bp (put_bytes bytes d (off mod BSIZE));;
        if ok then
          flog_write bp;;
          fbrelse bp;;
          writei_loop k inp i (tot + m) (off + m) n
        else fbrelse bp;; ret (tot, off)
    end
  else ret (tot, off).
Definition writei (inp : Z -> Z -> list Z * bool) (i : nat) (off n : Z) : M fsys Z :=
  ip <- geti i;;
  if (off >? isize ip) || (u32 (off + n) <? off) then ret (-1) else
  if u32 (off + n) >? MAXFILE * BSIZE then ret (-1) else
  '(tot, off) <- writei_loop (Z.to_nat (n / BSIZE + 2)) inp i 0 off n;;
  ip <- geti i;;
  (if off >? isize ip then seti i (set_isize off) else ret tt);;
  iupdate i;;
  ret tot.

(** The kernel's own buffers as destination and source. *)
Definition to_kernel (acc : list Z) (tot : Z) (bytes : list Z) : list Z * bool := (acc ++ bytes, true).
Definition from_kernel (src : list Z) (tot m : Z) : list Z * bool := (take (Z.to_nat m) (drop (Z.to_nat tot) src), true).

(** ** Directories *)

(** [readi(dp, 0, &de, off, sizeof(de))], which has to read all of it. *)
Definition read_dirent (msg : string) (i : nat) (off : Z) : M fsys (list Z) :=
  r <- readi to_kernel [] i off dirent_size;;
  if r.1 =? dirent_size then ret r.2 else panic msg.

Fixpoint dirlookup_loop (fuel : nat) (i : nat) (name : list Z) (off : Z) : M fsys (option (nat * Z)) :=
  ip <- geti i;;
  if off <? isize ip then
    match fuel with
    | O => diverge
    | Datatypes.S k =>
        de <- read_dirent "dirlookup read" i off;;
        if de_inum de =? 0 then dirlookup_loop k i name (off + dirent_size)
        else if namecmp name (de_name de) =? 0 then j <- iget (idev ip) (de_inum de);; ret (Some (j, off))
        else dirlookup_loop k i name (off + dirent_size)
    end
  else ret None.
(** The inode found and the offset of its entry. *)
Definition dirlookup (i : nat) (name : list Z) : M fsys (option (nat * Z)) :=
  ip <- geti i;;
  if negb (itype ip =? T_DIR) then panic "dirlookup not DIR" else
  dirlookup_loop (Z.to_nat (isize ip / dirent_size + 1)) i name 0.

Fixpoint empty_dirent (fuel : nat) (i : nat) (off : Z) : M fsys Z :=
  ip <- geti i;;
  if off <? isize ip then
    match fuel with
    | O => diverge
    | Datatypes.S k =>
        de <- read_dirent "dirlink read" i off;;
        if de_inum de =? 0 then ret off else empty_dirent k i (off + dirent_size)
    end
  else ret off.
Definition dirlink (i : nat) (name : list Z) (n : Z) : M fsys Z :=
  r <- dirlookup i name;;
  match r with
  | Some (j, _) => iput j;; ret (-1)
  | None =>
      ip <- geti i;;
      off <- empty_dirent (Z.to_nat (isize ip / dirent_size + 1)) i 0;;
      w <- writei (from_kernel (dirent_bytes n name)) i off dirent_size;;
      if w =? dirent_size then ret 0 else ret (-1)
  end.

(** ** Paths *)

Fixpoint namex_loop (fuel : nat) (i : nat) (path : list Z) (parent : bool) (name : list Z) : M fsys (option (nat * list Z)) :=
  match skipelem path name with
  | None => if parent then iput i;; ret None else ret (Some (i, name))
  | Some (path', name') =>
      match fuel with
      | O => diverge
      | Datatypes.S k =>
          ilock i;;
          ip <- geti i;;
          if negb (itype ip =? T_DIR) then iunlockput i;; ret None else
          if parent && match path' with [] => true | _ => false end then iunlock i;; ret (Some (i, name')) else
          r <- dirlookup i name';;
          match r with
          | None => iunlockput i;; ret None
          | Some (next, _) => iunlockput i;; namex_loop k next path' parent name'
          end
      end
  end.
(** The inode, and the final path element in [name]. *)
Definition namex (path : list Z) (parent : bool) (name : list Z) : M fsys (option (nat * list Z)) :=
  i <- match path with
       | c :: _ => if c =? SLASH then iget ROOTDEV ROOTINO else (c <- gets cwd;; idup c)
       | [] => c <- gets cwd;; idup c
       end;;
  namex_loop (length path) i path parent name.
Definition namei (path : list Z) : M fsys (option nat) :=
  r <- namex path false (replicate (Z.to_nat DIRSIZ) 0);;
  ret match r with Some (i, _) => Some i | None => None end.
Definition nameiparent (path name : list Z) : M fsys (option (nat * list Z)) := namex path true name.
End Fs.
Arguments fsys S : clear implicits.
