(* ===== verification/FsBlock.v ===== *)
(** * The on-disk structures of the file system

    Bits of the free map, inodes inside their block, runs of bytes: what a
    write changes and what a read gives back. *)
From S2P Require Import Prelude Riscv Mem KString Bio Block TxSpec Fs.

(** ** Bytes *)

Definition len (b : block) : Z := Z.of_nat (length b).

Lemma len_putn n b o v : len (putn n b o v) = len b.
Proof. unfold len. by rewrite length_putn. Qed.

Lemma getn1_range b o : 0 <= getn 1 b o < 256.
Proof. apply (getn_range 1). Qed.

Lemma getn1_putn b o v x : 0 <= o < len b -> getn 1 (putn 1 b o v) x = if x =? o then u8 v else getn 1 b x.
Proof.
  unfold len. intros Ho. destruct (Z.eqb_spec x o) as [->|Hne].
  - rewrite getn_putn_eq by lia. done.
  - apply getn_putn_ne; lia.
Qed.

(** ** Bits *)

Lemma land_bit x j : 0 <= j -> (Z.land x (Z.shiftl 1 j) =? 0) = negb (Z.testbit x j).
Proof.
  intros Hj. rewrite Z.shiftl_1_l. destruct (Z.testbit x j) eqn:E; cbn [negb].
  - apply Z.eqb_neq. intros H0. apply (f_equal (fun y => Z.testbit y j)) in H0.
    rewrite Z.land_spec, E, Z.pow2_bits_true, Z.bits_0 in H0 by lia. done.
  - apply Z.eqb_eq, Z.bits_inj'. intros k Hk. rewrite Z.land_spec, Z.bits_0.
    destruct (Z.eq_dec k j) as [->|Hne]; [by rewrite E|]. by rewrite Z.pow2_bits_false, andb_false_r by lia.
Qed.

Lemma bit_free_testbit d bi : 0 <= bi -> bit_free d bi = negb (Z.testbit (getn 1 d (bi / 8)) (bi mod 8)).
Proof. intros Hb. unfold bit_free. apply land_bit. apply Z.mod_pos_bound. lia. Qed.

Lemma u8_testbit x j : 0 <= j < 8 -> Z.testbit (u8 x) j = Z.testbit x j.
Proof. intros Hj. unfold u8. by rewrite Z.mod_pow2_bits_low by lia. Qed.

(** Changing bit [bi] of the map changes no other bit. *)
Lemma bit_free_put d bi bj v :
  0 <= bi -> bi / 8 < len d -> 0 <= bj ->
  bit_free (putn 1 d (bi / 8) v) bj =
    if bj / 8 =? bi / 8 then negb (Z.testbit v (bj mod 8)) else bit_free d bj.
Proof.
  intros Hi Hlen Hj. assert (0 <= bi / 8) by (apply Z.div_pos; lia). rewrite !bit_free_testbit, getn1_putn by lia.
  destruct (bj / 8 =? bi / 8); [|done]. rewrite u8_testbit by (apply Z.mod_pos_bound; lia). done.
Qed.

Lemma bit_free_set_bit d bi bj :
  0 <= bi -> bi / 8 < len d -> 0 <= bj -> bit_free (set_bit d bi) bj = if bj =? bi then false else bit_free d bj.
Proof.
  intros Hi Hlen Hj. unfold set_bit. rewrite bit_free_put by done.
  pose proof (Z.div_mod bi 8). pose proof (Z.div_mod bj 8). pose proof (Z.mod_pos_bound bi 8). pose proof (Z.mod_pos_bound bj 8).
  destruct (Z.eqb_spec (bj / 8) (bi / 8)) as [Hd|Hd]; [|by rewrite (proj2 (Z.eqb_neq bj bi)) by (intros ->; done)].
  rewrite Z.lor_spec, Z.shiftl_1_l, Z.pow2_bits_eqb, (bit_free_testbit d bj), Hd by lia.
  destruct (Z.eqb_spec (bi mod 8) (bj mod 8)), (Z.eqb_spec bj bi); rewrite ?orb_true_r, ?orb_false_r; try done; lia.
Qed.

Lemma bit_free_clear_bit d bi bj :
  0 <= bi -> bi / 8 < len d -> 0 <= bj -> bit_free (clear_bit d bi) bj = if bj =? bi then true else bit_free d bj.
Proof.
  intros Hi Hlen Hj. unfold clear_bit. rewrite bit_free_put by done.
  pose proof (Z.div_mod bi 8). pose proof (Z.div_mod bj 8). pose proof (Z.mod_pos_bound bi 8). pose proof (Z.mod_pos_bound bj 8).
  destruct (Z.eqb_spec (bj / 8) (bi / 8)) as [Hd|Hd]; [|by rewrite (proj2 (Z.eqb_neq bj bi)) by (intros ->; done)].
  rewrite Z.land_spec, Z.lnot_spec, Z.shiftl_1_l, Z.pow2_bits_eqb, (bit_free_testbit d bj), Hd by lia.
  destruct (Z.eqb_spec (bi mod 8) (bj mod 8)), (Z.eqb_spec bj bi); rewrite ?andb_true_r, ?andb_false_r; try done; lia.
Qed.

(** [find_free] gives the first free block number from [b + bi] on. *)
Lemma find_free_Some k d b size bi r :
  find_free k d b size bi = Some r ->
  bi <= r < BPB /\ b + r < size /\ bit_free d r = true /\ forall x, bi <= x < r -> bit_free d x = false.
Proof.
  revert bi. induction k as [|k IH]; intros bi E; [done|]. cbn [find_free] in E.
  destruct (_ && _) eqn:Eg; [|done]. bool_prop. destruct (bit_free d bi) eqn:Ef.
  - injection E as <-. split_and!; try done; lia.
  - destruct (IH _ E) as (? & ? & ? & Hx). split_and!; try done; try lia. intros x Hx'.
    destruct (Z.eq_dec x bi) as [->|]; [done|]. apply Hx. lia.
Qed.

Lemma find_free_None k d b size bi :
  find_free k d b size bi = None -> BPB - bi < Z.of_nat k ->
  forall x, bi <= x < BPB -> b + x < size -> bit_free d x = false.
Proof.
  revert bi. induction k as [|k IH]; intros bi E Hk x Hx Hs; [lia|]. cbn [find_free] in E.
  destruct (_ && _) eqn:Eg.
  - destruct (bit_free d bi) eqn:Ef; [done|]. destruct (Z.eq_dec x bi) as [->|]; [done|].
    apply (IH (bi + 1)); [done|lia|lia|done].
  - exfalso. bool_prop. destruct Eg; bool_prop; lia.
Qed.

(** ** Inodes in their block *)

Lemma len_put_addrs l d o : len (put_addrs l d o) = len d.
Proof. revert d o. induction l as [|a l IH]; intros d o; cbn [put_addrs]; [done|]. rewrite IH. apply len_putn. Qed.

Lemma getn_put_addrs_ne n l d o x :
  0 <= o -> o + 4 * len l <= len d -> x + Z.of_nat n <= o \/ o + 4 * len l <= x ->
  getn n (put_addrs l d o) x = getn n d x.
Proof.
  unfold len. revert d o. induction l as [|a l IH]; intros d o H0 H1 Hx; cbn [put_addrs]; [done|].
  cbn [length] in *. rewrite IH; [|lia|unfold put32; rewrite length_putn; lia|lia]. apply getn_putn_ne; lia.
Qed.

Lemma get_put_addrs l d o :
  0 <= o -> o + 4 * len l <= len d -> Forall (fun a => 0 <= a < 2 ^ 32) l ->
  get_addrs (length l) (put_addrs l d o) o = l.
Proof.
  unfold len. intros H0 H1 Hl. revert d o H0 H1. induction Hl as [|a l Ha Hl IH]; intros d o H0 H1; [done|].
  cbn [put_addrs get_addrs length] in *. f_equal.
  - unfold get32. rewrite getn_put_addrs_ne; [|lia|unfold len, put32; rewrite length_putn; lia|lia].
    unfold put32. rewrite getn_putn_eq by lia. apply Z.mod_small. done.
  - apply IH; [lia|]. unfold put32. rewrite length_putn. lia.
Qed.

Lemma get_addrs_ext k d d' o :
  (forall x, o <= x <= o + 4 * Z.of_nat k - 4 -> get32 d x = get32 d' x) -> get_addrs k d o = get_addrs k d' o.
Proof.
  revert o. induction k as [|k IH]; intros o Hx; cbn [get_addrs]; [done|]. f_equal; [apply Hx; lia|].
  apply IH. intros x ?. apply Hx. lia.
Qed.

Lemma length_get_addrs k d o : length (get_addrs k d o) = k.
Proof. revert o. induction k as [|k IH]; intros o; cbn; [done|]. by rewrite IH. Qed.

(** The fields that live on disk are within their C types. *)
Record inode_wf (ip : inode) : Prop := InodeWf {
  iw_type : - 2 ^ 15 <= itype ip < 2 ^ 15;
  iw_major : - 2 ^ 15 <= imajor ip < 2 ^ 15;
  iw_minor : - 2 ^ 15 <= iminor ip < 2 ^ 15;
  iw_nlink : - 2 ^ 15 <= inlink ip < 2 ^ 15;
  iw_size : 0 <= isize ip < 2 ^ 32;
  iw_len : length (iaddrs ip) = Z.to_nat (NDIRECT + 1);
  iw_addrs : Forall (fun a => 0 <= a < 2 ^ 32) (iaddrs ip);
}.

(** [ip] with the on-disk fields of [ip']. *)
Definition with_disk (ip ip' : inode) : inode :=
  Inode (idev ip) (inum ip) (iref ip) (ilocked ip) (ivalid ip)
    (itype ip') (imajor ip') (iminor ip') (inlink ip') (isize ip') (iaddrs ip').

Lemma s16_u16 x : - 2 ^ 15 <= x < 2 ^ 15 -> s16 (x mod 2 ^ 16) = x.
Proof. intros Hx. unfold s16. rewrite Zplus_mod_idemp_l. rewrite Z.mod_small; lia. Qed.

Lemma len_put_dinode ip d o : len (put_dinode ip d o) = len d.
Proof. unfold put_dinode. cbv zeta. rewrite len_put_addrs. unfold put32, put16. by rewrite !len_putn. Qed.

(** Writing an inode changes its 64 bytes only. *)
Lemma put_dinode_frame n ip d o x :
  inode_wf ip -> 0 <= o -> o + dinode_size <= len d -> x + Z.of_nat n <= o \/ o + dinode_size <= x ->
  getn n (put_dinode ip d o) x = getn n d x.
Proof.
  intros Hwf H0 H1 Hx. pose proof (iw_len _ Hwf) as Hl. unfold put_dinode, put32, put16, dinode_size, NDIRECT, len in *. cbv zeta.
  rewrite getn_put_addrs_ne; [|lia|unfold len; rewrite !length_putn; lia|unfold len; lia].
  rewrite !getn_putn_ne; rewrite ?length_putn; try done; lia.
Qed.

(** Read a field back through the later writes of [put_dinode]. *)
Ltac get_field :=
  rewrite getn_put_addrs_ne by (unfold put32, put16; rewrite ?len_putn; lia);
  unfold put16, put32, len in *; rewrite ?getn_putn_ne by (rewrite ?length_putn; lia);
  rewrite getn_putn_eq by (rewrite ?length_putn; lia).

Lemma get_put_dinode ip ip' d o :
  inode_wf ip' -> 0 <= o -> o + dinode_size <= len d -> get_dinode ip (put_dinode ip' d o) o = with_disk ip ip'.
Proof.
  intros Hwf H0 H1. pose proof Hwf as [Ht Hma Hmi Hnl Hsz Hl Ha]. unfold dinode_size, NDIRECT in H1.
  assert (Hlen : 4 * len (iaddrs ip') = 52) by (unfold len; rewrite Hl; done).
  unfold get_dinode, put_dinode. cbv zeta. unfold with_disk. f_equal.
  1-4: unfold get16; get_field; by apply s16_u16.
  - unfold get32. get_field. by apply Z.mod_small.
  - rewrite <- Hl. apply get_put_addrs; [lia| |done]. unfold put32, put16. rewrite ?len_putn. lia.
Qed.

(** ** Runs of bytes *)

Lemma len_put_bytes l d o : len (put_bytes l d o) = len d.
Proof. revert d o. induction l as [|a l IH]; intros d o; cbn [put_bytes]; [done|]. rewrite IH. apply len_putn. Qed.

Lemma getn1_put_bytes l d o x :
  0 <= o -> o + len l <= len d ->
  getn 1 (put_bytes l d o) x = if (o <=? x) && (x <? o + len l) then u8 (l !!! Z.to_nat (x - o)) else getn 1 d x.
Proof.
  unfold len. revert d o. induction l as [|a l IH]; intros d o H0 H1; cbn [put_bytes length] in *.
  - destruct (Z.leb_spec o x), (Z.ltb_spec x (o + Z.of_nat 0)); try done. lia.
  - rewrite IH by (rewrite ?length_putn; lia). rewrite getn1_putn by (unfold len; lia).
    destruct (Z.leb_spec (o + 1) x), (Z.ltb_spec x (o + 1 + Z.of_nat (length l))), (Z.leb_spec o x),
      (Z.ltb_spec x (o + Z.of_nat (S (length l)))), (Z.eqb_spec x o); cbn [andb]; try done; try lia.
    + f_equal. replace (Z.to_nat (x - o)) with (S (Z.to_nat (x - (o + 1)))) by lia. done.
    + subst. by rewrite Z.sub_diag.
Qed.

Lemma get_bytes_lookup n d o i : (i < n)%nat -> get_bytes n d o !! i = Some (getn 1 d (o + Z.of_nat i)).
Proof. intros Hi. unfold get_bytes. rewrite list_lookup_fmap, lookup_seq_lt by done. done. Qed.

Lemma length_get_bytes n d o : length (get_bytes n d o) = n.
Proof. unfold get_bytes. by rewrite length_fmap, length_seq. Qed.

Lemma get_bytes_ext n d d' o : (forall x, o <= x < o + Z.of_nat n -> getn 1 d x = getn 1 d' x) -> get_bytes n d o = get_bytes n d' o.
Proof.
  intros Hx. unfold get_bytes. apply list_fmap_ext. intros i j Hi.
  apply lookup_seq in Hi as [-> Hi]. apply Hx. lia.
Qed.

Lemma get_put_bytes l d o :
  0 <= o -> o + len l <= len d -> Forall (fun x => 0 <= x < 256) l -> get_bytes (length l) (put_bytes l d o) o = l.
Proof.
  intros H0 H1 Hl. apply list_eq. intros i. destruct (Nat.lt_ge_cases i (length l)) as [Hi|Hi].
  - rewrite get_bytes_lookup, getn1_put_bytes by done. unfold len in *.
    rewrite (proj2 (Z.leb_le _ _)), (proj2 (Z.ltb_lt _ _)) by lia. cbn [andb].
    replace (Z.to_nat (o + Z.of_nat i - o)) with i by lia. destruct (lookup_lt_is_Some_2 l i Hi) as [x Hx].
    rewrite (list_lookup_total_correct _ _ _ Hx), Hx. f_equal. apply u8_small. by eapply (Forall_lookup_1 _ _ _ _ Hl).
  - rewrite !lookup_ge_None_2; [done|done|by rewrite length_get_bytes].
Qed.
