(* ===== verification/FsProofs.v ===== *)
(** * Proofs about the file system's blocks and inodes

    The code of fs.c run step by step against the transaction interface. *)
From S2P Require Import Prelude Riscv Mem KString Bio Block TxSpec Fs FsBlock.

Section Proofs.
Context {S : Type} `{BlockStore S}.
Implicit Types (st : S) (m d : Z -> block) (bs : list Z) (hs : list (Z * nat)) (w : list (Z * block)).

(** ** Block operations on the whole state *)

Lemma wp_liftS {A} (c : M S A) st b t cw (Q : A -> fsys S -> Prop) :
  wp c st (fun a st' => Q a (Fsys st' b t cw)) -> wp (liftS c) (Fsys st b t cw) Q.
Proof. unfold wp, liftS. cbn. by destruct (c st) as [[a st']| | |]. Qed.

Lemma wp_fbread st b t cw w d m bs hs x (Q : nat -> fsys S -> Prop) :
  tx st w d m bs hs -> home x -> x ∉ hs.*1 -> x ∈ bs \/ (length bs + length hs < nbuf)%nat ->
  (forall h st', tx st' w d m bs ((x, h) :: hs) -> Q h (Fsys st' b t cw)) ->
  wp (fbread ROOTDEV x) (Fsys st b t cw) Q.
Proof. intros Ht Hx Hh Hr HQ. apply wp_liftS. eapply wp_mono; [by eapply tx_bread|]. intros h st'. apply HQ. Qed.

Lemma wp_fdata st b t cw w d m bs hs x h (Q : block -> fsys S -> Prop) :
  tx st w d m bs hs -> (x, h) ∈ hs -> Q (m x) (Fsys st b t cw) -> wp (fdata h) (Fsys st b t cw) Q.
Proof. intros Ht Hin HQ. apply wp_liftS. eapply wp_eq; [by eapply tx_data|done]. Qed.

Lemma wp_fset_data st b t cw w d m bs hs x h v (Q : unit -> fsys S -> Prop) :
  tx st w d m bs hs -> (x, h) ∈ hs ->
  (forall st', tx st' w d (fupd m x v) bs hs -> Q tt (Fsys st' b t cw)) -> wp (fset_data h v) (Fsys st b t cw) Q.
Proof. intros Ht Hin HQ. apply wp_liftS. eapply wp_mono; [by eapply tx_set_data|]. intros [] st'. apply HQ. Qed.

Lemma wp_flog_write st b t cw w d m bs hs x h (Q : unit -> fsys S -> Prop) :
  tx st w d m bs hs -> (x, h) ∈ hs -> (length bs < b_cap)%nat ->
  (forall st', tx st' w d m (log_add x bs) hs -> Q tt (Fsys st' b t cw)) -> wp (flog_write h) (Fsys st b t cw) Q.
Proof. intros Ht Hin Hc HQ. apply wp_liftS. eapply wp_mono; [by eapply tx_log_write|]. intros [] st'. apply HQ. Qed.

Lemma unlock_notin x hs : x ∉ hs.*1 -> unlock x hs = hs.
Proof.
  induction hs as [|p hs IH]; [done|]. rewrite fmap_cons. intros [Hne Hx]%not_elem_of_cons. unfold unlock.
  rewrite filter_cons_True by congruence. f_equal. by apply IH.
Qed.

Lemma unlock_head x h hs : x ∉ hs.*1 -> unlock x ((x, h) :: hs) = hs.
Proof. intros Hx. unfold unlock. rewrite filter_cons_False by naive_solver. by apply unlock_notin. Qed.

(** Release the buffer locked last. *)
Lemma wp_fbrelse st b t cw w d m bs hs x h (Q : unit -> fsys S -> Prop) :
  tx st w d m bs ((x, h) :: hs) -> x ∈ bs \/ m x = d x ->
  (forall st', tx st' w d m bs hs -> Q tt (Fsys st' b t cw)) -> wp (fbrelse h) (Fsys st b t cw) Q.
Proof.
  intros Ht Hcl HQ. apply wp_liftS. eapply wp_mono; [eapply tx_brelse; [exact Ht|by left|done]|]. intros [] st' Ht'.
  apply HQ. pose proof (tx_nodup _ _ _ _ _ _ Ht) as Hnd. cbn in Hnd. apply NoDup_cons in Hnd as [Hx _].
  by rewrite unlock_head in Ht'.
Qed.

(** A block that is not logged and was not locked is unchanged. *)
Lemma read_clean st w d m bs hs x :
  tx st w d m bs hs -> home x -> x ∉ hs.*1 -> x ∈ bs \/ m x = d x.
Proof. intros Ht Hx Hh. destruct (decide (x ∈ bs)); [by left|right]. by eapply tx_clean. Qed.

Lemma elem_of_log_add x bs : x ∈ log_add x bs.
Proof. unfold log_add. case_bool_decide; [done|]. apply elem_of_app. right. by left. Qed.

Lemma log_add_sub x y bs : y ∈ bs -> y ∈ log_add x bs.
Proof. intros Hy. unfold log_add. case_bool_decide; [done|]. apply elem_of_app. by left. Qed.

(** The end of every update: write the new contents, log them, release. *)
Lemma wp_update_block {A} st b t cw w d m bs hs x h v (k : M (fsys S) A) Q :
  tx st w d m bs ((x, h) :: hs) -> (length bs < b_cap)%nat ->
  (forall st', tx st' w d (fupd m x v) (log_add x bs) hs -> wp k (Fsys st' b t cw) Q) ->
  wp (fset_data h v;; flog_write h;; fbrelse h;; k) (Fsys st b t cw) Q.
Proof.
  intros Ht Hc HQ. apply wp_bind. eapply wp_fset_data; [exact Ht|by left|]. intros st1 Ht1.
  apply wp_bind. eapply wp_flog_write; [exact Ht1|by left|done|]. intros st2 Ht2.
  apply wp_bind. eapply wp_fbrelse; [exact Ht2|left; apply elem_of_log_add|]. exact HQ.
Qed.

Lemma wp_seq_end {T A} (c : M T A) s Q : wp (a <- c;; ret a) s Q -> wp c s Q.
Proof. unfold wp, bind, ret. by destruct (c s) as [[a s']| | |]. Qed.

(** [bzero] *)
Lemma wp_bzero st b t cw w d m bs hs x (Q : unit -> fsys S -> Prop) :
  tx st w d m bs hs -> home x -> x ∉ hs.*1 -> (length bs + length hs < nbuf)%nat -> (length bs < b_cap)%nat ->
  (forall st', tx st' w d (fupd m x blk_zero) (log_add x bs) hs -> Q tt (Fsys st' b t cw)) ->
  wp (bzero ROOTDEV x) (Fsys st b t cw) Q.
Proof.
  intros Ht Hx Hh Hr Hc HQ. unfold bzero. apply wp_bind. eapply wp_fbread; [done..|by right|]. intros h st1 Ht1.
  apply wp_bind. eapply wp_fset_data; [exact Ht1|by left|]. intros st2 Ht2.
  apply wp_bind. eapply wp_flog_write; [exact Ht2|by left|done|]. intros st3 Ht3.
  eapply wp_fbrelse; [exact Ht3|left; apply elem_of_log_add|]. exact HQ.
Qed.

(** ** The free map *)

(** Block [x] is in use according to the free map. *)
Definition used (b : superblock) (m : Z -> block) (x : Z) : bool := negb (bit_free (m (BBLOCK x b)) (x mod BPB)).

(** The free map can be trusted: its blocks are whole and belong to the file
    system, and they and everything outside the file system are in use. *)
Record bitmap_ok (b : superblock) (m : Z -> block) : Prop := BitmapOk {
  bo_size : 0 <= fssize b < 2 ^ 31;
  bo_start : 0 <= bmapstart b;
  bo_zero : 0 < fssize b -> used b m 0 = true;
  bo_home : forall x, 0 <= x < fssize b -> home (BBLOCK x b);
  bo_len : forall x, 0 <= x < fssize b -> len (m (BBLOCK x b)) = BSIZE;
  bo_free : forall x, 0 <= x < fssize b -> used b m x = false -> home x;
  bo_meta : forall x y, 0 <= x < fssize b -> 0 <= y < fssize b -> used b m x = false -> x <> BBLOCK y b;
}.

(** The contents after block [x] is taken: its bit set, the block zero. *)
Definition alloc_block (b : superblock) (x : Z) (m : Z -> block) : Z -> block :=
  fupd (fupd m (BBLOCK x b) (set_bit (m (BBLOCK x b)) (x mod BPB))) x blk_zero.
(** The contents after block [x] is freed: its bit cleared. *)
Definition free_block (b : superblock) (x : Z) (m : Z -> block) : Z -> block :=
  fupd m (BBLOCK x b) (clear_bit (m (BBLOCK x b)) (x mod BPB)).

Lemma bblock_split k bi b : 0 <= k -> 0 <= bi < BPB -> BBLOCK (BPB * k + bi) b = BBLOCK (BPB * k) b /\ (BPB * k + bi) mod BPB = bi.
Proof.
  intros Hk Hb. unfold BBLOCK. change BPB with 8192 in *.
  rewrite (Z.mul_comm 8192 k), Z.div_add_l, Z.div_mul, Z.div_small by lia. split; [lia|].
  rewrite Z.add_comm, Z.mod_add, Z.mod_small by lia. done.
Qed.

Definition free_unlocked (b : superblock) (m : Z -> block) (hs : list (Z * nat)) : Prop :=
  (forall x, 0 <= x < fssize b -> used b m x = false -> x ∉ hs.*1) /\
  (forall x, 0 <= x < fssize b -> BBLOCK x b ∉ hs.*1).

Lemma wp_balloc_loop fuel k st b t cw w d m bs hs (Q : Z -> fsys S -> Prop) :
  tx st w d m bs hs -> bitmap_ok b m -> free_unlocked b m hs ->
  (length bs + length hs + 2 < nbuf)%nat -> (length bs + 2 <= b_cap)%nat ->
  0 <= k -> fssize b - BPB * k <= BPB * Z.of_nat fuel -> (forall x, 0 <= x < BPB * k -> x < fssize b -> used b m x = true) ->
  (forall x st', 0 <= x < fssize b -> used b m x = false -> (forall y, 0 <= y < x -> used b m y = true) ->
     tx st' w d (alloc_block b x m) (log_add x (log_add (BBLOCK x b) bs)) hs -> Q x (Fsys st' b t cw)) ->
  (forall st', (forall x, 0 <= x < fssize b -> used b m x = true) -> tx st' w d m bs hs -> Q 0 (Fsys st' b t cw)) ->
  wp (balloc_loop fuel ROOTDEV (BPB * k)) (Fsys st b t cw) Q.
Proof.
  revert k st. induction fuel as [|fuel IH]; intros k st Ht Hok Hfu Hroom Hcap Hk Hfuel Hall Hsome Hnone; cbn [balloc_loop];
    apply wp_bind, wp_gets; cbn [sb]; (destruct (Z.ltb_spec (BPB * k) (fssize b)) as [Hlt|Hge];
    [|apply wp_ret; apply Hnone; [intros x Hx; apply Hall; lia|done]]).
  - lia.
  - pose proof Hok as [Hsz Hbst Hz Hhome Hlen Hfree Hmeta]. destruct Hfu as [Hfu1 Hfu2].
    assert (Hr : 0 <= BPB * k < fssize b) by (change BPB with 8192 in *; lia).
    apply wp_bind. eapply wp_fbread; [exact Ht|by apply Hhome|by apply Hfu2|right; lia|]. intros h st1 Ht1.
    apply wp_bind. eapply wp_fdata; [exact Ht1|by left|].
    destruct (find_free _ _ _ _ _) as [bi|] eqn:E.
    + apply find_free_Some in E as (Hbi & Hs & Hbf & Hbefore).
      destruct (bblock_split k bi b Hk Hbi) as [EB EM]. set (x := BPB * k + bi) in *.
      assert (Hxr : 0 <= x < fssize b) by lia.
      assert (Hux : used b m x = false) by (unfold used; by rewrite EB, EM, Hbf).
      eapply wp_update_block; [exact Ht1|lia|]. intros st2 Ht2.
      pose proof (length_log_add (BBLOCK (BPB * k) b) bs).
      apply wp_bind. eapply wp_bzero; [exact Ht2|by apply Hfree|by apply Hfu1|lia|lia|].
      intros st3 Ht3. apply wp_ret. apply Hsome; [done|done| |by unfold alloc_block; rewrite EB, EM].
      intros y Hy. destruct (Z.lt_ge_cases y (BPB * k)) as [Hyk|Hyk]; [apply Hall; lia|].
      destruct (bblock_split k (y - BPB * k) b Hk ltac:(lia)) as [EB' EM'].
      replace (BPB * k + (y - BPB * k)) with y in EB', EM' by lia. unfold used. rewrite EB', EM', Hbefore by lia. done.
    + apply wp_bind. eapply wp_fbrelse; [exact Ht1|by eapply read_clean; [exact Ht|apply Hhome|apply Hfu2]|]. intros st2 Ht2.
      replace (BPB * k + BPB) with (BPB * (k + 1)) by lia. apply IH; try done; [lia|lia|].
      intros x Hx Hxs. destruct (Z.lt_ge_cases x (BPB * k)) as [Hyk|Hyk]; [apply Hall; lia|].
      destruct (bblock_split k (x - BPB * k) b Hk ltac:(lia)) as [EB' EM'].
      replace (BPB * k + (x - BPB * k)) with x in EB', EM' by lia. unfold used. rewrite EB', EM'.
      rewrite (find_free_None _ _ _ _ _ E) by lia. done.
Qed.

Lemma wp_balloc st b t cw w d m bs hs (Q : Z -> fsys S -> Prop) :
  tx st w d m bs hs -> bitmap_ok b m -> free_unlocked b m hs ->
  (length bs + length hs + 2 < nbuf)%nat -> (length bs + 2 <= b_cap)%nat ->
  (forall x st', 0 <= x < fssize b -> used b m x = false -> (forall y, 0 <= y < x -> used b m y = true) ->
     tx st' w d (alloc_block b x m) (log_add x (log_add (BBLOCK x b) bs)) hs -> Q x (Fsys st' b t cw)) ->
  (forall st', (forall x, 0 <= x < fssize b -> used b m x = true) -> tx st' w d m bs hs -> Q 0 (Fsys st' b t cw)) ->
  wp (balloc ROOTDEV) (Fsys st b t cw) Q.
Proof.
  intros Ht Hok Hfu Hr Hc Hs Hn. unfold balloc. apply wp_bind, wp_gets. cbn [sb]. pose proof (bo_size _ _ Hok).
  change 0 with (BPB * 0) at 1. eapply wp_balloc_loop; try done; change BPB with 8192; lia.
Qed.

Lemma wp_bfree st b t cw w d m bs hs x (Q : unit -> fsys S -> Prop) :
  tx st w d m bs hs -> bitmap_ok b m -> BBLOCK x b ∉ hs.*1 -> 0 <= x < fssize b ->
  (length bs + length hs < nbuf)%nat -> (length bs < b_cap)%nat -> used b m x = true ->
  (forall st', tx st' w d (free_block b x m) (log_add (BBLOCK x b) bs) hs -> Q tt (Fsys st' b t cw)) ->
  wp (bfree ROOTDEV x) (Fsys st b t cw) Q.
Proof.
  intros Ht Hok Hfu Hx Hr Hc Hu HQ. unfold bfree. apply wp_bind, wp_gets. cbn [sb].
  apply wp_bind. eapply wp_fbread; [exact Ht|by apply (bo_home _ _ Hok)|done|by right|]. intros h st1 Ht1.
  apply wp_bind. eapply wp_fdata; [exact Ht1|by left|]. unfold used in Hu. apply negb_true_iff in Hu. rewrite Hu.
  apply wp_bind. eapply wp_fset_data; [exact Ht1|by left|]. intros st2 Ht2.
  apply wp_bind. eapply wp_flog_write; [exact Ht2|by left|done|]. intros st3 Ht3.
  eapply wp_fbrelse; [exact Ht3|left; apply elem_of_log_add|]. exact HQ.
Qed.
End Proofs.
