(* ===== verification/FsInode.v ===== *)
(** * Files: the blocks and the contents of an inode

    What [bmap], [readi] and [writei] do to the contents of a file, and that
    they touch no other file's blocks. *)
From S2P Require Import Prelude Riscv Mem KString Bio Block TxSpec Fs FsBlock FsProofs.

Section Inode.
Context {S : Type} `{BlockStore S}.
Implicit Types (st : S) (b : superblock) (m d : Z -> block) (bs : list Z) (hs : list (Z * nat)) (w : list (Z * block)) (ip : inode).

(** ** Allocation, seen through the free map *)

Lemma mod_bpb_range x : 0 <= x mod BPB < BPB.
Proof. apply Z.mod_pos_bound. done. Qed.

Lemma bit_in_block (blk : block) x : len blk = BSIZE -> x mod BPB / 8 < len blk.
Proof. intros ->. pose proof (mod_bpb_range x). change BPB with 8192 in *. change BSIZE with 1024. apply Z.div_lt_upper_bound; lia. Qed.

Lemma bblock_eq x y b : 0 <= x -> 0 <= y -> BBLOCK x b = BBLOCK y b -> x mod BPB = y mod BPB -> x = y.
Proof.
  unfold BBLOCK. intros Hx Hy Hd Hm. rewrite (Z.div_mod x BPB), (Z.div_mod y BPB) by done.
  assert (x / BPB = y / BPB) as -> by lia. by rewrite Hm.
Qed.

(** A block the file system's structures may own. *)
Record blk_ok b m (x : Z) : Prop := BlkOk {
  bk_range : 0 < x < fssize b;
  bk_home : home x;
  bk_used : used b m x = true;
  bk_meta : forall y, 0 <= y < fssize b -> x <> BBLOCK y b;
  bk_len : len (m x) = BSIZE;
}.

Lemma len_zero : len blk_zero = BSIZE.
Proof. unfold len, blk_zero. rewrite length_replicate. done. Qed.

(** Everything a free-map update at [x] may change. *)
Lemma used_alloc b m x y :
  bitmap_ok b m -> 0 <= x < fssize b -> used b m x = false -> 0 <= y < fssize b ->
  used b (alloc_block b x m) y = (y =? x) || used b m y.
Proof.
  intros Hok Hx Hu Hy. unfold used, alloc_block. rewrite fupd_ne by (apply not_eq_sym; eapply (bo_meta _ _ Hok); done).
  unfold fupd. pose proof (mod_bpb_range x). pose proof (mod_bpb_range y). destruct (Z.eqb_spec (BBLOCK y b) (BBLOCK x b)) as [He|He].
  - rewrite bit_free_set_bit by (try lia; apply bit_in_block, (bo_len _ _ Hok); done). rewrite <- He.
    destruct (Z.eqb_spec (y mod BPB) (x mod BPB)) as [Hm|Hm], (Z.eqb_spec y x) as [Hyx|Hyx]; try done.
    + destruct Hyx. apply (bblock_eq y x b); lia || done.
    + by subst.
  - rewrite (proj2 (Z.eqb_neq y x)) by (by intros ->). done.
Qed.

Lemma alloc_frame b m x y : y <> x -> y <> BBLOCK x b -> alloc_block b x m y = m y.
Proof. intros Hx Hb. unfold alloc_block. by rewrite !fupd_ne. Qed.

Lemma alloc_new b m x : alloc_block b x m x = blk_zero.
Proof. apply fupd_eq. Qed.

Lemma alloc_bitmap_ok b m x :
  bitmap_ok b m -> 0 <= x < fssize b -> used b m x = false -> bitmap_ok b (alloc_block b x m).
Proof.
  intros Hok Hx Hu. pose proof Hok as [Hsz Hst Hz Hhome Hlen Hfree Hmeta]. split; try done.
  - intros Hp. rewrite used_alloc by (done || lia). rewrite Hz by done. apply orb_true_r.
  - intros y Hy. unfold alloc_block. rewrite fupd_ne by (apply not_eq_sym; by apply Hmeta). unfold fupd.
    destruct (Z.eqb_spec (BBLOCK y b) (BBLOCK x b)); [|by apply Hlen]. unfold set_bit. rewrite len_putn. by apply Hlen.
  - intros y Hy Huy. rewrite used_alloc in Huy by done. bool_prop. by apply Hfree.
  - intros y z Hy Hz' Huy. rewrite used_alloc in Huy by done. bool_prop. by apply Hmeta.
Qed.

Lemma free_pos b m x : bitmap_ok b m -> 0 <= x < fssize b -> used b m x = false -> x <> 0.
Proof. intros Hok Hx Hu ->. rewrite (bo_zero _ _ Hok) in Hu by lia. done. Qed.

Lemma blk_ok_alloc b m x y : bitmap_ok b m -> 0 <= x < fssize b -> used b m x = false -> blk_ok b m y ->
  blk_ok b (alloc_block b x m) y /\ alloc_block b x m y = m y /\ y <> x.
Proof.
  intros Hok Hx Hu [Hr Hh Hus Hm Hl]. assert (Hyx : y <> x) by (intros ->; congruence).
  assert (Ha : alloc_block b x m y = m y) by (apply alloc_frame; [done|by apply Hm]).
  split_and!; [|done|done]. split; try done; [|by rewrite Ha]. rewrite used_alloc by (done || lia). by rewrite Hus, orb_true_r.
Qed.

Lemma blk_ok_new b m x : bitmap_ok b m -> 0 <= x < fssize b -> used b m x = false -> blk_ok b (alloc_block b x m) x.
Proof.
  intros Hok Hx Hu. pose proof (free_pos _ _ _ Hok Hx Hu). split; [lia|by apply (bo_free _ _ Hok)| | |].
  - rewrite used_alloc by done. by rewrite Z.eqb_refl.
  - intros y Hy. by apply (bo_meta _ _ Hok).
  - rewrite alloc_new. apply len_zero.
Qed.

(** Freeing, seen through the free map. *)
Lemma used_free b m x y :
  bitmap_ok b m -> 0 <= x < fssize b -> 0 <= y < fssize b -> used b (free_block b x m) y = negb (y =? x) && used b m y.
Proof.
  intros Hok Hx Hy. unfold used, free_block, fupd. pose proof (mod_bpb_range x). pose proof (mod_bpb_range y).
  destruct (Z.eqb_spec (BBLOCK y b) (BBLOCK x b)) as [He|He].
  - rewrite bit_free_clear_bit by (try lia; apply bit_in_block, (bo_len _ _ Hok); done). rewrite <- He.
    destruct (Z.eqb_spec (y mod BPB) (x mod BPB)) as [Hm|Hm], (Z.eqb_spec y x) as [Hyx|Hyx]; try done.
    + destruct Hyx. apply (bblock_eq y x b); lia || done.
    + by subst.
  - rewrite (proj2 (Z.eqb_neq y x)) by (by intros ->). done.
Qed.

Lemma free_bitmap_ok b m x :
  bitmap_ok b m -> 0 < x < fssize b -> home x -> (forall y, 0 <= y < fssize b -> x <> BBLOCK y b) ->
  bitmap_ok b (free_block b x m).
Proof.
  intros Hok Hx Hhx Hmx. pose proof Hok as [Hsz Hst Hz Hhome Hlen Hfree Hmeta].
  assert (Hu : forall y, 0 <= y < fssize b -> used b (free_block b x m) y = negb (y =? x) && used b m y)
    by (intros y Hy; apply used_free; done || lia).
  split; try done.
  - intros Hp. rewrite Hu by lia. rewrite Hz, (proj2 (Z.eqb_neq 0 x)) by lia. done.
  - intros y Hy. unfold free_block, fupd. destruct (Z.eqb_spec (BBLOCK y b) (BBLOCK x b)); [|by apply Hlen].
    unfold clear_bit. rewrite len_putn. apply Hlen. lia.
  - intros y Hy Huy. rewrite Hu in Huy by done. destruct (Z.eqb_spec y x) as [->|]; [done|]. by apply Hfree.
  - intros y z Hy Hz' Huy. rewrite Hu in Huy by done. destruct (Z.eqb_spec y x) as [->|]; [by apply Hmx|]. by apply Hmeta.
Qed.

(** ** The blocks of a file

    Slot [k] of an inode is its [k]-th address: 0 to 11 direct, 12 the
    indirect block, 13 and up the entries of the indirect block. *)

Definition NSLOT : Z := 1 + NDIRECT + NINDIRECT.
Definition slot (bn : Z) : Z := if bn <? NDIRECT then bn else bn + 1.
Definition ind ip : Z := iaddrs ip !!! Z.to_nat NDIRECT.
Definition aslot m ip (k : Z) : Z :=
  if k <=? NDIRECT then iaddrs ip !!! Z.to_nat k
  else if ind ip =? 0 then 0 else get32 (m (ind ip)) (4 * (k - (NDIRECT + 1))).

Record inode_ok b m ip : Prop := InodeOk {
  io_dev : idev ip = ROOTDEV;
  io_len : length (iaddrs ip) = Z.to_nat (NDIRECT + 1);
  io_addrs : Forall (fun a => 0 <= a < 2 ^ 32) (iaddrs ip);
  io_blk : forall k, 0 <= k < NSLOT -> aslot m ip k <> 0 -> blk_ok b m (aslot m ip k);
  io_inj : forall k k', 0 <= k < NSLOT -> 0 <= k' < NSLOT -> aslot m ip k <> 0 -> aslot m ip k = aslot m ip k' -> k = k';
}.

(** The contents of block [bn] of the file; a hole reads as zero. *)
Definition fblock m ip (bn : Z) : block :=
  if aslot m ip (slot bn) =? 0 then blk_zero else m (aslot m ip (slot bn)).

Lemma slot_range bn : 0 <= bn < MAXFILE -> 0 <= slot bn < NSLOT /\ slot bn <> NDIRECT.
Proof. unfold slot, MAXFILE, NSLOT. change NINDIRECT with 256. change NDIRECT with 12. destruct (Z.ltb_spec bn 12); lia. Qed.

Lemma slot_inj bn bn' : slot bn = slot bn' -> 0 <= bn -> 0 <= bn' -> bn = bn'.
Proof. unfold slot. change NDIRECT with 12. destruct (Z.ltb_spec bn 12), (Z.ltb_spec bn' 12); lia. Qed.

(** What an allocation for [ip] may do: give it new blocks, and nothing else
    that any file can see. *)
Record grows b m ip m' ip' : Prop := Grows {
  gr_bitmap : bitmap_ok b m';
  gr_inode : inode_ok b m' ip';
  gr_meta : ip' = set_iaddrs (iaddrs ip') ip;
  gr_cont : forall bn, 0 <= bn < MAXFILE -> fblock m' ip' bn = fblock m ip bn;
  gr_old : forall k, 0 <= k < NSLOT -> aslot m ip k <> 0 -> aslot m' ip' k = aslot m ip k;
  gr_new : forall k, 0 <= k < NSLOT -> aslot m' ip' k <> 0 -> aslot m ip k = 0 -> used b m (aslot m' ip' k) = false;
  gr_mono : forall y, 0 <= y < fssize b -> used b m y = true -> used b m' y = true;
  gr_blk : forall y, blk_ok b m y -> blk_ok b m' y;
  gr_frame : forall y, blk_ok b m y -> (forall k, 0 <= k < NSLOT -> aslot m ip k <> y) -> m' y = m y;
}.

Lemma grows_refl b m ip : bitmap_ok b m -> inode_ok b m ip -> grows b m ip m ip.
Proof. intros Hb Hi. split; try done. by destruct ip. Qed.

Lemma grows_trans b m0 ip0 m1 ip1 m2 ip2 :
  inode_ok b m0 ip0 -> grows b m0 ip0 m1 ip1 -> grows b m1 ip1 m2 ip2 -> grows b m0 ip0 m2 ip2.
Proof.
  intros Hi0 [Hb1 Hi1 Hm1 Hc1 Ho1 Hn1 Hu1 Hk1 Hf1] [Hb2 Hi2 Hm2 Hc2 Ho2 Hn2 Hu2 Hk2 Hf2]. split; try done.
  - unfold set_iaddrs in *. destruct ip1, ip2. cbn in *. congruence.
  - intros bn Hbn. by rewrite Hc2, Hc1.
  - intros k Hk H0. rewrite <- (Ho1 k) in H0 |- * by done. by apply Ho2.
  - intros k Hk H2 H0. destruct (Z.eq_dec (aslot m1 ip1 k) 0) as [E|E].
    + specialize (Hn2 k Hk H2 E). apply not_true_iff_false. intros Hu. destruct (io_blk _ _ _ Hi2 k Hk H2) as [Hr _ _ _ _].
      rewrite Hu1 in Hn2 by (done || lia). done.
    + rewrite (Ho2 k Hk E) in H2 |- *. by apply Hn1.
  - intros y Hr Hy. by apply Hu2, Hu1.
  - intros y Hy. by apply Hk2, Hk1.
  - intros y Hy Hne. rewrite Hf2; [by apply Hf1|by apply Hk1|]. intros k Hk Heq.
    destruct (Z.eq_dec (aslot m0 ip0 k) 0) as [E0|E0].
    + assert (aslot m1 ip1 k <> 0) by (rewrite Heq; destruct Hy; lia).
      specialize (Hn1 k Hk ltac:(done) E0). rewrite Heq, (bk_used _ _ _ Hy) in Hn1. done.
    + apply (Hne k Hk). by rewrite <- (Ho1 k Hk E0).
Qed.

Lemma aslot_ind m ip : aslot m ip NDIRECT = ind ip.
Proof. done. Qed.

(** Giving the free block [x] to the empty slot [k]. *)
Lemma grows_intro b m ip m' ip' k x :
  bitmap_ok b m -> inode_ok b m ip -> 0 <= x < fssize b -> used b m x = false ->
  0 <= k < NSLOT -> aslot m ip k = 0 ->
  ip' = set_iaddrs (iaddrs ip') ip -> length (iaddrs ip') = Z.to_nat (NDIRECT + 1) ->
  Forall (fun a => 0 <= a < 2 ^ 32) (iaddrs ip') ->
  (forall j, 0 <= j < NSLOT -> aslot m' ip' j = if j =? k then x else aslot m ip j) ->
  bitmap_ok b m' -> (forall y, 0 <= y < fssize b -> used b m' y = (y =? x) || used b m y) ->
  m' x = blk_zero -> (forall y, blk_ok b m y -> y <> ind ip -> m' y = m y) ->
  (forall y, blk_ok b m y -> len (m' y) = BSIZE) ->
  grows b m ip m' ip'.
Proof.
  intros Hok Hi Hx Hu Hk H0 Hmeta Hl Ha Hs Hok' Hused Hz Hfr Hln.
  pose proof (free_pos _ _ _ Hok Hx Hu) as Hx0. pose proof Hi as [Hdev _ _ Hblk Hinj].
  assert (Hbk : forall y, blk_ok b m y -> blk_ok b m' y).
  { intros y Hy. destruct (Hy) as [Hr Hh Hyu Hm _]. split; try done; [|by apply Hln].
    rewrite Hused by lia. by rewrite Hyu, orb_true_r. }
  assert (Hbx : blk_ok b m' x).
  { split; [lia|by apply (bo_free _ _ Hok)|rewrite Hused by done; by rewrite Z.eqb_refl| |rewrite Hz; apply len_zero].
    intros y Hy. by apply (bo_meta _ _ Hok). }
  assert (Hold : forall j, 0 <= j < NSLOT -> aslot m ip j <> 0 -> aslot m ip j <> x).
  { intros j Hj Hj0 E. pose proof (bk_used _ _ _ (Hblk j Hj Hj0)) as Hju. rewrite E in Hju. congruence. }
  assert (Hind : 0 <= NDIRECT < NSLOT) by done.
  split; try done.
  - split; try done.
    + rewrite Hmeta. done.
    + intros j Hj Hj0. rewrite Hs in Hj0 |- * by done. destruct (j =? k); [done|]. by apply Hbk, Hblk.
    + intros j j' Hj Hj' Hj0 E. rewrite !Hs in E by done. rewrite Hs in Hj0 by done.
      destruct (Z.eqb_spec j k) as [->|Hjk], (Z.eqb_spec j' k) as [->|Hjk']; try done.
      * exfalso. apply (Hold j' Hj'); congruence.
      * exfalso. by apply (Hold j Hj).
      * by apply Hinj.
  - intros bn Hbn. destruct (slot_range bn Hbn) as [Hsr Hsn]. unfold fblock. rewrite Hs by done.
    destruct (Z.eqb_spec (slot bn) k) as [->|Hne].
    + rewrite H0, (proj2 (Z.eqb_neq x 0)) by done. done.
    + destruct (Z.eqb_spec (aslot m ip (slot bn)) 0) as [|Hn0]; [done|]. apply Hfr; [by apply Hblk|].
      rewrite <- (aslot_ind m). intros E. apply Hsn. by apply Hinj.
  - intros j Hj Hj0. rewrite Hs by done. destruct (Z.eqb_spec j k) as [->|]; [congruence|done].
  - intros j Hj Hj0 Hz0. rewrite Hs in Hj0 |- * by done. destruct (j =? k); [done|congruence].
  - intros y Hy Hyu. rewrite Hused by done. by rewrite Hyu, orb_true_r.
  - intros y Hy Hne. apply Hfr; [done|]. intros ->. by apply (Hne NDIRECT).
Qed.

Lemma lookup_total_insert_ne' (l : list Z) (i j : nat) x : i <> j -> <[i := x]> l !!! j = l !!! j.
Proof. intros Hne. rewrite !list_lookup_total_alt. by rewrite list_lookup_insert_ne. Qed.

Lemma lookup_total_insert_eq' (l : list Z) (i : nat) x : (i < length l)%nat -> <[i := x]> l !!! i = x.
Proof. intros Hi. rewrite list_lookup_total_alt, list_lookup_insert_eq by done. done. Qed.

Lemma get32_zero o : get32 blk_zero o = 0.
Proof.
  apply (ldn_agree 4 _ (fun _ => 0)). intros x _. unfold ld8, blk_mem, blk_zero. destruct (x <? 0); [done|].
  destruct (replicate _ 0 !! _) as [v|] eqn:E; [|done]. apply lookup_replicate in E as [-> _]. done.
Qed.

Lemma grows_inode_slot b m ip k x :
  bitmap_ok b m -> inode_ok b m ip -> 0 <= x < fssize b -> used b m x = false ->
  0 <= k <= NDIRECT -> aslot m ip k = 0 ->
  grows b m ip (alloc_block b x m) (set_iaddrs (<[Z.to_nat k := x]> (iaddrs ip)) ip).
Proof.
  intros Hok Hi Hx Hu Hk H0. pose proof (bo_size _ _ Hok) as Hsz. pose proof Hi as [Hdev Hl Ha Hblk Hinj].
  apply (grows_intro b m ip _ _ k x); try done.
  - unfold NSLOT. change NINDIRECT with 256. lia.
  - cbn. by rewrite length_insert.
  - cbn. apply Forall_insert; [done|lia].
  - intros j Hj. unfold aslot, ind at 1 2. cbn [iaddrs set_iaddrs].
    change (NDIRECT + 1) with 13 in *. change NDIRECT with 12 in *. change (Z.to_nat 12) with 12%nat.
    destruct (Z.leb_spec j 12) as [Hj12|Hj12].
    + destruct (Z.eqb_spec j k) as [->|Hne]; [apply lookup_total_insert_eq'; rewrite Hl; lia|].
      apply lookup_total_insert_ne'. lia.
    + rewrite (proj2 (Z.eqb_neq j k)) by lia. unfold aslot in H0. change NDIRECT with 12 in H0.
      rewrite (proj2 (Z.leb_le k 12)) in H0 by lia. unfold ind. change (Z.to_nat NDIRECT) with 12%nat.
      destruct (Z.eq_dec k 12) as [->|Hk12].
      * change (Z.to_nat 12) with 12%nat in *. rewrite lookup_total_insert_eq' by (rewrite Hl; lia). rewrite alloc_new, get32_zero, H0.
        by destruct (x =? 0).
      * rewrite lookup_total_insert_ne' by lia. destruct (Z.eqb_spec (iaddrs ip !!! 12%nat) 0) as [|Hi0]; [done|].
        destruct (blk_ok_alloc b m x (iaddrs ip !!! 12%nat)) as (_ & -> & _); try done. by apply (Hblk 12).
  - by apply alloc_bitmap_ok.
  - intros y Hy. by apply used_alloc.
  - apply alloc_new.
  - intros y Hy _. by apply blk_ok_alloc.
  - intros y Hy. destruct (blk_ok_alloc b m x y) as (Hy' & _); try done. apply Hy'.
Qed.

Lemma used_fupd b m x v y : (forall z, 0 <= z < fssize b -> x <> BBLOCK z b) -> 0 <= y < fssize b -> used b (fupd m x v) y = used b m y.
Proof. intros Hx Hy. unfold used. rewrite fupd_ne; [done|]. apply not_eq_sym. by apply Hx. Qed.

(** Rewriting a block outside the free map keeps the map. *)
Lemma bitmap_ok_fupd b m x v : bitmap_ok b m -> (forall z, 0 <= z < fssize b -> x <> BBLOCK z b) -> bitmap_ok b (fupd m x v).
Proof.
  intros [Hsz Hst Hz Hhome Hlen Hfree Hmeta] Hx. split; try done.
  - intros Hp. rewrite used_fupd by (done || lia). by apply Hz.
  - intros y Hy. rewrite fupd_ne by (apply not_eq_sym; by apply Hx). by apply Hlen.
  - intros y Hy. rewrite used_fupd by done. by apply Hfree.
  - intros y z Hy Hz'. rewrite used_fupd by done. by apply Hmeta.
Qed.

Lemma grows_indirect_slot b m ip k x :
  bitmap_ok b m -> inode_ok b m ip -> 0 <= x < fssize b -> used b m x = false ->
  NDIRECT < k < NSLOT -> ind ip <> 0 -> aslot m ip k = 0 ->
  grows b m ip (fupd (alloc_block b x m) (ind ip) (put32 (m (ind ip)) (4 * (k - (NDIRECT + 1))) x)) ip.
Proof.
  intros Hok Hi Hx Hu Hk Hind H0. pose proof (bo_size _ _ Hok) as Hsz. pose proof Hi as [Hdev Hl Ha Hblk Hinj].
  assert (Hib : blk_ok b m (ind ip)) by (apply (Hblk NDIRECT); done).
  destruct (blk_ok_alloc b m x (ind ip)) as (Hib' & Ham & Hix); try done.
  assert (Hlen : len (m (ind ip)) = BSIZE) by apply Hib. unfold len in Hlen.
  assert (Hoff : 0 <= 4 * (k - (NDIRECT + 1)) <= BSIZE - 4).
  { unfold NSLOT in Hk. change NINDIRECT with 256 in Hk. change NDIRECT with 12 in *. change BSIZE with 1024. lia. }
  apply (grows_intro b m ip _ _ k x); try done.
  - change NDIRECT with 12 in Hk. lia.
  - by destruct ip.
  - intros j Hj. unfold aslot. change NDIRECT with 12 in *. destruct (Z.leb_spec j 12) as [Hj12|Hj12].
    + by rewrite (proj2 (Z.eqb_neq j k)) by lia.
    + rewrite (proj2 (Z.eqb_neq (ind ip) 0)) by done. rewrite fupd_eq. unfold get32, put32.
      destruct (Z.eqb_spec j k) as [->|Hne].
      * rewrite getn_putn_eq by lia. apply Z.mod_small. change (8 * Z.of_nat 4) with 32. lia.
      * apply getn_putn_ne; lia.
  - apply bitmap_ok_fupd; [by apply alloc_bitmap_ok|apply Hib].
  - intros y Hy. rewrite used_fupd by (done || apply Hib). by apply used_alloc.
  - rewrite fupd_ne by done. apply alloc_new.
  - intros y Hy Hne. rewrite fupd_ne by done. by apply blk_ok_alloc.
  - intros y Hy. unfold fupd. destruct (Z.eqb_spec y (ind ip)) as [->|]; [unfold put32; by rewrite len_putn|].
    destruct (blk_ok_alloc b m x y) as (Hy' & _); try done. apply Hy'.
Qed.

(** ** bmap *)

Lemma wp_geti st b t cw i ip (Q : inode -> fsys S -> Prop) :
  t !! i = Some ip -> Q ip (Fsys st b t cw) -> wp (geti i) (Fsys st b t cw) Q.
Proof. intros Hi HQ. unfold wp, geti. cbn. by rewrite Hi. Qed.

Lemma wp_seti st b t cw i ip f (Q : unit -> fsys S -> Prop) :
  t !! i = Some ip -> Q tt (Fsys st b (<[i := f ip]> t) cw) -> wp (seti i f) (Fsys st b t cw) Q.
Proof. intros Hi HQ. unfold wp, seti. cbn. by rewrite Hi. Qed.

Lemma default_total (l : list Z) (k : nat) : (k < length l)%nat -> default 0 (l !! k) = l !!! k.
Proof. intros Hk. destruct (lookup_lt_is_Some_2 l k Hk) as [x Hx]. by rewrite (list_lookup_total_correct _ _ _ Hx), Hx. Qed.

Lemma log_add_in x bs : x ∈ bs -> log_add x bs = bs.
Proof. intros Hx. unfold log_add. by rewrite bool_decide_eq_true_2. Qed.

Definition room bs hs (n : nat) : Prop := (length bs + length hs + n < nbuf)%nat /\ (length bs + n <= b_cap)%nat.

Lemma wp_addr_at st b t cw w d m bs i ip k (Q : Z -> fsys S -> Prop) :
  tx st w d m bs [] -> bitmap_ok b m -> inode_ok b m ip -> t !! i = Some ip -> 0 <= k <= NDIRECT -> room bs [] 2 ->
  (forall st' m' bs' ip', tx st' w d m' bs' [] -> grows b m ip m' ip' -> aslot m' ip' k <> 0 -> bs ⊆ bs' ->
     (length bs' <= length bs + 2)%nat -> (aslot m ip k = 0 -> aslot m' ip' k ∈ bs') ->
     (aslot m ip k <> 0 -> m' = m /\ bs' = bs /\ ip' = ip) ->
     Q (aslot m' ip' k) (Fsys st' b (<[i := ip']> t) cw)) ->
  (forall st', tx st' w d m bs [] -> (forall x, 0 <= x < fssize b -> used b m x = true) -> aslot m ip k = 0 -> Q 0 (Fsys st' b t cw)) ->
  wp (addr_at i (Z.to_nat k)) (Fsys st b t cw) Q.
Proof.
  intros Ht Hok Hi Hip Hk [Hr1 Hr2] Hsome Hnone. unfold addr_at. apply wp_bind. eapply wp_geti; [exact Hip|].
  rewrite default_total by (rewrite (io_len _ _ _ Hi); change NDIRECT with 12 in *; lia). assert (Ek : iaddrs ip !!! Z.to_nat k = aslot m ip k) by (unfold aslot; by rewrite (proj2 (Z.leb_le k _)) by lia).
  rewrite Ek, (io_dev _ _ _ Hi). destruct (Z.eqb_spec (aslot m ip k) 0) as [E0|E0].
  - apply wp_bind. eapply wp_balloc; [exact Ht|done|split; intros; apply not_elem_of_nil|done|done| |].
    + intros x st1 Hx Hu _ Ht1. pose proof (free_pos _ _ _ Hok Hx Hu) as Hx0. rewrite (proj2 (Z.eqb_neq x 0)) by done.
      pose proof (grows_inode_slot b m ip k x Hok Hi Hx Hu Hk E0) as Hg.
      apply wp_bind. eapply wp_seti; [exact Hip|]. apply wp_ret.
      assert (Ea : aslot (alloc_block b x m) (set_iaddrs (<[Z.to_nat k:=x]> (iaddrs ip)) ip) k = x).
      { unfold aslot. rewrite (proj2 (Z.leb_le k _)) by lia. cbn. apply lookup_total_insert_eq'.
        rewrite (io_len _ _ _ Hi). change NDIRECT with 12 in *. lia. }
      pose proof (length_log_add x (log_add (BBLOCK x b) bs)). pose proof (length_log_add (BBLOCK x b) bs).
      pose proof (Hsome _ _ _ _ Ht1 Hg) as HQ. rewrite Ea in HQ. apply HQ; [done| |lia|intros _; apply elem_of_log_add|done].
      intros y Hy. by do 2 apply log_add_sub.
    + intros st1 Hall Ht1. cbn [Z.eqb]. apply wp_ret. by apply Hnone.
  - apply wp_ret. rewrite <- (list_insert_id t i ip) at 1 by done. eapply Hsome; [exact Ht|by apply grows_refl|done|done|lia|done|done].
Qed.

(** The second half of [bmap]: an entry of the indirect block. *)
Definition bmap_indirect (i : nat) (addr bn : Z) : M (fsys S) Z :=
  ip <- geti i;;
  bp <- fbread (idev ip) addr;;
  d <- fdata bp;;
  let addr := get32 d (4 * bn) in
  (if addr =? 0 then
     a <- balloc (idev ip);;
     (if negb (a =? 0) then d <- fdata bp;; fset_data bp (put32 d (4 * bn) a);; flog_write bp else ret tt);;
     fbrelse bp;;
     ret a
   else fbrelse bp;; ret addr).

Lemma wp_bmap_indirect st b t cw w d m bs i ip bn (Q : Z -> fsys S -> Prop) :
  tx st w d m bs [] -> bitmap_ok b m -> inode_ok b m ip -> t !! i = Some ip -> ind ip <> 0 ->
  0 <= bn < NINDIRECT -> room bs [] 4 ->
  (forall st' m' bs', tx st' w d m' bs' [] -> grows b m ip m' ip -> aslot m' ip (NDIRECT + 1 + bn) <> 0 -> bs ⊆ bs' ->
     (length bs' <= length bs + if bool_decide (ind ip ∈ bs) then 2 else 3)%nat ->
     (aslot m ip (NDIRECT + 1 + bn) = 0 -> aslot m' ip (NDIRECT + 1 + bn) ∈ bs') ->
     (aslot m ip (NDIRECT + 1 + bn) <> 0 -> m' = m /\ bs' = bs) ->
     Q (aslot m' ip (NDIRECT + 1 + bn)) (Fsys st' b t cw)) ->
  (forall st', tx st' w d m bs [] -> (forall x, 0 <= x < fssize b -> used b m x = true) ->
     aslot m ip (NDIRECT + 1 + bn) = 0 -> Q 0 (Fsys st' b t cw)) ->
  wp (bmap_indirect i (ind ip) bn) (Fsys st b t cw) Q.
Proof.
  intros Ht Hok Hi Hip Hind Hbn [Hr1 Hr2] Hsome Hnone. unfold bmap_indirect. apply wp_bind. eapply wp_geti; [exact Hip|].
  rewrite (io_dev _ _ _ Hi). assert (Hib : blk_ok b m (ind ip)) by (apply (io_blk _ _ _ Hi NDIRECT); done).
  assert (Ea : forall m', aslot m' ip (NDIRECT + 1 + bn) = get32 (m' (ind ip)) (4 * bn)).
  { intros m'. unfold aslot. rewrite (proj2 (Z.leb_gt _ _)), (proj2 (Z.eqb_neq _ _)) by (done || lia).
    f_equal. lia. }
  assert (Hrc : ind ip ∈ bs \/ m (ind ip) = d (ind ip)) by (eapply read_clean; [exact Ht|apply Hib|apply not_elem_of_nil]).
  apply wp_bind. eapply wp_fbread; [exact Ht|apply Hib|apply not_elem_of_nil|right; cbn [length] in *; lia|]. intros h st1 Ht1.
  apply wp_bind. eapply wp_fdata; [exact Ht1|by left|]. cbv zeta. rewrite <- Ea.
  destruct (Z.eqb_spec (aslot m ip (NDIRECT + 1 + bn)) 0) as [E0|E0].
  - apply wp_bind. eapply wp_balloc; [exact Ht1|done| |cbn [length] in *; lia|lia| |].
    { split; intros x Hx; cbn; rewrite not_elem_of_cons; [intros Hu; split; [|apply not_elem_of_nil]|split; [|apply not_elem_of_nil]].
      - intros ->. rewrite (bk_used _ _ _ Hib) in Hu. done.
      - apply not_eq_sym. by apply (bk_meta _ _ _ Hib). }
    + intros x st2 Hx Hu _ Ht2. pose proof (free_pos _ _ _ Hok Hx Hu) as Hx0. rewrite (proj2 (Z.eqb_neq x 0)) by done. cbn [negb].
      assert (Ham : alloc_block b x m (ind ip) = m (ind ip)) by (by apply blk_ok_alloc).
      pose proof (grows_indirect_slot b m ip (NDIRECT + 1 + bn) x Hok Hi Hx Hu) as Hg.
      replace (4 * (NDIRECT + 1 + bn - (NDIRECT + 1))) with (4 * bn) in Hg by lia.
      specialize (Hg ltac:(unfold NSLOT; lia) Hind E0).
      pose proof (length_log_add x (log_add (BBLOCK x b) bs)) as L1. pose proof (length_log_add (BBLOCK x b) bs) as L2.
      apply wp_bind, wp_bind. eapply wp_fdata; [exact Ht2|by left|]. rewrite Ham.
      apply wp_bind. eapply wp_fset_data; [exact Ht2|by left|]. intros st3 Ht3.
      eapply wp_flog_write; [exact Ht3|by left|lia|]. intros st4 Ht4.
      apply wp_bind. eapply wp_fbrelse; [exact Ht4|left; apply elem_of_log_add|]. intros st5 Ht5. apply wp_ret.
      assert (L3 : (length (log_add (ind ip) (log_add x (log_add (BBLOCK x b) bs))) <= length bs + if bool_decide (ind ip ∈ bs) then 2 else 3)%nat).
      { case_bool_decide; [rewrite log_add_in by (by do 2 apply log_add_sub); lia|].
        pose proof (length_log_add (ind ip) (log_add x (log_add (BBLOCK x b) bs))). lia. }
      pose proof (Hsome _ _ _ Ht5 Hg) as HQ. rewrite Ea, fupd_eq in HQ. unfold get32, put32 in HQ.
      pose proof (bk_len _ _ _ Hib) as Hl. unfold len in Hl. pose proof (bo_size _ _ Hok).
      rewrite getn_putn_eq, Z.mod_small in HQ; [|change (2 ^ (8 * Z.of_nat 4)) with (2 ^ 32); lia|lia|change NINDIRECT with 256 in *; change BSIZE with 1024 in *; lia].
      apply HQ; [done| |done|intros _; apply log_add_sub, elem_of_log_add|congruence]. intros y Hy. by do 3 apply log_add_sub.
    + intros st2 Hall Ht2. cbn [Z.eqb negb]. apply wp_bind, wp_ret.
      apply wp_bind. eapply wp_fbrelse; [exact Ht2|done|]. intros st3 Ht3. apply wp_ret. by apply Hnone.
  - apply wp_bind. eapply wp_fbrelse; [exact Ht1|done|]. intros st2 Ht2. apply wp_ret.
    eapply Hsome; [exact Ht2|by apply grows_refl|done|done|lia|done|done].
Qed.

Lemma wp_bmap st b t cw w d m bs i ip bn (Q : Z -> fsys S -> Prop) :
  tx st w d m bs [] -> bitmap_ok b m -> inode_ok b m ip -> t !! i = Some ip -> 0 <= bn < MAXFILE -> room bs [] 6 ->
  (forall st' m' bs' ip', tx st' w d m' bs' [] -> grows b m ip m' ip' -> aslot m' ip' (slot bn) <> 0 -> bs ⊆ bs' ->
     (length (log_add (aslot m' ip' (slot bn)) bs') <= length bs + 4)%nat ->
     (aslot m ip (slot bn) <> 0 -> m' = m /\ bs' = bs /\ ip' = ip) ->
     Q (aslot m' ip' (slot bn)) (Fsys st' b (<[i := ip']> t) cw)) ->
  (forall st' m' bs' ip', tx st' w d m' bs' [] -> grows b m ip m' ip' -> bs ⊆ bs' -> (length bs' <= length bs + 4)%nat ->
     (forall x, 0 <= x < fssize b -> used b m' x = true) -> aslot m ip (slot bn) = 0 -> Q 0 (Fsys st' b (<[i := ip']> t) cw)) ->
  wp (bmap i bn) (Fsys st b t cw) Q.
Proof.
  intros Ht Hok Hi Hip Hbn [Hr1 Hr2] Hsome Hnone. unfold bmap. destruct (Z.ltb_spec bn NDIRECT) as [Hd|Hd].
  - assert (Es : slot bn = bn) by (unfold slot; by rewrite (proj2 (Z.ltb_lt _ _))). rewrite Es in Hsome, Hnone.
    eapply wp_addr_at; [exact Ht|done|done|done|lia|split; lia| |].
    + intros st' m' bs' ip' Ht' Hg Hn Hsub Hlen Hin Hsame. eapply Hsome; try done.
      pose proof (length_log_add (aslot m' ip' bn) bs'). lia.
    + intros st' Ht' Hall E0. rewrite <- (list_insert_id t i ip) by done.
      eapply Hnone; try done; [by apply grows_refl|lia].
  - assert (Es : slot bn = NDIRECT + 1 + (bn - NDIRECT)) by (unfold slot; rewrite (proj2 (Z.ltb_ge _ _)) by done; lia).
    rewrite Es in Hsome, Hnone. rewrite (proj2 (Z.ltb_lt (bn - NDIRECT) NINDIRECT)) by (unfold MAXFILE in Hbn; lia).
    apply wp_bind. eapply wp_addr_at; [exact Ht|done|done|done|done|split; lia| |].
    + intros st1 m1 bs1 ip1 Ht1 Hg1 Hn1 Hsub1 Hlen1 Hin1 Hsame1. rewrite (proj2 (Z.eqb_neq _ 0)) by done.
      assert (Ht1i : <[i := ip1]> t !! i = Some ip1) by (apply list_lookup_insert_eq; by eapply lookup_lt_Some).
      assert (Hdir : aslot m ip (NDIRECT + 1 + (bn - NDIRECT)) <> 0 -> aslot m ip NDIRECT <> 0).
      { unfold aslot at 1. rewrite (proj2 (Z.leb_gt _ _)) by lia. rewrite aslot_ind. by destruct (Z.eqb_spec (ind ip) 0). }
      rewrite aslot_ind in Hn1, Hin1 |- *. eapply (wp_bmap_indirect st1 b _ cw w d m1 bs1 i ip1); try done; [apply Hg1|apply Hg1|
        unfold MAXFILE in Hbn; lia|split; cbn [length] in *; lia| |].
      * intros st2 m2 bs2 Ht2 Hg2 Hn2 Hsub2 Hlen2 Hin2 Hsame2. eapply Hsome; try done; [by eapply grows_trans| | |].
        { intros y Hy. by apply Hsub2, Hsub1. }
        { set (a := aslot m2 ip1 _) in *. pose proof (length_log_add a bs2).
          destruct (Z.eq_dec (aslot m ip NDIRECT) 0) as [En|En].
          - rewrite bool_decide_eq_true_2 in Hlen2 by (by apply Hin1). destruct (Z.eq_dec (aslot m1 ip1 (NDIRECT + 1 + (bn - NDIRECT))) 0) as [E1|E1].
            + rewrite log_add_in by (by apply Hin2). lia.
            + destruct (Hsame2 E1) as [_ ->]. lia.
          - destruct (Hsame1 En) as (-> & -> & ->). destruct (bool_decide (ind ip ∈ bs)); lia. }
        intros E. destruct (Hsame1 (Hdir E)) as (-> & -> & ->). destruct (Hsame2 E) as (-> & ->). done.
      * intros st2 Ht2 Hall E0. eapply Hnone; try done; [lia|]. apply Z.eq_dne. intros E.
        destruct (Hsame1 (Hdir E)) as (-> & -> & ->). done.
    + intros st1 Ht1 Hall E0. cbn [Z.eqb]. apply wp_ret. rewrite <- (list_insert_id t i ip) by done.
      eapply Hnone; try done; [by apply grows_refl|lia|]. rewrite aslot_ind in E0. unfold aslot.
      rewrite (proj2 (Z.leb_gt _ _)) by lia. by rewrite E0.
Qed.

(** ** Reading *)

(** The byte at offset [off] of the file, and a run of bytes. *)
Definition fbyte m ip (off : Z) : Z := getn 1 (fblock m ip (off / BSIZE)) (off mod BSIZE).
Definition fbytes m ip (off : Z) (n : nat) : list Z := (fun i => fbyte m ip (off + Z.of_nat i)) <$> seq 0 n.

(** Every block below the size is allocated, and the size is possible. *)
Definition no_holes m ip : Prop :=
  0 <= isize ip <= MAXFILE * BSIZE /\
  forall bn, 0 <= bn -> BSIZE * bn < isize ip -> aslot m ip (slot bn) <> 0.

Lemma div_block off k : 0 <= off -> 0 <= k < BSIZE - off mod BSIZE -> (off + k) / BSIZE = off / BSIZE /\ (off + k) mod BSIZE = off mod BSIZE + k.
Proof.
  intros Ho Hk. pose proof (Z.mod_pos_bound off BSIZE ltac:(done)). pose proof (Z.div_mod off BSIZE ltac:(done)).
  change BSIZE with 1024 in *. split; [symmetry; apply Z.div_unique_pos with (off mod 1024 + k); lia|].
  symmetry. apply Z.mod_unique_pos with (off / 1024); lia.
Qed.

(** Bytes of one block of the file are bytes of a disk block. *)
Lemma fbytes_block m ip off n :
  0 <= off -> 0 < Z.of_nat n <= BSIZE - off mod BSIZE -> aslot m ip (slot (off / BSIZE)) <> 0 ->
  fbytes m ip off n = get_bytes n (m (aslot m ip (slot (off / BSIZE)))) (off mod BSIZE).
Proof.
  intros Ho Hn Ha. unfold fbytes, get_bytes. apply list_fmap_ext. intros i j [-> Hi]%lookup_seq. rewrite Nat.add_0_l.
  unfold fbyte. destruct (div_block off (Z.of_nat i)) as [-> ->]; [done|lia|]. unfold fblock.
  by rewrite (proj2 (Z.eqb_neq _ 0)).
Qed.

Lemma fbytes_app m ip off n k : fbytes m ip off (n + k) = fbytes m ip off n ++ fbytes m ip (off + Z.of_nat n) k.
Proof.
  unfold fbytes. rewrite seq_app, fmap_app, Nat.add_0_l. f_equal. rewrite <- (Nat.add_0_r n) at 1.
  rewrite <- fmap_add_seq, <- list_fmap_compose. apply list_fmap_ext. intros i j [-> Hi]%lookup_seq. cbn. f_equal. lia.
Qed.

Lemma length_fbytes m ip off n : length (fbytes m ip off n) = n.
Proof. unfold fbytes. by rewrite length_fmap, length_seq. Qed.

(** The next chunk of a transfer: it stays in one block and makes progress. *)
Lemma chunk_bounds off tot n : 0 <= off -> tot < n ->
  let k := Z.min (n - tot) (BSIZE - off mod BSIZE) in 0 < k <= BSIZE - off mod BSIZE /\ tot + k <= n.
Proof. intros Ho Ht. pose proof (Z.mod_pos_bound off BSIZE ltac:(done)). lia. Qed.

Lemma chunk_fuel off tot n (fuel : nat) : 0 <= off -> tot < n -> off + (n - tot) <= BSIZE * (off / BSIZE + Z.of_nat (Datatypes.S fuel)) ->
  let k := Z.min (n - tot) (BSIZE - off mod BSIZE) in
  tot + k < n -> off + k + (n - (tot + k)) <= BSIZE * ((off + k) / BSIZE + Z.of_nat fuel).
Proof.
  intros Ho Ht Hf k Hk. pose proof (Z.mod_pos_bound off BSIZE ltac:(done)). pose proof (Z.div_mod off BSIZE ltac:(done)).
  assert (Ek : k = BSIZE - off mod BSIZE) by lia. change BSIZE with 1024 in *.
  assert ((off + k) / 1024 = off / 1024 + 1) as ->; [|lia]. symmetry. apply Z.div_unique_pos with 0; lia.
Qed.

Lemma wp_readi_loop {A} (P : Z -> A -> Prop) fuel out acc st b t cw w d m bs i ip off0 tot n (Q : Z * A -> fsys S -> Prop) :
  tx st w d m bs [] -> bitmap_ok b m -> inode_ok b m ip -> no_holes m ip -> t !! i = Some ip -> room bs [] 6 ->
  0 <= off0 -> 0 <= tot <= n -> off0 + n <= isize ip ->
  (tot < n -> off0 + n <= BSIZE * ((off0 + tot) / BSIZE + Z.of_nat fuel)) -> P tot acc ->
  (forall tot acc k, P tot acc -> 0 < k -> 0 <= tot -> tot + k <= n ->
     exists acc', out acc tot (fbytes m ip (off0 + tot) (Z.to_nat k)) = (acc', true) /\ P (tot + k) acc') ->
  (forall st' acc', tx st' w d m bs [] -> P n acc' -> Q (n, acc') (Fsys st' b t cw)) ->
  wp (readi_loop fuel out acc i tot (off0 + tot) n) (Fsys st b t cw) Q.
Proof.
  intros Ht Hok Hi [Hsz Hnh] Hip Hroom Ho. revert acc st tot Ht.
  induction fuel as [|fuel IH]; intros acc st tot Ht Htot Hend Hf HP Hout HQ; cbn [readi_loop];
    (destruct (Z.ltb_spec tot n) as [Hlt|Hge]; [|assert (tot = n) as -> by lia; apply wp_ret; by apply HQ]).
  { specialize (Hf Hlt). pose proof (Z.mul_div_le (off0 + tot) BSIZE ltac:(done)). lia. }
  set (off := off0 + tot) in *. assert (Hoff : 0 <= off) by lia.
  pose proof (chunk_bounds off tot n Hoff Hlt) as Hck. pose proof (chunk_fuel off tot n fuel Hoff Hlt) as Hcf. cbv zeta in Hck, Hcf.
  pose proof (Z.div_mod off BSIZE ltac:(done)) as Hdm. pose proof (Z.mod_pos_bound off BSIZE ltac:(done)) as Hmb.
  assert (Hbn : 0 <= off / BSIZE < MAXFILE).
  { split; [apply Z.div_pos; done|]. apply Z.div_lt_upper_bound; [done|]. lia. }
  assert (Hmapped : aslot m ip (slot (off / BSIZE)) <> 0) by (apply Hnh; lia).
  apply wp_bind. eapply wp_bmap; try done.
  intros st1 m1 bs1 ip1 Ht1 _ _ _ _ Hsame. destruct (Hsame Hmapped) as (-> & -> & ->). clear Hsame.
  rewrite (list_insert_id t i ip) by done. rewrite (proj2 (Z.eqb_neq _ 0)) by done.
  assert (Hblk : blk_ok b m (aslot m ip (slot (off / BSIZE)))) by (apply (io_blk _ _ _ Hi); [by apply slot_range|done]).
  apply wp_bind. eapply wp_geti; [exact Hip|]. rewrite (io_dev _ _ _ Hi).
  destruct Hroom as [Hr1 Hr2]. cbn [length] in Hr1.
  apply wp_bind. eapply wp_fbread; [exact Ht1|apply Hblk|apply not_elem_of_nil|right; cbn [length]; lia|]. intros h st2 Ht2.
  apply wp_bind. eapply wp_fdata; [exact Ht2|by left|]. set (k := Z.min (n - tot) (BSIZE - off mod BSIZE)) in *.
  rewrite <- fbytes_block by (done || lia). destruct (Hout tot acc k HP) as (acc' & Eo & HP'); [lia..|].
  fold off in Eo. rewrite Eo.
  apply wp_bind. eapply wp_fbrelse; [exact Ht2|eapply read_clean; [exact Ht1|apply Hblk|apply not_elem_of_nil]|]. intros st3 Ht3.
  unfold off. rewrite <- Z.add_assoc. apply IH; try done; [lia|]. intros Hlt'. fold off. rewrite Z.add_assoc. fold off. specialize (Hf Hlt). specialize (Hcf ltac:(lia) Hlt'). lia.
Qed.
End Inode.
