(* ===== verification/FsWrite.v ===== *)
(** * Reading and writing files

    [readi] returns the bytes of the file; [writei] changes the bytes it is
    asked to and no others, extends the file if needed, writes the inode back,
    and leaves every other block of the file system alone. *)
From S2P Require Import Prelude Riscv Mem KString Bio Block TxSpec Fs FsBlock FsProofs FsInode.

Section Write.
Context {S : Type} `{BlockStore S}.
Implicit Types (st : S) (b : superblock) (m d : Z -> block) (bs : list Z) (hs : list (Z * nat)) (w : list (Z * block)) (ip : inode).

(** ** readi *)

(** How many bytes [readi] transfers. *)
Definition read_len ip (off n : Z) : Z :=
  if (off >? isize ip) || (u32 (off + n) <? off) then 0 else Z.min n (isize ip - off).

Lemma wp_readi {A} (P : Z -> A -> Prop) out acc st b t cw w d m bs i ip off n (Q : Z * A -> fsys S -> Prop) :
  tx st w d m bs [] -> bitmap_ok b m -> inode_ok b m ip -> no_holes m ip -> t !! i = Some ip -> room bs [] 6 ->
  0 <= off < 2 ^ 32 -> 0 <= n < 2 ^ 32 -> P 0 acc ->
  (forall tot acc k, P tot acc -> 0 < k -> 0 <= tot -> tot + k <= read_len ip off n ->
     exists acc', out acc tot (fbytes m ip (off + tot) (Z.to_nat k)) = (acc', true) /\ P (tot + k) acc') ->
  (forall st' acc', tx st' w d m bs [] -> P (read_len ip off n) acc' -> Q (read_len ip off n, acc') (Fsys st' b t cw)) ->
  wp (readi out acc i off n) (Fsys st b t cw) Q.
Proof.
  intros Ht Hok Hi Hnh Hip Hroom Hoff Hn HP Hout HQ. pose proof Hnh as [Hsz _]. unfold readi, read_len in *.
  apply wp_bind. eapply wp_geti; [exact Hip|]. destruct (_ || _) eqn:E; [apply wp_ret; by apply HQ|].
  bool_prop. assert (E2 : u32 (off + n) = off + n).
  { unfold u32 in *. destruct (Z.lt_ge_cases (off + n) (2 ^ 32)) as [|Hge]; [by rewrite Z.mod_small by lia|].
    replace (off + n) with (off + n - 2 ^ 32 + 1 * 2 ^ 32) in * by lia. rewrite Z.mod_add, Z.mod_small in * by lia. lia. }
  rewrite E2. assert (En : (if off + n >? isize ip then isize ip - off else n) = Z.min n (isize ip - off)).
  { rewrite Z.gtb_ltb. destruct (Z.ltb_spec (isize ip) (off + n)); lia. }
  rewrite En. set (k := Z.min n (isize ip - off)) in *. rewrite <- (Z.add_0_r off) at 1.
  eapply (wp_readi_loop P); try done; try lia. intros Hk. rewrite Z.add_0_r.
  pose proof (Z.div_mod off BSIZE ltac:(done)). pose proof (Z.div_mod k BSIZE ltac:(done)).
  pose proof (Z.mod_pos_bound off BSIZE ltac:(done)). pose proof (Z.mod_pos_bound k BSIZE ltac:(done)).
  assert (0 <= k / BSIZE) by (apply Z.div_pos; done || lia). rewrite Z2Nat.id by lia. change BSIZE with 1024 in *. lia.
Qed.

(** ** Extending a file: allocation and changed contents *)

Record extends b m ip m' ip' : Prop := Extends {
  ex_bitmap : bitmap_ok b m';
  ex_inode : inode_ok b m' ip';
  ex_meta : ip' = set_iaddrs (iaddrs ip') ip;
  ex_old : forall k, 0 <= k < NSLOT -> aslot m ip k <> 0 -> aslot m' ip' k = aslot m ip k;
  ex_new : forall k, 0 <= k < NSLOT -> aslot m' ip' k <> 0 -> aslot m ip k = 0 -> used b m (aslot m' ip' k) = false;
  ex_mono : forall y, 0 <= y < fssize b -> used b m y = true -> used b m' y = true;
  ex_blk : forall y, blk_ok b m y -> blk_ok b m' y;
  ex_frame : forall y, blk_ok b m y -> (forall k, 0 <= k < NSLOT -> aslot m ip k <> y) -> m' y = m y;
}.

Lemma grows_extends b m ip m' ip' : grows b m ip m' ip' -> extends b m ip m' ip'.
Proof. intros []. by split. Qed.

Lemma extends_refl b m ip : bitmap_ok b m -> inode_ok b m ip -> extends b m ip m ip.
Proof. intros. by apply grows_extends, grows_refl. Qed.

Lemma extends_trans b m0 ip0 m1 ip1 m2 ip2 :
  extends b m0 ip0 m1 ip1 -> extends b m1 ip1 m2 ip2 -> extends b m0 ip0 m2 ip2.
Proof.
  intros [Hb1 Hi1 Hm1 Ho1 Hn1 Hu1 Hk1 Hf1] [Hb2 Hi2 Hm2 Ho2 Hn2 Hu2 Hk2 Hf2]. split; try done.
  - unfold set_iaddrs in *. destruct ip1, ip2. cbn in *. congruence.
  - intros k Hk H0. rewrite <- (Ho1 k) in H0 |- * by done. by apply Ho2.
  - intros k Hk H2 H0. destruct (Z.eq_dec (aslot m1 ip1 k) 0) as [E|E].
    + specialize (Hn2 k Hk H2 E). apply not_true_iff_false. intros Hu. destruct (io_blk _ _ _ Hi2 k Hk H2) as [Hr _ _ _ _].
      rewrite Hu1 in Hn2 by (done || lia). done.
    + rewrite (Ho2 k Hk E) in H2 |- *. by apply Hn1.
  - intros y Hr Hy. by apply Hu2, Hu1.
  - intros y Hy. by apply Hk2, Hk1.
  - intros y Hy Hne. rewrite Hf2; [by apply Hf1|by apply Hk1|]. intros k Hk Heq.
    destruct (Z.eq_dec (aslot m0 ip0 k) 0) as [E0|E0].
    + assert (aslot m1 ip1 k <> 0) by (rewrite Heq; destruct Hy; lia).
      specialize (Hn1 k Hk ltac:(done) E0). rewrite Heq, (bk_used _ _ _ Hy) in Hn1. done.
    + apply (Hne k Hk). by rewrite <- (Ho1 k Hk E0).
Qed.

Lemma aslot_fupd m ip x v k : x <> ind ip -> aslot (fupd m x v) ip k = aslot m ip k.
Proof. intros Hx. unfold aslot. rewrite fupd_ne by done. done. Qed.

(** No block is in two slots. *)
Definition slots_inj m ip : Prop :=
  forall k k', 0 <= k < NSLOT -> 0 <= k' < NSLOT -> aslot m ip k <> 0 -> aslot m ip k = aslot m ip k' -> k = k'.

(** A data block of the file is not its indirect block. *)
Lemma slot_not_ind m ip bn : slots_inj m ip -> 0 <= bn < MAXFILE -> aslot m ip (slot bn) <> 0 -> aslot m ip (slot bn) <> ind ip.
Proof. intros Hi Hbn Ha E. destruct (slot_range bn Hbn) as [Hr Hne]. by apply Hne, Hi. Qed.

Lemma data_not_ind b m ip bn : inode_ok b m ip -> 0 <= bn < MAXFILE -> aslot m ip (slot bn) <> 0 -> aslot m ip (slot bn) <> ind ip.
Proof. intros Hi. exact (slot_not_ind m ip bn (io_inj _ _ _ Hi)). Qed.

Lemma extends_write b m ip bn v :
  bitmap_ok b m -> inode_ok b m ip -> 0 <= bn < MAXFILE -> aslot m ip (slot bn) <> 0 -> len v = BSIZE ->
  extends b m ip (fupd m (aslot m ip (slot bn)) v) ip.
Proof.
  intros Hok Hi Hbn Ha Hv. pose proof (data_not_ind _ _ _ _ Hi Hbn Ha) as Hni. destruct (slot_range bn Hbn) as [Hr Hne].
  pose proof (io_blk _ _ _ Hi _ Hr Ha) as Hba. set (a := aslot m ip (slot bn)) in *.
  assert (Hbk : forall y, blk_ok b m y -> blk_ok b (fupd m a v) y).
  { intros y [Hyr Hyh Hyu Hym Hyl]. split; try done; [rewrite used_fupd by (apply Hba || lia); done|].
    unfold fupd. by destruct (y =? a). }
  split; try done.
  - apply bitmap_ok_fupd; [done|apply Hba].
  - destruct Hi as [Hdev Hl Hads Hblk Hinj]. split; try done.
    + intros k Hk. rewrite aslot_fupd by done. intros Hk0. by apply Hbk, Hblk.
    + intros k k' Hk Hk'. rewrite !aslot_fupd by done. by apply Hinj.
  - by destruct ip.
  - intros k Hk Hk0. by apply aslot_fupd.
  - intros k Hk. rewrite aslot_fupd by done. congruence.
  - intros y Hy. by rewrite used_fupd by (done || apply Hba).
  - intros y Hy Hown. apply fupd_ne. intros ->. by apply (Hown (slot bn)).
Qed.

(** Only block [bn] of the file changes when its data block does. *)
Lemma fblock_write m ip bn v bn' :
  slots_inj m ip -> 0 <= bn < MAXFILE -> 0 <= bn' < MAXFILE -> aslot m ip (slot bn) <> 0 ->
  fblock (fupd m (aslot m ip (slot bn)) v) ip bn' = if bn' =? bn then v else fblock m ip bn'.
Proof.
  intros Hi Hbn Hbn' Ha. pose proof (slot_not_ind _ _ _ Hi Hbn Ha) as Hni. unfold fblock. rewrite aslot_fupd by done.
  destruct (Z.eqb_spec bn' bn) as [->|Hne].
  - rewrite (proj2 (Z.eqb_neq _ 0)) by done. apply fupd_eq.
  - destruct (Z.eqb_spec (aslot m ip (slot bn')) 0) as [|Hn0]; [done|]. apply fupd_ne. intros E. apply Hne.
    apply slot_inj; [|lia|lia]. apply Hi; [apply slot_range; done|apply slot_range; done|done|done].
Qed.

(** Writing [bytes] at [off] within one block, seen byte by byte. *)
Lemma fbyte_write m ip off (bytes : list Z) x :
  slots_inj m ip -> len (m (aslot m ip (slot (off / BSIZE)))) = BSIZE -> 0 <= off -> off / BSIZE < MAXFILE -> len bytes <= BSIZE - off mod BSIZE -> 0 <= x < MAXFILE * BSIZE ->
  aslot m ip (slot (off / BSIZE)) <> 0 -> let a := aslot m ip (slot (off / BSIZE)) in
  fbyte (fupd m a (put_bytes bytes (m a) (off mod BSIZE))) ip x =
    if (off <=? x) && (x <? off + len bytes) then u8 (bytes !!! Z.to_nat (x - off)) else fbyte m ip x.
Proof.
  intros Hi Hal Ho Hmax Hlen Hx Ha a. assert (Hbn : 0 <= off / BSIZE < MAXFILE) by (split; [apply Z.div_pos; done|done]).
  pose proof (Z.mod_pos_bound off BSIZE ltac:(done)). pose proof (Z.div_mod off BSIZE ltac:(done)).
  pose proof (Z.mod_pos_bound x BSIZE ltac:(done)). pose proof (Z.div_mod x BSIZE ltac:(done)).
  assert (Hxb : 0 <= x / BSIZE < MAXFILE) by (split; [apply Z.div_pos; done || lia|apply Z.div_lt_upper_bound; done || lia]).
  fold a in Hal. unfold fbyte. unfold a at 1. erewrite fblock_write by done. fold a. destruct (Z.eqb_spec (x / BSIZE) (off / BSIZE)) as [Hd|Hd].
  - rewrite getn1_put_bytes by lia. rewrite Hd in *.
    replace (fblock m ip (off / BSIZE)) with (m a) by (unfold fblock; fold a; by rewrite (proj2 (Z.eqb_neq _ 0))).
    destruct (Z.leb_spec (off mod BSIZE) (x mod BSIZE)), (Z.ltb_spec (x mod BSIZE) (off mod BSIZE + len bytes)),
      (Z.leb_spec off x), (Z.ltb_spec x (off + len bytes)); cbn [andb]; try done; try lia.
    do 3 f_equal. lia.
  - destruct (Z.leb_spec off x), (Z.ltb_spec x (off + len bytes)); cbn [andb]; try done. exfalso. apply Hd.
    change BSIZE with 1024 in *. lia.
Qed.

Lemma log_add_mono x bs : (length bs <= length (log_add x bs))%nat.
Proof. unfold log_add. case_bool_decide; rewrite ?length_app; lia. Qed.

(** ** writei *)

(** The file after the first [tot] bytes of [src] were written at [off]. *)
Record written b (src : list Z) (off tot : Z) m0 ip0 m ip : Prop := Written {
  wr_ext : extends b m0 ip0 m ip;
  wr_cont : forall x, 0 <= x < MAXFILE * BSIZE ->
    fbyte m ip x = if (off <=? x) && (x <? off + tot) then u8 (src !!! Z.to_nat (x - off)) else fbyte m0 ip0 x;
  wr_mapped : forall x, off <= x < off + tot -> aslot m ip (slot (x / BSIZE)) <> 0;
}.

Lemma written_start b src off m ip : bitmap_ok b m -> inode_ok b m ip -> written b src off 0 m ip m ip.
Proof.
  intros Hok Hi. split; [by apply extends_refl| |lia]. intros x Hx.
  destruct (Z.leb_spec off x), (Z.ltb_spec x (off + 0)); try done. lia.
Qed.

Lemma written_grows b src off tot m0 ip0 m ip m' ip' :
  0 <= off -> off + tot <= MAXFILE * BSIZE ->
  written b src off tot m0 ip0 m ip -> grows b m ip m' ip' -> written b src off tot m0 ip0 m' ip'.
Proof.
  intros Hoff Hend [Hex Hc Hm] Hg. assert (Hr : forall x, 0 <= x < MAXFILE * BSIZE -> 0 <= x / BSIZE < MAXFILE).
  { intros x Hx. split; [apply Z.div_pos; done || lia|apply Z.div_lt_upper_bound; done || lia]. }
  split; [eapply extends_trans; [exact Hex|by apply grows_extends]| |].
  - intros x Hx. rewrite <- Hc by done. unfold fbyte. by rewrite (gr_cont _ _ _ _ _ Hg) by (by apply Hr).
  - intros x Hx. rewrite (gr_old _ _ _ _ _ Hg); [by apply Hm|apply slot_range, Hr; lia|by apply Hm].
Qed.

Lemma total_slice (src : list Z) tot k j :
  0 <= tot -> 0 <= j < k -> tot + k <= len src ->
  take (Z.to_nat k) (drop (Z.to_nat tot) src) !!! Z.to_nat j = src !!! Z.to_nat (tot + j).
Proof.
  unfold len. intros Ht Hj Hl. rewrite !list_lookup_total_alt, lookup_take_lt, lookup_drop by lia. do 2 f_equal. lia.
Qed.

Lemma written_chunk b src off tot k m0 ip0 m ip :
  let o := off + tot in let a := aslot m ip (slot (o / BSIZE)) in
  let chunk := take (Z.to_nat k) (drop (Z.to_nat tot) src) in
  0 <= off -> 0 <= tot -> 0 < k <= BSIZE - o mod BSIZE -> tot + k <= len src -> off + tot + k <= MAXFILE * BSIZE ->
  written b src off tot m0 ip0 m ip -> a <> 0 ->
  written b src off (tot + k) m0 ip0 (fupd m a (put_bytes chunk (m a) (o mod BSIZE))) ip.
Proof.
  intros o a chunk Hoff Htot Hk Hsrc Hend [Hex Hc Hm] Ha. pose proof (ex_inode _ _ _ _ _ Hex) as Hi.
  assert (Hclen : len chunk = k) by (unfold len, chunk in *; rewrite length_take, length_drop; lia).
  assert (Hbn : 0 <= o / BSIZE < MAXFILE) by (split; [apply Z.div_pos; done || lia|apply Z.div_lt_upper_bound; done || lia]).
  pose proof (Z.mod_pos_bound o BSIZE ltac:(done)) as Hmb. pose proof (Z.div_mod o BSIZE ltac:(done)) as Hdm.
  pose proof (data_not_ind _ _ _ _ Hi Hbn Ha) as Hni.
  split.
  - eapply extends_trans; [exact Hex|]. apply extends_write; [apply Hex|done|done|done|]. rewrite len_put_bytes.
    apply (io_blk _ _ _ Hi); [by apply slot_range|done].
  - intros x Hx. unfold a at 1. rewrite fbyte_write; [|exact (io_inj _ _ _ Hi)|apply (io_blk _ _ _ Hi); [by apply slot_range|done]|lia|lia|lia|done|done]. rewrite Hclen.
    destruct (Z.leb_spec o x), (Z.ltb_spec x (o + k)); cbn [andb].
    + rewrite (proj2 (Z.leb_le off x)), (proj2 (Z.ltb_lt x (off + (tot + k)))) by lia. cbn [andb]. unfold chunk.
      rewrite total_slice by lia. do 3 f_equal. lia.
    + rewrite Hc by done. rewrite (proj2 (Z.ltb_ge x (off + tot))), (proj2 (Z.ltb_ge x (off + (tot + k)))) by lia. by rewrite !andb_false_r.
    + rewrite Hc by done. rewrite (proj2 (Z.ltb_lt x (off + tot))), (proj2 (Z.ltb_lt x (off + (tot + k)))) by lia. done.
    + lia.
  - intros x Hx. fold a. rewrite aslot_fupd by done. destruct (Z.lt_ge_cases x o) as [Hxo|Hxo]; [apply Hm; lia|].
    assert (x / BSIZE = o / BSIZE) as ->; [|done]. destruct (div_block o (x - o)) as [E _]; [lia|lia|].
    by replace (o + (x - o)) with x in E by lia.
Qed.

Definition full b m : Prop := forall x, 0 <= x < fssize b -> used b m x = true.

(** The source delivers the bytes of [src]. *)
Definition delivers (inp : Z -> Z -> list Z * bool) (src : list Z) : Prop :=
  forall tot k, 0 <= tot -> 0 < k -> tot + k <= len src -> inp tot k = (take (Z.to_nat k) (drop (Z.to_nat tot) src), true).

Lemma wp_writei_loop fuel nb inp src off m0 ip0 st b t cw w d m bs i ip tot (Q : Z * Z -> fsys S -> Prop) :
  tx st w d m bs [] -> written b src off tot m0 ip0 m ip -> t !! i = Some ip -> room bs [] (4 * nb + 2) ->
  delivers inp src -> 0 <= off -> 0 <= tot <= len src -> off + len src <= MAXFILE * BSIZE -> (nb <= fuel)%nat ->
  (tot < len src -> off + len src <= BSIZE * ((off + tot) / BSIZE + Z.of_nat nb)) ->
  (forall st' m' ip' bs' tot', tx st' w d m' bs' [] -> written b src off tot' m0 ip0 m' ip' -> bs ⊆ bs' ->
     (length bs' <= length bs + 4 * nb)%nat -> 0 <= tot' <= len src -> tot' = len src \/ full b m' ->
     Q (tot', off + tot') (Fsys st' b (<[i := ip']> t) cw)) ->
  wp (writei_loop fuel inp i tot (off + tot) (len src)) (Fsys st b t cw) Q.
Proof.
  intros Ht Hw Hip Hroom Hinp Hoff Htot Hend Hnb Hf HQ. revert nb m ip bs st t tot Ht Hw Hip Hroom Htot Hnb Hf HQ.
  induction fuel as [|fuel IH]; intros nb m ip bs st t tot Ht Hw Hip [Hr1 Hr2] Htot Hnb Hf HQ; cbn [writei_loop];
    (destruct (Z.ltb_spec tot (len src)) as [Hlt|Hge]; [|apply wp_ret; rewrite <- (list_insert_id t i ip) by done;
     eapply HQ; [exact Ht|done|done|lia|lia|left; lia]]).
  { specialize (Hf Hlt). assert (nb = 0%nat) as -> by lia. pose proof (Z.mul_div_le (off + tot) BSIZE ltac:(done)). lia. }
  specialize (Hf Hlt). set (o := off + tot) in *. assert (Ho : 0 <= o) by lia.
  pose proof (chunk_bounds o tot (len src) Ho Hlt) as Hck. cbv zeta in Hck.
  pose proof (Z.div_mod o BSIZE ltac:(done)) as Hdm. pose proof (Z.mod_pos_bound o BSIZE ltac:(done)) as Hmb.
  destruct nb as [|nb]; [pose proof (Z.mul_div_le o BSIZE ltac:(done)); lia|].
  pose proof (chunk_fuel o tot (len src) nb Ho Hlt) as Hcf. cbv zeta in Hcf.
  assert (Hbn : 0 <= o / BSIZE < MAXFILE) by (split; [apply Z.div_pos; done|apply Z.div_lt_upper_bound; done || lia]).
  pose proof (wr_ext _ _ _ _ _ _ _ _ Hw) as Hex.
  apply wp_bind. eapply wp_bmap; [exact Ht|apply Hex|apply Hex|done|done|split; lia| |].
  - intros st1 m1 bs1 ip1 Ht1 Hg Ha1 Hsub1 Hlen1 _. rewrite (proj2 (Z.eqb_neq _ 0)) by done.
    assert (Hw1 : written b src off tot m0 ip0 m1 ip1) by (eapply written_grows; [done| |exact Hw|exact Hg]; lia).
    pose proof (gr_inode _ _ _ _ _ Hg) as Hi1.
    assert (Hblk : blk_ok b m1 (aslot m1 ip1 (slot (o / BSIZE)))) by (apply (io_blk _ _ _ Hi1); [by apply slot_range|done]).
    assert (Hti : <[i := ip1]> t !! i = Some ip1) by (apply list_lookup_insert_eq; by eapply lookup_lt_Some).
    pose proof (log_add_mono (aslot m1 ip1 (slot (o / BSIZE))) bs1) as Hlm. cbn [length] in Hr1.
    apply wp_bind. eapply wp_geti; [exact Hti|]. rewrite (io_dev _ _ _ Hi1).
    apply wp_bind. eapply wp_fbread; [exact Ht1|apply Hblk|apply not_elem_of_nil|right; cbn [length]; lia|]. intros h st2 Ht2.
    set (k := Z.min (len src - tot) (BSIZE - o mod BSIZE)) in *. rewrite (Hinp tot k) by lia. cbv zeta.
    apply wp_bind. eapply wp_fdata; [exact Ht2|by left|]. eapply wp_update_block; [exact Ht2|lia|]. intros st3 Ht3.
    unfold o. rewrite <- Z.add_assoc. eapply (IH nb); [exact Ht3| |exact Hti|split; cbn [length]; lia|lia|lia| |].
    + apply written_chunk; try done; fold o; lia.
    + intros Hlt'. rewrite Z.add_assoc. fold o. specialize (Hcf ltac:(lia) Hlt'). lia.
    + intros st' m' ip' bs' tot' Ht' Hw' Hsub' Hlen' Htot' Hfin. rewrite list_insert_insert_eq. eapply HQ; try done; [|lia].
      intros y Hy. by apply Hsub', log_add_sub, Hsub1.
  - intros st1 m1 bs1 ip1 Ht1 Hg Hsub1 Hlen1 Hfull E0. cbn [Z.eqb]. apply wp_ret.
    eapply HQ; [exact Ht1|eapply written_grows; [done| |exact Hw|exact Hg]; lia|done|lia|lia|by right].
Qed.

(** ** A block that is not the file's *)

Lemma foreign_aslot m ip y v k : y <> ind ip -> aslot (fupd m y v) ip k = aslot m ip k.
Proof. apply aslot_fupd. Qed.

Lemma foreign_inode b m ip y v :
  inode_ok b m ip -> blk_ok b m y -> (forall k, 0 <= k < NSLOT -> aslot m ip k <> y) -> len v = BSIZE ->
  inode_ok b (fupd m y v) ip /\ (forall bn, 0 <= bn < MAXFILE -> fblock (fupd m y v) ip bn = fblock m ip bn) /\
  (forall x, blk_ok b m x -> blk_ok b (fupd m y v) x).
Proof.
  intros Hi Hy Hne Hv. assert (Hni : y <> ind ip) by (intros ->; by apply (Hne NDIRECT)).
  assert (Hbk : forall x, blk_ok b m x -> blk_ok b (fupd m y v) x).
  { intros x [Hr Hh Hu Hm Hl]. split; try done; [rewrite used_fupd by (apply Hy || lia); done|]. unfold fupd. by destruct (x =? y). }
  split_and!; [|..|done].
  - destruct Hi as [Hd Hl Ha Hb Hinj]. split; try done.
    + intros k Hk. rewrite foreign_aslot by done. intros H0. by apply Hbk, Hb.
    + intros k k' Hk Hk'. rewrite !foreign_aslot by done. by apply Hinj.
  - intros bn Hbn. unfold fblock. rewrite foreign_aslot by done. destruct (_ =? 0); [done|]. apply fupd_ne.
    apply Hne. by apply slot_range.
Qed.

(** After an extension the inode's own blocks are still not [y]. *)
Lemma extends_foreign b m ip m' ip' y :
  extends b m ip m' ip' -> blk_ok b m y -> (forall k, 0 <= k < NSLOT -> aslot m ip k <> y) ->
  forall k, 0 <= k < NSLOT -> aslot m' ip' k <> y.
Proof.
  intros Hex Hy Hne k Hk E. destruct (Z.eq_dec (aslot m ip k) 0) as [E0|E0].
  - pose proof (ex_new _ _ _ _ _ Hex k Hk) as Hn. rewrite E in Hn. rewrite (bk_used _ _ _ Hy) in Hn.
    destruct Hy. specialize (Hn ltac:(lia) E0). done.
  - rewrite (ex_old _ _ _ _ _ Hex) in E by done. by apply (Hne k Hk).
Qed.

(** ** iupdate *)

Lemma dinode_off_range n : 0 <= dinode_off n /\ dinode_off n + dinode_size <= BSIZE.
Proof.
  unfold dinode_off. change IPB with 16. change dinode_size with 64. change BSIZE with 1024.
  pose proof (Z.mod_pos_bound n 16). lia.
Qed.

Definition ib b ip : Z := IBLOCK (inum ip) b.
Definition put_inode b ip m : Z -> block := fupd m (ib b ip) (put_dinode ip (m (ib b ip)) (dinode_off (inum ip))).

Lemma wp_iupdate st b t cw w d m bs i ip (Q : unit -> fsys S -> Prop) :
  tx st w d m bs [] -> t !! i = Some ip -> idev ip = ROOTDEV -> home (ib b ip) -> room bs [] 1 ->
  (forall st', tx st' w d (put_inode b ip m) (log_add (ib b ip) bs) [] -> Q tt (Fsys st' b t cw)) ->
  wp (iupdate i) (Fsys st b t cw) Q.
Proof.
  intros Ht Hip Hdev Hh [Hr1 Hr2] HQ. unfold iupdate. apply wp_bind. eapply wp_geti; [exact Hip|]. apply wp_bind, wp_gets. cbn [sb].
  rewrite Hdev. cbn [length] in Hr1.
  apply wp_bind. eapply wp_fbread; [exact Ht|exact Hh|apply not_elem_of_nil|right; cbn [length]; lia|]. intros h st1 Ht1.
  apply wp_bind. eapply wp_fdata; [exact Ht1|by left|].
  apply wp_bind. eapply wp_fset_data; [exact Ht1|by left|]. intros st2 Ht2.
  apply wp_bind. eapply wp_flog_write; [exact Ht2|by left|lia|]. intros st3 Ht3.
  eapply wp_fbrelse; [exact Ht3|left; apply elem_of_log_add|]. intros st4 Ht4. by apply HQ.
Qed.

(** ** writei, as a whole *)

(** The in-memory inode, its table slot and its home on disk. *)
Record inode_at b m (t : list inode) (i : nat) ip : Prop := InodeAt {
  ia_slot : t !! i = Some ip;
  ia_ok : inode_ok b m ip;
  ia_wf : inode_wf ip;
  ia_holes : no_holes m ip;
  ia_blk : blk_ok b m (ib b ip);
  ia_foreign : forall k, 0 <= k < NSLOT -> aslot m ip k <> ib b ip;
}.

(** The result of writing [tot] bytes of [src] at [off]. *)
Record write_done b (src : list Z) (off tot : Z) m ip m' ip' : Prop := WriteDone {
  wd_size : isize ip' = Z.max (isize ip) (off + tot);
  wd_meta : ip' = set_isize (isize ip') (set_iaddrs (iaddrs ip') ip);
  wd_cont : forall x, 0 <= x < MAXFILE * BSIZE ->
    fbyte m' ip' x = if (off <=? x) && (x <? off + tot) then u8 (src !!! Z.to_nat (x - off)) else fbyte m ip x;
  wd_bitmap : bitmap_ok b m';
  wd_disk : get_dinode ip' (m' (ib b ip)) (dinode_off (inum ip)) = ip';
  wd_others : forall n x, x + Z.of_nat n <= dinode_off (inum ip) \/ dinode_off (inum ip) + dinode_size <= x ->
    getn n (m' (ib b ip)) x = getn n (m (ib b ip)) x;
  wd_frame : forall y, blk_ok b m y -> (forall k, 0 <= k < NSLOT -> aslot m ip k <> y) -> y <> ib b ip -> m' y = m y;
  wd_keep : forall y, blk_ok b m y -> (forall k, 0 <= k < NSLOT -> aslot m ip k <> y) ->
    blk_ok b m' y /\ forall k, 0 <= k < NSLOT -> aslot m' ip' k <> y;
}.

Lemma write_finish b src off tot m ip m1 ip1 t i :
  inode_at b m t i ip -> written b src off tot m ip m1 ip1 -> 0 <= off <= isize ip -> 0 <= tot <= len src ->
  off + len src <= MAXFILE * BSIZE ->
  let ip2 := if off + tot >? isize ip1 then set_isize (off + tot) ip1 else ip1 in
  write_done b src off tot m ip (put_inode b ip2 m1) ip2 /\ inode_at b (put_inode b ip2 m1) (<[i := ip2]> t) i ip2.
Proof.
  intros [Hip Hi Hwf [Hsz Hnh] Hblk Hfor] [Hex Hc Hm] Hoff Htot Hend ip2.
  pose proof (ex_meta _ _ _ _ _ Hex) as Hmeta. pose proof (ex_inode _ _ _ _ _ Hex) as Hi1.
  remember (iaddrs ip1) as a1 eqn:Ea1. subst ip1. clear Ea1. set (ip1 := set_iaddrs a1 ip) in *.
  assert (E2 : ip2 = set_isize (Z.max (isize ip) (off + tot)) ip1).
  { unfold ip2. change (isize ip1) with (isize ip). rewrite Z.gtb_ltb. destruct (Z.ltb_spec (isize ip) (off + tot)).
    - by rewrite Z.max_r by lia.
    - rewrite Z.max_l by lia. unfold ip1. by destruct ip. }
  clearbody ip2. subst ip2. set (sz := Z.max (isize ip) (off + tot)) in *.
  assert (Hszb : 0 <= sz <= MAXFILE * BSIZE) by lia.
  assert (Hwf2 : inode_wf (set_isize sz ip1)).
  { destruct Hwf as [W1 W2 W3 W4 W5 W6 W7]. split; cbn; try done; [|apply Hi1|apply Hi1].
    change (MAXFILE * BSIZE) with 274432 in *. lia. }
  pose proof (extends_foreign _ _ _ _ _ _ Hex Hblk Hfor) as Hfor1.
  pose proof (ex_blk _ _ _ _ _ Hex _ Hblk) as Hblk1. pose proof (dinode_off_range (inum ip)) as [Ho1 Ho2].
  pose proof (bk_len _ _ _ Hblk1) as Hl1.
  assert (Eib : m1 (ib b ip) = m (ib b ip)) by (by apply (ex_frame _ _ _ _ _ Hex)).
  unfold put_inode. change (ib b (set_isize sz ip1)) with (ib b ip). change (inum (set_isize sz ip1)) with (inum ip).
  set (blk := put_dinode _ _ _).
  assert (Hlb : len blk = BSIZE) by (unfold blk; by rewrite len_put_dinode).
  destruct (foreign_inode b m1 ip1 (ib b ip) blk Hi1 Hblk1 Hfor1 Hlb) as (Hi2 & Hfb2 & Hbk2).
  assert (Hni : ib b ip <> ind ip1) by (intros E; apply (Hfor1 NDIRECT); [done|by rewrite aslot_ind, E]).
  split.
  - split; try done.
    + intros x Hx. rewrite <- Hc by done. unfold fbyte. change (fblock ?a (set_isize sz ip1)) with (fblock a ip1).
      rewrite Hfb2; [done|]. split; [apply Z.div_pos; done || lia|apply Z.div_lt_upper_bound; done || lia].
    + apply bitmap_ok_fupd; [apply Hex|apply Hblk1].
    + rewrite fupd_eq. unfold blk. rewrite get_put_dinode by (done || lia). done.
    + intros n x Hx. rewrite fupd_eq. unfold blk. rewrite put_dinode_frame by (done || lia). by rewrite Eib.
    + intros y Hy Hown Hyi. rewrite fupd_ne by done. by apply (ex_frame _ _ _ _ _ Hex).
    + intros y Hy Hown. split; [by apply Hbk2, (ex_blk _ _ _ _ _ Hex)|]. intros k Hk.
      change (aslot ?a (set_isize sz ip1)) with (aslot a ip1). rewrite foreign_aslot by done. by apply (extends_foreign _ _ _ _ _ _ Hex Hy Hown).
  - split; try done.
    + apply list_lookup_insert_eq. by eapply lookup_lt_Some.
    + destruct Hi2 as [I1 I2 I3 I4 I5]. by split.
    + split; [done|]. intros bn Hbn Hlt. cbn [isize set_isize] in Hlt.
      change (aslot ?a (set_isize sz ip1)) with (aslot a ip1). rewrite foreign_aslot by done.
      assert (Hbr : 0 <= bn < MAXFILE) by (change BSIZE with 1024 in *; change MAXFILE with 268 in *; lia).
      destruct (slot_range bn Hbr) as [Hsr _]. destruct (Z.lt_ge_cases (BSIZE * bn) (isize ip)) as [Hl|Hl].
      * pose proof (Hnh bn Hbn Hl) as H0. by rewrite (ex_old _ _ _ _ _ Hex) by done.
      * specialize (Hm (BSIZE * bn) ltac:(lia)). rewrite Z.mul_comm, Z.div_mul in Hm by done. done.
    + by apply Hbk2.
    + intros k Hk. change (aslot ?a (set_isize sz ip1)) with (aslot a ip1). rewrite foreign_aslot by done. by apply Hfor1.
Qed.

(** The number of file blocks that a transfer of [n] bytes at [off] touches. *)
Definition blocks (off n : Z) : nat := Z.to_nat ((off + n + BSIZE - 1) / BSIZE - off / BSIZE).

Lemma blocks_bounds off n : 0 <= off -> 0 <= n ->
  off + n <= BSIZE * (off / BSIZE + Z.of_nat (blocks off n)) /\ (blocks off n <= Z.to_nat (n / BSIZE + 2))%nat.
Proof.
  intros Ho Hn. unfold blocks. set (q := (off + n + BSIZE - 1) / BSIZE).
  assert (Hq : off / BSIZE <= q) by (apply Z.div_le_mono; change BSIZE with 1024; lia).
  pose proof (Z.div_mod off BSIZE ltac:(done)). pose proof (Z.mod_pos_bound off BSIZE ltac:(done)).
  pose proof (Z.div_mod n BSIZE ltac:(done)). pose proof (Z.mod_pos_bound n BSIZE ltac:(done)).
  pose proof (Z.div_mod (off + n + BSIZE - 1) BSIZE ltac:(done)) as Hd. pose proof (Z.mod_pos_bound (off + n + BSIZE - 1) BSIZE ltac:(done)).
  fold q in Hd. rewrite Z2Nat.id by lia. change BSIZE with 1024 in *. lia.
Qed.

Lemma wp_writei inp src off st b t cw w d m bs i ip (Q : Z -> fsys S -> Prop) :
  tx st w d m bs [] -> bitmap_ok b m -> inode_at b m t i ip -> delivers inp src ->
  0 <= off <= isize ip -> off + len src <= MAXFILE * BSIZE -> room bs [] (4 * blocks off (len src) + 3) ->
  (forall st' m' ip' bs' tot, tx st' w d m' bs' [] -> write_done b src off tot m ip m' ip' ->
     inode_at b m' (<[i := ip']> t) i ip' -> bs ⊆ bs' -> 0 <= tot <= len src -> tot = len src \/ full b m' ->
     (length bs' <= length bs + 4 * blocks off (len src) + 1)%nat ->
     Q tot (Fsys st' b (<[i := ip']> t) cw)) ->
  wp (writei inp i off (len src)) (Fsys st b t cw) Q.
Proof.
  intros Ht Hok Hat Hinp Hoff Hend [Hr1 Hr2] HQ. pose proof Hat as [Hip Hi _ [Hsz _] Hblk Hfor].
  assert (Hlen : 0 <= len src) by (unfold len; lia). destruct (blocks_bounds off (len src)) as [Hb1 Hb2]; [lia..|].
  assert (Hu : u32 (off + len src) = off + len src) by (apply u32_small; change (MAXFILE * BSIZE) with 274432 in *; lia).
  unfold writei. apply wp_bind. eapply wp_geti; [exact Hip|]. rewrite Hu.
  replace ((off >? isize ip) || (off + len src <? off)) with false by (symmetry; apply orb_false_iff; rewrite Z.gtb_ltb, !Z.ltb_ge; lia).
  replace (off + len src >? MAXFILE * BSIZE) with false by (symmetry; rewrite Z.gtb_ltb, Z.ltb_ge; lia).
  apply wp_bind. rewrite <- (Z.add_0_r off) at 1.
  eapply (wp_writei_loop _ (blocks off (len src)) inp src off m ip); try done; [by apply written_start|split; lia|lia|by rewrite Z.add_0_r|].
  intros st1 m1 ip1 bs1 tot Ht1 Hw1 Hsub1 Hlen1 Htot1 Hfin1. cbv beta iota.
  assert (Hti : <[i := ip1]> t !! i = Some ip1) by (apply list_lookup_insert_eq; by eapply lookup_lt_Some).
  destruct (write_finish _ _ _ _ _ _ _ _ _ _ Hat Hw1 Hoff Htot1 Hend) as [Hwd Hat2]. cbv zeta in Hwd, Hat2.
  apply wp_bind. eapply wp_geti; [exact Hti|]. apply wp_bind.
  set (ip2 := if off + tot >? isize ip1 then _ else _) in *.
  apply (wp_mono _ _ (fun _ s' => s' = Fsys st1 b (<[i := ip2]> t) cw)).
  { unfold ip2. destruct (off + tot >? isize ip1); [|by apply wp_ret].
    eapply wp_seti; [exact Hti|]. by rewrite list_insert_insert_eq. }
  intros [] s' ->. pose proof Hat2 as [Hip2 Hi2 _ _ Hblk2 _]. cbn [length] in Hr1.
  apply wp_bind. eapply wp_iupdate; [exact Ht1|exact Hip2|apply Hi2|apply Hblk2|split; cbn [length]; lia|]. intros st2 Ht2.
  apply wp_ret. pose proof (length_log_add (ib b ip2) bs1). eapply HQ; [exact Ht2|done|done| |done| |lia].
  - intros y Hy. by apply log_add_sub, Hsub1.
  - destruct Hfin1 as [|Hfull]; [by left|right]. intros x Hx. unfold put_inode. rewrite used_fupd by (done || apply Hblk2). by apply Hfull.
Qed.
End Write.
