(* ===== verification/FsTheorems.v ===== *)
(** * What the file system guarantees

    Allocation, reading and writing of files, and the atomicity of a write
    with respect to crashes, for any implementation of transactions; the
    witnesses run over the log and the buffer cache. *)
From S2P Require Import Prelude Riscv Mem KString Bio BioSpec BioProofs Block Log LogProofs LogTheorems TxSpec LogTx Crash Fs FsBlock FsProofs FsInode FsWrite.

Section Theorems.
Context {S : Type} `{BlockStore S}.
Implicit Types (st : S) (b : superblock) (m d : Z -> block) (bs : list Z) (w : list (Z * block)) (ip : inode).

(** [balloc] returns the first block the free map says is free, now marked in
    use and zeroed, with every other bit and block unchanged; it returns 0 and
    changes nothing exactly when no block is free. *)
Theorem balloc_correct st b t cw w d m bs :
  tx st w d m bs [] -> bitmap_ok b m -> room bs [] 2 ->
  wp (balloc ROOTDEV) (Fsys st b t cw) (fun r s' => exists st' m' bs', s' = Fsys st' b t cw /\ tx st' w d m' bs' [] /\
    (r <> 0 /\ 0 < r < fssize b /\ used b m r = false /\ (forall y, 0 <= y < r -> used b m y = true) /\
       bitmap_ok b m' /\ (forall y, 0 <= y < fssize b -> used b m' y = (y =? r) || used b m y) /\
       m' r = blk_zero /\ (forall y, y <> r -> y <> BBLOCK r b -> m' y = m y)
     \/ r = 0 /\ m' = m /\ bs' = bs /\ forall y, 0 <= y < fssize b -> used b m y = true)).
Proof.
  intros Ht Hok [Hr1 Hr2]. eapply wp_balloc; [exact Ht|done|split; intros; apply not_elem_of_nil|done|done| |].
  - intros x st' Hx Hu Hfirst Ht'. pose proof (free_pos _ _ _ Hok Hx Hu). do 3 eexists. split; [done|]. split; [exact Ht'|]. left.
    split_and!; try done; [lia|lia|by apply alloc_bitmap_ok|intros y Hy; by apply used_alloc|apply alloc_new|].
    intros y Hy Hyb. by apply alloc_frame.
  - intros st' Hall Ht'. do 3 eexists. split; [done|]. split; [exact Ht'|]. by right.
Qed.

(** [bfree] of a block just allocated gives the free map back: the same blocks
    are free as before the allocation. *)
Theorem balloc_bfree_roundtrip st b t cw w d m bs :
  tx st w d m bs [] -> bitmap_ok b m -> room bs [] 3 ->
  (exists x, 0 <= x < fssize b /\ used b m x = false) ->
  wp (r <- balloc ROOTDEV;; bfree ROOTDEV r;; ret r) (Fsys st b t cw) (fun r s' => exists st' m' bs',
    s' = Fsys st' b t cw /\ tx st' w d m' bs' [] /\ 0 < r < fssize b /\ bitmap_ok b m' /\
    forall y, 0 <= y < fssize b -> used b m' y = used b m y).
Proof.
  intros Ht Hok [Hr1 Hr2] [x0 [Hx0 Hu0]]. cbn [length] in Hr1.
  apply wp_bind. eapply wp_balloc; [exact Ht|done|split; intros; apply not_elem_of_nil|cbn; lia|lia| |].
  2:{ intros st' Hall _. rewrite Hall in Hu0 by done. done. }
  intros x st1 Hx Hu _ Ht1. pose proof (free_pos _ _ _ Hok Hx Hu) as Hxp.
  pose proof (alloc_bitmap_ok _ _ _ Hok Hx Hu) as Hok1. pose proof (used_alloc _ _ _ x Hok Hx Hu Hx) as Hu1.
  rewrite Z.eqb_refl in Hu1. cbn [orb] in Hu1.
  pose proof (length_log_add x (log_add (BBLOCK x b) bs)). pose proof (length_log_add (BBLOCK x b) bs).
  apply wp_bind. eapply wp_bfree; [exact Ht1|done|apply not_elem_of_nil|done|cbn; lia|lia|done|]. intros st2 Ht2.
  apply wp_ret. do 3 eexists. split; [done|]. split; [exact Ht2|].
  assert (Hused : forall y, 0 <= y < fssize b -> used b (free_block b x (alloc_block b x m)) y = used b m y).
  { intros y Hy. rewrite used_free by done. rewrite used_alloc by done. destruct (Z.eqb_spec y x) as [->|]; [by rewrite Hu|done]. }
  split_and!; [lia|lia| |done]. apply free_bitmap_ok; try done; [lia|by apply (bo_free _ _ Hok)|intros y Hy; by apply (bo_meta _ _ Hok)].
Qed.

(** [readi] into a kernel buffer returns the bytes of the file from [off] on, as
    many as were asked for and exist; it changes nothing. *)
Theorem readi_correct st b t cw w d m bs i ip off n :
  tx st w d m bs [] -> bitmap_ok b m -> inode_at b m t i ip -> room bs [] 6 -> 0 <= off < 2 ^ 32 -> 0 <= n < 2 ^ 32 ->
  wp (readi to_kernel [] i off n) (Fsys st b t cw) (fun r s' => exists st', s' = Fsys st' b t cw /\ tx st' w d m bs [] /\
    r = (read_len ip off n, fbytes m ip off (Z.to_nat (read_len ip off n)))).
Proof.
  intros Ht Hok [Hip Hi _ Hnh _ _] Hroom Hoff Hn.
  eapply (wp_readi (fun tot acc => acc = fbytes m ip off (Z.to_nat tot))); try done.
  - intros tot acc k -> Hk Htot _. eexists. split; [done|]. rewrite Z2Nat.inj_add, fbytes_app by lia. by rewrite Z2Nat.id.
  - intros st' acc' Ht' ->. by exists st'.
Qed.

(** C10: [writei] from a kernel buffer.  At an offset within the file, and as long as
    the result is not too large, it returns the number [tot] of bytes it wrote,
    all of them unless the disk is full; the file then has the first [tot]
    bytes of the source at [off] and its old bytes elsewhere, and the new
    size; the inode on disk is the inode in memory; the free map is
    consistent; and no other inode of the same block and no block of another
    file changes. *)
Theorem writei_correct (src : list Z) off st b t cw w d m bs i ip :
  tx st w d m bs [] -> bitmap_ok b m -> inode_at b m t i ip ->
  0 <= off <= isize ip -> off + len src <= MAXFILE * BSIZE -> room bs [] (4 * blocks off (len src) + 3) ->
  wp (writei (from_kernel src) i off (len src)) (Fsys st b t cw) (fun tot s' => exists st' m' ip' bs',
    s' = Fsys st' b (<[i := ip']> t) cw /\ tx st' w d m' bs' [] /\ 0 <= tot <= len src /\ (tot = len src \/ full b m') /\
    write_done b src off tot m ip m' ip' /\ inode_at b m' (<[i := ip']> t) i ip').
Proof.
  intros Ht Hok Hat Hoff Hend Hroom. eapply wp_writei; try done.
  intros st' m' ip' bs' tot Ht' Hwd Hat' Hsub Htot Hfin _. by exists st', m', ip', bs'.
Qed.

Lemma fbytes_written b src off tot m ip m' ip' :
  write_done b src off tot m ip m' ip' -> 0 <= off -> off + len src <= MAXFILE * BSIZE -> 0 <= tot <= len src ->
  Forall (fun x => 0 <= x < 256) src -> fbytes m' ip' off (Z.to_nat tot) = take (Z.to_nat tot) src.
Proof.
  intros Hwd Hoff Hend Htot Hsrc. unfold len in *. apply list_eq. intros j.
  destruct (Nat.lt_ge_cases j (Z.to_nat tot)) as [Hj|Hj].
  - unfold fbytes. rewrite list_lookup_fmap, lookup_seq_lt, lookup_take_lt by done. cbn [fmap option_fmap option_map].
    rewrite Nat.add_0_l. rewrite (wd_cont _ _ _ _ _ _ _ _ Hwd) by lia.
    rewrite (proj2 (Z.leb_le _ _)), (proj2 (Z.ltb_lt _ _)) by lia. cbn [andb].
    replace (Z.to_nat (off + Z.of_nat j - off)) with j by lia. destruct (lookup_lt_is_Some_2 src j) as [x Hx]; [lia|].
    rewrite (list_lookup_total_correct _ _ _ Hx), Hx. f_equal. apply u8_small. by eapply (Forall_lookup_1 _ _ _ _ Hsrc).
  - rewrite !lookup_ge_None_2; [done|rewrite length_take; lia|by rewrite length_fbytes].
Qed.

(** Reading back what was written: [readi] after a complete [writei] at the same
    offset returns the bytes written. *)
Theorem writei_readi_roundtrip (src : list Z) off st b t cw w d m bs i ip :
  tx st w d m bs [] -> bitmap_ok b m -> inode_at b m t i ip ->
  0 <= off <= isize ip -> off + len src <= MAXFILE * BSIZE -> room bs [] (4 * blocks off (len src) + 7) ->
  Forall (fun x => 0 <= x < 256) src ->
  wp (tot <- writei (from_kernel src) i off (len src);; r <- readi to_kernel [] i off (len src);; ret (tot, r))
    (Fsys st b t cw) (fun r _ => r.1 = len src -> r.2 = (len src, src)).
Proof.
  intros Ht Hok Hat Hoff Hend [Hr1 Hr2] Hsrc. cbn [length] in Hr1. assert (Hlen : 0 <= len src) by (unfold len; lia).
  apply wp_bind. eapply wp_writei; try done; [split; cbn [length]; lia|].
  intros st1 m1 ip1 bs1 tot Ht1 Hwd Hat1 _ Htot _ Hlen1. pose proof Hat1 as [Hip1 Hi1 _ Hnh1 _ _].
  apply wp_bind. change (MAXFILE * BSIZE) with 274432 in *.
  eapply (wp_readi (fun tot acc => acc = fbytes m1 ip1 off (Z.to_nat tot))); try done;
    [apply Hwd|split; cbn [length]; lia|lia|lia| |].
  - intros k acc n -> Hk Hk0 _. eexists. split; [done|]. rewrite Z2Nat.inj_add, fbytes_app by lia. by rewrite Z2Nat.id.
  - intros st2 acc Ht2 ->. apply wp_ret. cbn [fst snd]. intros ->. unfold read_len.
    rewrite (wd_size _ _ _ _ _ _ _ _ Hwd), u32_small by lia.
    replace ((off >? Z.max (isize ip) (off + len src)) || (off + len src <? off)) with false
      by (symmetry; apply orb_false_iff; rewrite Z.gtb_ltb, !Z.ltb_ge; lia).
    replace (Z.min (len src) (Z.max (isize ip) (off + len src) - off)) with (len src) by lia.
    rewrite (fbytes_written _ _ _ _ _ _ _ _ Hwd) by (done || (change (MAXFILE * BSIZE) with 274432; lia)).
    rewrite take_ge by (unfold len; lia). done.
Qed.
End Theorems.

(** ** Witnesses *)

(** A small file system on the disk of [sb0]: blocks below 60 are in use, inode
    5 is a file of ten bytes in block 50. *)
Definition file5 : inode := Inode ROOTDEV 5 1 true true T_FILE 0 0 1 10 (50 :: replicate 12 0).
Definition fsdisk (x : Z) : block :=
  if x =? 45 then replicate 7 255 ++ [15] ++ replicate 1016 0
  else if x =? 32 then put_dinode file5 blk_zero (dinode_off 5)
  else blk_zero.

#[local] Instance store0 : BlockStore (lst bst) := log_store 2 LOGSIZE fsdisk.

Lemma hdr_n_zero : hdr_n blk_zero = 0.
Proof. unfold hdr_n. by rewrite get32_zero. Qed.

Lemma fsdisk_idle : exists (st : lst bst) w, idle st w fsdisk.
Proof.
  assert (Hh : header_ok 2 LOGSIZE (fsdisk 2)).
  { unfold header_ok, hdr_blocks. change (fsdisk 2) with blk_zero. rewrite hdr_n_zero. split_and!; [done..|].
    intros b Hb. by apply not_elem_of_nil in Hb. }
  destruct (wp_inv _ _ _ (wp_boot fsdisk 1 sb0 ltac:(done) ltac:(done) ltac:(done) Hh)) as (u & s & _ & w & Hi & _).
  exists s, w. change (nlog sb0) with LOGSIZE in Hi. change (logstart sb0) with 2 in Hi.
  by rewrite recovered_idle in Hi by (change (fsdisk 2) with blk_zero; apply hdr_n_zero).
Qed.

Lemma fsdisk_tx : exists (st : lst bst) w, tx st w fsdisk fsdisk [] [].
Proof.
  destruct fsdisk_idle as (s & w & Hi). destruct (wp_inv _ _ _ (tx_begin_op s w fsdisk Hi)) as (u & s' & _ & Ht). eauto.
Qed.

Lemma bblock0 x : 0 <= x < 1000 -> BBLOCK x sb0 = 45.
Proof. intros Hx. unfold BBLOCK. change BPB with 8192. rewrite Z.div_small by lia. done. Qed.

(** The bits of the free map, by evaluation. *)
Lemma fsdisk_used x : 0 <= x < 1000 -> used sb0 fsdisk x = (x <? 60).
Proof.
  intros Hx. assert (Hall : forallb (fun x => Bool.eqb (used sb0 fsdisk x) (x <? 60)) (seqZ 0 1000) = true) by (vm_compute; reflexivity).
  rewrite forallb_forall in Hall. apply eqb_prop, Hall, list_elem_of_In, elem_of_seqZ. lia.
Qed.

Lemma home_ge x : 32 <= x < 2 ^ 31 -> home x.
Proof. intros Hx. split; [lia|]. unfold in_log. change LOGSIZE with 30. lia. Qed.

Lemma fsdisk_bitmap : bitmap_ok sb0 fsdisk.
Proof.
  split; change (fssize sb0) with 1000; try (cbn; lia).
  - intros _. by rewrite fsdisk_used.
  - intros x Hx. rewrite bblock0 by done. by apply home_ge.
  - intros x Hx. rewrite bblock0 by done. vm_compute. reflexivity.
  - intros x Hx Hu. rewrite fsdisk_used in Hu by done. bool_prop. apply home_ge. lia.
  - intros x y Hx Hy Hu. rewrite fsdisk_used in Hu by done. bool_prop. rewrite bblock0 by done. lia.
Qed.

Lemma file5_slots k : 0 <= k < NSLOT -> aslot fsdisk file5 k = if k =? 0 then 50 else 0.
Proof.
  intros Hk. unfold aslot. change (ind file5) with 0. destruct (Z.leb_spec k NDIRECT) as [Hd|Hd].
  - assert (Hall : forallb (fun k => iaddrs file5 !!! Z.to_nat k =? (if k =? 0 then 50 else 0)) (seqZ 0 13) = true) by reflexivity.
    rewrite forallb_forall in Hall. apply Z.eqb_eq, Hall, list_elem_of_In, elem_of_seqZ. change NDIRECT with 12 in Hd. lia.
  - rewrite (proj2 (Z.eqb_neq k 0)) by (change NDIRECT with 12 in Hd; lia). done.
Qed.

Lemma blk_ok0 x : 32 <= x < 60 -> x <> 45 -> blk_ok sb0 fsdisk x.
Proof.
  intros Hx Hne. split.
  - change (fssize sb0) with 1000. lia.
  - apply home_ge. lia.
  - rewrite fsdisk_used by lia. apply Z.ltb_lt. lia.
  - intros y Hy. by rewrite bblock0.
  - unfold fsdisk. rewrite (proj2 (Z.eqb_neq x 45)) by done. destruct (x =? 32); [rewrite len_put_dinode|]; apply len_zero.
Qed.

Lemma file5_at : inode_at sb0 fsdisk [file5] 0 file5.
Proof.
  assert (Hwf : inode_wf file5) by (split; cbn; try lia; try done; repeat constructor; lia).
  split; [done| |done| | |].
  - split; [done|done|apply Hwf| |].
    + intros k Hk. rewrite file5_slots by done. destruct (k =? 0); [intros _; by apply blk_ok0|done].
    + intros k k' Hk Hk'. rewrite !file5_slots by done. destruct (Z.eqb_spec k 0), (Z.eqb_spec k' 0); subst; done.
  - split; [done|]. intros bn H0 Hlt. assert (bn = 0) as -> by (change BSIZE with 1024 in Hlt; cbn in Hlt; lia). done.
  - by apply blk_ok0.
  - intros k Hk. rewrite file5_slots by done. by destruct (k =? 0).
Qed.

Lemma room0 n : (n < 30)%nat -> room (S := lst bst) [] [] n.
Proof. intros Hn. unfold room. cbn [length Nat.add]. change nbuf with 30%nat. change b_cap with 29%nat. lia. Qed.

Lemma balloc_correct_witness : exists (st : lst bst) w,
  wp (balloc ROOTDEV) (Fsys st sb0 [file5] 0) (fun r s' => exists st' m' bs', s' = Fsys st' sb0 [file5] 0 /\ tx st' w fsdisk m' bs' [] /\
    (r <> 0 /\ 0 < r < fssize sb0 /\ used sb0 fsdisk r = false /\ (forall y, 0 <= y < r -> used sb0 fsdisk y = true) /\
       bitmap_ok sb0 m' /\ (forall y, 0 <= y < fssize sb0 -> used sb0 m' y = (y =? r) || used sb0 fsdisk y) /\
       m' r = blk_zero /\ (forall y, y <> r -> y <> BBLOCK r sb0 -> m' y = fsdisk y)
     \/ r = 0 /\ m' = fsdisk /\ bs' = [] /\ forall y, 0 <= y < fssize sb0 -> used sb0 fsdisk y = true)).
Proof.
  destruct fsdisk_tx as (st & w & Ht). exists st, w.
  apply (balloc_correct st sb0 [file5] 0 w fsdisk fsdisk []); [exact Ht|exact fsdisk_bitmap|apply room0; lia].
Defined.

Lemma balloc_bfree_roundtrip_witness : exists (st : lst bst) w,
  wp (r <- balloc ROOTDEV;; bfree ROOTDEV r;; ret r) (Fsys st sb0 [file5] 0) (fun r s' => exists st' m' bs',
    s' = Fsys st' sb0 [file5] 0 /\ tx st' w fsdisk m' bs' [] /\ 0 < r < fssize sb0 /\ bitmap_ok sb0 m' /\
    forall y, 0 <= y < fssize sb0 -> used sb0 m' y = used sb0 fsdisk y).
Proof.
  destruct fsdisk_tx as (st & w & Ht). exists st, w.
  apply (balloc_bfree_roundtrip st sb0 [file5] 0 w fsdisk fsdisk []); [exact Ht|exact fsdisk_bitmap|apply room0; lia|].
  exists 60. rewrite fsdisk_used by lia. done.
Defined.

Lemma readi_correct_witness : exists (st : lst bst) w,
  wp (readi to_kernel [] 0 3 100) (Fsys st sb0 [file5] 0) (fun r s' => exists st', s' = Fsys st' sb0 [file5] 0 /\
    tx st' w fsdisk fsdisk [] [] /\ r = (read_len file5 3 100, fbytes fsdisk file5 3 (Z.to_nat (read_len file5 3 100)))).
Proof.
  destruct fsdisk_tx as (st & w & Ht). exists st, w.
  apply (readi_correct st sb0 [file5] 0 w fsdisk fsdisk [] 0 file5 3 100); [exact Ht|exact fsdisk_bitmap|exact file5_at|apply room0; lia|lia|lia].
Defined.

Lemma writei_correct_witness : exists (st : lst bst) w,
  wp (writei (from_kernel [7; 8]) 0 10 (len [7; 8])) (Fsys st sb0 [file5] 0) (fun tot s' => exists st' m' ip' bs',
    s' = Fsys st' sb0 (<[0%nat := ip']> [file5]) 0 /\ tx st' w fsdisk m' bs' [] /\ 0 <= tot <= len [7; 8] /\ (tot = len [7; 8] \/ full sb0 m') /\
    write_done sb0 [7; 8] 10 tot fsdisk file5 m' ip' /\ inode_at sb0 m' (<[0%nat := ip']> [file5]) 0 ip').
Proof.
  destruct fsdisk_tx as (st & w & Ht). exists st, w.
  apply (writei_correct [7; 8] 10 st sb0 [file5] 0 w fsdisk fsdisk [] 0 file5);
    [exact Ht|exact fsdisk_bitmap|exact file5_at|split; vm_compute; discriminate|vm_compute; discriminate|apply room0; change (blocks 10 (len [7; 8])) with 1%nat; lia].
Defined.

Lemma writei_readi_roundtrip_witness : exists (st : lst bst),
  wp (tot <- writei (from_kernel [7; 8]) 0 10 (len [7; 8]);; r <- readi to_kernel [] 0 10 (len [7; 8]);; ret (tot, r))
    (Fsys st sb0 [file5] 0) (fun r _ => r.1 = len [7; 8] -> r.2 = (len [7; 8], [7; 8])).
Proof.
  destruct fsdisk_tx as (st & w & Ht). exists st.
  apply (writei_readi_roundtrip [7; 8] 10 st sb0 [file5] 0 w fsdisk fsdisk [] 0 file5);
    [exact Ht|exact fsdisk_bitmap|exact file5_at|split; vm_compute; discriminate|vm_compute; discriminate|apply room0; change (blocks 10 (len [7; 8])) with 1%nat; lia|repeat constructor; lia].
Defined.
