(* ===== verification/FsNames.v ===== *)
(** * Names and the inode table

    Path parsing against a reference definition, name comparison, directory
    search, and the references of the inode table. *)
From S2P Require Import Prelude Riscv Mem KString Bio BioSpec BioProofs Block Log LogProofs LogTheorems TxSpec LogTx Crash Fs FsBlock FsProofs FsInode FsWrite FsTheorems.

(** ** Paths: the reference definition *)

(** Cut a path at every slash; the elements are the pieces that are not empty. *)
Fixpoint split_slash (p : list Z) : list (list Z) :=
  match p with
  | [] => [[]]
  | c :: p' =>
      if c =? SLASH then [] :: split_slash p'
      else match split_slash p' with
           | e :: es => (c :: e) :: es
           | [] => [[c]]
           end
  end.
Definition elems (p : list Z) : list (list Z) := filter (fun e => e <> []) (split_slash p).

(** The string in a name buffer: what comes before the first NUL. *)
Fixpoint cname (n : list Z) : list Z :=
  match n with
  | [] => []
  | c :: n' => if c =? 0 then [] else c :: cname n'
  end.

(** Call [skipelem] until it returns 0, as [namex] does, collecting the names. *)
Fixpoint skip_all (fuel : nat) (p name : list Z) : list (list Z) :=
  match fuel with
  | O => []
  | S k => match skipelem p name with
           | None => []
           | Some (rest, name') => cname name' :: skip_all k rest name'
           end
  end.

Lemma split_slash_ne p : split_slash p <> [].
Proof. destruct p as [|c p]; cbn; [done|]. destruct (c =? SLASH); [done|]. by destruct (split_slash p). Qed.

Lemma elems_slash p : elems (SLASH :: p) = elems p.
Proof. unfold elems. cbn [split_slash]. rewrite Z.eqb_refl. by rewrite filter_cons_False by naive_solver. Qed.

Lemma elems_skip_slashes p : elems (skip_slashes p) = elems p.
Proof.
  induction p as [|c p IH]; [done|]. cbn [skip_slashes]. destruct (Z.eqb_spec c SLASH) as [->|]; [|done].
  by rewrite IH, elems_slash.
Qed.

Lemma skip_slashes_head p c r : skip_slashes p = c :: r -> c <> SLASH.
Proof.
  induction p as [|x p IH]; [done|]. cbn [skip_slashes]. destruct (Z.eqb_spec x SLASH) as [|Hx]; [done|]. by intros [= <- <-].
Qed.

Lemma skip_slashes_len p : (length (skip_slashes p) <= length p)%nat.
Proof. induction p as [|c p IH]; cbn [skip_slashes]; [done|]. destruct (c =? SLASH); cbn [length] in *; lia. Qed.

(** [take_elem] cuts off the first piece. *)
Lemma take_elem_split p e r : take_elem p = (e, r) ->
  p = e ++ r /\ (forall x, x ∈ e -> x <> SLASH) /\ split_slash p = e :: match r with [] => [] | _ :: r' => split_slash r' end /\
  (r = [] \/ exists r', r = SLASH :: r').
Proof.
  revert e r. induction p as [|c p IH]; intros e r E; cbn [take_elem] in E.
  - injection E as <- <-. split_and!; [done|by intros x ?%not_elem_of_nil|done|by left].
  - destruct (Z.eqb_spec c SLASH) as [->|Hc].
    + injection E as <- <-. split_and!; [done|by intros x ?%not_elem_of_nil| |right; eauto]. cbn [split_slash]. by rewrite Z.eqb_refl.
    + destruct (take_elem p) as [e0 r0] eqn:E0. injection E as <- <-.
      destruct (IH _ _ eq_refl) as (-> & Hne & Hs & Hr). split_and!; [done| | |done].
      * intros x [->|Hx]%elem_of_cons; auto.
      * cbn [split_slash]. rewrite (proj2 (Z.eqb_neq c SLASH)) by done. by rewrite Hs.
Qed.

Lemma elems_take_elem p e r : take_elem p = (e, r) -> e <> [] -> elems p = e :: elems r.
Proof.
  intros E He. destruct (take_elem_split _ _ _ E) as (_ & _ & Hs & Hr). unfold elems. rewrite Hs, filter_cons_True by done.
  f_equal. destruct Hr as [->|[r' ->]]; [done|]. fold (elems r'). fold (elems (SLASH :: r')). by rewrite elems_slash.
Qed.

Lemma take_elem_nonempty c p e r : take_elem (c :: p) = (e, r) -> c <> SLASH -> e <> [].
Proof. intros E Hc. cbn [take_elem] in E. rewrite (proj2 (Z.eqb_neq c SLASH)) in E by done. destruct (take_elem p). by injection E as <- _. Qed.

Lemma cname_app_nul e n : (forall x, x ∈ e -> x <> 0) -> cname (e ++ 0 :: n) = e.
Proof.
  induction e as [|c e IH]; intros He; cbn; [done|]. rewrite (proj2 (Z.eqb_neq c 0)) by (apply He; by left).
  rewrite IH; [done|]. intros x Hx. apply He. by right.
Qed.

Lemma cname_no_nul e : (forall x, x ∈ e -> x <> 0) -> cname e = e.
Proof.
  induction e as [|c e IH]; intros He; cbn; [done|]. rewrite (proj2 (Z.eqb_neq c 0)) by (apply He; by left).
  rewrite IH; [done|]. intros x Hx. apply He. by right.
Qed.

(** One call. *)
Lemma skipelem_spec p name : (forall x, x ∈ p -> x <> 0) ->
  match skipelem p name with
  | None => elems p = []
  | Some (rest, name') => exists e, elems p = e :: elems rest /\ cname name' = take (Z.to_nat DIRSIZ) e /\
      (length rest < length p)%nat /\ (forall x, x ∈ rest -> x ∈ p)
  end.
Proof.
  intros Hp. unfold skipelem. rewrite <- (elems_skip_slashes p). pose proof (skip_slashes_head p) as Hh.
  pose proof (skip_slashes_len p) as Hl.
  assert (Hsub : forall q x, x ∈ skip_slashes q -> x ∈ q).
  { intros q x. induction q as [|c q IH]; cbn [skip_slashes]; [done|]. destruct (c =? SLASH); [|done]. intros Hx. right. auto. }
  pose proof (Hsub p) as Hsp. destruct (skip_slashes p) as [|c q] eqn:Eq; [done|].
  specialize (Hh c q eq_refl). destruct (take_elem (c :: q)) as [e r] eqn:E.
  pose proof (take_elem_nonempty _ _ _ _ E Hh) as He. destruct (take_elem_split _ _ _ E) as (Hcat & _ & _ & _).
  assert (Hin : forall x, x ∈ e -> x <> 0) by (intros x Hx; apply Hp, Hsp; rewrite Hcat; apply elem_of_app; by left).
  exists e. split_and!.
  - by rewrite elems_skip_slashes, (elems_take_elem _ _ _ E).
  - rewrite Z.geb_leb. destruct (Z.leb_spec DIRSIZ (Z.of_nat (length e))).
    + apply cname_no_nul. intros x Hx. apply Hin. by eapply elem_of_take_sub.
    + cbn [app]. rewrite cname_app_nul by done. symmetry. apply take_ge. lia.
  - pose proof (skip_slashes_len r). apply (f_equal length) in Hcat. rewrite length_app in Hcat. destruct e; [done|]. cbn [length] in *. lia.
  - intros x Hx. apply Hsp. rewrite Hcat. apply elem_of_app. right. by apply Hsub.
Qed.

(** Path parsing.  Calling [skipelem] repeatedly on a path visits exactly its
    elements, the pieces between slashes that are not empty, each cut to
    [DIRSIZ] bytes, and ends after at most as many calls as the path has
    bytes. *)
Theorem skipelem_elements p name :
  (forall x, x ∈ p -> x <> 0) -> skip_all (S (length p)) p name = take (Z.to_nat DIRSIZ) <$> elems p.
Proof.
  assert (Hgen : forall fuel p name, (length p < fuel)%nat -> (forall x, x ∈ p -> x <> 0) ->
    skip_all fuel p name = take (Z.to_nat DIRSIZ) <$> elems p); [|intros Hp; apply Hgen; [lia|done]].
  clear. induction fuel as [|fuel IH]; intros p name Hf Hp; [lia|]. cbn [skip_all]. pose proof (skipelem_spec p name Hp) as Hs.
  destruct (skipelem p name) as [[rest name']|]; [|by rewrite Hs]. destruct Hs as (e & -> & Hn & Hl & Hsub).
  rewrite fmap_cons, Hn. f_equal. apply IH; [lia|]. intros x Hx. by apply Hp, Hsub.
Qed.

Lemma skipelem_elements_witness :
  skip_all 10 [47; 47; 97; 47; 98; 98; 47; 47; 99] (replicate 14 0) = take (Z.to_nat DIRSIZ) <$> elems [47; 47; 97; 47; 98; 98; 47; 47; 99].
Proof. apply (skipelem_elements [47; 47; 97; 47; 98; 98; 47; 47; 99] (replicate 14 0)). intros x Hx. set_solver. Defined.

(** ** Comparing names *)

Definition bytes (l : list Z) : Prop := Forall (fun x => 0 <= x < 256) l.

Lemma ld8_blk s (o : nat) : bytes s -> ld8 (blk_mem s) (Z.of_nat o) = default 0 (s !! o).
Proof.
  intros Hs. unfold ld8, blk_mem. rewrite (proj2 (Z.ltb_ge _ _)), Nat2Z.id by lia. destruct (s !! o) as [x|] eqn:E; [|done].
  cbn. apply u8_small. by eapply (Forall_lookup_1 _ _ _ _ Hs).
Qed.

Lemma cname_step (n o : nat) s : cname (take (S n) (drop o s)) =
  let c := default 0 (s !! o) in if c =? 0 then [] else c :: cname (take n (drop (S o) s)).
Proof.
  destruct (s !! o) as [x|] eqn:E.
  - rewrite (drop_S _ _ _ E). done.
  - rewrite drop_ge by (by apply lookup_ge_None_1). done.
Qed.

Lemma strncmp_cname n (o : nat) s t : bytes s -> bytes t ->
  strncmp n (blk_mem s) (Z.of_nat o) (blk_mem t) (Z.of_nat o) = 0 <-> cname (take n (drop o s)) = cname (take n (drop o t)).
Proof.
  intros Hs Ht. revert o. induction n as [|n IH]; intros o; [done|]. cbn [strncmp]. rewrite !cname_step, !ld8_blk by done. cbv zeta.
  set (a := default 0 (s !! o)). set (b := default 0 (t !! o)). unfold ctrue.
  destruct (Z.eqb_spec a 0) as [Ha|Ha]; cbn [negb andb].
  - rewrite Ha. destruct (Z.eqb_spec b 0); [split; [done|lia]|split; [lia|done]].
  - destruct (Z.eqb_spec a b) as [<-|Hab].
    + rewrite (proj2 (Z.eqb_neq a 0)) by done. replace (Z.of_nat o + 1) with (Z.of_nat (S o)) by lia. rewrite IH.
      split; [by intros ->|by intros [= ->]].
    + destruct (b =? 0); split; try lia; try done. intros [= Hx _]. done.
Qed.

(** [namecmp] is equality of the names. *)
Lemma namecmp_eq s t : bytes s -> bytes t ->
  namecmp s t = 0 <-> cname (take (Z.to_nat DIRSIZ) s) = cname (take (Z.to_nat DIRSIZ) t).
Proof. intros Hs Ht. unfold namecmp. pose proof (strncmp_cname (Z.to_nat DIRSIZ) 0 s t Hs Ht) as Hc. by rewrite !drop_0 in Hc. Qed.

(** ** The inode table *)

Section Table.
Context {S : Type} `{BlockStore S}.
Implicit Types (st : S) (b : superblock) (m d : Z -> block) (ip : inode) (t : list inode).

(** Entry [ip] stands for inode [n] of device [dev]. *)
Definition live (dev n : Z) ip : Prop := 0 < iref ip /\ idev ip = dev /\ inum ip = n.
#[global] Instance live_dec dev n ip : Decision (live dev n ip) := _.

(** Reference counts are not negative, and no inode has two entries. *)
Record itable_ok t : Prop := ItableOk {
  it_ref : forall i ip, t !! i = Some ip -> 0 <= iref ip;
  it_inj : forall i j ip jp, t !! i = Some ip -> t !! j = Some jp -> live (idev jp) (inum jp) ip -> 0 < iref jp -> i = j;
}.

Lemma iget_scan_spec t i0 empty dev n :
  match iget_scan t i0 empty dev n with
  | (Some i, _) => exists j ip, i = (i0 + j)%nat /\ t !! j = Some ip /\ live dev n ip
  | (None, e) => (forall ip, ip ∈ t -> ~ live dev n ip) /\
      (e = empty \/ exists j ip, empty = None /\ e = Some (i0 + j)%nat /\ t !! j = Some ip /\ iref ip = 0) /\
      (e = None -> empty = None /\ forall ip, ip ∈ t -> iref ip <> 0)
  end.
Proof.
  revert i0 empty. induction t as [|ip t IH]; intros i0 empty; cbn [iget_scan].
  - split_and!; [by intros ? ?%not_elem_of_nil|by left|]. intros ->. split; [done|by intros ? ?%not_elem_of_nil].
  - destruct (_ && _ && _) eqn:E.
    + bool_prop. exists 0%nat, ip. rewrite Nat.add_0_r. split_and!; try done.
    + assert (Hnl : ~ live dev n ip).
      { intros (H1 & H2 & H3). rewrite H2, H3, !Z.eqb_refl, !andb_true_r in E. bool_prop. lia. }
      set (e1 := match empty with None => _ | Some _ => _ end). specialize (IH (Datatypes.S i0) e1).
      destruct (iget_scan t (Datatypes.S i0) e1 dev n) as [[i|] e].
      * destruct IH as (j & jp & -> & Hj & Hl). exists (Datatypes.S j), jp. split_and!; [lia|done|done].
      * destruct IH as (Hno & Hemp & Hnone). split_and!.
        -- intros jp [->|Hj]%elem_of_cons; auto.
        -- destruct Hemp as [->|(j & jp & E1 & -> & Hj & Hr)].
           ++ unfold e1. destruct empty as [x|]; [by left|]. destruct (Z.eqb_spec (iref ip) 0); [|by left].
              right. exists 0%nat, ip. rewrite Nat.add_0_r. done.
           ++ right. exists (Datatypes.S j), jp. unfold e1 in E1. split_and!; [by destruct empty|f_equal; lia|done|done].
        -- intros ->. destruct (Hnone eq_refl) as [E1 Hrefs]. unfold e1 in E1. destruct empty; [done|].
           split; [done|]. intros jp [->|Hj]%elem_of_cons; [|by apply Hrefs]. destruct (Z.eqb_spec (iref ip) 0); [done|lia].
Qed.

(** [iget].  On a well-formed table it returns the entry of the inode with one
    more reference if there is one, and otherwise a free entry, made to stand
    for the inode with one reference and not yet valid; the table stays well
    formed, no other entry changes, and it panics only when the inode has no
    entry and no entry is free. *)
Theorem iget_correct st b t cw dev n :
  itable_ok t ->
  (exists i ip ip', t !! i = Some ip /\ iget dev n (Fsys st b t cw) = Ret (i, Fsys st b (<[i := ip']> t) cw) /\
     live dev n ip' /\ itable_ok (<[i := ip']> t) /\
     (live dev n ip /\ ip' = set_iref (iref ip + 1) ip \/
      (forall jp, jp ∈ t -> ~ live dev n jp) /\ iref ip = 0 /\ iref ip' = 1 /\ ivalid ip' = false /\ ilocked ip' = ilocked ip)) \/
  (forall jp, jp ∈ t -> ~ live dev n jp /\ iref jp <> 0) /\ iget dev n (Fsys st b t cw) = Panic "iget: no inodes".
Proof.
  intros Hok. pose proof (iget_scan_spec t 0 None dev n) as Hs. unfold iget, bind, gets. cbn [itable].
  assert (Hins : forall i ip ip', t !! i = Some ip -> live dev n ip' ->
    (live dev n ip \/ forall jp, jp ∈ t -> ~ live dev n jp) -> itable_ok (<[i := ip']> t)).
  { intros i ip ip' Hi Hl Hcase. assert (Hu : forall j jp, t !! j = Some jp -> live dev n jp -> j = i).
    { intros j jp Hj Hjl. destruct Hcase as [Hli|Hno]; [|by destruct (Hno jp (list_elem_of_lookup_2 _ _ _ Hj))].
      destruct Hjl as (? & ? & ?), Hli as (? & ? & ?). apply (it_inj _ Hok j i jp ip); try done. by split_and!; congruence. }
    pose proof (lookup_lt_Some _ _ _ Hi) as Hlt. split.
    - intros j jp [(-> & <- & _)|[_ Hj]]%list_lookup_insert_Some; [destruct Hl; lia|by apply (it_ref _ Hok j)].
    - intros j k jp kp Hj Hk Hjl Hkr. destruct Hl as (L1 & L2 & L3). apply list_lookup_insert_Some in Hj, Hk.
      destruct Hj as [(-> & <- & _)|[Hij Hj]], Hk as [(<- & <- & _)|[Hik Hk]]; try done.
      + destruct Hjl as (_ & ? & ?). symmetry. apply (Hu k kp Hk). split_and!; congruence.
      + destruct Hjl as (? & ? & ?). apply (Hu j jp Hj). split_and!; congruence.
      + by apply (it_inj _ Hok j k jp kp). }
  destruct (iget_scan t 0 None dev n) as [[i|] e].
  - destruct Hs as (j & ip & -> & Hj & Hl). cbn [Nat.add] in *. left. exists j, ip, (set_iref (iref ip + 1) ip).
    unfold seti, ret. cbn [itable store sb cwd]. rewrite Hj.
    assert (Hl' : live dev n (set_iref (iref ip + 1) ip)) by (destruct Hl as (? & ? & ?); split_and!; cbn; try done; lia).
    split_and!; try done; [by eapply Hins; [..|left]|by left].
  - destruct Hs as (Hno & Hemp & Hnone). destruct e as [i|].
    + destruct Hemp as [|(j & ip & _ & [= ->] & Hj & Hr)]; [done|]. left. eexists j, ip, _.
      unfold seti, ret. cbn [itable store sb cwd]. rewrite Hj. split_and!; [done|done| | |].
      * split_and!; cbn; done || lia.
      * eapply Hins; [done|split_and!; cbn; done || lia|by right].
      * right. split_and!; done.
    + right. destruct (Hnone eq_refl) as [_ Hr]. split; [|done]. intros jp Hj. split; [by apply Hno|by apply Hr].
Qed.
End Table.

Lemma iget_correct_witness :
  let st := Lst (bst_init blank 1) log0 in
  (exists i ip ip', [file5] !! i = Some ip /\ iget ROOTDEV 5 (Fsys st sb0 [file5] 0) = Ret (i, Fsys st sb0 (<[i := ip']> [file5]) 0) /\
     live ROOTDEV 5 ip' /\ itable_ok (<[i := ip']> [file5]) /\
     (live ROOTDEV 5 ip /\ ip' = set_iref (iref ip + 1) ip \/
      (forall jp, jp ∈ [file5] -> ~ live ROOTDEV 5 jp) /\ iref ip = 0 /\ iref ip' = 1 /\ ivalid ip' = false /\ ilocked ip' = ilocked ip)) \/
  (forall jp, jp ∈ [file5] -> ~ live ROOTDEV 5 jp /\ iref jp <> 0) /\
  iget ROOTDEV 5 (Fsys st sb0 [file5] 0) = Panic "iget: no inodes".
Proof.
  apply iget_correct. split.
  - intros [|i] ip Hi; [injection Hi as <-; done|done].
  - intros [|i] [|j] ip jp Hi Hj; done.
Defined.
