(* ===== verification/FsDir.v ===== *)
(** * Directories and path resolution

    A directory is the list of its entries; [dirlookup] finds the first one
    with the name.  A path is resolved by looking its elements up one after
    the other, starting at the root or at the current directory; [namei] does
    that, takes exactly one reference to the inode it returns and leaves
    every other reference count as it was. *)
From S2P Require Import Prelude Riscv Mem KString Bio Block TxSpec Fs FsBlock FsProofs FsInode FsWrite FsNames.

Section Dir.
Context {S : Type} `{BlockStore S}.
Implicit Types (st : S) (b : superblock) (m d : Z -> block) (bs : list Z) (w : list (Z * block)) (ip : inode) (t : list inode).

(** ** The inode table *)

(** A sum over the table, and how a change of one entry changes it. *)
Definition total (f : inode -> Z) t : Z := foldr (fun ip s => f ip + s) 0 t.

Lemma total_insert f t i ip ip' : t !! i = Some ip -> total f (<[i := ip']> t) = total f t - f ip + f ip'.
Proof.
  revert i. induction t as [|x t IH]; intros [|i] Hi; try done; [injection Hi as ->; cbn; lia|].
  change (f x + total f (<[i := ip']> t) = f x + total f t - f ip + f ip'). rewrite IH by done. lia.
Qed.

(** The references to inode [n], and the free entries. *)
Definition refs t (n : Z) : Z := total (fun ip => if inum ip =? n then iref ip else 0) t.
Definition nfree t : Z := total (fun ip => if iref ip =? 0 then 1 else 0) t.

Lemma nfree_pos t : 0 < nfree t -> exists ip, ip ∈ t /\ iref ip = 0.
Proof.
  unfold nfree. induction t as [|x t IH]; cbn; [lia|]. destruct (Z.eqb_spec (iref x) 0) as [E|E]; [exists x; split; [by left|done]|].
  intros Hp. destruct IH as (ip & Hin & H0); [unfold total; lia|]. exists ip. split; [by right|done].
Qed.

(** ** Inodes on disk *)

(** Inode [n] as the disk has it. *)
Definition dnode b m (n : Z) : inode := get_dinode (Inode ROOTDEV n 1 true true 0 0 0 0 0 []) (m (IBLOCK n b)) (dinode_off n).

(** The entries of a directory. *)
Definition dir_list m ip : list (list Z) := (fun k => fbytes m ip (dirent_size * Z.of_nat k) (Z.to_nat dirent_size)) <$> seq 0 (Z.to_nat (isize ip / dirent_size)).

(** The inodes [ok] form a file system: their blocks are well-formed, they are
    in use, and the entries of their directories name inodes among them. *)
Record tree_ok b m (ok : Z -> Prop) : Prop := TreeOk {
  tr_ok : forall n, ok n -> inode_ok b m (dnode b m n);
  tr_holes : forall n, ok n -> no_holes m (dnode b m n);
  tr_home : forall n, ok n -> home (IBLOCK n b);
  tr_used : forall n, ok n -> itype (dnode b m n) <> 0 /\ inlink (dnode b m n) <> 0;
  tr_dir : forall n, ok n -> itype (dnode b m n) = T_DIR -> isize (dnode b m n) mod dirent_size = 0 /\
    forall de, de ∈ dir_list m (dnode b m n) -> de_inum de <> 0 -> ok (de_inum de);
}.

(** ** Entries of the table *)

Record entry_ok (ok : Z -> Prop) b m (lk : bool) ip : Prop := EntryOk {
  en_ref : 0 <= iref ip;
  en_lock : ilocked ip = lk;
  en_live : 0 < iref ip -> idev ip = ROOTDEV /\ ok (inum ip) /\ (ivalid ip = true -> with_disk ip (dnode b m (inum ip)) = ip);
}.

(** The table, when entry [lk] is locked: what is loaded is what is on disk. *)
Record tab (ok : Z -> Prop) b m (lk : option nat) t : Prop := Tab {
  tb_inj : forall i j ip jp, t !! i = Some ip -> t !! j = Some jp -> live (idev jp) (inum jp) ip -> 0 < iref jp -> i = j;
  tb_entry : forall i ip, t !! i = Some ip -> entry_ok ok b m (bool_decide (lk = Some i)) ip;
}.

Lemma tab_itable ok b m lk t : tab ok b m lk t -> itable_ok t.
Proof. intros [Hi He]. split; [|done]. intros i ip Hip. by destruct (He i ip Hip). Qed.

(** Changing an entry that stays the entry of its inode. *)
Lemma tab_update ok b m lk lk' t i ip ip' :
  tab ok b m lk t -> t !! i = Some ip -> inum ip' = inum ip -> idev ip' = idev ip -> (0 < iref ip' -> 0 < iref ip) ->
  entry_ok ok b m (bool_decide (lk' = Some i)) ip' -> (forall j, j <> i -> bool_decide (lk' = Some j) = bool_decide (lk = Some j)) ->
  tab ok b m lk' (<[i := ip']> t).
Proof.
  intros [Hinj Hent] Hi Hn Hd Hr He Hl. split.
  - intros j k jp kp [(-> & <- & Hlt)|[Hij Hj]]%list_lookup_insert_Some [(<- & <- & _)|[Hik Hk]]%list_lookup_insert_Some; unfold live in *; rewrite ?Hn, ?Hd in *; try done.
    + intros (? & ? & ?) ?. apply (Hinj _ _ ip kp); try done. split_and!; auto.
    + intros (? & ? & ?) ?. apply (Hinj _ _ jp ip); try done. auto.
    + by apply Hinj.
  - intros j jp [(-> & <- & _)|[Hij Hj]]%list_lookup_insert_Some; [done|]. rewrite Hl by done. by apply Hent.
Qed.

(** [iget] of an inode of the file system, when an entry is free. *)
Lemma wp_iget ok b m lk st t cw n (Q : nat -> fsys S -> Prop) :
  tab ok b m lk t -> ok n -> 0 < nfree t ->
  (forall i ip ip', t !! i = Some ip -> let t' := <[i := ip']> t in tab ok b m lk t' -> live ROOTDEV n ip' ->
     ip' = set_iref (iref ip + 1) ip \/ iref ip = 0 /\ iref ip' = 1 ->
     (forall x, refs t' x = refs t x + if x =? n then 1 else 0) -> Q i (Fsys st b t' cw)) ->
  wp (iget ROOTDEV n) (Fsys st b t cw) Q.
Proof.
  intros Ht Hn Hfree HQ. pose proof (tab_itable _ _ _ _ _ Ht) as Hok. destruct (nfree_pos t Hfree) as (fp & Hfp & Hf0).
  destruct (iget_correct st b t cw ROOTDEV n Hok) as [(i & ip & ip' & Hi & E & Hl & Hok' & Hcase)|[Hno _]]; [|by destruct (Hno fp Hfp)].
  eapply wp_eq; [exact E|]. pose proof Ht as [Hinj Hent]. pose proof (Hent i ip Hi) as [Hr Hlk Hlv]. destruct Hl as (L1 & L2 & L3).
  assert (He : entry_ok ok b m (bool_decide (lk = Some i)) ip').
  { destruct Hcase as [[(Hp & _ & _) ->]|(_ & _ & Hr1 & Hv & Hlk')].
    - destruct (Hlv Hp) as (Hd & Hin & Hv). split; cbn [iref set_iref]; [lia|done|]. intros _. split_and!; [done|done|]. intros V. specialize (Hv V).
      change (set_iref (iref ip + 1) (with_disk ip (dnode b m (inum ip))) = set_iref (iref ip + 1) ip). by rewrite Hv.
    - split; [lia|congruence|]. intros _. split_and!; [done|by rewrite L3|]. by rewrite Hv. }
  assert (Hcase' : ip' = set_iref (iref ip + 1) ip \/ iref ip = 0 /\ iref ip' = 1) by (destruct Hcase as [[_ ?]|(_ & ? & ? & _)]; auto).
  apply (HQ i ip ip' Hi); try done.
  - split; [apply Hok'|]. intros j jp [(-> & <- & _)|[Hij Hj]]%list_lookup_insert_Some; [done|by apply Hent].
  - intros x. unfold refs. rewrite (total_insert _ t i ip) by done. rewrite L3.
    destruct Hcase as [[(? & ? & ->) ->]|(_ & -> & -> & _)]; cbn [iref set_iref]; destruct (Z.eqb_spec n x), (Z.eqb_spec x n); try lia; destruct (_ =? _); lia.
Qed.

(** ** Locking *)

(** The entry once [ilock] has returned. *)
Definition loaded b m ip : inode := set_ilocked true (set_ivalid true (with_disk ip (dnode b m (inum ip)))).

Lemma wp_ilock ok b m st t cw w d bs i ip (Q : unit -> fsys S -> Prop) :
  tab ok b m None t -> tree_ok b m ok -> t !! i = Some ip -> 0 < iref ip -> tx st w d m bs [] -> room bs [] 1 ->
  (forall st', tx st' w d m bs [] -> Q tt (Fsys st' b (<[i := loaded b m ip]> t) cw)) -> wp (ilock i) (Fsys st b t cw) Q.
Proof.
  intros Ht Htr Hi Hr Htx [Hr1 Hr2] HQ. cbn [length] in Hr1. destruct (tb_entry _ _ _ _ _ Ht i ip Hi) as [_ Hlk Hlv]. destruct (Hlv Hr) as (Hd & Hok & Hv).
  pose proof (lookup_lt_Some _ _ _ Hi) as Hlt.
  unfold ilock, iacquire. apply wp_bind. eapply wp_geti; [done|]. destruct (Z.ltb_spec (iref ip) 1); [lia|].
  apply wp_bind, wp_bind. eapply wp_geti; [done|]. rewrite Hlk. cbn [bool_decide]. eapply wp_seti; [done|]. destruct (ivalid ip) eqn:Ev.
  - apply wp_ret. specialize (HQ st Htx). unfold loaded in HQ. rewrite Hv in HQ by done. by replace (set_ivalid true ip) with ip in HQ by (unfold set_ivalid; rewrite <- Ev; by destruct ip).
  - apply wp_bind, wp_gets. cbn [sb]. rewrite Hd. apply wp_bind.
    eapply wp_fbread; [exact Htx|by apply (tr_home _ _ _ Htr)|apply not_elem_of_nil|right; cbn [length]; lia|]. intros h st1 Ht1.
    apply wp_bind. eapply wp_fdata; [exact Ht1|by left|]. apply wp_bind. eapply wp_seti; [by apply list_lookup_insert_eq|]. rewrite list_insert_insert_eq.
    apply wp_bind. eapply wp_fbrelse; [exact Ht1|eapply (read_clean _ _ _ _ _ []); [exact Htx|by apply (tr_home _ _ _ Htr)|apply not_elem_of_nil]|]. intros st2 Ht2.
    apply wp_bind. eapply wp_seti; [by apply list_lookup_insert_eq|]. rewrite list_insert_insert_eq.
    change (set_ivalid true (get_dinode (set_ilocked true ip) (m (IBLOCK (inum ip) b)) (dinode_off (inum (set_ilocked true ip))))) with (loaded b m ip).
    apply wp_bind. eapply wp_geti; [by apply list_lookup_insert_eq|]. change (itype (loaded b m ip)) with (itype (dnode b m (inum ip))).
    rewrite (proj2 (Z.eqb_neq _ 0)) by (by apply (tr_used _ _ _ Htr)). apply wp_ret. by apply HQ.
Qed.

Lemma wp_iunlock st b t cw i ip (Q : unit -> fsys S -> Prop) :
  t !! i = Some ip -> 1 <= iref ip -> ilocked ip = true ->
  Q tt (Fsys st b (<[i := set_ilocked false ip]> t) cw) -> wp (iunlock i) (Fsys st b t cw) Q.
Proof.
  intros Hi Hr Hl HQ. unfold iunlock. apply wp_bind. eapply wp_geti; [done|]. rewrite Hl. cbn [negb orb].
  destruct (Z.ltb_spec (iref ip) 1); [lia|]. unfold irelease. by eapply wp_seti.
Qed.

(** Giving back a reference to an inode that has links. *)
Lemma wp_iput st b t cw i ip (Q : unit -> fsys S -> Prop) :
  t !! i = Some ip -> (ivalid ip = true -> inlink ip <> 0) ->
  Q tt (Fsys st b (<[i := set_iref (iref ip - 1) ip]> t) cw) -> wp (iput i) (Fsys st b t cw) Q.
Proof.
  intros Hi Hn HQ. unfold iput. apply wp_bind. eapply wp_geti; [done|]. destruct ((iref ip =? 1) && ivalid ip && (inlink ip =? 0)) eqn:E.
  - bool_prop. by destruct Hn.
  - apply wp_bind, wp_ret. by eapply wp_seti.
Qed.

Lemma wp_iunlockput st b t cw i ip (Q : unit -> fsys S -> Prop) :
  t !! i = Some ip -> 1 <= iref ip -> ilocked ip = true -> inlink ip <> 0 ->
  Q tt (Fsys st b (<[i := set_iref (iref ip - 1) (set_ilocked false ip)]> t) cw) -> wp (iunlockput i) (Fsys st b t cw) Q.
Proof.
  intros Hi Hr Hl Hn HQ. unfold iunlockput. pose proof (lookup_lt_Some _ _ _ Hi). apply wp_bind. eapply wp_iunlock; [done..|].
  eapply wp_iput; [by apply list_lookup_insert_eq|done|]. rewrite list_insert_insert_eq. exact HQ.
Qed.

(** ** dirlookup *)

(** The first entry in use with the given name: its place and inode number. *)
Fixpoint dfind (name : list Z) (es : list (list Z)) : option (nat * Z) :=
  match es with
  | [] => None
  | de :: r => if negb (de_inum de =? 0) && bool_decide (cname (de_name de) = name) then Some (0%nat, de_inum de)
               else (fun p => (Datatypes.S p.1, p.2)) <$> dfind name r
  end.

Lemma length_de_name m ip off : length (de_name (fbytes m ip off (Z.to_nat dirent_size))) = 14%nat.
Proof. unfold de_name. rewrite length_drop, length_fbytes. done. Qed.

Lemma bytes_fbytes m ip off n : bytes (fbytes m ip off n).
Proof. apply Forall_fmap, Forall_forall. intros x _. apply getn1_range. Qed.

Lemma bytes_drop k l : bytes l -> bytes (drop k l).
Proof. apply Forall_drop. Qed.

(** Comparison of an entry with a name buffer. *)
Lemma namecmp_entry nm m ip off : bytes nm -> (length nm <= 14)%nat -> let de := fbytes m ip off (Z.to_nat dirent_size) in
  (namecmp nm (de_name de) =? 0) = bool_decide (cname (de_name de) = cname nm).
Proof.
  intros Hb Hl de. assert (Hc : namecmp nm (de_name de) = 0 <-> cname (de_name de) = cname nm).
  { rewrite namecmp_eq; [|done|apply bytes_drop, bytes_fbytes]. change (Z.to_nat DIRSIZ) with 14%nat.
    rewrite !take_ge by (done || (unfold de; rewrite length_de_name; lia)). split; congruence. }
  case_bool_decide; [by apply Z.eqb_eq, Hc|]. apply Z.eqb_neq. by rewrite Hc.
Qed.

(** What it takes to read the inode in entry [i]. *)
Record readable b m t (i : nat) ip : Prop := Readable {
  ra_slot : t !! i = Some ip;
  ra_ok : inode_ok b m ip;
  ra_holes : no_holes m ip;
}.

Lemma wp_read_dirent msg st b t cw w d m bs i ip (k : nat) (Q : list Z -> fsys S -> Prop) :
  tx st w d m bs [] -> bitmap_ok b m -> readable b m t i ip -> room bs [] 6 -> dirent_size * (Z.of_nat k + 1) <= isize ip ->
  (forall st', tx st' w d m bs [] -> Q (fbytes m ip (dirent_size * Z.of_nat k) (Z.to_nat dirent_size)) (Fsys st' b t cw)) ->
  wp (read_dirent msg i (dirent_size * Z.of_nat k)) (Fsys st b t cw) Q.
Proof.
  intros Htx Hbm [Hi Hok Hnh] Hroom Hk HQ. pose proof Hnh as [Hsz _]. change (MAXFILE * BSIZE) with 274432 in Hsz. change dirent_size with 16 in *.
  assert (Hrl : read_len ip (16 * Z.of_nat k) 16 = 16).
  { unfold read_len. rewrite u32_small by lia. replace ((_ >? _) || (_ <? _)) with false by (symmetry; apply orb_false_iff; rewrite Z.gtb_ltb, !Z.ltb_ge; lia). lia. }
  unfold read_dirent. change dirent_size with 16. apply wp_bind. eapply (wp_readi (fun tot acc => acc = fbytes m ip (16 * Z.of_nat k) (Z.to_nat tot))); try done; [lia| |].
  - intros tot acc j -> Hj Htot _. eexists. split; [done|]. rewrite Z2Nat.inj_add, fbytes_app by lia. by rewrite Z2Nat.id.
  - intros st' acc Ht' ->. rewrite Hrl. cbn [fst snd]. apply wp_ret. by apply HQ.
Qed.

Lemma dir_list_drop m ip k : (k < Z.to_nat (isize ip / dirent_size))%nat ->
  drop k (dir_list m ip) = fbytes m ip (dirent_size * Z.of_nat k) (Z.to_nat dirent_size) :: drop (Datatypes.S k) (dir_list m ip).
Proof. intros Hk. apply drop_S. unfold dir_list. rewrite list_lookup_fmap, lookup_seq_lt by done. done. Qed.

(** The rest of the search, from entry [k] on. *)
Lemma wp_dirlookup_loop fuel nm st b t cw w d m bs i ip (k : nat) (Q : option (nat * Z) -> fsys S -> Prop) :
  tx st w d m bs [] -> bitmap_ok b m -> readable b m t i ip -> room bs [] 6 -> isize ip mod dirent_size = 0 ->
  bytes nm -> (length nm <= 14)%nat -> (k + fuel > Z.to_nat (isize ip / dirent_size))%nat ->
  (forall st', tx st' w d m bs [] -> match dfind (cname nm) (drop k (dir_list m ip)) with
     | None => Q None (Fsys st' b t cw)
     | Some (j, n) => wp (iget ROOTDEV n) (Fsys st' b t cw) (fun x s => Q (Some (x, dirent_size * Z.of_nat (k + j))) s)
     end) ->
  wp (dirlookup_loop fuel i nm (dirent_size * Z.of_nat k)) (Fsys st b t cw) Q.
Proof.
  revert k st. induction fuel as [|fuel IH]; intros k st Htx Hbm Hra Hroom Hmod Hb Hl Hf HQ; pose proof Hra as [Hi Hok Hnh];
    pose proof (Z.div_mod (isize ip) dirent_size ltac:(done)) as Hdm; pose proof Hnh as [Hsz _]; assert (0 <= isize ip / dirent_size) by (apply Z.div_pos; done || lia);
    cbn [dirlookup_loop]; apply wp_bind; (eapply wp_geti; [exact Hi|]).
  - destruct (Z.ltb_spec (dirent_size * Z.of_nat k) (isize ip)) as [Hlt|Hge]; [change dirent_size with 16 in *; lia|].
    apply wp_ret. specialize (HQ st Htx). rewrite drop_ge in HQ; [exact HQ|]. unfold dir_list. rewrite length_fmap, length_seq. lia.
  - destruct (Z.ltb_spec (dirent_size * Z.of_nat k) (isize ip)) as [Hlt|Hge].
    + assert (Hk : (k < Z.to_nat (isize ip / dirent_size))%nat) by (change dirent_size with 16 in *; lia).
      apply wp_bind. eapply wp_read_dirent; try done; [change dirent_size with 16 in *; lia|]. intros st1 Ht1. specialize (HQ) as HQ'. rewrite (dir_list_drop m ip k Hk) in HQ'. cbn [dfind] in HQ'.
      set (de := fbytes m ip (dirent_size * Z.of_nat k) (Z.to_nat dirent_size)) in *. pose proof (namecmp_entry nm m ip (dirent_size * Z.of_nat k) Hb Hl) as Hnc. cbv zeta in Hnc. fold de in Hnc. rewrite Hnc.
      assert (Hnext : (forall st', tx st' w d m bs [] -> match (fun p => (Datatypes.S p.1, p.2)) <$> dfind (cname nm) (drop (Datatypes.S k) (dir_list m ip)) with
          | None => Q None (Fsys st' b t cw) | Some (j, n) => wp (iget ROOTDEV n) (Fsys st' b t cw) (fun x s => Q (Some (x, dirent_size * Z.of_nat (k + j))) s) end) ->
        wp (dirlookup_loop fuel i nm (dirent_size * Z.of_nat k + dirent_size)) (Fsys st1 b t cw) Q).
      { intros HN. replace (dirent_size * Z.of_nat k + dirent_size) with (dirent_size * Z.of_nat (Datatypes.S k)) by lia.
        apply IH; try done; [lia|]. intros st2 Ht2. specialize (HN st2 Ht2). destruct (dfind (cname nm) (drop (Datatypes.S k) (dir_list m ip))) as [[j n]|]; [|exact HN].
        cbn [fmap option_fmap option_map fst snd] in HN. by rewrite <- Nat.add_succ_comm in HN. }
      destruct (de_inum de =? 0); cbn [negb andb] in HQ'; [by apply Hnext|]. case_bool_decide; [|by apply Hnext].
      rewrite (io_dev _ _ _ Hok). apply wp_bind. eapply wp_mono; [apply (HQ' st1 Ht1)|]. cbn beta. intros x s Hx. apply wp_ret. by rewrite Nat.add_0_r in Hx.
    + apply wp_ret. specialize (HQ st Htx). rewrite drop_ge in HQ; [exact HQ|]. unfold dir_list. rewrite length_fmap, length_seq. change dirent_size with 16 in *. lia.
Qed.

Lemma wp_dirlookup nm st b t cw w d m bs i ip (Q : option (nat * Z) -> fsys S -> Prop) :
  tx st w d m bs [] -> bitmap_ok b m -> readable b m t i ip -> room bs [] 6 -> itype ip = T_DIR -> isize ip mod dirent_size = 0 ->
  bytes nm -> (length nm <= 14)%nat ->
  (forall st', tx st' w d m bs [] -> match dfind (cname nm) (dir_list m ip) with
     | None => Q None (Fsys st' b t cw)
     | Some (j, n) => wp (iget ROOTDEV n) (Fsys st' b t cw) (fun x s => Q (Some (x, dirent_size * Z.of_nat j)) s)
     end) ->
  wp (dirlookup i nm) (Fsys st b t cw) Q.
Proof.
  intros Htx Hbm Hra Hroom Hty Hmod Hb Hl HQ. unfold dirlookup. apply wp_bind. eapply wp_geti; [apply Hra|]. rewrite Hty. cbn [negb Z.eqb].
  change 0 with (dirent_size * Z.of_nat 0). pose proof (ra_holes _ _ _ _ _ Hra) as [Hsz _].
  assert (0 <= isize ip / dirent_size) by (apply Z.div_pos; done || lia). eapply wp_dirlookup_loop; try done; lia.
Qed.

(** ** namex *)

Lemma inode_ok_loaded ok b m ip : tree_ok b m ok -> ok (inum ip) -> idev ip = ROOTDEV -> inode_ok b m (loaded b m ip) /\ no_holes m (loaded b m ip).
Proof. intros Htr Hn Hd. pose proof (tr_ok _ _ _ Htr _ Hn) as [_ Hl Ha Hb Hi]. split; [by split|apply (tr_holes _ _ _ Htr _ Hn)]. Qed.

Lemma tab_loaded ok b m t i ip : tab ok b m None t -> t !! i = Some ip -> 0 < iref ip -> tab ok b m (Some i) (<[i := loaded b m ip]> t).
Proof.
  intros Ht Hi Hr. pose proof (tb_entry _ _ _ _ _ Ht i ip Hi) as [_ _ Hlv]. destruct (Hlv Hr) as (Hd & Hn & _).
  eapply tab_update; [exact Ht|exact Hi|done|done|done| |].
  - rewrite bool_decide_eq_true_2 by done. split; [cbn; lia|done|]. intros _. split_and!; done.
  - intros j Hj. rewrite !bool_decide_eq_false_2; congruence.
Qed.

(** The entry when its holder has unlocked it and put it back. *)
Definition put_back ip : inode := set_iref (iref ip - 1) (set_ilocked false ip).

Lemma tab_put_back ok b m t i ip : tab ok b m (Some i) t -> t !! i = Some ip -> 0 < iref ip ->
  let t' := <[i := put_back ip]> t in
  tab ok b m None t' /\ (forall x, refs t' x = refs t x - if x =? inum ip then 1 else 0) /\ nfree t' = nfree t + if iref ip =? 1 then 1 else 0.
Proof.
  intros Ht Hi Hr t'. pose proof (tb_entry _ _ _ _ _ Ht i ip Hi) as [_ _ Hlv]. destruct (Hlv Hr) as (Hd & Hn & Hv). split_and!.
  - eapply tab_update; [exact Ht|exact Hi|done|done|cbn; lia| |].
    + split; [cbn; lia|done|]. intros _. split_and!; [done|done|]. intros V. change (put_back (with_disk ip (dnode b m (inum ip))) = put_back ip). by rewrite (Hv V).
    + intros j Hj. rewrite !bool_decide_eq_false_2; congruence.
  - intros x. unfold refs, t'. rewrite (total_insert _ t i ip) by done. cbn [put_back inum iref set_iref set_ilocked]. destruct (Z.eqb_spec (inum ip) x), (Z.eqb_spec x (inum ip)); lia.
  - unfold nfree, t'. rewrite (total_insert _ t i ip) by done. cbn [put_back iref set_iref set_ilocked].
    destruct (Z.eqb_spec (iref ip) 0), (Z.eqb_spec (iref ip - 1) 0), (Z.eqb_spec (iref ip) 1); lia.
Qed.

(** The inode a list of path elements leads to. *)
Fixpoint walk_path b m (n : Z) (es : list (list Z)) : option Z :=
  match es with
  | [] => Some n
  | e :: r => if itype (dnode b m n) =? T_DIR
              then match dfind (take (Z.to_nat DIRSIZ) e) (dir_list m (dnode b m n)) with Some (_, n') => walk_path b m n' r | None => None end
              else None
  end.

Lemma dfind_in name es k n : dfind name es = Some (k, n) -> exists de, de ∈ es /\ de_inum de = n /\ n <> 0.
Proof.
  revert k. induction es as [|de es IH]; intros k E; cbn [dfind] in E; [done|]. destruct (_ && _) eqn:Eb.
  - injection E as <- <-. bool_prop. exists de. split_and!; [by left|done|done].
  - destruct (dfind name es) as [[k' n']|]; [|done]. injection E as <- <-. destruct (IH k' eq_refl) as (de' & Hin & ? & ?). exists de'. split_and!; [by right|done|done].
Qed.

(** The name buffer of [skipelem]. *)
Lemma skipelem_name path name rest name' : bytes path -> bytes name -> length name = 14%nat -> skipelem path name = Some (rest, name') ->
  bytes rest /\ bytes name' /\ length name' = 14%nat.
Proof.
  intros Hp Hn Hl. unfold skipelem.
  assert (Hss : forall p, bytes p -> bytes (skip_slashes p)).
  { induction p as [|c p IH]; intros Hb; cbn [skip_slashes]; [done|]. destruct (c =? SLASH); [|done]. apply IH. by inversion Hb. }
  pose proof (Hss path Hp) as Hsp. destruct (skip_slashes path) as [|c q]; [done|]. destruct (take_elem (c :: q)) as [e r] eqn:E. intros [= <- <-].
  destruct (take_elem_split _ _ _ E) as (Hcat & _). unfold bytes in Hsp. rewrite Hcat in Hsp. apply Forall_app in Hsp as [He Hr].
  split; [by apply Hss|]. rewrite Z.geb_leb. change DIRSIZ with 14. destruct (Z.leb_spec 14 (Z.of_nat (length e))).
  - split; [by apply Forall_take|]. rewrite length_take. lia.
  - split; [|rewrite !length_app; cbn [length app]; rewrite length_drop; lia]. apply Forall_app. split; [done|]. constructor; [done|by apply Forall_drop].
Qed.

Lemma live_self ok b m lk t i ip : tab ok b m lk t -> t !! i = Some ip -> 0 < iref ip -> live ROOTDEV (inum ip) ip.
Proof. intros Ht Hi Hr. destruct (tb_entry _ _ _ _ _ Ht i ip Hi) as [_ _ Hlv]. by destruct (Hlv Hr) as (Hd & _). Qed.

(** The directory [i] is given back once its successor [j] has been taken; the
    two may be the same entry. *)
Lemma step_entries ok b m t i lp j jp jp' n' :
  let t2 := <[j := jp']> t in
  t !! i = Some lp -> 0 < iref lp -> ilocked lp = true -> inlink lp <> 0 -> t !! j = Some jp -> tab ok b m (Some i) t2 -> live ROOTDEV n' jp' ->
  jp' = set_iref (iref jp + 1) jp \/ iref jp = 0 /\ iref jp' = 1 -> 2 <= nfree t + (if iref lp =? 1 then 1 else 0) ->
  exists xp, t2 !! i = Some xp /\ 0 < iref xp /\ ilocked xp = true /\ inlink xp <> 0 /\ inum xp = inum lp /\
    exists zp, <[i := put_back xp]> t2 !! j = Some zp /\ live ROOTDEV n' zp /\ 2 <= nfree (<[i := put_back xp]> t2) + (if iref zp =? 1 then 1 else 0).
Proof.
  intros t2 Hi Hr Hlk Hnl Hj Ht2 Hl Hcase Hpot. pose proof (lookup_lt_Some _ _ _ Hi) as Hil. pose proof (lookup_lt_Some _ _ _ Hj) as Hjl.
  assert (Hf2 : nfree t2 = nfree t - (if iref jp =? 0 then 1 else 0) + (if iref jp' =? 0 then 1 else 0)) by (unfold nfree, t2; by rewrite (total_insert _ t j jp) by done).
  assert (Hf3 : forall xp, t2 !! i = Some xp -> 0 < iref xp -> nfree (<[i := put_back xp]> t2) = nfree t2 + (if iref xp =? 1 then 1 else 0)).
  { intros xp Hx Hxr. by apply (tab_put_back _ _ _ _ _ _ Ht2 Hx Hxr). }
  destruct Hl as (L1 & L2 & L3). destruct (decide (j = i)) as [->|Hne].
  - assert (jp = lp) as -> by congruence. destruct Hcase as [->|[? _]]; [|lia].
    assert (Hx : t2 !! i = Some (set_iref (iref lp + 1) lp)) by (by apply list_lookup_insert_eq).
    eexists. split; [exact Hx|]. split_and!; [cbn; lia|done|done|done|]. eexists. split; [apply list_lookup_insert_eq; unfold t2; by rewrite length_insert|].
    rewrite Hf3 by (done || (cbn; lia)). cbn [iref put_back set_iref set_ilocked]. replace (iref lp + 1 - 1) with (iref lp) by lia.
    split; [unfold live; cbn; split_and!; [lia|done|done]|]. rewrite Hf2. cbn [iref set_iref]. destruct (Z.eqb_spec (iref lp) 0), (Z.eqb_spec (iref lp + 1) 0), (Z.eqb_spec (iref lp + 1) 1), (Z.eqb_spec (iref lp) 1); lia.
  - assert (Hx : t2 !! i = Some lp) by (unfold t2; by rewrite list_lookup_insert_ne). exists lp. split_and!; try done. exists jp'.
    rewrite list_lookup_insert_ne by done. split; [by apply list_lookup_insert_eq|]. split; [unfold live; by split_and!|]. rewrite (Hf3 lp Hx Hr), Hf2.
    destruct Hcase as [->|[-> ->]]; cbn [iref set_iref] in *; [|destruct (Z.eqb_spec (iref lp) 1); cbn; lia].
    destruct (Z.eqb_spec (iref jp) 0), (Z.eqb_spec (iref jp + 1) 0), (Z.eqb_spec (iref jp + 1) 1), (Z.eqb_spec (iref lp) 1); lia.
Qed.

(** What [namex] gives back when it started with a reference to [n]: the entry
    of the inode found, or nothing, and the reference to [n] given up. *)
Definition namex_result (ok : Z -> Prop) b m w d bs cw t (n : Z) (es : list (list Z)) (r : option (nat * list Z)) (s : fsys S) : Prop :=
  exists st' t', s = Fsys st' b t' cw /\ tx st' w d m bs [] /\ tab ok b m None t' /\
    match walk_path b m n es with
    | Some n' => exists j jp name', r = Some (j, name') /\ t' !! j = Some jp /\ live ROOTDEV n' jp /\
        forall x, refs t' x = refs t x - (if x =? n then 1 else 0) + (if x =? n' then 1 else 0)
    | None => r = None /\ forall x, refs t' x = refs t x - (if x =? n then 1 else 0)
    end.

Lemma wp_namex_loop ok b m w d bs cw fuel st t i ip path name :
  tx st w d m bs [] -> bitmap_ok b m -> tree_ok b m ok -> tab ok b m None t -> room bs [] 6 ->
  t !! i = Some ip -> 0 < iref ip -> 2 <= nfree t + (if iref ip =? 1 then 1 else 0) ->
  bytes path -> (forall x, x ∈ path -> x <> 0) -> bytes name -> length name = 14%nat -> (length path <= fuel)%nat ->
  wp (namex_loop fuel i path false name) (Fsys st b t cw) (namex_result ok b m w d bs cw t (inum ip) (elems path)).
Proof.
  intros Htx Hbm Htr. revert st t i ip path name Htx. induction fuel as [|fuel IH]; intros st t i ip path name Htx Ht Hroom Hi Hr Hpot Hbp Hnz Hbn Hln Hf;
    pose proof (skipelem_spec path name Hnz) as Hsk; cbn [namex_loop]; destruct (skipelem path name) as [[rest name']|] eqn:Esk.
  1: destruct Hsk as (e & _ & _ & Hlt & _); lia.
  1,3: apply wp_ret; exists st, t; rewrite Hsk; split_and!; try done; exists i, ip, name; split_and!; try done;
       [by apply (live_self _ _ _ _ _ _ _ Ht Hi)|intros x; destruct (x =? inum ip); lia].
  destruct Hsk as (e & Hes & Hcn & Hlt & Hsub). destruct (skipelem_name _ _ _ _ Hbp Hbn Hln Esk) as (Hbr & Hbn' & Hln').
  pose proof (tb_entry _ _ _ _ _ Ht i ip Hi) as [_ _ Hlv]. destruct (Hlv Hr) as (Hd & Hn & _). pose proof (lookup_lt_Some _ _ _ Hi) as Hil.
  set (lp := loaded b m ip). assert (Hlp : inlink lp <> 0) by (apply (tr_used _ _ _ Htr _ Hn)).
  apply wp_bind. eapply wp_ilock; [exact Ht|exact Htr|exact Hi|done|exact Htx|split; destruct Hroom; lia|]. intros st1 Ht1. fold lp.
  pose proof (tab_loaded _ _ _ _ _ _ Ht Hi Hr) as Htab1. fold lp in Htab1. set (t1 := <[i := lp]> t) in *.
  assert (Hi1 : t1 !! i = Some lp) by (by apply list_lookup_insert_eq).
  assert (Hrefs1 : forall x, refs t1 x = refs t x) by (intros x; unfold refs, t1; rewrite (total_insert _ t i ip) by done; cbn; lia).
  assert (Hfree1 : nfree t1 = nfree t) by (unfold nfree, t1; rewrite (total_insert _ t i ip) by done; cbn; lia).
  assert (Hgone : forall st', tx st' w d m bs [] -> walk_path b m (inum ip) (elems path) = None -> wp (iunlockput i;; ret None) (Fsys st' b t1 cw) (namex_result ok b m w d bs cw t (inum ip) (elems path))).
  { intros st' Ht' Hw. apply wp_bind. eapply wp_iunlockput; [exact Hi1|cbn; lia|done|done|]. apply wp_ret. destruct (tab_put_back _ _ _ _ _ _ Htab1 Hi1 Hr) as (Ht2 & Hr2 & _).
    do 2 eexists. split; [done|]. rewrite Hw. split_and!; [done|exact Ht2|done|]. intros x. etrans; [apply Hr2|]. by rewrite Hrefs1. }
  apply wp_bind. eapply wp_geti; [exact Hi1|]. change (itype lp) with (itype (dnode b m (inum ip))). rewrite Hes in *. cbn [walk_path] in *.
  destruct (Z.eqb_spec (itype (dnode b m (inum ip))) T_DIR) as [Hty|Hty]; cbn [negb andb]; [|by apply Hgone].
  destruct (inode_ok_loaded _ _ _ _ Htr Hn Hd) as [Hiok Hnh]. destruct (tr_dir _ _ _ Htr _ Hn Hty) as [Hmod Hent].
  apply wp_bind. eapply wp_dirlookup; [exact Ht1|done|by split|done|done|done|done|lia|]. intros st2 Ht2. rewrite Hcn.
  change (dir_list m lp) with (dir_list m (dnode b m (inum ip))). destruct (dfind _ _) as [[k n']|] eqn:Ef; [|by apply Hgone].
  assert (Hn' : ok n') by (destruct (dfind_in _ _ _ _ Ef) as (de & Hin & <- & H0); by apply Hent).
  eapply wp_iget; [exact Htab1|exact Hn'|rewrite Hfree1; destruct (iref ip =? 1); lia|]. intros j jp jp' Hj t2 Htab2 Hl Hcase Hrefs2.
  destruct (step_entries _ _ _ _ _ _ _ _ _ _ Hi1 Hr eq_refl Hlp Hj Htab2 Hl Hcase ltac:(rewrite Hfree1; exact Hpot)) as (xp & Hx & Hxr & Hxl & Hxn & Hxi & zp & Hz & Hlz & Hpot3).
  apply wp_bind. eapply wp_iunlockput; [exact Hx|lia|done|done|]. destruct (tab_put_back _ _ _ _ _ _ Htab2 Hx Hxr) as (Htab3 & Hrefs3 & _).
  change (set_iref (iref xp - 1) (set_ilocked false xp)) with (put_back xp). destruct Hlz as (Z1 & Z2 & Z3).
  eapply wp_mono; [eapply (IH st2 _ j zp rest name'); try done; [intros x Hxx; by apply Hnz, Hsub|lia]|]. rewrite Z3.
  intros r s (st' & t' & -> & Htx' & Ht' & Hres). exists st', t'. cbn [walk_path]. rewrite Hty, Z.eqb_refl, Ef. split_and!; try done.
  assert (Hrf : forall x, refs (<[i:=put_back xp]> t2) x = refs t x + (if x =? n' then 1 else 0) - (if x =? inum ip then 1 else 0)).
  { intros x. rewrite Hrefs3, Hrefs2, Hrefs1, Hxi. done. }
  destruct (walk_path b m n' (elems rest)) as [n2|].
  - destruct Hres as (j2 & jp2 & nm2 & -> & Hj2 & Hl2 & Hr2). exists j2, jp2, nm2. split_and!; try done. intros x. rewrite Hr2, Hrf. lia.
  - destruct Hres as [-> Hr2]. split; [done|]. intros x. rewrite Hr2, Hrf. lia.
Qed.

(** ** namei *)

(** Where a path starts. *)
Definition start_inode t (cw : nat) (path : list Z) : option Z :=
  match path with
  | c :: _ => if c =? SLASH then Some ROOTINO else inum <$> t !! cw
  | [] => inum <$> t !! cw
  end.

(** What [namei] returns for a path whose elements are [es], from inode [n]. *)
Definition namei_result (ok : Z -> Prop) b m w d bs cw t (n : Z) (es : list (list Z)) (r : option nat) (s : fsys S) : Prop :=
  exists st' t', s = Fsys st' b t' cw /\ tx st' w d m bs [] /\ tab ok b m None t' /\
    match walk_path b m n es with
    | Some n' => exists j jp, r = Some j /\ t' !! j = Some jp /\ live ROOTDEV n' jp /\ forall x, refs t' x = refs t x + if x =? n' then 1 else 0
    | None => r = None /\ forall x, refs t' x = refs t x
    end.

(** From the entry of the first inode on. *)
Lemma wp_namei_rest ok b m w d bs st t t1 cw i ip path n :
  tx st w d m bs [] -> bitmap_ok b m -> tree_ok b m ok -> room bs [] 6 -> bytes path -> (forall x, x ∈ path -> x <> 0) ->
  tab ok b m None t1 -> t1 !! i = Some ip -> live ROOTDEV n ip -> 2 <= nfree t1 + (if iref ip =? 1 then 1 else 0) ->
  (forall x, refs t1 x = refs t x + if x =? n then 1 else 0) ->
  wp (namex_loop (length path) i path false (replicate (Z.to_nat DIRSIZ) 0)) (Fsys st b t1 cw)
    (fun r => namei_result ok b m w d bs cw t n (elems path) match r with Some (i, _) => Some i | None => None end).
Proof.
  intros Htx Hbm Htr Hroom Hbp Hnz Ht1 Hi (Hr & _ & Hn) Hpot Href. eapply wp_mono; [eapply wp_namex_loop; try done; by apply Forall_replicate|].
  rewrite Hn. intros r s (st' & t' & -> & Htx' & Ht' & Hres). apply wp_ret. exists st', t'. split_and!; try done. destruct (walk_path b m n (elems path)) as [n2|].
  - destruct Hres as (j & jp & nm & -> & Hj & Hl & Hx). exists j, jp. split_and!; try done. intros x. rewrite Hx, Href. lia.
  - destruct Hres as [-> Hx]. split; [done|]. intros x. rewrite Hx, Href. lia.
Qed.

Lemma nfree_taken t i ip ip' : t !! i = Some ip -> 0 <= iref ip -> 0 < iref ip' -> ip' = set_iref (iref ip + 1) ip \/ iref ip = 0 /\ iref ip' = 1 -> 2 <= nfree t ->
  2 <= nfree (<[i := ip']> t) + (if iref ip' =? 1 then 1 else 0).
Proof.
  intros Hi Hr Hr' Hcase Hf. unfold nfree in *. rewrite (total_insert _ t i ip) by done.
  destruct Hcase as [->|[-> ->]]; cbn [iref set_iref] in *; [|cbn; lia]. destruct (Z.eqb_spec (iref ip) 0), (Z.eqb_spec (iref ip + 1) 0), (Z.eqb_spec (iref ip + 1) 1); lia.
Qed.

Lemma wp_namei ok b m w d bs st t cw cp path n :
  tx st w d m bs [] -> bitmap_ok b m -> tree_ok b m ok -> tab ok b m None t -> room bs [] 6 -> 2 <= nfree t ->
  ok ROOTINO -> t !! cw = Some cp -> 0 < iref cp -> bytes path -> (forall x, x ∈ path -> x <> 0) -> start_inode t cw path = Some n ->
  wp (namei path) (Fsys st b t cw) (namei_result ok b m w d bs cw t n (elems path)).
Proof.
  intros Htx Hbm Htr Ht Hroom Hfree Hroot Hcw Hcr Hbp Hnz Hst. unfold namei, namex. apply wp_bind, wp_bind.
  assert (Hcwd : (inum <$> t !! cw) = Some n -> wp (c <- gets cwd;; idup c) (Fsys st b t cw) (fun i s => wp (namex_loop (length path) i path false (replicate (Z.to_nat DIRSIZ) 0)) s
     (fun r => namei_result ok b m w d bs cw t n (elems path) match r with Some (i, _) => Some i | None => None end))).
  { rewrite Hcw. intros [= Hn]. apply wp_bind, wp_gets. cbn [cwd]. unfold idup. apply wp_bind. eapply wp_seti; [exact Hcw|]. apply wp_ret.
    pose proof (tb_entry _ _ _ _ _ Ht cw cp Hcw) as [_ Hlk Hlv]. destruct (Hlv Hcr) as (Hd & Hok & Hv). pose proof (lookup_lt_Some _ _ _ Hcw).
    eapply (wp_namei_rest _ _ _ _ _ _ _ _ _ _ _ (set_iref (iref cp + 1) cp)); try done; [|by apply list_lookup_insert_eq|unfold live; cbn; split_and!; [lia|done|done]|apply (nfree_taken t cw cp); try done; [lia|cbn; lia|by left]|].
    - eapply tab_update; [exact Ht|done|done|done|done| |done]. split; [cbn; lia|done|]. intros _. split_and!; [done|done|]. intros V.
      change (set_iref (iref cp + 1) (with_disk cp (dnode b m (inum cp))) = set_iref (iref cp + 1) cp). by rewrite (Hv V).
    - intros x. unfold refs. rewrite (total_insert _ t cw cp) by done. cbn [inum iref set_iref]. rewrite Hn. destruct (Z.eqb_spec n x), (Z.eqb_spec x n); lia. }
  destruct path as [|c p]; [by apply Hcwd|]. cbn [start_inode] in Hst. destruct (c =? SLASH); [|by apply Hcwd]. injection Hst as <-.
  eapply wp_iget; [exact Ht|exact Hroot|lia|]. intros i ip ip' Hi t' Ht' Hl Hcase Hrefs. pose proof (lookup_lt_Some _ _ _ Hi).
  destruct (tb_entry _ _ _ _ _ Ht i ip Hi) as [Hr0 _ _].
  eapply wp_namei_rest; try done; [by apply list_lookup_insert_eq|]. apply (nfree_taken t i ip); try done. apply Hl.
Qed.

(** C11: [namei].  On a well-formed file system it returns the entry of the inode
    that the elements of the path lead to from the root, or from the current
    directory, or nothing if an element is missing or not in a directory; the
    entry has one more reference and no other reference count has changed,
    however many directories it has visited. *)
Theorem namei_correct ok b m w d bs st t cw cp path n :
  tx st w d m bs [] -> bitmap_ok b m -> tree_ok b m ok -> tab ok b m None t -> room bs [] 6 -> 2 <= nfree t ->
  ok ROOTINO -> t !! cw = Some cp -> 0 < iref cp -> bytes path -> (forall x, x ∈ path -> x <> 0) -> start_inode t cw path = Some n ->
  wp (namei path) (Fsys st b t cw) (namei_result ok b m w d bs cw t n (elems path)).
Proof. apply wp_namei. Qed.
End Dir.
