(* ===== verification/Mkfs.v ===== *)
(** * mkfs/mkfs.c: the tool that lays out the disk

    mkfs runs on the host and writes the image the kernel boots from: the super
    block, an empty log, the inodes, the free map, and the blocks of the root
    directory and of the files it is given.  The state is the image, the two
    counters and the super block; [die] and a failed assertion are [Panic]. *)
From S2P Require Import Prelude Riscv Mem KString Bio Block Fs.

Definition NINODES : Z := 200.
Definition nbitmap : Z := FSSIZE / (BSIZE * 8) + 1.
Definition ninodeblocks : Z := NINODES / IPB + 1.
Definition mk_nlog : Z := LOGSIZE.
Definition nmeta : Z := 2 + mk_nlog + ninodeblocks + nbitmap.
Definition mk_nblocks : Z := FSSIZE - nmeta.

Record mk : Type := Mk {
  img : Z -> block;      (* the image file, by sector *)
  nsect : Z;             (* its length in sectors *)
  freeinode : Z;
  freeblock : Z;
  mk_sb : superblock;
}.

Definition zeroes : block := blk_zero.

(** The sector that [lseek(fsfd, sec * BSIZE, 0)] goes to. *)
Definition sector (sec : Z) : Z := u32 (sec * BSIZE) / BSIZE.
(** A write past the end of the image leaves zeroes in between. *)
Definition wsect (sec : Z) (buf : block) : M mk unit :=
  modify (fun s =>
    let k := sector sec in
    let old := if nsect s <=? k then fun x => if (nsect s <=? x) && (x <? k) then zeroes else img s x else img s in
    Mk (fupd old k buf) (Z.max (nsect s) (k + 1)) (freeinode s) (freeblock s) (mk_sb s)).
Definition rsect (sec : Z) : M mk block :=
  s <- get;;
  if sector sec <? nsect s then ret (img s (sector sec)) else panic "read".

(** A [struct dinode] is the on-disk part of an inode. *)
Definition no_dinode (inum : Z) : inode := Inode ROOTDEV inum 1 true true 0 0 0 0 0 (replicate (Z.to_nat (NDIRECT + 1)) 0).

Definition winode (inum : Z) (ip : inode) : M mk unit :=
  s <- get;;
  let bn := IBLOCK inum (mk_sb s) in
  buf <- rsect bn;;
  wsect bn (put_dinode ip buf (dinode_off inum)).
Definition rinode (inum : Z) : M mk inode :=
  s <- get;;
  let bn := IBLOCK inum (mk_sb s) in
  buf <- rsect bn;;
  ret (get_dinode (no_dinode inum) buf (dinode_off inum)).

(** [freeinode++], [freeblock++] *)
Definition next_inode : M mk Z :=
  s <- get;;
  modify (fun s => Mk (img s) (nsect s) (u32 (freeinode s + 1)) (freeblock s) (mk_sb s));;
  ret (freeinode s).
Definition next_block : M mk Z :=
  s <- get;;
  modify (fun s => Mk (img s) (nsect s) (freeinode s) (u32 (freeblock s + 1)) (mk_sb s));;
  ret (freeblock s).

Definition mk_ialloc (type : Z) : M mk Z :=
  inum <- next_inode;;
  winode inum (set_isize 0 (set_inlink 1 (set_itype type (no_dinode inum))));;
  ret inum.

(** [for(i = 0; i < used; i++) buf[i/8] = buf[i/8] | (0x1 << (i%8))] *)
Fixpoint mark_used (n : nat) (i : Z) (buf : block) : block :=
  match n with
  | O => buf
  | S n' => mark_used n' (i + 1) (set_bit buf i)
  end.
Definition mk_balloc (used : Z) : M mk unit :=
  if negb (used <? BSIZE * 8) then panic "used < BSIZE*8" else
  s <- get;;
  wsect (bmapstart (mk_sb s)) (mark_used (Z.to_nat used) 0 zeroes).

(** The sector of block [fbn] of the file, allocated if need be: the body of
    [iappend] up to [n1]. *)
Definition file_sector (din : inode) (fbn : Z) : M mk (inode * Z) :=
  if fbn <? NDIRECT then
    din <- (if iaddrs din !!! Z.to_nat fbn =? 0
            then x <- next_block;; ret (set_iaddrs (<[Z.to_nat fbn := x]> (iaddrs din)) din) else ret din);;
    ret (din, iaddrs din !!! Z.to_nat fbn)
  else
    din <- (if iaddrs din !!! Z.to_nat NDIRECT =? 0
            then x <- next_block;; ret (set_iaddrs (<[Z.to_nat NDIRECT := x]> (iaddrs din)) din) else ret din);;
    let a := iaddrs din !!! Z.to_nat NDIRECT in
    indirect <- rsect a;;
    indirect <- (if get32 indirect (4 * (fbn - NDIRECT)) =? 0
                 then x <- next_block;;
                      let indirect := put32 indirect (4 * (fbn - NDIRECT)) x in
                      wsect a indirect;; ret indirect
                 else ret indirect);;
    ret (din, get32 indirect (4 * (fbn - NDIRECT))).

Fixpoint iappend_loop (fuel : nat) (din : inode) (off : Z) (p : list Z) : M mk (inode * Z) :=
  if Z.of_nat (length p) <=? 0 then ret (din, off) else
  match fuel with
  | O => diverge
  | S fuel' =>
      let fbn := off / BSIZE in
      if negb (fbn <? MAXFILE) then panic "fbn < MAXFILE" else
      r <- file_sector din fbn;;
      let '(din, x) := r in
      let n1 := Z.min (Z.of_nat (length p)) ((fbn + 1) * BSIZE - off) in
      buf <- rsect x;;
      wsect x (put_bytes (take (Z.to_nat n1) p) buf (off - fbn * BSIZE));;
      iappend_loop fuel' din (u32 (off + n1)) (drop (Z.to_nat n1) p)
  end.
Definition iappend (inum : Z) (p : list Z) : M mk unit :=
  din <- rinode inum;;
  r <- iappend_loop (length p) din (isize din) p;;
  let '(din, off) := r in
  winode inum (set_isize off din).

(** ** main *)

Definition USER_ : list Z := [117; 115; 101; 114; 47].   (* "user/" *)
(** [argv[i]] without "user/" and without a leading '_'. *)
Definition short_of (arg : list Z) : list Z := if bool_decide (take 5 arg = USER_) then drop 5 arg else arg.
Definition skip_under (name : list Z) : list Z :=
  match name with
  | c :: n => if c =? 95 then n else name
  | [] => []
  end.

Fixpoint append_chunks (inum : Z) (chunks : list (list Z)) : M mk unit :=
  match chunks with
  | [] => ret tt
  | buf :: rest => iappend inum buf;; append_chunks inum rest
  end.

Section Main.
(** The host: [open(path, 0)], and what the calls of [read] on the descriptor
    return, one buffer each, before one returns 0. *)
Variable host : list Z -> option (list (list Z)).

Definition add_file (rootino : Z) (arg : list Z) : M mk unit :=
  let shortname := short_of arg in
  if bool_decide (SLASH ∈ shortname) then panic "index(shortname, '/') == 0" else
  match host arg with
  | None => panic "open"
  | Some chunks =>
      let shortname := skip_under shortname in
      inum <- mk_ialloc T_FILE;;
      iappend rootino (dirent_bytes inum shortname);;
      append_chunks inum chunks
  end.

Fixpoint add_files (rootino : Z) (args : list (list Z)) : M mk unit :=
  match args with
  | [] => ret tt
  | a :: rest => add_file rootino a;; add_files rootino rest
  end.

Definition mk_superblock : superblock :=
  Superblock FSMAGIC FSSIZE mk_nblocks NINODES mk_nlog 2 (2 + mk_nlog) (2 + mk_nlog + ninodeblocks).
(** [memmove(buf, &sb, sizeof(sb))] over a zero buffer. *)
Definition sb_block (b : superblock) : block :=
  let d := put32 zeroes 0 (magic b) in
  let d := put32 d 4 (fssize b) in
  let d := put32 d 8 (nblocks b) in
  let d := put32 d 12 (ninodes b) in
  let d := put32 d 16 (nlog b) in
  let d := put32 d 20 (logstart b) in
  let d := put32 d 24 (inodestart b) in
  put32 d 28 (bmapstart b).

(** The image after [open] with [O_TRUNC], and the globals. *)
Definition mk_init : mk := Mk (fun _ => zeroes) 0 1 0 (Superblock 0 0 0 0 0 0 0 0).

(** [main] for [argv[2..]], from where the image file is open. *)
Definition mkfs_main (args : list (list Z)) : M mk unit :=
  modify (fun s => Mk (img s) (nsect s) (freeinode s) nmeta mk_superblock);;
  for_loop (Z.to_nat FSSIZE) 0 (fun i => wsect i zeroes);;
  wsect 1 (sb_block mk_superblock);;
  rootino <- mk_ialloc T_DIR;;
  if negb (rootino =? ROOTINO) then panic "rootino == ROOTINO" else
  iappend rootino (dirent_bytes rootino [46]);;
  iappend rootino (dirent_bytes rootino [46; 46]);;
  add_files rootino args;;
  din <- rinode rootino;;
  let off := u32 ((isize din / BSIZE + 1) * BSIZE) in
  winode rootino (set_isize off din);;
  s <- get;;
  mk_balloc (s32 (freeblock s)).
End Main.
