(* ===== verification/MkfsProofs.v ===== *)
(** * The image mkfs builds

    The files of the image while mkfs runs: every block below [freeblock] and
    above the meta-data belongs to one slot of one file, every block from
    [freeblock] on is blank, and a file has exactly the blocks its size asks
    for. *)
From S2P Require Import Prelude Riscv Mem KString Bio Block TxSpec Fs FsBlock FsProofs FsInode FsWrite Mkfs.

Definition St (m : Z -> block) (fi fb : Z) : mk := Mk m FSSIZE fi fb mk_superblock.

Lemma sector_small k : 0 <= k < FSSIZE -> sector k = k.
Proof.
  unfold sector. change FSSIZE with 2000. change BSIZE with 1024. intros Hk. rewrite u32_small by lia. apply Z.div_mul. lia.
Qed.

Lemma wp_rsect m fi fb k (Q : block -> mk -> Prop) : 0 <= k < FSSIZE -> Q (m k) (St m fi fb) -> wp (rsect k) (St m fi fb) Q.
Proof.
  intros Hk HQ. unfold rsect. apply wp_bind, wp_get. rewrite sector_small by done. cbn [nsect St].
  rewrite (proj2 (Z.ltb_lt _ _)) by lia. by apply wp_ret.
Qed.

Lemma wp_wsect m fi fb k d (Q : unit -> mk -> Prop) : 0 <= k < FSSIZE -> Q tt (St (fupd m k d) fi fb) -> wp (wsect k d) (St m fi fb) Q.
Proof.
  intros Hk HQ. unfold wsect. apply wp_modify. cbv zeta. rewrite sector_small by done. cbn [nsect St].
  rewrite (proj2 (Z.leb_gt _ _)) by lia. rewrite Z.max_l by lia. exact HQ.
Qed.

Definition blank (m : Z -> block) (fb : Z) : Prop := forall x, fb <= x -> m x = blk_zero.
Definition whole (m : Z -> block) : Prop := forall x, len (m x) = BSIZE.

(** The slots of a file, when blocks below [fb] are in use. *)
Record slots_ok (m : Z -> block) (fb : Z) (ip : inode) : Prop := SlotsOk {
  so_wf : inode_wf ip;
  so_slot : forall k, 0 <= k < NSLOT -> aslot m ip k <> 0 -> nmeta <= aslot m ip k < fb;
  so_inj : forall k k', 0 <= k < NSLOT -> 0 <= k' < NSLOT -> aslot m ip k <> 0 -> aslot m ip k = aslot m ip k' -> k = k';
}.

(** Fresh blocks went to the empty slots [ks] and nothing a file can see
    changed. *)
Record took (m : Z -> block) (fb : Z) (ip : inode) (m' : Z -> block) (fb' : Z) (ip' : inode) (ks : list Z) : Prop := Took {
  tk_ok : slots_ok m' fb' ip';
  tk_meta : ip' = set_iaddrs (iaddrs ip') ip;
  tk_old : forall k, 0 <= k < NSLOT -> aslot m ip k <> 0 -> aslot m' ip' k = aslot m ip k;
  tk_new : forall k, 0 <= k < NSLOT -> aslot m ip k = 0 -> aslot m' ip' k <> 0 -> fb <= aslot m' ip' k /\ k ∈ ks;
  tk_got : forall k, k ∈ ks -> aslot m' ip' k <> 0;
  tk_cont : forall bn, 0 <= bn < MAXFILE -> fblock m' ip' bn = fblock m ip bn;
  tk_frame : forall y, y < fb -> (forall k, 0 <= k < NSLOT -> aslot m ip k <> y) -> m' y = m y;
  tk_blank : blank m' fb';
  tk_whole : whole m';
  tk_count : fb' = fb + Z.of_nat (length ks);
}.

Lemma took_refl m fb ip : slots_ok m fb ip -> blank m fb -> whole m -> took m fb ip m fb ip [].
Proof. intros Ho Hb Hw. split; try done; [by destruct ip|by intros k ?%not_elem_of_nil|cbn; lia]. Qed.

Lemma addrs_trans ip0 ip1 ip2 : ip1 = set_iaddrs (iaddrs ip1) ip0 -> ip2 = set_iaddrs (iaddrs ip2) ip1 -> ip2 = set_iaddrs (iaddrs ip2) ip0.
Proof. intros H1 H2. rewrite H2 at 1. rewrite H1 at 1. done. Qed.

Lemma took_trans m0 fb0 ip0 m1 fb1 ip1 m2 fb2 ip2 ks ks' :
  slots_ok m0 fb0 ip0 -> took m0 fb0 ip0 m1 fb1 ip1 ks -> took m1 fb1 ip1 m2 fb2 ip2 ks' -> Forall (fun k => 0 <= k < NSLOT) ks ->
  took m0 fb0 ip0 m2 fb2 ip2 (ks ++ ks').
Proof.
  intros Ho0 [Ho1 Hm1 Hold1 Hnew1 Hg1 Hc1 Hf1 Hb1 Hw1 Hn1] [Ho2 Hm2 Hold2 Hnew2 Hg2 Hc2 Hf2 Hb2 Hw2 Hn2] Hks. split; try done.
  - by apply (addrs_trans ip0 ip1).
  - intros k Hk H0. rewrite Hold2; [by apply Hold1|done|by rewrite Hold1].
  - intros k Hk H0 Hn. destruct (Z.eq_dec (aslot m1 ip1 k) 0) as [E|E].
    + destruct (Hnew2 k Hk E Hn). split; [lia|set_solver].
    + rewrite Hold2 in Hn |- * by done. destruct (Hnew1 k Hk H0 E). split; [done|set_solver].
  - intros k [Hk|Hk]%elem_of_app; [|by apply Hg2]. rewrite Hold2; [by apply Hg1|by eapply Forall_forall in Hks|by apply Hg1].
  - intros bn Hbn. by rewrite Hc2, Hc1.
  - intros y Hy Hne. rewrite Hf2; [by apply Hf1|lia|]. intros k Hk E. destruct (Z.eq_dec (aslot m0 ip0 k) 0) as [E0|E0].
    + destruct (Z.eq_dec (aslot m1 ip1 k) 0) as [E1|E1]; [|destruct (Hnew1 k Hk E0 E1); lia]. (* slot 0 *)
      specialize (Hne k Hk). congruence.
    + apply (Hne k Hk). rewrite <- Hold1 by done. done.
  - rewrite length_app. lia.
Qed.

(** The block [fb] goes to the empty slot [k]. *)
Lemma took_intro m fb ip m' ip' k :
  slots_ok m fb ip -> blank m fb -> nmeta <= fb -> 0 <= k < NSLOT -> aslot m ip k = 0 ->
  inode_wf ip' -> ip' = set_iaddrs (iaddrs ip') ip ->
  (forall j, 0 <= j < NSLOT -> aslot m' ip' j = if j =? k then fb else aslot m ip j) ->
  (forall y, y <> ind ip \/ ind ip = 0 -> m' y = m y) -> whole m' ->
  took m fb ip m' (fb + 1) ip' [k].
Proof.
  intros [Hwf Hsl Hinj] Hb Hfb Hk H0 Hwf' Hmeta Hs Hfr Hw. assert (Hfb0 : 0 < fb) by (change nmeta with 46 in Hfb; lia).
  assert (Hni : forall y, fb <= y -> y <> ind ip \/ ind ip = 0).
  { intros y Hy. destruct (Z.eq_dec (ind ip) 0) as [|Hi]; [by right|left]. rewrite <- (aslot_ind m) in *.
    destruct (Hsl NDIRECT); [done|done|lia]. }
  split; try done.
  - split; [done| |].
    + intros j Hj Hj0. rewrite Hs in Hj0 |- * by done. destruct (j =? k); [lia|]. destruct (Hsl j); [done|done|lia].
    + intros j j' Hj Hj' Hj0 E. rewrite !Hs in E by done. rewrite Hs in Hj0 by done.
      destruct (Z.eqb_spec j k) as [->|Hjk], (Z.eqb_spec j' k) as [->|Hjk']; try done.
      * destruct (Hsl j'); [done|congruence|lia].
      * destruct (Hsl j); [done|congruence|lia].
      * by apply Hinj.
  - intros j Hj Hj0. rewrite Hs by done. destruct (Z.eqb_spec j k) as [->|]; [congruence|done].
  - intros j Hj Hz0 Hj0. rewrite Hs in Hj0 |- * by done. destruct (Z.eqb_spec j k) as [->|]; [split; [lia|by left]|congruence].
  - intros j ->%list_elem_of_singleton. rewrite Hs, Z.eqb_refl by done. lia.
  - intros bn Hbn. destruct (slot_range bn Hbn) as [Hsr Hsn]. unfold fblock. rewrite Hs by done.
    destruct (Z.eqb_spec (slot bn) k) as [->|Hne].
    + rewrite H0, (proj2 (Z.eqb_neq fb 0)) by lia. rewrite Hfr by (apply Hni; lia). rewrite Hb by lia. done.
    + destruct (Z.eqb_spec (aslot m ip (slot bn)) 0) as [|Hn0]; [done|]. apply Hfr. left.
      rewrite <- (aslot_ind m). intros E. apply Hsn. by apply Hinj.
  - intros y Hy Hne. apply Hfr. left. intros ->. by apply (Hne NDIRECT).
  - intros y Hy. rewrite Hfr by (apply Hni; lia). apply Hb. lia.
Qed.

Lemma inode_wf_addrs ip a : inode_wf ip -> length a = Z.to_nat (NDIRECT + 1) -> Forall (fun a => 0 <= a < 2 ^ 32) a -> inode_wf (set_iaddrs a ip).
Proof. intros [] Hl Ha. by split. Qed.

(** An address in the inode. *)
Lemma took_inode m fb ip k :
  slots_ok m fb ip -> blank m fb -> whole m -> nmeta <= fb < FSSIZE -> 0 <= k <= NDIRECT -> aslot m ip k = 0 ->
  took m fb ip m (fb + 1) (set_iaddrs (<[Z.to_nat k := fb]> (iaddrs ip)) ip) [k].
Proof.
  intros Ho Hb Hw Hfb Hk H0. pose proof (so_wf _ _ _ Ho) as Hwf. pose proof (iw_len _ Hwf) as Hl.
  change FSSIZE with 2000 in Hfb. change nmeta with 46 in Hfb.
  apply took_intro; try done; [change nmeta with 46; lia|unfold NSLOT; change NINDIRECT with 256; lia| |].
  - apply inode_wf_addrs; [done|by rewrite length_insert|apply Forall_insert; [apply Hwf|lia]].
  - intros j Hj. unfold aslot, ind at 1 2. cbn [iaddrs set_iaddrs]. unfold aslot in H0.
    change (NDIRECT + 1) with 13 in *. change NDIRECT with 12 in *. change (Z.to_nat 12) with 12%nat.
    destruct (Z.leb_spec j 12) as [Hj12|Hj12].
    + destruct (Z.eqb_spec j k) as [->|Hne]; [apply lookup_total_insert_eq'; rewrite Hl; lia|apply lookup_total_insert_ne'; lia].
    + rewrite (proj2 (Z.eqb_neq j k)) by lia. rewrite (proj2 (Z.leb_le k 12)) in H0 by lia. unfold ind. change (Z.to_nat NDIRECT) with 12%nat.
      destruct (Z.eq_dec k 12) as [->|Hk12]; [|by rewrite lookup_total_insert_ne' by lia].
      change (Z.to_nat 12) with 12%nat in *. rewrite lookup_total_insert_eq' by (rewrite Hl; lia).
      rewrite Hb, get32_zero, H0 by lia. by destruct (fb =? 0).
Qed.

(** An entry of the indirect block. *)
Lemma took_entry m fb ip k :
  slots_ok m fb ip -> blank m fb -> whole m -> nmeta <= fb < FSSIZE -> NDIRECT < k < NSLOT -> ind ip <> 0 -> aslot m ip k = 0 ->
  took m fb ip (fupd m (ind ip) (put32 (m (ind ip)) (4 * (k - (NDIRECT + 1))) fb)) (fb + 1) ip [k].
Proof.
  intros Ho Hb Hw Hfb Hk Hind H0. pose proof (Hw (ind ip)) as Hlen. unfold len in Hlen.
  change FSSIZE with 2000 in Hfb. change nmeta with 46 in Hfb.
  assert (Hoff : 0 <= 4 * (k - (NDIRECT + 1)) <= BSIZE - 4).
  { unfold NSLOT in Hk. change NINDIRECT with 256 in Hk. change NDIRECT with 12 in *. change BSIZE with 1024. lia. }
  apply took_intro; try done; [change nmeta with 46; lia|change NDIRECT with 12 in Hk; lia|apply Ho|by destruct ip| | |].
  - intros j Hj. unfold aslot. change NDIRECT with 12 in *. destruct (Z.leb_spec j 12) as [Hj12|Hj12].
    + by rewrite (proj2 (Z.eqb_neq j k)) by lia.
    + rewrite (proj2 (Z.eqb_neq (ind ip) 0)) by done. rewrite fupd_eq. unfold get32, put32.
      destruct (Z.eqb_spec j k) as [->|Hne].
      * rewrite getn_putn_eq by lia. apply Z.mod_small. change (8 * Z.of_nat 4) with 32. lia.
      * apply getn_putn_ne; lia.
  - intros y [Hy|Hy]; [|done]. by apply fupd_ne.
  - intros y. unfold fupd. destruct (Z.eqb_spec y (ind ip)) as [->|]; [unfold put32; rewrite len_putn|]; apply Hw.
Qed.

Lemma wp_next_block m fi fb (Q : Z -> mk -> Prop) : 0 <= fb < FSSIZE -> Q fb (St m fi (fb + 1)) -> wp next_block (St m fi fb) Q.
Proof.
  intros Hfb HQ. unfold next_block. apply wp_bind, wp_get. apply wp_bind, wp_modify, wp_ret. cbn.
  rewrite u32_small by (change FSSIZE with 2000 in Hfb; lia). done.
Qed.

(** The slots block [bn] of a file needs and does not have. *)
Definition new_ind (ip : inode) (bn : Z) : list Z := if (bn <? NDIRECT) || negb (ind ip =? 0) then [] else [NDIRECT].
Definition new_slots (m : Z -> block) (ip : inode) (bn : Z) : list Z :=
  new_ind ip bn ++ (if aslot m ip (slot bn) =? 0 then [slot bn] else []).

Lemma new_ind_range ip bn : Forall (fun k => 0 <= k < NSLOT) (new_ind ip bn).
Proof. unfold new_ind. destruct (_ || _); repeat constructor; done. Qed.

(** [din.addrs[k]], allocated if need be. *)
Lemma wp_addr m fi fb din k (Q : inode -> mk -> Prop) :
  slots_ok m fb din -> blank m fb -> whole m -> nmeta <= fb -> 0 <= k <= NDIRECT ->
  fb + (if aslot m din k =? 0 then 1 else 0) <= FSSIZE ->
  (forall din' fb', took m fb din m fb' din' (if aslot m din k =? 0 then [k] else []) -> aslot m din' k <> 0 -> Q din' (St m fi fb')) ->
  wp (if iaddrs din !!! Z.to_nat k =? 0 then x <- next_block;; ret (set_iaddrs (<[Z.to_nat k := x]> (iaddrs din)) din) else ret din) (St m fi fb) Q.
Proof.
  intros Ho Hb Hw Hfb Hk Hroom HQ. assert (Ea : iaddrs din !!! Z.to_nat k = aslot m din k) by (unfold aslot; by rewrite (proj2 (Z.leb_le k _)) by lia).
  rewrite Ea. change nmeta with 46 in Hfb. destruct (Z.eqb_spec (aslot m din k) 0) as [E|E].
  - apply wp_bind, wp_next_block; [lia|]. apply wp_ret.
    assert (Ht : took m fb din m (fb + 1) (set_iaddrs (<[Z.to_nat k := fb]> (iaddrs din)) din) [k]) by (apply took_inode; try done; change nmeta with 46; lia).
    apply HQ; [done|]. apply (tk_got _ _ _ _ _ _ _ Ht). by left.
  - apply wp_ret, HQ; [|done]. by apply took_refl.
Qed.

Lemma slot_direct bn : bn < NDIRECT -> slot bn = bn.
Proof. intros Hb. unfold slot. by rewrite (proj2 (Z.ltb_lt _ _)) by done. Qed.

Lemma aslot_entry m ip bn : NDIRECT <= bn -> ind ip <> 0 -> aslot m ip (slot bn) = get32 (m (ind ip)) (4 * (bn - NDIRECT)).
Proof.
  intros Hb Hi. unfold slot, aslot. rewrite (proj2 (Z.ltb_ge _ _)) by done. rewrite (proj2 (Z.leb_gt _ _)), (proj2 (Z.eqb_neq _ _)) by (done || lia).
  f_equal. lia.
Qed.

(** The second half of [file_sector]: the entry of the indirect block. *)
Lemma wp_entry m fi fb din bn (Q : block -> mk -> Prop) :
  slots_ok m fb din -> blank m fb -> whole m -> nmeta <= fb -> ind din <> 0 -> NDIRECT <= bn < MAXFILE ->
  fb + (if aslot m din (slot bn) =? 0 then 1 else 0) <= FSSIZE ->
  (forall m' fb', took m fb din m' fb' din (if aslot m din (slot bn) =? 0 then [slot bn] else []) -> aslot m' din (slot bn) <> 0 ->
     Q (m' (ind din)) (St m' fi fb')) ->
  wp (indirect <- rsect (ind din);;
      if get32 indirect (4 * (bn - NDIRECT)) =? 0
      then x <- next_block;; let indirect := put32 indirect (4 * (bn - NDIRECT)) x in wsect (ind din) indirect;; ret indirect
      else ret indirect) (St m fi fb) Q.
Proof.
  intros Ho Hb Hw Hfb Hi Hbn Hroom HQ. pose proof Ho as [_ Hsl _].
  assert (Hir : nmeta <= ind din < fb) by (rewrite <- (aslot_ind m) in *; by apply Hsl). change nmeta with 46 in *.
  assert (Hle : fb <= FSSIZE) by (destruct (_ =? 0); lia).
  apply wp_bind, wp_rsect; [lia|]. rewrite <- aslot_entry by (done || lia). destruct (Z.eqb_spec (aslot m din (slot bn)) 0) as [E|E].
  - assert (Es : slot bn = bn + 1) by (unfold slot; by rewrite (proj2 (Z.ltb_ge _ _)) by lia).
    pose proof (slot_range bn ltac:(change NDIRECT with 12 in Hbn; lia)) as [Hsr _].
    assert (Ht := took_entry m fb din (slot bn) Ho Hb Hw ltac:(change nmeta with 46; lia) ltac:(lia) Hi E).
    rewrite Es in Ht at 1. replace (bn + 1 - (NDIRECT + 1)) with (bn - NDIRECT) in Ht by lia.
    apply wp_bind, wp_next_block; [lia|]. cbv zeta. apply wp_bind, wp_wsect; [lia|]. apply wp_ret.
    assert (HQ' := HQ _ _ Ht (tk_got _ _ _ _ _ _ _ Ht _ ltac:(by left))). by rewrite fupd_eq in HQ'.
  - apply wp_ret, HQ; [|done]. by apply took_refl.
Qed.

Lemma wp_file_sector m fi fb din bn (Q : inode * Z -> mk -> Prop) :
  slots_ok m fb din -> blank m fb -> whole m -> nmeta <= fb -> 0 <= bn < MAXFILE ->
  fb + Z.of_nat (length (new_slots m din bn)) <= FSSIZE ->
  (forall m' fb' din', took m fb din m' fb' din' (new_slots m din bn) -> aslot m' din' (slot bn) <> 0 ->
     Q (din', aslot m' din' (slot bn)) (St m' fi fb')) ->
  wp (file_sector din bn) (St m fi fb) Q.
Proof.
  intros Ho Hb Hw Hfb Hbn Hroom HQ. unfold file_sector, new_slots, new_ind in *. destruct (Z.ltb_spec bn NDIRECT) as [Hd|Hd]; cbn [orb app] in *.
  - rewrite slot_direct in * by done. apply wp_bind, wp_addr; try done; [lia|by destruct (_ =? 0)|]. intros din' fb' Ht Hn.
    apply wp_ret. replace (iaddrs din' !!! Z.to_nat bn) with (aslot m din' bn) by (unfold aslot; by rewrite (proj2 (Z.leb_le bn _)) by lia).
    by apply HQ.
  - rewrite <- (aslot_ind m) in *. assert (Hn13 : NDIRECT <> slot bn) by (unfold slot; rewrite (proj2 (Z.ltb_ge _ _)) by done; lia).
    assert (Hks : (if negb (aslot m din NDIRECT =? 0) then [] else [NDIRECT]) = if aslot m din NDIRECT =? 0 then [NDIRECT] else []) by (by destruct (_ =? 0)).
    rewrite Hks in *. rewrite length_app in Hroom.
    apply wp_bind, wp_addr; try done; [destruct (aslot m din NDIRECT =? 0); cbn [length] in *; lia|]. intros din1 fb1 Ht1 Hi1. cbv zeta.
    assert (E1 : aslot m din1 (slot bn) = aslot m din (slot bn)).
    { pose proof (slot_range bn Hbn) as [Hsr _]. destruct (Z.eq_dec (aslot m din (slot bn)) 0) as [E|E]; [|by apply (tk_old _ _ _ _ _ _ _ Ht1)].
      destruct (Z.eq_dec (aslot m din1 (slot bn)) 0) as [|E']; [congruence|]. exfalso.
      destruct (tk_new _ _ _ _ _ _ _ Ht1 _ Hsr E E') as [_ Hin]. destruct (aslot m din NDIRECT =? 0); set_solver. }
    rewrite <- E1 in *. rewrite aslot_ind in Hi1. change (iaddrs din1 !!! Z.to_nat NDIRECT) with (ind din1).
    apply wp_bind_assoc, wp_bind. pose proof (tk_count _ _ _ _ _ _ _ Ht1) as Ec. eapply wp_entry; try done; [apply Ht1|apply Ht1|lia|lia| |].
    + destruct (aslot m din1 (slot bn) =? 0); cbn [length] in *; lia.
    + intros m' fb' Ht2 Hn2. apply wp_ret. rewrite <- aslot_entry by done. apply HQ; [|done].
      eapply took_trans; [exact Ho|exact Ht1|exact Ht2|]. destruct (aslot m din NDIRECT =? 0); repeat constructor; done.
Qed.

(** ** A file and its contents *)

(** A byte of the file; past its end the blocks hold zeroes. *)
Definition byte_at (cont : list Z) (x : Z) : Z := u8 (default 0 (cont !! Z.to_nat x)).

(** The slots in use are the ones a file of [n] bytes needs. *)
Definition shaped (m : Z -> block) (ip : inode) (n : Z) : Prop :=
  (forall bn, 0 <= bn < MAXFILE -> aslot m ip (slot bn) = 0 <-> n <= BSIZE * bn) /\ (ind ip = 0 <-> n <= BSIZE * NDIRECT).

Record file_at (m : Z -> block) (fb : Z) (ip : inode) (cont : list Z) : Prop := FileAt {
  fa_ok : slots_ok m fb ip;
  fa_size : isize ip = len cont;
  fa_max : len cont <= MAXFILE * BSIZE;
  fa_shape : shaped m ip (isize ip);
  fa_cont : forall x, 0 <= x < MAXFILE * BSIZE -> fbyte m ip x = byte_at cont x;
}.

(** The blocks a file of [n] bytes takes, the indirect block included. *)
Definition fblocks (n : Z) : Z := (n + BSIZE - 1) / BSIZE + (if n <=? BSIZE * NDIRECT then 0 else 1).

(** What happened to the image when a file grew. *)
Record appended (m : Z -> block) (fb : Z) (ip : inode) (m' : Z -> block) (fb' : Z) (ip' : inode) : Prop := Appended {
  ap_frame : forall y, y < fb -> (forall k, 0 <= k < NSLOT -> aslot m ip k <> y) -> m' y = m y;
  ap_slots : forall k, 0 <= k < NSLOT -> aslot m' ip' k <> 0 -> aslot m' ip' k = aslot m ip k \/ fb <= aslot m' ip' k;
  ap_meta : ip' = set_iaddrs (iaddrs ip') ip;
  ap_blank : blank m' fb';
  ap_whole : whole m';
  ap_mono : fb <= fb';
}.

Lemma appended_refl m fb ip : blank m fb -> whole m -> appended m fb ip m fb ip.
Proof. intros Hb Hw. split; try done; [by left|by destruct ip]. Qed.

Lemma appended_trans m0 fb0 ip0 m1 fb1 ip1 m2 fb2 ip2 :
  nmeta <= fb0 -> appended m0 fb0 ip0 m1 fb1 ip1 -> appended m1 fb1 ip1 m2 fb2 ip2 ->
  (forall k, 0 <= k < NSLOT -> aslot m0 ip0 k <> 0 -> aslot m1 ip1 k = aslot m0 ip0 k) -> appended m0 fb0 ip0 m2 fb2 ip2.
Proof.
  intros Hfb [Hf1 Hs1 Hm1 Hb1 Hw1 Hn1] [Hf2 Hs2 Hm2 Hb2 Hw2 Hn2] Hold. change nmeta with 46 in Hfb. split; try done; [| | |lia].
  - intros y Hy Hne. rewrite Hf2; [by apply Hf1|lia|]. intros k Hk E. destruct (Z.eq_dec (aslot m1 ip1 k) 0) as [E1|E1].
    + destruct (Z.eq_dec (aslot m0 ip0 k) 0) as [E0|E0]; [|rewrite Hold in E by done; by apply (Hne k)]. by apply (Hne k Hk); congruence.
    + destruct (Hs1 k Hk E1) as [E2|E2]; [|lia]. by apply (Hne k Hk); congruence.
  - intros k Hk Hn. destruct (Hs2 k Hk Hn) as [E|E]; [|right; lia]. rewrite E in *. destruct (Hs1 k Hk Hn) as [->|]; [by left|by right].
  - by apply (addrs_trans ip0 ip1).
Qed.

(** The blocks the next chunk of an append takes. *)
Lemma new_slots_count m fb ip cont k :
  file_at m fb ip cont -> 0 < k <= BSIZE - isize ip mod BSIZE -> isize ip + k <= MAXFILE * BSIZE ->
  Z.of_nat (length (new_slots m ip (isize ip / BSIZE))) = fblocks (isize ip + k) - fblocks (isize ip).
Proof.
  intros [_ Hsz _ [Hsh Hin] _] Hk Hend. assert (Hs0 : 0 <= isize ip) by (rewrite Hsz; unfold len; lia).
  unfold new_slots, new_ind, fblocks. change MAXFILE with 268 in *. change BSIZE with 1024 in *. change NDIRECT with 12 in *.
  pose proof (Z.div_mod (isize ip) 1024). pose proof (Z.mod_pos_bound (isize ip) 1024).
  pose proof (Z.div_mod (isize ip + k + 1024 - 1) 1024). pose proof (Z.mod_pos_bound (isize ip + k + 1024 - 1) 1024).
  pose proof (Z.div_mod (isize ip + 1024 - 1) 1024). pose proof (Z.mod_pos_bound (isize ip + 1024 - 1) 1024).
  specialize (Hsh (isize ip / 1024) ltac:(lia)). rewrite length_app.
  destruct (Z.eqb_spec (aslot m ip (slot (isize ip / 1024))) 0) as [E|E], (Z.eqb_spec (ind ip) 0) as [Ei|Ei],
    (Z.ltb_spec (isize ip / 1024) 12), (Z.leb_spec (isize ip) (1024 * 12)), (Z.leb_spec (isize ip + k) (1024 * 12));
    cbn [orb negb length]; try (exfalso; lia); lia.
Qed.

Lemma slots_ok_size m fb ip n : 0 <= n < 2 ^ 32 -> slots_ok m fb ip -> slots_ok m fb (set_isize n ip).
Proof. intros Hn [[] Hs Hi]. by split. Qed.

Lemma byte_at_app cont p x : 0 <= x ->
  byte_at (cont ++ p) x = if (len cont <=? x) && (x <? len cont + len p) then u8 (p !!! Z.to_nat (x - len cont)) else byte_at cont x.
Proof.
  unfold byte_at, len. intros Hx. destruct (Z.leb_spec (Z.of_nat (length cont)) x) as [Hl|Hl]; cbn [andb].
  - rewrite lookup_app_r by lia. destruct (Z.ltb_spec x (Z.of_nat (length cont) + Z.of_nat (length p))) as [Hr|Hr].
    + destruct (lookup_lt_is_Some_2 p (Z.to_nat (x - Z.of_nat (length cont)))) as [v Hv]; [lia|].
      rewrite (list_lookup_total_correct _ _ _ Hv). replace (Z.to_nat x - length cont)%nat with (Z.to_nat (x - Z.of_nat (length cont))) by lia. by rewrite Hv.
    + rewrite !lookup_ge_None_2 by lia. done.
  - by rewrite lookup_app_l by lia.
Qed.

Lemma new_slots_data m ip bn bn' : 0 <= bn -> 0 <= bn' < MAXFILE -> bn' <> bn -> slot bn' ∉ new_slots m ip bn.
Proof.
  intros Hb Hb' Hne. pose proof (slot_range bn' Hb') as [_ Hn]. assert (slot bn' <> slot bn) by (intros E; apply Hne; apply slot_inj; done || lia).
  unfold new_slots, new_ind. destruct (_ || _), (_ =? 0); set_solver.
Qed.

Lemma new_slots_ind m ip bn : 0 <= bn < MAXFILE -> NDIRECT ∈ new_slots m ip bn <-> NDIRECT <= bn /\ ind ip = 0.
Proof.
  intros Hb. pose proof (slot_range bn Hb) as [_ Hn]. unfold new_slots, new_ind.
  destruct (Z.ltb_spec bn NDIRECT), (Z.eqb_spec (ind ip) 0), (aslot m ip (slot bn) =? 0); cbn [orb negb app]; set_solver by lia.
Qed.

Lemma took_shaped m fb ip off m' fb' ip' n :
  let bn := off / BSIZE in
  took m fb ip m' fb' ip' (new_slots m ip bn) -> shaped m ip off -> 0 <= off -> aslot m' ip' (slot bn) <> 0 ->
  0 < n <= BSIZE - off mod BSIZE -> 0 <= bn < MAXFILE -> shaped m' ip' (off + n).
Proof.
  intros bn [_ _ Hold Hnew Hgot _ _ _ _ _] [Hsh Hin] Ho Ha Hn Hbn.
  pose proof (Z.div_mod off BSIZE ltac:(done)) as Hdm. pose proof (Z.mod_pos_bound off BSIZE ltac:(done)) as Hmb. fold bn in Hdm.
  assert (Hkeep : forall k, 0 <= k < NSLOT -> k ∉ new_slots m ip bn -> aslot m' ip' k = aslot m ip k).
  { intros k Hk Hnk. destruct (Z.eq_dec (aslot m ip k) 0) as [E|E]; [|by apply Hold]. destruct (Z.eq_dec (aslot m' ip' k) 0) as [|E']; [congruence|].
    by destruct (Hnew k Hk E E'). }
  unfold shaped. change BSIZE with 1024 in *. split.
  - intros bn' Hbn'. destruct (Z.eq_dec bn' bn) as [->|Hne]; [split; [done|lia]|].
    rewrite Hkeep; [rewrite Hsh by done; lia|apply (slot_range bn' Hbn')|apply new_slots_data; [lia|done|done]].
  - change NDIRECT with 12 in *. destruct (decide (12 ∈ new_slots m ip bn)) as [Hi|Hi].
    + pose proof (Hgot _ Hi) as Hg. change (aslot m' ip' 12) with (ind ip') in Hg. apply (new_slots_ind m ip bn Hbn) in Hi as [Hb12 _].
      change NDIRECT with 12 in Hb12. split; [done|lia].
    + pose proof (Hkeep 12 ltac:(done) Hi) as Hk. change (ind ip' = ind ip) in Hk. rewrite Hk. change 12 with NDIRECT in Hi.
      rewrite (new_slots_ind m ip bn Hbn) in Hi. change NDIRECT with 12 in Hi. destruct (Z.eq_dec (ind ip) 0); lia.
Qed.

(** One turn of the loop of [iappend]. *)
Lemma file_chunk m fb din off cont m' fb' din' chunk :
  let bn := off / BSIZE in let a := aslot m' din' (slot bn) in
  let m2 := fupd m' a (put_bytes chunk (m' a) (off mod BSIZE)) in
  file_at m fb (set_isize off din) cont -> nmeta <= fb ->
  took m fb din m' fb' din' (new_slots m din bn) -> a <> 0 ->
  0 < len chunk <= BSIZE - off mod BSIZE -> off + len chunk <= MAXFILE * BSIZE ->
  file_at m2 fb' (set_isize (off + len chunk) din') (cont ++ chunk) /\ appended m fb din m2 fb' din'.
Proof.
  intros bn a m2 [Hok Hsz Hmax Hsh Hc] Hfb Ht Ha Hch Hend. pose proof Ht as [Hok' Hmeta Hold Hnew Hgot Hcont Hfr Hbl Hwh Hcnt].
  change (isize (set_isize off din)) with off in *. change (shaped m (set_isize off din)) with (shaped m din) in *.
  change (fbyte m (set_isize off din)) with (fbyte m din) in *.
  assert (Ho : 0 <= off) by (rewrite Hsz; unfold len; lia). pose proof (Z.div_mod off BSIZE ltac:(done)) as Hdm. pose proof (Z.mod_pos_bound off BSIZE ltac:(done)) as Hmb.
  assert (Hbn : 0 <= bn < MAXFILE) by (unfold bn; split; [apply Z.div_pos; done || lia|apply Z.div_lt_upper_bound; done || lia]).
  pose proof (slot_range bn Hbn) as [Hsr _]. pose proof Hok' as [Hwf' Hsl' Hinj'].
  pose proof (slot_not_ind m' din' bn Hinj' Hbn Ha) as Hni. fold a in Hni.
  assert (Has : forall k, aslot m2 din' k = aslot m' din' k) by (intros k; by apply aslot_fupd).
  pose proof (took_shaped _ _ _ _ _ _ _ _ Ht Hsh Ho Ha Hch Hbn) as Hshape'.
  assert (Hlen2 : whole m2) by (intros y; unfold m2, fupd; destruct (y =? a); [rewrite len_put_bytes|]; apply Hwh).
  split.
  - split.
    + apply slots_ok_size; [change MAXFILE with 268 in *; change BSIZE with 1024 in *; lia|].
      split; [done|intros k Hk; rewrite Has; by apply Hsl'|intros k k' Hk Hk'; rewrite !Has; by apply Hinj'].
    + cbn. rewrite Hsz. unfold len. rewrite length_app. lia.
    + unfold len in *. rewrite length_app. lia.
    + change (shaped m2 din' (off + len chunk)). destruct Hshape' as [Hs1 Hs2]. split; [|exact Hs2]. intros bn' Hbn'. rewrite Has. by apply Hs1.
    + intros x Hx. change (fbyte m2 (set_isize (off + len chunk) din') x) with (fbyte m2 din' x). unfold m2, a, bn.
      rewrite fbyte_write; [|done|apply Hwh|lia|apply Hbn|lia|lia|done]. rewrite byte_at_app, <- Hsz by lia.
      destruct (_ && _); [done|]. rewrite <- Hc by done. unfold fbyte. rewrite Hcont; [done|].
      split; [apply Z.div_pos; done || lia|apply Z.div_lt_upper_bound; done || lia].
  - split; try done; [| | |lia].
    + intros y Hy Hne. unfold m2. rewrite fupd_ne; [by apply Hfr|]. intros ->. unfold a in Hy.
      destruct (Z.eq_dec (aslot m din (slot bn)) 0) as [E|E]; [destruct (Hnew _ Hsr E Ha); lia|]. apply (Hne _ Hsr). unfold a. by rewrite Hold.
    + intros k Hk. rewrite Has. intros Hn. destruct (Z.eq_dec (aslot m din k) 0) as [E|E]; [right; by apply Hnew|left; by apply Hold].
    + intros y Hy. unfold m2. rewrite fupd_ne; [by apply Hbl|]. destruct (Hsl' _ Hsr Ha). unfold a. lia.
Qed.

(** ** iappend *)

Lemma wp_iappend_loop fuel m fi fb din off cont p (Q : inode * Z -> mk -> Prop) :
  file_at m fb (set_isize off din) cont -> 0 <= isize din < 2 ^ 32 -> blank m fb -> whole m -> nmeta <= fb ->
  off + len p <= MAXFILE * BSIZE -> fb + fblocks (off + len p) - fblocks off <= FSSIZE -> (length p <= fuel)%nat ->
  (forall m' din', let fb' := fb + fblocks (off + len p) - fblocks off in
     file_at m' fb' (set_isize (off + len p) din') (cont ++ p) -> appended m fb din m' fb' din' -> Q (din', off + len p) (St m' fi fb')) ->
  wp (iappend_loop fuel din off p) (St m fi fb) Q.
Proof.
  revert m fb din off cont p. induction fuel as [|fuel IH]; intros m fb din off cont p Hf Hs Hb Hw Hfb Hend Hroom Hfuel HQ;
    (destruct p as [|v p]; [assert (E : fb + fblocks (off + 0) - fblocks off = fb) by (rewrite Z.add_0_r; lia); change (len []) with 0 in *; cbv zeta in HQ; rewrite E, Z.add_0_r, app_nil_r in HQ; apply wp_ret, HQ; [done|by apply appended_refl]|]); [cbn in Hfuel; lia|].
  cbn [iappend_loop]. set (q := v :: p) in *. assert (Hq : 0 < len q) by (unfold len, q; cbn [length]; lia). fold (len q).
  rewrite (proj2 (Z.leb_gt _ _)) by done. pose proof Hf as [Hok Hsz _ _ _]. cbn [isize set_isize] in Hsz.
  assert (Ho : 0 <= off) by (rewrite Hsz; unfold len; lia). pose proof (Z.div_mod off BSIZE ltac:(done)) as Hdm. pose proof (Z.mod_pos_bound off BSIZE ltac:(done)) as Hmb.
  assert (Hbn : 0 <= off / BSIZE < MAXFILE) by (split; [apply Z.div_pos; done || lia|apply Z.div_lt_upper_bound; done || lia]).
  rewrite (proj2 (Z.ltb_lt _ _)) by lia. cbn [negb].
  set (n1 := Z.min (len q) ((off / BSIZE + 1) * BSIZE - off)). assert (Hn1 : 0 < n1 <= BSIZE - off mod BSIZE) by lia.
  assert (Hcl : len (take (Z.to_nat n1) q) = n1) by (unfold len in *; rewrite length_take; lia).
  assert (Hdl : len (drop (Z.to_nat n1) q) = len q - n1) by (unfold len in *; rewrite length_drop; lia).
  pose proof (new_slots_count m fb _ cont n1 Hf Hn1 ltac:(cbn [isize set_isize]; lia)) as Hcnt. cbn [isize set_isize] in Hcnt.
  change (new_slots m (set_isize off din)) with (new_slots m din) in Hcnt.
  assert (Hmono : fblocks (off + n1) <= fblocks (off + len q)).
  { unfold fblocks. pose proof (Z.div_le_mono (off + n1 + BSIZE - 1) (off + len q + BSIZE - 1) BSIZE ltac:(done) ltac:(lia)).
    destruct (Z.leb_spec (off + n1) (BSIZE * NDIRECT)), (Z.leb_spec (off + len q) (BSIZE * NDIRECT)); lia. }
  assert (Hok0 : slots_ok m fb din) by (apply (slots_ok_size _ _ _ (isize din)) in Hok; [by destruct din|done]).
  apply wp_bind, wp_file_sector; try done; [lia|]. intros m1 fb1 din1 Ht Ha.
  destruct (file_chunk m fb din off cont m1 fb1 din1 (take (Z.to_nat n1) q) Hf Hfb Ht Ha ltac:(lia) ltac:(lia)) as [Hf2 Hap2].
  pose proof (so_slot _ _ _ (tk_ok _ _ _ _ _ _ _ Ht) _ (proj1 (slot_range _ Hbn)) Ha) as Har. pose proof (tk_count _ _ _ _ _ _ _ Ht) as Hfb1.
  change nmeta with 46 in *. apply wp_bind, wp_rsect; [lia|]. apply wp_bind, wp_wsect; [lia|].
  replace (off - off / BSIZE * BSIZE) with (off mod BSIZE) by lia. rewrite Hcl in Hf2.
  rewrite u32_small by (change MAXFILE with 268 in *; change BSIZE with 1024 in *; lia).
  eapply IH; [exact Hf2| |apply Hap2|apply Hap2|change nmeta with 46; lia|lia| |unfold len in *; lia|].
  - rewrite (tk_meta _ _ _ _ _ _ _ Ht). exact Hs.
  - rewrite Hdl. replace (off + n1 + (len q - n1)) with (off + len q) by lia. lia.
  - rewrite Hdl. replace (off + n1 + (len q - n1)) with (off + len q) by lia. intros m' din'. rewrite <- app_assoc, take_drop.
    replace (fb1 + fblocks (off + len q) - fblocks (off + n1)) with (fb + fblocks (off + len q) - fblocks off) by lia.
    intros fb' Hf' Hap'. apply HQ; [exact Hf'|]. eapply appended_trans; [done|exact Hap2|exact Hap'|]. intros k Hk Hk0.
    rewrite aslot_fupd; [by apply (tk_old _ _ _ _ _ _ _ Ht)|]. apply slot_not_ind; [exact (so_inj _ _ _ (tk_ok _ _ _ _ _ _ _ Ht))|done|done].
Qed.

(** ** Inodes *)

(** The inodes mkfs has room for: the blocks it gives them hold a few more
    than [NINODES]. *)
Definition MAXINO : Z := ninodeblocks * IPB.
Definition iblk (n : Z) : Z := IBLOCK n mk_superblock.
Definition dino (m : Z -> block) (n : Z) : inode := get_dinode (no_dinode n) (m (iblk n)) (dinode_off n).
Definition put_ino (n : Z) (ip : inode) (m : Z -> block) : Z -> block := fupd m (iblk n) (put_dinode ip (m (iblk n)) (dinode_off n)).

Lemma iblk_range n : 0 <= n < MAXINO -> 32 <= iblk n < 45.
Proof. unfold iblk, IBLOCK. change (inodestart mk_superblock) with 32. change MAXINO with 208. change IPB with 16. intros Hn. pose proof (Z.div_mod n 16). pose proof (Z.mod_pos_bound n 16). lia. Qed.

Lemma dinode_sep n n' : n <> n' -> iblk n = iblk n' -> dinode_off n' + dinode_size <= dinode_off n \/ dinode_off n + dinode_size <= dinode_off n'.
Proof.
  unfold iblk, IBLOCK, dinode_off. change IPB with 16. change dinode_size with 64. intros Hne E.
  pose proof (Z.div_mod n 16). pose proof (Z.div_mod n' 16). lia.
Qed.

Lemma wp_rinode m fi fb n (Q : inode -> mk -> Prop) : 0 <= n < MAXINO -> Q (dino m n) (St m fi fb) -> wp (rinode n) (St m fi fb) Q.
Proof.
  intros Hn HQ. unfold rinode. apply wp_bind, wp_get. cbv zeta. pose proof (iblk_range n Hn). change FSSIZE with 2000 in *.
  apply wp_bind, wp_rsect; [unfold iblk in *; cbn [mk_sb St]; change FSSIZE with 2000; lia|]. by apply wp_ret.
Qed.

Lemma wp_winode m fi fb n ip (Q : unit -> mk -> Prop) : 0 <= n < MAXINO -> Q tt (St (put_ino n ip m) fi fb) -> wp (winode n ip) (St m fi fb) Q.
Proof.
  intros Hn HQ. unfold winode. apply wp_bind, wp_get. cbv zeta. pose proof (iblk_range n Hn).
  apply wp_bind, wp_rsect; [unfold iblk in *; cbn [mk_sb St]; change FSSIZE with 2000; lia|].
  apply wp_wsect; [unfold iblk in *; cbn [mk_sb St]; change FSSIZE with 2000; lia|]. exact HQ.
Qed.

Lemma dino_put m n ip : whole m -> inode_wf ip -> dino (put_ino n ip m) n = with_disk (no_dinode n) ip.
Proof.
  intros Hw Hwf. unfold dino, put_ino. rewrite fupd_eq. pose proof (dinode_off_range n). apply get_put_dinode; [done|lia|]. rewrite Hw. lia.
Qed.

Lemma get_dinode_ext ip d d' o : (forall k x, o <= x -> x + Z.of_nat k <= o + dinode_size -> getn k d x = getn k d' x) -> get_dinode ip d o = get_dinode ip d' o.
Proof.
  change dinode_size with 64. intros H. unfold get_dinode, get16, get32. f_equal; [f_equal; apply H; lia..|apply H; lia|].
  apply get_addrs_ext. change (Z.to_nat (NDIRECT + 1)) with 13%nat. intros x Hx.
  apply H; lia.
Qed.

Lemma dino_put_ne m n n' ip : whole m -> inode_wf ip -> n' <> n -> dino (put_ino n ip m) n' = dino m n'.
Proof.
  intros Hw Hwf Hne. unfold dino, put_ino, fupd. destruct (Z.eqb_spec (iblk n') (iblk n)) as [E|E]; [|done]. rewrite <- E. apply get_dinode_ext.
  intros k x Hx Hx'. pose proof (dinode_off_range n). apply put_dinode_frame; [done|lia|rewrite Hw; lia|].
  destruct (dinode_sep n n') as [|]; [done|done|lia|lia].
Qed.

Lemma whole_put_ino n ip m : whole m -> whole (put_ino n ip m).
Proof. intros Hw y. unfold put_ino, fupd. destruct (y =? iblk n); [rewrite len_put_dinode|]; apply Hw. Qed.

(** The slots of a file depend on its indirect block only. *)
Lemma aslot_frame m m' ip k : (ind ip <> 0 -> m' (ind ip) = m (ind ip)) -> aslot m' ip k = aslot m ip k.
Proof. intros Hi. unfold aslot. destruct (k <=? NDIRECT); [done|]. destruct (Z.eqb_spec (ind ip) 0); [done|]. by rewrite Hi. Qed.

(** A file stays what it is while its own blocks do. *)
Lemma file_at_frame m fb m' fb' ip cont :
  file_at m fb ip cont -> (forall k, 0 <= k < NSLOT -> aslot m ip k <> 0 -> m' (aslot m ip k) = m (aslot m ip k)) -> fb <= fb' -> file_at m' fb' ip cont.
Proof.
  intros [[Hwf Hs Hi] Hsz Hmax [Hsh Hin] Hc] Hm Hfb.
  assert (Ha : forall k, aslot m' ip k = aslot m ip k) by (intros k; apply aslot_frame; rewrite <- (aslot_ind m); by apply Hm).
  split; try done.
  - split; [done| |intros k k'; rewrite !Ha; apply Hi]. intros k Hk. rewrite Ha. intros H0. destruct (Hs k Hk H0). lia.
  - split; [|done]. intros bn Hbn. rewrite Ha. by apply Hsh.
  - intros x Hx. rewrite <- Hc by done. unfold fbyte. f_equal. unfold fblock. rewrite Ha.
    destruct (Z.eqb_spec (aslot m ip (slot (x / BSIZE))) 0); [done|]. apply Hm; [|done]. apply slot_range.
    split; [apply Z.div_pos; done || lia|apply Z.div_lt_upper_bound; done || lia].
Qed.

(** ** The invariant of mkfs *)

Definition ino (n : nat) : Z := Z.of_nat n + 1.
(** The fields mkfs gives an inode, beside its size and blocks. *)
Definition plain (ty n : Z) (ip : inode) : Prop := ip = Inode ROOTDEV n 1 true true ty 0 0 1 (isize ip) (iaddrs ip).

(** The files so far, with their types and contents; inode numbers count from 1. *)
Record mk_inv (m : Z -> block) (fb : Z) (fs : list (Z * list Z)) : Prop := MkInv {
  mi_count : 1 + Z.of_nat (length fs) <= MAXINO;
  mi_file : forall n ty c, fs !! n = Some (ty, c) -> file_at m fb (dino m (ino n)) c /\ plain ty (ino n) (dino m (ino n));
  mi_sep : forall n n' k k', (n < length fs)%nat -> (n' < length fs)%nat -> n <> n' -> 0 <= k < NSLOT -> 0 <= k' < NSLOT ->
    aslot m (dino m (ino n)) k <> 0 -> aslot m (dino m (ino n)) k <> aslot m (dino m (ino n')) k';
  mi_free : forall n, 1 + Z.of_nat (length fs) <= n < MAXINO -> itype (dino m n) = 0;
  mi_fb : nmeta <= fb <= FSSIZE;
  mi_blank : blank m fb;
  mi_whole : whole m;
  mi_sb : m 1 = sb_block mk_superblock;
  mi_log : forall x, 2 <= x < 32 -> m x = blk_zero;
}.

Lemma ino_range (fs : list (Z * list Z)) n : 1 + Z.of_nat (length fs) <= MAXINO -> (n < length fs)%nat -> 0 <= ino n < MAXINO.
Proof. unfold ino. lia. Qed.

Lemma plain_with_disk ty n ip : plain ty n ip -> with_disk (no_dinode n) ip = ip.
Proof. unfold plain. intros ->. done. Qed.

(** A block that is not a data block is in no slot. *)
Lemma low_not_slot m fb ip y : slots_ok m fb ip -> 0 < y < nmeta -> forall k, 0 <= k < NSLOT -> aslot m ip k <> y.
Proof. intros [_ Hs _] Hy k Hk E. destruct (Hs k Hk); lia. Qed.

(** The invariant when file [n] is replaced or added, and the other files and
    the meta-data are left alone. *)
Lemma mk_inv_set m fb fs n ty c m' fb' fs' :
  mk_inv m fb fs -> let ip := dino m' (ino n) in
  (forall n', n' <> n -> fs' !! n' = fs !! n') -> fs' !! n = Some (ty, c) -> (length fs <= length fs')%nat -> 1 + Z.of_nat (length fs') <= MAXINO ->
  file_at m' fb' ip c -> plain ty (ino n) ip -> (forall x, x <> ino n -> 0 <= x < MAXINO -> dino m' x = dino m x) ->
  (forall n' k, n' <> n -> (n' < length fs)%nat -> 0 <= k < NSLOT -> let y := aslot m (dino m (ino n')) k in y <> 0 ->
     m' y = m y /\ forall k', 0 <= k' < NSLOT -> aslot m' ip k' <> y) ->
  (forall x, 0 < x < 32 -> m' x = m x) -> fb <= fb' <= FSSIZE -> blank m' fb' -> whole m' -> mk_inv m' fb' fs'.
Proof.
  intros [Hct Hfile Hsep Hfree Hfb Hbl Hwh Hsb Hlog] ip Heq Hn Hlen Hct' Hf Hpl Hdo Hoth Hlow Hfb' Hbl' Hwh'.
  assert (Hin : forall n', n' <> n -> (n' < length fs')%nat -> (n' < length fs)%nat /\ dino m' (ino n') = dino m (ino n')).
  { intros n' Hne Hl. split; [|apply Hdo; unfold ino; lia]. apply lookup_lt_is_Some. rewrite <- Heq by done. by apply lookup_lt_is_Some. }
  assert (Ha : forall n' k, n' <> n -> (n' < length fs)%nat -> aslot m' (dino m (ino n')) k = aslot m (dino m (ino n')) k).
  { intros n' k Hne Hl. apply aslot_frame. rewrite <- (aslot_ind m). intros H0. by apply (Hoth n' NDIRECT). }
  assert (Hlt : forall n' : nat, (n' < length fs')%nat -> fs' !! n' <> None) by (intros n' Hl E; apply lookup_ge_None in E; lia).
  split; try done.
  - intros n' ty' c' Hn'. destruct (decide (n' = n)) as [->|Hne]; [rewrite Hn in Hn'; by injection Hn' as <- <-|].
    assert (Hl := lookup_lt_Some _ _ _ Hn'). destruct (Hin n' Hne Hl) as [Hl' ->]. rewrite Heq in Hn' by done.
    destruct (Hfile n' ty' c' Hn') as [Hf' Hp']. split; [|done]. eapply file_at_frame; [exact Hf'| |lia]. intros k Hk H0. by apply (Hoth n' k).
  - intros n1 n2 k k' H1 H2 Hne Hk Hk'. destruct (decide (n1 = n)) as [->|Hn1], (decide (n2 = n)) as [->|Hn2]; [done|..].
    + destruct (Hin n2 Hn2 H2) as [Hl2 ->]. rewrite Ha by done. intros H0 E. by apply (proj2 (Hoth n2 k' Hn2 Hl2 Hk' ltac:(rewrite <- E; exact H0)) k).
    + destruct (Hin n1 Hn1 H1) as [Hl1 ->]. rewrite Ha by done. intros H0 E. by apply (proj2 (Hoth n1 k Hn1 Hl1 Hk H0) k').
    + destruct (Hin n1 Hn1 H1) as [Hl1 ->], (Hin n2 Hn2 H2) as [Hl2 ->]. rewrite !Ha by done. by apply Hsep.
  - intros x Hx. rewrite Hdo; [apply Hfree; lia| |lia]. assert (n < length fs')%nat by (by apply lookup_lt_Some in Hn). unfold ino. lia.
  - lia.
  - rewrite Hlow by lia. done.
  - intros x Hx. rewrite Hlow by lia. by apply Hlog.
Qed.

(** After an append to file [n], and the write of its inode. *)
Lemma mk_inv_append m fb fs n ty c m1 fb1 din1 size c' :
  mk_inv m fb fs -> fs !! n = Some (ty, c) -> let ip' := set_isize size din1 in
  file_at m1 fb1 ip' c' -> appended m fb (dino m (ino n)) m1 fb1 din1 -> fb1 <= FSSIZE -> mk_inv (put_ino (ino n) ip' m1) fb1 (<[n := (ty, c')]> fs).
Proof.
  intros Hinv Hn ip' Hf1 [Hfr Hsl Hmeta Hbl1 Hwh1 Hmono] Hfb1. pose proof Hinv as [Hct Hfile Hsep _ Hfb _ _ _ _].
  assert (Hnl : (n < length fs)%nat) by (by apply lookup_lt_Some in Hn). pose proof (ino_range fs n Hct Hnl) as Hir. pose proof (iblk_range _ Hir) as Hib.
  destruct (Hfile n ty c Hn) as [Hf Hpl]. pose proof (fa_ok _ _ _ _ Hf1) as Hok1. pose proof (so_wf _ _ _ Hok1) as Hwf'.
  assert (Hlow : forall y, 0 < y < nmeta -> m1 y = m y).
  { intros y Hy. apply Hfr; [lia|]. exact (low_not_slot _ _ _ y (fa_ok _ _ _ _ Hf) Hy). }
  assert (Hpl' : plain ty (ino n) ip') by (unfold plain, ip' in *; rewrite Hmeta, Hpl; done).
  assert (Hself : dino (put_ino (ino n) ip' m1) (ino n) = ip') by (rewrite dino_put by done; by apply (plain_with_disk ty)).
  assert (Hdata : forall y, nmeta <= y -> put_ino (ino n) ip' m1 y = m1 y) by (intros y Hy; apply fupd_ne; change nmeta with 46 in Hy; lia).
  assert (Hsd : forall k, 0 <= k < NSLOT -> aslot m1 ip' k <> 0 -> put_ino (ino n) ip' m1 (aslot m1 ip' k) = m1 (aslot m1 ip' k)).
  { intros k Hk H0. apply Hdata, (so_slot _ _ _ Hok1); done. }
  assert (Has : forall k, aslot (put_ino (ino n) ip' m1) ip' k = aslot m1 ip' k) by (intros k; apply aslot_frame; rewrite <- (aslot_ind m1); by apply Hsd).
  change nmeta with 46 in *. eapply (mk_inv_set m fb fs n ty c'); rewrite ?Hself; try done.
  - intros n' Hne. by rewrite list_lookup_insert_ne.
  - by rewrite list_lookup_insert_eq.
  - by rewrite length_insert.
  - by rewrite length_insert.
  - by eapply file_at_frame.
  - intros x Hne Hr. rewrite dino_put_ne by done. unfold dino. rewrite Hlow; [done|]. pose proof (iblk_range x Hr). lia.
  - intros n' k Hne Hl Hk y Hy. destruct (lookup_lt_is_Some_2 fs n' Hl) as [[ty' c''] Hn']. destruct (Hfile n' ty' c'' Hn') as [Hf' _].
    pose proof (so_slot _ _ _ (fa_ok _ _ _ _ Hf') k Hk Hy) as Hyr. fold y in Hyr. change nmeta with 46 in Hyr. rewrite Hdata by lia. split.
    + apply Hfr; [lia|]. intros k' Hk' E. by apply (Hsep n' n k k').
    + intros k' Hk'. rewrite Has. intros E. change (aslot m1 ip' k') with (aslot m1 din1 k') in E.
      destruct (Hsl k' Hk') as [E'|E']; [congruence| |lia]. apply (Hsep n' n k k'); try done. fold y. congruence.
  - intros x Hx. rewrite <- Hlow by lia. apply fupd_ne. lia.
  - intros x Hx. rewrite Hdata by lia. by apply Hbl1.
  - by apply whole_put_ino.
Qed.

(** [iappend] on file [n]. *)
Lemma wp_iappend m fi fb fs n ty c p (Q : unit -> mk -> Prop) :
  mk_inv m fb fs -> fs !! n = Some (ty, c) -> len c + len p <= MAXFILE * BSIZE ->
  let fb' := fb + fblocks (len c + len p) - fblocks (len c) in fb' <= FSSIZE ->
  (forall m', mk_inv m' fb' (<[n := (ty, c ++ p)]> fs) -> Q tt (St m' fi fb')) -> wp (iappend (ino n) p) (St m fi fb) Q.
Proof.
  intros Hinv Hn Hmax fb' Hroom HQ. destruct (mi_file _ _ _ Hinv n ty c Hn) as [Hf _]. pose proof (fa_size _ _ _ _ Hf) as Hsz.
  unfold iappend. apply wp_bind, wp_rinode; [apply (ino_range fs); [apply Hinv|by apply lookup_lt_Some in Hn]|].
  pose proof (iw_size _ (so_wf _ _ _ (fa_ok _ _ _ _ Hf))) as Hs32. set (din := dino m (ino n)) in *.
  apply wp_bind. eapply (wp_iappend_loop _ _ _ _ _ _ c); [by destruct din|done|apply Hinv|apply Hinv|apply Hinv|by rewrite Hsz|by rewrite Hsz|lia|].
  intros m1 din1. rewrite Hsz. fold fb'. intros fb1 Hf1 Hap. apply wp_winode; [apply (ino_range fs); [apply Hinv|by apply lookup_lt_Some in Hn]|].
  apply HQ. by eapply (mk_inv_append m fb fs n ty c).
Qed.

(** ** ialloc *)

Lemma getn_zero n o : getn n blk_zero o = 0.
Proof.
  unfold getn. rewrite (ldn_agree n _ (fun _ => 0)).
  - revert o. induction n as [|n IH]; intros o; [done|]. rewrite ldn_S, IH. done.
  - intros x _. unfold ld8, blk_mem, blk_zero. destruct (x <? 0); [done|].
    destruct (replicate _ 0 !! _) as [v|] eqn:E; [|done]. apply lookup_replicate in E as [-> _]. done.
Qed.

Definition fresh_inode (ty n : Z) : inode := set_isize 0 (set_inlink 1 (set_itype ty (no_dinode n))).

Lemma fresh_slots m ty n k : 0 <= k -> aslot m (fresh_inode ty n) k = 0.
Proof.
  intros Hk. unfold aslot, ind. cbn [iaddrs fresh_inode set_isize set_inlink set_itype no_dinode].
  change (Z.to_nat (NDIRECT + 1)) with 13%nat. change NDIRECT with 12. change (Z.to_nat 12) with 12%nat.
  destruct (Z.leb_spec k 12); [|done]. apply list_lookup_total_correct. apply lookup_replicate. split; [done|lia].
Qed.

Lemma file_at_fresh m fb ty n : - 2 ^ 15 <= ty < 2 ^ 15 -> file_at m fb (fresh_inode ty n) [].
Proof.
  intros Hty. split.
  - split; [split; try done|..].
    + cbn. apply Forall_replicate. done.
    + intros k Hk H0. rewrite fresh_slots in H0 by lia. done.
    + intros k k' Hk Hk' H0. rewrite fresh_slots in H0 by lia. done.
  - done.
  - done.
  - change (isize (fresh_inode ty n)) with 0. split.
    + intros bn Hbn. rewrite fresh_slots by (apply slot_range; done). change BSIZE with 1024. lia.
    + rewrite <- (aslot_ind m), fresh_slots by done. done.
  - intros x Hx. unfold fbyte, fblock. rewrite fresh_slots; [apply getn_zero|]. apply slot_range.
    split; [apply Z.div_pos; done || lia|apply Z.div_lt_upper_bound; done || lia].
Qed.

Lemma wp_mk_ialloc m fb fs ty (Q : Z -> mk -> Prop) :
  mk_inv m fb fs -> 2 + Z.of_nat (length fs) <= MAXINO -> - 2 ^ 15 <= ty < 2 ^ 15 ->
  (forall m', mk_inv m' fb (fs ++ [(ty, [])]) -> Q (ino (length fs)) (St m' (2 + Z.of_nat (length fs)) fb)) ->
  wp (mk_ialloc ty) (St m (1 + Z.of_nat (length fs)) fb) Q.
Proof.
  intros Hinv Hct Hty HQ. unfold mk_ialloc, next_inode. pose proof Hinv as [Hct0 Hfile Hsep _ Hfb Hbl Hwh _ _].
  apply wp_bind, wp_bind, wp_get. apply wp_bind, wp_modify, wp_ret. cbn [img nsect freeinode freeblock mk_sb St].
  change (Mk m FSSIZE (u32 (1 + Z.of_nat (length fs) + 1)) fb mk_superblock) with (St m (u32 (1 + Z.of_nat (length fs) + 1)) fb).
  change MAXINO with 208 in *. rewrite u32_small by lia. replace (1 + Z.of_nat (length fs)) with (ino (length fs)) by (unfold ino; lia).
  set (n := ino (length fs)). assert (Hn : 0 <= n < MAXINO) by (unfold n, ino; change MAXINO with 208; lia). pose proof (iblk_range n Hn) as Hib.
  apply wp_bind, wp_winode; [done|]. apply wp_ret. replace (n + 1) with (2 + Z.of_nat (length fs)) by (unfold n, ino; lia). apply HQ.
  change (set_isize 0 (set_inlink 1 (set_itype ty (no_dinode n)))) with (fresh_inode ty n).
  pose proof (fun m => file_at_fresh m fb ty n Hty) as Hfr. pose proof (so_wf _ _ _ (fa_ok _ _ _ _ (Hfr m))) as Hwf.
  assert (Hself : dino (put_ino n (fresh_inode ty n) m) n = fresh_inode ty n) by (rewrite dino_put by done; done).
  assert (Hne : forall y, (y < 32 \/ nmeta <= y) -> put_ino n (fresh_inode ty n) m y = m y) by (intros y Hy; apply fupd_ne; change nmeta with 46 in Hy; lia).
  eapply (mk_inv_set m fb fs (length fs) ty []); fold n; rewrite ?Hself; try done.
  - intros n' Hn'. destruct (decide (n' < length fs)%nat); [by rewrite lookup_app_l|].
    rewrite (lookup_ge_None_2 fs) by lia. apply lookup_ge_None_2. rewrite length_app. cbn. lia.
  - by rewrite lookup_app_r, Nat.sub_diag by done.
  - rewrite length_app. lia.
  - rewrite length_app. change MAXINO with 208. cbn. lia.
  - intros x Hx Hr. by apply dino_put_ne.
  - intros n' k Hn' Hl Hk y Hy. destruct (lookup_lt_is_Some_2 fs n' Hl) as [[ty' c'] Hf]. destruct (Hfile n' ty' c' Hf) as [Hf' _].
    split; [apply Hne; right; by apply (so_slot _ _ _ (fa_ok _ _ _ _ Hf'))|]. intros k' Hk'. rewrite fresh_slots by lia. done.
  - intros x Hx. apply Hne. lia.
  - lia.
  - intros x Hx. rewrite Hne by lia. by apply Hbl.
  - by apply whole_put_ino.
Qed.

(** ** The files on the command line *)

Lemma fblocks_mono a b : a <= b -> fblocks a <= fblocks b.
Proof.
  intros Hab. unfold fblocks. pose proof (Z.div_le_mono (a + BSIZE - 1) (b + BSIZE - 1) BSIZE ltac:(done) ltac:(lia)).
  destruct (Z.leb_spec a (BSIZE * NDIRECT)), (Z.leb_spec b (BSIZE * NDIRECT)); lia.
Qed.

Lemma len_app (l k : list Z) : len (l ++ k) = len l + len k.
Proof. unfold len. rewrite length_app. lia. Qed.

Lemma wp_append_chunks chunks m fi fb fs n ty c (Q : unit -> mk -> Prop) :
  mk_inv m fb fs -> fs !! n = Some (ty, c) -> len (c ++ concat chunks) <= MAXFILE * BSIZE ->
  let fb' := fb + fblocks (len (c ++ concat chunks)) - fblocks (len c) in fb' <= FSSIZE ->
  (forall m', mk_inv m' fb' (<[n := (ty, c ++ concat chunks)]> fs) -> Q tt (St m' fi fb')) -> wp (append_chunks (ino n) chunks) (St m fi fb) Q.
Proof.
  revert m fb fs c. induction chunks as [|p chunks IH]; intros m fb fs c Hinv Hn Hmax fb' Hroom HQ; cbn [append_chunks concat] in *.
  - apply wp_ret. unfold fb' in HQ. rewrite app_nil_r, list_insert_id in HQ by done.
    replace (fb + fblocks (len c) - fblocks (len c)) with fb in HQ by lia. by apply HQ.
  - assert (Hl : (n < length fs)%nat) by (by apply lookup_lt_Some in Hn). unfold fb' in *. rewrite app_assoc in *.
    pose proof (len_app (c ++ p) (concat chunks)) as E1. pose proof (len_app c p) as E2.
    assert (0 <= len (concat chunks)) by (unfold len; lia). pose proof (fblocks_mono (len (c ++ p)) (len ((c ++ p) ++ concat chunks)) ltac:(lia)).
    apply wp_bind. eapply wp_iappend; [done|done|lia|rewrite <- E2; lia|]. intros m' Hinv'. rewrite <- E2 in Hinv' |- *.
    eapply IH; [exact Hinv'|by apply list_lookup_insert_eq|done|lia|]. intros m2 Hinv2. rewrite list_insert_insert_eq in Hinv2.
    replace (fb + fblocks (len (c ++ p)) - fblocks (len c) + fblocks (len ((c ++ p) ++ concat chunks)) - fblocks (len (c ++ p)))
      with (fb + fblocks (len ((c ++ p) ++ concat chunks)) - fblocks (len c)) in * by lia. by apply HQ.
Qed.

(** The directory entries of files numbered from [n] on. *)
Fixpoint entries (n : Z) (files : list (list Z * list Z)) : list Z :=
  match files with
  | [] => []
  | f :: r => dirent_bytes n f.1 ++ entries (n + 1) r
  end.
Definition root_dir (files : list (list Z * list Z)) : list Z := dirent_bytes ROOTINO [46] ++ dirent_bytes ROOTINO [46; 46] ++ entries 2 files.
Definition fs_of (files : list (list Z * list Z)) : list (Z * list Z) := (T_DIR, root_dir files) :: ((fun f => (T_FILE, f.2)) <$> files).
Fixpoint data_blocks (files : list (list Z * list Z)) : Z :=
  match files with
  | [] => 0
  | f :: r => fblocks (len f.2) + data_blocks r
  end.
(** The first block that is free once [files] are in the image. *)
Definition first_free (files : list (list Z * list Z)) : Z := nmeta + fblocks (len (root_dir files)) + data_blocks files.

Lemma len_dirent n nm : len (dirent_bytes n nm) = 16.
Proof. unfold len, dirent_bytes. rewrite length_app. cbn [length]. rewrite rd_bytes_length. done. Qed.

Lemma entries_app n l f : entries n (l ++ [f]) = entries n l ++ dirent_bytes (n + Z.of_nat (length l)) f.1.
Proof.
  revert n. induction l as [|a l IH]; intros n; cbn [entries app length].
  - by rewrite app_nil_r, Z.add_0_r.
  - rewrite IH, app_assoc. do 2 f_equal. lia.
Qed.

Lemma root_dir_app files f : root_dir (files ++ [f]) = root_dir files ++ dirent_bytes (ino (S (length files))) f.1.
Proof. unfold root_dir. rewrite entries_app, !app_assoc. do 2 f_equal. unfold ino. lia. Qed.

Lemma len_entries n files : len (entries n files) = 16 * Z.of_nat (length files).
Proof. revert n. induction files as [|f files IH]; intros n; cbn [entries length]; [done|]. rewrite len_app, len_dirent, IH. lia. Qed.

Lemma len_root_dir files : len (root_dir files) = 32 + 16 * Z.of_nat (length files).
Proof. unfold root_dir. rewrite !len_app, !len_dirent, len_entries. lia. Qed.

Lemma data_blocks_app files f : data_blocks (files ++ [f]) = data_blocks files + fblocks (len f.2).
Proof. induction files as [|g files IH]; cbn [data_blocks app]; lia. Qed.

Lemma fblocks_nonneg n : 0 <= n -> 0 <= fblocks n.
Proof. intros Hn. unfold fblocks. pose proof (Z.div_pos (n + BSIZE - 1) BSIZE ltac:(change BSIZE with 1024; lia) ltac:(done)). destruct (_ <=? _); lia. Qed.

Lemma length_fs_of files : length (fs_of files) = S (length files).
Proof. cbn. by rewrite length_fmap. Qed.

(** What the host must have for an argument. *)
Definition given_file (host : list Z -> option (list (list Z))) (arg : list Z) (f : list Z * list Z) : Prop :=
  SLASH ∉ short_of arg /\ (exists chunks, host arg = Some chunks /\ f = (skip_under (short_of arg), concat chunks)) /\ len f.2 <= MAXFILE * BSIZE.

Lemma wp_add_file host arg m files f (Q : unit -> mk -> Prop) :
  mk_inv m (first_free files) (fs_of files) -> given_file host arg f -> 3 + Z.of_nat (length files) <= MAXINO ->
  first_free (files ++ [f]) <= FSSIZE ->
  (forall m', mk_inv m' (first_free (files ++ [f])) (fs_of (files ++ [f])) -> Q tt (St m' (3 + Z.of_nat (length files)) (first_free (files ++ [f])))) ->
  wp (add_file host ROOTINO arg) (St m (2 + Z.of_nat (length files)) (first_free files)) Q.
Proof.
  intros Hinv (Hsl & (chunks & Hh & ->) & Hmax) Hct Hroom HQ. cbn [fst snd] in *. unfold add_file. rewrite bool_decide_eq_false_2 by done. rewrite Hh. cbv zeta.
  set (nm := skip_under (short_of arg)) in *. set (c := concat chunks) in *.
  replace (2 + Z.of_nat (length files)) with (1 + Z.of_nat (length (fs_of files))) by (rewrite length_fs_of; lia).
  apply wp_bind, wp_mk_ialloc; [done|rewrite length_fs_of; lia|done|]. intros m1 Hinv1. rewrite length_fs_of.
  change ROOTINO with (ino 0). pose proof (len_root_dir files) as Hr. change MAXINO with 208 in Hct.
  pose proof (root_dir_app files (nm, c)) as Er. cbn [fst] in Er. pose proof (f_equal len Er) as El. rewrite len_app, len_dirent in El.
  pose proof (data_blocks_app files (nm, c)) as Ed. cbn [snd] in Ed. unfold first_free in *. rewrite Ed in *. rewrite El in *.
  pose proof (fblocks_nonneg (len c) ltac:(unfold len; lia)).
  apply wp_bind. eapply wp_iappend; [exact Hinv1|done|rewrite len_dirent; change MAXFILE with 268; change BSIZE with 1024; lia|rewrite len_dirent; lia|].
  intros m2 Hinv2. rewrite len_dirent in Hinv2 |- *. rewrite <- Er in Hinv2.
  eapply (wp_append_chunks _ _ _ _ _ _ T_FILE []); [exact Hinv2| |exact Hmax|change (fblocks (len [])) with 0; cbn [app]; fold c; lia|].
  - change (<[0%nat:=(T_DIR, root_dir (files ++ [(nm, c)]))]> (fs_of files ++ [(T_FILE, [])]) !! S (length files)) with ((((fun f : list Z * list Z => (T_FILE, f.2)) <$> files) ++ [(T_FILE, [])]) !! length files).
    rewrite lookup_app_r by (by rewrite length_fmap). by rewrite length_fmap, Nat.sub_diag.
  - cbn [app]. fold c. change (fblocks (len [])) with 0. intros m3 Hinv3.
    replace (nmeta + fblocks (len (root_dir files)) + data_blocks files + fblocks (len (root_dir files) + 16) - fblocks (len (root_dir files)) + fblocks (len c) - 0)
      with (nmeta + fblocks (len (root_dir files) + 16) + (data_blocks files + fblocks (len c))) in * by lia.
    replace (2 + Z.of_nat (S (length files))) with (3 + Z.of_nat (length files)) by lia. apply HQ.
    replace (fs_of (files ++ [(nm, c)])) with (<[S (length files):=(T_FILE, c)]> (<[0%nat:=(T_DIR, root_dir (files ++ [(nm, c)]))]> (fs_of files ++ [(T_FILE, [])]))); [done|].
    unfold fs_of. cbn [app insert list_insert]. rewrite fmap_app. cbn. f_equal.
    etrans; [apply (insert_app_r_alt _ [(T_FILE, [])]); by rewrite length_fmap|]. by rewrite length_fmap, Nat.sub_diag.
Qed.

Lemma first_free_mono files more : first_free files <= first_free (files ++ more).
Proof.
  revert files. induction more as [|f more IH]; intros files; [by rewrite app_nil_r|]. specialize (IH (files ++ [f])). rewrite <- app_assoc in IH. cbn [app] in IH.
  etrans; [|exact IH]. unfold first_free. rewrite data_blocks_app, !len_root_dir, length_app. cbn [length].
  pose proof (fblocks_nonneg (len f.2) ltac:(unfold len; lia)). pose proof (fblocks_mono (32 + 16 * Z.of_nat (length files)) (32 + 16 * Z.of_nat (length files + 1)) ltac:(lia)). lia.
Qed.

Lemma wp_add_files host args more m files (Q : unit -> mk -> Prop) :
  mk_inv m (first_free files) (fs_of files) -> Forall2 (given_file host) args more ->
  2 + Z.of_nat (length (files ++ more)) <= MAXINO -> first_free (files ++ more) <= FSSIZE ->
  (forall m' fi, mk_inv m' (first_free (files ++ more)) (fs_of (files ++ more)) -> Q tt (St m' fi (first_free (files ++ more)))) ->
  wp (add_files host ROOTINO args) (St m (2 + Z.of_nat (length files)) (first_free files)) Q.
Proof.
  intros Hinv Hg. revert m files Hinv. induction Hg as [|arg f args more Hf Hg IH]; intros m files Hinv Hct Hroom HQ; cbn [add_files].
  - rewrite app_nil_r in HQ. apply wp_ret. by apply HQ.
  - assert (E : files ++ f :: more = (files ++ [f]) ++ more) by (by rewrite <- app_assoc). rewrite E in *. rewrite !length_app in Hct. cbn [length] in Hct.
    pose proof (first_free_mono (files ++ [f]) more). apply wp_bind. eapply wp_add_file; [done|exact Hf|lia|lia|]. intros m' Hinv'.
    replace (3 + Z.of_nat (length files)) with (2 + Z.of_nat (length (files ++ [f]))) by (rewrite length_app; cbn; lia).
    apply IH; [done|rewrite !length_app; cbn [length]; lia|done|done].
Qed.

(** ** main *)

(** The empty image. *)
Lemma mk_inv_empty m : (forall x, x <> 1 -> m x = blk_zero) -> m 1 = sb_block mk_superblock -> mk_inv m nmeta [].
Proof.
  intros Hz H1. split; try done; cbn [length].
  - intros n n' k k' Hn. cbn in Hn. lia.
  - intros n Hn. change (1 + Z.of_nat 0) with 1 in Hn. pose proof (iblk_range n ltac:(lia)). unfold dino. cbn [itype get_dinode]. rewrite Hz by lia.
    unfold get16. by rewrite getn_zero.
  - intros x Hx. apply Hz. change nmeta with 46 in Hx. lia.
  - intros x. destruct (Z.eq_dec x 1) as [->|Hx]; [|rewrite Hz by done; apply len_zero]. rewrite H1. unfold sb_block, put32. cbv zeta. rewrite !len_putn. apply len_zero.
  - intros x Hx. apply Hz. lia.
Qed.

Lemma wp_mk_zero (Q : unit -> mk -> Prop) :
  (forall m, (forall x, m x = blk_zero) -> Q tt (St m 1 nmeta)) ->
  wp (for_loop (Z.to_nat FSSIZE) 0 (fun i => wsect i zeroes)) (Mk (fun _ => zeroes) 0 1 nmeta mk_superblock) Q.
Proof.
  intros HQ. apply (wp_for_loop (fun i s => s = Mk (img s) i 1 nmeta mk_superblock /\ forall x, img s x = blk_zero)).
  - done.
  - change (Z.of_nat (Z.to_nat FSSIZE)) with FSSIZE. intros i s Hi [-> Hz]. unfold wsect. apply wp_modify. cbv zeta. rewrite sector_small by lia.
    cbn [img nsect freeinode freeblock mk_sb]. rewrite Z.leb_refl, Z.max_r by lia. split; [done|]. intros x. unfold fupd. destruct (x =? i); [done|].
    destruct (_ && _); [done|apply Hz].
  - change (0 + Z.of_nat (Z.to_nat FSSIZE)) with FSSIZE. intros s [-> Hz]. by apply HQ.
Qed.

(** The root directory is cut to whole blocks. *)
Definition round_up (n : Z) : Z := (n / BSIZE + 1) * BSIZE.
Definition padded (c : list Z) : list Z := c ++ replicate (Z.to_nat (round_up (len c) - len c)) 0.

Lemma round_up_bounds n : 0 <= n -> n < round_up n <= n + BSIZE.
Proof. intros Hn. unfold round_up. change BSIZE with 1024. pose proof (Z.div_mod n 1024). pose proof (Z.mod_pos_bound n 1024). lia. Qed.

Lemma byte_at_pad c k x : byte_at (c ++ replicate k 0) x = byte_at c x.
Proof.
  unfold byte_at. destruct (Nat.lt_ge_cases (Z.to_nat x) (length c)) as [Hx|Hx]; [by rewrite lookup_app_l|].
  rewrite lookup_app_r, (lookup_ge_None_2 c) by lia. destruct (replicate k 0 !! _) as [v|] eqn:E; [|done]. by apply lookup_replicate in E as [-> _].
Qed.

Lemma len_padded c : len (padded c) = round_up (len c).
Proof. unfold padded. rewrite len_app. unfold len at 2. rewrite length_replicate. pose proof (round_up_bounds (len c) ltac:(unfold len; lia)). lia. Qed.

Lemma file_at_padded m fb ip c : file_at m fb ip c -> len c mod BSIZE <> 0 -> round_up (len c) <= BSIZE * NDIRECT ->
  file_at m fb (set_isize (round_up (len c)) ip) (padded c).
Proof.
  intros [Hok Hsz Hmax [Hsh Hin] Hc] Hmod Hr. assert (Hl : 0 <= len c) by (unfold len; lia). pose proof (round_up_bounds (len c) Hl) as Hb.
  rewrite Hsz in *. unfold round_up in *. change BSIZE with 1024 in *. change NDIRECT with 12 in *. change MAXFILE with 268 in *.
  pose proof (Z.div_mod (len c) 1024). pose proof (Z.mod_pos_bound (len c) 1024). split.
  - apply slots_ok_size; [lia|done].
  - cbn. rewrite len_padded. done.
  - rewrite len_padded. unfold round_up. change BSIZE with 1024. change MAXFILE with 268. lia.
  - cbn [isize set_isize]. split.
    + intros bn Hbn. change (aslot m (set_isize ((len c / 1024 + 1) * 1024) ip)) with (aslot m ip). rewrite Hsh by done. change BSIZE with 1024. lia.
    + change (ind (set_isize ((len c / 1024 + 1) * 1024) ip)) with (ind ip). rewrite Hin. change BSIZE with 1024. change NDIRECT with 12. lia.
  - intros x Hx. unfold padded. rewrite byte_at_pad. by apply Hc.
Qed.

(** The free map: bits below [used] are set. *)
Lemma mark_used_bits n i buf x :
  len buf = BSIZE -> 0 <= i -> i + Z.of_nat n <= BSIZE * 8 -> 0 <= x ->
  bit_free (mark_used n i buf) x = if (i <=? x) && (x <? i + Z.of_nat n) then false else bit_free buf x.
Proof.
  revert i buf. induction n as [|n IH]; intros i buf Hl Hi Hn Hx; cbn [mark_used].
  - destruct (Z.leb_spec i x), (Z.ltb_spec x (i + Z.of_nat 0)); try done. lia.
  - assert (Hs : len (set_bit buf i) = len buf) by (unfold set_bit; apply len_putn).
    assert (Hb : i / 8 < len buf) by (rewrite Hl; apply Z.div_lt_upper_bound; lia).
    rewrite IH by (rewrite ?Hs; lia). rewrite bit_free_set_bit by done.
    destruct (Z.leb_spec (i + 1) x), (Z.ltb_spec x (i + 1 + Z.of_nat n)), (Z.leb_spec i x), (Z.ltb_spec x (i + Z.of_nat (S n))), (Z.eqb_spec x i);
      cbn [andb]; try done; lia.
Qed.

Lemma len_mark_used n i buf : len (mark_used n i buf) = len buf.
Proof. revert i buf. induction n as [|n IH]; intros i buf; cbn [mark_used]; [done|]. rewrite IH. unfold set_bit. apply len_putn. Qed.

Lemma bit_free_zero x : 0 <= x -> bit_free blk_zero x = true.
Proof. intros Hx. rewrite bit_free_testbit, getn_zero by done. by rewrite Z.bits_0. Qed.

(** Writing the free map leaves the files alone. *)
Lemma mk_inv_bitmap m fb fs d : mk_inv m fb fs -> len d = BSIZE -> mk_inv (fupd m 45 d) fb fs.
Proof.
  intros [Hct Hfile Hsep Hfree Hfb Hbl Hwh Hsb Hlog] Hd.
  assert (Hdi : forall n, 0 <= n < MAXINO -> dino (fupd m 45 d) n = dino m n).
  { intros n Hn. unfold dino. pose proof (iblk_range n Hn). by rewrite fupd_ne by lia. }
  assert (Hsl : forall n k, (n < length fs)%nat -> 0 <= k < NSLOT -> aslot m (dino m (ino n)) k <> 0 -> nmeta <= aslot m (dino m (ino n)) k).
  { intros n k Hn Hk H0. destruct (lookup_lt_is_Some_2 fs n Hn) as [[ty c] E]. destruct (Hfile n ty c E) as [Hf _]. by apply (so_slot _ _ _ (fa_ok _ _ _ _ Hf)). }
  assert (Ha : forall n k, (n < length fs)%nat -> aslot (fupd m 45 d) (dino m (ino n)) k = aslot m (dino m (ino n)) k).
  { intros n k Hn. apply aslot_frame. rewrite <- (aslot_ind m). intros H0. apply fupd_ne. pose proof (Hsl n NDIRECT Hn ltac:(done) H0) as Hs. change nmeta with 46 in Hs. lia. }
  change nmeta with 46 in *. split; try done.
  - intros n ty c E. assert (Hn := lookup_lt_Some _ _ _ E). rewrite Hdi by (apply (ino_range fs); done). destruct (Hfile n ty c E) as [Hf Hp]. split; [|done].
    eapply file_at_frame; [exact Hf| |lia]. intros k Hk H0. apply fupd_ne. specialize (Hsl n k Hn Hk H0). lia.
  - intros n n' k k' Hn Hn'. rewrite !Hdi by (apply (ino_range fs); done). rewrite !Ha by done. by apply Hsep.
  - intros n Hn. rewrite Hdi by lia. by apply Hfree.
  - intros x Hx. rewrite fupd_ne by lia. by apply Hbl.
  - intros x. unfold fupd. by destruct (x =? 45).
  - intros x Hx. rewrite fupd_ne by lia. by apply Hlog.
Qed.

(** The image mkfs leaves: the files, and a free map that says which blocks
    they use. *)
Definition image_files (files : list (list Z * list Z)) : list (Z * list Z) := (T_DIR, padded (root_dir files)) :: ((fun f => (T_FILE, f.2)) <$> files).
Definition image_of (files : list (list Z * list Z)) (m : Z -> block) : Prop :=
  mk_inv m (first_free files) (image_files files) /\
  forall x, 0 <= x < FSSIZE -> used mk_superblock m x = (x <? first_free files).

(** What the tool needs of its arguments: readable files, few enough of them,
    and room for their blocks. *)
Record mkfs_args (host : list Z -> option (list (list Z))) (args : list (list Z)) (files : list (list Z * list Z)) : Prop := MkfsArgs {
  ma_given : Forall2 (given_file host) args files;
  ma_inodes : 2 + Z.of_nat (length files) <= NINODES;
  ma_room : first_free files <= FSSIZE;
}.

(** The last steps of [main], from an image [m] with all the files. *)
Definition last_steps (files : list (list Z * list Z)) (m : Z -> block) : Z -> block :=
  fupd (put_ino ROOTINO (set_isize (round_up (len (root_dir files))) (dino m ROOTINO)) m) 45 (mark_used (Z.to_nat (first_free files)) 0 zeroes).

Lemma wp_mkfs_main host args files (Q : unit -> mk -> Prop) :
  mkfs_args host args files -> (forall m fi, mk_inv m (first_free files) (fs_of files) -> Q tt (St (last_steps files m) fi (first_free files))) ->
  wp (mkfs_main host args) mk_init Q.
Proof.
  intros [Hg Hni Hroom] HQ. unfold mkfs_main. apply wp_bind, wp_modify. cbn [img nsect freeinode mk_init].
  apply wp_bind, wp_mk_zero. intros m Hz. apply wp_bind, wp_wsect; [done|].
  assert (Hinv0 : mk_inv (fupd m 1 (sb_block mk_superblock)) nmeta []).
  { apply mk_inv_empty; [|by rewrite fupd_eq]. intros x Hx. rewrite fupd_ne by done. apply Hz. }
  apply wp_bind. eapply (wp_mk_ialloc _ _ [] T_DIR); [exact Hinv0|done|done|]. intros m1 Hinv1. cbn [app length Z.of_nat] in *.
  change (ino 0) with ROOTINO. rewrite Z.eqb_refl. cbn [negb].
  change (iappend ROOTINO) with (iappend (ino 0)). apply wp_bind. eapply wp_iappend; [exact Hinv1|done|done|done|]. intros m2 Hinv2.
  apply wp_bind. eapply wp_iappend; [exact Hinv2|done|by rewrite !len_app, !len_dirent|by rewrite !len_app, !len_dirent|]. intros m3 Hinv3.
  rewrite !len_app, !len_dirent in *. change (len []) with 0 in *.
  change (nmeta + fblocks (0 + 16) - fblocks 0 + fblocks (0 + 16 + 16) - fblocks (0 + 16)) with 47 in *.
  apply wp_bind. change 47 with (first_free []) in *. change (2 + 0) with (2 + Z.of_nat (length (@nil (list Z * list Z)))).
  change NINODES with 200 in Hni. eapply (wp_add_files host args files m3 []); [exact Hinv3|done|change MAXINO with 208; cbn [app]; lia|done|].
  cbn [app]. intros m4 fi Hinv4. pose proof (mi_file _ _ _ Hinv4 0%nat _ _ eq_refl) as [Hf _]. pose proof (fa_size _ _ _ _ Hf) as Hsz. pose proof (len_root_dir files) as Hlr.
  apply wp_bind, wp_rinode; [done|]. cbv zeta. change (ino 0) with ROOTINO in Hsz. rewrite Hsz. fold (round_up (len (root_dir files))).
  pose proof (round_up_bounds (len (root_dir files)) ltac:(lia)) as Hru. change BSIZE with 1024 in Hru. rewrite u32_small by lia.
  apply wp_bind, wp_winode; [done|]. apply wp_bind, wp_get. cbn [freeblock St].
  pose proof (proj1 (mi_fb _ _ _ Hinv4)) as Hff. change nmeta with 46 in Hff. change FSSIZE with 2000 in Hroom.
  unfold mk_balloc. rewrite s32_small by lia. rewrite (proj2 (Z.ltb_lt _ _)) by (change (BSIZE * 8) with 8192; lia). cbn [negb].
  apply wp_bind, wp_get. apply wp_wsect; [done|]. by apply (HQ m4).
Qed.

(** If the directory does not end at the end of a block, the image is good. *)
Lemma last_steps_ok files m :
  mk_inv m (first_free files) (fs_of files) -> 2 + Z.of_nat (length files) <= NINODES -> (2 + Z.of_nat (length files)) mod 64 <> 0 ->
  image_of files (last_steps files m).
Proof.
  intros Hinv Hni Hroot. pose proof (mi_file _ _ _ Hinv 0%nat _ _ eq_refl) as [Hf _]. pose proof (len_root_dir files) as Hlr.
  pose proof (mi_fb _ _ _ Hinv) as Hff. change nmeta with 46 in Hff. change FSSIZE with 2000 in Hff. change NINODES with 200 in Hni.
  pose proof (round_up_bounds (len (root_dir files)) ltac:(lia)) as Hru. unfold last_steps. split.
  - apply mk_inv_bitmap; [|rewrite len_mark_used; apply len_zero]. change ROOTINO with (ino 0).
    eapply (mk_inv_append m _ (fs_of files) 0 T_DIR (root_dir files) m _ (dino m (ino 0)) _ (padded (root_dir files))); [done|done| |apply appended_refl; apply Hinv|apply Hinv].
    apply file_at_padded; [done| |change BSIZE with 1024 in *; change NDIRECT with 12; lia].
    rewrite Hlr. change BSIZE with 1024. pose proof (Z.div_mod (2 + Z.of_nat (length files)) 64). pose proof (Z.div_mod (32 + 16 * Z.of_nat (length files)) 1024).
    pose proof (Z.mod_pos_bound (2 + Z.of_nat (length files)) 64). lia.
  - intros x Hx. change FSSIZE with 2000 in Hx. unfold used, BBLOCK. change BPB with 8192. rewrite Z.div_small, Z.mod_small by lia. change (0 + bmapstart mk_superblock) with 45.
    rewrite fupd_eq, mark_used_bits by (lia || apply len_zero || change (BSIZE * 8) with 8192; lia). rewrite bit_free_zero by lia. rewrite Z2Nat.id by lia.
    destruct (Z.leb_spec 0 x), (Z.ltb_spec x (first_free files)), (Z.ltb_spec x (0 + first_free files)); cbn [andb negb]; try done; lia.
Qed.

(** What a reader finds in file [n] of the image. *)
Lemma file_at_bytes m fb ip c : file_at m fb ip c -> Forall (fun v => 0 <= v < 256) c -> fbytes m ip 0 (length c) = c.
Proof.
  intros [_ _ Hmax _ Hc] Hb. apply list_eq. intros i. unfold fbytes. rewrite list_lookup_fmap. destruct (Nat.lt_ge_cases i (length c)) as [Hi|Hi].
  - rewrite lookup_seq_lt by done. cbn [fmap option_fmap option_map]. rewrite Hc by (unfold len in Hmax; lia). unfold byte_at.
    destruct (lookup_lt_is_Some_2 c i Hi) as [v Hv]. replace (Z.to_nat (0 + Z.of_nat (0 + i))) with i by lia. rewrite Hv. cbn.
    f_equal. apply u8_small. by eapply Forall_lookup_1 in Hb.
  - rewrite !lookup_ge_None_2; [done|done|rewrite length_seq; done].
Qed.

Lemma file_at_holes m fb ip c : file_at m fb ip c -> no_holes m ip.
Proof.
  intros [_ Hsz Hmax [Hsh _] _]. split; [rewrite Hsz; unfold len in *; lia|]. intros bn Hbn Hlt E.
  assert (Hr : bn < MAXFILE) by (change MAXFILE with 268 in *; change BSIZE with 1024 in *; lia). apply Hsh in E; lia.
Qed.

(** ** Results *)

(** Inode [n] of the image is a file of type [ty] with contents [c], in blocks
    of its own. *)
Definition file_in (m : Z -> block) (fb n ty : Z) (c : list Z) : Prop :=
  let ip := dino m n in
  itype ip = ty /\ inlink ip = 1 /\ isize ip = len c /\ no_holes m ip /\ fbytes m ip 0 (length c) = c /\ slots_inj m ip /\
  forall k, 0 <= k < NSLOT -> aslot m ip k <> 0 -> nmeta <= aslot m ip k < fb.

Lemma file_in_intro m fb fs n ty c : mk_inv m fb fs -> fs !! n = Some (ty, c) -> Forall (fun v => 0 <= v < 256) c -> file_in m fb (ino n) ty c.
Proof.
  intros Hinv Hn Hb. destruct (mi_file _ _ _ Hinv n ty c Hn) as [Hf Hp]. pose proof (fa_ok _ _ _ _ Hf) as [_ Hs Hi].
  unfold file_in. refine (conj _ (conj _ (conj (fa_size _ _ _ _ Hf) (conj (file_at_holes _ _ _ _ Hf) (conj (file_at_bytes _ _ _ _ Hf Hb) (conj Hi Hs)))))); by rewrite Hp.
Qed.

Lemma root_dir_bytes files : Forall (fun v => 0 <= v < 256) (root_dir files).
Proof.
  assert (Hd : forall n nm, Forall (fun v => 0 <= v < 256) (dirent_bytes n nm)).
  { intros n nm. unfold dirent_bytes. apply Forall_app. split; [repeat constructor; apply u8_range|apply rd_bytes_byte]. }
  unfold root_dir. rewrite !Forall_app. split_and!; [apply Hd..|]. generalize 2. induction files as [|f files IH]; intros n; cbn [entries]; [constructor|].
  apply Forall_app. by split.
Qed.


(** One file "user/_cat" of four bytes, read in two pieces. *)
Definition cat_arg : list Z := USER_ ++ [95; 99; 97; 116].
Definition mk_host0 : list Z -> option (list (list Z)) := fun a => if bool_decide (a = cat_arg) then Some [[127; 69]; [76; 70]] else None.
Definition mk_files0 : list (list Z * list Z) := [([99; 97; 116], [127; 69; 76; 70])].

Lemma mkfs_args0 : mkfs_args mk_host0 [cat_arg] mk_files0.
Proof.
  split; [|done|by vm_compute]. repeat constructor; [|by exists [[127; 69]; [76; 70]]|by vm_compute].
  intros Hin. by apply (bool_decide_eq_true_2 _) in Hin.
Qed.


(** A root directory that fills its last block.  If the entries, with "."
    and "..", are a multiple of 64, mkfs still adds a block to the size of the
    root directory, and gives it no block: the directory ends in a hole. *)
Theorem mkfs_root_hole host args files :
  mkfs_args host args files -> (2 + Z.of_nat (length files)) mod 64 = 0 ->
  wp (mkfs_main host args) mk_init (fun _ s => let m := img s in let ip := dino m ROOTINO in
    isize ip = len (root_dir files) + BSIZE /\ aslot m ip (slot (len (root_dir files) / BSIZE)) = 0 /\ ~ no_holes m ip).
Proof.
  intros Ha Hroot. eapply wp_mkfs_main; [exact Ha|]. intros m0 fi Hinv. pose proof (mi_file _ _ _ Hinv 0%nat _ _ eq_refl) as [Hf _].
  pose proof Hf as [Hok Hsz _ [Hsh _] _]. pose proof (mi_whole _ _ _ Hinv) as Hw. pose proof (len_root_dir files) as Hlr.
  pose proof (ma_inodes _ _ _ Ha) as Hni. change NINODES with 200 in Hni. set (n := len (root_dir files)) in *.
  assert (Hn : n mod BSIZE = 0 /\ round_up n = n + BSIZE /\ n <= 4000).
  { unfold round_up. change BSIZE with 1024. pose proof (Z.div_mod (2 + Z.of_nat (length files)) 64). pose proof (Z.div_mod n 1024). pose proof (Z.mod_pos_bound n 1024). lia. }
  destruct Hn as (Hmod & Hru & Hmax). cbn [img St]. set (ip := set_isize (n + BSIZE) (dino m0 ROOTINO)).
  assert (Hdi : dino (last_steps files m0) ROOTINO = ip).
  { unfold last_steps. fold n. rewrite Hru. fold ip. unfold dino at 1. rewrite fupd_ne by done. apply (dino_put m0 ROOTINO ip); [done|].
    apply (so_wf m0 (first_free files)), slots_ok_size; [change BSIZE with 1024; lia|done]. }
  rewrite Hdi. assert (Hs0 : aslot (last_steps files m0) ip (slot (n / BSIZE)) = 0).
  { assert (Hn' : n / BSIZE < NDIRECT) by (apply Z.div_lt_upper_bound; [done|change BSIZE with 1024; change NDIRECT with 12; lia]).
    assert (0 <= n / BSIZE) by (apply Z.div_pos; done || lia). rewrite slot_direct by done. specialize (Hsh (n / BSIZE) ltac:(change MAXFILE with 268; change NDIRECT with 12 in *; lia)).
    rewrite slot_direct in Hsh by done. unfold aslot in *. rewrite (proj2 (Z.leb_le _ _)) in * by lia. apply Hsh. change (ino 0) with ROOTINO in Hsz |- *. rewrite Hsz.
    pose proof (Z.div_mod n BSIZE ltac:(done)). lia. }
  split_and!; [done|done|]. intros [_ Hh]. apply (Hh (n / BSIZE)); [apply Z.div_pos; done || lia| |exact Hs0].
  change (isize ip) with (n + BSIZE). pose proof (Z.div_mod n BSIZE ltac:(done)). change BSIZE with 1024 in *. lia.
Qed.

Lemma mkfs_root_hole_witness : exists s, mkfs_main (fun _ => Some []) (replicate 62 [97]) mk_init = Ret (tt, s) /\
  isize (dino (img s) ROOTINO) = 2048 /\ ~ no_holes (img s) (dino (img s) ROOTINO).
Proof.
  assert (Ha : mkfs_args (fun _ => Some []) (replicate 62 [97]) (replicate 62 ([97], []))).
  { split; [|done|by vm_compute]. apply Forall2_replicate. split_and!; [by intros H%(bool_decide_eq_true_2 _)|by exists []|by vm_compute]. }
  destruct (wp_inv _ _ _ (mkfs_root_hole _ _ _ Ha ltac:(done))) as ([] & s & E & Hs & _ & Hh). exists s. split; [exact E|]. split; [rewrite Hs; reflexivity|exact Hh].
Defined.
