(* ===== verification/Boot.v ===== *)
(** * From mkfs to a file read by the kernel

    The image mkfs writes is a file system in the kernel's sense: the free map
    can be trusted, every inode is well formed, the root directory names the
    files.  Booting from it and resolving a path leads to the inode mkfs
    gave the file, and reading that inode returns the bytes of the file on the
    host. *)
From S2P Require Import Prelude Riscv Mem KString Bio BioSpec BioProofs Block Log LogProofs LogTheorems TxSpec LogTx Crash Fs FsBlock FsProofs FsInode FsWrite FsTheorems FsNames FsDir Mkfs MkfsProofs.

(** ** Start-up of the file system *)

Section Start.
Context (d0 : Z -> block).
(** The operations of the store do not depend on [d0], which only names the
    disk at boot in its laws. *)
#[local] Instance boot_store : BlockStore (lst bst) := log_store 2 LOGSIZE d0.

Definition fsinit (dev : Z) : M (fsys (lst bst)) unit :=
  readsb dev;;
  b <- gets sb;;
  if negb (magic b =? FSMAGIC) then panic "invalid file system" else
  liftS (initlog dev b).

(** What the kernel does to the file system before the first process runs:
    [binit] and [iinit] in [main], [p->cwd = namei("/")] in [userinit], and
    [fsinit] in [forkret]. *)
Definition boot_fs : M (fsys (lst bst)) unit :=
  liftS (lift binit);;
  iinit;;
  r <- namei [SLASH];;
  match r with
  | Some i => modify (fun s => Fsys (store s) (sb s) (itable s) i);; fsinit ROOTDEV
  | None => fault
  end.

(** Reading the first [n] bytes of the file at [path], in the way of [exec]. *)
Definition read_path (path : list Z) (n : Z) : M (fsys (lst bst)) (option (list Z)) :=
  liftS b_begin_op;;
  r <- namei path;;
  match r with
  | None => liftS b_end_op;; ret None
  | Some i =>
      ilock i;;
      r <- readi to_kernel [] i 0 n;;
      iunlockput i;;
      liftS b_end_op;;
      ret (Some r.2)
  end.
End Start.

(** The kernel's memory at power-on, with the disk [d]. *)
Definition free_inode : inode := Inode 0 0 0 false false 0 0 0 0 0 (replicate 13 0).
Definition table0 : list inode := replicate (Z.to_nat NINODE) free_inode.
Definition fs_init (d : Z -> block) (pid : Z) : fsys (lst bst) := Fsys (Lst (bst_init d pid) log0) (Superblock 0 0 0 0 0 0 0 0) table0 0.

(** ** Directory entries *)

Lemma cname_rd_bytes n mm a : cname (rd_bytes n mm a) = cstr n mm a.
Proof.
  revert a. induction n as [|n IH]; intros a; [done|]. cbn [rd_bytes cname cstr]. unfold ctrue. destruct (Z.eqb_spec (ld8 mm a) 0); cbn [negb]; [done|]. by rewrite IH.
Qed.

Lemma cstr_blk n nm (o : nat) : bytes nm -> (forall x, x ∈ nm -> x <> 0) -> cstr n (blk_mem nm) (Z.of_nat o) = take n (drop o nm).
Proof.
  intros Hb Hz. revert o. induction n as [|n IH]; intros o; cbn [cstr]; [done|]. rewrite ld8_blk by done. destruct (nm !! o) as [x|] eqn:E; cbn [from_option id].
  - assert (Hx : x <> 0) by (by apply Hz; eapply list_elem_of_lookup_2). rewrite (proj2 (ctrue_true x)) by done.
    replace (Z.of_nat o + 1) with (Z.of_nat (S o)) by lia. rewrite IH, (drop_S _ _ _ E). done.
  - rewrite drop_ge by (by apply lookup_ge_None_1). done.
Qed.

(** The name and number in an entry. *)
Lemma de_name_dirent n nm : bytes nm -> (forall x, x ∈ nm -> x <> 0) -> cname (de_name (dirent_bytes n nm)) = take (Z.to_nat DIRSIZ) nm.
Proof.
  intros Hb Hz. change (de_name (dirent_bytes n nm)) with (rd_bytes (Z.to_nat DIRSIZ) (strncpy (Z.to_nat DIRSIZ) (fun _ => 0) 0 (blk_mem nm) 0) 0).
  rewrite cname_rd_bytes, strncpy_cstr. change 0 with (Z.of_nat 0) at 1. by rewrite cstr_blk, drop_0.
Qed.

Lemma de_inum_dirent n nm : 0 <= n < 2 ^ 16 -> de_inum (dirent_bytes n nm) = n.
Proof.
  intros Hn. change (u8 (u8 n) + 256 * (u8 (u8 (n / 256)) + 256 * 0) = n). rewrite !(u8_small (u8 _)) by apply u8_range.
  unfold u8. change (2 ^ 8) with 256. rewrite (Z.mod_small (n / 256)); [|split; [apply Z.div_pos; lia|apply Z.div_lt_upper_bound; lia]].
  pose proof (Z.div_mod n 256). lia.
Qed.

(** A piece of a file whose contents are known. *)
Lemma fbytes_piece m fb ip pre x post : file_at m fb ip (pre ++ x ++ post) -> bytes x -> fbytes m ip (len pre) (length x) = x.
Proof.
  intros [_ _ Hmax _ Hc] Hb. rewrite !len_app in Hmax. apply list_eq. intros i. unfold fbytes. rewrite list_lookup_fmap.
  destruct (Nat.lt_ge_cases i (length x)) as [Hi|Hi]; [|rewrite !lookup_ge_None_2; [done|done|rewrite length_seq; done]].
  rewrite lookup_seq_lt by done. cbn [fmap option_fmap option_map]. unfold len in *. rewrite Hc by lia. unfold byte_at.
  replace (Z.to_nat (Z.of_nat (length pre) + Z.of_nat (0 + i))) with (length pre + i)%nat by lia.
  rewrite lookup_app_r by lia. replace (length pre + i - length pre)%nat with i by lia. rewrite lookup_app_l by done.
  destruct (lookup_lt_is_Some_2 x i Hi) as [v Hv]. rewrite Hv. cbn. f_equal. apply u8_small. by eapply Forall_lookup_1 in Hb.
Qed.

Lemma length_concat16 (ls : list (list Z)) : Forall (fun x => length x = 16%nat /\ bytes x) ls -> len (concat ls) = 16 * Z.of_nat (length ls).
Proof. induction 1 as [|x ls [Hx _] _ IH]; [done|]. cbn [concat length]. rewrite len_app, IH. unfold len. lia. Qed.

(** The entries of a directory are the pieces of its contents. *)
Lemma dir_list_concat m fb ip ls : file_at m fb ip (concat ls) -> Forall (fun x => length x = 16%nat /\ bytes x) ls -> dir_list m ip = ls.
Proof.
  intros Hf Hls. pose proof (fa_size _ _ _ _ Hf) as Hsz. rewrite (length_concat16 ls Hls) in Hsz. unfold dir_list. change dirent_size with 16.
  rewrite Hsz, Z.mul_comm, Z.div_mul, Nat2Z.id by done. apply list_eq. intros k. rewrite list_lookup_fmap.
  destruct (Nat.lt_ge_cases k (length ls)) as [Hk|Hk]; [|rewrite !lookup_ge_None_2; [done|done|rewrite length_seq; done]].
  rewrite lookup_seq_lt by done. cbn [fmap option_fmap option_map Nat.add]. destruct (lookup_lt_is_Some_2 ls k Hk) as [x Hx]. rewrite Hx. f_equal.
  destruct (Forall_lookup_1 _ _ _ _ Hls Hx) as [Hlx Hbx]. rewrite <- (take_drop_middle ls k x Hx) in Hf. rewrite concat_app in Hf. cbn [concat] in Hf.
  pose proof (fbytes_piece _ _ _ _ _ _ Hf Hbx) as Hp. rewrite (length_concat16 (take k ls)), length_take in Hp by (by apply Forall_take).
  rewrite Hlx in Hp. by replace (Z.of_nat (k `min` length ls)) with (Z.of_nat k) in Hp by lia.
Qed.

(** The entries of the root directory, without the padding. *)
Fixpoint entry_list (n : Z) (files : list (list Z * list Z)) : list (list Z) :=
  match files with
  | [] => []
  | f :: r => dirent_bytes n f.1 :: entry_list (n + 1) r
  end.
Definition root_list (files : list (list Z * list Z)) : list (list Z) := dirent_bytes ROOTINO [46] :: dirent_bytes ROOTINO [46; 46] :: entry_list 2 files.
Definition no_entry : list Z := replicate 16 0.

Lemma concat_entries n files : concat (entry_list n files) = entries n files.
Proof. revert n. induction files as [|f files IH]; intros n; cbn [entry_list concat entries]; [done|]. by rewrite IH. Qed.

Lemma concat_zero k : concat (replicate k no_entry) = replicate (16 * k) 0.
Proof. induction k as [|k IH]; [done|]. cbn [replicate concat]. rewrite IH. unfold no_entry. rewrite <- replicate_add. f_equal. lia. Qed.

Lemma padded_root files : exists k, padded (root_dir files) = concat (root_list files ++ replicate k no_entry).
Proof.
  unfold padded. pose proof (len_root_dir files) as Hl. assert (exists k : nat, Z.to_nat (round_up (len (root_dir files)) - len (root_dir files)) = (16 * k)%nat) as [k Hk].
  { pose proof (round_up_bounds (len (root_dir files)) ltac:(lia)). exists (Z.to_nat ((len (root_dir files) / BSIZE + 1) * 64 - (2 + Z.of_nat (length files)))).
    unfold round_up in *. change BSIZE with 1024 in *. lia. }
  exists k. rewrite Hk, concat_app, concat_zero. f_equal. unfold root_list, root_dir. cbn [concat]. by rewrite concat_entries.
Qed.

Lemma dirent16 n nm : length (dirent_bytes n nm) = 16%nat /\ bytes (dirent_bytes n nm).
Proof.
  pose proof (len_dirent n nm) as Hl. unfold len in Hl. split; [lia|]. apply Forall_app. split; [repeat constructor; apply u8_range|apply rd_bytes_byte].
Qed.

Lemma root_list16 files k : Forall (fun x => length x = 16%nat /\ bytes x) (root_list files ++ replicate k no_entry).
Proof.
  apply Forall_app. split; [|apply Forall_replicate; split; [done|by apply Forall_replicate]]. apply Forall_cons_2, Forall_cons_2; [apply dirent16..|].
  generalize 2. induction files as [|f files IH]; intros n; cbn [entry_list]; [by apply Forall_nil|apply Forall_cons_2; [apply dirent16|apply IH]].
Qed.

(** Searching the root directory. *)
Lemma dfind_skip nm l1 x l2 : (forall de, de ∈ l1 -> de_inum de = 0 \/ cname (de_name de) <> nm) -> de_inum x <> 0 -> cname (de_name x) = nm ->
  dfind nm (l1 ++ x :: l2) = Some (length l1, de_inum x).
Proof.
  intros Hl Hx Hn. induction l1 as [|de l1 IH]; cbn [app dfind length].
  - by rewrite (proj2 (Z.eqb_neq _ _)), bool_decide_eq_true_2 by done.
  - assert (Hde : negb (de_inum de =? 0) && bool_decide (cname (de_name de) = nm) = false).
    { destruct (Hl de ltac:(by left)) as [->|Hne]; [done|]. rewrite bool_decide_eq_false_2 by done. apply andb_false_r. }
    rewrite Hde, IH; [done|]. intros d' Hd'. apply Hl. by right.
Qed.

(** ** The image as a file system of the kernel *)

(** A host file name: no NUL, and bytes. *)
Definition name_ok (nm : list Z) : Prop := bytes nm /\ forall x, x ∈ nm -> x <> 0.

(** The file [n] of the image is the first with its name, cut to [DIRSIZ] bytes. *)
Record findable (files : list (list Z * list Z)) (n : nat) (nm c : list Z) : Prop := Findable {
  fi_file : files !! n = Some (nm, c);
  fi_elem : nm <> [] /\ SLASH ∉ nm;
  fi_dots : take 14 nm <> [46] /\ take 14 nm <> [46; 46];
  fi_first : forall n' f, (n' < n)%nat -> files !! n' = Some f -> take 14 f.1 <> take 14 nm;
}.

Lemma entry_list_lookup files k n : entry_list k files !! n = (fun f => dirent_bytes (k + Z.of_nat n) f.1) <$> files !! n.
Proof.
  revert k n. induction files as [|f files IH]; intros k [|n]; cbn [entry_list lookup list_lookup]; [done|done|cbn; by rewrite Z.add_0_r|].
  rewrite IH. by replace (k + 1 + Z.of_nat n) with (k + Z.of_nat (S n)) by lia.
Qed.

Lemma length_entry_list files k : length (entry_list k files) = length files.
Proof. revert k. induction files as [|f files IH]; intros k; cbn [entry_list length]; [done|]. by rewrite IH. Qed.

(** Every entry of the root directory names the root or a file. *)
Lemma root_list_inum files z de : Z.of_nat (length files) <= 200 -> de ∈ root_list files ++ replicate z no_entry -> de_inum de <> 0 ->
  1 <= de_inum de <= Z.of_nat (length files) + 1.
Proof.
  intros Hl [[->|[->|Hin]%elem_of_cons]%elem_of_cons|Hin]%elem_of_app Hne.
  - rewrite de_inum_dirent by done. change ROOTINO with 1. lia.
  - rewrite de_inum_dirent by done. change ROOTINO with 1. lia.
  - apply list_elem_of_lookup in Hin as [n Hn]. rewrite entry_list_lookup in Hn. destruct (files !! n) as [f|] eqn:Ef; [|done]. injection Hn as <-.
    apply lookup_lt_Some in Ef. rewrite de_inum_dirent by lia. lia.
  - apply elem_of_replicate in Hin as [-> _]. by destruct Hne.
Qed.

Lemma list_shape {A} (a b : A) l1 x l2 l3 : (a :: b :: l1 ++ x :: l2) ++ l3 = (a :: b :: l1) ++ x :: (l2 ++ l3).
Proof. cbn [app]. by rewrite <- app_assoc. Qed.

Lemma dfind_root files n nm c z : Z.of_nat (length files) <= 200 -> Forall (fun f => name_ok f.1) files -> findable files n nm c ->
  dfind (take 14 nm) (root_list files ++ replicate z no_entry) = Some ((n + 2)%nat, Z.of_nat n + 2).
Proof.
  intros Hl Hnm [Hf _ [Hd1 Hd2] Hfirst]. pose proof (lookup_lt_Some _ _ _ Hf) as Hn. destruct (Forall_lookup_1 _ _ _ _ Hnm Hf) as [Hb Hz]. cbn [fst] in *.
  assert (Hde : entry_list 2 files !! n = Some (dirent_bytes (2 + Z.of_nat n) nm)) by (by rewrite entry_list_lookup, Hf).
  unfold root_list. rewrite <- (take_drop_middle _ _ _ Hde). set (l1 := take n (entry_list 2 files)).
  assert (Hl1 : length l1 = n) by (unfold l1; rewrite length_take, length_entry_list; lia).
  rewrite (list_shape _ _ l1), dfind_skip.
  - cbn [length]. rewrite Hl1, de_inum_dirent by lia. f_equal. f_equal; lia.
  - intros de [->|[->|Hin]%elem_of_cons]%elem_of_cons; right.
    + rewrite de_name_dirent; [by apply not_eq_sym|by repeat constructor|set_solver by lia].
    + rewrite de_name_dirent; [by apply not_eq_sym|by repeat constructor|set_solver by lia].
    + apply list_elem_of_lookup in Hin as [n' Hn']. pose proof (lookup_lt_Some _ _ _ Hn') as Hlt. rewrite Hl1 in Hlt. unfold l1 in Hn'. rewrite lookup_take_lt, entry_list_lookup in Hn' by done.
      destruct (files !! n') as [f|] eqn:Ef; [|done]. injection Hn' as <-. destruct (Forall_lookup_1 _ _ _ _ Hnm Ef). rewrite de_name_dirent by done. by apply (Hfirst n').
  - rewrite de_inum_dirent by lia. lia.
  - by rewrite de_name_dirent.
Qed.

Lemma elems_root nm : nm <> [] -> SLASH ∉ nm -> elems (SLASH :: nm) = [nm].
Proof.
  intros Hne Hs. rewrite elems_slash. assert (Hsp : split_slash nm = [nm]).
  { clear Hne. induction nm as [|x nm IH]; [done|]. cbn [split_slash]. apply not_elem_of_cons in Hs as [Hx Hs]. rewrite (proj2 (Z.eqb_neq x SLASH)) by done. by rewrite IH. }
  unfold elems. rewrite Hsp, filter_cons_True by done. done.
Qed.

Section Image.
Context (files : list (list Z * list Z)) (m : Z -> block).
Context (Himg : image_of files m) (Hlen : 2 + Z.of_nat (length files) <= NINODES).
#[local] Instance image_store : BlockStore (lst bst) := log_store 2 LOGSIZE m.

Lemma home_image x : x = 1 \/ 32 <= x < FSSIZE -> home x.
Proof. intros Hx. change FSSIZE with 2000 in Hx. change (log_home 2 LOGSIZE x). unfold log_home, in_log. change LOGSIZE with 30. lia. Qed.

Lemma bblock_image x : 0 <= x < FSSIZE -> BBLOCK x mk_superblock = 45.
Proof. change FSSIZE with 2000. intros Hx. unfold BBLOCK. change BPB with 8192. rewrite Z.div_small by lia. done. Qed.

Lemma first_free_range : 46 <= first_free files <= FSSIZE.
Proof. destruct Himg as [Hinv _]. pose proof (mi_fb _ _ _ Hinv) as Hb. change nmeta with 46 in Hb. exact Hb. Qed.

Lemma bitmap_ok_image : bitmap_ok mk_superblock m.
Proof.
  destruct Himg as [Hinv Hu]. pose proof first_free_range as Hfb. change (fssize mk_superblock) with FSSIZE in *. change (bmapstart mk_superblock) with 45 in *.
  split; change (fssize mk_superblock) with FSSIZE; try done.
  - intros _. rewrite Hu by done. apply Z.ltb_lt. lia.
  - intros x Hx. rewrite bblock_image by done. apply home_image. change FSSIZE with 2000. lia.
  - intros x Hx. apply (mi_whole _ _ _ Hinv).
  - intros x Hx Hux. rewrite Hu in Hux by done. bool_prop. apply home_image. lia.
  - intros x y Hx Hy Hux. rewrite Hu in Hux by done. rewrite bblock_image by done. bool_prop. lia.
Qed.

Lemma blk_ok_image x : 46 <= x < first_free files -> blk_ok mk_superblock m x.
Proof.
  intros Hx. destruct Himg as [Hinv Hu]. pose proof first_free_range as Hfb. split; change (fssize mk_superblock) with FSSIZE.
  - lia.
  - apply home_image. lia.
  - rewrite Hu by lia. apply Z.ltb_lt. lia.
  - intros y Hy. rewrite bblock_image by done. lia.
  - apply (mi_whole _ _ _ Hinv).
Qed.

(** The inodes in use. *)
Definition in_image (n : Z) : Prop := 1 <= n <= Z.of_nat (length files) + 1.

Lemma image_file n : in_image n -> exists ty c, file_at m (first_free files) (dnode mk_superblock m n) c /\ plain ty n (dnode mk_superblock m n) /\
  (ty = T_DIR /\ n = ROOTINO /\ c = padded (root_dir files) \/ ty = T_FILE /\ exists f, files !! Z.to_nat (n - 2) = Some f /\ c = f.2).
Proof.
  intros Hn. destruct Himg as [Hinv _]. unfold in_image in Hn. destruct (decide (n = 1)) as [->|Hne].
  - destruct (mi_file _ _ _ Hinv 0%nat _ _ eq_refl) as [Hf Hp]. exists T_DIR, (padded (root_dir files)). split_and!; [exact Hf|exact Hp|by left].
  - destruct (lookup_lt_is_Some_2 files (Z.to_nat (n - 2))) as [f Hf]; [lia|].
    assert (Hl : image_files files !! S (Z.to_nat (n - 2)) = Some (T_FILE, f.2)) by (change (((fun f : list Z * list Z => (T_FILE, f.2)) <$> files) !! Z.to_nat (n - 2) = Some (T_FILE, f.2)); by rewrite list_lookup_fmap, Hf).
    destruct (mi_file _ _ _ Hinv _ _ _ Hl) as [Hfa Hp]. replace (ino (S (Z.to_nat (n - 2)))) with n in * by (unfold ino; lia).
    exists T_FILE, f.2. split_and!; [exact Hfa|exact Hp|right]. eauto.
Qed.

Lemma inode_ok_image n : in_image n -> inode_ok mk_superblock m (dnode mk_superblock m n) /\ no_holes m (dnode mk_superblock m n) /\
  itype (dnode mk_superblock m n) <> 0 /\ inlink (dnode mk_superblock m n) <> 0.
Proof.
  intros Hn. destruct (image_file n Hn) as (ty & c & Hf & Hp & Hcase). pose proof (fa_ok _ _ _ _ Hf) as [Hwf Hs Hi]. split_and!.
  - split; [done|apply Hwf|apply Hwf| |exact Hi]. intros k Hk H0. apply blk_ok_image. exact (Hs k Hk H0).
  - apply (file_at_holes _ _ _ _ Hf).
  - rewrite Hp. cbn. by destruct Hcase as [[-> _]|[-> _]].
  - rewrite Hp. done.
Qed.

Lemma root_entries : exists z, dir_list m (dnode mk_superblock m ROOTINO) = root_list files ++ replicate z no_entry.
Proof.
  destruct (image_file ROOTINO) as (ty & c & Hf & _ & [(_ & _ & ->)|(_ & f & _)]); [unfold in_image; change ROOTINO with 1; lia| |].
  - destruct (padded_root files) as [z Hz]. rewrite Hz in Hf. exists z. eapply dir_list_concat; [exact Hf|apply root_list16].
  - destruct (padded_root files) as [z Hz]. destruct Himg as [Hinv _]. destruct (mi_file _ _ _ Hinv 0%nat _ _ eq_refl) as [Hf' _]. rewrite Hz in Hf'.
    exists z. eapply dir_list_concat; [exact Hf'|apply root_list16].
Qed.

Lemma tree_ok_image : tree_ok mk_superblock m in_image.
Proof.
  change NINODES with 200 in Hlen. split.
  - intros n Hn. by destruct (inode_ok_image n Hn) as (? & _).
  - intros n Hn. by destruct (inode_ok_image n Hn) as (_ & ? & _).
  - intros n Hn. apply home_image. right. unfold in_image in Hn. unfold IBLOCK. change (inodestart mk_superblock) with 32. change IPB with 16. change FSSIZE with 2000.
    pose proof (Z.div_mod n 16). pose proof (Z.mod_pos_bound n 16). lia.
  - intros n Hn. by destruct (inode_ok_image n Hn) as (_ & _ & ?).
  - intros n Hn Hty. destruct (image_file n Hn) as (ty & c & Hf & Hp & Hcase). rewrite Hp in Hty. cbn in Hty. subst ty. destruct Hcase as [(_ & -> & ->)|[? _]]; [|done].
    split.
    + rewrite (fa_size _ _ _ _ Hf), len_padded. unfold round_up. change dirent_size with 16. change BSIZE with 1024.
      replace ((len (root_dir files) / 1024 + 1) * 1024) with ((len (root_dir files) / 1024 + 1) * 64 * 16) by lia. apply Z.mod_mul. lia.
    + destruct root_entries as [z ->]. intros de Hin Hne. apply (root_list_inum files z de); [lia|done|done].
Qed.

(** ** Booting from the image *)

(** The inode table after [namei("/")] in [userinit]. *)
Definition table1 : list inode := Inode ROOTDEV ROOTINO 1 false false 0 0 0 0 0 (replicate 13 0) :: replicate 49 free_inode.

Lemma iinit_table0 (st : lst bst) b : iinit (Fsys st b table0 0) = Ret (tt, Fsys st b table0 0).
Proof. vm_compute. reflexivity. Qed.

Lemma namei_slash (st : lst bst) b : namei [SLASH] (Fsys st b table0 0) = Ret (Some 0%nat, Fsys st b table1 0).
Proof. vm_compute. reflexivity. Qed.

Lemma sb_read : (get32 (m 1) 0, get32 (m 1) 4, get32 (m 1) 8, get32 (m 1) 12, get32 (m 1) 16, get32 (m 1) 20, get32 (m 1) 24, get32 (m 1) 28)
  = (FSMAGIC, FSSIZE, mk_nblocks, NINODES, mk_nlog, 2, 2 + mk_nlog, 2 + mk_nlog + ninodeblocks).
Proof. destruct Himg as [Hinv _]. rewrite (mi_sb _ _ _ Hinv). vm_compute. reflexivity. Qed.

Lemma header_zero : m 2 = blk_zero.
Proof. destruct Himg as [Hinv _]. by apply (mi_log _ _ _ Hinv). Qed.

Lemma header_ok_image : header_ok 2 LOGSIZE (m 2).
Proof. rewrite header_zero. unfold header_ok, hdr_blocks. rewrite hdr_n_zero. split_and!; [done..|]. cbn. intros x Hx. by apply not_elem_of_nil in Hx. Qed.

(** [readsb] on a quiet cache. *)
Lemma wp_readsb (c : bst) l b t cw (Q : unit -> fsys (lst bst) -> Prop) :
  quiet c [] -> c_disk c = m -> c_writes c = [] ->
  (forall c', quiet c' [] -> c_disk c' = m -> c_writes c' = [] -> Q tt (Fsys (Lst c' l) mk_superblock t cw)) ->
  wp (readsb ROOTDEV) (Fsys (Lst c l) b t cw) Q.
Proof.
  intros [Hok Hheld Hrefs] Hd Hw HQ. unfold readsb. apply wp_bind, wp_liftS, wp_lift. cbn [cache lg].
  eapply wp_mono; [apply (c_bread_spec c 1 Hok (Hheld 1)); [rewrite Hrefs; done|right]|].
  { eapply Nat.le_lt_trans; [apply (used_bound _ []); [done|]|vm_compute; lia]. intros x. rewrite Hrefs, bool_decide_eq_false_2 by apply not_elem_of_nil. lia. }
  cbn beta. intros h c1 (Hok1 & Hd1 & Hw1 & Hc1 & Hr1 & Hh1). assert (Hh : c_held c1 1 = Some h) by (by rewrite Hh1, fupd_eq).
  apply wp_bind, wp_liftS, wp_lift. cbn [cache lg]. eapply wp_eq; [exact (c_data_spec c1 1 h Hok1 Hh)|]. apply wp_bind, wp_modify. cbn [store itable cwd].
  assert (Hm : c_cont c1 1 = m 1) by (rewrite Hc1, (quiet_clean c [] 1); [by rewrite Hd|by split|apply not_elem_of_nil]). rewrite Hm.
  pose proof sb_read as Hsb. injection Hsb as -> -> -> -> -> -> -> ->.
  apply wp_liftS, wp_lift. cbn [cache lg]. eapply wp_mono; [apply (c_brelse_spec c1 1 h Hok1 Hh)|]; [intros _; by rewrite Hm, Hd1, Hd|].
  cbn beta. intros [] c2 (Hok2 & Hd2 & Hw2 & _ & Hr2 & Hh2). apply HQ; [|by rewrite Hd2, Hd1|by rewrite Hw2, Hw1].
  split; [done| |].
  - intros x. rewrite Hh2. unfold fupd. destruct (x =? 1) eqn:E; [done|]. rewrite Hh1. unfold fupd. by rewrite E.
  - intros x. rewrite Hr2. unfold fupd. rewrite !Hr1. unfold fupd. rewrite !Hrefs, !bool_decide_eq_false_2 by apply not_elem_of_nil. by destruct (x =? 1).
Qed.

Lemma wp_boot_fs pid (Q : unit -> fsys (lst bst) -> Prop) :
  (forall s w, idle s w m -> Q tt (Fsys s mk_superblock table1 0)) -> wp (boot_fs m) (fs_init m pid) Q.
Proof.
  intros HQ. unfold boot_fs, fs_init. apply wp_bind, wp_liftS, wp_lift. cbn [cache lg]. eapply wp_mono; [apply wp_binit|]. cbn beta. intros [] c (Hck & Hd & Hw & _ & Hr & Hh).
  assert (Hq : quiet c []) by (split; [done|done|]; intros x; rewrite bool_decide_eq_false_2 by apply not_elem_of_nil; apply Hr).
  apply wp_bind. eapply wp_eq; [apply iinit_table0|]. apply wp_bind. eapply wp_eq; [apply namei_slash|]. apply wp_bind, wp_modify. cbn [store sb itable cwd].
  unfold fsinit. apply wp_bind. eapply wp_readsb; [exact Hq|exact Hd|exact Hw|]. intros c' Hq' Hd' Hw'.
  apply wp_bind, wp_gets. cbn [sb]. change (magic mk_superblock =? FSMAGIC) with true. cbn [negb]. apply wp_liftS.
  eapply wp_mono; [apply (wp_initlog c' log0 mk_superblock); [done|done|done|done|done|]|].
  { rewrite Hd'. exact header_ok_image. }
  cbn beta zeta. intros [] s' (Hi & Est & Esz & Hout & Hcm & Hfs & ws & Hw2 & Hd2 & _). apply (HQ s' ws). rewrite Hd', Hw' in *.
  change (logstart mk_superblock) with 2 in *. change (nlog mk_superblock) with LOGSIZE in *.
  rewrite recovered_idle in Hfs by (rewrite header_zero; apply hdr_n_zero). change (log_idle 2 LOGSIZE m s' ws m). split_and!; try done. by apply eq_on_home.
Qed.

Lemma tab_table1 : tab in_image mk_superblock m None table1.
Proof.
  assert (He : forall i ip, table1 !! i = Some ip -> ip = Inode ROOTDEV ROOTINO 1 false false 0 0 0 0 0 (replicate 13 0) /\ i = 0%nat \/ ip = free_inode).
  { intros [|i] ip Hi; [left; by injection Hi as <-|right]. change (replicate 49 free_inode !! i = Some ip) in Hi. by apply lookup_replicate in Hi as [-> _]. }
  split.
  - intros i j ip jp Hi Hj (Hr & _) Hr'. destruct (He i ip Hi) as [[-> ->]| ->], (He j jp Hj) as [[-> ->]| ->]; done.
  - intros i ip Hi. destruct (He i ip Hi) as [[-> ->]| ->]; (split; [done|done|]); [|done]. intros _. split_and!; [done| |done]. unfold in_image. change (inum _) with 1. lia.
Qed.

Lemma fbytes_take fb ip c k : file_at m fb ip c -> bytes c -> (k <= length c)%nat -> fbytes m ip 0 k = take k c.
Proof.
  intros Hf Hb Hk. pose proof (file_at_bytes _ _ _ _ Hf Hb) as Hc. replace (length c) with (k + (length c - k))%nat in Hc by lia. rewrite fbytes_app in Hc.
  apply (f_equal (take k)) in Hc. rewrite take_app_length' in Hc by (by rewrite length_fbytes). done.
Qed.

Lemma walk_file n nm c : Forall (fun f => name_ok f.1) files -> findable files n nm c -> walk_path mk_superblock m ROOTINO (elems (SLASH :: nm)) = Some (Z.of_nat n + 2).
Proof.
  intros Hnm Hfi. pose proof Hfi as [_ [Hne Hs] _ _]. rewrite elems_root by done. cbn [walk_path]. change NINODES with 200 in Hlen.
  destruct (image_file ROOTINO) as (ty & c' & _ & Hp & Hcase); [unfold in_image; change ROOTINO with 1; lia|].
  assert (Hty : itype (dnode mk_superblock m ROOTINO) = T_DIR).
  { destruct Himg as [Hinv _]. destruct (mi_file _ _ _ Hinv 0%nat _ _ eq_refl) as [_ Hp']. unfold plain in Hp'. exact (f_equal itype Hp'). }
  rewrite Hty, Z.eqb_refl. destruct root_entries as [z ->]. change (Z.to_nat DIRSIZ) with 14%nat. by rewrite (dfind_root files n nm c z) by (done || lia).
Qed.

Lemma wp_read_path st w n nm c k (Q : option (list Z) -> fsys (lst bst) -> Prop) :
  idle st w m -> Forall (fun f => name_ok f.1) files -> findable files n nm c -> bytes c -> 0 <= k < 2 ^ 32 ->
  (forall s, Q (Some (take (Z.to_nat k) c)) s) -> wp (read_path m (SLASH :: nm) k) (Fsys st mk_superblock table1 0) Q.
Proof.
  intros Hi Hnm Hfi Hbc Hk HQ. pose proof Hfi as [Hf _ _ _]. pose proof (lookup_lt_Some _ _ _ Hf) as Hn. destruct (Forall_lookup_1 _ _ _ _ Hnm Hf) as [Hbn Hzn].
  unfold read_path. apply wp_bind, wp_liftS. eapply wp_mono; [exact (tx_begin_op st w m Hi)|]. cbn beta. intros [] st1 Ht1.
  assert (Hroom : forall q, (q <= 6)%nat -> room (H := image_store) [] [] q) by (intros q Hq; split; [change nbuf with 30%nat; cbn [length]; lia|change (@b_cap (lst bst) image_store) with 29%nat; cbn [length]; lia]).
  apply wp_bind. eapply wp_mono.
  { eapply (wp_namei in_image _ _ w m [] st1 table1 0 _ (SLASH :: nm) ROOTINO); [exact Ht1|exact bitmap_ok_image|exact tree_ok_image|exact tab_table1|by apply Hroom|by vm_compute| |done|done| | |done].
    - unfold in_image. change ROOTINO with 1. lia.
    - by apply Forall_cons_2.
    - intros x [->|Hx]%elem_of_cons; [done|by apply Hzn]. }
  intros r s (st2 & t2 & -> & Ht2 & Htab2 & Hres). rewrite (walk_file n nm c Hnm Hfi) in Hres. destruct Hres as (j & jp & -> & Hj & Hl & _). destruct Hl as (L1 & L2 & L3).
  assert (Him : in_image (inum jp)) by (rewrite L3; unfold in_image; lia).
  destruct (inode_ok_loaded _ _ _ _ tree_ok_image Him L2) as [Hiok Hnh]. pose proof (lookup_lt_Some _ _ _ Hj) as Hjl.
  destruct (image_file _ Him) as (ty & c' & Hfa & _ & Hcase). rewrite L3 in Hcase, Hfa.
  assert (c' = c) as ->.
  { destruct Hcase as [(_ & E & _)|(_ & f & Ef & ->)]; [change ROOTINO with 1 in E; lia|]. replace (Z.to_nat (Z.of_nat n + 2 - 2)) with n in Ef by lia. rewrite Hf in Ef. by injection Ef as <-. }
  apply wp_bind. eapply wp_ilock; [exact Htab2|exact tree_ok_image|exact Hj|done|exact Ht2|apply Hroom; lia|]. intros st3 Ht3. set (lp := loaded mk_superblock m jp) in *.
  assert (Hfl : forall q, fbytes m lp 0 q = fbytes m (dnode mk_superblock m (Z.of_nat n + 2)) 0 q) by (intros q; unfold lp; rewrite <- L3; done).
  assert (Hsl : isize lp = len c) by (rewrite <- (fa_size _ _ _ _ Hfa), <- L3; done).
  apply wp_bind. eapply (wp_readi (fun tot acc => acc = fbytes m lp 0 (Z.to_nat tot))); [exact Ht3|exact bitmap_ok_image|exact Hiok|exact Hnh|by apply list_lookup_insert_eq|by apply Hroom|done|done|done| |].
  - intros tot acc q -> Hq Htot _. eexists. split; [done|]. rewrite Z2Nat.inj_add, fbytes_app by lia. by rewrite Z2Nat.id.
  - intros st4 acc Ht4 ->. cbn [snd]. apply wp_bind. eapply wp_iunlockput; [by apply list_lookup_insert_eq|cbn; lia|done|apply (tr_used _ _ _ tree_ok_image _ Him)|].
    apply wp_bind, wp_liftS. eapply wp_mono; [exact (tx_end_op _ _ _ _ _ Ht4)|]. cbn beta. intros [] st5 _. apply wp_ret. rewrite Hfl.
    assert (Hmax : 0 <= len c <= 274432) by (split; [unfold len; lia|exact (fa_max _ _ _ _ Hfa)]).
    assert (Erl : read_len lp 0 k = Z.min k (len c)).
    { unfold read_len. rewrite Hsl, u32_small, Z.sub_0_r by lia. replace ((0 >? len c) || (0 + k <? 0)) with false; [done|]. symmetry. apply orb_false_iff. rewrite Z.gtb_ltb, !Z.ltb_ge. lia. }
    rewrite Erl, (fbytes_take _ _ c _ Hfa Hbc) by (unfold len; lia). replace (take (Z.to_nat (Z.min k (len c))) c) with (take (Z.to_nat k) c); [apply HQ|].
    destruct (Z.le_gt_cases k (len c)); [by rewrite Z.min_l|]. rewrite Z.min_r by lia. rewrite !take_ge by (unfold len in *; lia). done.
Qed.
End Image.



Lemma namei_correct_witness : exists m (st : lst bst) w,
  @tx _ (image_store m) st w m m [] [] /\ walk_path mk_superblock m ROOTINO (elems [47; 99; 97; 116]) = Some 2 /\
  wp (@namei _ (image_store m) [47; 99; 97; 116]) (Fsys st mk_superblock table1 0)
    (@namei_result _ (image_store m) (in_image mk_files0) mk_superblock m w m [] 0 table1 ROOTINO (elems [47; 99; 97; 116])).
Proof.
  destruct (wp_inv _ _ _ (wp_mkfs_main mk_host0 [cat_arg] mk_files0 (fun _ s => image_of mk_files0 (img s)) mkfs_args0
    (fun m fi Hinv => last_steps_ok mk_files0 m Hinv ltac:(done) ltac:(done)))) as ([] & s & _ & Himg). set (m := img s) in *.
  destruct (wp_inv _ _ _ (wp_boot_fs mk_files0 m Himg 1 (fun _ s => exists st w, @idle _ (image_store m) st w m) (fun st w Hi => ex_intro _ st (ex_intro _ w Hi)))) as ([] & _ & _ & st0 & w & Hi).
  destruct (wp_inv _ _ _ (@tx_begin_op _ (image_store m) st0 w m Hi)) as ([] & st & _ & Ht). exists m, st, w. split; [exact Ht|]. split.
  - apply (walk_file mk_files0 m Himg ltac:(done) 0 [99; 97; 116] [127; 69; 76; 70]).
    + apply Forall_cons_2; [|by apply Forall_nil]. split; [by repeat constructor|]. cbn. intros x Hx. set_solver by lia.
    + split; [done|split; [done|by intros Hs%(bool_decide_eq_true_2 _)]|done|]. intros n' f Hn'. lia.
  - apply (@namei_correct _ (image_store m) (in_image mk_files0) mk_superblock m w m [] st table1 0 (Inode ROOTDEV ROOTINO 1 false false 0 0 0 0 0 (replicate 13 0)) [47; 99; 97; 116] ROOTINO).
    + exact Ht.
    + exact (bitmap_ok_image mk_files0 m Himg).
    + exact (tree_ok_image mk_files0 m Himg ltac:(done)).
    + exact (tab_table1 mk_files0 m).
    + split; [by vm_compute; lia|change (@b_cap (lst bst) (image_store m)) with 29%nat; cbn [length]; lia].
    + by vm_compute.
    + by vm_compute.
    + done.
    + done.
    + by repeat constructor.
    + intros x Hx. set_solver by lia.
    + done.
Defined.
