(* ===== verification/Pipe.v ===== *)
(** * kernel/pipe.c

    A pipe is a ring of [PIPESIZE] bytes with two 32-bit counters that wrap.
    [pipewrite] and [piperead] run in critical sections of the pipe's lock: a
    section runs until the call returns or has to sleep, and [pipewrite_run]
    and [piperead_run] are one section each.  The system of several readers
    and writers interleaves sections; it carries the bytes ever written and
    ever read as ghost state. *)
From S2P Require Import Prelude.

Definition PIPESIZE : Z := 512.

Record pipe : Type := Pipe {
  pdata : list Z;
  pnread : Z;
  pnwrite : Z;
  preadopen : bool;
  pwriteopen : bool;
}.

(** The pipe [pipealloc] sets up in a fresh page, whose bytes are arbitrary. *)
Definition pipe_init (page : list Z) : pipe := Pipe page 0 0 true true.

(** The end of a critical section: the call wakes the other side and returns a
    value, returns -1 without waking anyone, or sleeps. *)
Inductive section (A : Type) : Type :=
| Done (r : Z)
| Fail
| Sleep (rest : A).
Arguments Done {A} r.
Arguments Fail {A}.
Arguments Sleep {A} rest.

Definition is_full (pi : pipe) : bool := pnwrite pi =? u32 (pnread pi + PIPESIZE).
Definition is_empty (pi : pipe) : bool := pnread pi =? pnwrite pi.

(** [pi->data[pi->nwrite++ % PIPESIZE] = ch;] *)
Definition put_byte (ch : Z) (pi : pipe) : pipe :=
  Pipe (<[Z.to_nat (pnwrite pi mod PIPESIZE) := u8 ch]> (pdata pi)) (pnread pi) (u32 (pnwrite pi + 1)) (preadopen pi) (pwriteopen pi).
(** [ch = pi->data[pi->nread++ % PIPESIZE];] *)
Definition get_byte (pi : pipe) : Z * pipe :=
  (default 0 (pdata pi !! Z.to_nat (pnread pi mod PIPESIZE)),
   Pipe (pdata pi) (u32 (pnread pi + 1)) (pnwrite pi) (preadopen pi) (pwriteopen pi)).

(** The loop of [pipewrite] from byte [i], with [k] bytes to go.  [src i] is the
    byte at [addr + i], [None] if [copyin] fails; [killed i] is what [killed]
    answers before that byte, since another CPU can kill the writer meanwhile.
    A sleeping writer has woken the readers and resumes at the byte it stopped
    at. *)
Fixpoint pipewrite_run (k : nat) (killed : Z -> bool) (src : Z -> option Z) (i : Z) (pi : pipe) : pipe * section Z :=
  match k with
  | O => (pi, Done i)
  | S k' =>
      if negb (preadopen pi) || killed i then (pi, Fail)
      else if is_full pi then (pi, Sleep i)
      else match src i with
           | None => (pi, Done i)
           | Some ch => pipewrite_run k' killed src (i + 1) (put_byte ch pi)
           end
  end.
Definition pipewrite (n : Z) (killed : Z -> bool) (src : Z -> option Z) (i : Z) (pi : pipe) : pipe * section Z :=
  pipewrite_run (Z.to_nat (n - i)) killed src i pi.

(** The copy loop of [piperead]: the bytes taken out of the pipe, the pipe, the
    user memory and the value returned.  [out] is [copyout] of one byte to
    [addr + i], on the user memory; the byte is taken out of the pipe before it is
    copied, so that when [copyout] fails the last byte of the list is not
    delivered. *)
Fixpoint piperead_copy {A} (k : nat) (out : A -> Z -> Z -> A * bool) (acc : A) (i : Z) (pi : pipe) : list Z * pipe * A * Z :=
  match k with
  | O => ([], pi, acc, i)
  | S k' =>
      if is_empty pi then ([], pi, acc, i)
      else let '(ch, pi1) := get_byte pi in
           match out acc i ch with
           | (acc1, true) => let '(l, pi2, acc2, r) := piperead_copy k' out acc1 (i + 1) pi1 in (ch :: l, pi2, acc2, r)
           | (acc1, false) => ([ch], pi1, acc1, i)
           end
  end.
Definition piperead_run {A} (n : Z) (killed : bool) (out : A -> Z -> Z -> A * bool) (acc : A) (pi : pipe) : list Z * pipe * A * section unit :=
  if is_empty pi && pwriteopen pi then
    if killed then ([], pi, acc, Fail) else ([], pi, acc, Sleep tt)
  else let '(l, pi', acc', r) := piperead_copy (Z.to_nat n) out acc 0 pi in (l, pi', acc', Done r).

(** [pipeclose]: the pipe afterwards, and whether it was freed. *)
Definition pipeclose (writable : bool) (pi : pipe) : pipe * bool :=
  let pi' := if writable then Pipe (pdata pi) (pnread pi) (pnwrite pi) (preadopen pi) false
             else Pipe (pdata pi) (pnread pi) (pnwrite pi) false (pwriteopen pi) in
  (pi', negb (preadopen pi') && negb (pwriteopen pi')).

(** ** The bytes in the pipe *)

Definition count (pi : pipe) : Z := u32 (pnwrite pi - pnread pi).
Definition queue (pi : pipe) : list Z :=
  (fun i => pdata pi !!! Z.to_nat (u32 (pnread pi + Z.of_nat i) mod PIPESIZE)) <$> seq 0 (Z.to_nat (count pi)).

Record pipe_ok (pi : pipe) : Prop := PipeOk {
  po_len : length (pdata pi) = Z.to_nat PIPESIZE;
  po_nread : 0 <= pnread pi < 2 ^ 32;
  po_nwrite : 0 <= pnwrite pi < 2 ^ 32;
  po_count : count pi <= PIPESIZE;
}.

Lemma u32_sub_add a c : 0 <= c < 2 ^ 32 -> u32 (u32 (a + c) - a) = c.
Proof. intros Hc. unfold u32. rewrite Zminus_mod_idemp_l. replace (a + c - a) with c by lia. by apply Z.mod_small. Qed.

Lemma nwrite_eq pi : pipe_ok pi -> pnwrite pi = u32 (pnread pi + count pi).
Proof.
  intros [_ Hr Hw _]. unfold count, u32. rewrite Zplus_mod_idemp_r. replace (pnread pi + (pnwrite pi - pnread pi)) with (pnwrite pi) by lia.
  symmetry. by apply Z.mod_small.
Qed.

Lemma count_range pi : 0 <= count pi < 2 ^ 32.
Proof. apply u32_range. Qed.

Lemma length_queue pi : Z.of_nat (length (queue pi)) = count pi.
Proof. unfold queue. rewrite length_fmap, length_seq. pose proof (count_range pi). lia. Qed.

Lemma is_full_spec pi : pipe_ok pi -> is_full pi = (count pi =? PIPESIZE).
Proof.
  intros Hok. pose proof (nwrite_eq pi Hok) as E. pose proof (count_range pi). unfold is_full.
  destruct (Z.eqb_spec (count pi) PIPESIZE) as [Hc|Hc]; [rewrite E, Hc; apply Z.eqb_refl|].
  apply Z.eqb_neq. intros E'. apply Hc. unfold count. rewrite E'. apply u32_sub_add. done.
Qed.

Lemma is_empty_spec pi : pipe_ok pi -> is_empty pi = (count pi =? 0).
Proof.
  intros Hok. pose proof (nwrite_eq pi Hok) as E. destruct Hok as [_ Hr Hw _]. unfold is_empty.
  destruct (Z.eqb_spec (count pi) 0) as [Hc|Hc].
  - rewrite Hc, Z.add_0_r, u32_small in E by done. rewrite E. apply Z.eqb_refl.
  - apply Z.eqb_neq. intros E'. apply Hc. unfold count. rewrite E', Z.sub_diag. done.
Qed.

(** A ring index as a function of the unwrapped counter: 512 divides 2^32. *)
Lemma ring_mod x : u32 x mod PIPESIZE = x mod PIPESIZE.
Proof.
  unfold u32, PIPESIZE. apply Z.mod_mod_divide. by exists 8388608.
Qed.

Lemma ring_index x : (Z.to_nat (x mod PIPESIZE) < Z.to_nat PIPESIZE)%nat.
Proof. pose proof (Z.mod_pos_bound x PIPESIZE ltac:(done)). lia. Qed.

Lemma ring_ne a i c : 0 <= i < c -> c <= PIPESIZE -> c < PIPESIZE -> (a + i) mod PIPESIZE <> (a + c) mod PIPESIZE.
Proof.
  intros Hi Hc Hlt E. unfold PIPESIZE in *. pose proof (Z.div_mod (a + i) 512). pose proof (Z.div_mod (a + c) 512). lia.
Qed.

(** Storing a byte appends it to the queue. *)
Lemma put_byte_spec ch pi : pipe_ok pi -> count pi < PIPESIZE -> 0 <= ch < 256 ->
  pipe_ok (put_byte ch pi) /\ queue (put_byte ch pi) = queue pi ++ [ch] /\ count (put_byte ch pi) = count pi + 1.
Proof.
  intros Hok Hlt Hch. pose proof (nwrite_eq pi Hok) as Ew. pose proof (count_range pi) as Hcr. pose proof Hok as [Hlen Hr Hw _].
  assert (Hc : count (put_byte ch pi) = count pi + 1).
  { unfold count at 1. cbn [put_byte pnwrite pnread]. rewrite Ew. unfold u32 at 2. unfold u32 at 2. rewrite Zplus_mod_idemp_l.
    replace (pnread pi + count pi + 1) with (pnread pi + (count pi + 1)) by lia. apply u32_sub_add.
    unfold PIPESIZE in Hlt. lia. }
  split_and!; [|..|done].
  - split; cbn [put_byte pdata pnread pnwrite]; [by rewrite length_insert|done|apply u32_range|lia].
  - unfold queue at 1. rewrite Hc, Z2Nat.inj_add by lia. change (Z.to_nat 1) with 1%nat. rewrite seq_app, fmap_app, Nat.add_0_l.
    cbn [put_byte pdata pnread]. f_equal.
    + unfold queue. apply list_fmap_ext. intros i j [-> Hi]%lookup_seq. rewrite Nat.add_0_l, !list_lookup_total_alt.
      rewrite list_lookup_insert_ne; [done|]. rewrite Ew, !ring_mod. intros E.
      apply (ring_ne (pnread pi) (Z.of_nat i) (count pi)); [lia|lia|lia|].
      pose proof (Z.mod_pos_bound (pnread pi + count pi) PIPESIZE ltac:(done)). pose proof (Z.mod_pos_bound (pnread pi + Z.of_nat i) PIPESIZE ltac:(done)). lia.
    + cbn. rewrite Z2Nat.id by lia. rewrite <- Ew, u8_small, list_lookup_total_alt, list_lookup_insert_eq by (try lia; rewrite Hlen; apply ring_index). done.
Qed.

Lemma get_byte_spec pi : pipe_ok pi -> 0 < count pi ->
  let '(ch, pi') := get_byte pi in
  pipe_ok pi' /\ queue pi = ch :: queue pi' /\ count pi' = count pi - 1 /\ preadopen pi' = preadopen pi /\ pwriteopen pi' = pwriteopen pi.
Proof.
  intros Hok Hpos. pose proof (nwrite_eq pi Hok) as Ew. pose proof (count_range pi) as Hcr. pose proof Hok as [Hlen Hr Hw Hcnt].
  unfold get_byte. set (pi' := Pipe _ _ _ _ _).
  assert (Hc : count pi' = count pi - 1).
  { unfold count, pi', u32. cbn [pnwrite pnread]. rewrite Zminus_mod_idemp_r. unfold count, u32 in Hpos, Hcr.
    replace (pnwrite pi - (pnread pi + 1)) with (pnwrite pi - pnread pi - 1) by lia. rewrite <- Zminus_mod_idemp_l. apply Z.mod_small. lia. }
  split_and!; try done.
  - split; try done; [apply u32_range|lia].
  - unfold queue at 1. replace (Z.to_nat (count pi)) with (S (Z.to_nat (count pi'))) by lia. cbn [seq]. rewrite fmap_cons. f_equal.
    + rewrite Z.add_0_r, u32_small by lia. destruct (lookup_lt_is_Some_2 (pdata pi) (Z.to_nat (pnread pi mod PIPESIZE))) as [x Hx]; [rewrite Hlen; apply ring_index|].
      by rewrite (list_lookup_total_correct _ _ _ Hx), Hx.
    + unfold queue. rewrite <- fmap_S_seq, <- list_fmap_compose. apply list_fmap_ext. intros i j [-> Hi]%lookup_seq. cbn [compose]. rewrite Nat.add_0_l.
      unfold pi'. cbn [pdata pnread]. do 3 f_equal. unfold u32. rewrite Zplus_mod_idemp_l. f_equal. lia.
Qed.

(** ** What a section does to the queue *)

Definition same_ends (pi pi' : pipe) : Prop := preadopen pi' = preadopen pi /\ pwriteopen pi' = pwriteopen pi.

(** The bytes of the user buffer [buf] from [i] on. *)
Definition from_buf (buf : list Z) (i : Z) : option Z := buf !! Z.to_nat i.

Definition write_end (buf : list Z) (killed : Z -> bool) (j : Z) (pi : pipe) (r : section Z) : Prop :=
  match r with
  | Done i => i = j /\ (buf !! Z.to_nat j = None)
  | Fail => preadopen pi = false \/ killed j = true
  | Sleep i => i = j /\ count pi = PIPESIZE /\ preadopen pi = true
  end.

Lemma pipewrite_run_spec buf killed k i pi :
  pipe_ok pi -> 0 <= i -> (Z.to_nat i + k)%nat = length buf -> Forall (fun x => 0 <= x < 256) buf ->
  let '(pi', r) := pipewrite_run k killed (from_buf buf) i pi in
  exists m, (m <= k)%nat /\ pipe_ok pi' /\ queue pi' = queue pi ++ take m (drop (Z.to_nat i) buf) /\
    count pi' = count pi + Z.of_nat m /\ same_ends pi pi' /\ pnread pi' = pnread pi /\ write_end buf killed (i + Z.of_nat m) pi' r.
Proof.
  intros Hok Hi Hk HB. revert i pi Hok Hi Hk. induction k as [|k IH]; intros i pi Hok Hi Hk; cbn [pipewrite_run].
  { exists 0%nat. rewrite take_0, app_nil_r. split_and!; [lia|done|done|lia|done|done|]. split; [lia|apply lookup_ge_None_2; lia]. }
  destruct (negb (preadopen pi) || killed i) eqn:Ek.
  { exists 0%nat. rewrite take_0, app_nil_r. change (Z.of_nat 0) with 0. rewrite !Z.add_0_r. split_and!; [lia|done|done|lia|done|done|].
    cbn [write_end]. apply orb_prop in Ek as [Ek|Ek]; [left; by apply negb_true_iff in Ek|by right]. }
  rewrite is_full_spec by done. destruct (Z.eqb_spec (count pi) PIPESIZE) as [Hf|Hf].
  { exists 0%nat. rewrite take_0, app_nil_r. split_and!; [lia|done|done|lia|done|done|]. split_and!; [lia|done|].
    apply orb_false_elim in Ek as [Ek _]. by apply negb_false_iff in Ek. }
  pose proof (po_count _ Hok). destruct (lookup_lt_is_Some_2 buf (Z.to_nat i)) as [x Hx]; [lia|].
  unfold from_buf at 1. rewrite Hx. pose proof (Forall_lookup_1 _ _ _ _ HB Hx) as Hxr. cbn beta in Hxr.
  destruct (put_byte_spec x pi Hok) as (Hok1 & Hq1 & Hc1); [lia|done|].
  specialize (IH (i + 1) (put_byte x pi) Hok1 ltac:(lia) ltac:(lia)).
  destruct (pipewrite_run k killed (from_buf buf) (i + 1) (put_byte x pi)) as [pi' r].
  destruct IH as (m & Hm & Hok' & Hq & Hc & He & Hn & Hr). exists (S m).
  rewrite (drop_S _ _ _ Hx), firstn_cons. replace (S (Z.to_nat i)) with (Z.to_nat (i + 1)) by lia.
  split_and!; [lia|done| |lia|apply He|done|]; [by rewrite Hq, Hq1, <- app_assoc|].
  by replace (i + Z.of_nat (S m)) with (i + 1 + Z.of_nat m) by lia.
Qed.

Lemma piperead_copy_spec {A} (out : A -> Z -> Z -> A * bool) acc k i pi : pipe_ok pi ->
  let '(l, pi', _, r) := piperead_copy k out acc i pi in
  pipe_ok pi' /\ queue pi = l ++ queue pi' /\ same_ends pi pi' /\
  ((r = i + Z.of_nat (length l) /\ length l = (k `min` length (queue pi))%nat) \/
   (r = i + Z.of_nat (length l) - 1 /\ exists a ch, (out a r ch).2 = false)).
Proof.
  revert acc i pi. induction k as [|k IH]; intros acc i pi Hok; cbn [piperead_copy].
  { split_and!; try done. left. cbn [length]. lia. }
  rewrite is_empty_spec by done. pose proof (length_queue pi) as Hl. destruct (Z.eqb_spec (count pi) 0) as [Hc|Hc].
  { split_and!; try done. left. cbn [length]. lia. }
  pose proof (count_range pi). pose proof (get_byte_spec pi Hok ltac:(lia)) as Hg.
  destruct (get_byte pi) as [ch pi1]. destruct Hg as (Hok1 & Hq & Hc1 & Hr1 & Hw1).
  destruct (out acc i ch) as [acc1 []] eqn:Ei.
  - specialize (IH acc1 (i + 1) pi1 Hok1). destruct (piperead_copy k out acc1 (i + 1) pi1) as [[[l pi'] acc2] r].
    destruct IH as (Hok' & Hq' & [He1 He2] & Hr). rewrite Hq in *. cbn [length app] in *.
    split_and!; [done|by rewrite Hq' at 1|split; congruence|].
    destruct Hr as [[-> Hr]|[-> (a & c & Hr)]]; [left; lia|right]. split; [lia|]. by exists a, c.
  - split_and!; try done. right. cbn [length]. replace (i + Z.of_nat 1 - 1) with i by lia. split; [done|]. exists acc, ch. by rewrite Ei.
Qed.

(** ** Readers and writers

    The calls in progress on one pipe: each is about to run a section (it was
    just made, or was woken), sleeps, or has returned.  [sent] and [taken] are
    the bytes put into and taken out of the pipe so far. *)

Inductive writer : Type :=
| WRun (buf : list Z) (i : Z)
| WSleep (buf : list Z) (i : Z)
| WRet (r : Z).
Inductive reader : Type :=
| RRun (n : Z)
| RSleep (n : Z)
| RRet (r : Z).

Record psys : Type := Psys {
  ring : pipe;
  writers : list writer;
  readers : list reader;
  sent : list Z;
  taken : list Z;
}.

(** [wakeup(&pi->nwrite)] and [wakeup(&pi->nread)]. *)
Definition wake_writer (w : writer) : writer := match w with WSleep b i => WRun b i | w => w end.
Definition wake_reader (r : reader) : reader := match r with RSleep n => RRun n | r => r end.

(** Where a writer is after a section, and whether it woke the readers. *)
Definition writer_after (buf : list Z) (r : section Z) : writer :=
  match r with Done i => WRet i | Fail => WRet (-1) | Sleep i => WSleep buf i end.
Definition write_wakes (r : section Z) : bool := match r with Fail => false | _ => true end.
Definition reader_after (n : Z) (r : section unit) : reader :=
  match r with Done i => RRet i | Fail => RRet (-1) | Sleep _ => RSleep n end.
Definition read_wakes (r : section unit) : bool := match r with Done _ => true | _ => false end.

Definition moved (pi pi' : pipe) : nat := Z.to_nat (u32 (pnwrite pi' - pnwrite pi)).

(** One step of the system.  With [mid = false] a writer learns that it was
    killed only between sections. *)
Inductive pstep (mid : bool) : psys -> psys -> Prop :=
| step_open_write pi ws rs st tk buf : Forall (fun x => 0 <= x < 256) buf ->
    pstep mid (Psys pi ws rs st tk) (Psys pi (ws ++ [WRun buf 0]) rs st tk)
| step_open_read pi ws rs st tk n :
    pstep mid (Psys pi ws rs st tk) (Psys pi ws (rs ++ [RRun n]) st tk)
| step_write pi ws rs st tk j buf i killed pi' r :
    ws !! j = Some (WRun buf i) -> (mid = false -> forall a b, killed a = killed b) ->
    pipewrite (Z.of_nat (length buf)) killed (from_buf buf) i pi = (pi', r) ->
    pstep mid (Psys pi ws rs st tk)
      (Psys pi' (<[j := writer_after buf r]> ws) (if write_wakes r then wake_reader <$> rs else rs)
         (st ++ take (moved pi pi') (drop (Z.to_nat i) buf)) tk)
| step_read pi ws rs st tk j n killed A (out : A -> Z -> Z -> A * bool) acc l pi' acc' r :
    rs !! j = Some (RRun n) -> piperead_run n killed out acc pi = (l, pi', acc', r) ->
    pstep mid (Psys pi ws rs st tk)
      (Psys pi' (if read_wakes r then wake_writer <$> ws else ws) (<[j := reader_after n r]> rs) st (tk ++ l))
| step_close_write pi ws rs st tk :
    pstep mid (Psys pi ws rs st tk) (Psys (pipeclose true pi).1 ws (wake_reader <$> rs) st tk)
| step_close_read pi ws rs st tk :
    pstep mid (Psys pi ws rs st tk) (Psys (pipeclose false pi).1 (wake_writer <$> ws) rs st tk)
| step_kill_writer pi ws rs st tk j w : ws !! j = Some w ->
    pstep mid (Psys pi ws rs st tk) (Psys pi (<[j := wake_writer w]> ws) rs st tk)
| step_kill_reader pi ws rs st tk j r : rs !! j = Some r ->
    pstep mid (Psys pi ws rs st tk) (Psys pi ws (<[j := wake_reader r]> rs) st tk).

Definition psys_init (page : list Z) : psys := Psys (pipe_init page) [] [] [] [].
Definition preachable (mid : bool) (page : list Z) : psys -> Prop := rtc (pstep mid) (psys_init page).

(** A writer's buffer holds bytes and its index is within it. *)
Definition writer_ok (w : writer) : Prop :=
  match w with
  | WRun buf i | WSleep buf i => Forall (fun x => 0 <= x < 256) buf /\ 0 <= i <= Z.of_nat (length buf)
  | WRet _ => True
  end.

Record fifo (s : psys) : Prop := Fifo {
  fi_ok : pipe_ok (ring s);
  fi_writers : Forall writer_ok (writers s);
  fi_data : sent s = taken s ++ queue (ring s);
}.

Lemma wake_writer_ok w : writer_ok w -> writer_ok (wake_writer w).
Proof. by destruct w. Qed.

Lemma Forall_wake ws : Forall writer_ok ws -> Forall writer_ok (wake_writer <$> ws).
Proof. intros H. apply Forall_fmap. eapply Forall_impl; [exact H|]. intros w. apply wake_writer_ok. Qed.

Lemma close_queue b pi : queue (pipeclose b pi).1 = queue pi.
Proof. by destruct b. Qed.
Lemma close_ok b pi : pipe_ok pi -> pipe_ok (pipeclose b pi).1.
Proof. intros [? ? ? ?]. by destruct b. Qed.

(** What one write section does, by the counters. *)
Lemma write_section buf killed i pi pi' r : pipe_ok pi -> writer_ok (WRun buf i) ->
  pipewrite (Z.of_nat (length buf)) killed (from_buf buf) i pi = (pi', r) ->
  pipe_ok pi' /\ queue pi' = queue pi ++ take (moved pi pi') (drop (Z.to_nat i) buf) /\ writer_ok (writer_after buf r) /\
  same_ends pi pi' /\ count pi' = count pi + Z.of_nat (moved pi pi') /\ write_end buf killed (i + Z.of_nat (moved pi pi')) pi' r.
Proof.
  intros Hok [HB Hi] E. unfold pipewrite in E.
  pose proof (pipewrite_run_spec buf killed (Z.to_nat (Z.of_nat (length buf) - i)) i pi Hok ltac:(lia) ltac:(lia) HB) as H.
  rewrite E in H. destruct H as (m & Hm & Hok' & Hq & Hc & He & Hn & Hend).
  assert (moved pi pi' = m) as ->; [|split_and!; [done|done| |done|done|done]].
  - unfold moved. rewrite (nwrite_eq pi'), (nwrite_eq pi), Hn, Hc by done. pose proof (po_count _ Hok'). pose proof (count_range pi).
    unfold u32 at 2 3. unfold u32. rewrite <- Zminus_mod. replace (pnread pi + (count pi + Z.of_nat m) - (pnread pi + count pi)) with (Z.of_nat m) by lia.
    rewrite Z.mod_small by (unfold PIPESIZE in *; lia). lia.
  - destruct r as [r| |k]; [done|done|]. destruct Hend as (-> & _). split; [done|lia].
Qed.

Lemma fifo_step mid s s' : pstep mid s s' -> fifo s -> fifo s'.
Proof.
  intros H [Hok HW HD]. destruct H; cbn [ring writers sent taken] in *.
  - split; [done| |done]. apply Forall_app. split; [done|]. repeat constructor; [done|lia|lia].
  - by split.
  - pose proof (Forall_lookup_1 _ _ _ _ HW H) as Hw. destruct (write_section _ _ _ _ _ _ Hok Hw H1) as (Hok' & Hq & Hr & _).
    split; cbn [ring writers sent taken]; [done|by apply Forall_insert|]. by rewrite Hq, HD, app_assoc.
  - assert (pipe_ok pi' /\ queue pi = l ++ queue pi') as [Hok' Hq].
    { revert H0. unfold piperead_run. destruct (is_empty pi && pwriteopen pi); [destruct killed; intros [= <- <- <- <-]; done|].
      pose proof (piperead_copy_spec out acc (Z.to_nat n) 0 pi Hok) as Hs. destruct (piperead_copy (Z.to_nat n) out acc 0 pi) as [[[l0 p0] a0] r0].
      intros [= <- <- <- <-]. by destruct Hs as (? & ? & _). }
    split; cbn [ring writers sent taken]; [done|destruct (read_wakes r); [by apply Forall_wake|done]|by rewrite HD, Hq, app_assoc].
  - split; cbn [ring writers sent taken]; [by apply close_ok|done|by rewrite close_queue].
  - split; cbn [ring writers sent taken]; [by apply close_ok|by apply Forall_wake|by rewrite close_queue].
  - split; cbn [ring writers sent taken]; [done| |done]. apply Forall_insert; [done|]. apply wake_writer_ok. by eapply Forall_lookup_1.
  - by split.
Qed.

Lemma pipe_init_ok page : length page = Z.to_nat PIPESIZE -> pipe_ok (pipe_init page).
Proof. intros Hl. split; cbn; [done|lia|lia|done]. Qed.

Lemma fifo_reachable mid page s : length page = Z.to_nat PIPESIZE -> preachable mid page s -> fifo s.
Proof.
  intros Hl Hr. unfold preachable in Hr. assert (Hi : fifo (psys_init page)) by (split; [by apply pipe_init_ok|constructor|done]).
  induction Hr as [|? ? ? Hst _ IH]; [done|]. apply IH. by eapply fifo_step.
Qed.

(** ** No lost wakeups *)

Definition reader_awake (pi : pipe) (r : reader) : Prop :=
  match r with RSleep _ => count pi = 0 /\ pwriteopen pi = true | _ => True end.
Definition writer_awake (pi : pipe) (w : writer) : Prop :=
  match w with WSleep _ _ => count pi = PIPESIZE /\ preadopen pi = true | _ => True end.
Record awake (s : psys) : Prop := Awake {
  aw_writers : Forall (writer_awake (ring s)) (writers s);
  aw_readers : Forall (reader_awake (ring s)) (readers s);
}.

Lemma Forall_woken_readers pi rs : Forall (reader_awake pi) (wake_reader <$> rs).
Proof. apply Forall_fmap. apply Forall_true. by intros []. Qed.
Lemma Forall_woken_writers pi ws : Forall (writer_awake pi) (wake_writer <$> ws).
Proof. apply Forall_fmap. apply Forall_true. by intros []. Qed.

Lemma writers_awake_mono pi pi' ws : (count pi = PIPESIZE -> count pi' = PIPESIZE) -> preadopen pi' = preadopen pi ->
  Forall (writer_awake pi) ws -> Forall (writer_awake pi') ws.
Proof. intros Hc Ho H. eapply Forall_impl; [exact H|]. intros [] Hw; try done. destruct Hw. split; [auto|congruence]. Qed.
Lemma readers_awake_mono pi pi' rs : count pi' = count pi -> pwriteopen pi' = pwriteopen pi ->
  Forall (reader_awake pi) rs -> Forall (reader_awake pi') rs.
Proof. intros Hc Ho H. eapply Forall_impl; [exact H|]. intros [] Hw; try done. destruct Hw. split; congruence. Qed.

Lemma read_section {A} n killed (out : A -> Z -> Z -> A * bool) acc pi l pi' acc' r :
  pipe_ok pi -> piperead_run n killed out acc pi = (l, pi', acc', r) ->
  same_ends pi pi' /\ (read_wakes r = false -> pi' = pi) /\
  (is_empty pi && pwriteopen pi = negb (read_wakes r)).
Proof.
  intros Hok. unfold piperead_run. destruct (is_empty pi && pwriteopen pi) eqn:E; [destruct killed; intros [= <- <- <- <-]; done|].
  pose proof (piperead_copy_spec out acc (Z.to_nat n) 0 pi Hok) as Hs. destruct (piperead_copy (Z.to_nat n) out acc 0 pi) as [[[l0 p0] a0] r0].
  intros [= <- <- <- <-]. by destruct Hs as (_ & _ & ? & _).
Qed.

(** A writer that fails without having been killed in the middle wrote nothing. *)
Lemma write_fail_nothing src killed k i pi pi' : (forall a b, killed a = killed b) ->
  pipewrite_run k killed src i pi = (pi', Fail) -> pi' = pi.
Proof.
  intros Hu. assert (Hg : forall k i pi, negb (preadopen pi) || killed i = false -> (pipewrite_run k killed src i pi).2 <> Fail).
  { clear k i pi pi'. induction k as [|k IH]; intros i pi Hn; cbn [pipewrite_run]; [done|]. rewrite Hn.
    destruct (is_full pi); [done|]. destruct (src i); [|done]. apply IH. by rewrite (Hu (i + 1) i). }
  intros E. destruct k as [|k]; cbn [pipewrite_run] in E; [by injection E|].
  destruct (negb (preadopen pi) || killed i) eqn:Hn; [by injection E|]. exfalso.
  apply (Hg (S k) i pi Hn). cbn [pipewrite_run]. by rewrite Hn, E.
Qed.

Lemma awake_step s s' : pstep false s s' -> fifo s -> awake s -> awake s'.
Proof.
  intros H [Hok HW _] [AW AR]. destruct H; cbn [ring writers readers] in *.
  - split; [|done]. apply Forall_app. by split; [|repeat constructor].
  - split; [done|]. apply Forall_app. by split; [|repeat constructor].
  - pose proof (Forall_lookup_1 _ _ _ _ HW H) as Hw. destruct (write_section _ _ _ _ _ _ Hok Hw H1) as (Hok' & _ & _ & [He1 He2] & Hc & Hend).
    pose proof (po_count _ Hok'). split; cbn [ring writers readers].
    + apply Forall_insert; [apply (writers_awake_mono pi); [lia|done|done]|]. destruct r; [done|done|]. by destruct Hend as (_ & ? & ?).
    + destruct (write_wakes r) eqn:Er; [apply Forall_woken_readers|]. destruct r; try done.
      by rewrite (write_fail_nothing _ _ _ _ _ _ (H0 eq_refl) H1).
  - destruct (read_section _ _ _ _ _ _ _ _ _ Hok H0) as ([He1 He2] & Hsame & Hsl). rewrite is_empty_spec in Hsl by done.
    split; cbn [ring writers readers].
    + destruct (read_wakes r) eqn:Er; [apply Forall_woken_writers|]. by rewrite (Hsame eq_refl).
    + destruct r as [k| |u]; cbn [read_wakes negb reader_after] in *.
      * apply Forall_insert; [|done]. eapply Forall_impl; [exact AR|]. intros [] Hr; try done. destruct Hr as [Hr1 Hr2].
        rewrite Hr1, Hr2 in Hsl. done.
      * rewrite (Hsame eq_refl). by apply Forall_insert.
      * rewrite (Hsame eq_refl). apply Forall_insert; [done|]. apply andb_prop in Hsl as [Hz ?]. apply Z.eqb_eq in Hz. done.
  - split; cbn [ring writers readers]; [|apply Forall_woken_readers]. by apply (writers_awake_mono pi).
  - split; cbn [ring writers readers]; [apply Forall_woken_writers|]. by apply (readers_awake_mono pi).
  - split; cbn [ring writers readers]; [|done]. apply Forall_insert; [done|]. by destruct w.
  - split; cbn [ring writers readers]; [done|]. apply Forall_insert; [done|]. by destruct r.
Qed.

Lemma awake_reachable page s : length page = Z.to_nat PIPESIZE -> preachable false page s -> awake s.
Proof.
  intros Hl Hr. enough (fifo s /\ awake s) by tauto. unfold preachable in Hr.
  assert (Hi : fifo (psys_init page) /\ awake (psys_init page)) by (repeat split; [cbn; lia..|done|constructor|constructor|constructor]).
  induction Hr as [|? ? ? Hst _ IH]; [done|]. destruct Hi as [HF HA]. apply IH. split; [by eapply fifo_step|by eapply awake_step].
Qed.

(** ** Theorems *)

(** C19: A pipe is a bounded queue.  However the sections of any number of
    readers and writers, the closing of either end and kills are interleaved,
    and however often the 32-bit counters wrap, the bytes taken out followed by
    the bytes still in the ring are exactly the bytes put in, in order, and the
    ring never holds more than [PIPESIZE]. *)
Theorem pipe_fifo mid page s : length page = Z.to_nat PIPESIZE -> preachable mid page s ->
  sent s = taken s ++ queue (ring s) /\ (length (queue (ring s)) <= Z.to_nat PIPESIZE)%nat.
Proof.
  intros Hl Hr. destruct (fifo_reachable mid page s Hl Hr) as [Hok _ HD]. split; [done|].
  pose proof (length_queue (ring s)). pose proof (po_count _ Hok). lia.
Qed.

(** A page for the examples, and a system in which a writer puts three bytes and
    a reader of two is then served. *)
Definition page0 : list Z := repeat 5 512.
Definition pipe3 : pipe := (pipewrite 3 (fun _ => false) (from_buf [7; 8; 9]) 0 (pipe_init page0)).1.

Lemma pipe_fifo_witness : exists s, taken s = [7; 8] /\ sent s = [7; 8; 9] /\
  sent s = taken s ++ queue (ring s) /\ (length (queue (ring s)) <= Z.to_nat PIPESIZE)%nat.
Proof.
  set (p := (piperead_run 2 false (fun a _ _ => (a, true)) tt pipe3).1.1.2).
  exists (Psys p [WRet 3] [RRet 2] [7; 8; 9] [7; 8]). split; [done|]. split; [done|].
  apply (pipe_fifo true page0); [reflexivity|]. unfold preachable.
  apply (rtc_l _ _ (Psys (pipe_init page0) [WRun [7; 8; 9] 0] [] [] [])); [apply (step_open_write true (pipe_init page0) [] [] [] [] [7; 8; 9]); repeat constructor; lia|].
  apply (rtc_l _ _ (Psys (pipe_init page0) [WRun [7; 8; 9] 0] [RRun 2] [] [])); [apply (step_open_read true _ _ [])|].
  apply (rtc_l _ _ (Psys pipe3 [WRet 3] [RRun 2] [7; 8; 9] [])).
  { apply (step_write true (pipe_init page0) [WRun [7; 8; 9] 0] [RRun 2] [] [] 0%nat [7; 8; 9] 0 (fun _ => false) pipe3 (Done 3)); [reflexivity|done|vm_compute; reflexivity]. }
  apply rtc_once. apply (step_read true pipe3 [WRet 3] [RRun 2] [7; 8; 9] [] 0%nat 2 false unit (fun a _ _ => (a, true)) tt [7; 8] p tt (Done 2)); [reflexivity|vm_compute; reflexivity].
Defined.

(** C34: No wakeup is lost.  If a kill is seen only between critical sections,
    a reader sleeps only while the pipe is empty and its write end open, and a
    writer only while it is full and its read end open: so as soon as there is
    something to read, or nobody left to write, every read call is runnable and
    its next section returns, and dually for the writers. *)
Theorem pipe_no_lost_wakeup page s : length page = Z.to_nat PIPESIZE -> preachable false page s ->
  (forall n, queue (ring s) <> [] \/ pwriteopen (ring s) = false -> RSleep n ∉ readers s /\
     forall A killed (out : A -> Z -> Z -> A * bool) acc, exists l pi' acc' r, piperead_run n killed out acc (ring s) = (l, pi', acc', Done r)) /\
  (forall buf i, Z.of_nat (length (queue (ring s))) < PIPESIZE \/ preadopen (ring s) = false -> WSleep buf i ∉ writers s).
Proof.
  intros Hl Hr. destruct (awake_reachable page s Hl Hr) as [AW AR]. pose proof (fi_ok _ (fifo_reachable false page s Hl Hr)) as Hok.
  pose proof (length_queue (ring s)) as Hq. split.
  - intros n Hn. assert (Hn' : ~ (count (ring s) = 0 /\ pwriteopen (ring s) = true)).
    { intros [Hc Ho]. destruct Hn as [Hn|Hn]; [|congruence]. apply Hn. apply length_zero_iff_nil. lia. }
    split; [intros Hin; rewrite Forall_forall in AR; exact (Hn' (AR _ Hin))|]. intros A killed out acc. unfold piperead_run. rewrite is_empty_spec by done.
    destruct (Z.eqb_spec (count (ring s)) 0); destruct (pwriteopen (ring s)); cbn [andb]; try tauto;
      destruct (piperead_copy (Z.to_nat n) out acc 0 (ring s)) as [[[l p] a] r]; by exists l, p, a, r.
  - intros buf i Hn Hin. rewrite Forall_forall in AW. destruct (AW _ Hin) as [Hc Ho]. destruct Hn as [Hn|Hn]; [lia|congruence].
Qed.

(** A reader that went to sleep on the empty pipe, before the writer comes. *)
Lemma reader_asleep mid : preachable mid page0 (Psys (pipe_init page0) [WRun [7; 8; 9] 0] [RSleep 2] [] []).
Proof.
  apply (rtc_l _ _ (Psys (pipe_init page0) [] [RRun 2] [] [])); [apply (step_open_read mid _ _ [])|].
  apply (rtc_l _ _ (Psys (pipe_init page0) [] [RSleep 2] [] [])).
  { by apply (step_read mid (pipe_init page0) [] [RRun 2] [] [] 0%nat 2 false unit (fun a _ _ => (a, true)) tt [] (pipe_init page0) tt (Sleep tt)). }
  apply rtc_once. apply (step_open_write mid (pipe_init page0) [] [RSleep 2] [] [] [7; 8; 9]). repeat constructor; lia.
Qed.

Lemma pipe_no_lost_wakeup_witness : exists s, readers s = [RRun 2] /\ queue (ring s) = [7; 8; 9] /\
  (forall A killed (out : A -> Z -> Z -> A * bool) acc, exists l pi' acc' r, piperead_run 2 killed out acc (ring s) = (l, pi', acc', Done r)).
Proof.
  exists (Psys pipe3 [WRet 3] [RRun 2] [7; 8; 9] []). split; [reflexivity|]. split; [vm_compute; reflexivity|].
  apply (pipe_no_lost_wakeup page0); [reflexivity| |left; vm_compute; discriminate].
  eapply rtc_r; [apply reader_asleep|].
  apply (step_write false (pipe_init page0) [WRun [7; 8; 9] 0] [RSleep 2] [] [] 0%nat [7; 8; 9] 0 (fun _ => false) pipe3 (Done 3)); [reflexivity|done|vm_compute; reflexivity].
Defined.

(** A wakeup can be lost when a writer is killed in the middle of a section.
    [pipewrite] returns -1 without [wakeup(&pi->nread)] even when it has already
    put bytes into the ring: a state is reachable in which a reader sleeps,
    the ring holds data and nobody is left to wake it. *)
Theorem pipe_kill_loses_wakeup :
  exists s, preachable true page0 s /\ queue (ring s) = [7] /\ readers s = [RSleep 2] /\ writers s = [WRet (-1)].
Proof.
  set (k := fun i => 0 <? i). set (p := (pipewrite 3 k (from_buf [7; 8; 9]) 0 (pipe_init page0)).1).
  exists (Psys p [WRet (-1)] [RSleep 2] [7] []). split_and!; [|vm_compute; reflexivity|done|done].
  eapply rtc_r; [apply reader_asleep|].
  apply (step_write true (pipe_init page0) [WRun [7; 8; 9] 0] [RSleep 2] [] [] 0%nat [7; 8; 9] 0 k p Fail); [done|done|vm_compute; reflexivity].
Qed.
