(* ===== verification/File.v ===== *)
(** * kernel/file.c

    The table of open files and the operations on an open file, over the file
    system, the pipes and the memory of the calling process.  Every operation
    is run to its end by one process; an operation that would sleep on a pipe
    diverges, since there is no one to wake it (Pipe.v has the interleavings).

    User memory is an interface, [UserMem]; the page tables of vm.c are an
    implementation of it. *)
From S2P Require Import Prelude Riscv Mem KString Bio Block TxSpec Fs Pipe.

(** [copyout] and [copyin] of the calling process.  [u_out u a l] stores [l] at
    [a]: the memory afterwards, and whether all of it was accessible.  [u_in u a n]
    is what [copyin] put into the destination, and whether it succeeded.
    [u_str u a max] is [copyinstr]: the string without its terminator. *)
Class UserMem (U : Type) : Type := {
  u_out : U -> Z -> list Z -> U * bool;
  u_in : U -> Z -> Z -> list Z * bool;
  u_str : U -> Z -> Z -> option (list Z);
}.

Inductive ftype : Type := FD_NONE | FD_PIPE | FD_INODE | FD_DEVICE.
#[export] Instance ftype_eq_dec : EqDecision ftype.
Proof. solve_decision. Defined.

Record file : Type := File {
  f_type : ftype;
  f_ref : Z;
  f_readable : bool;
  f_writable : bool;
  f_pipe : nat;
  f_ip : nat;
  f_off : Z;
  f_major : Z;
}.
Definition set_fref (r : Z) (f : file) : file := File (f_type f) r (f_readable f) (f_writable f) (f_pipe f) (f_ip f) (f_off f) (f_major f).
Definition set_ftype (t : ftype) (f : file) : file := File t (f_ref f) (f_readable f) (f_writable f) (f_pipe f) (f_ip f) (f_off f) (f_major f).
Definition set_foff (o : Z) (f : file) : file := File (f_type f) (f_ref f) (f_readable f) (f_writable f) (f_pipe f) (f_ip f) o (f_major f).

(** [struct stat] in memory, with the four bytes of padding before [size]. *)
Definition stat_bytes (pad : list Z) (st : stat) : list Z :=
  let w n v := rd_bytes n (stn n (fun _ => 0) 0 v) 0 in
  w 4%nat (st_dev st) ++ w 4%nat (st_ino st) ++ w 2%nat (st_type st) ++ w 2%nat (st_nlink st) ++ pad ++ w 8%nat (st_size st).

(** The most [filewrite] writes in one transaction. *)
Definition write_max : Z := ((MAXOPBLOCKS - 1 - 1 - 2) / 2) * BSIZE.

Section File.
Context {S U : Type} `{BlockStore S} `{UserMem U}.

(** The file system, the memory and the open descriptors of the process, the
    file table, and the pipes ([None]: freed). *)
Record kfs : Type := Kfs {
  fs : fsys S;
  um : U;
  ftable : list file;
  ofile : list (option nat);
  pipes : list (option pipe);
}.

Definition liftF {A} (c : M (fsys S) A) : M kfs A :=
  fun s => match c (fs s) with
           | Ret (a, f) => Ret (a, Kfs f (um s) (ftable s) (ofile s) (pipes s))
           | Panic m => Panic m
           | Fault => Fault
           | Diverge => Diverge
           end.
Definition kbegin_op : M kfs unit := liftF (liftS b_begin_op).
Definition kend_op : M kfs unit := liftF (liftS b_end_op).

Definition getf (f : nat) : M kfs file :=
  fun s => match ftable s !! f with Some x => Ret (x, s) | None => Fault end.
Definition setf (f : nat) (g : file -> file) : M kfs unit :=
  fun s => match ftable s !! f with
           | Some x => Ret (tt, Kfs (fs s) (um s) (<[f := g x]> (ftable s)) (ofile s) (pipes s))
           | None => Fault
           end.
Definition set_um (u : U) : M kfs unit := modify (fun s => Kfs (fs s) u (ftable s) (ofile s) (pipes s)).
Definition getp (k : nat) : M kfs pipe :=
  fun s => match pipes s !! k with Some (Some pi) => Ret (pi, s) | _ => Fault end.
Definition setp (k : nat) (x : option pipe) : M kfs unit :=
  modify (fun s => Kfs (fs s) (um s) (ftable s) (ofile s) (<[k := x]> (pipes s))).

(** The device switch: console.c puts its functions there. *)
Context (dev_read dev_write : Z -> option (Z -> Z -> M kfs Z)).

Fixpoint free_file (t : list file) (i : nat) : option nat :=
  match t with
  | [] => None
  | f :: t' => if f_ref f =? 0 then Some i else free_file t' (Datatypes.S i)
  end.
Definition filealloc : M kfs (option nat) :=
  t <- gets ftable;;
  match free_file t 0 with
  | Some f => setf f (set_fref 1);; ret (Some f)
  | None => ret None
  end.

Definition filedup (f : nat) : M kfs nat :=
  x <- getf f;;
  if f_ref x <? 1 then panic "filedup" else
  setf f (set_fref (f_ref x + 1));;
  ret f.

Definition pipe_close (k : nat) (writable : bool) : M kfs unit :=
  pi <- getp k;;
  let '(pi', freed) := pipeclose writable pi in
  setp k (if freed then None else Some pi').

Definition fileclose (f : nat) : M kfs unit :=
  ff <- getf f;;
  if f_ref ff <? 1 then panic "fileclose" else
  setf f (set_fref (f_ref ff - 1));;
  if f_ref ff - 1 >? 0 then ret tt else
  setf f (fun x => set_ftype FD_NONE (set_fref 0 x));;
  match f_type ff with
  | FD_PIPE => pipe_close (f_pipe ff) (f_writable ff)
  | FD_INODE | FD_DEVICE => kbegin_op;; liftF (iput (f_ip ff));; kend_op
  | FD_NONE => ret tt
  end.

(** [pad] is what the stack holds at the padding of [st]. *)
Definition filestat (pad : list Z) (f : nat) (addr : Z) : M kfs Z :=
  ff <- getf f;;
  match f_type ff with
  | FD_INODE | FD_DEVICE =>
      liftF (ilock (f_ip ff));;
      st <- liftF (stati (f_ip ff));;
      liftF (iunlock (f_ip ff));;
      u <- gets um;;
      let '(u', ok) := u_out u addr (stat_bytes pad st) in
      set_um u';;
      ret (if ok then 0 else -1)
  | _ => ret (-1)
  end.

Definition pipe_read (killed : bool) (k : nat) (addr n : Z) : M kfs Z :=
  pi <- getp k;;
  u <- gets um;;
  let '(_, pi', u', r) := piperead_run n killed (fun u i ch => u_out u (u64 (addr + i)) [ch]) u pi in
  setp k (Some pi');;
  set_um u';;
  match r with Done v => ret v | Fail => ret (-1) | Sleep _ => diverge end.
Definition pipe_write (killed : bool) (k : nat) (addr n : Z) : M kfs Z :=
  pi <- getp k;;
  u <- gets um;;
  let src i := match u_in u (u64 (addr + i)) 1 with (ch :: _, true) => Some ch | _ => None end in
  let '(pi', r) := pipewrite n (fun _ => killed) src 0 pi in
  setp k (Some pi');;
  match r with Done v => ret v | Fail => ret (-1) | Sleep _ => diverge end.

Definition fileread (killed : bool) (f : nat) (addr n : Z) : M kfs Z :=
  ff <- getf f;;
  if negb (f_readable ff) then ret (-1) else
  match f_type ff with
  | FD_PIPE => pipe_read killed (f_pipe ff) addr n
  | FD_DEVICE =>
      if (f_major ff <? 0) || (f_major ff >=? NDEV) then ret (-1) else
      match dev_read (f_major ff) with
      | None => ret (-1)
      | Some rd => rd addr n
      end
  | FD_INODE =>
      liftF (ilock (f_ip ff));;
      u <- gets um;;
      '(r, u') <- liftF (readi (fun u tot l => u_out u (u64 (addr + tot)) l) u (f_ip ff) (f_off ff) (u32 n));;
      set_um u';;
      (if r >? 0 then setf f (fun x => set_foff (u32 (f_off x + r)) x) else ret tt);;
      liftF (iunlock (f_ip ff));;
      ret r
  | FD_NONE => panic "fileread"
  end.

(** One transaction of [filewrite]: [n1] bytes from [addr]. *)
Definition write_chunk (f : nat) (addr n1 : Z) : M kfs Z :=
  kbegin_op;;
  ff <- getf f;;
  liftF (ilock (f_ip ff));;
  u <- gets um;;
  r <- liftF (writei (fun tot m => u_in u (u64 (addr + tot)) m) (f_ip ff) (f_off ff) n1);;
  (if r >? 0 then setf f (fun x => set_foff (u32 (f_off x + r)) x) else ret tt);;
  liftF (iunlock (f_ip ff));;
  kend_op;;
  ret r.
(** The loop returns [i]; it advances by at least one byte a turn. *)
Fixpoint filewrite_loop (fuel : nat) (f : nat) (addr i n : Z) : M kfs Z :=
  if i <? n then
    match fuel with
    | O => diverge
    | Datatypes.S k =>
        let n1 := if n - i >? write_max then write_max else n - i in
        r <- write_chunk f (u64 (addr + i)) n1;;
        if negb (r =? n1) then ret i else filewrite_loop k f addr (i + r) n
    end
  else ret i.
Definition filewrite (killed : bool) (f : nat) (addr n : Z) : M kfs Z :=
  ff <- getf f;;
  if negb (f_writable ff) then ret (-1) else
  match f_type ff with
  | FD_PIPE => pipe_write killed (f_pipe ff) addr n
  | FD_DEVICE =>
      if (f_major ff <? 0) || (f_major ff >=? NDEV) then ret (-1) else
      match dev_write (f_major ff) with
      | None => ret (-1)
      | Some wr => wr addr n
      end
  | FD_INODE =>
      i <- filewrite_loop (Z.to_nat n) f addr 0 n;;
      ret (if i =? n then n else -1)
  | FD_NONE => panic "filewrite"
  end.

(** [pipealloc]; [page] is what [kalloc] returns, the bytes of the page where
    the ring will be, or [None]. *)
Definition pipealloc (page : option (list Z)) : M kfs (option (nat * nat)) :=
  r0 <- filealloc;;
  match r0 with
  | None => ret None
  | Some f0 =>
      r1 <- filealloc;;
      match r1, page with
      | Some f1, Some p =>
          s <- get;;
          let k := length (pipes s) in
          modify (fun s => Kfs (fs s) (um s) (ftable s) (ofile s) (pipes s ++ [Some (pipe_init p)]));;
          setf f0 (fun x => File FD_PIPE (f_ref x) true false k (f_ip x) (f_off x) (f_major x));;
          setf f1 (fun x => File FD_PIPE (f_ref x) false true k (f_ip x) (f_off x) (f_major x));;
          ret (Some (f0, f1))
      | Some f1, None => fileclose f0;; fileclose f1;; ret None
      | None, _ => fileclose f0;; ret None
      end
  end.

End File.
Arguments kfs : clear implicits.
