(* ===== verification/FileProofs.v ===== *)
(** * Writing through an open file

    [filewrite] splits a write into transactions.  Each of them is atomic, so
    after a crash the file has a prefix of the data, and everything else is as
    it was. *)
From S2P Require Import Prelude Riscv Mem KString Bio BioSpec BioProofs Block Log LogProofs LogTheorems TxSpec LogTx Crash Fs FsBlock FsProofs FsInode FsWrite FsTheorems FsNames FsDir Pipe File.

(** The flag of the sleep lock is not part of what a write is about. *)
Section Lock.
Context {S : Type} `{BlockStore S}.
Implicit Types (b : superblock) (m d : Z -> block) (ip : inode) (v : bool).

Lemma inode_at_lock b m t i ip v : inode_at b m t i ip -> inode_at b m (<[i := set_ilocked v ip]> t) i (set_ilocked v ip).
Proof.
  intros [Hip [I1 I2 I3 I4 I5] [W1 W2 W3 W4 W5 W6 W7] [N1 N2] Hb Hf]. split.
  - apply list_lookup_insert_eq. by eapply lookup_lt_Some.
  - by split.
  - by split.
  - by split.
  - done.
  - done.
Qed.

Lemma write_done_lock b src off tot m ip m' ip' v :
  write_done b src off tot m ip m' ip' -> write_done b src off tot m (set_ilocked v ip) m' (set_ilocked v ip').
Proof.
  intros [Hs Hm Hc Hb Hd Ho Hf Hk]. split; try done.
  - rewrite Hm at 1. by destruct ip, ip'.
  - change (ib b (set_ilocked v ip)) with (ib b ip). change (inum (set_ilocked v ip)) with (inum ip).
    transitivity (set_ilocked v (get_dinode ip' (m' (ib b ip)) (dinode_off (inum ip)))); [done|by rewrite Hd].
Qed.

(** The inode on disk is the one in memory. *)
Definition synced b m ip : Prop := get_dinode ip (m (ib b ip)) (dinode_off (inum ip)) = ip.

Lemma write_done_start b src off m t i ip : inode_at b m t i ip -> bitmap_ok b m -> synced b m ip -> 0 <= off <= isize ip ->
  write_done b src off 0 m ip m ip.
Proof.
  intros Hat Hok Hs Hoff. split; try done; [lia|by destruct ip|].
  intros x Hx. destruct (Z.leb_spec off x), (Z.ltb_spec x (off + 0)); try done. lia.
Qed.

Lemma write_done_inum b src off tot m ip m' ip' : write_done b src off tot m ip m' ip' -> inum ip' = inum ip.
Proof. intros Hw. by rewrite (wd_meta _ _ _ _ _ _ _ _ Hw). Qed.

(** Two writes in a row are one. *)
Lemma write_done_trans b src off i n1 tot m ip m1 ip1 m2 ip2 :
  write_done b src off i m ip m1 ip1 ->
  write_done b (take (Z.to_nat n1) (drop (Z.to_nat i) src)) (off + i) tot m1 ip1 m2 ip2 ->
  0 <= off -> 0 <= i -> 0 <= tot <= n1 -> i + n1 <= len src ->
  write_done b src off (i + tot) m ip m2 ip2.
Proof.
  intros W1 W2 Hoff Hi Htot Hn. pose proof (write_done_inum _ _ _ _ _ _ _ _ W1) as Ei.
  assert (Eb : ib b ip1 = ib b ip) by (unfold ib; by rewrite Ei).
  destruct W1 as [S1 M1 C1 B1 D1 O1 F1 K1], W2 as [S2 M2 C2 B2 D2 O2 F2 K2]. rewrite Eb, Ei in *. split.
  - lia.
  - rewrite M2, M1. by destruct ip, ip1, ip2.
  - intros x Hx. rewrite C2, C1 by done. unfold len in *.
    destruct (Z.leb_spec (off + i) x), (Z.ltb_spec x (off + i + tot)), (Z.leb_spec off x), (Z.ltb_spec x (off + i)), (Z.ltb_spec x (off + (i + tot)));
      cbn [andb]; try done; try lia.
    f_equal. rewrite !list_lookup_total_alt. f_equal. rewrite lookup_take_lt by lia. rewrite lookup_drop. f_equal. lia.
  - done.
  - done.
  - intros n x Hx. by rewrite O2, O1.
  - intros y Hy Hown Hyi. destruct (K1 y Hy Hown) as [Hy1 Hown1]. rewrite F2 by done. by apply F1.
  - intros y Hy Hown. destruct (K1 y Hy Hown) as [Hy1 Hown1]. by apply K2.
Qed.
End Lock.

Section Write.
Context {S U : Type} `{BlockStore S} `{UserMem U}.
Context (dev_write : Z -> option (Z -> Z -> M (kfs S U) Z)).
Implicit Types (st : S) (b : superblock) (m d : Z -> block) (w ws : list (Z * block)) (ip : inode) (u : U).

Lemma wp_liftF {A} (c : M (fsys S) A) f u ft o ps (Q : A -> kfs S U -> Prop) :
  wp c f (fun a f' => Q a (Kfs f' u ft o ps)) -> wp (liftF c) (Kfs f u ft o ps) Q.
Proof. unfold wp, liftF. cbn. by destruct (c f) as [[a f']| | |]. Qed.

Lemma wp_getf f x (s : kfs S U) (Q : file -> kfs S U -> Prop) : ftable s !! f = Some x -> Q x s -> wp (getf f) s Q.
Proof. intros Hf HQ. unfold wp, getf. by rewrite Hf. Qed.

Lemma wp_setf f g x (s : kfs S U) (Q : unit -> kfs S U -> Prop) :
  ftable s !! f = Some x -> Q tt (Kfs (fs s) (um s) (<[f := g x]> (ftable s)) (ofile s) (pipes s)) -> wp (setf f g) s Q.
Proof. intros Hf HQ. unfold wp, setf. by rewrite Hf. Qed.

(** An inode in the table that is loaded and not locked. *)
Record ready ip : Prop := Ready {
  rd_ref : 1 <= iref ip;
  rd_unlocked : ilocked ip = false;
  rd_valid : ivalid ip = true;
}.

Lemma wp_ilock_ready st b t cw i ip (Q : unit -> fsys S -> Prop) :
  t !! i = Some ip -> ready ip -> Q tt (Fsys st b (<[i := set_ilocked true ip]> t) cw) -> wp (ilock i) (Fsys st b t cw) Q.
Proof.
  intros Hi [Hr Hl Hv] HQ. unfold ilock. apply wp_bind. eapply wp_geti; [done|].
  destruct (Z.ltb_spec (iref ip) 1); [lia|]. apply wp_bind. unfold iacquire. apply wp_bind. eapply wp_geti; [done|]. rewrite Hl.
  eapply wp_seti; [done|]. rewrite Hv. by apply wp_ret.
Qed.

(** [copyin] finds the bytes of [src] at [addr]. *)
Definition holds_at u (addr : Z) (src : list Z) : Prop :=
  forall tot k, 0 <= tot -> 0 < k -> tot + k <= len src ->
    u_in u (u64 (addr + tot)) k = (take (Z.to_nat k) (drop (Z.to_nat tot) src), true).

Lemma holds_at_sub u addr src i n : holds_at u addr src -> 0 <= i -> 0 <= n -> i + n <= len src ->
  holds_at u (u64 (addr + i)) (take (Z.to_nat n) (drop (Z.to_nat i) src)).
Proof.
  intros Hh Hi Hn Hle tot k Htot Hk Hs. unfold len in *. rewrite length_take, length_drop in Hs.
  replace (u64 (u64 (addr + i) + tot)) with (u64 (addr + (i + tot))) by (unfold u64; rewrite Zplus_mod_idemp_l; f_equal; lia).
  rewrite Hh by (unfold len; lia). f_equal. rewrite skipn_firstn_comm, take_take, Nat.min_l by lia. rewrite drop_drop. do 2 f_equal. lia.
Qed.

(** The history of a write in progress: whatever the disk has seen of the
    writes [ws], recovery finds the file with the first [tot] bytes of [src],
    for some [tot]. *)
Definition prefix_after b src off d ip w ws : Prop :=
  forall k, exists tot m ip', 0 <= tot <= len src /\ write_done b src off tot d ip m ip' /\ eq_on home (crash (w ++ take k ws)) m.

Lemma prefix_after_app b src off d ip w ws ws' m ip1 m' ip2 i i' :
  prefix_after b src off d ip w ws ->
  write_done b src off i d ip m ip1 -> write_done b src off i' d ip m' ip2 -> 0 <= i <= len src -> 0 <= i' <= len src ->
  (forall k, eq_on home (crash ((w ++ ws) ++ take k ws')) m \/ eq_on home (crash ((w ++ ws) ++ take k ws')) m') ->
  prefix_after b src off d ip w (ws ++ ws').
Proof.
  intros Hp W1 W2 Hi Hi' Hc k. destruct (Nat.le_gt_cases k (length ws)) as [Hk|Hk].
  - destruct (Hp k) as (tot & mk & ipk & Ht & Hw & He). exists tot, mk, ipk. split_and!; [lia|lia|done|].
    rewrite take_app_le by done. done.
  - rewrite take_app_ge, app_assoc by lia. destruct (Hc (k - length ws)%nat) as [He|He]; [exists i, m, ip1|exists i', m', ip2]; done.
Qed.

Lemma wp_write_chunk f addr src off st b t cw w d ip u ft ff o ps i (Q : Z -> kfs S U -> Prop) :
  idle st w d -> bitmap_ok b d -> inode_at b d t i ip -> ready ip ->
  ft !! f = Some ff -> f_ip ff = i -> f_off ff = off -> holds_at u addr src ->
  0 <= off <= isize ip -> off + len src <= MAXFILE * BSIZE -> len src <= write_max -> (23 <= b_cap)%nat ->
  (forall st' ws m ip' tot, idle st' (w ++ ws) m -> write_done b src off tot d ip m ip' -> bitmap_ok b m ->
     inode_at b m (<[i := ip']> t) i ip' -> ready ip' -> 0 <= tot <= len src -> tot = len src \/ full b m ->
     (forall k, eq_on home (crash (w ++ take k ws)) d \/ eq_on home (crash (w ++ take k ws)) m) ->
     Q tot (Kfs (Fsys st' b (<[i := ip']> t) cw) u (<[f := set_foff (off + tot) ff]> ft) o ps)) ->
  wp (write_chunk f addr (len src)) (Kfs (Fsys st b t cw) u ft o ps) Q.
Proof.
  intros Hid Hok Hat Hrd Hf Hfi Hfo Hsrc Hoff Hend Hmax Hcap HQ. pose proof (ia_slot _ _ _ _ _ Hat) as Hip.
  pose proof (rd_ref _ Hrd) as Href. assert (Hlen : 0 <= len src) by (unfold len; lia).
  unfold write_chunk. apply wp_bind. unfold kbegin_op. apply wp_liftF, wp_liftS.
  eapply wp_mono; [by apply tx_begin_op|]. intros [] st1 Ht1.
  apply wp_bind. eapply wp_getf; [exact Hf|]. rewrite Hfi, Hfo.
  apply wp_bind, wp_liftF. eapply wp_ilock_ready; [exact Hip|done|].
  apply wp_bind, wp_gets. cbn [um]. apply wp_bind, wp_liftF.
  pose proof (inode_at_lock _ _ _ _ _ true Hat) as Hat1. destruct (blocks_bounds off (len src)) as [_ Hbl]; [lia..|].
  assert (Hbl5 : (blocks off (len src) <= 5)%nat).
  { assert (len src / BSIZE <= 3) by (apply Z.div_le_upper_bound; [done|]; change write_max with 3072 in *; change BSIZE with 1024; lia). lia. }
  eapply (wp_writei _ src off); [exact Ht1|done|exact Hat1|exact Hsrc|exact Hoff|done|split; cbn [length]; change nbuf with 30%nat; lia|].
  intros st2 m ip' bs tot Ht2 Hwd Hat2 _ Htot Hfin _. rewrite list_insert_insert_eq in Hat2 |- *.
  pose proof (wd_meta _ _ _ _ _ _ _ _ Hwd) as Hmeta. pose proof (write_done_lock _ _ _ _ _ _ _ _ false Hwd) as Hwd2.
  replace (set_ilocked false (set_ilocked true ip)) with ip in Hwd2 by (destruct ip, Hrd; cbn in *; by subst).
  assert (Hst : wp (if tot >? 0 then setf f (fun x => set_foff (u32 (f_off x + tot)) x) else ret tt) (Kfs (Fsys st2 b (<[i := ip']> t) cw) u ft o ps)
                  (fun _ s => s = Kfs (Fsys st2 b (<[i := ip']> t) cw) u (<[f := set_foff (off + tot) ff]> ft) o ps)).
  { destruct (Z.gtb_spec tot 0).
    - eapply wp_setf; [exact Hf|]. cbn. rewrite Hfo, u32_small; [done|]. change (MAXFILE * BSIZE) with 274432 in *. lia.
    - apply wp_ret. assert (tot = 0) as -> by lia. assert (set_foff (off + 0) ff = ff) as -> by (rewrite Z.add_0_r; destruct ff; cbn in *; by subst).
      by rewrite (list_insert_id ft f ff). }
  apply wp_bind. eapply wp_mono; [exact Hst|]. intros [] s' ->.
  assert (Hip' : <[i:=ip']> t !! i = Some ip') by apply Hat2.
  apply wp_bind, wp_liftF. eapply wp_iunlock; [exact Hip'|rewrite Hmeta; done|by rewrite Hmeta|]. rewrite list_insert_insert_eq.
  apply wp_bind. unfold kend_op. apply wp_liftF, wp_liftS. eapply wp_mono; [by apply (tx_end_op _ _ _ _ _ Ht2)|].
  intros [] st3 (ws & Hid3 & Hcr). apply wp_ret. pose proof (inode_at_lock _ _ _ _ _ false Hat2) as Hat3. rewrite list_insert_insert_eq in Hat3.
  eapply HQ; [exact Hid3|exact Hwd2|apply Hwd|exact Hat3| |done|done|done].
  rewrite Hmeta. destruct Hrd. by split.
Qed.

Lemma wp_filewrite_loop fuel f addr src off st b t cw w ws d ip u ft ff o ps i m ip1 done_ (Q : Z -> kfs S U -> Prop) :
  idle st (w ++ ws) m -> bitmap_ok b m -> write_done b src off done_ d ip m ip1 -> inode_at b m t i ip1 -> ready ip1 ->
  ft !! f = Some ff -> f_ip ff = i -> f_off ff = off + done_ -> holds_at u addr src ->
  0 <= off <= isize ip -> 0 <= done_ <= len src -> off + len src <= MAXFILE * BSIZE -> (23 <= b_cap)%nat ->
  prefix_after b src off d ip w ws -> (Z.to_nat (len src - done_) <= fuel)%nat ->
  (forall st' ws' m' ip' tot r, idle st' (w ++ ws') m' -> write_done b src off tot d ip m' ip' -> inode_at b m' (<[i := ip']> t) i ip' ->
     ready ip' -> 0 <= tot <= len src -> tot = len src \/ full b m' -> (r = len src <-> tot = len src) -> prefix_after b src off d ip w ws' ->
     Q r (Kfs (Fsys st' b (<[i := ip']> t) cw) u (<[f := set_foff (off + tot) ff]> ft) o ps)) ->
  wp (filewrite_loop fuel f addr done_ (len src)) (Kfs (Fsys st b t cw) u ft o ps) Q.
Proof.
  revert st t ws ft ff m ip1 done_. induction fuel as [|fuel IH];
    intros st t ws ft ff m ip1 done_ Hid Hok Hwd Hat Hrd Hf Hfi Hfo Hsrc Hoff Hdn Hend Hcap Hp Hfuel HQ;
    pose proof (ia_slot _ _ _ _ _ Hat) as Hip; cbn [filewrite_loop]; destruct (Z.ltb_spec done_ (len src)) as [Hlt|Hge]; try lia.
  1, 3: apply wp_ret; specialize (HQ st ws m ip1 done_ done_); rewrite (list_insert_id t i ip1) in HQ by done;
    replace (set_foff (off + done_) ff) with ff in HQ by (destruct ff; cbn in *; by subst); rewrite (list_insert_id ft f ff) in HQ by done;
    apply HQ; try done; lia.
  set (n1 := if len src - done_ >? write_max then write_max else len src - done_).
  assert (Hn1 : 0 < n1 <= write_max /\ done_ + n1 <= len src) by (unfold n1; change write_max with 3072; destruct (Z.gtb_spec (len src - done_) 3072); lia).
  clearbody n1. set (chunk := take (Z.to_nat n1) (drop (Z.to_nat done_) src)).
  assert (Hcl : n1 = len chunk) by (unfold chunk, len in *; rewrite length_take, length_drop; lia). rewrite Hcl.
  pose proof (wd_size _ _ _ _ _ _ _ _ Hwd) as Hsz. apply wp_bind.
  eapply (wp_write_chunk _ _ chunk (off + done_)); [exact Hid|done|exact Hat|done|exact Hf|done|done|apply holds_at_sub; try done; lia|lia|lia|lia|done|].
  intros st2 ws2 m2 ip2 tot Hid2 Hwd2 Hok2 Hat2 Hrd2 Htot Hfin Hcr. rewrite <- app_assoc in Hid2.
  pose proof (write_done_trans _ _ _ _ _ _ _ _ _ _ _ _ Hwd Hwd2 ltac:(lia) ltac:(lia) ltac:(lia) ltac:(lia)) as Hwd3.
  pose proof (prefix_after_app _ _ _ _ _ _ _ _ _ _ _ _ _ _ Hp Hwd Hwd3 Hdn ltac:(lia) Hcr) as Hp2.
  replace (off + done_ + tot) with (off + (done_ + tot)) by lia.
  destruct (Z.eqb_spec tot (len chunk)) as [Et|Et]; cbn [negb].
  - eapply (IH st2 (<[i := ip2]> t) (ws ++ ws2) _ (set_foff (off + (done_ + tot)) ff) m2 ip2); try done; try lia.
    + apply list_lookup_insert_eq. by eapply lookup_lt_Some.
    + intros st3 ws3 m3 ip3 tot3 r. rewrite !list_insert_insert_eq. intros. change (set_foff ?x (set_foff ?y ff)) with (set_foff x ff).
      by eapply HQ.
  - apply wp_ret. destruct Hfin as [|Hfull]; [done|]. eapply (HQ st2 (ws ++ ws2)); try done; try lia. by right.
Qed.

(** What [filewrite] on a regular file leaves, with the value it returns. *)
Definition write_result b src off d ip w f ff u ft o ps t i cw (r : Z) (s : kfs S U) : Prop :=
  exists st' ws m ip' tot,
    s = Kfs (Fsys st' b (<[i := ip']> t) cw) u (<[f := set_foff (off + tot) ff]> ft) o ps /\
    idle st' (w ++ ws) m /\ write_done b src off tot d ip m ip' /\ ready ip' /\
    (tot = len src /\ r = len src \/ 0 <= tot < len src /\ r = -1 /\ full b m) /\
    prefix_after b src off d ip w ws.

Lemma wp_filewrite killed f addr src st b t cw w d ip u ft ff o ps i :
  idle st w d -> bitmap_ok b d -> inode_at b d t i ip -> ready ip -> synced b d ip ->
  ft !! f = Some ff -> f_type ff = FD_INODE -> f_writable ff = true -> f_ip ff = i -> holds_at u addr src ->
  0 <= f_off ff <= isize ip -> f_off ff + len src <= MAXFILE * BSIZE -> (23 <= b_cap)%nat ->
  wp (filewrite dev_write killed f addr (len src)) (Kfs (Fsys st b t cw) u ft o ps) (write_result b src (f_off ff) d ip w f ff u ft o ps t i cw).
Proof.
  intros Hid Hok Hat Hrd Hs Hf Hty Hwr Hfi Hsrc Hoff Hend Hcap. assert (Hl : 0 <= len src) by (unfold len; lia).
  pose proof (write_done_start b src (f_off ff) d t i ip Hat Hok Hs Hoff) as Hw0.
  unfold filewrite. apply wp_bind. eapply wp_getf; [exact Hf|]. rewrite Hwr, Hty. cbn [negb]. apply wp_bind.
  eapply (wp_filewrite_loop _ f addr src (f_off ff) st b t cw w [] d ip u ft ff o ps i d ip 0); try done; [by rewrite app_nil_r|lia| |lia|].
  - intros k. exists 0, d, ip. split_and!; [lia|lia|done|]. rewrite take_nil, app_nil_r. by eapply idle_crash.
  - intros st' ws' m' ip' tot r Hid' Hwd Hat' Hrd' Htot Hfin Hr Hp. apply wp_ret. exists st', ws', m', ip', tot. split_and!; try done.
    destruct (Z.eqb_spec r (len src)) as [E|E]; [left; tauto|right]. destruct Hfin as [Hfin|Hfin]; [tauto|]. split_and!; try done; [lia|].
    destruct (Z.eq_dec tot (len src)); [tauto|lia].
Qed.

(** C8: [filewrite] on a regular file, over any implementation of transactions.
    It returns the number of bytes asked for once they are all in the file and
    on disk, or -1 when the disk is full; bytes before and after, other files,
    other inodes and the free map are as [write_done] says.  A crash
    at any moment, followed by recovery, leaves the file with a prefix of the
    data written to it and all else intact. *)
Theorem filewrite_crash_prefix killed f addr src st b t cw w d ip u ft ff o ps i :
  idle st w d -> bitmap_ok b d -> inode_at b d t i ip -> ready ip -> synced b d ip ->
  ft !! f = Some ff -> f_type ff = FD_INODE -> f_writable ff = true -> f_ip ff = i -> holds_at u addr src ->
  0 <= f_off ff <= isize ip -> f_off ff + len src <= MAXFILE * BSIZE -> (23 <= b_cap)%nat ->
  wp (filewrite dev_write killed f addr (len src)) (Kfs (Fsys st b t cw) u ft o ps) (write_result b src (f_off ff) d ip w f ff u ft o ps t i cw).
Proof. apply wp_filewrite. Qed.
End Write.

(** A process whose whole memory is readable, a file of ten bytes on the disk of
    FsTheorems, open for writing at its end. *)
#[local] Existing Instance store0.
#[local] Instance flat_mem : UserMem memory := {|
  u_out u a l := (wr_bytes u a l, true);
  u_in u a n := (rd_bytes (Z.to_nat n) u a, true);
  u_str u a max := None;
|}.
Definition sevens : memory := fun _ => 7.
Definition open5 : file := File FD_INODE 1 true true 0 0 10 0.
Definition idle5 : inode := set_ilocked false file5.

Lemma filewrite_crash_prefix_witness : exists (st : lst bst) w,
  wp (filewrite (fun _ => None) false 0 0 (len [7; 7])) (Kfs (Fsys st sb0 [idle5] 0) sevens [open5] [Some 0%nat] [])
    (write_result sb0 [7; 7] (f_off open5) fsdisk idle5 w 0%nat open5 sevens [open5] [Some 0%nat] [] [idle5] 0%nat 0%nat).
Proof.
  destruct fsdisk_idle as (st & w & Hid). exists st, w.
  apply (filewrite_crash_prefix (fun _ => None) false 0 0 [7; 7] st sb0 [idle5] 0 w fsdisk idle5 sevens [open5] open5 [Some 0%nat] [] 0);
    [exact Hid|exact fsdisk_bitmap|exact (inode_at_lock _ _ _ _ _ false file5_at)|split; cbn; [lia|done|done]|vm_compute; reflexivity|reflexivity|reflexivity|reflexivity|reflexivity| | | |].
  - intros tot k Ht Hk Hl. change (len [7; 7]) with 2 in Hl. assert (tot = 0 /\ (k = 1 \/ k = 2) \/ tot = 1 /\ k = 1) as [[-> [-> | ->]]|[-> ->]] by lia; reflexivity.
  - split; vm_compute; discriminate.
  - vm_compute. discriminate.
  - change b_cap with 29%nat. lia.
Defined.
