(* ===== verification/Sysfile.v ===== *)
(** * kernel/sysfile.c

    The system calls on files, over the state of File.v.  [a n] is the
    [n]th argument register of the trap frame, as [argraw] of syscall.c reads it. *)
From S2P Require Import Prelude Riscv Mem KString Bio Block TxSpec Fs Pipe File.

Definition O_RDONLY : Z := 0x000.
Definition O_WRONLY : Z := 0x001.
Definition O_RDWR : Z := 0x002.
Definition O_CREATE : Z := 0x200.
Definition O_TRUNC : Z := 0x400.

(** [argint] and [argaddr]. *)
Definition argint (a : nat -> Z) (n : nat) : Z := s32 (a n).
Definition argaddr (a : nat -> Z) (n : nat) : Z := a n.

Definition dot : list Z := [46].
Definition dotdot : list Z := [46; 46].

Section Sysfile.
Context {S U : Type} `{BlockStore S} `{UserMem U}.
Context (dev_read dev_write : Z -> option (Z -> Z -> M (kfs S U) Z)).
(** What the stack holds in [char name[DIRSIZ]] on entry. *)
Context (junk : list Z).
Notation K := (kfs S U).

Definition argstr (a : nat -> Z) (n : nat) (max : Z) : M K (option (list Z)) :=
  u <- gets um;; ret (u_str u (argaddr a n) max).

Definition argfd (a : nat -> Z) (n : nat) : M K (option (Z * nat)) :=
  let fd := argint a n in
  o <- gets ofile;;
  ret (if (fd <? 0) || (fd >=? NOFILE) then None
       else match o !! Z.to_nat fd with Some (Some f) => Some (fd, f) | _ => None end).

Fixpoint free_fd (o : list (option nat)) (fd : nat) : option nat :=
  match o with
  | [] => None
  | None :: _ => Some fd
  | Some _ :: o' => free_fd o' (Datatypes.S fd)
  end.
Definition set_ofile (fd : nat) (x : option nat) : M K unit :=
  modify (fun s => Kfs (fs s) (um s) (ftable s) (<[fd := x]> (ofile s)) (pipes s)).
Definition fdalloc (f : nat) : M K Z :=
  o <- gets ofile;;
  match free_fd o 0 with
  | Some fd => set_ofile fd (Some f);; ret (Z.of_nat fd)
  | None => ret (-1)
  end.

Definition sys_dup (a : nat -> Z) : M K Z :=
  r <- argfd a 0;;
  match r with
  | None => ret (-1)
  | Some (_, f) =>
      fd <- fdalloc f;;
      if fd <? 0 then ret (-1) else
      filedup f;;
      ret fd
  end.

Definition sys_read (killed : bool) (a : nat -> Z) : M K Z :=
  r <- argfd a 0;;
  match r with
  | None => ret (-1)
  | Some (_, f) => fileread dev_read killed f (argaddr a 1) (argint a 2)
  end.
Definition sys_write (killed : bool) (a : nat -> Z) : M K Z :=
  r <- argfd a 0;;
  match r with
  | None => ret (-1)
  | Some (_, f) => filewrite dev_write killed f (argaddr a 1) (argint a 2)
  end.
Definition sys_close (a : nat -> Z) : M K Z :=
  r <- argfd a 0;;
  match r with
  | None => ret (-1)
  | Some (fd, f) => set_ofile (Z.to_nat fd) None;; fileclose f;; ret 0
  end.
Definition sys_fstat (pad : list Z) (a : nat -> Z) : M K Z :=
  r <- argfd a 0;;
  match r with
  | None => ret (-1)
  | Some (_, f) => filestat pad f (argaddr a 1)
  end.

(** The [bad] exit of [sys_link]. *)
Definition link_bad (ip : nat) : M K Z :=
  liftF (ilock ip;; seti ip (fun x => set_inlink (s16 (inlink x - 1)) x);; iupdate ip;; iunlockput ip);;
  kend_op;;
  ret (-1).
Definition sys_link (a : nat -> Z) : M K Z :=
  old <- argstr a 0 MAXPATH;;
  match old with
  | None => ret (-1)
  | Some old =>
      new <- argstr a 1 MAXPATH;;
      match new with
      | None => ret (-1)
      | Some new =>
          kbegin_op;;
          r <- liftF (namei old);;
          match r with
          | None => kend_op;; ret (-1)
          | Some ip =>
              liftF (ilock ip);;
              x <- liftF (geti ip);;
              if itype x =? T_DIR then liftF (iunlockput ip);; kend_op;; ret (-1) else
              liftF (seti ip (fun x => set_inlink (s16 (inlink x + 1)) x);; iupdate ip;; iunlock ip);;
              r <- liftF (nameiparent new junk);;
              match r with
              | None => link_bad ip
              | Some (dp, name) =>
                  liftF (ilock dp);;
                  x <- liftF (geti ip);;
                  y <- liftF (geti dp);;
                  ok <- (if negb (idev y =? idev x) then ret false
                         else r <- liftF (dirlink dp name (inum x));; ret (negb (r <? 0)));;
                  if negb ok then liftF (iunlockput dp);; link_bad ip else
                  liftF (iunlockput dp;; iput ip);;
                  kend_op;;
                  ret 0
              end
          end
      end
  end.

(** Is the directory empty except for "." and ".."? *)
Fixpoint isdirempty_loop (fuel : nat) (i : nat) (off : Z) : M (fsys S) bool :=
  ip <- geti i;;
  if off <? isize ip then
    match fuel with
    | O => diverge
    | Datatypes.S k =>
        de <- read_dirent "isdirempty: readi" i off;;
        if negb (de_inum de =? 0) then ret false else isdirempty_loop k i (off + dirent_size)
    end
  else ret true.
Definition isdirempty (i : nat) : M (fsys S) bool :=
  ip <- geti i;; isdirempty_loop (Z.to_nat (isize ip)) i (2 * dirent_size).

Definition unlink_bad (dp : nat) : M K Z := liftF (iunlockput dp);; kend_op;; ret (-1).
(** The work of [sys_unlink] on the entry at [off] of [dp], for the inode [ip]. *)
Definition unlink_entry (dp ip : nat) (off : Z) : M (fsys S) bool :=
  ilock ip;;
  x <- geti ip;;
  if inlink x <? 1 then panic "unlink: nlink < 1" else
  busy <- (if itype x =? T_DIR then e <- isdirempty ip;; ret (negb e) else ret false);;
  if (busy : bool) then iunlockput ip;; ret false else
  r <- writei (from_kernel (replicate (Z.to_nat dirent_size) 0)) dp off dirent_size;;
  if negb (r =? dirent_size) then panic "unlink: writei" else
  x <- geti ip;;
  (if itype x =? T_DIR then seti dp (fun x => set_inlink (s16 (inlink x - 1)) x);; iupdate dp else ret tt);;
  iunlockput dp;;
  seti ip (fun x => set_inlink (s16 (inlink x - 1)) x);;
  iupdate ip;;
  iunlockput ip;;
  ret true.
Definition sys_unlink (a : nat -> Z) : M K Z :=
  path <- argstr a 0 MAXPATH;;
  match path with
  | None => ret (-1)
  | Some path =>
      kbegin_op;;
      r <- liftF (nameiparent path junk);;
      match r with
      | None => kend_op;; ret (-1)
      | Some (dp, name) =>
          liftF (ilock dp);;
          if (namecmp name (dot ++ [0]) =? 0) || (namecmp name (dotdot ++ [0]) =? 0) then unlink_bad dp else
          r <- liftF (dirlookup dp name);;
          match r with
          | None => unlink_bad dp
          | Some (ip, off) =>
              ok <- liftF (unlink_entry dp ip off);;
              if (ok : bool) then kend_op;; ret 0 else unlink_bad dp
          end
      end
  end.

(** The [fail] exit of [create]. *)
Definition create_fail (ip dp : nat) : M (fsys S) (option nat) :=
  seti ip (set_inlink 0);; iupdate ip;; iunlockput ip;; iunlockput dp;; ret None.
Definition create (path : list Z) (type major minor : Z) : M (fsys S) (option nat) :=
  r <- nameiparent path junk;;
  match r with
  | None => ret None
  | Some (dp, name) =>
      ilock dp;;
      r <- dirlookup dp name;;
      match r with
      | Some (ip, _) =>
          iunlockput dp;;
          ilock ip;;
          x <- geti ip;;
          if (type =? T_FILE) && ((itype x =? T_FILE) || (itype x =? T_DEVICE)) then ret (Some ip) else
          iunlockput ip;;
          ret None
      | None =>
          y <- geti dp;;
          r <- ialloc (idev y) type;;
          match r with
          | None => iunlockput dp;; ret None
          | Some ip =>
              ilock ip;;
              seti ip (fun x => Inode (idev x) (inum x) (iref x) (ilocked x) (ivalid x) (itype x) major minor 1 (isize x) (iaddrs x));;
              iupdate ip;;
              x <- geti ip;;
              y <- geti dp;;
              ok <- (if type =? T_DIR then
                       r1 <- dirlink ip (dot ++ [0]) (inum x);;
                       if r1 <? 0 then ret false else
                       r2 <- dirlink ip (dotdot ++ [0]) (inum y);;
                       ret (negb (r2 <? 0))
                     else ret true);;
              if negb ok then create_fail ip dp else
              r <- dirlink dp name (inum x);;
              if r <? 0 then create_fail ip dp else
              (if type =? T_DIR then seti dp (fun y => set_inlink (s16 (inlink y + 1)) y);; iupdate dp else ret tt);;
              iunlockput dp;;
              ret (Some ip)
          end
      end
  end.

Definition has (omode flag : Z) : bool := ctrue (Z.land omode flag).
(** The second half of [sys_open], with [ip] locked. *)
Definition open_inode (omode : Z) (ip : nat) : M K Z :=
  x <- liftF (geti ip);;
  if (itype x =? T_DEVICE) && ((imajor x <? 0) || (imajor x >=? NDEV)) then liftF (iunlockput ip);; kend_op;; ret (-1) else
  r <- filealloc;;
  match r with
  | None => liftF (iunlockput ip);; kend_op;; ret (-1)
  | Some f =>
      fd <- fdalloc f;;
      if fd <? 0 then fileclose f;; liftF (iunlockput ip);; kend_op;; ret (-1) else
      setf f (fun y => File (if itype x =? T_DEVICE then FD_DEVICE else FD_INODE) (f_ref y)
                         (negb (has omode O_WRONLY)) (has omode O_WRONLY || has omode O_RDWR) (f_pipe y) ip
                         (if itype x =? T_DEVICE then f_off y else 0) (if itype x =? T_DEVICE then imajor x else f_major y));;
      (if has omode O_TRUNC && (itype x =? T_FILE) then liftF (itrunc ip) else ret tt);;
      liftF (iunlock ip);;
      kend_op;;
      ret fd
  end.
Definition sys_open (a : nat -> Z) : M K Z :=
  let omode := argint a 1 in
  path <- argstr a 0 MAXPATH;;
  match path with
  | None => ret (-1)
  | Some path =>
      kbegin_op;;
      if has omode O_CREATE then
        r <- liftF (create path T_FILE 0 0);;
        match r with
        | None => kend_op;; ret (-1)
        | Some ip => open_inode omode ip
        end
      else
        r <- liftF (namei path);;
        match r with
        | None => kend_op;; ret (-1)
        | Some ip =>
            liftF (ilock ip);;
            x <- liftF (geti ip);;
            if (itype x =? T_DIR) && negb (omode =? O_RDONLY) then liftF (iunlockput ip);; kend_op;; ret (-1) else
            open_inode omode ip
        end
  end.

(** The rest of [sys_mkdir] and [sys_mknod]. *)
Definition make_node (path : option (list Z)) (type major minor : Z) : M K Z :=
  match path with
  | None => kend_op;; ret (-1)
  | Some path =>
      r <- liftF (create path type major minor);;
      match r with
      | None => kend_op;; ret (-1)
      | Some ip => liftF (iunlockput ip);; kend_op;; ret 0
      end
  end.
Definition sys_mkdir (a : nat -> Z) : M K Z :=
  kbegin_op;; path <- argstr a 0 MAXPATH;; make_node path T_DIR 0 0.
Definition sys_mknod (a : nat -> Z) : M K Z :=
  kbegin_op;; path <- argstr a 0 MAXPATH;; make_node path T_DEVICE (s16 (argint a 1)) (s16 (argint a 2)).

Definition sys_chdir (a : nat -> Z) : M K Z :=
  kbegin_op;;
  path <- argstr a 0 MAXPATH;;
  match path with
  | None => kend_op;; ret (-1)
  | Some path =>
      r <- liftF (namei path);;
      match r with
      | None => kend_op;; ret (-1)
      | Some ip =>
          liftF (ilock ip);;
          x <- liftF (geti ip);;
          if negb (itype x =? T_DIR) then liftF (iunlockput ip);; kend_op;; ret (-1) else
          liftF (iunlock ip);;
          f <- gets fs;;
          liftF (iput (cwd f));;
          kend_op;;
          liftF (modify (fun f => Fsys (store f) (sb f) (itable f) ip));;
          ret 0
      end
  end.

(** An [int] in memory. *)
Definition int_bytes (v : Z) : list Z := rd_bytes 4 (stn 4 (fun _ => 0) 0 v) 0.
Definition sys_pipe (page : option (list Z)) (a : nat -> Z) : M K Z :=
  let fdarray := argaddr a 0 in
  r <- pipealloc page;;
  match r with
  | None => ret (-1)
  | Some (rf, wf) =>
      fd0 <- fdalloc rf;;
      if fd0 <? 0 then fileclose rf;; fileclose wf;; ret (-1) else
      fd1 <- fdalloc wf;;
      if fd1 <? 0 then set_ofile (Z.to_nat fd0) None;; fileclose rf;; fileclose wf;; ret (-1) else
      u <- gets um;;
      let '(u1, ok0) := u_out u fdarray (int_bytes fd0) in
      let '(u2, ok1) := if ok0 then u_out u1 (u64 (fdarray + 4)) (int_bytes fd1) else (u1, false) in
      set_um u2;;
      if ok0 && ok1 then ret 0 else
      set_ofile (Z.to_nat fd0) None;;
      set_ofile (Z.to_nat fd1) None;;
      fileclose rf;;
      fileclose wf;;
      ret (-1)
  end.

End Sysfile.
