(* ===== verification/SysfileProofs.v ===== *)
(** * Descriptors and reference counts

    Every entry of the file table counts the descriptors that refer to it;
    [sys_dup] and [sys_pipe] keep the counts exact, on their error paths too. *)
From S2P Require Import Prelude Riscv Mem KString Bio BioSpec BioProofs Block Log LogProofs LogTheorems TxSpec LogTx Crash Fs FsBlock FsProofs FsInode FsWrite FsTheorems Pipe File FileProofs Sysfile.

(** How many descriptors of [o] refer to the file [f]. *)
Fixpoint fdcount (f : nat) (o : list (option nat)) : Z :=
  match o with
  | [] => 0
  | x :: o' => (if bool_decide (x = Some f) then 1 else 0) + fdcount f o'
  end.

Lemma fdcount_insert f o fd x y : o !! fd = Some x ->
  fdcount f (<[fd := y]> o) = fdcount f o - (if bool_decide (x = Some f) then 1 else 0) + (if bool_decide (y = Some f) then 1 else 0).
Proof.
  revert fd. induction o as [|z o IH]; intros [|fd] Hx; simplify_eq/=; [lia|]. rewrite IH by done. lia.
Qed.

Lemma fdcount_nonneg f o : 0 <= fdcount f o.
Proof. induction o as [|x o IH]; cbn; [lia|]. destruct (bool_decide (x = Some f)); lia. Qed.

Lemma fdcount_elem f o fd : o !! fd = Some (Some f) -> 1 <= fdcount f o.
Proof.
  revert fd. induction o as [|x o IH]; intros [|fd] Hx; simplify_eq/=.
  - rewrite bool_decide_true by done. pose proof (fdcount_nonneg f o). lia.
  - specialize (IH _ Hx). destruct (bool_decide (x = Some f)); lia.
Qed.

Lemma free_fd_spec o k : match free_fd o k with
  | Some fd => exists j, fd = (k + j)%nat /\ o !! j = Some None /\ (forall i, (i < j)%nat -> o !! i <> Some None)
  | None => forall i, o !! i <> Some None
  end.
Proof.
  revert k. induction o as [|[f|] o IH]; intros k; cbn [free_fd]; [done| |].
  - specialize (IH (S k)). destruct (free_fd o (S k)) as [fd|].
    + destruct IH as (j & -> & Hj & Hmin). exists (S j). split_and!; [lia|done|]. intros [|i] Hi; [done|]. apply Hmin. lia.
    + intros [|i]; [done|]. apply IH.
  - exists 0%nat. split_and!; [lia|done|lia].
Qed.

Lemma free_file_spec t k : match free_file t k with
  | Some f => exists j x, f = (k + j)%nat /\ t !! j = Some x /\ f_ref x = 0
  | None => forall i x, t !! i = Some x -> f_ref x <> 0
  end.
Proof.
  revert k. induction t as [|y t IH]; intros k; cbn [free_file]; [done|]. destruct (Z.eqb_spec (f_ref y) 0) as [E|E].
  - exists 0%nat, y. split_and!; [lia|done|done].
  - specialize (IH (S k)). destruct (free_file t (S k)) as [f|].
    + destruct IH as (j & x & -> & Hj & Hx). exists (S j), x. split_and!; [lia|done|done].
    + intros [|i] x Hx; [by simplify_eq/=|]. by apply (IH i).
Qed.

Section Descriptors.
Context {S U : Type} `{BlockStore S} `{UserMem U}.
Implicit Types (s : kfs S U) (o : list (option nat)) (ft : list file).

(** [ext f] is how many descriptors of other processes refer to [f]. *)
Record refs_ok (ext : nat -> Z) ft o : Prop := RefsOk {
  ro_len : length o = Z.to_nat NOFILE;
  ro_ext : forall f, 0 <= ext f;
  ro_ref : forall f x, ft !! f = Some x -> f_ref x = ext f + fdcount f o;
  ro_valid : forall fd f, o !! fd = Some (Some f) -> is_Some (ft !! f);
  ro_free : forall f x, ft !! f = Some x -> f_ref x = 0 -> f_type x = FD_NONE;
}.

(** Giving the file [f] one more descriptor and one more reference. *)
Lemma refs_ok_add ext ft o f x y fd : refs_ok ext ft o -> ft !! f = Some x -> o !! fd = Some None ->
  f_ref y = f_ref x + 1 -> refs_ok ext (<[f := y]> ft) (<[fd := Some f]> o).
Proof.
  intros [Hl He Hr Hv Hf] Hx Ho Hy. assert (Hlt : (f < length ft)%nat) by by eapply lookup_lt_Some. split; [by rewrite length_insert|done| | |].
  - intros g z Hz. rewrite (fdcount_insert g o fd None (Some f)) by done. destruct (decide (g = f)) as [->|Hne].
    + rewrite list_lookup_insert_eq in Hz by done. simplify_eq. rewrite bool_decide_false, bool_decide_true, (Hr _ _ Hx) in * by done. lia.
    + rewrite list_lookup_insert_ne in Hz by done. rewrite !bool_decide_false by congruence. rewrite (Hr _ _ Hz). lia.
  - intros fd' g Hg. destruct (decide (g = f)) as [->|Hne]; [rewrite list_lookup_insert_eq by done; done|]. rewrite list_lookup_insert_ne by done.
    destruct (decide (fd' = fd)) as [->|Hfd]; [rewrite list_lookup_insert_eq in Hg by (by eapply lookup_lt_Some); congruence|].
    rewrite list_lookup_insert_ne in Hg by done. by eapply Hv.
  - intros g z Hz Hz0. destruct (decide (g = f)) as [->|Hne].
    + rewrite list_lookup_insert_eq in Hz by done. simplify_eq. pose proof (Hr _ _ Hx). pose proof (He f). pose proof (fdcount_nonneg f o). lia.
    + rewrite list_lookup_insert_ne in Hz by done. by eapply Hf.
Qed.

(** A descriptor argument that names an open file. *)
Definition names_file (a : nat -> Z) o (f : nat) : Prop :=
  0 <= argint a 0 < NOFILE /\ o !! Z.to_nat (argint a 0) = Some (Some f).

Lemma wp_argfd a s (Q : option (Z * nat) -> kfs S U -> Prop) :
  (forall f, names_file a (ofile s) f -> Q (Some (argint a 0, f)) s) -> ((forall f, ~ names_file a (ofile s) f) -> Q None s) ->
  wp (argfd a 0) s Q.
Proof.
  intros H1 H2. unfold argfd. apply wp_bind, wp_gets, wp_ret. rewrite Z.geb_leb.
  destruct (Z.ltb_spec (argint a 0) 0); [apply H2; intros f [? _]; lia|].
  destruct (Z.leb_spec NOFILE (argint a 0)); [apply H2; intros f [? _]; lia|]. cbn [orb].
  destruct (ofile s !! Z.to_nat (argint a 0)) as [[f|]|] eqn:E; [by apply H1|apply H2; intros f [_ ?]; congruence..].
Qed.

Lemma wp_fdalloc f s (Q : Z -> kfs S U -> Prop) :
  (forall fd, ofile s !! fd = Some None -> (forall i, (i < fd)%nat -> ofile s !! i <> Some None) ->
     Q (Z.of_nat fd) (Kfs (fs s) (um s) (ftable s) (<[fd := Some f]> (ofile s)) (pipes s))) ->
  ((forall i, ofile s !! i <> Some None) -> Q (-1) s) -> wp (fdalloc f) s Q.
Proof.
  intros H1 H2. unfold fdalloc. apply wp_bind, wp_gets. pose proof (free_fd_spec (ofile s) 0) as Hs. destruct (free_fd (ofile s) 0) as [fd|].
  - destruct Hs as (j & -> & Hj & Hmin). rewrite Nat.add_0_l. apply wp_bind, wp_modify, wp_ret. by apply H1.
  - apply wp_ret. by apply H2.
Qed.

(** [sys_dup] gives the file a second descriptor, the lowest free one, and
    counts it; with a bad descriptor or a full descriptor table it returns -1
    and changes nothing.  The reference counts stay exact. *)
Theorem sys_dup_correct ext a s : refs_ok ext (ftable s) (ofile s) ->
  wp (sys_dup a) s (fun r s' => refs_ok ext (ftable s') (ofile s') /\
    ((r = -1 /\ s' = s /\ ((forall f, ~ names_file a (ofile s) f) \/ forall i, ofile s !! i <> Some None)) \/
     exists f, names_file a (ofile s) f /\ 0 <= r /\ ofile s !! Z.to_nat r = Some None /\ (forall i, (i < Z.to_nat r)%nat -> ofile s !! i <> Some None) /\
       ofile s' = <[Z.to_nat r := Some f]> (ofile s) /\ fs s' = fs s /\ um s' = um s /\ pipes s' = pipes s)).
Proof.
  intros Hok. unfold sys_dup. apply wp_bind, wp_argfd.
  2:{ intros Hno. apply wp_ret. split; [done|]. left. split_and!; [done|done|by left]. }
  intros f Hf. pose proof Hf as [_ Hfd]. destruct (ro_valid _ _ _ Hok _ _ Hfd) as [x Hx]. cbv beta iota. apply wp_bind, wp_fdalloc.
  2:{ intros Hno. apply wp_ret. split; [done|]. left. split_and!; [done|done|by right]. }
  intros fd Hfree Hmin. destruct (Z.ltb_spec (Z.of_nat fd) 0); [lia|]. apply wp_bind. unfold filedup. apply wp_bind.
  eapply wp_getf; [exact Hx|]. pose proof (ro_ref _ _ _ Hok _ _ Hx) as Hr. pose proof (ro_ext _ _ _ Hok f). pose proof (fdcount_elem _ _ _ Hfd).
  destruct (Z.ltb_spec (f_ref x) 1); [lia|]. apply wp_bind. eapply wp_setf; [exact Hx|]. apply wp_ret, wp_ret.
  cbn [ftable ofile fs um pipes]. split; [by eapply refs_ok_add|]. right. exists f. rewrite Nat2Z.id. split_and!; try done; lia.
Qed.

(** ** sys_pipe *)

Definition closed (x : file) : file := set_ftype FD_NONE (set_fref 0 x).
Definition pipe_end (wr : bool) (k : nat) (x : file) : file := File FD_PIPE (f_ref x) (negb wr) wr k (f_ip x) (f_off x) (f_major x).

(** The same table, but for what free entries still hold. *)
Definition same_files ft ft' : Prop :=
  forall f, match ft !! f, ft' !! f with
            | Some x, Some y => f_ref y = f_ref x /\ f_type y = f_type x /\ (f_ref x <> 0 -> y = x)
            | None, None => True
            | _, _ => False
            end.

Lemma same_files_refl ft : same_files ft ft.
Proof. intros f. by destruct (ft !! f). Qed.

Lemma same_files_closed ft ft' f x y : same_files ft ft' -> ft !! f = Some x -> f_ref x = 0 -> f_type x = FD_NONE ->
  same_files ft (<[f := closed y]> ft').
Proof.
  intros Hs Hx Hr Ht g. specialize (Hs g). destruct (decide (g = f)) as [->|Hne]; [|by rewrite list_lookup_insert_ne].
  rewrite Hx in *. destruct (ft' !! f) eqn:E; [|done]. rewrite list_lookup_insert_eq by (by eapply lookup_lt_Some). cbn. split_and!; congruence.
Qed.

Lemma refs_ok_same ext ft ft' o : refs_ok ext ft o -> same_files ft ft' -> refs_ok ext ft' o.
Proof.
  intros [Hl He Hr Hv Hf] Hs. split; [done|done| | |].
  - intros f y Hy. specialize (Hs f). rewrite Hy in Hs. destruct (ft !! f) as [x|] eqn:E; [|done]. destruct Hs as (-> & _). by apply Hr.
  - intros fd f Hfd. destruct (Hv _ _ Hfd) as [x Hx]. specialize (Hs f). rewrite Hx in Hs. by destruct (ft' !! f).
  - intros f y Hy H0'. specialize (Hs f). rewrite Hy in Hs. destruct (ft !! f) as [x|] eqn:E; [|done]. destruct Hs as (E1 & -> & _). eapply Hf; [done|congruence].
Qed.

Lemma wp_filealloc s (Q : option nat -> kfs S U -> Prop) :
  (forall f x, ftable s !! f = Some x -> f_ref x = 0 -> Q (Some f) (Kfs (fs s) (um s) (<[f := set_fref 1 x]> (ftable s)) (ofile s) (pipes s))) ->
  ((forall f x, ftable s !! f = Some x -> f_ref x <> 0) -> Q None s) -> wp filealloc s Q.
Proof.
  intros H1 H2. unfold filealloc. apply wp_bind, wp_gets. pose proof (free_file_spec (ftable s) 0) as Hs. destruct (free_file (ftable s) 0) as [f|].
  - destruct Hs as (j & x & -> & Hj & Hx). rewrite Nat.add_0_l. apply wp_bind. eapply wp_setf; [exact Hj|]. apply wp_ret. by apply H1.
  - apply wp_ret. by apply H2.
Qed.

(** Closing the only reference to an end of a pipe, or to a file never set up. *)
Lemma wp_fileclose_last f x s (Q : unit -> kfs S U -> Prop) :
  ftable s !! f = Some x -> f_ref x = 1 ->
  (f_type x = FD_NONE /\ Q tt (Kfs (fs s) (um s) (<[f := closed x]> (ftable s)) (ofile s) (pipes s)) \/
   exists pi, f_type x = FD_PIPE /\ pipes s !! f_pipe x = Some (Some pi) /\
     Q tt (Kfs (fs s) (um s) (<[f := closed x]> (ftable s)) (ofile s)
            (<[f_pipe x := if (pipeclose (f_writable x) pi).2 then None else Some (pipeclose (f_writable x) pi).1]> (pipes s)))) ->
  wp (fileclose f) s Q.
Proof.
  intros Hx Hr HQ. assert (Hlt : (f < length (ftable s))%nat) by by eapply lookup_lt_Some.
  unfold fileclose. apply wp_bind. eapply wp_getf; [exact Hx|]. rewrite Hr. cbn [Z.ltb Z.compare].
  apply wp_bind. eapply wp_setf; [exact Hx|]. cbn [Z.sub Z.add Z.opp Z.pos_sub Z.gtb Z.compare].
  apply wp_bind. eapply wp_setf; [by apply list_lookup_insert_eq|]. cbn [fs um ftable ofile pipes]. rewrite list_insert_insert_eq.
  change (set_ftype FD_NONE (set_fref 0 (set_fref (1 - 1) x))) with (closed x).
  destruct HQ as [[-> HQ]|(pi & -> & Hp & HQ)]; [by apply wp_ret|]. unfold pipe_close. apply wp_bind.
  unfold wp at 1, getp. cbn [pipes]. rewrite Hp. destruct (pipeclose (f_writable x) pi) as [pi' fr]. by apply wp_modify.
Qed.

(** Closing both ends of a fresh pipe frees it. *)
Lemma wp_close_both {A} f0 f1 x0 x1 k p s (c : M (kfs S U) A) (Q : A -> kfs S U -> Prop) :
  f0 <> f1 -> ftable s !! f0 = Some (pipe_end false k x0) -> ftable s !! f1 = Some (pipe_end true k x1) -> f_ref x0 = 1 -> f_ref x1 = 1 ->
  pipes s !! k = Some (Some (pipe_init p)) ->
  wp c (Kfs (fs s) (um s) (<[f1 := closed (pipe_end true k x1)]> (<[f0 := closed (pipe_end false k x0)]> (ftable s))) (ofile s) (<[k := None]> (pipes s))) Q ->
  wp (fileclose f0;; fileclose f1;; c) s Q.
Proof.
  intros Hne H0' H1 Hr0 Hr1 Hp HQ. assert (Hk : (k < length (pipes s))%nat) by by eapply lookup_lt_Some.
  apply wp_bind. eapply wp_fileclose_last; [exact H0'|done|]. right. exists (pipe_init p). split_and!; [done|done|].
  apply wp_bind. eapply wp_fileclose_last; [cbn [ftable]; by rewrite list_lookup_insert_ne|done|]. right. cbn [f_pipe pipe_end pipes].
  eexists. split_and!; [done|by apply list_lookup_insert_eq|]. cbn [f_writable pipeclose pipe_init fst snd preadopen pwriteopen negb andb fs um ftable ofile pipes].
  rewrite list_insert_insert_eq. exact HQ.
Qed.

(** Why [sys_pipe] may fail: no page, no two free files, no two free
    descriptors, or a user address that cannot be written. *)
Definition pipe_short (page : option (list Z)) (addr : Z) s : Prop :=
  page = None \/
  (forall f g x y, ftable s !! f = Some x -> ftable s !! g = Some y -> f_ref x = 0 -> f_ref y = 0 -> f = g) \/
  (forall i j, ofile s !! i = Some None -> ofile s !! j = Some None -> i = j) \/
  (exists fd0 fd1, (u_out (um s) addr (int_bytes fd0)).2 = false \/ (u_out (u_out (um s) addr (int_bytes fd0)).1 (u64 (addr + 4)) (int_bytes fd1)).2 = false).

(** The state of a [sys_pipe] that fails. *)
Definition pipe_undone s s' : Prop :=
  fs s' = fs s /\ ofile s' = ofile s /\ same_files (ftable s) (ftable s') /\ (pipes s' = pipes s \/ pipes s' = pipes s ++ [None]).

(** Free entries are closed entries. *)
Lemma closed_free x : f_ref x = 0 -> f_type x = FD_NONE -> closed (set_fref 1 x) = x.
Proof. destruct x. cbn. by intros -> ->. Qed.

(** The state after a [pipealloc] that succeeds. *)
Definition with_pipe f0 f1 x0 x1 (p : list Z) s : kfs S U :=
  Kfs (fs s) (um s) (<[f1 := pipe_end true (length (pipes s)) (set_fref 1 x1)]> (<[f0 := pipe_end false (length (pipes s)) (set_fref 1 x0)]> (ftable s)))
    (ofile s) (pipes s ++ [Some (pipe_init p)]).

Lemma wp_pipealloc ext page s (Q : option (nat * nat) -> kfs S U -> Prop) :
  refs_ok ext (ftable s) (ofile s) ->
  ((page = None \/ forall f g x y, ftable s !! f = Some x -> ftable s !! g = Some y -> f_ref x = 0 -> f_ref y = 0 -> f = g) -> Q None s) ->
  (forall f0 f1 x0 x1 p, page = Some p -> f0 <> f1 -> ftable s !! f0 = Some x0 -> ftable s !! f1 = Some x1 -> f_ref x0 = 0 -> f_ref x1 = 0 ->
     Q (Some (f0, f1)) (with_pipe f0 f1 x0 x1 p s)) ->
  wp (pipealloc page) s Q.
Proof.
  intros Hok Hnone Hsome. destruct s as [fs0 um0 ft o ps]. cbn [ftable ofile] in *. pose proof (ro_free _ _ _ Hok) as Hfr.
  unfold pipealloc. apply wp_bind, wp_filealloc; cbn [ftable].
  2:{ intros Hno. apply wp_ret, Hnone. right. intros f g x y Hx _ H0' _. by destruct (Hno _ _ Hx). }
  intros f0 x0 Hx0 Hr0. assert (Hl0 : (f0 < length ft)%nat) by by eapply lookup_lt_Some.
  pose proof (closed_free x0 Hr0 (Hfr _ _ Hx0 Hr0)) as Hc0. apply wp_bind, wp_filealloc; cbn [fs um ftable ofile pipes].
  2:{ intros Hno. apply wp_bind. eapply wp_fileclose_last; [by apply list_lookup_insert_eq|done|]. left. split; [exact (Hfr _ _ Hx0 Hr0)|].
      cbn [fs um ftable ofile pipes]. rewrite list_insert_insert_eq, Hc0, list_insert_id by done. apply wp_ret, Hnone. right.
      assert (Hall : forall g y, ft !! g = Some y -> f_ref y = 0 -> g = f0).
      { intros g y Hy Hy0. destruct (decide (g = f0)); [done|]. destruct (Hno g y); [by rewrite list_lookup_insert_ne|done]. }
      intros f g x y Hx Hy H1 H2. by rewrite (Hall f x), (Hall g y). }
  intros f1 x1 Hx1 Hr1. destruct (decide (f1 = f0)) as [->|Hne].
  { rewrite list_lookup_insert_eq in Hx1 by done. simplify_eq. }
  assert (Hx1' : ft !! f1 = Some x1) by (by rewrite list_lookup_insert_ne in Hx1). assert (Hl1 : (f1 < length ft)%nat) by by eapply lookup_lt_Some.
  destruct page as [p|].
  - apply wp_bind, wp_get. apply wp_bind, wp_modify. cbn [fs um ftable ofile pipes].
    apply wp_bind. eapply wp_setf; [cbn [ftable]; rewrite list_lookup_insert_ne by done; by apply list_lookup_insert_eq|]. cbn [fs um ftable ofile pipes].
    apply wp_bind. eapply wp_setf; [cbn [ftable]; rewrite list_lookup_insert_ne by done; apply list_lookup_insert_eq; by rewrite length_insert|]. cbn [fs um ftable ofile pipes].
    apply wp_ret. rewrite (list_insert_insert_ne _ f0 f1) by done. rewrite !list_insert_insert_eq.
    by apply (Hsome f0 f1 x0 x1 p).
  - apply wp_bind. eapply wp_fileclose_last; [cbn [ftable]; rewrite list_lookup_insert_ne by done; by apply list_lookup_insert_eq|done|].
    left. split; [exact (Hfr _ _ Hx0 Hr0)|]. cbn [fs um ftable ofile pipes].
    rewrite (list_insert_insert_ne _ f0 f1), list_insert_insert_eq, Hc0, (list_insert_id ft f0 x0) by done.
    apply wp_bind. eapply wp_fileclose_last; [cbn [ftable]; by apply list_lookup_insert_eq|done|]. left. split; [exact (Hfr _ _ Hx1' Hr1)|]. cbn [fs um ftable ofile pipes].
    rewrite list_insert_insert_eq, closed_free, list_insert_id by (try done; by apply (Hfr f1)). apply wp_ret, Hnone. by left.
Qed.

Lemma with_pipe_undo f0 f1 x0 x1 p s u k ext : refs_ok ext (ftable s) (ofile s) -> k = length (pipes s) -> f0 <> f1 ->
  ftable s !! f0 = Some x0 -> ftable s !! f1 = Some x1 -> f_ref x0 = 0 -> f_ref x1 = 0 ->
  pipe_undone s (Kfs (fs s) u (<[f1 := closed (pipe_end true k (set_fref 1 x1))]> (<[f0 := closed (pipe_end false k (set_fref 1 x0))]>
    (ftable (with_pipe f0 f1 x0 x1 p s)))) (ofile s) (<[k := None]> (pipes s ++ [Some (pipe_init p)]))).
Proof.
  intros Hok -> Hne Hx0 Hx1 Hr0 Hr1. pose proof (ro_free _ _ _ Hok) as Hfr. split_and!; [done|done| |].
  - cbn [ftable with_pipe]. rewrite (list_insert_insert_ne _ f0 f1), !list_insert_insert_eq by done.
    eapply same_files_closed; [eapply same_files_closed; [apply same_files_refl|exact Hx0|done|by eapply Hfr]|exact Hx1|done|by eapply Hfr].
  - right. cbn [pipes]. by rewrite insert_app_r_alt, Nat.sub_diag by lia.
Qed.

Lemma with_pipe_refs f0 f1 x0 x1 p fd0 fd1 s ext : refs_ok ext (ftable s) (ofile s) -> f0 <> f1 -> fd0 <> fd1 ->
  ftable s !! f0 = Some x0 -> ftable s !! f1 = Some x1 -> f_ref x0 = 0 -> f_ref x1 = 0 ->
  ofile s !! fd0 = Some None -> ofile s !! fd1 = Some None ->
  refs_ok ext (ftable (with_pipe f0 f1 x0 x1 p s)) (<[fd1 := Some f1]> (<[fd0 := Some f0]> (ofile s))).
Proof.
  intros Hok Hne Hfd Hx0 Hx1 Hr0 Hr1 Ho0 Ho1. cbn [ftable with_pipe].
  eapply (refs_ok_add _ _ _ _ x1); [eapply (refs_ok_add _ _ _ _ x0); [done|done|done|cbn; lia]|by rewrite list_lookup_insert_ne|by rewrite list_lookup_insert_ne|cbn; lia].
Qed.

(** The state of a [sys_pipe] that succeeds: two descriptors that were free, for
    the two ends of a new pipe in two files that were free. *)
Definition pipe_made (page : option (list Z)) s s' : Prop :=
  exists f0 f1 x0 x1 p fd0 fd1, page = Some p /\ f0 <> f1 /\ fd0 <> fd1 /\
    ftable s !! f0 = Some x0 /\ ftable s !! f1 = Some x1 /\ f_ref x0 = 0 /\ f_ref x1 = 0 /\ ofile s !! fd0 = Some None /\ ofile s !! fd1 = Some None /\
    ofile s' = <[fd1 := Some f1]> (<[fd0 := Some f0]> (ofile s)) /\ ftable s' = ftable (with_pipe f0 f1 x0 x1 p s) /\
    pipes s' = pipes s ++ [Some (pipe_init p)] /\ fs s' = fs s.

(** C28: [sys_pipe] returns 0 with two new descriptors, for the two ends of a
    fresh pipe, or returns -1 for lack of memory, files, descriptors or a
    writable user address; then every file it had taken is given back, the
    pipe is freed and the descriptors are as before.  The reference counts
    stay exact either way. *)
Theorem sys_pipe_correct ext page a s : refs_ok ext (ftable s) (ofile s) ->
  wp (sys_pipe page a) s (fun r s' => refs_ok ext (ftable s') (ofile s') /\
    ((r = -1 /\ pipe_undone s s' /\ pipe_short page (argaddr a 0) s) \/ (r = 0 /\ pipe_made page s s'))).
Proof.
  intros Hok. unfold sys_pipe. cbv zeta. set (addr := argaddr a 0). set (Q := fun (r : Z) s' => _).
  assert (Hfail : forall s', pipe_undone s s' -> pipe_short page addr s -> Q (-1) s').
  { intros s' Hu Hs. split; [|left; done]. destruct Hu as (_ & -> & Hf & _). by eapply refs_ok_same. }
  apply wp_bind. eapply wp_pipealloc; [exact Hok| |].
  { intros Hno. apply wp_ret, Hfail; [|unfold pipe_short; tauto]. split_and!; [done|done|apply same_files_refl|by left]. }
  intros f0 f1 x0 x1 p -> Hne Hx0 Hx1 Hr0 Hr1. assert (Hl0 : (f0 < length (ftable s))%nat) by by eapply lookup_lt_Some.
  assert (Hl1 : (f1 < length (ftable s))%nat) by by eapply lookup_lt_Some.
  (* closing both ends again undoes everything *)
  assert (Hundo : forall u, pipe_short (Some p) addr s ->
    wp (fileclose f0;; fileclose f1;; ret (-1)) (Kfs (fs s) u (ftable (with_pipe f0 f1 x0 x1 p s)) (ofile s) (pipes s ++ [Some (pipe_init p)])) Q).
  { intros u Hs. eapply (wp_close_both f0 f1 _ _ (length (pipes s)) p); [done|..].
    - cbn. rewrite list_lookup_insert_ne by done. by apply list_lookup_insert_eq.
    - cbn. apply list_lookup_insert_eq. by rewrite length_insert.
    - done.
    - done.
    - cbn. by apply list_lookup_middle.
    - apply wp_ret, Hfail; [|done]. by apply (with_pipe_undo f0 f1 x0 x1 p s u _ ext). }
  cbv beta iota. apply wp_bind, wp_fdalloc; cbn [ofile with_pipe].
  2:{ intros Hno. apply (Hundo (um s)). right; right; left. intros i j Hi. by destruct (Hno i). }
  intros fd0 Ho0 _. destruct (Z.ltb_spec (Z.of_nat fd0) 0); [lia|]. assert (Hlo : (fd0 < length (ofile s))%nat) by by eapply lookup_lt_Some.
  apply wp_bind, wp_fdalloc; cbn [fs um ftable ofile pipes].
  2:{ intros Hno. cbn [Z.ltb Z.compare]. apply wp_bind, wp_modify. cbn [fs um ftable ofile pipes].
      rewrite Nat2Z.id, list_insert_insert_eq, (list_insert_id (ofile s)) by done. apply Hundo. right; right; left.
      assert (Hall : forall i, ofile s !! i = Some None -> i = fd0).
      { intros i Hi. destruct (decide (i = fd0)); [done|]. destruct (Hno i). by rewrite list_lookup_insert_ne. }
      intros i j Hi Hj. by rewrite (Hall i), (Hall j). }
  intros fd1 Ho1 _. destruct (decide (fd1 = fd0)) as [->|Hfd]; [by rewrite list_lookup_insert_eq in Ho1|].
  rewrite list_lookup_insert_ne in Ho1 by done. destruct (Z.ltb_spec (Z.of_nat fd1) 0); [lia|].
  apply wp_bind, wp_gets. cbn [um]. change (um (with_pipe f0 f1 x0 x1 p s)) with (um s).
  destruct (u_out (um s) addr (int_bytes (Z.of_nat fd0))) as [u1 ok0] eqn:E0.
  destruct (if ok0 then u_out u1 (u64 (addr + 4)) (int_bytes (Z.of_nat fd1)) else (u1, false)) as [u2 ok1] eqn:E1.
  apply wp_bind, wp_modify. cbn [fs um ftable ofile pipes].
  destruct (ok0 && ok1) eqn:Eok.
  - apply wp_ret. split; [by apply with_pipe_refs|]. right. split; [done|]. by exists f0, f1, x0, x1, p, fd0, fd1.
  - apply wp_bind, wp_modify. apply wp_bind, wp_modify. cbn [fs um ftable ofile pipes]. rewrite !Nat2Z.id.
    rewrite (list_insert_insert_ne _ fd0 fd1), !list_insert_insert_eq, !(list_insert_id (ofile s)) by (rewrite ?list_insert_id; done).
    apply Hundo. right; right; right. exists (Z.of_nat fd0), (Z.of_nat fd1). rewrite E0. destruct ok0; [right|by left]. cbn in *. by rewrite E1.
Qed.
End Descriptors.

(** A process with one open file, and a table with two free files. *)
#[local] Existing Instance store0.
#[local] Existing Instance flat_mem.
Definition free_entry : file := File FD_NONE 0 false false 0 0 0 0.
Definition files0 : list file := [open5; free_entry; free_entry].
Definition fds0 : list (option nat) := Some 0%nat :: replicate 15 None.
Definition args0 : nat -> Z := fun _ => 0.

Lemma fds0_refs : refs_ok (fun _ => 0) files0 fds0.
Proof.
  split; [done|done| | |].
  - intros [|[|[|f]]] x Hx; by simplify_eq/=.
  - intros [|fd] f Hf; [by simplify_eq/=|]. change (replicate 15 None !! fd = Some (Some f)) in Hf. apply lookup_replicate in Hf as [? _]. done.
  - intros [|[|[|f]]] x Hx; by simplify_eq/=.
Qed.

Lemma sys_dup_correct_witness : exists (st : lst bst) s', sys_dup args0 (Kfs (Fsys st sb0 [] 0) sevens files0 fds0 []) = Ret (1, s') /\
  refs_ok (fun _ => 0) (ftable s') (ofile s').
Proof.
  destruct fsdisk_idle as (st & w & Hid).
  destruct (wp_inv _ _ _ (sys_dup_correct (fun _ => 0) args0 (Kfs (Fsys st sb0 [] 0) sevens files0 fds0 []) fds0_refs)) as (r & s' & E & Hr & _).
  exists st, s'. split; [|exact Hr]. rewrite E. cbv in E. injection E as <- _. reflexivity.
Defined.

Lemma sys_pipe_correct_witness : exists (st : lst bst) s', sys_pipe (Some page0) args0 (Kfs (Fsys st sb0 [] 0) sevens files0 fds0 []) = Ret (0, s') /\
  refs_ok (fun _ => 0) (ftable s') (ofile s').
Proof.
  destruct fsdisk_idle as (st & w & Hid).
  destruct (wp_inv _ _ _ (sys_pipe_correct (fun _ => 0) (Some page0) args0 (Kfs (Fsys st sb0 [] 0) sevens files0 fds0 []) fds0_refs)) as (r & s' & E & Hr & _).
  exists st, s'. split; [|exact Hr]. rewrite E. cbv in E. injection E as <- _. reflexivity.
Defined.
