(* ===== verification/UserVm.v ===== *)
(** * From user memory to the disk

    The page tables of vm.c implement the user memory that file.c sees, and
    [sys_write] takes bytes from the pages of a process to a file on disk: the
    theorem of this file composes the page tables, the descriptors, the
    file system, the log and the buffer cache. *)
From S2P Require Import Prelude Riscv Mem KString Kalloc Vm VmWalk VmMap VmUser VmFree VmCopy Machine VmTheorems Bio BioSpec BioProofs Block Log LogProofs LogTheorems TxSpec LogTx Crash Fs FsBlock FsProofs FsInode FsWrite FsTheorems Pipe File FileProofs Sysfile SysfileProofs.

(** The kernel's memory and the page table of the process. *)
Record vmem : Type := Vmem { vm_k : kst; vm_pt : Z }.

#[export] Instance vm_user {L : Layout} : UserMem vmem := {|
  u_out u a l := match copyout (vm_pt u) a l (vm_k u) with
                 | Ret (r, k) => (Vmem k (vm_pt u), r =? 0)
                 | _ => (u, false)
                 end;
  u_in u a n := match copyin (vm_pt u) a n (vm_k u) with
                | Ret ((r, l), _) => (l, r =? 0)
                | _ => ([], false)
                end;
  u_str u a max := match copyinstr (vm_pt u) a max (vm_k u) with
                   | Ret ((r, l), _) => if r =? 0 then Some (removelast l) else None
                   | _ => None
                   end;
|}.

Section UserVm.
Context {L : Layout}.

Lemma ubytes_slice (n i k : nat) s pt va bs : (i + k <= n)%nat -> ubytes n s pt va = Some bs ->
  ubytes k s pt (va + Z.of_nat i) = Some (take k (drop i bs)).
Proof.
  intros Hle. replace n with (i + (k + (n - i - k)))%nat by lia. rewrite !ubytes_app.
  destruct (ubytes i s pt va) as [b1|] eqn:E1; [|done]. cbn [mbind option_bind].
  destruct (ubytes k s pt (va + Z.of_nat i)) as [b2|] eqn:E2; [|done]. cbn [mbind option_bind].
  assert (Hl : forall n va b, ubytes n s pt va = Some b -> length b = n).
  { clear. induction n as [|n IH]; intros va b; cbn [ubytes]; [by intros [= <-]|].
    destruct (ubyte s pt va); [|done]. cbn [mbind option_bind]. destruct (ubytes n s pt (va + 1)) eqn:E; [|done]. intros [= <-]. cbn. by rewrite (IH _ _ E). }
  destruct (ubytes (n - i - k) s pt _) as [b3|]; [|done]. intros E3.
  simplify_eq/=. rewrite drop_app_length' by (symmetry; by eapply Hl). by rewrite take_app_length' by (symmetry; by eapply Hl).
Qed.

(** Bytes that are accessible through the page table are what [copyin] delivers,
    piece by piece. *)
Lemma vm_holds_at s pt frames fl addr src :
  user_space s pt frames fl -> 0 <= addr -> addr + len src <= 2 ^ 64 -> ubytes (length src) s pt addr = Some src ->
  holds_at (Vmem s pt) addr src.
Proof.
  intros Hus Ha Hend Hb tot k Ht Hk Hle. unfold len in *. cbn [u_in vm_user vm_pt vm_k].
  rewrite u64_small by lia. destruct (copyin_eq pt (addr + tot) k s frames fl Hus) as (r & bs & -> & Hr); [lia|lia|].
  pose proof (ubytes_slice (length src) (Z.to_nat tot) (Z.to_nat k) s pt addr src ltac:(lia) Hb) as Hsl. rewrite Z2Nat.id in Hsl by lia.
  rewrite Hsl in Hr. by destruct Hr as [-> ->].
Qed.

Section Store.
Context {S : Type} `{BlockStore S} (dev_write : Z -> option (Z -> Z -> M (kfs S vmem) Z)).

(** C1: [sys_write] from the memory of a process to a regular file.  If the
    descriptor is open for writing on the file and the [n] bytes at the user
    address are mapped, the call returns [n] and those bytes are in the file, on
    disk, or it returns -1 because the disk is full; the memory of the process is
    unchanged, and a crash at any moment leaves a prefix of the data in
    the file. *)
Theorem sys_write_durable killed a src st b t cw w d ip s pt frames fl ft f ff o ps i :
  user_space s pt frames fl -> 0 <= argaddr a 1 -> argaddr a 1 + len src <= 2 ^ 64 ->
  ubytes (length src) s pt (argaddr a 1) = Some src -> argint a 2 = len src ->
  names_file a o f -> ft !! f = Some ff -> f_type ff = FD_INODE -> f_writable ff = true -> f_ip ff = i ->
  idle st w d -> bitmap_ok b d -> inode_at b d t i ip -> ready ip -> synced b d ip ->
  0 <= f_off ff <= isize ip -> f_off ff + len src <= MAXFILE * BSIZE -> (23 <= b_cap)%nat ->
  wp (sys_write dev_write killed a) (Kfs (Fsys st b t cw) (Vmem s pt) ft o ps)
    (write_result b src (f_off ff) d ip w f ff (Vmem s pt) ft o ps t i cw).
Proof.
  intros Hus Ha Hend Hb Hn Hfd Hf Hty Hwr Hfi Hid Hok Hat Hrd Hs Hoff Hmax Hcap. unfold sys_write.
  apply wp_bind, wp_argfd; [|intros Hno; by destruct (Hno f)]. intros f' [Hr Hf']. destruct Hfd as [_ Hfd].
  cbn [ofile] in *. assert (f' = f) as -> by congruence. rewrite Hn. apply wp_filewrite; try done. by eapply vm_holds_at.
Qed.
End Store.
End UserVm.

(** A process with one page, and its two bytes at address 10. *)
#[local] Existing Instance store0.
Definition write_args : nat -> Z := fun n => match n with O => 0 | S O => 10 | _ => 2 end.

Lemma sys_write_durable_witness : exists (st : lst bst) w s p,
  let src := rd_bytes 2 (mem s) (p + 10) in
  wp (sys_write (fun _ => None) false write_args) (Kfs (Fsys st sb0 [idle5] 0) (Vmem s (pg 0)) [open5] fds0 [])
    (write_result sb0 src (f_off open5) fsdisk idle5 w 0%nat open5 (Vmem s (pg 0)) [open5] fds0 [] [idle5] 0%nat 0%nat).
Proof.
  destruct fsdisk_idle as (st & w & Hid). destruct space1 as (s & p & fl & _ & Hus & Hp & Hne & _). exists st, w, s, p. cbv zeta.
  assert (Hl : len (rd_bytes 2 (mem s) (p + 10)) = 2) by (unfold len; by rewrite rd_bytes_length).
  eapply (sys_write_durable (fun _ => None) false write_args (rd_bytes 2 (mem s) (p + 10)) st sb0 [idle5] 0 w fsdisk idle5 s (pg 0) [p] fl [open5] 0 open5);
    rewrite ?Hl, ?rd_bytes_length; [exact Hus|done|done|apply (space1_mapped s p fl); (done || unfold PGSIZE; simpl; lia)|done|by split|done|done|done|done
    |exact Hid|exact fsdisk_bitmap|exact (inode_at_lock _ _ _ _ _ false file5_at)|split; cbn; [lia|done|done]|vm_compute; reflexivity|..].
  - split; vm_compute; discriminate.
  - vm_compute. discriminate.
  - change b_cap with 29%nat. lia.
Defined.
