(* ===== verification/Spinlock.v ===== *)
(** * kernel/spinlock.c

    [push_off] and [pop_off] on one CPU, and spin locks on any number of them:
    a step relation in which every access of [acquire] and [release] to the
    lock is a step of its own, the atomic swaps included. *)
From S2P Require Import Prelude.

Record cpu : Type := Cpu {
  intr : bool;       (* sstatus.SIE *)
  noff : Z;
  intena : bool;
}.

(** The debugging fields of [struct spinlock] are [locked] and [cpu]; [name] is
    never read. *)
Record spinlock : Type := Spinlock { locked : Z; lcpu : option nat }.

Definition initlock : spinlock := Spinlock 0 None.

Definition push_off : M cpu unit :=
  old <- gets intr;;
  modify (fun c => Cpu false (noff c) (intena c));;
  c <- get;;
  (if noff c =? 0 then put (Cpu (intr c) (noff c) old) else ret tt);;
  modify (fun c => Cpu (intr c) (noff c + 1) (intena c)).
Definition pop_off : M cpu unit :=
  c <- get;;
  if intr c then panic "pop_off - interruptible" else
  if noff c <? 1 then panic "pop_off" else
  put (Cpu (intr c) (noff c - 1) (intena c));;
  c <- get;;
  if (noff c =? 0) && intena c then put (Cpu true (noff c) (intena c)) else ret tt.

Definition holding (me : nat) (lk : spinlock) : bool := ctrue (locked lk) && bool_decide (lcpu lk = Some me).

(** ** Matched pairs *)

(** A well-bracketed sequence of [push_off]s ([true]) and [pop_off]s. *)
Inductive matched : list bool -> Prop :=
| matched_nil : matched []
| matched_pair l l' : matched l -> matched l' -> matched (true :: l ++ false :: l').

Fixpoint run (l : list bool) : M cpu unit :=
  match l with
  | [] => ret tt
  | true :: l' => push_off;; run l'
  | false :: l' => pop_off;; run l'
  end.

(** While some [push_off] is not undone, interrupts are off. *)
Definition cpu_ok (c : cpu) : Prop := 0 <= noff c /\ (0 < noff c -> intr c = false).

Lemma wp_push_off c (Q : unit -> cpu -> Prop) :
  Q tt (Cpu false (noff c + 1) (if noff c =? 0 then intr c else intena c)) -> wp push_off c Q.
Proof. intros HQ. unfold wp, push_off, bind, gets, modify, get, put. cbn. by destruct (noff c =? 0). Qed.

Lemma wp_pop_off c (Q : unit -> cpu -> Prop) : intr c = false -> 1 <= noff c ->
  Q tt (Cpu ((noff c =? 1) && intena c) (noff c - 1) (intena c)) -> wp pop_off c Q.
Proof.
  intros Hi Hn HQ. unfold wp, pop_off, bind, get. rewrite Hi. destruct (Z.ltb_spec (noff c) 1); [lia|]. cbn.
  replace (noff c - 1 =? 0) with (noff c =? 1) by (destruct (Z.eqb_spec (noff c) 1), (Z.eqb_spec (noff c - 1) 0); lia || done).
  by destruct ((noff c =? 1) && intena c).
Qed.

Lemma run_app l l' : forall c Q, wp (run l) c (fun _ c' => wp (run l') c' Q) -> wp (run (l ++ l')) c Q.
Proof.
  induction l as [|[] l IH]; intros c Q Hw; [done| |]; cbn [run app] in *;
    unfold wp, bind in *; [destruct (push_off c) as [[a c']| | |]|destruct (pop_off c) as [[a c']| | |]]; try done; by apply IH.
Qed.

(** [push_off] and [pop_off] are matched: any well-bracketed sequence of them
    runs without a panic and leaves the nesting depth and the interrupt flag as
    they were; interrupts that were off stay off. *)
Theorem push_off_matched l c : matched l -> cpu_ok c ->
  wp (run l) c (fun _ c' => intr c' = intr c /\ noff c' = noff c /\ cpu_ok c' /\ (0 < noff c -> intena c' = intena c)).
Proof.
  intros Hm. revert c. induction Hm as [|l l' _ IH _ IH']; intros c [Hn Hi]; [by apply wp_ret|].
  cbn [run]. apply wp_bind, wp_push_off, run_app.
  eapply wp_mono; [apply IH; split; cbn; lia || done|]. cbn [intr noff intena]. intros [] c1 (Hi1 & Hn1 & _ & He1).
  cbn [run]. apply wp_bind, wp_pop_off; [done|lia|]. rewrite He1, Hn1 by lia. set (c2 := Cpu _ _ _).
  assert (H2 : intr c2 = intr c /\ noff c2 = noff c).
  { unfold c2. cbn. destruct (Z.eqb_spec (noff c) 0), (Z.eqb_spec (noff c + 1) 1); try lia; cbn; [split; [done|lia]|]. split; [|lia]. symmetry. apply Hi. lia. }
  destruct H2 as [E1 E2]. eapply wp_mono; [apply IH'; split; rewrite ?E1, ?E2; done|]. intros [] c3 (-> & -> & Hok & He). rewrite E1, E2 in *. split_and!; try done.
  intros Hp. rewrite He by done. unfold c2. cbn. destruct (Z.eqb_spec (noff c) 0); [lia|done].
Qed.

Lemma push_off_matched_witness : wp (run [true; true; false; false]) (Cpu true 0 false)
  (fun _ c' => intr c' = true /\ noff c' = 0 /\ cpu_ok c' /\ (0 < 0 -> intena c' = false)).
Proof.
  apply (push_off_matched [true; true; false; false] (Cpu true 0 false)); [|split; cbn; lia].
  apply (matched_pair [true; false] []); [|constructor]. apply (matched_pair [] []); constructor.
Defined.

(** ** Locks on several CPUs *)

(** Where a CPU is: outside of these functions; in [acquire], before a swap or
    after the one that got the lock; in [release], before and after the lock is
    given up; in [panic]. *)
Inductive pc : Type :=
| Outside
| Spin (l : nat)
| Got (l : nat)
| Give (l : nat)
| Given
| Panicked.

(** The machine.  Two ghost fields: [pushed] counts the [push_off]s of a CPU
    outside of locks, as in [myproc]; [crit] lists the critical sections a CPU
    is in, from the return of [acquire] to the call of [release]. *)
Record machine : Type := Machine {
  cpus : nat -> cpu;
  pcs : nat -> pc;
  pushed : nat -> nat;
  crit : nat -> list nat;
  locks : nat -> spinlock;
}.
Definition upd {A} (f : nat -> A) (i : nat) (x : A) : nat -> A := fun j => if decide (j = i) then x else f j.

Inductive mstep : machine -> machine -> Prop :=
(** [acquire]: [push_off] and the check. *)
| step_acquire C P X G L me l c' :
    P me = Outside -> push_off (C me) = Ret (tt, c') ->
    mstep (Machine C P X G L) (Machine (upd C me c') (upd P me (if holding me (L l) then Panicked else Spin l)) X G L)
(** [__sync_lock_test_and_set(&lk->locked, 1)]. *)
| step_swap C P X G L me l :
    P me = Spin l ->
    mstep (Machine C P X G L)
      (Machine C (upd P me (if locked (L l) =? 0 then Got l else Spin l)) X G (upd L l (Spinlock 1 (lcpu (L l)))))
(** [lk->cpu = mycpu()]. *)
| step_record C P X G L me l :
    P me = Got l ->
    mstep (Machine C P X G L) (Machine C (upd P me Outside) X (upd G me (l :: G me)) (upd L l (Spinlock (locked (L l)) (Some me))))
(** [release]: the check, and [lk->cpu = 0]. *)
| step_release C P X G L me l :
    P me = Outside ->
    mstep (Machine C P X G L)
      (if holding me (L l) then Machine C (upd P me (Give l)) X (upd G me (filter (fun k => k <> l) (G me))) (upd L l (Spinlock (locked (L l)) None))
       else Machine C (upd P me Panicked) X G L)
(** [__sync_lock_release(&lk->locked)]. *)
| step_unlock C P X G L me l :
    P me = Give l ->
    mstep (Machine C P X G L) (Machine C (upd P me Given) X G (upd L l (Spinlock 0 (lcpu (L l)))))
(** [pop_off] at the end of [release]. *)
| step_given C P X G L me c' :
    P me = Given -> pop_off (C me) = Ret (tt, c') ->
    mstep (Machine C P X G L) (Machine (upd C me c') (upd P me Outside) X G L)
| step_given_panic C P X G L me msg :
    P me = Given -> pop_off (C me) = Panic msg ->
    mstep (Machine C P X G L) (Machine C (upd P me Panicked) X G L)
(** A bare [push_off] or [pop_off], and [intr_on]/[intr_off] outside of both. *)
| step_push C P X G L me c' :
    P me = Outside -> push_off (C me) = Ret (tt, c') ->
    mstep (Machine C P X G L) (Machine (upd C me c') P (upd X me (S (X me))) G L)
| step_pop C P X G L me n c' :
    P me = Outside -> X me = S n -> pop_off (C me) = Ret (tt, c') ->
    mstep (Machine C P X G L) (Machine (upd C me c') P (upd X me n) G L)
| step_intr C P X G L me b :
    P me = Outside -> noff (C me) = 0 ->
    mstep (Machine C P X G L) (Machine (upd C me (Cpu b 0 (intena (C me)))) P X G L).

Definition machine_init (s : machine) : Prop :=
  forall c, pcs s c = Outside /\ pushed s c = 0%nat /\ crit s c = [] /\ cpu_ok (cpus s c) /\ noff (cpus s c) = 0 /\ locks s c = initlock.
Definition mreachable (s : machine) : Prop := exists s0, machine_init s0 /\ rtc mstep s0 s.

(** The CPU owns the lock: its swap succeeded and was not undone yet. *)
Definition owns (s : machine) (c l : nat) : Prop := pcs s c = Got l \/ pcs s c = Give l \/ l ∈ crit s c.

Definition busy (p : pc) : nat := match p with Spin _ | Got _ | Give _ | Given => 1 | Outside | Panicked => 0 end.

(** The nesting depth of a CPU counts its critical sections, its bare
    [push_off]s and the [acquire] or [release] it is in. *)
Record depth_ok (c : cpu) (p : pc) (x : nat) (g : list nat) : Prop := DepthOk {
  dp_cpu : cpu_ok c;
  dp_le : Z.of_nat (length g + x + busy p) <= noff c;
  dp_eq : p <> Panicked -> noff c = Z.of_nat (length g + x + busy p);
}.

Record lock_inv (s : machine) : Prop := LockInv {
  li_depth : forall c, depth_ok (cpus s c) (pcs s c) (pushed s c) (crit s c);
  li_nodup : forall c, NoDup (crit s c);
  li_crit : forall c l, l ∈ crit s c <-> lcpu (locks s l) = Some c;
  li_fresh : forall c l, pcs s c = Got l \/ pcs s c = Give l -> l ∉ crit s c;
  li_bit : forall l, locked (locks s l) = 0 \/ locked (locks s l) = 1;
  li_free : forall l, locked (locks s l) = 0 -> forall c, ~ owns s c l;
  li_mutex : forall l c c', owns s c l -> owns s c' l -> c = c';
}.

Lemma upd_eq {A} (f : nat -> A) i x : upd f i x i = x.
Proof. unfold upd. by rewrite decide_True. Qed.
Lemma upd_ne {A} (f : nat -> A) i j x : j <> i -> upd f i x j = f j.
Proof. intros. unfold upd. by rewrite decide_False. Qed.
Ltac upd_at c me := destruct (decide (c = me)) as [->|]; rewrite ?upd_eq, ?upd_ne by done.

Lemma lock_inv_init s : machine_init s -> lock_inv s.
Proof.
  intros Hi. assert (HC : forall c, crit s c = []) by (intros c; apply Hi). assert (HP : forall c, pcs s c = Outside) by (intros c; apply Hi).
  assert (HO : forall c l, ~ owns s c l) by (intros c l [E|[E|E]]; [rewrite HP in E..|rewrite HC in E; set_solver]; done).
  split; intros c; destruct (Hi c) as (Hp & Hx & Hc & Hok & Hn & Hl).
  - rewrite Hc, Hx, Hp. split; [done|rewrite Hn; done..].
  - rewrite Hc. constructor.
  - intros l. rewrite Hc. destruct (Hi l) as (_ & _ & _ & _ & _ & ->). split; [set_solver|done].
  - intros l [E|E]; congruence.
  - rewrite Hl. by left.
  - intros _ c'. apply HO.
  - intros c' c'' Ho. by destruct (HO _ _ Ho).
Qed.

(** A step that moves one CPU between places where it owns nothing, with the
    locks and the critical sections as they were. *)
Definition idle_pc (p : pc) : Prop := forall l, p <> Got l /\ p <> Give l.

Lemma lock_inv_idle C C' P p' X X' G L me :
  lock_inv (Machine C P X G L) -> idle_pc (P me) -> idle_pc p' ->
  (forall c, depth_ok (C' c) (upd P me p' c) (X' c) (G c)) -> lock_inv (Machine C' (upd P me p') X' G L).
Proof.
  intros [Hd Hn Hc Hf Hb Hfr Hm] Hi Hi' Hd'. cbn in *.
  assert (Ho : forall c l, owns (Machine C' (upd P me p') X' G L) c l <-> owns (Machine C P X G L) c l).
  { intros c l. unfold owns. cbn. upd_at c me; [|done]. destruct (Hi l), (Hi' l). tauto. }
  split; cbn; try done.
  - intros c l. upd_at c me; [destruct (Hi' l); tauto|apply Hf].
  - intros l H0 c. rewrite Ho. by apply Hfr.
  - intros l c c'. rewrite !Ho. apply Hm.
Qed.

Lemma pc_self P (me : nat) (p : pc) : P me = p -> forall c, upd P me p c = P c.
Proof. intros E c. by upd_at c me. Qed.

Lemma push_off_eq c c' : push_off c = Ret (tt, c') -> c' = Cpu false (noff c + 1) (if noff c =? 0 then intr c else intena c).
Proof. intros E. assert (H : wp push_off c (fun _ x => x = Cpu false (noff c + 1) (if noff c =? 0 then intr c else intena c))) by by apply wp_push_off. unfold wp in H. by rewrite E in H. Qed.

Lemma pop_off_eq c c' : pop_off c = Ret (tt, c') -> intr c = false /\ 1 <= noff c /\ c' = Cpu ((noff c =? 1) && intena c) (noff c - 1) (intena c).
Proof.
  intros E. destruct (intr c) eqn:Ei; [unfold pop_off, bind, get in E; rewrite Ei in E; done|].
  destruct (Z.ltb_spec (noff c) 1) as [Hlt|Hge].
  { unfold pop_off, bind, get in E. rewrite Ei in E. destruct (Z.ltb_spec (noff c) 1); [done|lia]. }
  split_and!; [done|done|]. assert (H : wp pop_off c (fun _ x => x = Cpu ((noff c =? 1) && intena c) (noff c - 1) (intena c))) by by apply wp_pop_off.
  unfold wp in H. by rewrite E in H.
Qed.

Lemma depth_push c c' p p' x x' g : depth_ok c p x g -> push_off c = Ret (tt, c') -> (x' + busy p' <= x + busy p + 1)%nat ->
  (p' <> Panicked -> p <> Panicked /\ x' + busy p' = x + busy p + 1)%nat -> depth_ok c' p' x' g.
Proof.
  intros [[H0 H1] Hle Heq] ->%push_off_eq Hb Hp. split; cbn [noff].
  - split; cbn; [lia|done].
  - lia.
  - intros Hne. destruct (Hp Hne) as [Hp1 Hp2]. rewrite (Heq Hp1). lia.
Qed.

Lemma depth_pop c c' p p' x x' g : depth_ok c p x g -> pop_off c = Ret (tt, c') -> p <> Panicked -> (x' + busy p' + 1 = x + busy p)%nat -> depth_ok c' p' x' g.
Proof.
  intros [[H0 H1] Hle Heq] (Hi & Hn & ->)%pop_off_eq Hp Hb. specialize (Heq Hp). split; cbn [noff].
  - split; cbn; [lia|]. intros Hpos. destruct (Z.eqb_spec (noff c) 1); [lia|done].
  - lia.
  - lia.
Qed.

Lemma lock_inv_swap C P X G L me l : lock_inv (Machine C P X G L) -> P me = Spin l ->
  lock_inv (Machine C (upd P me (if locked (L l) =? 0 then Got l else Spin l)) X G (upd L l (Spinlock 1 (lcpu (L l))))).
Proof.
  intros [Hd Hn Hc Hf Hb Hfr Hm] Hp. cbn in *. set (p' := if locked (L l) =? 0 then Got l else Spin l). set (s := Machine C P X G L) in *. set (s' := Machine _ _ _ _ _).
  assert (Hbp : busy p' = busy (P me) /\ p' <> Panicked) by (unfold p'; rewrite Hp; by destruct (_ =? 0)).
  assert (Ho : forall c k, owns s' c k <-> owns s c k \/ (c = me /\ k = l /\ locked (L l) = 0)).
  { intros c k. unfold owns, s', s, p'. cbn. upd_at c me; [|naive_solver]. rewrite Hp. destruct (Z.eqb_spec (locked (L l)) 0); naive_solver. }
  assert (Hlc : forall k, lcpu (upd L l (Spinlock 1 (lcpu (L l))) k) = lcpu (L k)) by (intros k; by upd_at k l).
  split; cbn; try done.
  - intros c. specialize (Hd c). upd_at c me; [|done]. destruct Hd as [D1 D2 D3]. split; [done|rewrite (proj1 Hbp); done|].
    intros _. rewrite (proj1 Hbp). apply D3. by rewrite Hp.
  - intros c k. rewrite Hlc. apply Hc.
  - intros c k. upd_at c me; [|apply Hf]. unfold p'. destruct (Z.eqb_spec (locked (L l)) 0); [|intros [|]; done].
    intros [[= ->]|[=]] Hin. apply (Hfr k ltac:(done) me). unfold owns. by right; right.
  - intros k. upd_at k l; [by right|apply Hb].
  - intros k. upd_at k l; [done|]. intros H0 c. rewrite Ho. intros [?|(_ & ? & _)]; [by eapply Hfr|done].
  - intros k c c'. rewrite !Ho. intros [H1|(-> & -> & H1)] [H2|(-> & E2 & H2)]; subst; try done; [by eapply Hm|by destruct (Hfr _ H2 c)|by destruct (Hfr _ H1 c')].
Qed.

Lemma lock_inv_record C P X G L me l : lock_inv (Machine C P X G L) -> P me = Got l ->
  lock_inv (Machine C (upd P me Outside) X (upd G me (l :: G me)) (upd L l (Spinlock (locked (L l)) (Some me)))).
Proof.
  intros [Hd Hn Hc Hf Hb Hfr Hm] Hp. cbn in *. set (s := Machine C P X G L) in *. set (s' := Machine _ _ _ _ _).
  assert (Hme : owns s me l) by (by left). assert (Hnew : l ∉ G me) by (apply Hf; by left).
  assert (Ho : forall c k, owns s' c k <-> owns s c k).
  { intros c k. unfold owns, s', s. cbn. upd_at c me; [|done]. rewrite Hp, elem_of_cons. naive_solver. }
  split; cbn; try done.
  - intros c. specialize (Hd c). upd_at c me; [|done]. destruct Hd as [D1 D2 D3]. rewrite Hp in *. cbn in *. split; cbn; [done|lia|]. intros _. rewrite D3 by done. lia.
  - intros c. upd_at c me; [by constructor|done].
  - intros c k. upd_at c me; upd_at k l; cbn.
    + rewrite elem_of_cons. naive_solver.
    + rewrite elem_of_cons, <- Hc. naive_solver.
    + split; [|congruence]. intros Hin. assert (c = me) by (eapply Hm; [|exact Hme]; by right; right). done.
    + apply Hc.
  - intros c k. upd_at c me; [intros [|]; done|apply Hf].
  - intros k. upd_at k l; cbn; apply Hb.
  - intros k H0 c. rewrite Ho. apply Hfr. revert H0. by upd_at k l.
  - intros k c c'. rewrite !Ho. apply Hm.
Qed.

Lemma length_filter_ne (l : nat) g : NoDup g -> l ∈ g -> length g = S (length (filter (fun k => k <> l) g)).
Proof.
  induction 1 as [|x g Hx Hn IH]; intros Hin; [by apply not_elem_of_nil in Hin|]. rewrite filter_cons. destruct (decide (x = l)) as [->|Hne].
  - rewrite decide_False by tauto. cbn. f_equal. clear IH Hin. induction g as [|y g IHg]; [done|]. apply NoDup_cons in Hn as [? ?].
    rewrite filter_cons, decide_True by set_solver. cbn. f_equal. apply IHg; [set_solver|done].
  - rewrite decide_True by done. cbn. f_equal. apply IH. set_solver.
Qed.

Lemma lock_inv_release C P X G L me l : lock_inv (Machine C P X G L) -> P me = Outside -> lcpu (L l) = Some me ->
  lock_inv (Machine C (upd P me (Give l)) X (upd G me (filter (fun k => k <> l) (G me))) (upd L l (Spinlock (locked (L l)) None))).
Proof.
  intros [Hd Hn Hc Hf Hb Hfr Hm] Hp Hl. cbn in *. set (s := Machine C P X G L) in *. set (s' := Machine _ _ _ _ _).
  assert (Hin : l ∈ G me) by by apply Hc. pose proof (length_filter_ne l _ (Hn me) Hin) as Hlen.
  assert (Ho : forall c k, owns s' c k <-> owns s c k).
  { intros c k. unfold owns, s', s. cbn. upd_at c me; [|done]. rewrite Hp, list_elem_of_filter. destruct (decide (k = l)) as [->|]; naive_solver. }
  split; cbn; try done.
  - intros c. specialize (Hd c). upd_at c me; [|done]. destruct Hd as [D1 D2 D3]. rewrite Hp in *. cbn [busy] in *. split; cbn [busy]; [done|lia|]. intros _. rewrite D3 by done. lia.
  - intros c. upd_at c me; [by apply NoDup_filter|done].
  - intros c k. upd_at c me; upd_at k l; cbn.
    + rewrite list_elem_of_filter. naive_solver.
    + rewrite list_elem_of_filter, <- Hc. naive_solver.
    + split; [|done]. intros Hk. apply Hc in Hk. congruence.
    + apply Hc.
  - intros c k. upd_at c me; [|apply Hf]. intros [[=]|[= ->]]. rewrite list_elem_of_filter. naive_solver.
  - intros k. upd_at k l; cbn; apply Hb.
  - intros k H0 c. rewrite Ho. apply Hfr. revert H0. by upd_at k l.
  - intros k c c'. rewrite !Ho. apply Hm.
Qed.

Lemma lock_inv_unlock C P X G L me l : lock_inv (Machine C P X G L) -> P me = Give l ->
  lock_inv (Machine C (upd P me Given) X G (upd L l (Spinlock 0 (lcpu (L l))))).
Proof.
  intros [Hd Hn Hc Hf Hb Hfr Hm] Hp. cbn in *. set (s := Machine C P X G L) in *. set (s' := Machine _ _ _ _ _).
  assert (Hme : owns s me l) by (by right; left). assert (Hnot : l ∉ G me) by (apply Hf; by right).
  assert (Ho : forall c k, owns s' c k <-> owns s c k /\ ~ (c = me /\ k = l)).
  { intros c k. unfold owns, s', s. cbn. upd_at c me; [|naive_solver]. rewrite Hp. destruct (decide (k = l)) as [->|]; naive_solver. }
  assert (Hlc : forall k, lcpu (upd L l (Spinlock 0 (lcpu (L l))) k) = lcpu (L k)) by (intros k; by upd_at k l).
  split; cbn; try done.
  - intros c. specialize (Hd c). upd_at c me; [|done]. destruct Hd as [D1 D2 D3]. rewrite Hp in *. split; [done|done|intros _; by apply D3].
  - intros c k. rewrite Hlc. apply Hc.
  - intros c k. upd_at c me; [intros [|]; done|apply Hf].
  - intros k. upd_at k l; [by left|apply Hb].
  - intros k H0 c. rewrite Ho. intros [Hk Hne]. destruct (decide (k = l)) as [->|Hkl].
    + apply Hne. split; [by eapply Hm|done].
    + rewrite upd_ne in H0 by done. by eapply Hfr.
  - intros k c c'. rewrite !Ho. intros [H1 _] [H2 _]. by eapply Hm.
Qed.

Lemma upd_upd_pc P (me : nat) (p : pc) C X G L : P me = p -> lock_inv (Machine C (upd P me p) X G L) -> lock_inv (Machine C P X G L).
Proof.
  intros E [Hd Hn Hc Hf Hb Hfr Hm]. pose proof (pc_self P me p E) as Es. unfold owns in *. cbn in *.
  split; unfold owns; cbn; try done.
  - intros c. rewrite <- Es. apply Hd.
  - intros c l. rewrite <- Es. apply Hf.
  - intros l H0 c. rewrite <- Es. by apply Hfr.
  - intros l c c'. rewrite <- (Es c), <- (Es c'). apply Hm.
Qed.

Lemma lock_inv_step s s' : mstep s s' -> lock_inv s -> lock_inv s'.
Proof.
  intros Hst Hinv. pose proof (li_depth _ Hinv) as Hd. destruct Hst; cbn in Hd.
  - eapply lock_inv_idle; [exact Hinv|by rewrite H|destruct (holding me (L l)); done|]. intros c. upd_at c me; [|apply Hd].
    eapply depth_push; [apply Hd|done|rewrite H; destruct (holding me (L l)); cbn; lia|]. rewrite H.
    destruct (holding me (L l)); cbn; [by intros Hx; destruct Hx|split; [done|lia]].
  - by apply lock_inv_swap.
  - by apply lock_inv_record.
  - destruct (holding me (L l)) eqn:E; [apply andb_prop in E as [_ E%bool_decide_eq_true]; by apply lock_inv_release|].
    eapply lock_inv_idle; [exact Hinv|by rewrite H|done|]. intros c. upd_at c me; [|apply Hd].
    destruct (Hd me) as [D1 D2 D3]. rewrite H in *. by split.
  - by apply lock_inv_unlock.
  - eapply lock_inv_idle; [exact Hinv|by rewrite H|done|]. intros c. upd_at c me; [|apply Hd]. eapply depth_pop; [apply Hd|done|by rewrite H|rewrite H; cbn; lia].
  - exfalso. destruct (Hd me) as [[D0 D1] D2 D3]. rewrite H in *. specialize (D3 ltac:(done)). cbn [busy] in *.
    unfold pop_off, bind, get in H0. rewrite D1 in H0 by lia. destruct (Z.ltb_spec (noff (C me)) 1); [lia|]. cbn in H0. by destruct (_ && _).
  - eapply (upd_upd_pc _ me Outside); [done|]. eapply lock_inv_idle; [exact Hinv|by rewrite H|done|]. intros c. upd_at c me; [|apply Hd].
    eapply depth_push; [apply Hd|done|rewrite H; cbn; lia|]. rewrite H. cbn. split; [done|lia].
  - eapply (upd_upd_pc _ me Outside); [done|]. eapply lock_inv_idle; [exact Hinv|by rewrite H|done|]. intros c. upd_at c me; [|apply Hd].
    eapply depth_pop; [apply Hd|done|by rewrite H|]. rewrite H, H0. cbn. lia.
  - eapply (upd_upd_pc _ me Outside); [done|]. eapply lock_inv_idle; [exact Hinv|by rewrite H|done|]. intros c. upd_at c me; [|apply Hd].
    destruct (Hd me) as [[D0 D1] D2 D3]. rewrite H, H0 in *. split; cbn in *; [split; cbn; lia|lia|done].
Qed.

Lemma lock_inv_reachable s : mreachable s -> lock_inv s.
Proof.
  intros (s0 & Hi & Hr). apply lock_inv_init in Hi. induction Hr as [|? ? ? Hst _ IH]; [done|]. apply IH. by eapply lock_inv_step.
Qed.

(** C18: Spin locks exclude.  On any number of CPUs that acquire and release any
    locks, nest them, and turn interrupts on and off in between, no two CPUs are
    ever in a critical section of the same lock; a CPU in a critical section
    has its interrupts off, [holding] answers exactly whether the caller is in
    the critical section, so that [release] by the holder does not panic and
    [acquire] panics only on a lock the CPU already holds, and the [pop_off]
    at the end of [release] never panics. *)
Theorem spinlock_mutual_exclusion s : mreachable s ->
  (forall l c c', l ∈ crit s c -> l ∈ crit s c' -> c = c') /\
  (forall l c, l ∈ crit s c -> intr (cpus s c) = false) /\
  (forall l c, pcs s c = Outside -> holding c (locks s l) = bool_decide (l ∈ crit s c)) /\
  (forall c, pcs s c = Given -> exists c', pop_off (cpus s c) = Ret (tt, c')).
Proof.
  intros Hr. pose proof (lock_inv_reachable s Hr) as [Hd Hn Hc Hf Hb Hfr Hm]. split_and!.
  - intros l c c' H1 H2. eapply Hm; right; right; eauto.
  - intros l c Hin. destruct (Hd c) as [[D0 D1] D2 D3]. apply D1. destruct (crit s c); [by apply not_elem_of_nil in Hin|]. cbn in D2. lia.
  - intros l c Hp. unfold holding. destruct (bool_decide_reflect (l ∈ crit s c)) as [Hin|Hin].
    + rewrite bool_decide_true by (by apply Hc). destruct (Hb l) as [E|E]; rewrite E; [|done]. by destruct (Hfr l E c); right; right.
    + rewrite bool_decide_false by (by rewrite <- Hc). apply andb_false_r.
  - intros c Hp. destruct (Hd c) as [[D0 D1] D2 D3]. rewrite Hp in *. cbn [busy] in D2.
    destruct (wp_inv _ _ (fun _ _ => True) (wp_pop_off (cpus s c) _ (D1 ltac:(lia)) ltac:(lia) I)) as ([] & c' & E & _). by exists c'.
Qed.

(** One CPU has taken lock 0 and is spinning on lock 1. *)
Lemma spinlock_mutual_exclusion_witness : exists s, 0%nat ∈ crit s 0%nat /\ pcs s 0%nat = Spin 1 /\ intr (cpus s 0%nat) = false.
Proof.
  set (c0 := Cpu true 0 false). set (c1 := Cpu false 1 true). set (c2 := Cpu false 2 true).
  set (s0 := Machine (fun _ => c0) (fun _ => Outside) (fun _ => 0%nat) (fun _ => []) (fun _ => initlock)).
  set (C1 := upd (cpus s0) 0%nat c1). set (P1 := upd (pcs s0) 0%nat (Spin 0)). set (P2 := upd P1 0%nat (Got 0)). set (P3 := upd P2 0%nat Outside).
  set (L2 := upd (locks s0) 0%nat (Spinlock 1 None)). set (L3 := upd L2 0%nat (Spinlock 1 (Some 0%nat))). set (G3 := upd (crit s0) 0%nat [0%nat]).
  set (s4 := Machine (upd C1 0%nat c2) (upd P3 0%nat (Spin 1)) (pushed s0) G3 L3).
  assert (Hr : mreachable s4).
  { exists s0. split; [intros c; split_and!; try done; split; cbn; lia|].
    apply (rtc_l _ _ (Machine C1 P1 (pushed s0) (crit s0) (locks s0))); [exact (step_acquire (cpus s0) (pcs s0) _ _ (locks s0) 0%nat 0%nat c1 eq_refl eq_refl)|].
    apply (rtc_l _ _ (Machine C1 P2 (pushed s0) (crit s0) L2)); [exact (step_swap C1 P1 _ _ (locks s0) 0%nat 0%nat eq_refl)|].
    apply (rtc_l _ _ (Machine C1 P3 (pushed s0) G3 L3)); [exact (step_record C1 P2 _ (crit s0) L2 0%nat 0%nat eq_refl)|].
    apply rtc_once. exact (step_acquire C1 P3 _ _ L3 0%nat 1%nat c2 eq_refl eq_refl). }
  exists s4. split; [by left|]. split; [reflexivity|]. apply (proj1 (proj2 (spinlock_mutual_exclusion s4 Hr)) 0%nat). by left.
Defined.
