(* ===== verification/Proc.v ===== *)
(** * kernel/proc.c

    The process table and the life of a process, over the memory of the kernel,
    the file system and the open files.  A process that calls the scheduler
    gives up the CPU at the end of the definition that models the call; [wait]
    says whether it has to sleep.  Critical sections are atomic here;
    ProcTable.v interleaves them. *)
From S2P Require Import Prelude Riscv Mem KString Kalloc Vm Bio Block TxSpec Fs Pipe File.

Inductive procstate : Type := UNUSED | USED | SLEEPING | RUNNABLE | RUNNING | ZOMBIE.
#[export] Instance procstate_eq_dec : EqDecision procstate.
Proof. solve_decision. Defined.

(** [struct proc]; [p_context] is the pair of [ra] and [sp], the registers
    [allocproc] sets; a [parent] of [None] is the null pointer. *)
Record proc : Type := Proc {
  p_state : procstate;
  p_chan : Z;
  p_killed : Z;
  p_xstate : Z;
  p_pid : Z;
  p_parent : option nat;
  p_kstack : Z;
  p_sz : Z;
  p_pagetable : Z;
  p_trapframe : Z;
  p_context : Z * Z;
  p_ofile : list (option nat);
  p_cwd : option nat;
  p_name : list Z;
  p_tracemask : Z;
  p_kpagetable : Z;
}.
Definition set_p_state (x : procstate) (p : proc) : proc := Proc x (p_chan p) (p_killed p) (p_xstate p) (p_pid p) (p_parent p) (p_kstack p) (p_sz p) (p_pagetable p) (p_trapframe p) (p_context p) (p_ofile p) (p_cwd p) (p_name p) (p_tracemask p) (p_kpagetable p).
Definition set_p_chan (x : Z) (p : proc) : proc := Proc (p_state p) x (p_killed p) (p_xstate p) (p_pid p) (p_parent p) (p_kstack p) (p_sz p) (p_pagetable p) (p_trapframe p) (p_context p) (p_ofile p) (p_cwd p) (p_name p) (p_tracemask p) (p_kpagetable p).
Definition set_p_killed (x : Z) (p : proc) : proc := Proc (p_state p) (p_chan p) x (p_xstate p) (p_pid p) (p_parent p) (p_kstack p) (p_sz p) (p_pagetable p) (p_trapframe p) (p_context p) (p_ofile p) (p_cwd p) (p_name p) (p_tracemask p) (p_kpagetable p).
Definition set_p_xstate (x : Z) (p : proc) : proc := Proc (p_state p) (p_chan p) (p_killed p) x (p_pid p) (p_parent p) (p_kstack p) (p_sz p) (p_pagetable p) (p_trapframe p) (p_context p) (p_ofile p) (p_cwd p) (p_name p) (p_tracemask p) (p_kpagetable p).
Definition set_p_pid (x : Z) (p : proc) : proc := Proc (p_state p) (p_chan p) (p_killed p) (p_xstate p) x (p_parent p) (p_kstack p) (p_sz p) (p_pagetable p) (p_trapframe p) (p_context p) (p_ofile p) (p_cwd p) (p_name p) (p_tracemask p) (p_kpagetable p).
Definition set_p_parent (x : option nat) (p : proc) : proc := Proc (p_state p) (p_chan p) (p_killed p) (p_xstate p) (p_pid p) x (p_kstack p) (p_sz p) (p_pagetable p) (p_trapframe p) (p_context p) (p_ofile p) (p_cwd p) (p_name p) (p_tracemask p) (p_kpagetable p).
Definition set_p_kstack (x : Z) (p : proc) : proc := Proc (p_state p) (p_chan p) (p_killed p) (p_xstate p) (p_pid p) (p_parent p) x (p_sz p) (p_pagetable p) (p_trapframe p) (p_context p) (p_ofile p) (p_cwd p) (p_name p) (p_tracemask p) (p_kpagetable p).
Definition set_p_sz (x : Z) (p : proc) : proc := Proc (p_state p) (p_chan p) (p_killed p) (p_xstate p) (p_pid p) (p_parent p) (p_kstack p) x (p_pagetable p) (p_trapframe p) (p_context p) (p_ofile p) (p_cwd p) (p_name p) (p_tracemask p) (p_kpagetable p).
Definition set_p_pagetable (x : Z) (p : proc) : proc := Proc (p_state p) (p_chan p) (p_killed p) (p_xstate p) (p_pid p) (p_parent p) (p_kstack p) (p_sz p) x (p_trapframe p) (p_context p) (p_ofile p) (p_cwd p) (p_name p) (p_tracemask p) (p_kpagetable p).
Definition set_p_trapframe (x : Z) (p : proc) : proc := Proc (p_state p) (p_chan p) (p_killed p) (p_xstate p) (p_pid p) (p_parent p) (p_kstack p) (p_sz p) (p_pagetable p) x (p_context p) (p_ofile p) (p_cwd p) (p_name p) (p_tracemask p) (p_kpagetable p).
Definition set_p_context (x : Z * Z) (p : proc) : proc := Proc (p_state p) (p_chan p) (p_killed p) (p_xstate p) (p_pid p) (p_parent p) (p_kstack p) (p_sz p) (p_pagetable p) (p_trapframe p) x (p_ofile p) (p_cwd p) (p_name p) (p_tracemask p) (p_kpagetable p).
Definition set_p_ofile (x : list (option nat)) (p : proc) : proc := Proc (p_state p) (p_chan p) (p_killed p) (p_xstate p) (p_pid p) (p_parent p) (p_kstack p) (p_sz p) (p_pagetable p) (p_trapframe p) (p_context p) x (p_cwd p) (p_name p) (p_tracemask p) (p_kpagetable p).
Definition set_p_cwd (x : option nat) (p : proc) : proc := Proc (p_state p) (p_chan p) (p_killed p) (p_xstate p) (p_pid p) (p_parent p) (p_kstack p) (p_sz p) (p_pagetable p) (p_trapframe p) (p_context p) (p_ofile p) x (p_name p) (p_tracemask p) (p_kpagetable p).
Definition set_p_name (x : list Z) (p : proc) : proc := Proc (p_state p) (p_chan p) (p_killed p) (p_xstate p) (p_pid p) (p_parent p) (p_kstack p) (p_sz p) (p_pagetable p) (p_trapframe p) (p_context p) (p_ofile p) (p_cwd p) x (p_tracemask p) (p_kpagetable p).
Definition set_p_tracemask (x : Z) (p : proc) : proc := Proc (p_state p) (p_chan p) (p_killed p) (p_xstate p) (p_pid p) (p_parent p) (p_kstack p) (p_sz p) (p_pagetable p) (p_trapframe p) (p_context p) (p_ofile p) (p_cwd p) (p_name p) x (p_kpagetable p).
Definition set_p_kpagetable (x : Z) (p : proc) : proc := Proc (p_state p) (p_chan p) (p_killed p) (p_xstate p) (p_pid p) (p_parent p) (p_kstack p) (p_sz p) (p_pagetable p) (p_trapframe p) (p_context p) (p_ofile p) (p_cwd p) (p_name p) (p_tracemask p) x.

(** Offsets of the trap frame. *)
Definition tf_epc : Z := 24.
Definition tf_sp : Z := 48.
Definition tf_a0 : Z := 112.
Definition tf_size : Z := 288.

Definition initcode : list Z :=
  [23; 5; 0; 0; 19; 5; 69; 2; 151; 5; 0; 0; 147; 133; 53; 2; 147; 8; 112; 0; 115; 0; 0; 0; 147; 8; 32; 0; 115; 0; 0; 0; 239; 240; 159; 255; 47; 105; 110; 105; 116; 0; 0; 36; 0; 0; 0; 0; 0; 0; 0; 0].

(** [safestrcpy(dst, src, 16)] on the bytes of two names. *)
Definition copy_name (dst src : list Z) : list Z :=
  rd_bytes 16 (safestrcpy (blk_mem dst) 0 (blk_mem src) 0 16) 0.

Section Proc.
Context {L : Layout} {S : Type} `{BlockStore S}.
(** The addresses of [forkret] and of the entries of [proc], which are channels. *)
Context (forkret : Z) (proc_addr : nat -> Z).

Record kern : Type := Kern {
  km : kst;
  procs : list proc;
  initproc : option nat;
  nextpid : Z;
  kfsys : fsys S;
  kftable : list file;
  kpipes : list (option pipe);
}.

Definition getproc (i : nat) : M kern proc :=
  fun s => match procs s !! i with Some p => Ret (p, s) | None => Fault end.
Definition setproc (i : nat) (f : proc -> proc) : M kern unit :=
  fun s => match procs s !! i with
           | Some p => Ret (tt, Kern (km s) (<[i := f p]> (procs s)) (initproc s) (nextpid s) (kfsys s) (kftable s) (kpipes s))
           | None => Fault
           end.
Definition set_procs (f : list proc -> list proc) : M kern unit :=
  modify (fun s => Kern (km s) (f (procs s)) (initproc s) (nextpid s) (kfsys s) (kftable s) (kpipes s)).

(** Code of the memory management. *)
Definition liftM {A} (c : M kst A) : M kern A :=
  fun s => match c (km s) with
           | Ret (a, k) => Ret (a, Kern k (procs s) (initproc s) (nextpid s) (kfsys s) (kftable s) (kpipes s))
           | Panic m => Panic m
           | Fault => Fault
           | Diverge => Diverge
           end.
(** Code of the file system, run by process [i]. *)
Definition liftP {A} (i : nat) (c : M (kfs S unit) A) : M kern A :=
  fun s => match procs s !! i with
           | None => Fault
           | Some p =>
               let f := kfsys s in
               match c (Kfs (Fsys (store f) (sb f) (itable f) (default O (p_cwd p))) tt (kftable s) (p_ofile p) (kpipes s)) with
               | Ret (a, k) => Ret (a, Kern (km s) (procs s) (initproc s) (nextpid s) (fs k) (ftable k) (pipes k))
               | Panic m => Panic m
               | Fault => Fault
               | Diverge => Diverge
               end
           end.

(** ** Process creation and destruction *)

Definition allocpid : M kern Z :=
  pid <- gets nextpid;;
  modify (fun s => Kern (km s) (procs s) (initproc s) (s32 (nextpid s + 1)) (kfsys s) (kftable s) (kpipes s));;
  ret pid.

Definition proc_pagetable (i : nat) : M kern Z :=
  pagetable <- liftM uvmcreate;;
  if pagetable =? 0 then ret 0 else
  r <- liftM (mappages pagetable TRAMPOLINE PGSIZE trampoline (Z.lor PTE_R PTE_X));;
  if r <? 0 then liftM (uvmfree pagetable 0);; ret 0 else
  p <- getproc i;;
  r <- liftM (mappages pagetable TRAPFRAME PGSIZE (p_trapframe p) (Z.lor PTE_R PTE_W));;
  if r <? 0 then
    liftM (uvmunmap pagetable TRAMPOLINE 1 false;; uvmfree pagetable 0);;
    ret 0
  else ret pagetable.

Definition proc_freepagetable (pagetable sz : Z) : M kst unit :=
  uvmunmap pagetable TRAMPOLINE 1 false;;
  uvmunmap pagetable TRAPFRAME 1 false;;
  uvmfree pagetable sz.

Definition proc_freekpagetable (pt : Z) : M kst unit :=
  kvmunmap pt UART0 PGSIZE;;
  kvmunmap pt VIRTIO0 PGSIZE;;
  kvmunmap pt CLINT 0x10000;;
  kvmunmap pt PLIC 0x400000;;
  kvmunmap pt KERNBASE (etext - KERNBASE);;
  kvmunmap pt etext (PHYSTOP - etext);;
  kvmunmap pt TRAMPOLINE PGSIZE;;
  freewalk 3 pt.

(** The fields [freeproc] clears at the end. *)
Definition cleared (p : proc) : proc :=
  set_p_tracemask 0 (set_p_state UNUSED (set_p_xstate 0 (set_p_killed 0 (set_p_chan 0 (set_p_name (<[O := 0]> (p_name p))
    (set_p_parent None (set_p_pid 0 (set_p_sz 0 (set_p_pagetable 0 p))))))))).
Definition freeproc (i : nat) : M kern unit :=
  p <- getproc i;;
  (if ctrue (p_trapframe p) then liftM (kfree (p_trapframe p)) else ret tt);;
  setproc i (set_p_trapframe 0);;
  (if ctrue (p_pagetable p) then liftM (proc_freepagetable (p_pagetable p) (p_sz p)) else ret tt);;
  (if ctrue (p_kstack p) then
     pte <- liftM (walk (p_kpagetable p) (p_kstack p) false);;
     if pte =? 0 then panic "kstackunmap: walk" else
     v <- liftM (rd64 pte);;
     liftM (kfree (PTE2PA v));;
     liftM (wr64 pte 0);;
     setproc i (set_p_kstack 0)
   else ret tt);;
  (if ctrue (p_kpagetable p) then liftM (proc_freekpagetable (p_kpagetable p)) else ret tt);;
  setproc i (set_p_kpagetable 0);;
  setproc i cleared.

Fixpoint find_unused (ps : list proc) (i : nat) : option nat :=
  match ps with
  | [] => None
  | p :: ps' => if bool_decide (p_state p = UNUSED) then Some i else find_unused ps' (Datatypes.S i)
  end.
Definition allocproc : M kern (option nat) :=
  ps <- gets procs;;
  match find_unused ps 0 with
  | None => ret None
  | Some i =>
      pid <- allocpid;;
      setproc i (fun p => set_p_state USED (set_p_pid pid p));;
      tf <- liftM kalloc;;
      setproc i (set_p_trapframe tf);;
      if tf =? 0 then freeproc i;; ret None else
      kpt <- liftM vmmake;;
      setproc i (set_p_kpagetable kpt);;
      pa <- liftM kalloc;;
      if pa =? 0 then panic "allocproc: alloc kstack" else
      let va := TRAMPOLINE - 2 * PGSIZE in
      liftM (kvmmap kpt va pa PGSIZE (Z.lor PTE_R PTE_W));;
      setproc i (set_p_kstack va);;
      pt <- proc_pagetable i;;
      setproc i (set_p_pagetable pt);;
      if pt =? 0 then freeproc i;; ret None else
      setproc i (set_p_context (forkret, va + PGSIZE));;
      ret (Some i)
  end.

Definition userinit : M kern unit :=
  r <- allocproc;;
  match r with
  | None => fault
  | Some i =>
      modify (fun s => Kern (km s) (procs s) (Some i) (nextpid s) (kfsys s) (kftable s) (kpipes s));;
      p <- getproc i;;
      liftM (uvmfirst (p_pagetable p) initcode);;
      setproc i (set_p_sz PGSIZE);;
      liftM (wr64 (p_trapframe p + tf_epc) 0;; wr64 (p_trapframe p + tf_sp) PGSIZE);;
      setproc i (fun p => set_p_name (copy_name (p_name p) [105; 110; 105; 116; 99; 111; 100; 101; 0]) p);;
      root <- liftP i (liftF (namei [SLASH]));;
      setproc i (set_p_cwd root);;
      setproc i (set_p_state RUNNABLE)
  end.

Definition growproc (me : nat) (n : Z) : M kern Z :=
  p <- getproc me;;
  let sz := p_sz p in
  if n >? 0 then
    sz' <- liftM (uvmalloc (p_pagetable p) sz (u64 (sz + n)) PTE_W);;
    if sz' =? 0 then ret (-1) else
    setproc me (set_p_sz sz');; ret 0
  else if n <? 0 then
    sz' <- liftM (uvmdealloc (p_pagetable p) sz (u64 (sz + n)));;
    setproc me (set_p_sz sz');; ret 0
  else setproc me (set_p_sz sz);; ret 0.

(** [for(i = 0; i < NOFILE; i++) if(p->ofile[i]) np->ofile[i] = filedup(p->ofile[i]);] *)
Fixpoint dup_files (me np : nat) (o : list (option nat)) (fd : nat) : M kern unit :=
  match o with
  | [] => ret tt
  | None :: o' => dup_files me np o' (Datatypes.S fd)
  | Some f :: o' =>
      g <- liftP me (filedup f);;
      setproc np (fun p => set_p_ofile (<[fd := Some g]> (p_ofile p)) p);;
      dup_files me np o' (Datatypes.S fd)
  end.
Definition fork (me : nat) : M kern Z :=
  r <- allocproc;;
  match r with
  | None => ret (-1)
  | Some np =>
      p <- getproc me;;
      c <- getproc np;;
      r <- liftM (uvmcopy (p_pagetable p) (p_pagetable c) (p_sz p));;
      if r <? 0 then freeproc np;; ret (-1) else
      setproc np (set_p_sz (p_sz p));;
      liftM (kmemmove (p_trapframe c) (p_trapframe p) tf_size;; wr64 (p_trapframe c + tf_a0) 0);;
      dup_files me np (p_ofile p) 0;;
      match p_cwd p with
      | None => fault
      | Some d =>
          d' <- liftP me (liftF (idup d));;
          setproc np (set_p_cwd (Some d'));;
          setproc np (fun c => set_p_name (copy_name (p_name c) (p_name p)) c);;
          setproc np (set_p_tracemask (p_tracemask p));;
          setproc np (set_p_parent (Some me));;
          setproc np (set_p_state RUNNABLE);;
          ret (p_pid c)
      end
  end.

(** ** Sleep and wakeup *)

(** [wakeup]: every other process that sleeps on [chan]. *)
Definition wake (chan : Z) (p : proc) : proc :=
  if bool_decide (p_state p = SLEEPING) && (p_chan p =? chan) then set_p_state RUNNABLE p else p.
Definition wake_others (me : option nat) (chan : Z) (ps : list proc) : list proc :=
  imap (fun i p => if bool_decide (Some i = me) then p else wake chan p) ps.
Definition wakeup (me : option nat) (chan : Z) : M kern unit := set_procs (wake_others me chan).

(** [sleep], up to the call of [sched] and from its return. *)
Definition sleep_enter (me : nat) (chan : Z) : M kern unit :=
  setproc me (fun p => set_p_state SLEEPING (set_p_chan chan p)).
Definition sleep_exit (me : nat) : M kern unit := setproc me (set_p_chan 0).

Definition yield (me : nat) : M kern unit := setproc me (set_p_state RUNNABLE).

(** [sched]: its checks, given whether the CPU holds [p->lock], its [noff] and
    its interrupt flag; the switch itself changes no process. *)
Definition sched (me : nat) (held : bool) (noff : Z) (intr : bool) : M kern unit :=
  p <- getproc me;;
  if negb held then panic "sched p->lock" else
  if negb (noff =? 1) then panic "sched locks" else
  if bool_decide (p_state p = RUNNING) then panic "sched running" else
  if intr then panic "sched interruptible" else ret tt.

(** The scan of [scheduler] from entry [i]: the next process that is runnable
    is marked running. *)
Fixpoint find_runnable (ps : list proc) (i : nat) : option nat :=
  match ps with
  | [] => None
  | p :: ps' => if bool_decide (p_state p = RUNNABLE) then Some i else find_runnable ps' (Datatypes.S i)
  end.
Definition scheduler_from (i : nat) : M kern (option nat) :=
  ps <- gets procs;;
  match find_runnable (drop i ps) i with
  | Some j => setproc j (set_p_state RUNNING);; ret (Some j)
  | None => ret None
  end.

(** ** Exit, wait and kill *)

Definition reparent_to (me : nat) (init : option nat) (p : proc) : proc :=
  if bool_decide (p_parent p = Some me) then set_p_parent init p else p.
(** [reparent], with the [wakeup(initproc)] of each child that is passed on. *)
Definition reparent (me : nat) : M kern unit :=
  s <- get;;
  set_procs (fmap (reparent_to me (initproc s)));;
  (if existsb (fun p => bool_decide (p_parent p = Some me)) (procs s)
   then wakeup (Some me) (match initproc s with Some i => proc_addr i | None => 0 end) else ret tt).

Fixpoint close_files (me : nat) (o : list (option nat)) (fd : nat) : M kern unit :=
  match o with
  | [] => ret tt
  | None :: o' => close_files me o' (Datatypes.S fd)
  | Some f :: o' =>
      liftP me (fileclose f);;
      setproc me (fun p => set_p_ofile (<[fd := None]> (p_ofile p)) p);;
      close_files me o' (Datatypes.S fd)
  end.
Definition exit (me : nat) (status : Z) : M kern unit :=
  s <- get;;
  if bool_decide (initproc s = Some me) then panic "init exiting" else
  p <- getproc me;;
  close_files me (p_ofile p) 0;;
  match p_cwd p with
  | None => fault
  | Some d =>
      liftP me (kbegin_op;; liftF (iput d);; kend_op);;
      setproc me (set_p_cwd None);;
      reparent me;;
      p <- getproc me;;
      wakeup (Some me) (match p_parent p with Some i => proc_addr i | None => 0 end);;
      setproc me (fun p => set_p_state ZOMBIE (set_p_xstate status p))
  end.

(** The scan of [wait]: the first child that is a zombie, and whether there are
    children. *)
Fixpoint find_zombie (me : nat) (ps : list proc) (i : nat) : option nat :=
  match ps with
  | [] => None
  | p :: ps' => if bool_decide (p_parent p = Some me) && bool_decide (p_state p = ZOMBIE) then Some i else find_zombie me ps' (Datatypes.S i)
  end.
Definition have_kids (me : nat) (ps : list proc) : bool := existsb (fun p => bool_decide (p_parent p = Some me)) ps.
(** [wait], up to its return or its [sleep] ([None]). *)
Definition wait (me : nat) (addr : Z) : M kern (option Z) :=
  ps <- gets procs;;
  p <- getproc me;;
  match find_zombie me ps 0 with
  | Some i =>
      pp <- getproc i;;
      r <- (if addr =? 0 then ret 0 else liftM (copyout (p_pagetable p) addr (rd_bytes 4 (stn 4 (fun _ => 0) 0 (p_xstate pp)) 0)));;
      if r <? 0 then ret (Some (-1)) else
      freeproc i;;
      ret (Some (p_pid pp))
  | None =>
      if negb (have_kids me ps) || ctrue (p_killed p) then ret (Some (-1)) else
      sleep_enter me (proc_addr me);;
      ret None
  end.

(** The process [kill] finds, and what it does to it. *)
Fixpoint find_pid (pid : Z) (ps : list proc) (i : nat) : option nat :=
  match ps with
  | [] => None
  | p :: ps' => if p_pid p =? pid then Some i else find_pid pid ps' (Datatypes.S i)
  end.
Definition mark_killed (p : proc) : proc :=
  let p := set_p_killed 1 p in
  if bool_decide (p_state p = SLEEPING) then set_p_state RUNNABLE p else p.
Definition kill (pid : Z) : M kern Z :=
  ps <- gets procs;;
  match find_pid pid ps 0 with
  | Some i => setproc i mark_killed;; ret 0
  | None => ret (-1)
  end.
Definition setkilled (i : nat) : M kern unit := setproc i (set_p_killed 1).
Definition killed (i : nat) : M kern Z := p <- getproc i;; ret (p_killed p).

(** ** Copying to and from either address space *)

Definition either_copyout (me : nat) (user_dst : bool) (dst : Z) (src : list Z) : M kern Z :=
  p <- getproc me;;
  if user_dst then liftM (copyout (p_pagetable p) dst src) else liftM (kwrite dst src);; ret 0.
(** The result and the bytes put into [dst]. *)
Definition either_copyin (me : nat) (user_src : bool) (src len : Z) : M kern (Z * list Z) :=
  p <- getproc me;;
  if user_src then liftM (copyin (p_pagetable p) src len) else l <- liftM (kread src len);; ret (0, l).

Definition get_proc_num : M kern Z :=
  ps <- gets procs;; ret (Z.of_nat (length (filter (fun p => p_state p <> UNUSED) ps))).

End Proc.
Arguments kern : clear implicits.
