(* ===== verification/ProcTable.v ===== *)
(** * The process table under interleaving

    The critical sections of proc.c as steps on the process table, by any of
    the processes in any order: the three sections of [fork] and its failure,
    [exit], [wait], [sleep], [wakeup], [kill], [yield] and the scheduler.  Each
    step uses the functions of Proc.v that the operations are made of. *)
From S2P Require Import Prelude Riscv Mem KString Kalloc Vm Bio Block TxSpec Fs Pipe File Proc.

(** [inflight] lists the [fork]s in progress: the parent and the new entry. *)
Record ptab : Type := Ptab {
  tab : list proc;
  init : nat;
  next : Z;
  inflight : list (nat * nat);
}.

Definition in_state (st : procstate) (t : list proc) (i : nat) : Prop := exists p, t !! i = Some p /\ p_state p = st.

(** What [allocproc] writes into the table. *)
Definition claimed (pid : Z) (p : proc) : proc := set_p_state USED (set_p_pid pid p).
(** What [exit] does to the table. *)
Definition exited (me init : nat) (chan1 chan2 status : Z) (t : list proc) : list proc :=
  let t := reparent_to me (Some init) <$> t in
  let t := wake_others (Some me) chan2 (wake_others (Some me) chan1 t) in
  alter (fun p => set_p_state ZOMBIE (set_p_xstate status p)) me t.

Inductive tstep : ptab -> ptab -> Prop :=
| ts_alloc t i0 nx fl me i : in_state RUNNING t me -> me ∉ fl.*1 -> find_unused t 0 = Some i -> nx < 2 ^ 31 - 1 ->
    tstep (Ptab t i0 nx fl) (Ptab (alter (claimed nx) i t) i0 (s32 (nx + 1)) ((me, i) :: fl))
| ts_undo t i0 nx fl me i : in_state RUNNING t me -> (me, i) ∈ fl ->
    tstep (Ptab t i0 nx fl) (Ptab (alter cleared i t) i0 nx (filter (fun x => x.2 <> i) fl))
| ts_parent t i0 nx fl me i : in_state RUNNING t me -> (me, i) ∈ fl ->
    tstep (Ptab t i0 nx fl) (Ptab (alter (set_p_parent (Some me)) i t) i0 nx fl)
| ts_start t i0 nx fl me i p : in_state RUNNING t me -> (me, i) ∈ fl -> t !! i = Some p -> p_parent p = Some me ->
    tstep (Ptab t i0 nx fl) (Ptab (alter (set_p_state RUNNABLE) i t) i0 nx (filter (fun x => x.2 <> i) fl))
| ts_run t i0 nx fl k i : find_runnable (drop k t) k = Some i ->
    tstep (Ptab t i0 nx fl) (Ptab (alter (set_p_state RUNNING) i t) i0 nx fl)
| ts_yield t i0 nx fl me : in_state RUNNING t me ->
    tstep (Ptab t i0 nx fl) (Ptab (alter (set_p_state RUNNABLE) me t) i0 nx fl)
| ts_sleep t i0 nx fl me chan : in_state RUNNING t me ->
    tstep (Ptab t i0 nx fl) (Ptab (alter (fun p => set_p_state SLEEPING (set_p_chan chan p)) me t) i0 nx fl)
| ts_wakeup t i0 nx fl me chan :
    tstep (Ptab t i0 nx fl) (Ptab (wake_others me chan t) i0 nx fl)
| ts_kill t i0 nx fl pid i : find_pid pid t 0 = Some i ->
    tstep (Ptab t i0 nx fl) (Ptab (alter mark_killed i t) i0 nx fl)
| ts_exit t i0 nx fl me c1 c2 status : in_state RUNNING t me -> me <> i0 -> me ∉ fl.*1 ->
    tstep (Ptab t i0 nx fl) (Ptab (exited me i0 c1 c2 status t) i0 nx fl)
| ts_wait t i0 nx fl me i : in_state RUNNING t me -> find_zombie me t 0 = Some i ->
    tstep (Ptab t i0 nx fl) (Ptab (alter cleared i t) i0 nx fl).

(** The table [userinit] leaves: one runnable process, everything else zero. *)
Definition ptab_init (s : ptab) : Prop :=
  next s = 2 /\ inflight s = [] /\
  (exists p, tab s !! init s = Some p /\ p_state p = RUNNABLE /\ p_pid p = 1) /\
  (forall i p, tab s !! i = Some p -> i <> init s -> p_state p = UNUSED /\ p_pid p = 0 /\ p_parent p = None).
Definition treachable (s : ptab) : Prop := exists s0, ptab_init s0 /\ rtc tstep s0 s.

(** A process that can still call [wait]. *)
Definition alive (st : procstate) : Prop := st = SLEEPING \/ st = RUNNABLE \/ st = RUNNING.
Definition alive_at (t : list proc) (i : nat) : Prop := exists p, t !! i = Some p /\ alive (p_state p).

(** One entry, given the table it is in. *)
Record entry_ok (s : ptab) (i : nat) (p : proc) : Prop := EntryOk {
  eo_unused : p_state p = UNUSED -> p_pid p = 0 /\ p_parent p = None;
  eo_pid : p_state p <> UNUSED -> 0 < p_pid p < next s;
  eo_used : p_state p = USED -> exists me, (me, i) ∈ inflight s /\ (p_parent p = None \/ p_parent p = Some me);
  eo_parent : p_state p <> UNUSED -> p_state p <> USED -> i <> init s -> exists j, p_parent p = Some j /\ alive_at (tab s) j;
}.

Record tab_ok (s : ptab) : Prop := TabOk {
  to_entry : forall i p, tab s !! i = Some p -> entry_ok s i p;
  to_pids : forall i j p q, tab s !! i = Some p -> tab s !! j = Some q -> p_state p <> UNUSED -> p_pid p = p_pid q -> i = j;
  to_init : alive_at (tab s) (init s);
  to_flight : forall me i, (me, i) ∈ inflight s -> alive_at (tab s) me /\ in_state USED (tab s) i;
  to_once : NoDup (inflight s).*1 /\ NoDup (inflight s).*2;
  to_next : 0 < next s < 2 ^ 31;
}.

(** ** The searches *)

Section Find.
Context (b : proc -> bool).
Fixpoint ffind (ps : list proc) (i : nat) : option nat :=
  match ps with
  | [] => None
  | p :: ps' => if b p then Some i else ffind ps' (S i)
  end.
End Find.

Lemma ffind_spec b ps k i : ffind b ps k = Some i -> exists j p, i = (k + j)%nat /\ ps !! j = Some p /\ b p = true.
Proof.
  revert k. induction ps as [|p ps IH]; intros k; cbn; [done|]. destruct (b p) eqn:E.
  - intros [= <-]. exists 0%nat, p. split; [lia|done].
  - intros Hi. destruct (IH _ Hi) as (j & q & -> & Hj & Hb). exists (S j), q. split; [lia|done].
Qed.

Lemma find_unused_spec t i : find_unused t 0 = Some i -> in_state UNUSED t i.
Proof.
  intros H. change (ffind (fun p => bool_decide (p_state p = UNUSED)) t 0 = Some i) in H. apply ffind_spec in H as (j & p & -> & Hj & Hb). exists p. by apply bool_decide_eq_true in Hb. Qed.
Lemma find_runnable_spec t k i : find_runnable (drop k t) k = Some i -> in_state RUNNABLE t i.
Proof.
  intros H. change (ffind (fun p => bool_decide (p_state p = RUNNABLE)) (drop k t) k = Some i) in H. apply ffind_spec in H as (j & p & -> & Hj & Hb). exists p. rewrite lookup_drop in Hj. by apply bool_decide_eq_true in Hb.
Qed.
Lemma find_zombie_spec me t i : find_zombie me t 0 = Some i -> exists p, t !! i = Some p /\ p_state p = ZOMBIE /\ p_parent p = Some me.
Proof.
  intros H. set (b := fun p => bool_decide (p_parent p = Some me) && bool_decide (p_state p = ZOMBIE)).
  assert (E : forall ps k, find_zombie me ps k = ffind b ps k) by (induction ps as [|p ps IH]; intros k; cbn; [done|by rewrite IH]). rewrite E in H.
  apply ffind_spec in H as (j & p & -> & Hj & Hb).
  apply andb_prop in Hb as [H1%bool_decide_eq_true H2%bool_decide_eq_true]. by exists p.
Qed.

(** ** Steps that only move processes among the live states *)

Definition soft (p q : proc) : Prop :=
  p_pid q = p_pid p /\ p_parent q = p_parent p /\ (p_state q = p_state p \/ alive (p_state p) /\ alive (p_state q)).
Definition soft_tab (t t' : list proc) : Prop := forall i, match t !! i, t' !! i with Some p, Some q => soft p q | None, None => True | _, _ => False end.

Lemma soft_states p q : soft p q -> (p_state q = UNUSED <-> p_state p = UNUSED) /\ (p_state q = USED <-> p_state p = USED) /\ (alive (p_state q) <-> alive (p_state p)).
Proof. intros (_ & _ & [->|[H1 H2]]); [done|]. unfold alive in *. split_and!; split; intros; naive_solver congruence. Qed.

Lemma soft_lookup t t' i q : soft_tab t t' -> t' !! i = Some q -> exists p, t !! i = Some p /\ soft p q.
Proof. intros Hs Hq. specialize (Hs i). rewrite Hq in Hs. destruct (t !! i); [eauto|done]. Qed.
Lemma soft_lookup_l t t' i p : soft_tab t t' -> t !! i = Some p -> exists q, t' !! i = Some q /\ soft p q.
Proof. intros Hs Hq. specialize (Hs i). rewrite Hq in Hs. destruct (t' !! i); [eauto|done]. Qed.

Lemma tab_ok_soft t t' i0 nx fl : soft_tab t t' -> tab_ok (Ptab t i0 nx fl) -> tab_ok (Ptab t' i0 nx fl).
Proof.
  intros Hs [HE HP HI HF HO HN]. cbn in *.
  assert (Ha : forall j, alive_at t j -> alive_at t' j).
  { intros j (p & Hp & Hl). destruct (soft_lookup_l _ _ _ _ Hs Hp) as (q & Hq & Hpq). exists q. split; [done|]. by apply (soft_states _ _ Hpq). }
  split; cbn.
  - intros i q Hq. destruct (soft_lookup _ _ _ _ Hs Hq) as (p & Hp & Hpq). destruct (soft_states _ _ Hpq) as (S1 & S2 & S3).
    destruct (HE _ _ Hp) as [E1 E2 E3 E4]. destruct Hpq as (Hpid & Hpar & _). split; rewrite ?Hpid, ?Hpar, ?S1, ?S2; try done.
    intros Hn1 Hn2 Hi. destruct E4 as (j & Hj & Hl); try done. exists j. split; [done|by apply Ha].
  - intros i j p q Hp Hq Hn Hpid. destruct (soft_lookup _ _ _ _ Hs Hp) as (p0 & Hp0 & Hpp). destruct (soft_lookup _ _ _ _ Hs Hq) as (q0 & Hq0 & Hqq).
    destruct (soft_states _ _ Hpp) as (S1 & _ & _). rewrite S1 in Hn. eapply HP; eauto. destruct Hpp as (E1 & _), Hqq as (E2 & _). congruence.
  - by apply Ha.
  - intros me i Hin. destruct (HF _ _ Hin) as [F1 (p & Hp & Hu)]. split; [by apply Ha|]. destruct (soft_lookup_l _ _ _ _ Hs Hp) as (q & Hq & Hpq).
    exists q. split; [done|]. by apply (soft_states _ _ Hpq).
  - done.
  - done.
Qed.

Lemma soft_refl p : soft p p.
Proof. split_and!; try done. by left. Qed.

Lemma soft_alter f i t : (forall p, t !! i = Some p -> soft p (f p)) -> soft_tab t (alter f i t).
Proof.
  intros Hf j. destruct (decide (i = j)) as [->|Hne].
  - rewrite list_lookup_alter_eq. destruct (t !! j) as [p|] eqn:E; cbn; [by apply Hf|done].
  - rewrite list_lookup_alter_ne by done. destruct (t !! j); [apply soft_refl|done].
Qed.

Lemma soft_wake chan p : soft p (wake chan p).
Proof. unfold wake. destruct (bool_decide_reflect (p_state p = SLEEPING)) as [E|]; cbn; [|apply soft_refl]. destruct (_ =? _); [|apply soft_refl]. split_and!; try done. right. unfold alive. rewrite E. cbn. auto. Qed.

Lemma soft_wake_others me chan t : soft_tab t (wake_others me chan t).
Proof. intros i. unfold wake_others. rewrite list_lookup_imap. destruct (t !! i) as [p|]; cbn; [|done]. destruct (bool_decide _); [apply soft_refl|apply soft_wake]. Qed.

(** ** Steps that change an entry no process runs in *)

Lemma alive_at_alter f i t j p : t !! i = Some p -> ~ alive (p_state p) -> alive_at t j -> alive_at (alter f i t) j.
Proof.
  intros Hp Hd (q & Hq & Ha). destruct (decide (i = j)) as [->|Hne]; [congruence|]. exists q. by rewrite list_lookup_alter_ne.
Qed.

Lemma tab_ok_alter t i0 nx nx' fl fl' i f p :
  tab_ok (Ptab t i0 nx fl) -> t !! i = Some p -> ~ alive (p_state p) -> nx <= nx' < 2 ^ 31 ->
  entry_ok (Ptab (alter f i t) i0 nx' fl') i (f p) ->
  (p_state (f p) <> UNUSED -> p_pid (f p) = p_pid p /\ p_state p <> UNUSED \/ p_pid (f p) = nx) ->
  (forall me j, j <> i -> (me, j) ∈ fl -> (me, j) ∈ fl') ->
  (forall me j, (me, j) ∈ fl' -> (me, j) ∈ fl /\ j <> i \/ alive_at t me /\ j = i /\ p_state (f p) = USED) ->
  NoDup fl'.*1 /\ NoDup fl'.*2 -> tab_ok (Ptab (alter f i t) i0 nx' fl').
Proof.
  intros [HE HP HI HF HO HN] Hp Hd Hnx Hei Hpid Hfl Hfl' HO'. cbn in *.
  assert (Ha : forall j, alive_at t j -> alive_at (alter f i t) j) by (intros j; by eapply alive_at_alter).
  assert (Hl : forall j q, alter f i t !! j = Some q -> j = i /\ q = f p \/ j <> i /\ t !! j = Some q).
  { intros j q Hq. destruct (decide (i = j)) as [->|Hne]; [rewrite list_lookup_alter_eq, Hp in Hq; left; by simplify_eq/=|].
    rewrite list_lookup_alter_ne in Hq by done. by right. }
  assert (Hfresh : forall j q, t !! j = Some q -> j <> i -> p_state (f p) <> UNUSED -> p_pid (f p) = p_pid q -> False).
  { intros j q Hq Hne Hn E. destruct (Hpid Hn) as [[E1 E2]|E1]; [apply Hne; symmetry; eapply HP; eauto; congruence|].
    destruct (HE _ _ Hq) as [U1 U2 _ _]. destruct (decide (p_state q = UNUSED)) as [Hu|Hu]; [destruct (U1 Hu); lia|]. cbn in U2. specialize (U2 Hu). lia. }
  split; cbn.
  - intros j q [[-> ->]|[Hne Hq]]%Hl; [done|]. destruct (HE _ _ Hq) as [E1 E2 E3 E4]. cbn in *. split; cbn.
    + done.
    + intros Hn. specialize (E2 Hn). lia.
    + intros Hu. destruct (E3 Hu) as (me & Hin & Hpar). exists me. split; [by apply Hfl|done].
    + intros Hn1 Hn2 Hi. destruct E4 as (k & Hk & Hal); try done. exists k. split; [done|by apply Ha].
  - intros j k q r [[-> ->]|[Hj Hq]]%Hl [[-> ->]|[Hk Hr]]%Hl Hn E; [done|by destruct (Hfresh k r)| |by eapply HP].
    destruct (decide (p_state (f p) = UNUSED)) as [Hu|Hu]; [|by destruct (Hfresh j q)].
    destruct (eo_unused _ _ _ Hei Hu) as [E0 _]. pose proof (eo_pid _ _ _ (HE _ _ Hq) Hn). lia.
  - by apply Ha.
  - intros me j [[Hin Hne]|(Hal & -> & Hu)]%Hfl'.
    + destruct (HF _ _ Hin) as [F1 (q & Hq & F2)]. split; [by apply Ha|]. exists q. by rewrite list_lookup_alter_ne.
    + split; [by apply Ha|]. exists (f p). by rewrite list_lookup_alter_eq, Hp.
  - done.
  - lia.
Qed.

Lemma filter_flight (fl : list (nat * nat)) i : NoDup fl.*1 /\ NoDup fl.*2 ->
  NoDup (filter (fun x => x.2 <> i) fl).*1 /\ NoDup (filter (fun x => x.2 <> i) fl).*2.
Proof. intros [H1 H2]. assert (Hs : filter (fun x => x.2 <> i) fl `sublist_of` fl) by apply sublist_filter. split; [eapply (sublist_NoDup _ fl.*1)|eapply (sublist_NoDup _ fl.*2)]; try done; by apply fmap_sublist. Qed.

Lemma flight_unique (fl : list (nat * nat)) me me' i : NoDup fl.*2 -> (me, i) ∈ fl -> (me', i) ∈ fl -> me = me'.
Proof.
  induction fl as [|[a b] fl IH]; cbn; [set_solver|]. intros [Hb Hn]%NoDup_cons. rewrite !elem_of_cons. intros [E1|H1] [E2|H2]; simplify_eq; try done; [..|by apply IH];
    destruct Hb; apply list_elem_of_fmap; eexists (_, _); split; [|eassumption| |eassumption]; done.
Qed.

Lemma not_alive st : st = UNUSED \/ st = USED \/ st = ZOMBIE -> ~ alive st.
Proof. unfold alive. intros [->|[->| ->]] [E|[E|E]]; done. Qed.

Lemma running_alive t me : in_state RUNNING t me -> alive_at t me.
Proof. intros (p & Hp & E). exists p. split; [done|]. rewrite E. unfold alive. auto. Qed.

Lemma step_alloc t i0 nx fl me i : tab_ok (Ptab t i0 nx fl) -> in_state RUNNING t me -> me ∉ fl.*1 -> in_state UNUSED t i -> nx < 2 ^ 31 - 1 ->
  tab_ok (Ptab (alter (claimed nx) i t) i0 (s32 (nx + 1)) ((me, i) :: fl)).
Proof.
  intros Hok Hme Hin (p & Hp & Hu) Hnx. pose proof Hok as [HE _ _ HF HO HN]. cbn in *. rewrite s32_small by lia.
  destruct (HE _ _ Hp) as [E1 _ _ _]. destruct (E1 Hu) as [Epid Epar]. pose proof (running_alive _ _ Hme) as Hal.
  assert (Hnew : forall k, (k, i) ∈ fl -> False) by (intros k Hk; destruct (HF _ _ Hk) as [_ (q & Hq & ?)]; congruence).
  eapply tab_ok_alter; [exact Hok|exact Hp|apply not_alive; auto|lia| |by right|set_solver| |].
  - split; cbn; try done; [lia|]. intros _. exists me. split; [by left|by left].
  - intros k j Hk. apply elem_of_cons in Hk as [Hk|Hk]; [right; by simplify_eq|]. left. split; [done|]. intros ->. by eapply Hnew.
  - cbn. destruct HO as [HO1 HO2]. split; constructor; try done. intros Hk. apply list_elem_of_fmap in Hk as ([a b] & -> & Hk). by eapply Hnew.
Qed.

(** Freeing the entry of a process that does not run. *)
Lemma step_clear t i0 nx fl i p : tab_ok (Ptab t i0 nx fl) -> t !! i = Some p -> p_state p = USED \/ p_state p = ZOMBIE ->
  tab_ok (Ptab (alter cleared i t) i0 nx (filter (fun x => x.2 <> i) fl)).
Proof.
  intros Hok Hp Hd. pose proof Hok as [_ _ _ _ HO HN]. cbn in *.
  eapply tab_ok_alter; [exact Hok|exact Hp|apply not_alive; tauto|lia|by split|done|..].
  - intros me j Hne Hj. by apply list_elem_of_filter.
  - intros me j Hj. apply list_elem_of_filter in Hj as [? ?]. by left.
  - by apply filter_flight.
Qed.

Lemma step_parent t i0 nx fl me i : tab_ok (Ptab t i0 nx fl) -> (me, i) ∈ fl -> tab_ok (Ptab (alter (set_p_parent (Some me)) i t) i0 nx fl).
Proof.
  intros Hok Hin. pose proof Hok as [HE _ _ HF HO HN]. cbn in *. destruct (HF _ _ Hin) as [Hal (p & Hp & Hu)].
  destruct (HE _ _ Hp) as [E1 E2 E3 E4]. cbn in *.
  eapply tab_ok_alter; [exact Hok|exact Hp|apply not_alive; auto|lia| |left; split; [done|congruence]|done| |done].
  - split; cbn; [congruence|done| |congruence]. intros _. exists me. split; [done|by right].
  - intros k j Hk. destruct (decide (j = i)) as [->|]; [right|by left]. rewrite <- (flight_unique fl me k i) by (done || apply HO). done.
Qed.

Lemma step_start t i0 nx fl me i p : tab_ok (Ptab t i0 nx fl) -> (me, i) ∈ fl -> t !! i = Some p -> p_parent p = Some me ->
  tab_ok (Ptab (alter (set_p_state RUNNABLE) i t) i0 nx (filter (fun x => x.2 <> i) fl)).
Proof.
  intros Hok Hin Hp Hpar. pose proof Hok as [HE _ _ HF HO HN]. cbn in *. destruct (HF _ _ Hin) as [Hal (q & Hq & Hu)]. simplify_eq.
  destruct (HE _ _ Hp) as [E1 E2 E3 E4]. cbn in *.
  eapply tab_ok_alter; [exact Hok|exact Hp|apply not_alive; auto|lia| |left; split; [done|congruence]|..].
  - split; cbn; [done|intros _; apply E2; congruence|done|]. intros _ _ _. exists me. split; [done|]. eapply alive_at_alter; [exact Hp|apply not_alive; auto|done].
  - intros k j Hne Hj. by apply list_elem_of_filter.
  - intros k j Hj. apply list_elem_of_filter in Hj as [? ?]. by left.
  - by apply filter_flight.
Qed.

Lemma exited_lookup me i0 c1 c2 status t j q : exited me i0 c1 c2 status t !! j = Some q -> exists p, t !! j = Some p /\
  p_pid q = p_pid p /\ p_parent q = (if bool_decide (p_parent p = Some me) then Some i0 else p_parent p) /\
  (j = me /\ p_state q = ZOMBIE \/ j <> me /\ soft (set_p_parent (p_parent q) p) q).
Proof.
  intros Hq. unfold exited in Hq. set (t1 := reparent_to me (Some i0) <$> t) in *. set (t2 := wake_others _ c2 _) in *.
  assert (Hs : soft_tab t1 t2).
  { intros k. pose proof (soft_wake_others (Some me) c1 t1 k) as H1. pose proof (soft_wake_others (Some me) c2 (wake_others (Some me) c1 t1) k) as H2. fold t2 in H2.
    destruct (t1 !! k), (wake_others (Some me) c1 t1 !! k), (t2 !! k); try done. destruct H1 as (A1 & A2 & A3), H2 as (B1 & B2 & B3).
    split_and!; [congruence|congruence|]. destruct A3 as [A3|[A3 A4]], B3 as [B3|[B3 B4]]; [left; congruence|right; rewrite <- A3; done|right; rewrite B3; done|by right]. }
  assert (H2 : exists q', t2 !! j = Some q' /\ p_pid q = p_pid q' /\ p_parent q = p_parent q' /\ (j = me /\ p_state q = ZOMBIE \/ j <> me /\ q = q')).
  { destruct (decide (me = j)) as [->|Hne]; [rewrite list_lookup_alter_eq in Hq|rewrite list_lookup_alter_ne in Hq by done; exists q; split_and!; try done; by right].
    destruct (t2 !! j) as [q'|]; [|done]. injection Hq as <-. exists q'. split_and!; try done. by left. }
  destruct H2 as (q' & Hq' & E1 & E2 & E3). destruct (soft_lookup _ _ _ _ Hs Hq') as (p1 & Hp1 & Hsf).
  unfold t1 in Hp1. rewrite list_lookup_fmap in Hp1. destruct (t !! j) as [p|] eqn:Ep; [|done]. injection Hp1 as <-. exists p.
  assert (Hrp : p_pid (reparent_to me (Some i0) p) = p_pid p /\ p_state (reparent_to me (Some i0) p) = p_state p /\
    p_parent (reparent_to me (Some i0) p) = (if bool_decide (p_parent p = Some me) then Some i0 else p_parent p)).
  { unfold reparent_to. by destruct (bool_decide (p_parent p = Some me)). }
  destruct Hrp as (R1 & R2 & R3). destruct Hsf as (S1 & S2 & S3). split_and!; [done|congruence|congruence|].
  destruct E3 as [E3|[Hne ->]]; [by left|right]. split; [done|]. split_and!; [cbn; congruence|done|]. cbn. rewrite <- R2. done.
Qed.

Lemma exited_lookup_l me i0 c1 c2 status t j p : t !! j = Some p -> exists q, exited me i0 c1 c2 status t !! j = Some q.
Proof.
  intros Hp. apply lookup_lt_Some in Hp. apply lookup_lt_is_Some. unfold exited, wake_others. by rewrite length_alter, !length_imap, length_fmap.
Qed.

Lemma step_exit t i0 nx fl me c1 c2 status : tab_ok (Ptab t i0 nx fl) -> in_state RUNNING t me -> me <> i0 -> me ∉ fl.*1 ->
  tab_ok (Ptab (exited me i0 c1 c2 status t) i0 nx fl).
Proof.
  intros [HE HP HI HF HO HN] Hme Hne Hfl. cbn in *. set (t' := exited _ _ _ _ _ _).
  assert (Ha : forall j, j <> me -> alive_at t j -> alive_at t' j).
  { intros j Hj (p & Hp & Hal). destruct (exited_lookup_l me i0 c1 c2 status t j p Hp) as [q Hq]. exists q. split; [done|].
    destruct (exited_lookup _ _ _ _ _ _ _ _ Hq) as (p' & Hp' & _ & _ & [[? _]|[_ Hs]]); [done|]. simplify_eq. by apply (soft_states _ _ Hs). }
  assert (Hpar : forall j, alive_at t j -> alive_at t' (if decide (j = me) then i0 else j)) by (intros j Hj; destruct (decide (j = me)); by apply Ha).
  split; cbn.
  - intros j q Hq. destruct (exited_lookup _ _ _ _ _ _ _ _ Hq) as (p & Hp & E1 & E2 & E3). destruct (HE _ _ Hp) as [U1 U2 U3 U4]. cbn in *.
    assert (Hlive : j <> i0 -> p_state p <> UNUSED -> p_state p <> USED -> exists k, p_parent q = Some k /\ alive_at t' k).
    { intros Hj Hn1 Hn2. destruct U4 as (k & Hk & Hal); try done. exists (if decide (k = me) then i0 else k). split; [|by apply Hpar].
      rewrite E2, Hk. destruct (decide (k = me)) as [->|]; [by rewrite bool_decide_true|by rewrite bool_decide_false by congruence]. }
    destruct E3 as [[-> E3]|[Hj Hs]].
    + destruct Hme as (p' & Hp' & Hr). simplify_eq. split; rewrite ?E3; try done; [intros _; cbn; rewrite E1; apply U2; congruence|].
      intros _ _ Hj. apply Hlive; [done|congruence|congruence].
    + destruct (soft_states _ _ Hs) as (S1 & S2 & S3). cbn in S1, S2. split; cbn.
      * rewrite S1. intros Hu. destruct (U1 Hu) as [? Hn]. rewrite E1, E2, Hn. by rewrite bool_decide_false.
      * rewrite S1, E1. done.
      * rewrite S2. intros Hu. destruct (U3 Hu) as (m & Hm & Hmp). exists m. split; [done|]. rewrite E2. rewrite bool_decide_false; [done|].
        intros E. apply Hfl. destruct Hmp as [Hmp|Hmp]; [congruence|]. apply list_elem_of_fmap. exists (m, j). split; [cbn; congruence|done].
      * rewrite S1, S2. intros. by apply Hlive.
  - intros j k q r Hq Hr Hn E. destruct (exited_lookup _ _ _ _ _ _ _ _ Hq) as (p & Hp & E1 & _ & E3). destruct (exited_lookup _ _ _ _ _ _ _ _ Hr) as (p' & Hp' & E1' & _).
    eapply HP; [exact Hp|exact Hp'| |congruence]. destruct E3 as [[-> _]|[_ Hs]]; [destruct Hme as (x & Hx & Hxs); simplify_eq; congruence|].
    destruct (soft_states _ _ Hs) as (S1 & _). cbn in S1. by rewrite <- S1.
  - by apply Ha.
  - intros m j Hm. destruct (HF _ _ Hm) as [F1 (p & Hp & F2)]. split.
    + apply Ha; [|done]. intros ->. apply Hfl, list_elem_of_fmap. by exists (me, j).
    + destruct (exited_lookup_l me i0 c1 c2 status t j p Hp) as [q Hq]. exists q. split; [done|].
      destruct (exited_lookup _ _ _ _ _ _ _ _ Hq) as (p' & Hp' & _ & _ & [[-> _]|[_ Hs]]); simplify_eq.
      * destruct Hme as (x & Hx & Hxs). congruence.
      * by apply (soft_states _ _ Hs).
  - done.
  - done.
Qed.

Lemma filter_absent (fl : list (nat * nat)) i : (forall me, (me, i) ∉ fl) -> filter (fun x => x.2 <> i) fl = fl.
Proof.
  induction fl as [|[a b] fl IH]; intros Hn; [done|]. rewrite filter_cons, decide_True; [f_equal; apply IH; set_solver|]. cbn. intros ->. apply (Hn a). by left.
Qed.

Lemma soft_state f i t st st' : in_state st t i -> alive st -> alive st' ->
  (forall p, p_pid (f p) = p_pid p /\ p_parent (f p) = p_parent p /\ p_state (f p) = st') -> soft_tab t (alter f i t).
Proof.
  intros (p & Hp & Hst) Ha Ha' Hf. apply soft_alter. intros q Hq. assert (q = p) as -> by congruence.
  destruct (Hf p) as (E1 & E2 & E3). split_and!; [done|done|right]. by rewrite E3, Hst.
Qed.

Lemma tab_ok_step s s' : tstep s s' -> tab_ok s -> tab_ok s'.
Proof.
  assert (HR : alive RUNNING) by (unfold alive; auto). assert (HB : alive RUNNABLE) by (unfold alive; auto). assert (HS : alive SLEEPING) by (unfold alive; auto).
  intros Hst Hok. destruct Hst.
  - apply step_alloc; try done. by apply find_unused_spec.
  - destruct (to_flight _ Hok _ _ H0) as [_ (p & Hp & Hu)]. eapply step_clear; eauto.
  - by apply step_parent.
  - by eapply step_start.
  - eapply tab_ok_soft; [|exact Hok]. apply (soft_state _ _ _ RUNNABLE RUNNING); try done. by eapply find_runnable_spec.
  - eapply tab_ok_soft; [|exact Hok]. by apply (soft_state _ _ _ RUNNING RUNNABLE).
  - eapply tab_ok_soft; [|exact Hok]. by apply (soft_state _ _ _ RUNNING SLEEPING).
  - eapply tab_ok_soft; [|exact Hok]. apply soft_wake_others.
  - eapply tab_ok_soft; [|exact Hok]. apply soft_alter. intros p _. unfold mark_killed. cbn. destruct (bool_decide_reflect (p_state p = SLEEPING)) as [E|]; split_and!; try done; [right; cbn; by rewrite E|by left].
  - by apply step_exit.
  - destruct (find_zombie_spec _ _ _ H0) as (p & Hp & Hz & _). rewrite <- (filter_absent fl i); [by eapply step_clear; eauto|].
    intros m Hm. destruct (to_flight _ Hok _ _ Hm) as [_ (q & Hq & Hu)]. cbn in Hq. congruence.
Qed.

Lemma tab_ok_init s : ptab_init s -> tab_ok s.
Proof.
  intros (Hn & Hf & (p & Hp & Hr & Hpid) & Hall). assert (HB : alive RUNNABLE) by (unfold alive; auto).
  assert (Hu : forall i q, tab s !! i = Some q -> p_state q <> UNUSED -> i = init s /\ q = p).
  { intros i q Hq Hne. destruct (decide (i = init s)) as [->|Hi]; [split; congruence|]. by destruct (Hall _ _ Hq Hi). }
  split.
  - intros i q Hq. split.
    + intros Hs. destruct (decide (i = init s)) as [->|Hi]; [congruence|]. by destruct (Hall _ _ Hq Hi) as (_ & ? & ?).
    + intros Hs. destruct (Hu _ _ Hq Hs) as [_ ->]. lia.
    + intros Hs. destruct (Hu _ _ Hq) as [_ ->]; [congruence|]. congruence.
    + intros Hs _ Hi. by destruct (Hu _ _ Hq Hs).
  - intros i j q r Hq Hq' Hs E. destruct (Hu _ _ Hq Hs) as [-> ->]. destruct (decide (j = init s)) as [|Hj]; [done|]. destruct (Hall _ _ Hq' Hj) as (_ & ? & _). lia.
  - exists p. by rewrite Hr.
  - rewrite Hf. intros me i Hin. by apply not_elem_of_nil in Hin.
  - rewrite Hf. split; constructor.
  - lia.
Qed.

Lemma tab_ok_reachable s : treachable s -> tab_ok s.
Proof. intros (s0 & Hi & Hr). apply tab_ok_init in Hi. induction Hr as [|? ? ? Hst _ IH]; [done|]. apply IH. by eapply tab_ok_step. Qed.

(** C17: No orphans and no double pids.  However the critical sections of the
    processes interleave, until the pid counter runs out: every process that is
    in use has a pid of its own; every process but init, zombies included, has
    a parent that is alive, so that a zombie is never out of reach of a
    [wait]; init itself stays alive; and an entry being set up by [fork]
    belongs to exactly one live parent. *)
Theorem no_orphans s : treachable s ->
  (forall i j p q, tab s !! i = Some p -> tab s !! j = Some q -> p_state p <> UNUSED -> p_state q <> UNUSED -> p_pid p = p_pid q -> i = j) /\
  (forall i p, tab s !! i = Some p -> p_state p <> UNUSED -> p_state p <> USED -> i <> init s ->
     exists j, p_parent p = Some j /\ alive_at (tab s) j) /\
  (forall i p j, tab s !! i = Some p -> p_state p = ZOMBIE -> p_parent p = Some j -> is_Some (find_zombie j (tab s) 0)) /\
  alive_at (tab s) (init s) /\
  (forall i p, tab s !! i = Some p -> p_state p = USED -> exists me, (me, i) ∈ inflight s /\ alive_at (tab s) me).
Proof.
  intros Hr. pose proof (tab_ok_reachable s Hr) as [HE HP HI HF HO HN]. split_and!.
  - intros i j p q Hp Hq Hn _. by eapply HP.
  - intros i p Hp. by destruct (HE _ _ Hp).
  - intros i p j Hp Hz Hj. clear -Hp Hz Hj. generalize 0%nat. revert i Hp. induction (tab s) as [|x t IH]; intros [|i] Hp k; simplify_eq/=.
    + rewrite !bool_decide_true by done. by eexists.
    + destruct (_ && _); [by eexists|by eapply IH].
  - done.
  - intros i p Hp Hu. destruct (eo_used _ _ _ (HE _ _ Hp) Hu) as (me & Hme & _). exists me. split; [done|]. by apply (HF me i).
Qed.

(** An empty entry, and the table in which process 0 is init. *)
Definition proc0 : proc := Proc UNUSED 0 0 0 0 None 0 0 0 0 (0, 0) (replicate 16 None) None (replicate 16 0) 0 0.
Definition init1 : proc := set_p_pid 1 (set_p_state RUNNABLE proc0).
Definition tab0 : ptab := Ptab (init1 :: replicate 3 proc0) 0 2 [].

Lemma tab0_init : ptab_init tab0.
Proof.
  split_and!; [done|done|exists init1; done|]. intros [|i] p Hp Hi; [done|]. change (replicate 3 proc0 !! i = Some p) in Hp. apply lookup_replicate in Hp as [-> _]. done.
Qed.

(** Init runs, forks a child, and the child exits. *)
Definition run0 (p : proc) : proc := set_p_state RUNNING p.
Definition child (k : Z) : proc := set_p_parent (Some 0%nat) (set_p_pid 2 (set_p_killed k proc0)).
Definition tab_child (k : Z) (st : procstate) : list proc := [run0 init1; set_p_state st (child k); proc0; proc0].

Lemma tab_forked k t0 : treachable (Ptab t0 0 2 []) -> t0 = [run0 init1; set_p_killed k proc0; proc0; proc0] ->
  treachable (Ptab (tab_child k RUNNING) 0 3 []).
Proof.
  intros (s0 & Hi & Hr) ->. exists s0. split; [done|]. etransitivity; [exact Hr|].
  eapply rtc_l; [apply (ts_alloc _ _ _ _ 0%nat 1%nat); [by exists (run0 init1)|set_solver|done|lia]|]. change (s32 (2 + 1)) with 3. cbn [alter].
  eapply rtc_l; [apply (ts_parent _ _ _ _ 0%nat 1%nat); [by exists (run0 init1)|by left]|]. cbn [alter].
  eapply rtc_l; [eapply (ts_start _ _ _ _ 0%nat 1%nat); [by exists (run0 init1)|by left|done|done]|]. cbn [alter].
  eapply rtc_l; [apply (ts_run _ _ _ _ 1%nat 1%nat); done|]. apply rtc_refl.
Qed.

Lemma tab_running : treachable (Ptab [run0 init1; proc0; proc0; proc0] 0 2 []).
Proof. exists tab0. split; [apply tab0_init|]. apply rtc_once. by apply (ts_run (init1 :: replicate 3 proc0) 0%nat 2 [] 0%nat 0%nat). Qed.

Lemma no_orphans_witness : exists s, in_state ZOMBIE (tab s) 1 /\ is_Some (find_zombie 0 (tab s) 0).
Proof.
  set (t := exited 1 0 0 0 7 (tab_child 0 RUNNING)). exists (Ptab t 0 3 []).
  assert (Hr : treachable (Ptab t 0 3 [])).
  { destruct (tab_forked 0 _ tab_running eq_refl) as (s0 & Hi & Hr). exists s0. split; [done|]. eapply rtc_r; [exact Hr|].
    apply (ts_exit (tab_child 0 RUNNING) 0%nat 3 [] 1%nat 0 0 7); [by eexists|done|set_solver]. }
  split; [by eexists|]. eapply (proj1 (proj2 (proj2 (no_orphans _ Hr))) 1%nat); reflexivity.
Defined.

(** [kill(0)] reaches entries that are not in use, whose pid is 0, and
    [allocproc] does not reset [killed]: after a [kill(0)] the next process that
    is forked runs with [killed] set although no one ever killed its pid. *)
Theorem kill_zero_hits_newborn : exists s p, treachable s /\ find_pid 0 [run0 init1; proc0; proc0; proc0] 0 = Some 1%nat /\
  tab s !! 1%nat = Some p /\ p_state p = RUNNING /\ p_pid p = 2 /\ p_killed p = 1.
Proof.
  exists (Ptab (tab_child 1 RUNNING) 0 3 []), (set_p_state RUNNING (child 1)). split_and!; try done.
  apply (tab_forked 1 [run0 init1; set_p_killed 1 proc0; proc0; proc0]); [|done].
  destruct tab_running as (s0 & Hi & Hr). exists s0. split; [done|]. eapply rtc_r; [exact Hr|]. by apply (ts_kill [run0 init1; proc0; proc0; proc0] 0%nat 2 [] 0 1%nat).
Qed.
