(* ===== verification/Exec.v ===== *)
(** * kernel/exec.c

    Loading a program: the ELF headers, the segments, the stack with the
    arguments, and the switch to the new image; with every exit through [bad]. *)
From S2P Require Import Prelude Riscv Mem KString Kalloc Vm Bio Block TxSpec Fs Pipe File Proc.

Definition ELF_MAGIC : Z := 0x464C457F.
Definition ELF_PROG_LOAD : Z := 1.

(** The fields of [struct elfhdr] and [struct proghdr] that are used. *)
Definition elfhdr_size : Z := 64.
Definition e_magic (b : list Z) : Z := getn 4 b 0.
Definition e_entry (b : list Z) : Z := getn 8 b 24.
Definition e_phoff (b : list Z) : Z := getn 8 b 32.
Definition e_phnum (b : list Z) : Z := getn 2 b 56.
Definition proghdr_size : Z := 56.
Definition ph_type (b : list Z) : Z := getn 4 b 0.
Definition ph_flags (b : list Z) : Z := getn 4 b 4.
Definition ph_off (b : list Z) : Z := getn 8 b 8.
Definition ph_vaddr (b : list Z) : Z := getn 8 b 16.
Definition ph_filesz (b : list Z) : Z := getn 8 b 32.
Definition ph_memsz (b : list Z) : Z := getn 8 b 40.

Definition flags2perm (flags : Z) : Z :=
  let perm := if ctrue (Z.land flags 0x1) then PTE_X else 0 in
  if ctrue (Z.land flags 0x2) then Z.lor perm PTE_W else perm.

(** A 64-bit word in memory. *)
Definition word_bytes (v : Z) : list Z := rd_bytes 8 (stn 8 (fun _ => 0) 0 v) 0.

(** The part of the path after the last slash. *)
Fixpoint last_elem (last path : list Z) : list Z :=
  match path with
  | [] => last
  | c :: path' => last_elem (if c =? SLASH then path' else last) path'
  end.

(** Room for a string or a vector of [n] bytes on the stack, 16-byte aligned. *)
Definition push (sp n : Z) : Z := let sp := u64 (sp - n) in sp - sp mod 16.

Section Exec.
Context {L : Layout} {S : Type} `{BlockStore S}.
Notation K := (kern S).

(** [readi(ip, 0, buf, off, n)]: what was read into the kernel buffer. *)
Definition kreadi (me ip : nat) (off n : Z) : M K (Z * list Z) := liftP me (liftF (readi to_kernel [] ip off n)).

Fixpoint loadseg_loop (fuel : nat) (me : nat) (pagetable va : Z) (ip : nat) (offset sz i : Z) : M K Z :=
  if i <? sz then
    match fuel with
    | O => diverge
    | Datatypes.S k =>
        pa <- liftM (walkaddr pagetable (u64 (va + i)));;
        if pa =? 0 then panic "loadseg: address should exist" else
        let n := if u32 (sz - i) <? PGSIZE then u32 (sz - i) else PGSIZE in
        r <- kreadi me ip (u32 (offset + i)) n;;
        liftM (kwrite pa r.2);;
        if negb (r.1 =? n) then ret (-1) else loadseg_loop k me pagetable va ip offset sz (u32 (i + PGSIZE))
    end
  else ret 0.
Definition loadseg (me : nat) (pagetable va : Z) (ip : nat) (offset sz : Z) : M K Z :=
  loadseg_loop (Z.to_nat (sz / PGSIZE + 1)) me pagetable va ip offset sz 0.

(** The loop over the program headers, [k] of them to go: whether it got to the
    end, and the size of the image so far. *)
Fixpoint load_segments (k : nat) (me : nat) (ip : nat) (pagetable off sz : Z) : M K (bool * Z) :=
  match k with
  | O => ret (true, sz)
  | Datatypes.S k' =>
      r <- kreadi me ip (u32 off) proghdr_size;;
      let ph := r.2 in
      if negb (r.1 =? proghdr_size) then ret (false, sz) else
      if negb (ph_type ph =? ELF_PROG_LOAD) then load_segments k' me ip pagetable (s32 (off + proghdr_size)) sz else
      if ph_memsz ph <? ph_filesz ph then ret (false, sz) else
      if u64 (ph_vaddr ph + ph_memsz ph) <? ph_vaddr ph then ret (false, sz) else
      if negb (ph_vaddr ph mod PGSIZE =? 0) then ret (false, sz) else
      sz1 <- liftM (uvmalloc pagetable sz (u64 (ph_vaddr ph + ph_memsz ph)) (flags2perm (ph_flags ph)));;
      if sz1 =? 0 then ret (false, sz) else
      if sz1 >=? PLIC then ret (false, sz) else
      l <- loadseg me pagetable (ph_vaddr ph) ip (u32 (ph_off ph)) (u32 (ph_filesz ph));;
      if l <? 0 then ret (false, sz1) else
      load_segments k' me ip pagetable (s32 (off + proghdr_size)) sz1
  end.

(** The argument strings: the stack pointer and the addresses pushed. *)
Fixpoint push_args (argv : list (list Z)) (pagetable sp stackbase : Z) (ustack : list Z) : M K (option (Z * list Z)) :=
  match argv with
  | [] => ret (Some (sp, ustack))
  | arg :: argv' =>
      if Z.of_nat (length ustack) >=? MAXARG then ret None else
      let sp := push sp (Z.of_nat (length arg) + 1) in
      if sp <? stackbase then ret None else
      r <- liftM (copyout pagetable sp (arg ++ [0]));;
      if r <? 0 then ret None else
      push_args argv' pagetable sp stackbase (ustack ++ [sp])
  end.

(** [bad] once the inode is released: only the page table is left. *)
Definition exec_bad (pagetable sz : Z) : M K Z := liftM (proc_freepagetable pagetable sz);; ret (-1).
(** [bad] while the inode is locked, inside the transaction. *)
Definition exec_bad_ip (me ip : nat) (pagetable sz : Z) : M K Z :=
  (if ctrue pagetable then liftM (proc_freepagetable pagetable sz) else ret tt);;
  liftP me (liftF (iunlockput ip);; kend_op);;
  ret (-1).

(** The second half: the stack, the arguments and the commit. *)
Definition exec_stack (me : nat) (path : list Z) (argv : list (list Z)) (entry pagetable sz : Z) : M K Z :=
  p <- getproc me;;
  let oldsz := p_sz p in
  let sz := PGROUNDUP sz in
  sz1 <- liftM (uvmalloc pagetable sz (u64 (sz + 2 * PGSIZE)) PTE_W);;
  if sz1 =? 0 then exec_bad pagetable sz else
  let sz := sz1 in
  liftM (uvmclear pagetable (sz - 2 * PGSIZE));;
  let stackbase := sz - PGSIZE in
  r <- push_args argv pagetable sz stackbase [];;
  match r with
  | None => exec_bad pagetable sz
  | Some (sp, ustack) =>
      let argc := Z.of_nat (length ustack) in
      let sp := push sp ((argc + 1) * 8) in
      if sp <? stackbase then exec_bad pagetable sz else
      r <- liftM (copyout pagetable sp (concat (word_bytes <$> (ustack ++ [0]))));;
      if r <? 0 then exec_bad pagetable sz else
      liftM (wr64 (p_trapframe p + tf_a0 + 8) sp);;
      setproc me (fun q => set_p_name (copy_name (p_name q) (last_elem path path ++ [0])) q);;
      setproc me (fun q => set_p_sz sz (set_p_pagetable pagetable q));;
      liftM (wr64 (p_trapframe p + tf_epc) entry;; wr64 (p_trapframe p + tf_sp) sp);;
      liftM (proc_freepagetable (p_pagetable p) oldsz);;
      ret argc
  end.

(** [exec]; the page table it prints for process 1 is not part of the result. *)
Definition exec (me : nat) (path : list Z) (argv : list (list Z)) : M K Z :=
  liftP me kbegin_op;;
  r <- liftP me (liftF (namei path));;
  match r with
  | None => liftP me kend_op;; ret (-1)
  | Some ip =>
      liftP me (liftF (ilock ip));;
      r <- kreadi me ip 0 elfhdr_size;;
      let elf := r.2 in
      if negb (r.1 =? elfhdr_size) then exec_bad_ip me ip 0 0 else
      if negb (e_magic elf =? ELF_MAGIC) then exec_bad_ip me ip 0 0 else
      pagetable <- proc_pagetable me;;
      if pagetable =? 0 then exec_bad_ip me ip 0 0 else
      '(ok, sz) <- load_segments (Z.to_nat (e_phnum elf)) me ip pagetable (s32 (e_phoff elf)) 0;;
      if negb ok then exec_bad_ip me ip pagetable sz else
      liftP me (liftF (iunlockput ip);; kend_op);;
      exec_stack me path argv (e_entry elf) pagetable sz
  end.

End Exec.
