(* ===== verification/Syscall.v ===== *)
(** * kernel/syscall.c and kernel/sysproc.c

    Fetching arguments from the trap frame and from user memory, the system
    calls on processes, [sys_exec] of sysfile.c, and the dispatch by number. *)
From S2P Require Import Prelude Riscv Mem KString Kalloc Vm Bio Block TxSpec Fs Pipe File Sysfile UserVm Proc Exec.

Definition SYS_fork : Z := 1.
Definition SYS_exit : Z := 2.
Definition SYS_wait : Z := 3.
Definition SYS_pipe : Z := 4.
Definition SYS_read : Z := 5.
Definition SYS_kill : Z := 6.
Definition SYS_exec : Z := 7.
Definition SYS_fstat : Z := 8.
Definition SYS_chdir : Z := 9.
Definition SYS_dup : Z := 10.
Definition SYS_getpid : Z := 11.
Definition SYS_sbrk : Z := 12.
Definition SYS_sleep : Z := 13.
Definition SYS_uptime : Z := 14.
Definition SYS_open : Z := 15.
Definition SYS_write : Z := 16.
Definition SYS_mknod : Z := 17.
Definition SYS_unlink : Z := 18.
Definition SYS_link : Z := 19.
Definition SYS_mkdir : Z := 20.
Definition SYS_close : Z := 21.
Definition SYS_trace : Z := 22.
Definition SYS_sysinfo : Z := 23.

Definition tf_a7 : Z := 168.

Section Syscall.
Context {L : Layout} {S : Type} `{BlockStore S}.
Context (forkret : Z) (proc_addr : nat -> Z).
Context (dev_read dev_write : Z -> option (Z -> Z -> M (kfs S vmem) Z)).
(** What uninitialised stack bytes hold, and the page [kalloc] hands to [pipealloc]. *)
Context (junk pad : list Z) (page : option (list Z)).
Notation K := (kern S).

(** A system call of sysfile.c, run by process [me] on its own descriptors,
    directory and memory. *)
Definition liftK {A} (me : nat) (c : M (kfs S vmem) A) : M K A :=
  fun s => match procs s !! me with
           | None => Fault
           | Some p =>
               let f := kfsys s in
               match c (Kfs (Fsys (store f) (sb f) (itable f) (default O (p_cwd p))) (Vmem (km s) (p_pagetable p)) (kftable s) (p_ofile p) (kpipes s)) with
               | Ret (a, k) =>
                   Ret (a, Kern (vm_k (um k)) (<[me := set_p_cwd (Some (cwd (fs k))) (set_p_ofile (ofile k) p)]> (procs s))
                             (initproc s) (nextpid s) (fs k) (ftable k) (pipes k))
               | Panic m => Panic m
               | Fault => Fault
               | Diverge => Diverge
               end
           end.

(** ** Arguments *)

Definition argraw (me : nat) (n : Z) : M K Z :=
  p <- getproc me;;
  if (0 <=? n) && (n <=? 5) then liftM (rd64 (p_trapframe p + tf_a0 + 8 * n)) else panic "argraw".
(** The argument registers, as the handlers of Sysfile.v take them. *)
Definition args (me : nat) : M K (nat -> Z) :=
  a0 <- argraw me 0;; a1 <- argraw me 1;; a2 <- argraw me 2;;
  ret (fun n => match n with O => a0 | Datatypes.S O => a1 | _ => a2 end).

Definition fetchaddr (me : nat) (addr : Z) : M K (option Z) :=
  p <- getproc me;;
  if (addr >=? p_sz p) || (u64 (addr + 8) >? p_sz p) then ret None else
  '(r, l) <- liftM (copyin (p_pagetable p) addr 8);;
  if negb (r =? 0) then ret None else ret (Some (getn 8 l 0)).
(** The string without its terminator; its length is what the C returns. *)
Definition fetchstr (me : nat) (addr max : Z) : M K (option (list Z)) :=
  p <- getproc me;;
  '(r, l) <- liftM (copyinstr (p_pagetable p) addr max);;
  if r <? 0 then ret None else ret (Some (removelast l)).

(** ** kernel/sysproc.c *)

Definition sys_exit (me : nat) : M K (option Z) := a <- args me;; exit proc_addr me (argint a 0);; ret None.
Definition sys_getpid (me : nat) : M K (option Z) := p <- getproc me;; ret (Some (p_pid p)).
Definition sys_fork (me : nat) : M K (option Z) := r <- fork forkret me;; ret (Some r).
Definition sys_wait (me : nat) : M K (option Z) := a <- args me;; wait proc_addr me (argaddr a 0).
Definition sys_sbrk (me : nat) : M K (option Z) :=
  a <- args me;;
  p <- getproc me;;
  r <- growproc me (argint a 0);;
  if r <? 0 then ret (Some (-1)) else ret (Some (p_sz p)).
(** One turn of the loop of [sys_sleep], [ticks] being the clock and [ticks0] its
    value on entry; the comparison is unsigned.  [None]: sleep on the clock. *)
Definition sys_sleep_turn (me : nat) (ticks ticks0 : Z) : M K (option Z) :=
  a <- args me;;
  if u32 (ticks - ticks0) <? u32 (argint a 0) then
    k <- killed me;;
    if ctrue k then ret (Some (-1)) else ret None
  else ret (Some 0).
Definition sys_kill (me : nat) : M K (option Z) := a <- args me;; r <- kill (argint a 0);; ret (Some r).
Definition sys_uptime (ticks : Z) : M K (option Z) := ret (Some (u32 ticks)).
Definition sys_trace (me : nat) : M K (option Z) := a <- args me;; setproc me (set_p_tracemask (argint a 0));; ret (Some 0).
(** [struct sysinfo] in memory. *)
Definition sysinfo_bytes (freemem nproc : Z) : list Z := word_bytes freemem ++ word_bytes nproc.
Definition sys_sysinfo (me : nat) : M K (option Z) :=
  a <- args me;;
  freemem <- liftM get_free_mem;;
  nproc <- get_proc_num;;
  p <- getproc me;;
  r <- liftM (copyout (p_pagetable p) (argaddr a 0) (sysinfo_bytes freemem nproc));;
  ret (Some (if r <? 0 then -1 else 0)).

(** ** sys_exec *)

Fixpoint free_pages (ps : list Z) : M K unit :=
  match ps with
  | [] => ret tt
  | p :: ps' => liftM (kfree p);; free_pages ps'
  end.
(** The loop over the user's [argv]: the strings, or [None] for [bad], with the
    pages allocated so far. *)
Fixpoint fetch_argv (k : nat) (me : nat) (uargv i : Z) (pages : list Z) (argv : list (list Z)) : M K (option (list (list Z)) * list Z) :=
  match k with
  | O => ret (None, pages)
  | Datatypes.S k' =>
      r <- fetchaddr me (u64 (uargv + 8 * i));;
      match r with
      | None => ret (None, pages)
      | Some uarg =>
          if uarg =? 0 then ret (Some argv, pages) else
          pg <- liftM kalloc;;
          if pg =? 0 then ret (None, pages) else
          r <- fetchstr me uarg PGSIZE;;
          match r with
          | None => ret (None, pages ++ [pg])
          | Some arg => liftM (kwrite pg (arg ++ [0]));; fetch_argv k' me uargv (i + 1) (pages ++ [pg]) (argv ++ [arg])
          end
      end
  end.
Definition sys_exec (me : nat) : M K (option Z) :=
  a <- args me;;
  path <- fetchstr me (argaddr a 0) MAXPATH;;
  match path with
  | None => ret (Some (-1))
  | Some path =>
      '(argv, pages) <- fetch_argv (Z.to_nat MAXARG) me (argaddr a 1) 0 [] [];;
      match argv with
      | None => free_pages pages;; ret (Some (-1))
      | Some argv => r <- exec me path argv;; free_pages pages;; ret (Some r)
      end
  end.

(** ** Dispatch *)

(** A call of sysfile.c as a handler. *)
Definition file_call (me : nat) (h : (nat -> Z) -> M (kfs S vmem) Z) : M K (option Z) :=
  a <- args me;; r <- liftK me (h a);; ret (Some r).

(** [syscalls[num]]; [ticks] is the clock, [ticks0] what it was when a sleeping
    process entered [sys_sleep].  The process sleeps or is gone if the handler
    returns [None]. *)
Definition syscalls (me : nat) (ticks ticks0 num : Z) : option (M K (option Z)) :=
  if num =? SYS_fork then Some (sys_fork me) else
  if num =? SYS_exit then Some (sys_exit me) else
  if num =? SYS_wait then Some (sys_wait me) else
  if num =? SYS_pipe then Some (file_call me (sys_pipe page)) else
  if num =? SYS_read then Some (k <- killed me;; file_call me (sys_read dev_read (ctrue k))) else
  if num =? SYS_kill then Some (sys_kill me) else
  if num =? SYS_exec then Some (sys_exec me) else
  if num =? SYS_fstat then Some (file_call me (sys_fstat pad)) else
  if num =? SYS_chdir then Some (file_call me sys_chdir) else
  if num =? SYS_dup then Some (file_call me sys_dup) else
  if num =? SYS_getpid then Some (sys_getpid me) else
  if num =? SYS_sbrk then Some (sys_sbrk me) else
  if num =? SYS_sleep then Some (sys_sleep_turn me ticks ticks0) else
  if num =? SYS_uptime then Some (sys_uptime ticks) else
  if num =? SYS_open then Some (file_call me (sys_open junk)) else
  if num =? SYS_write then Some (k <- killed me;; file_call me (sys_write dev_write (ctrue k))) else
  if num =? SYS_mknod then Some (file_call me (sys_mknod junk)) else
  if num =? SYS_unlink then Some (file_call me (sys_unlink junk)) else
  if num =? SYS_link then Some (file_call me (sys_link junk)) else
  if num =? SYS_mkdir then Some (file_call me (sys_mkdir junk)) else
  if num =? SYS_close then Some (file_call me sys_close) else
  if num =? SYS_trace then Some (sys_trace me) else
  if num =? SYS_sysinfo then Some (sys_sysinfo me) else None.

(** What [syscall] prints: nothing, a trace line (pid, number, value), or that
    the number is unknown. *)
Inductive printed : Type :=
| Quiet
| Traced (pid num r : Z)
| Unknown (pid num : Z).

(** [syscall]: [None] when the process sleeps or is gone. *)
Definition syscall (me : nat) (ticks ticks0 : Z) : M K (option printed) :=
  p <- getproc me;;
  a7 <- liftM (rd64 (p_trapframe p + tf_a7));;
  let num := s32 a7 in
  match syscalls me ticks ticks0 num with
  | Some h =>
      r <- h;;
      match r with
      | None => ret None
      | Some r =>
          liftM (wr64 (p_trapframe p + tf_a0) (u64 r));;
          p <- getproc me;;
          ret (Some (if ctrue (Z.land (Z.shiftl 1 num) (u32 (p_tracemask p))) then Traced (p_pid p) num r else Quiet))
      end
  | None =>
      liftM (wr64 (p_trapframe p + tf_a0) (u64 (-1)));;
      ret (Some (Unknown (p_pid p) num))
  end.

End Syscall.
