(* ===== verification/SyscallProofs.v ===== *)
(** * System calls on processes

    [growproc] (sbrk), [sys_sysinfo] and the dispatch of [syscall]. *)
From S2P Require Import Prelude Riscv Mem KString Kalloc Vm VmWalk VmMap VmUser VmFree VmCopy Machine VmTheorems Bio BioSpec BioProofs Block Log LogProofs LogTheorems TxSpec LogTx Crash Fs FsBlock FsProofs FsInode FsWrite FsTheorems Pipe File FileProofs Sysfile SysfileProofs UserVm Proc ProcTable Exec Syscall.

Section Calls.
Context {L : Layout} {S : Type} `{BlockStore S}.
Context (forkret : Z) (proc_addr : nat -> Z).
Implicit Types (s : kern S) (p : proc).

Lemma wp_getproc i p s (Q : proc -> kern S -> Prop) : procs s !! i = Some p -> Q p s -> wp (getproc i) s Q.
Proof. intros Hp HQ. unfold wp, getproc. by rewrite Hp. Qed.

Definition with_procs s (ps : list proc) : kern S := Kern (km s) ps (initproc s) (nextpid s) (kfsys s) (kftable s) (kpipes s).
Definition with_mem s (k : kst) : kern S := Kern k (procs s) (initproc s) (nextpid s) (kfsys s) (kftable s) (kpipes s).

Lemma wp_setproc i f p s (Q : unit -> kern S -> Prop) : procs s !! i = Some p -> Q tt (with_procs s (<[i := f p]> (procs s))) -> wp (setproc i f) s Q.
Proof. intros Hp HQ. unfold wp, setproc. by rewrite Hp. Qed.

Lemma wp_liftM {A} (c : M kst A) s (Q : A -> kern S -> Prop) : wp c (km s) (fun a k => Q a (with_mem s k)) -> wp (liftM c) s Q.
Proof. unfold wp, liftM. by destruct (c (km s)) as [[a k]| | |]. Qed.

(** ** sbrk *)

(** The process with its new size and memory. *)
Definition resized s me p (sz : Z) (k : kst) : kern S := with_procs (with_mem s k) (<[me := set_p_sz sz p]> (procs s)).

(** C33: [growproc] with a size that stays within the user address space.
    Growing returns 0 with the size increased, the old pages in place and the
    new ones mapped, user-writable and zero; or -1 when memory is
    short, with everything given back.  Shrinking returns 0, frees exactly the
    pages above the new size, and keeps the others. *)
Theorem growproc_correct me n s p frames fl :
  procs s !! me = Some p -> uspace (km s) (p_pagetable p) frames fl -> length frames = npages (p_sz p) ->
  0 <= p_sz p <= TRAPFRAME -> 0 <= p_sz p + n <= TRAPFRAME ->
  wp (growproc me n) s (fun r s' => exists k, 
    (r = 0 /\ s' = resized s me p (p_sz p + n) k /\
     ((0 < n /\ exists new fl', length (frames ++ new) = npages (p_sz p + n) /\
         grown (km s) k (p_pagetable p) frames new fl fl' (fun _ _ => 0) (fun _ => Z.lor (Z.lor PTE_R PTE_U) PTE_W)) \/
      (n <= 0 /\ let keep := take (npages (p_sz p + n)) frames in let fl' := reverse (drop (npages (p_sz p + n)) frames) ++ fl in
         uspace k (p_pagetable p) keep fl' /\ conserves (km s) k (p_pagetable p) frames keep fl fl'))) \/
    (r = -1 /\ 0 < n /\ s' = with_mem s k /\ (length fl < 3 * (npages (p_sz p + n) - npages (p_sz p)))%nat /\
     exists fl', rolled_back (km s) k (p_pagetable p) frames [] fl fl')).
Proof.
  intros Hp Hus Hlen Hsz Hnew. rewrite TRAPFRAME_eq in Hsz, Hnew. unfold growproc. apply wp_bind. eapply wp_getproc; [exact Hp|].
  rewrite u64_small by lia. rewrite Z.gtb_ltb. destruct (Z.ltb_spec 0 n) as [Hn|Hn]; [|destruct (Z.ltb_spec n 0) as [Hn'|Hn']].
  - apply wp_bind, wp_liftM. eapply wp_mono; [apply (wp_uvmalloc _ _ _ PTE_W _ _ _ Hus Hlen); [lia|rewrite TRAPFRAME_eq; lia|done]|].
    cbv beta. intros r k [(-> & new & fl' & Hl & Hg)|(-> & Hs & Hrb)].
    + destruct (Z.eqb_spec (p_sz p + n) 0); [lia|]. apply wp_bind. eapply wp_setproc; [exact Hp|]. apply wp_ret. exists k. left. split_and!; [done|done|].
      left. split; [done|]. by exists new, fl'.
    + apply wp_ret. exists k. right. by split_and!.
  - apply wp_bind, wp_liftM. eapply wp_mono; [apply (wp_uvmdealloc _ _ _ _ _ _ Hus Hlen); [lia|rewrite TRAPFRAME_eq; lia]|].
    cbv beta. intros r k (-> & Hk & Hc & _). apply wp_bind. eapply wp_setproc; [exact Hp|]. apply wp_ret. exists k. left. split_and!; [done|done|].
    right. split; [lia|]. done.
  - assert (n = 0) as -> by lia. apply wp_bind. eapply wp_setproc; [exact Hp|]. apply wp_ret. exists (km s). left. rewrite Z.add_0_r. split_and!; [done|by destruct s|].
    right. split; [done|]. cbv zeta. rewrite <- Hlen, take_ge, drop_ge by lia. rewrite reverse_nil, app_nil_l.
    split; [done|]. unfold conserves. reflexivity.
Qed.

(** [growproc] with a decrement larger than the size of the process: the new
    size wraps around, [uvmdealloc] takes it for a growth, and the call reports
    success with nothing changed. *)
Theorem growproc_underflow me n s p :
  procs s !! me = Some p -> 0 <= p_sz p <= TRAPFRAME -> - 2 ^ 31 <= n -> p_sz p + n < 0 ->
  growproc me n s = Ret (0, s).
Proof.
  intros Hp Hsz Hn Hneg. rewrite TRAPFRAME_eq in Hsz. assert (Hw : u64 (p_sz p + n) = p_sz p + n + 2 ^ 64).
  { unfold u64. rewrite <- (Z.mod_add _ 1) by lia. apply Z.mod_small. lia. }
  assert (H1 : wp (growproc me n) s (fun r s' => r = 0 /\ s' = s)).
  { unfold growproc. apply wp_bind. eapply wp_getproc; [exact Hp|]. rewrite Z.gtb_ltb. destruct (Z.ltb_spec 0 n); [lia|]. destruct (Z.ltb_spec n 0); [|lia].
    apply wp_bind, wp_liftM. rewrite Hw. unfold uvmdealloc. rewrite Z.geb_leb, (proj2 (Z.leb_le _ _)) by lia. apply wp_ret.
    apply wp_bind. eapply wp_setproc; [exact Hp|]. apply wp_ret. split; [done|]. unfold with_procs, with_mem. cbn.
    rewrite list_insert_id; [by destruct s|]. rewrite Hp. by destruct p. }
  destruct (wp_inv _ _ _ H1) as (r & s' & E & -> & ->). done.
Qed.

(** ** sysinfo *)

(** The trap frame of a process is a page of memory. *)
Lemma wp_argraw me n p s (Q : Z -> kern S -> Prop) : procs s !! me = Some p -> page_ok (p_trapframe p) -> 0 <= n <= 5 ->
  Q (ld64 (mem (km s)) (p_trapframe p + tf_a0 + 8 * n)) s -> wp (argraw me n) s Q.
Proof.
  intros Hp Hok Hn HQ. unfold argraw. apply wp_bind. eapply wp_getproc; [exact Hp|].
  rewrite (proj2 (Z.leb_le 0 n)), (proj2 (Z.leb_le n 5)) by lia. cbn [andb]. apply wp_liftM, wp_rd64; [|by destruct s].
  apply (page_ok_in_ram (p_trapframe p)); [done|..]; unfold tf_a0, PGSIZE; lia.
Qed.

Lemma wp_args me p s (Q : (nat -> Z) -> kern S -> Prop) : procs s !! me = Some p -> page_ok (p_trapframe p) ->
  (forall a, a 0%nat = ld64 (mem (km s)) (p_trapframe p + tf_a0) -> Q a s) -> wp (args me) s Q.
Proof.
  intros Hp Hok HQ. unfold args. apply wp_bind. eapply wp_argraw; [done|done|lia|]. apply wp_bind. eapply wp_argraw; [done|done|lia|].
  apply wp_bind. eapply wp_argraw; [done|done|lia|]. apply wp_ret, HQ. by rewrite Z.add_0_r.
Qed.

(** How many processes there are. *)
Definition nprocs s : Z := Z.of_nat (length (filter (fun p => p_state p <> UNUSED) (procs s))).

(** [sys_sysinfo] stores in user memory the number of bytes in the free list,
    a page for each free page, and the number of table entries in use, and
    returns 0; if the sixteen bytes are not all mapped it returns -1.  Nothing but
    the user's memory changes. *)
Theorem sys_sysinfo_correct me s p frames fl :
  procs s !! me = Some p -> page_ok (p_trapframe p) -> user_space (km s) (p_pagetable p) frames fl ->
  let addr := ld64 (mem (km s)) (p_trapframe p + tf_a0) in
  wp (sys_sysinfo me) s (fun r s' => exists k, s' = with_mem s k /\
    copied_out (km s) k (p_pagetable p) frames fl addr (sysinfo_bytes (PGSIZE * Z.of_nat (length fl)) (nprocs s))
      (match r with Some v => v | None => 1 end)).
Proof.
  intros Hp Htf Hus addr. assert (Ha : 0 <= addr < 2 ^ 64) by apply ld64_range. unfold sys_sysinfo. apply wp_bind. eapply wp_args; [done|done|]. intros a Ea.
  apply wp_bind, wp_liftM. assert (Hfl : free_list (km s) fl) by apply Hus.
  eapply wp_eq; [by apply get_free_mem_eq|]. apply wp_bind. unfold get_proc_num. apply wp_bind, wp_gets, wp_ret. fold (nprocs (with_mem s (km s))).
  apply wp_bind. eapply wp_getproc; [exact Hp|]. unfold argaddr. rewrite Ea. fold addr. apply wp_bind, wp_liftM.
  eapply wp_mono; [by apply (wp_copyout _ _ _ _ _ _ Hus)|]. intros r k Hc. apply wp_ret. exists k. split; [done|].
  change (nprocs (with_mem s (km s))) with (nprocs s) in Hc. assert (Hr : (if r <? 0 then -1 else 0) = r); [|by rewrite Hr].
  destruct Hc as (_ & _ & _ & _ & Hr). destruct (umapped _ _ _ _); [by destruct Hr as [-> _]|by rewrite Hr].
Qed.

(** ** Dispatch *)

Context (dev_read dev_write : Z -> option (Z -> Z -> M (kfs S vmem) Z)) (junk pad : list Z) (page : option (list Z)).

Lemma syscalls_total me ticks ticks0 num :
  is_Some (syscalls forkret proc_addr dev_read dev_write junk pad page me ticks ticks0 num) <-> 1 <= num <= 23.
Proof.
  unfold syscalls. split.
  - intros Hs. destruct (decide (1 <= num <= 23)) as [|Hn]; [done|]. exfalso.
    assert (Hne : forall c, 1 <= c <= 23 -> (num =? c) = false) by (intros c Hc; apply Z.eqb_neq; intros ->; done).
    rewrite !Hne in Hs by (split; vm_compute; discriminate). by destruct Hs.
  - intros Hn. assert (Hc : num = 1 \/ num = 2 \/ num = 3 \/ num = 4 \/ num = 5 \/ num = 6 \/ num = 7 \/ num = 8 \/ num = 9 \/ num = 10 \/ num = 11 \/ num = 12 \/
      num = 13 \/ num = 14 \/ num = 15 \/ num = 16 \/ num = 17 \/ num = 18 \/ num = 19 \/ num = 20 \/ num = 21 \/ num = 22 \/ num = 23) by lia.
    repeat destruct Hc as [->|Hc]; [by eexists..|]. subst. by eexists.
Qed.

Notation sysc := (syscall forkret proc_addr dev_read dev_write junk pad page).
Notation handler := (syscalls forkret proc_addr dev_read dev_write junk pad page).

(** The state with [a0] of the process set. *)
Definition with_a0 s p (v : Z) : kern S := with_mem s (Kst (st64 (mem (km s)) (p_trapframe p + tf_a0) v) (freelist (km s))).

(** [syscall] calls the handler of the number in [a7] and puts its value in
    [a0]; it prints a trace line exactly if the bit of the number is set in the
    trace mask.  A number outside 1..23 has no handler: [a0] becomes -1 and
    nothing else changes. *)
Theorem syscall_dispatch me ticks ticks0 s p :
  procs s !! me = Some p -> page_ok (p_trapframe p) ->
  let num := s32 (ld64 (mem (km s)) (p_trapframe p + tf_a7)) in
  match handler me ticks ticks0 num with
  | None => ~ (1 <= num <= 23) /\ sysc me ticks ticks0 s = Ret (Some (Unknown (p_pid p) num), with_a0 s p (2 ^ 64 - 1))
  | Some h => 1 <= num <= 23 /\ forall r s1 q, h s = Ret (Some r, s1) -> procs s1 !! me = Some q ->
      sysc me ticks ticks0 s = Ret (Some (if Z.testbit (u32 (p_tracemask q)) num then Traced (p_pid q) num r else Quiet), with_a0 s1 p (u64 r))
  end.
Proof.
  intros Hp Htf num. pose proof (syscalls_total me ticks ticks0 num) as Ht.
  assert (Hr : forall o, 0 <= o -> o + 8 <= PGSIZE -> in_ram (p_trapframe p + o) 8 = true) by (intros o H1 H2; apply (page_ok_in_ram (p_trapframe p)); [done|lia|lia]).
  assert (Hld : forall s, procs s !! me = Some p -> getproc me s = Ret (p, s)) by (intros s0 E; unfold getproc; by rewrite E).
  assert (Hsys : forall x, (match handler me ticks ticks0 num with Some h => (r <- h;; match r with None => ret None | Some r =>
      liftM (wr64 (p_trapframe p + tf_a0) (u64 r));; p <- getproc me;;
      ret (Some (if ctrue (Z.land (Z.shiftl 1 num) (u32 (p_tracemask p))) then Traced (p_pid p) num r else Quiet)) end)
    | None => liftM (wr64 (p_trapframe p + tf_a0) (u64 (-1)));; ret (Some (Unknown (p_pid p) num)) end) s = x -> sysc me ticks ticks0 s = x).
  { intros x <-. unfold syscall. rewrite (bind_ret_eq _ _ _ _ _ (Hld s Hp)). unfold liftM at 1, bind at 1. unfold rd64. rewrite Hr by done. cbn [mem]. by destruct s. }
  assert (Hwr : forall s v, liftM (wr64 (p_trapframe p + tf_a0) v) s = Ret (tt, with_a0 s p v)) by (intros s0 v; unfold liftM, wr64; by rewrite Hr).
  destruct (handler me ticks ticks0 num) as [h|] eqn:Eh.
  - split; [apply Ht; by eexists|]. intros r s1 q E1 Hq. apply Hsys. rewrite (bind_ret_eq _ _ _ _ _ E1), (bind_ret_eq _ _ _ _ _ (Hwr _ _)).
    rewrite (bind_ret_eq _ _ _ q (with_a0 s1 p (u64 r))) by (unfold getproc; cbn; by rewrite Hq). unfold ret. do 3 f_equal.
    assert (Hn : 0 <= num) by (destruct (proj1 Ht); [by eexists|lia]).
    unfold ctrue. by rewrite Z.land_comm, land_bit, negb_involutive by done.
  - split; [rewrite <- Ht; by intros [? ?]|]. apply Hsys. by rewrite (bind_ret_eq _ _ _ _ _ (Hwr _ _)).
Qed.
End Calls.

(** A process with one page of memory and its trap frame in another. *)
#[local] Existing Instance store0.
Definition proc_at (pt sz tf : Z) : proc := set_p_trapframe tf (set_p_sz sz (set_p_pagetable pt (set_p_pid 7 (set_p_state RUNNING proc0)))).
Definition kern0 (st : lst bst) (k : kst) (pt sz tf : Z) : kern (lst bst) := Kern k [proc_at pt sz tf; proc0] (Some 0%nat) 8 (Fsys st sb0 [] 0) [] [].

Lemma growproc_correct_witness : exists (st : lst bst) s p fl,
  wp (growproc 0 (-50)) (kern0 st s (pg 0) 100 0) (fun r _ => r = 0) /\ uspace s (pg 0) [p] fl.
Proof.
  destruct fsdisk_idle as (st & w & Hid). destruct space1 as (s & p & fl & _ & Hus & Hp & Hne & _). destruct Hus as [Hus _]. exists st, s, p, fl. split; [|exact Hus].
  eapply wp_mono; [apply (growproc_correct 0 (-50) (kern0 st s (pg 0) 100 0) (proc_at (pg 0) 100 0) [p] fl);
    [reflexivity|exact Hus|reflexivity|rewrite TRAPFRAME_eq; cbn; lia|rewrite TRAPFRAME_eq; cbn; lia]|].
  intros r s' (k & [(-> & _)|(_ & Hn & _)]); [done|lia].
Defined.

Lemma growproc_underflow_witness : exists (st : lst bst), growproc 0 (-200) (kern0 st state0 (pg 0) 100 0) = Ret (0, kern0 st state0 (pg 0) 100 0).
Proof.
  destruct fsdisk_idle as (st & w & Hid). exists st.
  apply (growproc_underflow 0 (-200) _ (proc_at (pg 0) 100 0)); [reflexivity|rewrite TRAPFRAME_eq; cbn; lia|lia|cbn; lia].
Defined.

Lemma sys_sysinfo_correct_witness : exists (st : lst bst) s p fl,
  let addr := ld64 (mem s) (pg 7 + tf_a0) in
  wp (sys_sysinfo 0) (kern0 st s (pg 0) 100 (pg 7)) (fun r s' => exists k, s' = with_mem (kern0 st s (pg 0) 100 (pg 7)) k /\
    copied_out s k (pg 0) [p] fl addr (sysinfo_bytes (PGSIZE * Z.of_nat (length fl)) 1) (match r with Some v => v | None => 1 end)).
Proof.
  destruct fsdisk_idle as (st & w & Hid). destruct space1 as (s & p & fl & _ & Hus & Hp & Hne & _). exists st, s, p, fl.
  apply (sys_sysinfo_correct 0 (kern0 st s (pg 0) 100 (pg 7)) (proc_at (pg 0) 100 (pg 7)) [p] fl); [reflexivity|split; [reflexivity|split; vm_compute; congruence]|exact Hus].
Defined.

(** Process 7 calls [getpid], with the bit of 11 in its trace mask. *)
Definition getpid_mem : kst := Kst (st64 mem0 (pg 7 + tf_a7) SYS_getpid) (pg 1).
Definition getpid_proc : proc := set_p_tracemask 2048 (proc_at (pg 0) 100 (pg 7)).
Definition getpid_kern (st : lst bst) : kern (lst bst) := Kern getpid_mem [getpid_proc] (Some 0%nat) 8 (Fsys st sb0 [] 0) [] [].

Lemma syscall_dispatch_witness : exists (st : lst bst),
  syscall 0 (fun _ => 0) (fun _ => None) (fun _ => None) [] [] None 0 0 0 (getpid_kern st) =
  Ret (Some (Traced 7 11 7), with_a0 (getpid_kern st) getpid_proc 7).
Proof.
  destruct fsdisk_idle as (st & w & Hid). exists st. assert (Htf : page_ok (p_trapframe getpid_proc)) by (split; [reflexivity|split; vm_compute; congruence]).
  pose proof (syscall_dispatch 0 (fun _ => 0) (fun _ => None) (fun _ => None) [] [] None 0 0 0 (getpid_kern st) getpid_proc eq_refl Htf) as Hd. cbv zeta in Hd.
  replace (s32 (ld64 (mem (km (getpid_kern st))) (p_trapframe getpid_proc + tf_a7))) with 11 in Hd by (vm_compute; reflexivity).
  exact (proj2 Hd 7 (getpid_kern st) getpid_proc eq_refl eq_refl).
Defined.
