(* ===== verification/SleepWakeup.v ===== *)
(** * sleep and wakeup of kernel/proc.c

    Processes that wait for a condition under a lock [lk], and processes that
    make it true and call [wakeup], as the comments of proc.c tell to use
    them.  Every lock operation and every access to [p->state] is a step of its
    own, on any number of CPUs, so that [sleep]'s order of taking [p->lock]
    before it gives up [lk] is what the proof is about. *)
From S2P Require Import Prelude Spinlock.

(** Where a process is.  The waiter: [while(!cond) sleep(chan, lk)] from
    [acquire(lk)] on, with the steps of [sleep]; the waker: [acquire(lk)], the
    store, the loop of [wakeup] at entry [i], [release(lk)]. *)
Inductive place : Type :=
| Away                 (* holds nothing *)
| Check                (* holds lk, about to test the condition *)
| Sleep1               (* in sleep, holds lk, about to acquire p->lock *)
| Sleep2               (* holds both, about to release lk *)
| Sleep3               (* holds p->lock, about to set p->chan and p->state *)
| Sleep4               (* SLEEPING, about to give up p->lock in the scheduler *)
| Switched             (* not on a CPU *)
| Sleep5               (* resumed with p->lock held by the scheduler's acquire *)
| Sleep6               (* about to reacquire lk *)
| Passed               (* holds lk, found the condition true *)
| Store                (* holds lk, about to make the condition true *)
| Loop (i : nat)       (* in wakeup, holds lk, about to acquire the lock of entry i *)
| Test (i : nat)       (* holds lk and the lock of entry i *)
| Leave.               (* about to release lk *)

Record sys : Type := Sys {
  at_ : nat -> place;
  cond : bool;
  lk : option nat;             (* who holds lk *)
  plock : nat -> option nat;   (* who holds the lock of an entry *)
  asleep : nat -> bool;        (* state == SLEEPING, on our channel *)
}.

Inductive sstep (n : nat) : sys -> sys -> Prop :=
| ss_wait_acquire P c l PL A me : P me = Away -> l = None -> (me < n)%nat -> sstep n (Sys P c l PL A) (Sys (upd P me Check) c (Some me) PL A)
| ss_check P c l PL A me : P me = Check -> sstep n (Sys P c l PL A) (Sys (upd P me (if c then Passed else Sleep1)) c l PL A)
| ss_sleep1 P c l PL A me : P me = Sleep1 -> PL me = None -> sstep n (Sys P c l PL A) (Sys (upd P me Sleep2) c l (upd PL me (Some me)) A)
| ss_sleep2 P c l PL A me : P me = Sleep2 -> sstep n (Sys P c l PL A) (Sys (upd P me Sleep3) c None PL A)
| ss_sleep3 P c l PL A me : P me = Sleep3 -> sstep n (Sys P c l PL A) (Sys (upd P me Sleep4) c l PL (upd A me true))
| ss_sleep4 P c l PL A me : P me = Sleep4 -> sstep n (Sys P c l PL A) (Sys (upd P me Switched) c l (upd PL me None) A)
| ss_resume P c l PL A me : P me = Switched -> A me = false -> PL me = None -> sstep n (Sys P c l PL A) (Sys (upd P me Sleep5) c l (upd PL me (Some me)) A)
| ss_sleep5 P c l PL A me : P me = Sleep5 -> sstep n (Sys P c l PL A) (Sys (upd P me Sleep6) c l (upd PL me None) A)
| ss_sleep6 P c l PL A me : P me = Sleep6 -> l = None -> sstep n (Sys P c l PL A) (Sys (upd P me Check) c (Some me) PL A)
(** A waiter that got through may consume the condition before it releases. *)
| ss_pass P c l PL A me c' : P me = Passed -> (c' = true -> c = true) -> sstep n (Sys P c l PL A) (Sys (upd P me Leave) c' l PL A)
| ss_wake_acquire P c l PL A me : P me = Away -> l = None -> sstep n (Sys P c l PL A) (Sys (upd P me Store) c (Some me) PL A)
| ss_store P c l PL A me : P me = Store -> sstep n (Sys P c l PL A) (Sys (upd P me (Loop 0)) true l PL A)
| ss_skip P c l PL A me : P me = Loop me -> sstep n (Sys P c l PL A) (Sys (upd P me (Loop (S me))) c l PL A)
| ss_loop P c l PL A me i : P me = Loop i -> i <> me -> (i < n)%nat -> PL i = None -> sstep n (Sys P c l PL A) (Sys (upd P me (Test i)) c l (upd PL i (Some me)) A)
| ss_test P c l PL A me i : P me = Test i -> sstep n (Sys P c l PL A) (Sys (upd P me (Loop (S i))) c l (upd PL i None) (upd A i false))
| ss_end P c l PL A me i : P me = Loop i -> (n <= i)%nat -> sstep n (Sys P c l PL A) (Sys (upd P me Leave) c l PL A)
| ss_leave P c l PL A me : P me = Leave -> sstep n (Sys P c l PL A) (Sys (upd P me Away) c None PL A).

Definition sys_init (c : bool) : sys := Sys (fun _ => Away) c None (fun _ => None) (fun _ => false).
Definition sreachable (n : nat) (c : bool) : sys -> Prop := rtc (sstep n) (sys_init c).

(** What a place holds. *)
Definition has_lk (p : place) : bool :=
  match p with Check | Sleep1 | Sleep2 | Passed | Store | Loop _ | Test _ | Leave => true | _ => false end.
Definition has_own (p : place) : bool := match p with Sleep2 | Sleep3 | Sleep4 | Sleep5 => true | _ => false end.
(** Committed to sleep and not woken. *)
Definition dozing (s : sys) (j : nat) : Prop := at_ s j = Sleep3 \/ at_ s j = Sleep4 \/ at_ s j = Switched /\ asleep s j = true.
(** In the middle of a [wakeup] that has entry [j] still ahead of it. *)
Definition coming (s : sys) (k j : nat) : Prop := exists i, (i <= j)%nat /\ (at_ s k = Loop i \/ at_ s k = Test i).

Record wake_inv (n : nat) (s : sys) : Prop := WakeInv {
  wi_lk : forall j, has_lk (at_ s j) = true <-> lk s = Some j;
  wi_own : forall j, has_own (at_ s j) = true -> plock s j = Some j;
  wi_test : forall k i, at_ s k = Test i -> plock s i = Some k /\ i <> k;
  wi_bound : forall j, has_own (at_ s j) = true \/ at_ s j = Switched \/ at_ s j = Sleep1 \/ at_ s j = Check \/ at_ s j = Sleep6 -> (j < n)%nat;
  wi_false : forall j, at_ s j = Sleep1 \/ at_ s j = Sleep2 -> cond s = false;
  wi_main : forall j, cond s = true -> dozing s j -> exists k, coming s k j;
}.

(** Case analysis on whether a process is the one that moves. *)
Ltac at_case j me := destruct (decide (j = me)) as [->|]; [rewrite ?(upd_eq _ me) in *|rewrite ?(upd_ne _ me j) in * by done].

(** The place the process moves from, in a hypothesis. *)
Ltac from_in H := repeat match goal with E : ?P ?j = ?x |- _ => match type of x with place => rewrite E in H end end.

Lemma lk_step n s s' : sstep n s s' -> (forall j, has_lk (at_ s j) = true <-> lk s = Some j) -> forall j, has_lk (at_ s' j) = true <-> lk s' = Some j.
Proof.
  intros Hst Hlk j. destruct Hst; cbn in *; pose proof (Hlk me) as Hm; pose proof (Hlk j) as Hj; from_in Hm; at_case j me;
    cbn in *; try destruct c; cbn in *; naive_solver congruence.
Qed.

Lemma own_step n s s' : sstep n s s' -> wake_inv n s -> forall j, has_own (at_ s' j) = true -> plock s' j = Some j.
Proof.
  intros Hst [Hlk Ho Ht _ _ _] j. destruct Hst; cbn in *; pose proof (Ho me) as Hm; pose proof (Ho j) as Hj; from_in Hm.
  14: { destruct (decide (j = i)) as [->|Hji]; [rewrite upd_ne by done; intros Hi; specialize (Hj Hi); congruence|].
        rewrite (upd_ne PL) by done. destruct (decide (j = me)) as [->|]; [rewrite upd_eq; done|by rewrite upd_ne]. }
  14: { destruct (Ht _ _ H) as [Hi Hne]. destruct (decide (j = i)) as [->|Hji]; [rewrite upd_ne by done; intros Hi'; specialize (Hj Hi'); congruence|].
        rewrite (upd_ne PL) by done. destruct (decide (j = me)) as [->|]; [rewrite upd_eq; done|by rewrite upd_ne]. }
  all: at_case j me; cbn in *; try destruct c; first [done|exact Hj|exact (fun _ => Hm eq_refl)].
Qed.

Lemma test_step n s s' : sstep n s s' -> wake_inv n s -> forall k i, at_ s' k = Test i -> plock s' i = Some k /\ i <> k.
Proof.
  intros Hst [Hlk Ho Ht _ _ _] k x. destruct Hst; cbn in *; pose proof (Ho me) as Hm; pose proof (Ht k x) as Hk; from_in Hm; at_case k me; try done; try (by destruct c).
  all: try (intros [= <-]; rewrite upd_eq; done).
  all: intros E; destruct (Hk E) as [Hx Hne]; split; [|done].
  all: try specialize (Hm eq_refl).
  all: try (rewrite upd_ne; [done|congruence]).
  destruct (Ht _ _ H) as [Hi _]. rewrite upd_ne; [done|congruence].
Qed.

Lemma bound_step n s s' : sstep n s s' -> wake_inv n s -> forall j,
  has_own (at_ s' j) = true \/ at_ s' j = Switched \/ at_ s' j = Sleep1 \/ at_ s' j = Check \/ at_ s' j = Sleep6 -> (j < n)%nat.
Proof.
  intros Hst [_ _ _ Hb _ _] j. destruct Hst; cbn in *; pose proof (Hb me) as Hm; pose proof (Hb j) as Hj; from_in Hm; at_case j me; cbn in *; try exact Hj; try done.
  all: try destruct c; intros Hp; first [apply Hm; tauto|decompose [or] Hp; done].
Qed.

Lemma false_step n s s' : sstep n s s' -> wake_inv n s -> forall j, at_ s' j = Sleep1 \/ at_ s' j = Sleep2 -> cond s' = false.
Proof.
  intros Hst [Hlk _ _ _ Hf _] j. destruct Hst; cbn in *; pose proof (Hf me) as Hm; pose proof (Hf j) as Hj; from_in Hm; at_case j me; cbn in *; try exact Hj.
  all: try (destruct c; intros [|]; done || (apply Hm; tauto)).
  all: try (intros [|]; done || (apply Hm; tauto)).
  all: intros Hp; exfalso; assert (Hh : has_lk (P j) = true) by (by destruct Hp as [->| ->]); apply Hlk in Hh; pose proof (Hlk me) as Hl; rewrite H in Hl;
    pose proof (proj1 Hl eq_refl); congruence.
Qed.

(** A [wakeup] under way stays under way when another process moves, or the
    process moves on to a place where entry [j] is still ahead. *)
Lemma coming_upd P c l PL A c' l' PL' A' me p k j :
  coming (Sys P c l PL A) k j -> (k = me -> exists i, (i <= j)%nat /\ (p = Loop i \/ p = Test i)) -> coming (Sys (upd P me p) c' l' PL' A') k j.
Proof.
  intros (i & Hi & Hk) Hp. destruct (decide (k = me)) as [->|Hne].
  - destruct (Hp eq_refl) as (i' & Hi' & ?). exists i'. cbn. by rewrite upd_eq.
  - exists i. cbn in *. by rewrite upd_ne.
Qed.

(** A process that dozes after a step dozed before it, or has just released
    [lk]. *)
Lemma dozing_step n s s' j : sstep n s s' -> dozing s' j -> dozing s j \/ at_ s j = Sleep2.
Proof.
  intros Hst. unfold dozing. destruct Hst; cbn in *; at_case j me; rewrite ?H; try tauto; try (destruct c); try naive_solver.
  all: destruct (decide (j = i)) as [->|Hne]; [rewrite upd_eq|rewrite upd_ne by done]; naive_solver.
Qed.

Lemma dozing_bound n s j : wake_inv n s -> dozing s j -> (j < n)%nat.
Proof. intros Hw Hd. apply (wi_bound n s Hw). destruct Hd as [-> |[-> |[-> _]]]; cbn; tauto. Qed.

Lemma main_step n s s' : sstep n s s' -> wake_inv n s -> forall j, cond s' = true -> dozing s' j -> exists k, coming s' k j.
Proof.
  intros Hst Hw j Hc Hd.
  assert (Hnew : cond s = true -> exists k, coming s k j).
  { intros Hc0. apply (wi_main n s Hw j Hc0). destruct (dozing_step n s s' j Hst Hd) as [|H2]; [done|].
    rewrite (wi_false n s Hw j (or_intror H2)) in Hc0. done. }
  pose proof (dozing_step n s s' j Hst Hd) as Hd0. pose proof (dozing_bound n s j Hw) as Hb.
  destruct Hst; cbn in Hc; subst.
  12: { exists me, 0%nat. cbn. rewrite upd_eq. split; [lia|tauto]. }
  all: destruct Hnew as [k Hk]; [try done; by (cbn; auto)|]; exists k; eapply coming_upd; [exact Hk|intros ->]; destruct Hk as (i0 & Hi & Hk); cbn in Hk.
  all: try (destruct Hk as [Hk|Hk]; rewrite H in Hk; try discriminate Hk; try injection Hk as <-).
  - exists (S me). split; [|by left]. enough (me <> j) by lia. intros <-. unfold dozing in Hd0. cbn in Hd0. rewrite H in Hd0. naive_solver.
  - exists i. by split; [|right].
  - exists (S i). split; [|by left]. enough (i <> j) by lia. intros <-. destruct (wi_test _ _ Hw me i H) as [Hp Hne].
    unfold dozing in Hd. cbn in *. rewrite upd_ne, upd_eq in Hd by done. assert (Ho := wi_own _ _ Hw i). cbn in Ho.
    destruct Hd as [Hd|[Hd|[_ ?]]]; [..|done]; rewrite Hd in Ho; specialize (Ho eq_refl); congruence.
  - exfalso. destruct Hd0 as [Hd0|Hd0]; [specialize (Hb Hd0); lia|]. cbn in Hd0.
    assert (Hx := wi_bound _ _ Hw j). cbn in Hx. rewrite Hd0 in Hx. specialize (Hx (or_introl eq_refl)). lia.
Qed.

Lemma wake_inv_step n s s' : sstep n s s' -> wake_inv n s -> wake_inv n s'.
Proof.
  intros Hst Hw. split; [eapply lk_step, (wi_lk _ _ Hw)|eapply own_step|eapply test_step|eapply bound_step|eapply false_step|eapply main_step]; eauto.
Qed.

Lemma wake_inv_init n c : wake_inv n (sys_init c).
Proof. split; cbn; unfold dozing; cbn; naive_solver. Qed.

Lemma wake_inv_reachable n c s : sreachable n c s -> wake_inv n s.
Proof.
  unfold sreachable. intros Hr. pose proof (wake_inv_init n c) as Hi. induction Hr as [|x y z Hst _ IH]; [done|].
  apply IH. by apply (wake_inv_step n x).
Qed.

(** C20: no wakeup is lost.  In every interleaving of any number of waiters and
    wakers, whenever the condition is true and a process is asleep on the
    channel, or has given up [lk] on its way to sleep, the holder of [lk] is a
    process in the loop of [wakeup] that has the sleeper's entry still ahead of
    it.  So once [lk] is free and the condition true, nobody sleeps. *)
Theorem sleep_no_lost_wakeup n c s j :
  sreachable n c s -> cond s = true -> dozing s j -> exists k, lk s = Some k /\ coming s k j.
Proof.
  intros Hr Hc Hd. pose proof (wake_inv_reachable n c s Hr) as Hw. destruct (wi_main n s Hw j Hc Hd) as [k Hk].
  exists k. split; [|done]. apply (wi_lk n s Hw). destruct Hk as (i & _ & [-> | ->]); done.
Qed.

(** Process 0 has gone to sleep and process 1 has made the condition true. *)
Definition woken0 : sys :=
  let P1 := upd (upd (upd (upd (upd (upd (fun _ => Away) 0%nat Check) 0%nat Sleep1) 0%nat Sleep2) 0%nat Sleep3) 0%nat Sleep4) 0%nat Switched in
  Sys (upd (upd P1 1%nat Store) 1%nat (Loop 0)) true (Some 1%nat) (upd (upd (fun _ => None) 0%nat (Some 0%nat)) 0%nat None) (upd (fun _ => false) 0%nat true).

Lemma sleep_no_lost_wakeup_witness : sreachable 2 false woken0 /\ dozing woken0 0 /\ exists k, lk woken0 = Some k /\ coming woken0 k 0.
Proof.
  assert (Hr : sreachable 2 false woken0).
  { unfold sreachable, sys_init, woken0.
    eapply rtc_l; [apply (ss_wait_acquire 2 _ _ _ _ _ 0); [done|done|lia]|].
    eapply rtc_l; [apply (ss_check 2 _ _ _ _ _ 0); done|]. eapply rtc_l; [apply (ss_sleep1 2 _ _ _ _ _ 0); done|].
    eapply rtc_l; [apply (ss_sleep2 2 _ _ _ _ _ 0); done|]. eapply rtc_l; [apply (ss_sleep3 2 _ _ _ _ _ 0); done|].
    eapply rtc_l; [apply (ss_sleep4 2 _ _ _ _ _ 0); done|]. eapply rtc_l; [apply (ss_wake_acquire 2 _ _ _ _ _ 1); done|].
    eapply rtc_l; [apply (ss_store 2 _ _ _ _ _ 1); done|]. apply rtc_refl. }
  assert (Hd : dozing woken0 0) by (right; right; split; reflexivity).
  split; [exact Hr|]. split; [exact Hd|]. apply (sleep_no_lost_wakeup 2 false woken0 0 Hr eq_refl Hd).
Defined.
