(* ===== verification/Hart.v ===== *)
(** * A RISC-V hart

    The part of the machine that kernel/trampoline.S, kernelvec.S, swtch.S,
    entry.S and the inline assembly of kernel/riscv.h use: the integer
    registers, the control and status registers, the three privilege modes,
    Sv39 translation, traps and the returns from them.  Memory is physical
    memory; [sfence.vma] does nothing since translations are never cached. *)
From S2P Require Import Prelude Riscv Mem.

Inductive reg : Type :=
| RA | SP | GP | TP | T0 | T1 | T2 | S0 | S1
| A0 | A1 | A2 | A3 | A4 | A5 | A6 | A7
| S2 | S3 | S4 | S5 | S6 | S7 | S8 | S9 | S10 | S11
| T3 | T4 | T5 | T6.
#[export] Instance reg_eq_dec : EqDecision reg.
Proof. solve_decision. Defined.

Inductive csr : Type :=
| Mhartid | Mstatus | Mepc | Mtvec | Mscratch | Mie | Mip | Medeleg | Mideleg | Mcause
| Pmpcfg0 | Pmpaddr0
| Sstatus | Sie | Sip | Stvec | Sepc | Scause | Stval | Sscratch | Satp.
#[export] Instance csr_eq_dec : EqDecision csr.
Proof. solve_decision. Defined.

Inductive mode : Type := User | Supervisor | MachineMode.
#[export] Instance mode_eq_dec : EqDecision mode.
Proof. solve_decision. Defined.

Record hart : Type := Hart {
  regs : reg -> Z;
  csrs : csr -> Z;
  pmode : mode;
  hpc : Z;
  pmem : memory;
}.

Definition upd_reg (r : reg) (v : Z) (f : reg -> Z) : reg -> Z := fun r' => if decide (r' = r) then v else f r'.
Definition upd_csr (c : csr) (v : Z) (f : csr -> Z) : csr -> Z := fun c' => if decide (c' = c) then v else f c'.

Definition set_regs (f : (reg -> Z) -> reg -> Z) (h : hart) : hart := Hart (f (regs h)) (csrs h) (pmode h) (hpc h) (pmem h).
Definition set_csrs (f : (csr -> Z) -> csr -> Z) (h : hart) : hart := Hart (regs h) (f (csrs h)) (pmode h) (hpc h) (pmem h).
Definition set_mode (x : mode) (h : hart) : hart := Hart (regs h) (csrs h) x (hpc h) (pmem h).
Definition set_pc (x : Z) (h : hart) : hart := Hart (regs h) (csrs h) (pmode h) x (pmem h).
Definition set_pmem (x : memory) (h : hart) : hart := Hart (regs h) (csrs h) (pmode h) (hpc h) x.

(** ** Control and status registers

    [sstatus], [sie] and [sip] are views of the machine-mode registers. *)
Definition SSTATUS_SPP : Z := Z.shiftl 1 8.
Definition SSTATUS_SPIE : Z := Z.shiftl 1 5.
Definition SSTATUS_SIE : Z := Z.shiftl 1 1.
Definition MSTATUS_MPP_MASK : Z := Z.shiftl 3 11.
Definition MSTATUS_MPP_S : Z := Z.shiftl 1 11.
Definition MSTATUS_MIE : Z := Z.shiftl 1 3.
Definition SIE_SEIE : Z := Z.shiftl 1 9.
Definition SIE_STIE : Z := Z.shiftl 1 5.
Definition SIE_SSIE : Z := Z.shiftl 1 1.
Definition MIE_MTIE : Z := Z.shiftl 1 7.

(** Bits SIE, SPIE, UBE, SPP, VS, FS, XS, SUM, MXR, UXL and SD of [mstatus]. *)
Definition SSTATUS_VIEW : Z := 0x80000003000de762.
(** The supervisor bits of [mie]; of [mip] software can only write SSIP. *)
Definition SIE_VIEW : Z := 0x222.
Definition SIP_WRITE : Z := 0x2.

(** The bits of [old] outside [mask], those of [new] inside it. *)
Definition merge (mask old new : Z) : Z := Z.lor (Z.land old (Z.lnot mask)) (Z.land new mask).

Definition rd_csr (c : csr) (f : csr -> Z) : Z :=
  match c with
  | Sstatus => Z.land (f Mstatus) SSTATUS_VIEW
  | Sie => Z.land (f Mie) SIE_VIEW
  | Sip => Z.land (f Mip) SIE_VIEW
  | _ => f c
  end.
Definition wr_csr (c : csr) (v : Z) (f : csr -> Z) : csr -> Z :=
  match c with
  | Sstatus => upd_csr Mstatus (merge SSTATUS_VIEW (f Mstatus) v) f
  | Sie => upd_csr Mie (merge SIE_VIEW (f Mie) v) f
  | Sip => upd_csr Mip (merge SIP_WRITE (f Mip) v) f
  | _ => upd_csr c v f
  end.

(** ** Translation *)

Inductive access : Type := Load | Store.

(** The Sv39 walk of the hardware: an entry with a permission bit is a leaf, at
    any level. *)
Fixpoint mmu_walk (level : nat) (m : memory) (pt va : Z) : option (Z * Z) :=
  let e := ld64 m (pt + 8 * PX (Z.of_nat level) va) in
  if negb (ctrue (Z.land e PTE_V)) then None else
  if ctrue (Z.land e (Z.lor PTE_R (Z.lor PTE_W PTE_X)))
  then Some (e, PTE2PA e + va mod 2 ^ PXSHIFT (Z.of_nat level))
  else match level with
       | O => None
       | S l => mmu_walk l m (PTE2PA e) va
       end.

(** Supervisor mode may not touch user pages: xv6 leaves SUM clear. *)
Definition allowed (k : access) (e : Z) : bool :=
  ctrue (Z.land e match k with Load => PTE_R | Store => PTE_W end) && negb (ctrue (Z.land e PTE_U)).

(** The physical address of [va] for an access in mode [x]: machine mode is not
    translated, nor is supervisor mode while [satp] is 0.  A user access is
    never made by the code modelled here. *)
Definition xlate (k : access) (x : mode) (satp : Z) (m : memory) (va : Z) : option Z :=
  match x with
  | MachineMode => Some va
  | User => None
  | Supervisor =>
      if satp =? 0 then Some va else
      if negb ((0 <=? va) && (va <? MAXVA)) then None else
      match mmu_walk 2 m (Z.shiftl (satp mod 2 ^ 44) 12) va with
      | Some (e, pa) => if allowed k e then Some pa else None
      | None => None
      end
  end.

(** ** Instructions *)

Inductive instr : Type :=
| Sd (src : reg) (off : Z) (base : reg)
| Ld (dst : reg) (off : Z) (base : reg)
| Li (dst : reg) (v : Z)
| Addi (dst src : reg) (imm : Z)
| Add (dst src1 src2 : reg)
| Mul (dst src1 src2 : reg)
| Csrr (dst : reg) (c : csr)
| Csrw (c : csr) (src : reg)
| Csrrw (dst : reg) (c : csr) (src : reg)
| Sfence_vma
| Jr (src : reg)
| Sret
| Mret.

Definition getr (r : reg) : M hart Z := gets (fun h => regs h r).
Definition setr (r : reg) (v : Z) : M hart unit := modify (set_regs (upd_reg r v)).
Definition csrr (c : csr) : M hart Z := gets (fun h => rd_csr c (csrs h)).
Definition csrw (c : csr) (v : Z) : M hart unit := modify (set_csrs (wr_csr c v)).
(** Access to the doubleword at virtual address [va]. *)
Definition load64 (va : Z) : M hart Z :=
  fun h => match xlate Load (pmode h) (csrs h Satp) (pmem h) va with
           | Some pa => Ret (ld64 (pmem h) pa, h)
           | None => Fault
           end.
Definition store64 (va v : Z) : M hart unit :=
  fun h => match xlate Store (pmode h) (csrs h Satp) (pmem h) va with
           | Some pa => Ret (tt, set_pmem (st64 (pmem h) pa v) h)
           | None => Fault
           end.

Definition bit_at (i x : Z) : Z := Z.b2z (Z.testbit x i).
(** [x] with bit [i] replaced by [b]. *)
Definition set_bit_at (i : Z) (b : bool) (x : Z) : Z := if b then Z.lor x (Z.shiftl 1 i) else Z.land x (Z.lnot (Z.shiftl 1 i)).

(** [sret]: to the mode in SPP and the address in [sepc]; SIE takes SPIE, SPIE
    is set and SPP cleared. *)
Definition sret (h : hart) : hart :=
  let m := csrs h Mstatus in
  let x := if Z.testbit m 8 then Supervisor else User in
  let m := set_bit_at 8 false (set_bit_at 5 true (set_bit_at 1 (Z.testbit m 5) m)) in
  set_pc (csrs h Sepc) (set_mode x (set_csrs (upd_csr Mstatus m) h)).
(** [mret], with MPP in bits 11 and 12, MPIE in bit 7 and MIE in bit 3. *)
Definition mret (h : hart) : hart :=
  let m := csrs h Mstatus in
  let x := if Z.testbit m 12 then MachineMode else if Z.testbit m 11 then Supervisor else User in
  let m := set_bit_at 12 false (set_bit_at 11 false (set_bit_at 7 true (set_bit_at 3 (Z.testbit m 7) m))) in
  set_pc (csrs h Mepc) (set_mode x (set_csrs (upd_csr Mstatus m) h)).

Definition exec1 (i : instr) : M hart unit :=
  match i with
  | Sd src off base => b <- getr base;; v <- getr src;; store64 (u64 (b + off)) v
  | Ld dst off base => b <- getr base;; v <- load64 (u64 (b + off));; setr dst v
  | Li dst v => setr dst (u64 v)
  | Addi dst src imm => v <- getr src;; setr dst (u64 (v + imm))
  | Add dst src1 src2 => v <- getr src1;; w <- getr src2;; setr dst (u64 (v + w))
  | Mul dst src1 src2 => v <- getr src1;; w <- getr src2;; setr dst (u64 (v * w))
  | Csrr dst c => v <- csrr c;; setr dst v
  | Csrw c src => v <- getr src;; csrw c v
  | Csrrw dst c src => v <- getr src;; old <- csrr c;; csrw c v;; setr dst old
  | Sfence_vma => ret tt
  | Jr src => v <- getr src;; modify (set_pc v)
  | Sret => modify sret
  | Mret => modify mret
  end.

(** A run of instructions; only the last one of the sequences below jumps. *)
Fixpoint run_code (l : list instr) : M hart unit :=
  match l with
  | [] => ret tt
  | i :: l' => exec1 i;; run_code l'
  end.

(** ** Traps *)

(** A trap with cause [cause] and value [tval] that supervisor mode handles. *)
Definition trap_enter (cause tval : Z) : M hart unit :=
  modify (fun h =>
    let m := csrs h Mstatus in
    let m := set_bit_at 8 (bool_decide (pmode h = Supervisor)) (set_bit_at 1 false (set_bit_at 5 (Z.testbit m 1) m)) in
    set_pc (csrs h Stvec) (set_mode Supervisor
      (set_csrs (fun f => upd_csr Mstatus m (upd_csr Sepc (hpc h) (upd_csr Scause cause (upd_csr Stval tval f)))) h))).

(** A trap that machine mode handles. *)
Definition mtrap_enter (cause : Z) : M hart unit :=
  modify (fun h =>
    let m := csrs h Mstatus in
    let m := set_bit_at 12 (bool_decide (pmode h = MachineMode)) (set_bit_at 11 (bool_decide (pmode h <> User))
               (set_bit_at 3 false (set_bit_at 7 (Z.testbit m 3) m))) in
    set_pc (csrs h Mtvec) (set_mode MachineMode
      (set_csrs (fun f => upd_csr Mstatus m (upd_csr Mepc (hpc h) (upd_csr Mcause cause f))) h))).

(** ** kernel/riscv.h: access to the registers from C *)

Definition r_mhartid : M hart Z := csrr Mhartid.
Definition r_mstatus : M hart Z := csrr Mstatus.
Definition w_mstatus : Z -> M hart unit := csrw Mstatus.
Definition w_mepc : Z -> M hart unit := csrw Mepc.
Definition r_sstatus : M hart Z := csrr Sstatus.
Definition w_sstatus : Z -> M hart unit := csrw Sstatus.
Definition r_sip : M hart Z := csrr Sip.
Definition w_sip : Z -> M hart unit := csrw Sip.
Definition r_sie : M hart Z := csrr Sie.
Definition w_sie : Z -> M hart unit := csrw Sie.
Definition r_mie : M hart Z := csrr Mie.
Definition w_mie : Z -> M hart unit := csrw Mie.
Definition r_sepc : M hart Z := csrr Sepc.
Definition w_sepc : Z -> M hart unit := csrw Sepc.
Definition w_medeleg : Z -> M hart unit := csrw Medeleg.
Definition w_mideleg : Z -> M hart unit := csrw Mideleg.
Definition w_stvec : Z -> M hart unit := csrw Stvec.
Definition w_mtvec : Z -> M hart unit := csrw Mtvec.
Definition w_pmpcfg0 : Z -> M hart unit := csrw Pmpcfg0.
Definition w_pmpaddr0 : Z -> M hart unit := csrw Pmpaddr0.
Definition r_satp : M hart Z := csrr Satp.
Definition w_satp : Z -> M hart unit := csrw Satp.
Definition w_mscratch : Z -> M hart unit := csrw Mscratch.
Definition r_scause : M hart Z := csrr Scause.
Definition r_tp : M hart Z := getr TP.
Definition w_tp : Z -> M hart unit := setr TP.

Definition intr_on : M hart unit := x <- r_sstatus;; w_sstatus (Z.lor x SSTATUS_SIE).
Definition intr_off : M hart unit := x <- r_sstatus;; w_sstatus (Z.land x (u64 (Z.lnot SSTATUS_SIE))).
Definition intr_get : M hart bool := x <- r_sstatus;; ret (ctrue (Z.land x SSTATUS_SIE)).
