(* ===== verification/Asm.v ===== *)
(** * The assembly of the kernel

    kernel/trampoline.S, kernelvec.S, swtch.S and entry.S, instruction by
    instruction, and the lemmas that turn their long runs of loads and stores
    into one step each. *)
From S2P Require Import Prelude Riscv Mem Hart.

(** ** kernel/trampoline.S *)

Definition uservec : list instr := [
  Csrw Sscratch A0;
  Li A0 TRAPFRAME;
  Sd RA 40 A0; Sd SP 48 A0; Sd GP 56 A0; Sd TP 64 A0;
  Sd T0 72 A0; Sd T1 80 A0; Sd T2 88 A0;
  Sd S0 96 A0; Sd S1 104 A0;
  Sd A1 120 A0; Sd A2 128 A0; Sd A3 136 A0; Sd A4 144 A0; Sd A5 152 A0; Sd A6 160 A0; Sd A7 168 A0;
  Sd S2 176 A0; Sd S3 184 A0; Sd S4 192 A0; Sd S5 200 A0; Sd S6 208 A0; Sd S7 216 A0;
  Sd S8 224 A0; Sd S9 232 A0; Sd S10 240 A0; Sd S11 248 A0;
  Sd T3 256 A0; Sd T4 264 A0; Sd T5 272 A0; Sd T6 280 A0;
  Csrr T0 Sscratch;
  Sd T0 112 A0;
  Ld SP 8 A0;
  Ld TP 32 A0;
  Ld T0 16 A0;
  Ld T1 0 A0;
  Sfence_vma;
  Csrw Satp T1;
  Sfence_vma;
  Jr T0
].

Definition userret : list instr := [
  Sfence_vma;
  Csrw Satp A0;
  Sfence_vma;
  Li A0 TRAPFRAME;
  Ld RA 40 A0; Ld SP 48 A0; Ld GP 56 A0; Ld TP 64 A0;
  Ld T0 72 A0; Ld T1 80 A0; Ld T2 88 A0;
  Ld S0 96 A0; Ld S1 104 A0;
  Ld A1 120 A0; Ld A2 128 A0; Ld A3 136 A0; Ld A4 144 A0; Ld A5 152 A0; Ld A6 160 A0; Ld A7 168 A0;
  Ld S2 176 A0; Ld S3 184 A0; Ld S4 192 A0; Ld S5 200 A0; Ld S6 208 A0; Ld S7 216 A0;
  Ld S8 224 A0; Ld S9 232 A0; Ld S10 240 A0; Ld S11 248 A0;
  Ld T3 256 A0; Ld T4 264 A0; Ld T5 272 A0; Ld T6 280 A0;
  Ld A0 112 A0;
  Sret
].

(** ** kernel/kernelvec.S *)

(** [kernelvec] up to the call of [kerneltrap], and from its return. *)
Definition kernelvec_in : list instr := [
  Addi SP SP (-256);
  Sd RA 0 SP; Sd SP 8 SP; Sd GP 16 SP; Sd TP 24 SP;
  Sd T0 32 SP; Sd T1 40 SP; Sd T2 48 SP;
  Sd S0 56 SP; Sd S1 64 SP;
  Sd A0 72 SP; Sd A1 80 SP; Sd A2 88 SP; Sd A3 96 SP; Sd A4 104 SP; Sd A5 112 SP; Sd A6 120 SP; Sd A7 128 SP;
  Sd S2 136 SP; Sd S3 144 SP; Sd S4 152 SP; Sd S5 160 SP; Sd S6 168 SP; Sd S7 176 SP;
  Sd S8 184 SP; Sd S9 192 SP; Sd S10 200 SP; Sd S11 208 SP;
  Sd T3 216 SP; Sd T4 224 SP; Sd T5 232 SP; Sd T6 240 SP
].

Definition kernelvec_out : list instr := [
  Ld RA 0 SP; Ld SP 8 SP; Ld GP 16 SP;
  Ld T0 32 SP; Ld T1 40 SP; Ld T2 48 SP;
  Ld S0 56 SP; Ld S1 64 SP;
  Ld A0 72 SP; Ld A1 80 SP; Ld A2 88 SP; Ld A3 96 SP; Ld A4 104 SP; Ld A5 112 SP; Ld A6 120 SP; Ld A7 128 SP;
  Ld S2 136 SP; Ld S3 144 SP; Ld S4 152 SP; Ld S5 160 SP; Ld S6 168 SP; Ld S7 176 SP;
  Ld S8 184 SP; Ld S9 192 SP; Ld S10 200 SP; Ld S11 208 SP;
  Ld T3 216 SP; Ld T4 224 SP; Ld T5 232 SP; Ld T6 240 SP;
  Addi SP SP 256;
  Sret
].

Definition timervec : list instr := [
  Csrrw A0 Mscratch A0;
  Sd A1 0 A0;
  Sd A2 8 A0;
  Sd A3 16 A0;
  Ld A1 24 A0;
  Ld A2 32 A0;
  Ld A3 0 A1;
  Add A3 A3 A2;
  Sd A3 0 A1;
  Li A1 2;
  Csrw Sip A1;
  Ld A3 16 A0;
  Ld A2 8 A0;
  Ld A1 0 A0;
  Csrrw A0 Mscratch A0;
  Mret
].

(** ** kernel/swtch.S *)

(** [ret] jumps to [ra]. *)
Definition swtch : list instr := [
  Sd RA 0 A0; Sd SP 8 A0;
  Sd S0 16 A0; Sd S1 24 A0; Sd S2 32 A0; Sd S3 40 A0; Sd S4 48 A0; Sd S5 56 A0;
  Sd S6 64 A0; Sd S7 72 A0; Sd S8 80 A0; Sd S9 88 A0; Sd S10 96 A0; Sd S11 104 A0;
  Ld RA 0 A1; Ld SP 8 A1;
  Ld S0 16 A1; Ld S1 24 A1; Ld S2 32 A1; Ld S3 40 A1; Ld S4 48 A1; Ld S5 56 A1;
  Ld S6 64 A1; Ld S7 72 A1; Ld S8 80 A1; Ld S9 88 A1; Ld S10 96 A1; Ld S11 104 A1;
  Jr RA
].

(** ** kernel/entry.S *)

(** The code up to the call of [start], which does not return. *)
Definition entry (stack0 : Z) : list instr := [
  Li SP stack0;
  Li A0 (1024 * 4);
  Csrr A1 Mhartid;
  Addi A1 A1 1;
  Mul A0 A0 A1;
  Add SP SP A0
].

(** ** Regions of memory

    The [n] bytes at virtual address [va] are the bytes at [pa], for loads and
    for stores, however those bytes change: the tables that map them are not
    among them. *)
Definition same_outside (lo hi : Z) (m m' : memory) : Prop := forall x, x < lo \/ hi <= x -> ld8 m' x = ld8 m x.

Definition maps (x : mode) (satp : Z) (m : memory) (va pa n : Z) : Prop :=
  forall m', same_outside pa (pa + n) m m' -> forall k o, 0 <= o -> o + 8 <= n -> xlate k x satp m' (u64 (va + o)) = Some (pa + o).

Lemma same_outside_refl lo hi m : same_outside lo hi m m.
Proof. done. Qed.

Lemma same_outside_trans lo hi m1 m2 m3 : same_outside lo hi m1 m2 -> same_outside lo hi m2 m3 -> same_outside lo hi m1 m3.
Proof. intros H1 H2 x Hx. by rewrite H2, H1. Qed.

Lemma same_outside_st64 lo hi m a v : lo <= a -> a + 8 <= hi -> same_outside lo hi m (st64 m a v).
Proof. intros H1 H2 x Hx. apply st64_frame. lia. Qed.

Lemma maps_same x satp m m' va pa n : maps x satp m va pa n -> same_outside pa (pa + n) m m' -> maps x satp m' va pa n.
Proof. intros Hm Hs m2 H2. apply Hm. by eapply same_outside_trans. Qed.

Lemma maps_machine satp m pa n : 0 <= pa -> pa + n <= 2 ^ 64 -> maps MachineMode satp m pa pa n.
Proof. intros H0 H1 m' _ k o Ho Hn. simpl. by rewrite u64_small by lia. Qed.

Lemma maps_bare x m pa n : x <> User -> 0 <= pa -> pa + n <= 2 ^ 64 -> maps x 0 m pa pa n.
Proof. intros Hx H0 H1 m' _ k o Ho Hn. destruct x; [done| |]; simpl; by rewrite u64_small by lia. Qed.

(** ** Runs of stores and of loads *)

Definition saves (base : reg) (l : list (reg * Z)) : list instr := (fun ro => Sd ro.1 ro.2 base) <$> l.
Definition restores (base : reg) (l : list (reg * Z)) : list instr := (fun ro => Ld ro.1 ro.2 base) <$> l.

(** Memory with the registers of [l] stored at their offsets from [pa]. *)
Fixpoint stored (f : reg -> Z) (pa : Z) (l : list (reg * Z)) (m : memory) : memory :=
  match l with
  | [] => m
  | (r, o) :: l' => stored f pa l' (st64 m (pa + o) (f r))
  end.

(** The offsets are doublewords of a frame of [n] bytes, in increasing order. *)
Fixpoint slots (lo n : Z) (l : list (reg * Z)) : bool :=
  match l with
  | [] => true
  | (_, o) :: l' => (lo <=? o) && (o + 8 <=? n) && slots (o + 8) n l'
  end.

(** The registers with those of [l] loaded from their offsets. *)
Fixpoint loaded_regs (m : memory) (pa : Z) (l : list (reg * Z)) (f : reg -> Z) : reg -> Z :=
  match l with
  | [] => f
  | (r, o) :: l' => loaded_regs m pa l' (upd_reg r (ld64 m (pa + o)) f)
  end.

Lemma run_code_app l1 l2 h Q : wp (run_code l1) h (fun _ h' => wp (run_code l2) h' Q) -> wp (run_code (l1 ++ l2)) h Q.
Proof.
  revert h. induction l1 as [|i l1 IH]; intros h; simpl; [done|]. intros H.
  apply wp_bind. unfold wp in *. unfold bind in H. destruct (exec1 i h) as [[[] h']| | |]; [|done..]. by apply IH.
Qed.

Lemma stored_same f pa l m lo n : slots lo n l = true -> 0 <= lo -> same_outside (pa + lo) (pa + n) m (stored f pa l m).
Proof.
  revert m lo. induction l as [|[r o] l IH]; intros m lo Hs Hlo; simpl in *; [done|]. bool_prop.
  intros x Hx. rewrite (IH _ (o + 8)) by (done || lia). apply st64_frame. lia.
Qed.

Lemma slots_range lo n l r o : slots lo n l = true -> (r, o) ∈ l -> lo <= o /\ o + 8 <= n.
Proof.
  revert lo. induction l as [|[r' o'] l IH]; intros lo Hs Hin; [by apply not_elem_of_nil in Hin|]. simpl in Hs. bool_prop.
  apply elem_of_cons in Hin as [[= -> ->]|Hin]; [lia|]. specialize (IH (o' + 8) ltac:(done) Hin). lia.
Qed.

Lemma wp_saves base l h va pa n lo Q :
  regs h base = va -> maps (pmode h) (csrs h Satp) (pmem h) va pa n -> slots lo n l = true -> 0 <= lo ->
  Q tt (set_pmem (stored (regs h) pa l (pmem h)) h) -> wp (run_code (saves base l)) h Q.
Proof.
  revert h lo. induction l as [|[r o] l IH]; intros h lo Hb Hm Hs Hlo HQ; simpl in *.
  { destruct h. exact HQ. }
  bool_prop. apply wp_bind. unfold wp, getr, gets, bind, store64; cbn [fst snd]. rewrite Hb.
  rewrite (Hm (pmem h)) by (done || lia). destruct h as [f c x p m]; cbn in *.
  apply (IH (Hart f c x p (st64 m (pa + o) (f r))) (o + 8)); cbn; [done| |done|lia|done].
  eapply maps_same; [done|]. apply same_outside_st64; lia.
Qed.

Lemma wp_restores base l h va pa n lo Q :
  regs h base = va -> maps (pmode h) (csrs h Satp) (pmem h) va pa n -> slots lo n l = true -> 0 <= lo ->
  Forall (fun ro => ro.1 = base -> ld64 (pmem h) (pa + ro.2) = va) l ->
  Q tt (set_regs (loaded_regs (pmem h) pa l) h) -> wp (run_code (restores base l)) h Q.
Proof.
  revert h lo. induction l as [|[r o] l IH]; intros h lo Hb Hm Hs Hlo Hf HQ; simpl in *.
  { destruct h. exact HQ. }
  bool_prop. apply Forall_cons in Hf as [Hr Hf]. cbn [fst snd] in *.
  apply wp_bind. unfold wp, getr, gets, bind, load64, setr, modify; cbn [fst snd]. rewrite Hb.
  rewrite (Hm (pmem h)) by (done || lia). destruct h as [f c x p m]; cbn in *.
  apply (IH _ (o + 8)); cbn; [|done|done|lia|done|done].
  unfold upd_reg. case_decide; [|done]. by apply Hr.
Qed.

(** What the stores left in a slot, and what the loads put in a register. *)
Lemma ld64_stored f pa l m lo n r o :
  slots lo n l = true -> 0 <= lo -> (r, o) ∈ l -> 0 <= f r < 2 ^ 64 -> ld64 (stored f pa l m) (pa + o) = f r.
Proof.
  revert m lo. induction l as [|[r' o'] l IH]; intros m lo Hs Hlo Hin Hr; [by apply not_elem_of_nil in Hin|]. simpl in *.
  bool_prop. apply elem_of_cons in Hin as [[= -> ->]|Hin].
  - rewrite (ld64_agree _ (st64 m (pa + o') (f r'))); [by apply ld64_st64_eq|].
    intros x Hx. apply (stored_same f pa l _ (o' + 8) n); [done|lia|lia].
  - by apply (IH _ (o' + 8)); [|lia|..].
Qed.

Lemma loaded_regs_out m pa l f r : r ∉ l.*1 -> loaded_regs m pa l f r = f r.
Proof.
  revert f. induction l as [|[r' o] l IH]; intros f Hn; [done|]. rewrite fmap_cons, not_elem_of_cons in Hn. destruct Hn as [Hne Hn]. simpl in *.
  rewrite IH by done. unfold upd_reg. by case_decide.
Qed.

Lemma loaded_regs_in m pa l f r o : NoDup l.*1 -> (r, o) ∈ l -> loaded_regs m pa l f r = ld64 m (pa + o).
Proof.
  revert f. induction l as [|[r' o'] l IH]; intros f Hnd Hin; [by apply not_elem_of_nil in Hin|].
  rewrite fmap_cons in Hnd. apply NoDup_cons in Hnd as [Hn Hnd]. simpl in *. apply elem_of_cons in Hin as [[= -> ->]|Hin].
  - rewrite loaded_regs_out by done. unfold upd_reg. by case_decide.
  - by apply IH.
Qed.
