(* ===== verification/AsmProofs.v ===== *)
(** * What the assembly of the kernel does

    A trap saves every user register and the return restores them; a trap
    taken in the kernel, a timer interrupt and a context switch are transparent
    to the code they interrupt. *)
From S2P Require Import Prelude Riscv Mem Hart Asm.

(** Registers hold 64-bit values. *)
Definition words (f : reg -> Z) : Prop := forall r, 0 <= f r < 2 ^ 64.

Lemma words_upd f r v : words f -> 0 <= v < 2 ^ 64 -> words (upd_reg r v f).
Proof. intros Hf Hv r'. unfold upd_reg. by case_decide. Qed.

Lemma run_cons i l h Q : wp (exec1 i) h (fun _ h' => wp (run_code l) h' Q) -> wp (run_code (i :: l)) h Q.
Proof. apply wp_bind. Qed.

Lemma run_ld dst off base l h Q pa :
  xlate Load (pmode h) (csrs h Satp) (pmem h) (u64 (regs h base + off)) = Some pa ->
  wp (run_code l) (set_regs (upd_reg dst (ld64 (pmem h) pa)) h) Q -> wp (run_code (Ld dst off base :: l)) h Q.
Proof. intros H HQ. apply run_cons. unfold wp, exec1, bind, getr, gets, load64. by rewrite H. Qed.

Lemma run_sd src off base l h Q pa :
  xlate Store (pmode h) (csrs h Satp) (pmem h) (u64 (regs h base + off)) = Some pa ->
  wp (run_code l) (set_pmem (st64 (pmem h) pa (regs h src)) h) Q -> wp (run_code (Sd src off base :: l)) h Q.
Proof. intros H HQ. apply run_cons. unfold wp, exec1, bind, getr, gets, store64. by rewrite H. Qed.

(** Take the instruction at the head of a run; the goal is left at its memory
    access, if it has one. *)
Ltac run_norm := cbv beta iota delta [regs csrs pmode hpc pmem set_regs set_csrs set_pc set_mode set_pmem rd_csr wr_csr].
Ltac run_one := apply run_cons; cbn [exec1]; unfold getr, setr, csrr, csrw; repeat (wp_step; run_norm).

(** ** The trap frame *)

(** [struct trapframe]: where each register is kept, and the four fields for the
    kernel. *)
Definition tf_slot (r : reg) : Z :=
  match r with
  | RA => 40 | SP => 48 | GP => 56 | TP => 64 | T0 => 72 | T1 => 80 | T2 => 88
  | S0 => 96 | S1 => 104
  | A0 => 112 | A1 => 120 | A2 => 128 | A3 => 136 | A4 => 144 | A5 => 152 | A6 => 160 | A7 => 168
  | S2 => 176 | S3 => 184 | S4 => 192 | S5 => 200 | S6 => 208 | S7 => 216 | S8 => 224 | S9 => 232 | S10 => 240 | S11 => 248
  | T3 => 256 | T4 => 264 | T5 => 272 | T6 => 280
  end.
Definition tf_kernel_satp : Z := 0.
Definition tf_kernel_sp : Z := 8.
Definition tf_kernel_trap : Z := 16.
Definition tf_kernel_hartid : Z := 32.

(** The registers [uservec] and [userret] move in their long runs. *)
Definition frame_regs : list (reg * Z) :=
  (fun r => (r, tf_slot r)) <$>
    [RA; SP; GP; TP; T0; T1; T2; S0; S1; A1; A2; A3; A4; A5; A6; A7; S2; S3; S4; S5; S6; S7; S8; S9; S10; S11; T3; T4; T5; T6].

Lemma frame_regs_in r : r <> A0 -> (r, tf_slot r) ∈ frame_regs.
Proof. intros H. apply (list_elem_of_fmap_2 (fun r => (r, tf_slot r))). destruct r; first [done|repeat constructor]. Qed.

(** The frame holds the registers [f]. *)
Definition frame_holds (m : memory) (tf : Z) (f : reg -> Z) : Prop := forall r, ld64 m (tf + tf_slot r) = f r.

Lemma uservec_eq :
  uservec = [Csrw Sscratch A0; Li A0 TRAPFRAME] ++ saves A0 frame_regs ++
            [Csrr T0 Sscratch; Sd T0 112 A0; Ld SP 8 A0; Ld TP 32 A0; Ld T0 16 A0; Ld T1 0 A0; Sfence_vma; Csrw Satp T1; Sfence_vma; Jr T0].
Proof. done. Qed.

Lemma userret_eq :
  userret = [Sfence_vma; Csrw Satp A0; Sfence_vma; Li A0 TRAPFRAME] ++ restores A0 frame_regs ++ [Ld A0 112 A0; Sret].
Proof. done. Qed.

(** [uservec] saves the user's registers in the frame, and leaves for
    [usertrap] on the kernel's stack and page table. *)
Lemma wp_uservec h tf Q :
  pmode h = Supervisor -> words (regs h) -> maps Supervisor (csrs h Satp) (pmem h) TRAPFRAME tf 288 ->
  (forall f' c' m',
     frame_holds m' tf (regs h) -> same_outside (tf + 40) (tf + 288) (pmem h) m' ->
     f' SP = ld64 (pmem h) (tf + tf_kernel_sp) -> f' TP = ld64 (pmem h) (tf + tf_kernel_hartid) -> words f' ->
     c' Satp = ld64 (pmem h) (tf + tf_kernel_satp) -> (forall c, c <> Satp -> c <> Sscratch -> c' c = csrs h c) ->
     Q tt (Hart f' c' Supervisor (ld64 (pmem h) (tf + tf_kernel_trap)) m')) ->
  wp (run_code uservec) h Q.
Proof.
  destruct h as [f c x p m]. cbn [pmode regs csrs pmem]. intros -> Hw Hm HQ. rewrite uservec_eq. apply run_code_app.
  do 2 run_one. cbn [run_code]. wp_step. apply run_code_app.
  set (f1 := upd_reg A0 (u64 TRAPFRAME) f). set (c1 := upd_csr Sscratch (f A0) c).
  eapply (wp_saves A0 frame_regs _ TRAPFRAME tf 288 40); [done|exact Hm|done|lia|]. run_norm.
  set (m1 := stored f1 tf frame_regs m).
  assert (H1 : same_outside (tf + 40) (tf + 288) m m1) by (apply (stored_same f1 tf frame_regs m 40 288); [done|lia]).
  assert (Hx : forall k o m2, same_outside (tf + 40) (tf + 288) m m2 -> 0 <= o -> o + 8 <= 288 -> xlate k Supervisor (c Satp) m2 (u64 (TRAPFRAME + o)) = Some (tf + o)).
  { intros k o m2 H2 Ho Hn. apply Hm; [|done..]. intros y Hy. apply H2. lia. }
  run_one. fold f1 m1 c1. set (f2 := upd_reg T0 (c1 Sscratch) f1).
  eapply run_sd; [apply (Hx _ 112); [exact H1|lia|lia]|]. run_norm. change (f2 T0) with (f A0). set (m2 := st64 m1 (tf + 112) (f A0)).
  assert (H2 : same_outside (tf + 40) (tf + 288) m m2) by (eapply same_outside_trans; [exact H1|apply same_outside_st64; lia]).
  assert (Hk : forall o, 0 <= o -> o + 8 <= 40 -> ld64 m2 (tf + o) = ld64 m (tf + o)).
  { intros o Ho Hn. apply ld64_agree. intros y Hy. apply H2. lia. }
  do 4 (eapply run_ld; [apply Hx; [exact H2|lia|lia]|]; run_norm).
  do 4 run_one. cbn [run_code]. wp_step. rewrite !Hk by lia.
  apply HQ; [|exact H2|done|done| |done|].
  - intros r. destruct (decide (r = A0)) as [->|Hr]; [by apply ld64_st64_eq|].
    unfold m2. rewrite ld64_st64_ne by (destruct r; simpl; done || lia). change (f r) with (id f r).
    transitivity (f1 r); [|unfold f1, upd_reg; by rewrite decide_False].
    apply (ld64_stored _ _ _ _ 40 288); [done|lia|by apply frame_regs_in|]. unfold f1, upd_reg. by rewrite decide_False.
  - do 4 (apply words_upd; [|apply ld64_range]). unfold f2, f1. apply words_upd; [|apply Hw]. by apply words_upd.
  - intros x Hx1 Hx2. unfold c1, upd_csr. by rewrite !decide_False.
Qed.

(** [userret] loads every register from the frame and returns to user space. *)
Lemma wp_userret h tf Q :
  pmode h = Supervisor -> maps Supervisor (regs h A0) (pmem h) TRAPFRAME tf 288 ->
  (forall f, frame_holds (pmem h) tf f -> Q tt (sret (Hart f (upd_csr Satp (regs h A0) (csrs h)) Supervisor (hpc h) (pmem h)))) ->
  wp (run_code userret) h Q.
Proof.
  destruct h as [f c x p m]. run_norm. intros -> Hm HQ. rewrite userret_eq. apply run_code_app.
  do 4 run_one. cbn [run_code]. wp_step. apply run_code_app.
  set (c1 := upd_csr Satp (f A0) c). set (f1 := upd_reg A0 (u64 TRAPFRAME) f).
  assert (HA : forall f', f' A0 = f1 A0 -> xlate Load Supervisor (c1 Satp) m (u64 (f' A0 + 112)) = Some (tf + 112)).
  { intros f' ->. apply (Hm m (same_outside_refl _ _ _) Load 112); lia. }
  eapply (wp_restores A0 frame_regs _ TRAPFRAME tf 288 40); [done|exact Hm|done|lia| |]; run_norm.
  { repeat constructor; intros [=]. }
  eapply run_ld; run_norm.
  { apply HA, loaded_regs_out. by apply (bool_decide_eq_true_1 (A0 ∉ frame_regs.*1)). }
  run_one. cbn [run_code]. wp_step. apply HQ. intros r. unfold upd_reg. case_decide as Hr; [by rewrite Hr|].
  symmetry. apply loaded_regs_in; [by apply (bool_decide_eq_true_1 (NoDup frame_regs.*1))|by apply frame_regs_in].
Qed.

(** ** Traps taken in the kernel *)

Definition kv_regs : list (reg * Z) :=
  [(RA, 0); (SP, 8); (GP, 16); (TP, 24); (T0, 32); (T1, 40); (T2, 48); (S0, 56); (S1, 64);
   (A0, 72); (A1, 80); (A2, 88); (A3, 96); (A4, 104); (A5, 112); (A6, 120); (A7, 128);
   (S2, 136); (S3, 144); (S4, 152); (S5, 160); (S6, 168); (S7, 176); (S8, 184); (S9, 192); (S10, 200); (S11, 208);
   (T3, 216); (T4, 224); (T5, 232); (T6, 240)].
Definition kv_back : list (reg * Z) := filter (fun ro => ro.1 <> TP) kv_regs.

Lemma kernelvec_in_eq : kernelvec_in = [Addi SP SP (-256)] ++ saves SP kv_regs.
Proof. done. Qed.

Lemma kernelvec_out_eq : kernelvec_out = restores SP kv_back ++ [Addi SP SP 256; Sret].
Proof. done. Qed.

Lemma kv_regs_in r : exists o, (r, o) ∈ kv_regs /\ (r <> TP -> (r, o) ∈ kv_back).
Proof. destruct r; eexists; (split; [unfold kv_regs; repeat constructor|intros; unfold kv_back; apply list_elem_of_filter; split; [done|unfold kv_regs; repeat constructor]]). Qed.

(** The registers [f] of the interrupted code are in the 256 bytes at [pa]; its
    own stack pointer is saved as it was after making room. *)
Definition kframe_holds (m : memory) (pa : Z) (f : reg -> Z) : Prop :=
  forall r o, (r, o) ∈ kv_regs -> ld64 m (pa + o) = upd_reg SP (f SP - 256) f r.

Lemma wp_kernelvec_in h pa Q :
  words (regs h) -> 256 <= regs h SP -> maps (pmode h) (csrs h Satp) (pmem h) (regs h SP - 256) pa 256 ->
  (forall m', same_outside pa (pa + 256) (pmem h) m' -> kframe_holds m' pa (regs h) ->
     Q tt (Hart (upd_reg SP (regs h SP - 256) (regs h)) (csrs h) (pmode h) (hpc h) m')) ->
  wp (run_code kernelvec_in) h Q.
Proof.
  destruct h as [f c x p m]. run_norm. intros Hw Hsp Hm HQ. rewrite kernelvec_in_eq. apply run_code_app.
  run_one. cbn [run_code]. wp_step. pose proof (Hw SP). rewrite (u64_small (f SP + -256)) by lia.
  replace (f SP + -256) with (f SP - 256) by lia. set (f1 := upd_reg SP (f SP - 256) f).
  assert (Hw1 : words f1) by (apply words_upd; [done|lia]).
  eapply (wp_saves SP kv_regs _ _ pa 256 0); [reflexivity|exact Hm|done|lia|]. run_norm. apply HQ.
  - intros y Hy. apply (stored_same f1 pa kv_regs m 0 256); [done|lia|lia].
  - intros r o Hin. by apply (ld64_stored f1 pa kv_regs m 0 256 r o).
Qed.

Lemma wp_kernelvec_out h pa f Q :
  words f -> 256 <= f SP -> regs h SP = f SP - 256 -> maps (pmode h) (csrs h Satp) (pmem h) (f SP - 256) pa 256 ->
  kframe_holds (pmem h) pa f ->
  (forall f', f' TP = regs h TP -> (forall r, r <> TP -> f' r = f r) -> Q tt (sret (Hart f' (csrs h) (pmode h) (hpc h) (pmem h)))) ->
  wp (run_code kernelvec_out) h Q.
Proof.
  destruct h as [f2 c x p m]. run_norm. intros Hw Hsp Hs2 Hm Hld HQ. rewrite kernelvec_out_eq. apply run_code_app. pose proof (Hw SP).
  eapply (wp_restores SP kv_back _ _ pa 256 0); [exact Hs2|exact Hm|done|lia| |]; run_norm.
  { apply Forall_forall. intros [r o] [_ Hin]%list_elem_of_filter Hr. cbn [fst snd] in *. subst r. by rewrite (Hld SP). }
  run_one. run_one. cbn [run_code]. wp_step. apply HQ.
  - unfold upd_reg. rewrite decide_False by done. by rewrite loaded_regs_out by (by apply (bool_decide_eq_true_1 (TP ∉ kv_back.*1))).
  - intros r Hr.
    assert (Hl : loaded_regs m pa kv_back f2 r = upd_reg SP (f SP - 256) f r).
    { destruct (kv_regs_in r) as (o & Hin & Hb). specialize (Hb Hr).
      rewrite (loaded_regs_in _ _ _ _ _ o) by (done || by apply (bool_decide_eq_true_1 (NoDup kv_back.*1))). by apply Hld. }
    unfold upd_reg at 1. case_decide as Hd; [subst r|]; rewrite Hl; unfold upd_reg.
    + rewrite decide_True by done. rewrite u64_small by lia. lia.
    + by rewrite decide_False.
Qed.

(** ** Timer interrupts *)

Lemma testbit_set_bit_at i b x j : 0 <= i -> 0 <= j -> Z.testbit (set_bit_at i b x) j = if j =? i then b else Z.testbit x j.
Proof.
  intros Hi Hj. assert (H1 : Z.testbit (Z.shiftl 1 i) j = (j =? i)).
  { rewrite Z.shiftl_spec by done. destruct (Z.eqb_spec j i) as [->|]; [by rewrite Z.sub_diag|].
    destruct (Z.lt_ge_cases j i); [by rewrite Z.testbit_neg_r by lia|]. by rewrite (testbit_high 1 1) by lia. }
  unfold set_bit_at. destruct b.
  - rewrite Z.lor_spec, H1. destruct (j =? i); [by rewrite orb_true_r|by rewrite orb_false_r].
  - rewrite Z.land_spec, Z.lnot_spec, H1 by done. destruct (j =? i); [by rewrite andb_false_r|by rewrite andb_true_r].
Qed.

(** Changing a bit outside the supervisor's view. *)
Lemma view_set_bit_at mask i b x : 0 <= i -> Z.testbit mask i = false -> Z.land (set_bit_at i b x) mask = Z.land x mask.
Proof.
  intros Hi Hm. apply Z.bits_inj'. intros j Hj. rewrite !Z.land_spec, testbit_set_bit_at by done.
  destruct (Z.eqb_spec j i) as [->|]; [by rewrite Hm, !andb_false_r|done].
Qed.

(** The status register a trap to machine mode from mode [x] leaves. *)
Definition mtrap_status (x : mode) (m : Z) : Z :=
  set_bit_at 12 (bool_decide (x = MachineMode)) (set_bit_at 11 (bool_decide (x <> User)) (set_bit_at 3 false (set_bit_at 7 (Z.testbit m 3) m))).

(** [mret] undoes the trap: same mode, same interrupt enable, same view. *)
Lemma mtrap_mret x m :
  let ms := mtrap_status x m in
  let m' := set_bit_at 12 false (set_bit_at 11 false (set_bit_at 7 true (set_bit_at 3 (Z.testbit ms 7) ms))) in
  (if Z.testbit ms 12 then MachineMode else if Z.testbit ms 11 then Supervisor else User) = x /\
  Z.land m' SSTATUS_VIEW = Z.land m SSTATUS_VIEW /\ Z.testbit m' 3 = Z.testbit m 3.
Proof.
  intros ms m'. unfold m', ms, mtrap_status. split_and!.
  - rewrite !testbit_set_bit_at by lia. cbn. by destruct x.
  - by rewrite !view_set_bit_at.
  - rewrite !testbit_set_bit_at by lia. done.
Qed.

(** A timer interrupt is transparent.  Taken by machine mode in the middle
    of any code, it returns to the same instruction in the same mode, with
    every register as it was and the supervisor's view of the status register
    and [mscratch] unchanged; it moves the hart's compare register on by one
    interval, makes a supervisor software interrupt pending, and writes nothing
    else but the save area of the hart. *)
Theorem timer_transparent cause h :
  let sc := csrs h Mscratch in let tc := ld64 (pmem h) (sc + 24) in let iv := ld64 (pmem h) (sc + 32) in
  words (regs h) -> 0 <= sc -> sc + 40 <= 2 ^ 64 -> tc + 8 <= 2 ^ 64 -> tc + 8 <= sc \/ sc + 40 <= tc ->
  wp (mtrap_enter cause;; run_code timervec) h (fun _ h' =>
    (forall r, regs h' r = regs h r) /\ hpc h' = hpc h /\ pmode h' = pmode h /\ csrs h' Mscratch = sc /\
    rd_csr Sstatus (csrs h') = rd_csr Sstatus (csrs h) /\ Z.testbit (csrs h' Mstatus) 3 = Z.testbit (csrs h Mstatus) 3 /\
    Z.testbit (rd_csr Sip (csrs h')) 1 = true /\ ld64 (pmem h') tc = u64 (ld64 (pmem h) tc + iv) /\
    forall x, ~ sc <= x < sc + 24 -> ~ tc <= x < tc + 8 -> ld8 (pmem h') x = ld8 (pmem h) x).
Proof.
  destruct h as [f c x p m]. run_norm. intros sc tc iv Hw Hsc Hsc' Htc Hd. pose proof (ld64_range m (sc + 24)) as Htc0. fold tc in Htc0.
  apply wp_bind. unfold mtrap_enter. wp_step. run_norm. run_one.
  set (c1 := upd_csr Mscratch (f A0) _). change (upd_csr _ _ _ Mscratch) with sc.
  set (f1 := upd_reg A0 sc f). do 3 (eapply run_sd; [reflexivity|]; run_norm).
  change (f1 A0) with sc. change (f1 A1) with (f A1). change (f1 A2) with (f A2). change (f1 A3) with (f A3).
  rewrite !(u64_small (sc + _)) by lia. set (m1 := st64 _ _ (f A3)).
  assert (H1 : forall a, a + 8 <= sc \/ sc + 24 <= a -> ld64 m1 a = ld64 m a).
  { intros a Ha. unfold m1. rewrite !ld64_st64_ne by lia. done. }
  assert (Hs1 : ld64 m1 (sc + 0) = f A1 /\ ld64 m1 (sc + 8) = f A2 /\ ld64 m1 (sc + 16) = f A3).
  { unfold m1. split_and!; rewrite ?(ld64_st64_ne _ (sc + 16)), ?(ld64_st64_ne _ (sc + 8)) by lia; by rewrite ld64_st64_eq. }
  eapply run_ld; [reflexivity|]. run_norm. change (f1 A0) with sc. rewrite u64_small, (H1 (sc + 24)) by lia. fold tc. set (f2 := upd_reg A1 tc f1).
  eapply run_ld; [reflexivity|]. run_norm. change (f2 A0) with sc. rewrite u64_small, (H1 (sc + 32)) by lia. fold iv. set (f3 := upd_reg A2 iv f2).
  eapply run_ld; [reflexivity|]. run_norm. change (f3 A1) with tc. rewrite u64_small, Z.add_0_r, (H1 tc) by lia. set (f4 := upd_reg A3 (ld64 m tc) f3).
  run_one. change (f4 A3) with (ld64 m tc). change (f4 A2) with iv. set (nx := u64 (ld64 m tc + iv)). set (f5 := upd_reg A3 nx f4).
  eapply run_sd; [reflexivity|]. run_norm. change (f5 A1) with tc. change (f5 A3) with nx. rewrite u64_small, Z.add_0_r by lia. set (m2 := st64 m1 tc nx).
  do 2 run_one. set (f6 := upd_reg A1 (u64 2) f5). change (f6 A1) with 2. set (c2 := upd_csr Mip _ c1).
  assert (H2 : forall a, a + 8 <= tc \/ tc + 8 <= a -> ld64 m2 a = ld64 m1 a) by (intros a Ha; by apply ld64_st64_ne).
  destruct Hs1 as (E1 & E2 & E3).
  eapply run_ld; [reflexivity|]. run_norm. change (f6 A0) with sc. rewrite u64_small, H2, E3 by lia. set (f7 := upd_reg A3 _ f6).
  eapply run_ld; [reflexivity|]. run_norm. change (f7 A0) with sc. rewrite u64_small, H2, E2 by lia. set (f8 := upd_reg A2 _ f7).
  eapply run_ld; [reflexivity|]. run_norm. change (f8 A0) with sc. rewrite u64_small, H2, E1 by lia. set (f9 := upd_reg A1 _ f8).
  do 2 run_one. cbn [run_code]. wp_step. unfold mret. run_norm. change (f9 A0) with sc. change (c2 Mscratch) with (f A0).
  change (upd_csr Mscratch sc c2 Mstatus) with (mtrap_status x (c Mstatus)). pose proof (mtrap_mret x (c Mstatus)) as (Ex & Ev & Eb).
  split_and!; [|done|exact Ex|done|exact Ev|exact Eb| |by apply ld64_st64_eq, u64_range|].
  - intros r. unfold f9, f8, f7, f6, f5, f4, f3, f2, f1, upd_reg. repeat case_decide; by subst.
  - change (Z.testbit (Z.land (merge SIP_WRITE (c Mip) 2) SIE_VIEW) 1 = true). unfold merge. by rewrite Z.land_spec, Z.lor_spec, orb_true_r.
  - intros y Hy1 Hy2. unfold m2, m1. rewrite !st64_frame by lia. done.
Qed.

(** ** Context switches *)

(** [struct context] of kernel/proc.h. *)
Definition context_regs : list (reg * Z) :=
  [(RA, 0); (SP, 8); (S0, 16); (S1, 24); (S2, 32); (S3, 40); (S4, 48); (S5, 56); (S6, 64); (S7, 72); (S8, 80); (S9, 88); (S10, 96); (S11, 104)].
Definition context_size : Z := 112.

(** The context at [a] holds the registers [f]. *)
Definition context_holds (m : memory) (a : Z) (f : reg -> Z) : Prop := forall r o, (r, o) ∈ context_regs -> ld64 m (a + o) = f r.

Lemma swtch_eq : swtch = saves A0 context_regs ++ restores A1 context_regs ++ [Jr RA].
Proof. done. Qed.

Lemma context_regs_range r o : (r, o) ∈ context_regs -> 0 <= o /\ o + 8 <= context_size.
Proof. by apply slots_range. Qed.

Lemma context_holds_agree m m' a f : agree a (a + context_size) m m' -> context_holds m a f -> context_holds m' a f.
Proof.
  intros Hag Hc r o Hin. rewrite <- (Hc r o Hin). symmetry. apply ld64_agree. pose proof (context_regs_range r o Hin).
  eapply agree_sub; [exact Hag|lia|lia].
Qed.

(** [swtch(old, new)], the two contexts at physical addresses [po] and [pn]. *)
Lemma wp_swtch h po pn Q :
  words (regs h) ->
  maps (pmode h) (csrs h Satp) (pmem h) (regs h A0) po context_size ->
  (forall m', same_outside po (po + context_size) (pmem h) m' -> maps (pmode h) (csrs h Satp) m' (regs h A1) pn context_size) ->
  (forall f' m',
     same_outside po (po + context_size) (pmem h) m' -> context_holds m' po (regs h) -> context_holds m' pn f' ->
     (forall r, r ∉ context_regs.*1 -> f' r = regs h r) -> Q tt (Hart f' (csrs h) (pmode h) (f' RA) m')) ->
  wp (run_code swtch) h Q.
Proof.
  destruct h as [f c x p m]. run_norm. intros Hw Ho Hn HQ. rewrite swtch_eq. apply run_code_app.
  eapply (wp_saves A0 context_regs _ _ po context_size 0); [reflexivity|exact Ho|done|lia|]. run_norm. set (m1 := stored f po context_regs m).
  assert (H1 : same_outside po (po + context_size) m m1).
  { intros y Hy. apply (stored_same f po context_regs m 0 context_size); [done|lia|lia]. }
  apply run_code_app. eapply (wp_restores A1 context_regs _ _ pn context_size 0); [reflexivity|by apply Hn|done|lia| |]; run_norm.
  { repeat constructor; intros [=]. }
  run_one. cbn [run_code]. wp_step. set (f1 := loaded_regs m1 pn context_regs f). apply (HQ f1 m1).
  - exact H1.
  - intros r o Hin. by apply (ld64_stored f po context_regs m 0 context_size).
  - intros r o Hin. symmetry. by apply loaded_regs_in; [apply (bool_decide_eq_true_1 (NoDup context_regs.*1))|].
  - intros r Hr. by apply loaded_regs_out.
Qed.

(** C27: a context switch comes back.  Whatever runs between the call
    [swtch(old, new)] and a later [swtch(_, old)], on this or another hart, if
    it leaves the saved context [old] alone then the second call returns to
    the caller of the first one, with its stack pointer and all the registers
    a call has to preserve. *)
Theorem swtch_comes_back h po pn (others : M hart unit) :
  words (regs h) -> maps (pmode h) (csrs h Satp) (pmem h) (regs h A0) po context_size ->
  (forall m', same_outside po (po + context_size) (pmem h) m' -> maps (pmode h) (csrs h Satp) m' (regs h A1) pn context_size) ->
  (forall h1, context_holds (pmem h1) po (regs h) ->
     wp others h1 (fun _ h2 =>
       words (regs h2) /\ agree po (po + context_size) (pmem h1) (pmem h2) /\
       exists p2, (p2 + context_size <= po \/ po + context_size <= p2) /\
         maps (pmode h2) (csrs h2 Satp) (pmem h2) (regs h2 A0) p2 context_size /\
         forall m', same_outside p2 (p2 + context_size) (pmem h2) m' -> maps (pmode h2) (csrs h2 Satp) m' (regs h2 A1) po context_size)) ->
  wp (run_code swtch;; others;; run_code swtch) h (fun _ h' =>
    hpc h' = regs h RA /\ forall r, r ∈ context_regs.*1 -> regs h' r = regs h r).
Proof.
  intros Hw Ho Hn Hk. apply wp_bind. apply (wp_swtch h po pn); [done..|]. intros f1 m1 Hs1 Hc1 _ _.
  apply wp_bind. eapply wp_mono; [by apply Hk|]. intros [] h2 (Hw2 & Hag & p2 & Hd & Hm2 & Ho2).
  apply (wp_swtch h2 p2 po); [done..|]. intros f3 m3 Hs3 _ Hc3 _. cbn [hpc regs].
  assert (Hc : context_holds m3 po (regs h)).
  { eapply context_holds_agree; [|exact Hc1]. eapply agree_trans; [exact Hag|].
    intros y Hy. symmetry. apply Hs3. lia. }
  assert (Hr : forall r, r ∈ context_regs.*1 -> f3 r = regs h r).
  { intros r ([r' o] & -> & Hin)%list_elem_of_fmap. cbn [fst]. by rewrite <- (Hc3 _ _ Hin), (Hc _ _ Hin). }
  split; [|done]. apply Hr. by apply (bool_decide_eq_true_1 (RA ∈ context_regs.*1)).
Qed.
