(* ===== verification/Start.v ===== *)
(** * Booting a hart

    kernel/entry.S and kernel/start.c: from reset in machine mode to [main] in
    supervisor mode, with a stack of its own and the timer running.  The CLINT
    is seen as memory. *)
From S2P Require Import Prelude Riscv Mem Hart Asm AsmProofs.

Definition CLINT_MTIMECMP (hartid : Z) : Z := CLINT + 0x4000 + 8 * hartid.
Definition CLINT_MTIME : Z := CLINT + 0xBFF8.

Section Start.
(** Addresses the linker gives: [stack0], [timer_scratch], [main] and [timervec]. *)
Context (stack0 timer_scratch main_a timervec_a : Z).

Definition timerinit : M hart unit :=
  id <- r_mhartid;;
  let id := s32 id in
  let interval := 1000000 in
  t <- load64 CLINT_MTIME;;
  store64 (CLINT_MTIMECMP id) (u64 (t + interval));;
  let scratch := timer_scratch + 40 * id in
  store64 (scratch + 24) (CLINT_MTIMECMP id);;
  store64 (scratch + 32) interval;;
  w_mscratch scratch;;
  w_mtvec timervec_a;;
  x <- r_mstatus;;
  w_mstatus (Z.lor x MSTATUS_MIE);;
  x <- r_mie;;
  w_mie (Z.lor x MIE_MTIE).

Definition start : M hart unit :=
  x <- r_mstatus;;
  let x := Z.land x (u64 (Z.lnot MSTATUS_MPP_MASK)) in
  let x := Z.lor x MSTATUS_MPP_S in
  w_mstatus x;;
  w_mepc main_a;;
  w_satp 0;;
  w_medeleg 0xffff;;
  w_mideleg 0xffff;;
  x <- r_sie;;
  w_sie (Z.lor (Z.lor (Z.lor x SIE_SEIE) SIE_STIE) SIE_SSIE);;
  w_pmpaddr0 0x3fffffffffffff;;
  w_pmpcfg0 0xf;;
  timerinit;;
  id <- r_mhartid;;
  w_tp (u64 (s32 id));;
  modify mret.

(** Reset to [main]. *)
Definition boot_hart : M hart unit := run_code (entry stack0);; start.

Lemma mpp_s x : 0 <= x < 2 ^ 64 ->
  let y := Z.lor (Z.lor (Z.land x (u64 (Z.lnot MSTATUS_MPP_MASK))) MSTATUS_MPP_S) MSTATUS_MIE in
  Z.testbit y 12 = false /\ Z.testbit y 11 = true.
Proof. intros Hx y. unfold y. rewrite !Z.lor_spec, !Z.land_spec. by rewrite !andb_false_r. Qed.

Lemma wp_entry_code f c p m Q :
  0 <= c Mhartid < NCPU -> 0 <= stack0 -> stack0 + 4096 * NCPU < 2 ^ 64 ->
  (forall f', f' SP = stack0 + 4096 * (c Mhartid + 1) -> Q tt (Hart f' c MachineMode p m)) ->
  wp (run_code (entry stack0)) (Hart f c MachineMode p m) Q.
Proof.
  change NCPU with 8. intros Hi Hs Hs' HQ. unfold entry. do 6 run_one. cbn [run_code]. wp_step. apply HQ.
  set (f1 := upd_reg SP (u64 stack0) f).
  change (u64 (u64 stack0 + u64 (u64 (1024 * 4) * u64 (c Mhartid + 1))) = stack0 + 4096 * (c Mhartid + 1)).
  change (1024 * 4) with 4096. set (k := c Mhartid + 1). assert (0 < k <= 8) by lia.
  rewrite (u64_small k), (u64_small 4096), (u64_small stack0) by lia. rewrite (u64_small (4096 * k)) by lia. apply u64_small. lia.
Qed.

Lemma wp_timerinit f c p m Q :
  let i := c Mhartid in let sc := timer_scratch + 40 * i in
  0 <= i < NCPU -> KERNBASE <= timer_scratch -> timer_scratch + 40 * NCPU <= PHYSTOP ->
  (forall m', ld64 m' (CLINT_MTIMECMP i) = u64 (ld64 m CLINT_MTIME + 1000000) ->
     ld64 m' (sc + 24) = CLINT_MTIMECMP i -> ld64 m' (sc + 32) = 1000000 ->
     Q tt (Hart f (upd_csr Mie (Z.lor (c Mie) MIE_MTIE) (upd_csr Mstatus (Z.lor (c Mstatus) MSTATUS_MIE) (upd_csr Mtvec timervec_a (upd_csr Mscratch sc c)))) MachineMode p m')) ->
  wp timerinit (Hart f c MachineMode p m) Q.
Proof.
  intros i sc. change KERNBASE with 0x80000000. change PHYSTOP with 0x88000000. change NCPU with 8. intros Hi Ht Ht' HQ.
  unfold timerinit, r_mhartid, csrr. repeat (wp_step; run_norm). fold i. rewrite (s32_small i) by lia.
  assert (Hc : CLINT_MTIMECMP i = 33570816 + 8 * i) by (unfold CLINT_MTIMECMP, CLINT; lia).
  unfold wp, bind, load64, store64, w_mscratch, w_mtvec, r_mstatus, w_mstatus, r_mie, w_mie, csrr, csrw, modify, gets. cbn [xlate]. run_norm.
  fold sc. apply HQ.
  - rewrite !ld64_st64_ne by lia. apply ld64_st64_eq, u64_range.
  - rewrite ld64_st64_ne by lia. apply ld64_st64_eq. lia.
  - by apply ld64_st64_eq.
Qed.

(** A hart boots.  Hart [i] leaves reset for [main] in supervisor mode, with
    translation off, on the [i]th stack of [stack0], with its number in [tp],
    every trap delegated and the three supervisor interrupts enabled; its
    timer will fire one interval from now, and the area [timervec] works in
    is set up so that timer interrupts are transparent. *)
Theorem boot_hart_correct h i :
  pmode h = MachineMode -> csrs h Mhartid = i -> 0 <= i < NCPU -> 0 <= csrs h Mstatus < 2 ^ 64 ->
  KERNBASE <= stack0 -> stack0 + 4096 * NCPU <= PHYSTOP -> KERNBASE <= timer_scratch -> timer_scratch + 40 * NCPU <= PHYSTOP ->
  wp boot_hart h (fun _ h' =>
    hpc h' = main_a /\ pmode h' = Supervisor /\ csrs h' Satp = 0 /\
    stack0 + 4096 * i < regs h' SP <= stack0 + 4096 * (i + 1) /\ regs h' TP = i /\
    csrs h' Medeleg = 0xffff /\ csrs h' Mideleg = 0xffff /\ (forall b, b ∈ [1; 5; 9] -> Z.testbit (rd_csr Sie (csrs h')) b = true) /\
    csrs h' Mtvec = timervec_a /\ Z.testbit (csrs h' Mie) 7 = true /\
    ld64 (pmem h') (CLINT_MTIMECMP i) = u64 (ld64 (pmem h) CLINT_MTIME + 1000000) /\
    let sc := csrs h' Mscratch in
    timer_scratch + 40 * i = sc /\ ld64 (pmem h') (sc + 24) = CLINT_MTIMECMP i /\ ld64 (pmem h') (sc + 32) = 1000000).
Proof.
  destruct h as [f c x p m]. run_norm. intros -> <- Hi Hms Hs Hs' Ht Ht'. set (i := c Mhartid) in *.
  assert (i < 8) by (unfold NCPU in Hi; lia). change KERNBASE with 0x80000000 in Hs. change PHYSTOP with 0x88000000 in Hs'.
  unfold boot_hart. apply wp_bind. apply wp_entry_code; [done|lia|lia|]. intros f1 Hsp.
  unfold start, r_mstatus, w_mstatus, w_mepc, w_satp, w_medeleg, w_mideleg, r_sie, w_sie, w_pmpaddr0, w_pmpcfg0, csrr, csrw.
  repeat (wp_step; run_norm).
  match goal with |- wp timerinit (Hart _ ?c1 _ _ _) _ => set (c1' := c1) end. change i with (c1' Mhartid) in Ht |- *.
  apply wp_timerinit; [done|done|done|]. change (c1' Mhartid) with i. intros m' E1 E2 E3.
  unfold r_mhartid, w_tp, csrr, setr. repeat (wp_step; run_norm). unfold mret. run_norm.
  destruct (mpp_s (c Mstatus) Hms) as [E12 E11].
  set (f2 := upd_reg TP _ f1). match goal with |- context [upd_csr Mstatus (set_bit_at 12 false ?y) ?z] => set (c2 := upd_csr Mstatus (set_bit_at 12 false y) z) end.
  split_and!; [done| |done| | | |done|done| |done| |exact E1|done|exact E2|exact E3].
  - match goal with |- (if Z.testbit ?y 12 then _ else _) = _ => change y with (Z.lor (Z.lor (Z.land (c Mstatus) (u64 (Z.lnot MSTATUS_MPP_MASK))) MSTATUS_MPP_S) MSTATUS_MIE) end.
    by rewrite E12, E11.
  - change (f2 SP) with (f1 SP). lia.
  - change (f2 SP) with (f1 SP). lia.
  - change (f2 TP) with (u64 (s32 i)). rewrite s32_small by lia. apply u64_small. lia.
  - intros b Hb. change (c2 Mie) with (Z.lor (merge SIE_VIEW (c Mie) (Z.lor (Z.lor (Z.lor (Z.land (c Mie) SIE_VIEW) SIE_SEIE) SIE_STIE) SIE_SSIE)) MIE_MTIE).
    unfold merge. rewrite Z.land_spec, !Z.lor_spec, !Z.land_spec, !Z.lor_spec. in_cases; subst b; cbn; by rewrite ?orb_true_r.
  - change (c2 Mie) with (Z.lor (merge SIE_VIEW (c Mie) (Z.lor (Z.lor (Z.lor (Z.land (c Mie) SIE_VIEW) SIE_SEIE) SIE_STIE) SIE_SSIE)) MIE_MTIE).
    by rewrite Z.lor_spec, orb_true_r.
Qed.
End Start.
