(* ===== verification/Trap.v ===== *)
(** * kernel/trap.c and kernel/plic.c

    Traps from user space, the return to it, traps in the kernel and device
    interrupts.  The state is that of the current hart, of the kernel and of
    the devices; memory is the kernel's, and the hart works on it. *)
From S2P Require Import Prelude Riscv Mem KString Kalloc Vm Bio Block TxSpec Fs Pipe File Sysfile UserVm Proc Exec Syscall Hart Asm AsmProofs.

Definition PLIC_SENABLE (hart : Z) : Z := PLIC + 0x2080 + hart * 0x100.
Definition PLIC_SPRIORITY (hart : Z) : Z := PLIC + 0x201000 + hart * 0x2000.
Definition PLIC_SCLAIM (hart : Z) : Z := PLIC + 0x201004 + hart * 0x2000.

Section Trap.
Context {L : Layout} {S : Type} `{BlockStore S} {D : Type}.
(** The registers of the devices, as the hardware answers for them. *)
Context (mmio_r : Z -> M D Z) (mmio_w : Z -> Z -> M D unit).
Context (forkret : Z) (proc_addr : nat -> Z).
Context (dev_read dev_write : Z -> option (Z -> Z -> M (kfs S vmem) Z)).
Context (junk pad : list Z) (page : option (list Z)).
(** Addresses the linker gives, and the channel [&ticks]. *)
Context (kernelvec_a usertrap_a userret_off ticks_chan : Z).

Record tst : Type := Tst { th : hart; tk : kern S; ticks : Z; tdev : D }.

Definition set_mem (m : memory) (k : kern S) : kern S :=
  Kern (Kst m (freelist (km k))) (procs k) (initproc k) (nextpid k) (kfsys k) (kftable k) (kpipes k).

(** Code of the hart, over the kernel's memory. *)
Definition liftH {A} (c : M hart A) : M tst A :=
  fun s => match c (set_pmem (mem (km (tk s))) (th s)) with
           | Ret (a, h) => Ret (a, Tst h (set_mem (pmem h) (tk s)) (ticks s) (tdev s))
           | Panic m => Panic m
           | Fault => Fault
           | Diverge => Diverge
           end.
Definition liftT {A} (c : M (kern S) A) : M tst A :=
  fun s => match c (tk s) with
           | Ret (a, k) => Ret (a, Tst (th s) k (ticks s) (tdev s))
           | Panic m => Panic m
           | Fault => Fault
           | Diverge => Diverge
           end.
Definition liftD {A} (c : M D A) : M tst A :=
  fun s => match c (tdev s) with
           | Ret (a, d) => Ret (a, Tst (th s) (tk s) (ticks s) d)
           | Panic m => Panic m
           | Fault => Fault
           | Diverge => Diverge
           end.

(** What runs on this hart between a process giving up the CPU and the
    scheduler picking it again; the handlers of the two devices. *)
Context (others : M tst unit) (uartintr virtio_disk_intr : option nat -> M tst unit).

Definition cpuid : M tst Z := x <- liftH r_tp;; ret (s32 x).

(** ** kernel/plic.c *)

Definition plicinit : M tst unit :=
  liftD (mmio_w (PLIC + UART0_IRQ * 4) 1);;
  liftD (mmio_w (PLIC + VIRTIO0_IRQ * 4) 1).
Definition plicinithart : M tst unit :=
  hart <- cpuid;;
  liftD (mmio_w (PLIC_SENABLE hart) (Z.lor (Z.shiftl 1 UART0_IRQ) (Z.shiftl 1 VIRTIO0_IRQ)));;
  liftD (mmio_w (PLIC_SPRIORITY hart) 0).
Definition plic_claim : M tst Z :=
  hart <- cpuid;;
  irq <- liftD (mmio_r (PLIC_SCLAIM hart));;
  ret (s32 irq).
Definition plic_complete (irq : Z) : M tst unit :=
  hart <- cpuid;;
  liftD (mmio_w (PLIC_SCLAIM hart) (u32 irq)).

(** ** Interrupts *)

Definition trapinithart : M tst unit := liftH (w_stvec kernelvec_a).

(** [me] is [myproc()]. *)
Definition clockintr (me : option nat) : M tst unit :=
  modify (fun s => Tst (th s) (tk s) (u32 (ticks s + 1)) (tdev s));;
  liftT (wakeup me ticks_chan).

Definition devintr (me : option nat) : M tst Z :=
  scause <- liftH r_scause;;
  if ctrue (Z.land scause 0x8000000000000000) && (Z.land scause 0xff =? 9) then
    irq <- plic_claim;;
    (if irq =? UART0_IRQ then uartintr me else
     if irq =? VIRTIO0_IRQ then virtio_disk_intr me else ret tt);;
    (if ctrue irq then plic_complete irq else ret tt);;
    ret 1
  else if scause =? 0x8000000000000001 then
    hart <- cpuid;;
    (if hart =? 0 then clockintr me else ret tt);;
    sip <- liftH r_sip;;
    liftH (w_sip (Z.land sip (u64 (Z.lnot 2))));;
    ret 2
  else ret 0.

(** [yield]: the process is runnable, others run, and the scheduler makes it
    the running process again. *)
Definition tyield (me : nat) : M tst unit :=
  liftT (yield me);;
  others;;
  liftT (setproc me (set_p_state RUNNING)).

(** ** Returning to user space *)

(** [userret] is at its address in the trampoline page. *)
Definition usertrapret (me : nat) : M tst unit :=
  p <- liftT (getproc me);;
  liftH intr_off;;
  liftH (w_stvec TRAMPOLINE);;
  satp <- liftH r_satp;;
  liftT (liftM (wr64 (p_trapframe p + tf_kernel_satp) satp));;
  liftT (liftM (wr64 (p_trapframe p + tf_kernel_sp) (u64 (p_kstack p + PGSIZE))));;
  liftT (liftM (wr64 (p_trapframe p + tf_kernel_trap) usertrap_a));;
  tp <- liftH r_tp;;
  liftT (liftM (wr64 (p_trapframe p + tf_kernel_hartid) tp));;
  x <- liftH r_sstatus;;
  let x := Z.land x (u64 (Z.lnot SSTATUS_SPP)) in
  let x := Z.lor x SSTATUS_SPIE in
  liftH (w_sstatus x);;
  epc <- liftT (liftM (rd64 (p_trapframe p + tf_epc)));;
  liftH (w_sepc epc);;
  let satp := MAKE_SATP (p_pagetable p) in
  liftH (setr A0 satp);;
  liftH (modify (set_pc (TRAMPOLINE + userret_off)));;
  liftH (run_code userret).

(** ** Traps from user space *)

(** The three kinds of trap of [usertrap]; the result is [which_dev], or [None]
    if the process has exited or sleeps in a system call. *)
Definition usertrap_cause (me : nat) (p : proc) : M tst (option Z) :=
  scause <- liftH r_scause;;
  if scause =? 8 then
    k <- liftT (killed me);;
    if ctrue k then liftT (exit proc_addr me (-1));; ret None else
    epc <- liftT (liftM (rd64 (p_trapframe p + tf_epc)));;
    liftT (liftM (wr64 (p_trapframe p + tf_epc) (u64 (epc + 4))));;
    liftH intr_on;;
    t <- gets ticks;;
    o <- liftT (syscall forkret proc_addr dev_read dev_write junk pad page me t t);;
    ret match o with None => None | Some _ => Some 0 end
  else
    which_dev <- devintr (Some me);;
    (if which_dev =? 0 then liftT (setkilled me) else ret tt);;
    ret (Some which_dev).

(** The end of [usertrap]. *)
Definition usertrap_end (me : nat) (which_dev : Z) : M tst (option unit) :=
  k <- liftT (killed me);;
  if ctrue k then liftT (exit proc_addr me (-1));; ret None else
  (if which_dev =? 2 then tyield me else ret tt);;
  usertrapret me;;
  ret (Some tt).

Definition usertrap (me : nat) : M tst (option unit) :=
  x <- liftH r_sstatus;;
  if ctrue (Z.land x SSTATUS_SPP) then panic "usertrap: not from user mode" else
  liftH (w_stvec kernelvec_a);;
  p <- liftT (getproc me);;
  sepc <- liftH r_sepc;;
  liftT (liftM (wr64 (p_trapframe p + tf_epc) sepc));;
  r <- usertrap_cause me p;;
  match r with
  | None => ret None
  | Some which_dev => usertrap_end me which_dev
  end.

(** A trap of process [me] in user space: the hardware enters [uservec], which
    jumps to [usertrap]. *)
Definition user_trap (cause tval : Z) (me : nat) : M tst (option unit) :=
  liftH (trap_enter cause tval);;
  s <- get;;
  if negb (hpc (th s) =? TRAMPOLINE) then fault else
  liftH (run_code uservec);;
  s <- get;;
  if negb (hpc (th s) =? usertrap_a) then fault else
  usertrap me.

(** ** Traps in the kernel *)

Definition kerneltrap (me : option nat) : M tst unit :=
  sepc <- liftH r_sepc;;
  sstatus <- liftH r_sstatus;;
  if negb (ctrue (Z.land sstatus SSTATUS_SPP)) then panic "kerneltrap: not from supervisor mode" else
  on <- liftH intr_get;;
  if on : bool then panic "kerneltrap: interrupts enabled" else
  which_dev <- devintr me;;
  if which_dev =? 0 then panic "kerneltrap" else
  (match me with
   | Some i =>
       p <- liftT (getproc i);;
       if (which_dev =? 2) && bool_decide (p_state p = RUNNING) then tyield i else ret tt
   | None => ret tt
   end);;
  liftH (w_sepc sepc);;
  liftH (w_sstatus sstatus).

(** A trap of the hart while it runs the kernel; the compiled [kerneltrap] leaves
    [clobber] in the registers. *)
Definition kernel_trap (clobber : (reg -> Z) -> reg -> Z) (cause tval : Z) (me : option nat) : M tst unit :=
  liftH (trap_enter cause tval);;
  s <- get;;
  if negb (hpc (th s) =? kernelvec_a) then fault else
  liftH (run_code kernelvec_in);;
  kerneltrap me;;
  liftH (modify (set_regs clobber));;
  liftH (run_code kernelvec_out).
End Trap.
Arguments Tst {S D} th tk ticks tdev.
Arguments tst : clear implicits.
