(* ===== verification/TrapProofs.v ===== *)
(** * Traps and user space

    The invariant of a process in user space and of one in the kernel, that
    the trap and the return lead from one to the other, and what a trap
    changes of the process it interrupts. *)
From S2P Require Import Prelude Riscv Mem KString Kalloc Vm VmWalk VmMap VmUser Machine Bio BioSpec BioProofs Block Log TxSpec Fs FsBlock Pipe File Sysfile UserVm Proc Exec Syscall SyscallProofs Hart Asm AsmProofs Trap.

(** ** Bits of the status register *)

Lemma ctrue_land_bit x j : 0 <= j -> ctrue (Z.land x (Z.shiftl 1 j)) = Z.testbit x j.
Proof. intros Hj. unfold ctrue. rewrite land_bit by done. apply negb_involutive. Qed.

Lemma merge_bit mask old new j : 0 <= j -> Z.testbit (merge mask old new) j = if Z.testbit mask j then Z.testbit new j else Z.testbit old j.
Proof.
  intros Hj. unfold merge. rewrite Z.lor_spec, !Z.land_spec, Z.lnot_spec by done.
  by destruct (Z.testbit mask j), (Z.testbit old j), (Z.testbit new j).
Qed.

(** ** The hardware and the tables of vm.c *)

Section Mmu.
Context {L : Layout}.

(** On a well-formed table the hardware finds the entry that [walk] finds. *)
Lemma mmu_walk_pte level m pt va :
  pt_wf level m pt -> pte_valid (pte_val level m pt va) = true -> Z.land (pte_val level m pt va) (Z.lor PTE_R (Z.lor PTE_W PTE_X)) <> 0 ->
  mmu_walk level m pt va = Some (pte_val level m pt va, PTE2PA (pte_val level m pt va) + va mod PGSIZE).
Proof.
  revert pt. induction level as [|l IH]; intros pt Hwf Hv Hrwx.
  - unfold pte_val in *. cbn [pte_addr] in *. cbn [mmu_walk]. change (PX (Z.of_nat 0) va) with (PX 0 va).
    unfold pte_valid in Hv. rewrite Hv. cbn [negb]. by rewrite (proj2 (ctrue_true _) Hrwx).
  - unfold pte_val in Hv, Hrwx |- *. rewrite pte_addr_S in *. change (mmu_walk (Datatypes.S l) m pt va) with
      (let e := ld64 m (pt + 8 * PX (Z.of_nat (Datatypes.S l)) va) in
       if negb (ctrue (Z.land e PTE_V)) then None else
       if ctrue (Z.land e (Z.lor PTE_R (Z.lor PTE_W PTE_X))) then Some (e, PTE2PA e + va mod 2 ^ PXSHIFT (Z.of_nat (Datatypes.S l))) else mmu_walk l m (PTE2PA e) va).
    cbv zeta. set (e := ld64 m (pt + 8 * PX (Z.of_nat (Datatypes.S l)) va)) in *. fold (pte_valid e).
    destruct (pte_valid e) eqn:Ee; [|done]. cbn [negb]. destruct Hwf as [_ Hwf].
    destruct (Hwf (PX (Z.of_nat (Datatypes.S l)) va) (PX_range _ _) Ee) as [Hf Hc]. fold e in Hf, Hc.
    rewrite (land_flag_PTE_FLAGS e), Hf by done. change (ctrue _) with false at 1. cbv iota. by apply IH.
Qed.

Lemma satp_root pt : page_ok pt -> Z.shiftl (MAKE_SATP pt mod 2 ^ 44) 12 = pt /\ MAKE_SATP pt <> 0.
Proof.
  intros Hok. pose proof (page_ok_bounds pt Hok) as Hb. destruct Hok as [Hpt _]. unfold PHYSTOP, KERNBASE, PGSIZE in *.
  unfold MAKE_SATP, SATP_SV39. rewrite !Z.shiftl_mul_pow2, Z.shiftr_div_pow2 by lia.
  assert (Hq : 0 <= pt / 2 ^ 12 < 2 ^ 44) by (split; [apply Z.div_pos; lia|apply Z.div_lt_upper_bound; lia]).
  assert (El : Z.lor (8 * 2 ^ 60) (pt / 2 ^ 12) = 8 * 2 ^ 60 + pt / 2 ^ 12).
  { symmetry. apply Z.add_nocarry_lor. apply Z.bits_inj'. intros i Hi. rewrite Z.land_spec, Z.testbit_0_l.
    destruct (Z.lt_ge_cases i 44); [by rewrite Z.mul_pow2_bits_low by lia|by rewrite (testbit_high (pt / 2 ^ 12) 44) by lia; rewrite andb_false_r]. }
  rewrite El. split; [|lia]. replace (8 * 2 ^ 60 + pt / 2 ^ 12) with (pt / 2 ^ 12 + 2 ^ 19 * 2 ^ 44) by lia. rewrite Z.mod_add, Z.mod_small by lia.
  pose proof (Z.div_mod pt 4096). change (2 ^ 12) with 4096. lia.
Qed.

(** A page mapped read-write for the kernel, outside the table itself. *)
Lemma maps_of_table m pt va pa n :
  pt_wf 2 m pt -> pte_val 2 m pt va = mk_pte pa (Z.lor PTE_R PTE_W) -> page_ok pa -> pa ∉ pt_pages 2 m pt ->
  0 <= va -> va mod PGSIZE = 0 -> va + PGSIZE <= MAXVA -> n <= PGSIZE -> maps Supervisor (MAKE_SATP pt) m va pa n.
Proof.
  intros Hwf Hpte Hpa Hout Hva Hal Hend Hn m' Hs k o Ho Hon. pose proof (page_ok_bounds pa Hpa) as Hb. rewrite MAXVA_eq in Hend.
  unfold PHYSTOP, KERNBASE, PGSIZE in *. pose proof (pt_wf_page _ _ _ Hwf) as Hpt.
  assert (Hag : forall p, p ∈ pt_pages 2 m pt -> agree p (p + PGSIZE) m m').
  { intros p Hp x Hx. symmetry. apply Hs. pose proof (pt_wf_pages _ _ _ _ Hwf Hp) as [Hp1 _]. destruct Hpa as [Hpa1 _].
    assert (p <> pa) by (by intros ->). clear - Hp1 Hpa1 Hx Hn H. unfold PGSIZE in *. pose proof (Z.div_mod p 4096). pose proof (Z.div_mod pa 4096). lia. }
  destruct (pt_frame 2 m m' pt Hag) as (_ & Hwf' & _). specialize (Hwf' Hwf).
  assert (Hsame : (va + o) / 4096 = va / 4096) by (pose proof (Z.div_mod va 4096); symmetry; apply (Z.div_unique _ _ _ o); lia).
  assert (Hpv : pte_val 2 m' pt (va + o) = mk_pte pa (Z.lor PTE_R PTE_W)).
  { rewrite <- Hpte, <- (pte_val_frame 2 m m' pt va Hag). exact (pte_same_page (Kst m' 0) pt (va + o) va Hsame). }
  unfold xlate. rewrite u64_small by lia.
  destruct (satp_root pt Hpt) as [Hroot Hne]. rewrite (proj2 (Z.eqb_neq _ _) Hne), Hroot, MAXVA_eq.
  rewrite (proj2 (Z.leb_le 0 (va + o))), (proj2 (Z.ltb_lt (va + o) 274877906944)) by lia. cbn [andb negb].
  assert (Hfl : PTE_FLAGS (pte_val 2 m' pt (va + o)) = Z.lor (Z.lor PTE_R PTE_W) PTE_V) by (rewrite Hpv; apply mk_pte_flags; [lia|done]).
  rewrite (mmu_walk_pte 2 m' pt (va + o) Hwf').
  - unfold allowed. rewrite (land_flag_PTE_FLAGS _ (match k with Load => _ | Store => _ end)), (land_flag_PTE_FLAGS _ PTE_U), Hfl by (destruct k; split; done). rewrite Hpv, mk_pte_pa by (done || lia || apply Hpa).
    replace ((va + o) mod PGSIZE) with o by (unfold PGSIZE; pose proof (Z.div_mod va 4096); apply (Z.mod_unique _ _ (va / 4096)); lia). by destruct k.
  - rewrite Hpv. apply mk_pte_valid; [lia|done].
  - by rewrite land_flag_PTE_FLAGS, Hfl.
Qed.
End Mmu.

(** The status register [usertrapret] writes makes [sret] go to user mode. *)
Lemma spp_clear x old : Z.testbit (merge SSTATUS_VIEW old (Z.lor (Z.land x (u64 (Z.lnot SSTATUS_SPP))) SSTATUS_SPIE)) 8 = false.
Proof. rewrite merge_bit by done. change (Z.testbit SSTATUS_VIEW 8) with true. by rewrite Z.lor_spec, Z.land_spec, andb_false_r. Qed.

Section Traps.
Context {L : Layout} {S : Type} `{BlockStore S} {D : Type}.
Context (mmio_r : Z -> M D Z) (mmio_w : Z -> Z -> M D unit).
Context (forkret : Z) (proc_addr : nat -> Z).
Context (dev_read dev_write : Z -> option (Z -> Z -> M (kfs S vmem) Z)).
Context (junk pad : list Z) (page : option (list Z)).
Context (kernelvec_a usertrap_a userret_off ticks_chan : Z).
Context (others : M (tst S D) unit) (uartintr virtio_disk_intr : option nat -> M (tst S D) unit).
Notation T := (tst S D).
Notation kmem s := (mem (km (tk s))).
Implicit Types (s : T) (tf pt u : Z) (f : reg -> Z) (fr : Z -> Z).

Lemma wp_liftH {A} (c : M hart A) s (Q : A -> T -> Prop) :
  wp c (set_pmem (kmem s) (th s)) (fun a h => Q a (Tst h (set_mem (pmem h) (tk s)) (ticks s) (tdev s))) -> wp (liftH c) s Q.
Proof. unfold wp, liftH. by destruct (c _) as [[a h]| | |]. Qed.

Lemma wp_liftT {A} (c : M (kern S) A) s (Q : A -> T -> Prop) :
  wp c (tk s) (fun a k => Q a (Tst (th s) k (ticks s) (tdev s))) -> wp (liftT c) s Q.
Proof. unfold wp, liftT. by destruct (c _) as [[a h]| | |]. Qed.

Lemma wp_liftD {A} (c : M D A) s (Q : A -> T -> Prop) :
  wp c (tdev s) (fun a d => Q a (Tst (th s) (tk s) (ticks s) d)) -> wp (liftD c) s Q.
Proof. unfold wp, liftD. by destruct (c _) as [[a h]| | |]. Qed.

(** ** A process in the kernel and in user space *)

(** The process, its frame in memory and the mapping of the frame. *)
Record mine (me : nat) tf pt s : Prop := Mine {
  m_proc : exists p, procs (tk s) !! me = Some p /\ p_trapframe p = tf /\ p_pagetable p = pt /\ p_killed p = 0;
  m_ram : in_ram tf 288 = true;
  m_map : maps Supervisor (MAKE_SATP pt) (kmem s) TRAPFRAME tf 288;
}.

(** In the kernel, the doubleword at each offset [o] of the frame is [fr o]. *)
Record resident (me : nat) tf pt fr s : Prop := Resident {
  r_mine : mine me tf pt s;
  r_mode : pmode (th s) = Supervisor;
  r_frame : forall o, 0 <= o -> o + 8 <= 288 -> o mod 8 = 0 -> ld64 (kmem s) (tf + o) = fr o;
}.

(** In user space with registers [f] at [u], ready for the next trap. *)
Record in_user (me : nat) tf pt f u s : Prop := InUser {
  u_mine : mine me tf pt s;
  u_mode : pmode (th s) = User;
  u_regs : forall r, regs (th s) r = f r;
  u_words : words f;
  u_pc : hpc (th s) = u /\ 0 <= u < 2 ^ 64;
  u_satp : csrs (th s) Satp = MAKE_SATP pt;
  u_stvec : csrs (th s) Stvec = TRAMPOLINE;
  u_entry : ld64 (kmem s) (tf + tf_kernel_trap) = usertrap_a;
}.

Lemma in_user_ext me tf pt f f' u s : (forall r, f r = f' r) -> in_user me tf pt f u s -> in_user me tf pt f' u s.
Proof. intros E [? ? Hr Hw ? ? ? ?]. constructor; try done; [intros r; by rewrite Hr|intros r; rewrite <- E; apply Hw]. Qed.

(** The registers a frame holds. *)
Definition regs_of fr : reg -> Z := fun r => fr (tf_slot r).

Lemma tf_slot_range r : 40 <= tf_slot r /\ tf_slot r + 8 <= 288 /\ tf_slot r mod 8 = 0.
Proof. by destruct r. Qed.

(** Only the process, the mode and memory matter. *)
Lemma resident_ext me tf pt fr s s' :
  procs (tk s') = procs (tk s) -> pmode (th s') = pmode (th s) -> kmem s' = kmem s -> resident me tf pt fr s -> resident me tf pt fr s'.
Proof. intros Ep Em Ek [[Hp Hr Hm] Hx Hf]. constructor; [constructor|..]; rewrite ?Ep, ?Em, ?Ek; done. Qed.

Lemma resident_frame me tf pt fr fr' s : (forall o, fr o = fr' o) -> resident me tf pt fr s -> resident me tf pt fr' s.
Proof. intros E [Hm Hx Hf]. constructor; [done..|]. intros o Ho Hn H8. by rewrite <- E, Hf. Qed.

(** The kernel state has changed in the frame at [tf] only. *)
Definition entered tf (k k' : kern S) : Prop := exists m, k' = set_mem m k /\ same_outside tf (tf + 288) (mem (km k)) m.

Lemma entered_refl tf k : entered tf k k.
Proof. exists (mem (km k)). split; [|done]. by destruct k as [[]]. Qed.

Lemma entered_trans tf k1 k2 k3 : entered tf k1 k2 -> entered tf k2 k3 -> entered tf k1 k3.
Proof. intros (m1 & -> & H1) (m2 & -> & H2). exists m2. split; [done|]. by eapply same_outside_trans. Qed.

(** Code that works on the hart's own registers. *)
Lemma wp_hart_step {A} (c : M hart A) me tf pt fr s (Q : A -> T -> Prop) :
  resident me tf pt fr s ->
  wp c (set_pmem (kmem s) (th s)) (fun a h => pmem h = kmem s /\ pmode h = Supervisor /\
    forall s', th s' = h -> ticks s' = ticks s -> entered tf (tk s) (tk s') -> resident me tf pt fr s' -> Q a s') ->
  wp (liftH c) s Q.
Proof.
  intros Hres Hc. apply wp_liftH. eapply wp_mono; [exact Hc|]. cbv beta. intros a h (Hm & Hx & HQ). apply HQ; [done|done|exists (kmem s); by rewrite Hm|].
  eapply resident_ext; [| | |exact Hres]; cbn; [done|by rewrite Hx, (r_mode _ _ _ _ _ Hres)|done].
Qed.

(** Reading and writing a field of the frame from C. *)
Lemma wp_frame_rd me tf pt fr s o (Q : Z -> T -> Prop) :
  resident me tf pt fr s -> 0 <= o -> o + 8 <= 288 -> o mod 8 = 0 -> Q (fr o) s -> wp (liftT (liftM (rd64 (tf + o)))) s Q.
Proof.
  intros [[Hp Hr Hm] Hx Hf] Ho Hn H8 HQ. apply wp_liftT, wp_liftM, wp_rd64.
  - unfold in_ram in *. bool_prop. rewrite (proj2 (Z.leb_le _ _)), (proj2 (Z.leb_le _ _)) by lia. done.
  - rewrite Hf by done. destruct s as [h [k ps i n kf kt kp] t d], k. exact HQ.
Qed.

Definition fr_upd o v fr : Z -> Z := fun x => if x =? o then v else fr x.

Lemma wp_frame_wr me tf pt fr s o v (Q : unit -> T -> Prop) :
  resident me tf pt fr s -> 0 <= o -> o + 8 <= 288 -> o mod 8 = 0 ->
  (forall s', th s' = th s -> ticks s' = ticks s -> entered tf (tk s) (tk s') -> resident me tf pt (fr_upd o (u64 v) fr) s' -> Q tt s') -> wp (liftT (liftM (wr64 (tf + o) v))) s Q.
Proof.
  intros [[Hp Hr Hm] Hx Hf] Ho Hn H8 HQ. apply wp_liftT, wp_liftM, wp_wr64.
  { unfold in_ram in *. bool_prop. rewrite (proj2 (Z.leb_le _ _)), (proj2 (Z.leb_le _ _)) by lia. done. }
  apply HQ; [done|done|eexists; split; [reflexivity|]; apply same_outside_st64; lia|]. constructor; [constructor|..]; cbn; [done|done| |done|].
  - eapply maps_same; [exact Hm|]. apply same_outside_st64; lia.
  - intros x Hx0 Hx1 Hx2. unfold fr_upd. destruct (Z.eqb_spec x o) as [->|Hne]; [apply (ldn_stn_eq 8)|].
    rewrite ld64_st64_ne by (pose proof (Z.div_mod x 8); pose proof (Z.div_mod o 8); lia). by apply Hf.
Qed.

Lemma fr_range me tf pt fr s o : resident me tf pt fr s -> 0 <= o -> o + 8 <= 288 -> o mod 8 = 0 -> 0 <= fr o < 2 ^ 64.
Proof. intros Hres Ho Hn H8. rewrite <- (r_frame _ _ _ _ _ Hres) by done. apply ld64_range. Qed.

(** ** The return to user space *)

Hypothesis usertrap_range : 0 <= usertrap_a < 2 ^ 64.

Ltac hart_norm := cbv beta iota delta [regs csrs pmode hpc pmem set_regs set_csrs set_pc set_mode set_pmem rd_csr wr_csr].
(** One access to the hart's registers from C. *)
Ltac hart_step Hres :=
  apply wp_bind; eapply wp_hart_step; [exact Hres|];
  unfold intr_off, intr_on, w_stvec, r_satp, r_tp, r_sstatus, w_sstatus, r_sepc, w_sepc, r_scause, setr, getr, csrr, csrw; repeat (wp_step; cbv beta);
  split_and!; [reflexivity|exact (r_mode _ _ _ _ _ Hres)|].

(** [userret] from a hart that is set up for it. *)
Lemma wp_to_user me tf pt fr s (Q : unit -> T -> Prop) :
  resident me tf pt fr s -> regs (th s) A0 = MAKE_SATP pt -> csrs (th s) Stvec = TRAMPOLINE ->
  Z.testbit (csrs (th s) Mstatus) 8 = false -> csrs (th s) Sepc = fr tf_epc -> fr tf_kernel_trap = usertrap_a ->
  (forall s', in_user me tf pt (regs_of fr) (fr tf_epc) s' -> ticks s' = ticks s -> Q tt s') ->
  wp (liftH (run_code userret)) s Q.
Proof.
  intros Hres Ha Hst Hspp Hepc Hkt HQ. apply wp_liftH. pose proof Hres as [[Hp Hr Hm] Hx Hf].
  apply (wp_userret _ tf); [exact Hx|cbn; by rewrite Ha|]. intros f Hfr. apply HQ; [|done].
  assert (Hf' : forall r, f r = regs_of fr r).
  { intros r. rewrite <- (Hfr r). destruct (tf_slot_range r) as (H1 & H2 & H3). apply Hf; [lia|done|done]. }
  constructor.
  - constructor; done.
  - change ((if Z.testbit (csrs (th s) Mstatus) 8 then Supervisor else User) = User). by rewrite Hspp.
  - exact Hf'.
  - intros r. destruct (tf_slot_range r) as (H1 & H2 & H3). eapply fr_range; [exact Hres|lia|done|done].
  - split; [exact Hepc|]. by eapply fr_range; [exact Hres|..].
  - cbn. by rewrite Ha.
  - exact Hst.
  - cbn. rewrite <- Hkt. by apply Hf.
Qed.

Lemma wp_usertrapret me tf pt fr s (Q : unit -> T -> Prop) :
  resident me tf pt fr s ->
  (forall s', in_user me tf pt (regs_of fr) (fr tf_epc) s' -> ticks s' = ticks s -> Q tt s') ->
  wp (usertrapret usertrap_a userret_off me) s Q.
Proof.
  intros Hres HQ. destruct (m_proc _ _ _ _ (r_mine _ _ _ _ _ Hres)) as (p & Hp & Htf & Hpt & Hk).
  unfold usertrapret. apply wp_bind. apply wp_liftT. eapply wp_getproc; [exact Hp|]. rewrite Htf, Hpt.
  assert (Hr0 : resident me tf pt fr (Tst (th s) (tk s) (ticks s) (tdev s))) by (eapply resident_ext; [..|exact Hres]; done).
  hart_step Hr0. intros s1 _ T1 _ R1. hart_step R1. intros s2 E2 T2 _ R2.
  hart_step R2. intros s3 E3 T3 _ R3. apply wp_bind. eapply wp_frame_wr; [exact R3|done|done|done|]. intros s4 E4 T4 _ R4.
  apply wp_bind. eapply wp_frame_wr; [exact R4|done|done|done|]. intros s5 E5 T5 _ R5.
  apply wp_bind. eapply wp_frame_wr; [exact R5|done|done|done|]. intros s6 E6 T6 _ R6.
  hart_step R6. intros s7 E7 T7 _ R7. apply wp_bind. eapply wp_frame_wr; [exact R7|done|done|done|]. intros s8 E8 T8 _ R8.
  hart_step R8. intros s9 E9 T9 _ R9. hart_step R9. intros s10 E10 T10 _ R10.
  apply wp_bind. eapply wp_frame_rd; [exact R10|done|done|done|].
  hart_step R10. intros s11 E11 T11 _ R11. hart_step R11. intros s12 E12 T12 _ R12. 
  apply wp_bind. eapply wp_hart_step; [exact R12|]. wp_step. split_and!; [reflexivity|exact (r_mode _ _ _ _ _ R12)|]. intros s13 E13 T13 _ R13.
  eapply wp_to_user; [exact R13|by rewrite E13, E12|..].
  - by rewrite E13, E12, E11, E10, E9, E8, E7, E6, E5, E4, E3, E2.
  - rewrite E13, E12, E11, E10. exact (spp_clear _ (csrs (th s9) Mstatus)).
  - by rewrite E13, E12, E11.
  - change (u64 usertrap_a = usertrap_a). by apply u64_small.
  - intros s' Hs' Et. apply HQ; [eapply in_user_ext; [|exact Hs']; by intros []|].
    by rewrite Et, T13, T12, T11, T10, T9, T8, T7, T6, T5, T4, T3, T2, T1.
Qed.

(** ** The way in *)

Notation trap := (user_trap mmio_r mmio_w forkret proc_addr dev_read dev_write junk pad page kernelvec_a usertrap_a userret_off ticks_chan others uartintr virtio_disk_intr).
Notation utrap := (usertrap mmio_r mmio_w forkret proc_addr dev_read dev_write junk pad page kernelvec_a usertrap_a userret_off ticks_chan others uartintr virtio_disk_intr).

Lemma wp_trap_in me tf pt f u cause tval s (Q : option unit -> T -> Prop) :
  in_user me tf pt f u s ->
  (forall s' fr, resident me tf pt fr s' -> (forall r, regs_of fr r = f r) -> csrs (th s') Sepc = u -> csrs (th s') Scause = cause ->
     Z.testbit (csrs (th s') Mstatus) 8 = false -> ticks s' = ticks s -> entered tf (tk s) (tk s') -> wp (utrap me) s' Q) ->
  wp (trap cause tval me) s Q.
Proof.
  intros [[Hp Hram Hmap] Hx Hr Hw [Hpc Hu] Hsatp Hstvec Hent] HQ. unfold user_trap.
  apply wp_bind, wp_liftH. unfold trap_enter. wp_step. apply wp_bind, wp_get. match goal with |- context [negb (?x =? TRAMPOLINE)] => change x with (csrs (th s) Stvec) end.
  rewrite Hstvec, Z.eqb_refl. cbn [negb].
  apply wp_bind, wp_liftH. set (m := kmem s). cbn [th tk pmem set_mem km mem]. eapply (wp_uservec _ tf).
  - done.
  - intros r. cbn. rewrite Hr. apply Hw.
  - change (maps Supervisor (csrs (th s) Satp) m TRAPFRAME tf 288). by rewrite Hsatp.
  - cbn. intros f' c' m' Hfr Hsame _ _ _ _ Hc. apply wp_bind, wp_get.
    match goal with |- context [negb (?x =? usertrap_a)] => change x with (ld64 (kmem s) (tf + tf_kernel_trap)) end.
    rewrite Hent, Z.eqb_refl. cbn [negb].
    apply (HQ _ (fun o => ld64 m' (tf + o))).
    + constructor; [constructor|done|done]; cbn; [done|done|]. eapply maps_same; [exact Hmap|]. intros y Hy. apply Hsame. lia.
    + intros r. unfold regs_of. rewrite (Hfr r). by rewrite Hr.
    + change (c' Sepc = u). rewrite Hc by done. exact Hpc.
    + change (c' Scause = cause). by rewrite Hc.
    + change (Z.testbit (c' Mstatus) 8 = false). rewrite Hc by done. change (Z.testbit (set_bit_at 8 (bool_decide (pmode (th s) = Supervisor)) (set_bit_at 1 false (set_bit_at 5 (Z.testbit (csrs (th s) Mstatus) 1) (csrs (th s) Mstatus)))) 8 = false).
      rewrite testbit_set_bit_at by done. by rewrite Hx.
    + done.
    + exists m'. split; [done|]. intros y Hy. apply Hsame. lia.
Qed.

Notation tcause := (usertrap_cause mmio_r mmio_w forkret proc_addr dev_read dev_write junk pad page ticks_chan uartintr virtio_disk_intr).
Notation tend := (usertrap_end proc_addr usertrap_a userret_off others).

(** [usertrap] up to the dispatch on the cause. *)
Lemma wp_usertrap me tf pt fr u s (Q : option unit -> T -> Prop) :
  resident me tf pt fr s -> csrs (th s) Sepc = u -> 0 <= u < 2 ^ 64 -> Z.testbit (csrs (th s) Mstatus) 8 = false ->
  (forall s' p, p_trapframe p = tf -> resident me tf pt (fr_upd tf_epc u fr) s' -> csrs (th s') Scause = csrs (th s) Scause -> ticks s' = ticks s -> entered tf (tk s) (tk s') ->
     wp (tcause me p) s' (fun r s2 => match r with None => Q None s2 | Some w => wp (tend me w) s2 Q end)) ->
  wp (utrap me) s Q.
Proof.
  intros Hres Hepc Hu Hspp HQ. unfold usertrap. hart_step Hres. intros s1 E1 T1 N1 R1.
  change (rd_csr Sstatus _) with (Z.land (csrs (th s) Mstatus) SSTATUS_VIEW).
  unfold SSTATUS_SPP at 1. rewrite ctrue_land_bit, Z.land_spec, Hspp by done. cbn [andb].
  hart_step R1. intros s2 E2 T2 N2 R2.
  destruct (m_proc _ _ _ _ (r_mine _ _ _ _ _ R2)) as (p & Hp & Htf & Hpt & Hk).
  apply wp_bind, wp_liftT. eapply wp_getproc; [exact Hp|].
  assert (Hr0 : resident me tf pt fr (Tst (th s2) (tk s2) (ticks s2) (tdev s2))) by (eapply resident_ext; [..|exact R2]; done).
  hart_step Hr0. intros s3 E3 T3 N3 R3. rewrite Htf.
  match goal with |- context [wr64 _ ?v] => replace v with u by (cbn; rewrite E2, E1; symmetry; exact Hepc) end.
  apply wp_bind. eapply wp_frame_wr; [exact R3|done|done|done|]. intros s4 E4 T4 N4 R4. rewrite u64_small in R4 by done.
  apply wp_bind. eapply wp_mono; [apply (HQ s4 p Htf R4)|].
  - by rewrite E4, E3, E2, E1.
  - rewrite T4, T3. cbn. by rewrite T2, T1.
  - eapply entered_trans; [exact N1|]. eapply entered_trans; [exact N2|]. by eapply entered_trans.
  - intros [w|] s5 H5; [exact H5|]. by apply wp_ret.
Qed.

(** The end of [usertrap], for a process that others leave alone. *)
Lemma wp_usertrap_end me tf pt fr w s :
  (forall s, resident me tf pt fr s -> wp others s (fun _ s' => resident me tf pt fr s')) -> resident me tf pt fr s -> wp (tend me w) s (fun r s' => r = Some tt /\ in_user me tf pt (regs_of fr) (fr tf_epc) s').
Proof.
  intros Ho Hres. assert (Hset : forall st s, resident me tf pt fr s -> wp (liftT (setproc me (set_p_state st))) s (fun _ s' => resident me tf pt fr s')).
  { intros st s1 [[(p & Hp & Htf & Hpt & Hk) Hr Hm] Hx Hf]. apply wp_liftT. eapply wp_setproc; [exact Hp|].
    constructor; [constructor|done|done]; [|done|done]. exists (set_p_state st p). split_and!; [|done..]. cbn. apply list_lookup_insert_eq. by eapply lookup_lt_Some. }
  unfold usertrap_end. destruct (m_proc _ _ _ _ (r_mine _ _ _ _ _ Hres)) as (p & Hp & Htf & Hpt & Hk).
  apply wp_bind, wp_liftT. unfold killed. apply wp_bind. eapply wp_getproc; [exact Hp|]. apply wp_ret. rewrite Hk. cbn [ctrue Z.eqb negb].
  change (ctrue 0) with false. cbv iota.
  assert (Hr0 : resident me tf pt fr (Tst (th s) (tk s) (ticks s) (tdev s))) by (eapply resident_ext; [..|exact Hres]; done).
  apply wp_bind. apply (wp_mono _ _ (fun _ s' => resident me tf pt fr s')).
  - destruct (w =? 2); [|by apply wp_ret]. unfold tyield. apply wp_bind. eapply wp_mono; [by apply Hset|]. intros [] s1 R1.
    apply wp_bind. eapply wp_mono; [by apply Ho|]. intros [] s2 R2. by apply Hset.
  - intros [] s1 R1. apply wp_bind. eapply wp_usertrapret; [exact R1|]. intros s2 Hin _. by apply wp_ret.
Qed.

(** ** Interrupts *)

(** The causes [devintr] knows: the interrupt controller and the timer. *)
Definition is_interrupt (cause : Z) : Prop :=
  (Z.testbit cause 63 = true /\ Z.land cause 0xff = 9) \/ cause = 0x8000000000000001.

(** Code that keeps a property of the state. *)
Definition keeps {A} (P : T -> Prop) (c : M T A) : Prop := forall s, P s -> wp c s (fun _ s' => P s').

Lemma keeps_bind {A B} P (c : M T A) (k : A -> M T B) : keeps P c -> (forall a, keeps P (k a)) -> keeps P (bind c k).
Proof. intros Hc Hk s Hs. apply wp_bind. eapply wp_mono; [by apply Hc|]. intros a s' R. by apply Hk. Qed.

Lemma keeps_ret {A} P (a : A) : keeps P (ret a).
Proof. intros s Hs. by apply wp_ret. Qed.

(** A property that says nothing about the devices, the clock or the control
    registers but [satp], nor about whether a process other than [me] sleeps. *)
Definition robust (me : option nat) (P : T -> Prop) : Prop :=
  forall s s', regs (th s') = regs (th s) -> pmode (th s') = pmode (th s) -> csrs (th s') Satp = csrs (th s) Satp -> kmem s' = kmem s ->
    (procs (tk s') = procs (tk s) \/ exists chan, procs (tk s') = wake_others me chan (procs (tk s))) -> P s -> P s'.

Lemma keeps_hart {A} me P (c : M hart A) :
  robust me P -> (forall h, wp c h (fun _ h' => regs h' = regs h /\ pmode h' = pmode h /\ csrs h' Satp = csrs h Satp /\ pmem h' = pmem h)) -> keeps P (liftH c).
Proof.
  intros HP Hc s Hs. apply wp_liftH. eapply wp_mono; [apply Hc|]. cbv beta. intros a h (E1 & E2 & E3 & E4).
  eapply HP; [..|exact Hs]; [exact E1|exact E2|exact E3|exact E4|by left].
Qed.

Lemma keeps_dev {A} me P (c : M D A) : robust me P -> (forall d, wp c d (fun _ _ => True)) -> keeps P (liftD c).
Proof.
  intros HP Hc s Hs. apply wp_liftD. eapply wp_mono; [apply Hc|]. intros a d _. eapply HP; [..|exact Hs]; [done..|by left].
Qed.

Lemma keeps_clock me P : robust me P -> keeps P (clockintr ticks_chan me).
Proof.
  intros HP s Hs. unfold clockintr. apply wp_bind, wp_modify. apply wp_liftT. unfold wakeup, set_procs. wp_step.
  eapply HP; [..|exact Hs]; [done..|]. right. by exists ticks_chan.
Qed.

(** The hardware answers every access, and the handlers of the devices keep
    [P]. *)
Definition devices_ok (me : option nat) (P : T -> Prop) : Prop :=
  (forall a d, wp (mmio_r a) d (fun _ _ => True)) /\ (forall a v d, wp (mmio_w a v) d (fun _ _ => True)) /\
  keeps P (uartintr me) /\ keeps P (virtio_disk_intr me).

Notation dintr := (devintr mmio_r mmio_w ticks_chan uartintr virtio_disk_intr).

Lemma wp_devintr me P s :
  robust me P -> devices_ok me P -> is_interrupt (csrs (th s) Scause) -> P s -> wp (dintr me) s (fun r s' => (r = 1 \/ r = 2) /\ P s').
Proof.
  intros HP (Hr & Hw & Hu & Hv) Hc Hs.
  assert (Hrd : forall c, keeps P (@liftH S D Z (csrr c))) by (intros c; apply (keeps_hart me); [done|]; intros h; by apply wp_gets).
  assert (Hcpu : keeps P (@cpuid S D)).
  { unfold cpuid, r_tp, getr. apply keeps_bind; [|intros; apply keeps_ret]. apply (keeps_hart me); [done|]. intros h. by apply wp_gets. }
  unfold devintr. apply wp_bind. apply (wp_mono _ _ (fun c s' => c = csrs (th s) Scause /\ P s')).
  { apply wp_liftH. unfold r_scause, csrr. wp_step. split; [done|]. eapply HP; [..|exact Hs]; [done..|by left]. }
  intros c s1 [-> R1]. set (c := csrs (th s) Scause) in *. clearbody c.
  change 0x8000000000000000 with (Z.shiftl 1 63). rewrite ctrue_land_bit by done.
  destruct Hc as [[H63 H9]| ->].
  - rewrite H63, H9. cbn [andb Z.eqb Pos.eqb]. unfold plic_claim, plic_complete.
    apply wp_bind. eapply wp_mono; [apply (keeps_bind P _ _ Hcpu); [|exact R1]|].
    { intros h. apply keeps_bind; [by apply (keeps_dev me)|intros; apply keeps_ret]. }
    cbv beta. intros irq s2 R2. apply wp_bind. apply (wp_mono _ _ (fun _ s' => P s')).
    { destruct (irq =? UART0_IRQ); [by apply Hu|]. destruct (irq =? VIRTIO0_IRQ); [by apply Hv|by apply wp_ret]. }
    intros [] s3 R3. apply wp_bind. apply (wp_mono _ _ (fun _ s' => P s')).
    { destruct (ctrue irq); [|by apply wp_ret]. apply keeps_bind; [exact Hcpu| |exact R3]. intros h. by apply (keeps_dev me). }
    intros [] s4 R4. apply wp_ret. auto.
  - change (Z.testbit 0x8000000000000001 63 && (Z.land 0x8000000000000001 255 =? 9)) with false. rewrite Z.eqb_refl. cbv iota.
    apply wp_bind. eapply wp_mono; [by apply Hcpu|]. cbv beta. intros h s2 R2.
    apply wp_bind. apply (wp_mono _ _ (fun _ s' => P s')).
    { destruct (h =? 0); [by apply keeps_clock|by apply wp_ret]. }
    intros [] s3 R3. apply wp_bind. eapply wp_mono; [by apply Hrd|].
    cbv beta. intros sip s4 R4. apply wp_bind. unfold w_sip, csrw.
    eapply wp_mono; [apply (keeps_hart me P); [done| |exact R4]|]; [intros h'; by apply wp_modify|].
    intros [] s5 R5. apply wp_ret. auto.
Qed.

Lemma resident_robust me tf pt fr : robust (Some me) (resident me tf pt fr).
Proof.
  intros s s' _ Ex _ Em Ep [[(p & Hp & Hq) Hr Hm] Hx Hf]. constructor; [constructor|by rewrite Ex|by rewrite Em]; [|done|by rewrite Em].
  exists p. split; [|exact Hq]. destruct Ep as [-> |[chan ->]]; [done|]. unfold wake_others. rewrite list_lookup_imap, Hp. cbn. by rewrite bool_decide_eq_true_2.
Qed.

(** What is relied on for process [me]: the handlers and whatever else runs
    leave its frame, its mapping and its killed flag alone. *)
Definition undisturbed me tf pt : Prop := forall fr, devices_ok (Some me) (resident me tf pt fr) /\ keeps (resident me tf pt fr) others.


(** ** System calls *)

(** The kernel state [k] with any hart in supervisor mode around it. *)
Definition kresident me tf pt fr (k : kern S) : Prop :=
  forall s, tk s = k -> pmode (th s) = Supervisor -> resident me tf pt fr s.

Notation handler := (syscalls forkret proc_addr dev_read dev_write junk pad page).

(** [syscall] stores the result in the frame's [a0]. *)
Lemma wp_syscall me tf pt fr h v pt' fr' t s :
  resident me tf pt fr s -> handler me t t (s32 (fr tf_a7)) = Some h ->
  wp h (tk s) (fun r k => r = Some v /\ kresident me tf pt' fr' k) ->
  wp (liftT (syscall forkret proc_addr dev_read dev_write junk pad page me t t)) s (fun o s' =>
    o <> None /\ th s' = th s /\ resident me tf pt' (fr_upd tf_a0 (u64 v) fr') s').
Proof.
  intros Hres Hh Hw. destruct (m_proc _ _ _ _ (r_mine _ _ _ _ _ Hres)) as (p & Hp & Htf & Hpt & Hk).
  apply wp_liftT. unfold syscall. apply wp_bind. eapply wp_getproc; [exact Hp|]. rewrite Htf.
  pose proof (wp_frame_rd me tf pt fr s tf_a7 (fun z s' => z = fr tf_a7 /\ s' = s) Hres ltac:(done) ltac:(done) ltac:(done) (conj eq_refl eq_refl)) as Hrd.
  apply wp_inv in Hrd as (z & s1 & Erd & -> & ->). unfold liftT in Erd.
  destruct (liftM (rd64 (tf + tf_a7)) (tk s)) as [[z k]| | |] eqn:Er; try done. injection Erd as Ez Es. subst z.
  assert (k = tk s) as -> by (destruct s; by injection Es). clear Es.
  apply wp_bind. eapply wp_eq; [exact Er|]. rewrite Hh. apply wp_bind. eapply wp_mono; [exact Hw|]. intros r k [-> Hk'].
  set (s2 := Tst (th s) k (ticks s) (tdev s)).
  assert (R2 : resident me tf pt' fr' s2) by (apply Hk'; [done|exact (r_mode _ _ _ _ _ Hres)]).
  pose proof (wp_frame_wr me tf pt' fr' s2 tf_a0 (u64 v) (fun _ s' => th s' = th s /\ resident me tf pt' (fr_upd tf_a0 (u64 v) fr') s') R2 ltac:(done) ltac:(done) ltac:(done)) as Hwr.
  rewrite (u64_small (u64 v)) in Hwr by apply u64_range. specialize (Hwr (fun s' E _ _ R => conj E R)).
  apply wp_inv in Hwr as ([] & s3 & Ewr & E3 & R3). unfold liftT in Ewr.
  destruct (liftM (wr64 (tf + tf_a0) (u64 v)) (tk s2)) as [[[] k3]| | |] eqn:Ew; try done. injection Ewr as Es.
  apply wp_bind. eapply wp_eq; [exact Ew|]. subst s3. destruct (m_proc _ _ _ _ (r_mine _ _ _ _ _ R3)) as (p3 & Hp3 & _).
  apply wp_bind. eapply wp_getproc; [exact Hp3|]. apply wp_ret. split_and!; [done|done|exact R3].
Qed.


(** ** Interrupts in the kernel *)

(** [kerneltrap] runs above the frame at [pa] of code with registers [f]. *)
Record interrupted (me : option nat) f pa s : Prop := Interrupted {
  i_mode : pmode (th s) = Supervisor;
  i_sp : regs (th s) SP = f SP - 256;
  i_map : maps Supervisor (csrs (th s) Satp) (kmem s) (f SP - 256) pa 256;
  i_frame : kframe_holds (kmem s) pa f;
  i_proc : forall i, me = Some i -> is_Some (procs (tk s) !! i);
}.

Lemma interrupted_robust me f pa : robust me (interrupted me f pa).
Proof.
  intros s s' Er Ex Ec Em Ep [Hx Hs Hm Hf Hp]. constructor; rewrite ?Er, ?Ex, ?Ec, ?Em; try done.
  intros i Hi. destruct (Hp i Hi) as [p Hl]. destruct Ep as [-> |[chan ->]]; [by exists p|].
  unfold wake_others. rewrite list_lookup_imap, Hl. by eexists.
Qed.

Lemma interrupted_state me f pa i st s :
  interrupted me f pa s -> me = Some i -> wp (liftT (setproc i (set_p_state st))) s (fun _ s' => interrupted me f pa s').
Proof.
  intros [Hx Hs Hm Hf Hp] ->. destruct (Hp i eq_refl) as [p Hl]. apply wp_liftT. eapply wp_setproc; [exact Hl|].
  constructor; try done. intros j [= <-]. cbn. rewrite list_lookup_insert_eq by (by eapply lookup_lt_Some). by eexists.
Qed.

Notation ktrap := (kerneltrap mmio_r mmio_w ticks_chan others uartintr virtio_disk_intr).

(** [kerneltrap] serves the interrupt and puts back the registers of the trap. *)
Lemma wp_kerneltrap me f pa s :
  interrupted me f pa s -> is_interrupt (csrs (th s) Scause) -> Z.testbit (csrs (th s) Mstatus) 8 = true -> Z.testbit (csrs (th s) Mstatus) 1 = false ->
  devices_ok me (interrupted me f pa) -> keeps (interrupted me f pa) others ->
  wp (ktrap me) s (fun _ s' => interrupted me f pa s' /\ csrs (th s') Sepc = csrs (th s) Sepc /\
    forall j, 0 <= j -> Z.testbit SSTATUS_VIEW j = true -> Z.testbit (csrs (th s') Mstatus) j = Z.testbit (csrs (th s) Mstatus) j).
Proof.
  intros Hi Hc Hspp Hsie Hdev Ho. unfold kerneltrap. pose proof (interrupted_robust me f pa) as HP.
  assert (Hrd : forall c (k : Z -> M T unit) (Q : unit -> T -> Prop) s1, (forall s2, th s2 = set_pmem (kmem s1) (th s1) -> interrupted me f pa s1 -> interrupted me f pa s2 -> wp (k (rd_csr c (csrs (th s1)))) s2 Q) ->
    interrupted me f pa s1 -> wp (bind (liftH (csrr c)) k) s1 Q).
  { intros c k Q s1 Hk H1. apply wp_bind, wp_liftH. unfold csrr. wp_step. apply Hk; [done|done|]. eapply HP; [..|exact H1]; [done..|by left]. }
  apply Hrd; [|exact Hi]. intros s1 E1 _ I1. apply Hrd; [|exact I1]. intros s2 E2 _ I2.
  change (rd_csr Sstatus (csrs (th s1))) with (Z.land (csrs (th s1) Mstatus) SSTATUS_VIEW). set (sst := Z.land (csrs (th s1) Mstatus) SSTATUS_VIEW).
  assert (Hb : forall j, Z.testbit SSTATUS_VIEW j = true -> Z.testbit sst j = Z.testbit (csrs (th s) Mstatus) j).
  { intros j Hj. unfold sst. rewrite Z.land_spec, Hj, andb_true_r. by rewrite E1. }
  unfold SSTATUS_SPP. rewrite ctrue_land_bit, (Hb 8), Hspp by done. cbn [negb].
  apply wp_bind. apply (wp_mono _ _ (fun b s' => b = false /\ th s' = set_pmem (kmem s2) (th s2) /\ interrupted me f pa s')).
  { apply wp_liftH. unfold intr_get, r_sstatus, csrr. repeat wp_step. split_and!; [|done|eapply HP; [..|exact I2]; [done..|by left]].
    unfold SSTATUS_SIE. rewrite ctrue_land_bit by done. change (Z.testbit (Z.land (csrs (th s2) Mstatus) SSTATUS_VIEW) 1 = false). rewrite E2, E1, Z.land_spec. change (Z.testbit (csrs (th s) Mstatus) 1 && true = false). by rewrite Hsie. }
  intros on s3 (-> & E3 & I3). apply wp_bind. eapply wp_mono; [apply (wp_devintr me _ s3 HP Hdev); [by rewrite E3, E2, E1|exact I3]|].
  cbv beta. intros w s4 [Hw I4]. rewrite (proj2 (Z.eqb_neq w 0)) by lia. apply wp_bind.
  apply (wp_mono _ _ (fun _ s' => interrupted me f pa s')).
  { destruct me as [i|]; [|by apply wp_ret]. destruct (i_proc _ _ _ _ I4 i eq_refl) as [p Hl].
    apply wp_bind, wp_liftT. eapply wp_getproc; [exact Hl|].
    assert (I4' : interrupted (Some i) f pa (Tst (th s4) (tk s4) (ticks s4) (tdev s4))) by (destruct s4; exact I4).
    destruct ((w =? 2) && bool_decide (p_state p = RUNNING)); [|by apply wp_ret].
    unfold tyield. apply wp_bind. eapply wp_mono; [by apply interrupted_state|]. intros [] s5 I5.
    apply wp_bind. eapply wp_mono; [by apply Ho|]. intros [] s6 I6. by apply interrupted_state. }
  intros [] s5 I5. apply wp_bind, wp_liftH. unfold w_sepc, csrw. wp_step. apply wp_liftH. unfold w_sstatus, csrw. wp_step. split_and!.
  - eapply HP; [..|exact I5]; [done..|by left].
  - change (csrs (th s) Sepc = csrs (th s) Sepc). done.
  - intros j Hj Hv. change (Z.testbit (merge SSTATUS_VIEW (csrs (th s5) Mstatus) sst) j = Z.testbit (csrs (th s) Mstatus) j).
    rewrite merge_bit, Hv by done. by apply Hb.
Qed.

End Traps.
