(* ===== verification/TrapExamples.v ===== *)
(** * A machine that takes traps

    Concrete harts, page tables and processes on which the theorems about
    booting, traps and context switches apply. *)
From S2P Require Import Prelude Riscv Mem KString Kalloc Vm VmWalk VmMap VmUser Machine Bio BioSpec BioProofs Block Log LogProofs LogTheorems TxSpec LogTx Fs FsTheorems Pipe File Sysfile SysfileProofs UserVm Proc ProcTable Exec Syscall SyscallProofs Hart Asm AsmProofs Start Trap TrapProofs.

(** ** Booting and the timer *)

(** Hart 3 at reset. *)
Definition hart_reset : hart := Hart (fun _ => 0) (fun c => match c with Mhartid => 3 | _ => 0 end) MachineMode 0x1000 (fun _ => 0).

Lemma boot_hart_correct_witness :
  wp (boot_hart 0x80009000 0x80011000 0x80000100 0x80000200) hart_reset (fun _ h' => hpc h' = 0x80000100 /\ regs h' TP = 3).
Proof.
  eapply wp_mono; [apply (boot_hart_correct 0x80009000 0x80011000 0x80000100 0x80000200 hart_reset 3);
    first [reflexivity | split; first [reflexivity | discriminate] | discriminate]|].
  cbv beta. intros r h' (Hpc & _ & _ & _ & Htp & _). auto.
Defined.

(** A hart in user mode whose timer is set up. *)
Definition hart_timer : hart :=
  Hart (fun r => match r with A0 => 5 | A1 => 6 | _ => 7 end) (fun c => match c with Mscratch => 0x80011000 | _ => 0 end) User 0x40
    (st64 (st64 (st64 (fun _ => 0) 0x80011018 (CLINT_MTIMECMP 0)) 0x80011020 1000000) (CLINT_MTIMECMP 0) 5000).

Lemma timer_transparent_witness :
  wp (mtrap_enter 0x8000000000000007;; run_code timervec) hart_timer (fun _ h' =>
    hpc h' = 0x40 /\ pmode h' = User /\ regs h' A0 = 5 /\ ld64 (pmem h') (CLINT_MTIMECMP 0) = 1005000).
Proof.
  pose proof (timer_transparent 0x8000000000000007 hart_timer) as Ht. cbv zeta in Ht.
  change (csrs hart_timer Mscratch) with 0x80011000 in Ht.
  replace (ld64 (pmem hart_timer) (0x80011000 + 24)) with (CLINT_MTIMECMP 0) in Ht by (vm_compute; reflexivity).
  replace (ld64 (pmem hart_timer) (0x80011000 + 32)) with 1000000 in Ht by (vm_compute; reflexivity).
  eapply wp_mono; [apply Ht|].
  - intros []; cbn; lia.
  - lia.
  - lia.
  - vm_compute. discriminate.
  - left. vm_compute. discriminate.
  - cbv beta. intros r h' (Hr & Hpc & Hx & _ & _ & _ & _ & Hc & _). split_and!; [exact Hpc|exact Hx|apply Hr|].
    rewrite Hc. vm_compute. reflexivity.
Defined.

(** ** Context switches *)

(** The scheduler's context at 0x80030000, a process's at 0x80020000. *)
Definition hart_switch : hart :=
  Hart (fun r => match r with A0 => 0x80020000 | A1 => 0x80030000 | RA => 0x80001234 | SP => 0x80040000 | _ => 1 end) (fun _ => 0) Supervisor 0x80001000 (fun _ => 0).
(** The scheduler switches back, from whatever registers it has then. *)
Definition switch_back : M hart unit :=
  modify (fun h => Hart (fun r => match r with A0 => 0x80030000 | A1 => 0x80020000 | _ => 0 end) (fun _ => 0) Supervisor 0 (pmem h)).

Lemma swtch_comes_back_witness :
  wp (run_code swtch;; switch_back;; run_code swtch) hart_switch (fun _ h' => hpc h' = 0x80001234 /\ regs h' SP = 0x80040000).
Proof.
  assert (Hb : forall m a, a = 0x80020000 \/ a = 0x80030000 -> maps Supervisor 0 m a a context_size).
  { intros m a Ha. apply maps_bare; [done| |]; destruct Ha as [-> | ->]; vm_compute; discriminate. }
  eapply wp_mono; [apply (swtch_comes_back hart_switch 0x80020000 0x80030000 switch_back)|].
  - intros []; cbn; lia.
  - apply Hb. auto.
  - intros m' _. apply Hb. auto.
  - intros h1 _. unfold switch_back. wp_step. split; [intros []; cbn; lia|]. split; [apply agree_refl|].
    exists 0x80030000. split; [right; vm_compute; discriminate|]. split; [apply Hb; auto|]. intros m' _. apply Hb. auto.
  - cbv beta. intros r h' [Hpc Hr]. split; [exact Hpc|]. rewrite Hr; [done|]. by apply (bool_decide_eq_true_1 (SP ∈ context_regs.*1)).
Defined.

(** ** Traps from user space *)

#[local] Existing Instance store0.

(** Page 0 is the page table of process 0, page 7 its trap frame. *)
Lemma frame_mapped : exists k, maps Supervisor (MAKE_SATP (pg 0)) (mem k) TRAPFRAME (pg 7) 288 /\ ld64 (mem k) (pg 7 + tf_kernel_trap) = 0x80002000.
Proof.
  destruct (pt_zero_page 2 mem0 (pg 0)) as (Hp0 & Hw & Hz); [apply pg_ok; lia|apply pg0_zero|].
  assert (Hok : pt_ok state0 (pg 0) free0) by apply uspace0.
  assert (Hmp : wp (mappages (pg 0) TRAPFRAME PGSIZE (pg 7) (Z.lor PTE_R PTE_W)) state0 (fun r s' => exists fl', pt_grow 2 state0 s' (pg 0) free0 fl' /\
    pte s' (pg 0) TRAPFRAME = mk_pte (pg 7) (Z.lor PTE_R PTE_W))).
  { eapply wp_mono; [apply (wp_mappages_page (pg 0) TRAPFRAME (pg 7) (Z.lor PTE_R PTE_W) state0 free0); try done|].
    intros r s' (fl' & Hg & [(_ & _ & Hv)|(_ & _ & Hl & _)]); [|exfalso; revert Hl; vm_compute; lia].
    exists fl'. split; [done|]. rewrite Hv by (vm_compute; split; [discriminate|reflexivity]). by rewrite Z.eqb_refl. }
  apply wp_inv in Hmp as (r & s1 & _ & fl' & Hg & Hpte). pose proof (pt_grow_perm _ _ _ _ _ Hg) as Hperm. destruct Hg as (new & _ & _ & _ & Hwf & _).
  assert (Hin : forall p, p ∈ pt_pages 2 (mem s1) (pg 0) -> p ∈ pg 0 :: free0).
  { intros p Hp. change (pg 0 :: free0) with ([pg 0] ++ free0). rewrite <- Hp0, <- Hperm. apply elem_of_app. by left. }
  assert (Hout : pg 7 ∉ pt_pages 2 (mem s1) (pg 0)).
  { intros Hc%Hin. revert Hc. apply (bool_decide_eq_true_1 (pg 7 ∉ pg 0 :: free0)). vm_compute. reflexivity. }
  exists (Kst (st64 (mem s1) (pg 7 + tf_kernel_trap) 0x80002000) 0). cbn [mem]. split; [|by apply ld64_st64_eq].
  eapply maps_same; [apply (maps_of_table (mem s1) (pg 0) TRAPFRAME (pg 7) 288); try done; apply pg_ok; lia|].
  apply same_outside_st64; unfold tf_kernel_trap; lia.
Qed.

Notation dev_none := (fun _ : Z => None).
Definition mmio_r0 : Z -> M unit Z := fun _ => ret 0.
Definition mmio_w0 : Z -> Z -> M unit unit := fun _ _ => ret tt.
Definition idle : M (tst (lst bst) unit) unit := ret tt.
Definition no_handler : option nat -> M (tst (lst bst) unit) unit := fun _ => ret tt.

(** Process 0 in user space at 0x1000, about to make system call 11. *)
Definition user_regs : reg -> Z := fun r => match r with A7 => SYS_getpid | SP => 0x3000 | S0 => 42 | _ => 0 end.
Definition user_hart : hart := Hart user_regs (fun c => match c with Satp => MAKE_SATP (pg 0) | Stvec => TRAMPOLINE | _ => 0 end) User 0x1000 (fun _ => 0).
Definition user_state (st : lst bst) (k : kst) : tst (lst bst) unit := Tst user_hart (kern0 st k (pg 0) 0x4000 (pg 7)) 17 tt.

Lemma user_state_ok st k :
  maps Supervisor (MAKE_SATP (pg 0)) (mem k) TRAPFRAME (pg 7) 288 -> ld64 (mem k) (pg 7 + tf_kernel_trap) = 0x80002000 ->
  in_user 0x80002000 0 (pg 7) (pg 0) user_regs 0x1000 (user_state st k).
Proof.
  intros Hm Ht. constructor; try done.
  - constructor; [|reflexivity|exact Hm]. by eexists.
  - intros []; vm_compute; split; congruence.
Qed.



(** ** Interrupts in the kernel *)

(** The scheduler of hart 1, before paging is on, with interrupts enabled. *)
Definition sched_hart : hart :=
  Hart (fun r => match r with SP => 0x80040000 | S1 => 99 | TP => 1 | _ => 0 end) (fun c => match c with Stvec => 0x80003000 | Mstatus => 2 | _ => 0 end) Supervisor 0x80000500 (fun _ => 0).
Definition sched_state (st : lst bst) : tst (lst bst) unit := Tst sched_hart (kern0 st state0 (pg 0) 0x4000 (pg 7)) 17 tt.
(** What compiled code may leave in the registers. *)
Definition scribble (g : reg -> Z) : reg -> Z := fun r => match r with SP => g SP | _ => 0xdead end.

