(* ===== verification/Ring.v ===== *)
(** * Rings

    An array used as a ring: index [i] of the sequence is entry [i mod size].
    The counters that index it are machine words, which wrap; the size divides
    their range, so that wrapping does not show. *)
From S2P Require Import Prelude.

(** The entries [l] of a ring, the first at index [base]. *)
Definition ring_holds {A} (size : Z) (r : list A) (base : Z) (l : list A) : Prop :=
  forall i h, l !! i = Some h -> r !! Z.to_nat ((base + Z.of_nat i) mod size) = Some h.

Section Ring.
Context {A : Type} (size : Z) (Hsize : 0 < size).
Implicit Types (r l : list A) (h : A).

Lemma ring_cong r x y l : x mod size = y mod size -> ring_holds size r x l -> ring_holds size r y l.
Proof using Hsize. intros E H i h Hi. rewrite <- Zplus_mod_idemp_l, <- E, Zplus_mod_idemp_l. by apply H. Qed.

Lemma ring_nil r base : ring_holds size r base [].
Proof. by intros i h. Qed.

Lemma ring_head r base h l : ring_holds size r base (h :: l) -> r !! Z.to_nat (base mod size) = Some h.
Proof. intros H. specialize (H O h eq_refl). by rewrite Z.add_0_r in H. Qed.

Lemma ring_pop r base h l : ring_holds size r base (h :: l) -> ring_holds size r (base + 1) l.
Proof. intros H i x Hi. specialize (H (S i) x Hi). by replace (base + 1 + Z.of_nat i) with (base + Z.of_nat (S i)) by lia. Qed.

Lemma ring_prefix r base l l' : ring_holds size r base (l ++ l') -> ring_holds size r base l.
Proof. intros H i h Hi. apply H. by apply lookup_app_l_Some. Qed.

Lemma ring_last r base l h : ring_holds size r base (l ++ [h]) -> r !! Z.to_nat ((base + Z.of_nat (length l)) mod size) = Some h.
Proof. intros H. apply H. by apply list_lookup_middle. Qed.

Lemma ring_push r base h l :
  Z.of_nat (length r) = size -> Z.of_nat (length l) < size -> ring_holds size r base l ->
  ring_holds size (<[Z.to_nat ((base + Z.of_nat (length l)) mod size) := h]> r) base (l ++ [h]).
Proof using Hsize.
  intros Hr Hl H i x Hi. apply lookup_app_Some in Hi as [Hi|[Hge Hi]].
  - pose proof (lookup_lt_Some _ _ _ Hi) as Hlt. rewrite list_lookup_insert_ne; [by apply H|]. intros E.
    set (y := base + Z.of_nat (length l)) in *. set (z := base + Z.of_nat i) in *. pose proof (Z.mod_pos_bound y size Hsize). pose proof (Z.mod_pos_bound z size Hsize).
    assert (0 < y - z < size) by (unfold y, z; lia). clearbody y z.
    apply Z2Nat.inj in E; [|lia|lia]. assert ((y - z) mod size = 0) as E0 by (rewrite Zminus_mod, E, Z.sub_diag; apply Z.mod_0_l; lia).
    rewrite Z.mod_small in E0; lia.
  - pose proof (lookup_lt_Some _ _ _ Hi) as Hlt. simpl in Hlt. assert (i = length l) as -> by lia.
    rewrite Nat.sub_diag in Hi. injection Hi as <-. apply list_lookup_insert_eq. pose proof (Z.mod_pos_bound (base + Z.of_nat (length l)) size Hsize). lia.
Qed.
End Ring.

(** ** Counters of [w] bits *)

Section Wrap.
Context (w size : Z) (Hw : 0 <= w) (Hsize : 0 < size) (Hdiv : (size | 2 ^ w)).

Lemma wrap_mod x : (x mod 2 ^ w) mod size = x mod size.
Proof using Hw Hsize Hdiv. symmetry. apply Znumtheory.Zmod_div_mod; [done|by apply Z.pow_pos_nonneg|done]. Qed.

(** Two counters that are at most [size] apart. *)
Lemma wrap_distance x n : 0 <= n < 2 ^ w -> ((x + n) mod 2 ^ w - x) mod 2 ^ w = n.
Proof. intros Hn. rewrite Zminus_mod_idemp_l. replace (x + n - x) with n by lia. by apply Z.mod_small. Qed.

Lemma wrap_equal x n k : x mod 2 ^ w = x -> 0 <= n < 2 ^ w -> 0 <= k < 2 ^ w -> (x + n) mod 2 ^ w = (x + k) mod 2 ^ w -> n = k.
Proof. intros Hx Hn Hk E. rewrite <- (wrap_distance x n Hn), <- (wrap_distance x k Hk). by rewrite E. Qed.
End Wrap.
