(* ===== verification/Printf.v ===== *)
(** * kernel/printf.c and user/printf.c

    Formatted output through [putc], one character at a time: [consputc] in the
    kernel, a write of one byte in user programs.  The arguments after the
    format are a list; taking one of the wrong kind, or one too many, is a
    fault, and so is a store outside the buffer of [printint]. *)
From Stdlib Require Import Ascii.
From S2P Require Import Prelude.

Definition chr (c : Ascii.ascii) : Z := Z.of_nat (Ascii.nat_of_ascii c).
#[global] Arguments chr c%_char_scope.
Notation "'#' s" := (chr <$> String.list_ascii_of_string s) (at level 9, s at level 0, only parsing) : xv6_scope.

Definition kdigits : list Z := # "0123456789abcdef".
Definition udigits : list Z := # "0123456789ABCDEF".

Inductive arg : Type :=
| AInt (x : Z)
| ALong (x : Z)
| AStr (s : list Z)
| ANull.

Section Printf.
Context {S : Type} (putc : Z -> M S unit).

Fixpoint put_all (l : list Z) : M S unit :=
  match l with
  | [] => ret tt
  | c :: l' => putc c;; put_all l'
  end.

(** The first loop of [printint]: [buf] holds the characters so far, of the 16
    there is room for.  [fuel] bounds the number of digits. *)
Fixpoint digits_loop (digits : list Z) (base : Z) (fuel : nat) (x : Z) (buf : list Z) : option (list Z) :=
  match fuel with
  | O => None
  | Datatypes.S fuel' =>
      match digits !! Z.to_nat (x mod base) with
      | Some d =>
          if decide (length buf < 16)%nat then
            let buf' := buf ++ [d] in
            if x / base =? 0 then Some buf' else digits_loop digits base fuel' (x / base) buf'
          else None
      | None => None
      end
  end.

(** [printint]: both versions come to this; [xx] is an [int]. *)
Definition printint (digits : list Z) (xx base : Z) (sign : bool) : M S unit :=
  let neg := sign && (xx <? 0) in
  let x := u32 (if neg then - xx else xx) in
  match digits_loop digits base 32 x [] with
  | None => fault
  | Some buf =>
      if neg then
        if decide (length buf < 16)%nat then put_all (rev (buf ++ # "-")) else fault
      else put_all (rev buf)
  end.

Fixpoint printptr_loop (digits : list Z) (k : nat) (x : Z) : M S unit :=
  match k with
  | O => ret tt
  | Datatypes.S k' =>
      match digits !! Z.to_nat (Z.shiftr x 60) with
      | Some d => putc d;; printptr_loop digits k' (u64 (Z.shiftl x 4))
      | None => fault
      end
  end.
Definition printptr (digits : list Z) (x : Z) : M S unit :=
  put_all (# "0x");; printptr_loop digits 16 x.

Definition next_int (ap : list arg) : option (Z * list arg) := match ap with AInt x :: ap' => Some (x, ap') | _ => None end.
Definition next_long (ap : list arg) : option (Z * list arg) := match ap with ALong x :: ap' => Some (x, ap') | _ => None end.
Definition next_str (ap : list arg) : option (list Z * list arg) :=
  match ap with AStr s :: ap' => Some (s, ap') | ANull :: ap' => Some (# "(null)", ap') | _ => None end.

(** Takes an argument and prints it. *)
Definition with_arg {A} (o : option (A * list arg)) (f : A -> M S unit) (k : list arg -> M S unit) : M S unit :=
  match o with Some (x, ap) => f x;; k ap | None => fault end.

(** The loop of the kernel's [printf]; the string ends with the list. *)
Fixpoint kprintf (fmt : list Z) (ap : list arg) : M S unit :=
  match fmt with
  | [] => ret tt
  | c :: fmt1 =>
      if negb (c =? 37) then putc c;; kprintf fmt1 ap else
      match fmt1 with
      | [] => ret tt
      | c :: fmt2 =>
          if c =? chr "d" then with_arg (next_int ap) (fun x => printint kdigits x 10 true) (kprintf fmt2)
          else if c =? chr "x" then with_arg (next_int ap) (fun x => printint kdigits x 16 true) (kprintf fmt2)
          else if c =? chr "p" then with_arg (next_long ap) (printptr kdigits) (kprintf fmt2)
          else if c =? chr "s" then with_arg (next_str ap) put_all (kprintf fmt2)
          else if c =? chr "%" then putc (chr "%");; kprintf fmt2 ap
          else putc (chr "%");; putc c;; kprintf fmt2 ap
      end
  end.

(** [printf] of the kernel; [None] is a null format. *)
Definition kernel_printf (fmt : option (list Z)) (ap : list arg) : M S unit :=
  match fmt with None => panic "null fmt" | Some f => kprintf f ap end.

(** The loop of [vprintf] in user programs, with its [state]. *)
Fixpoint vprintf (state : bool) (fmt : list Z) (ap : list arg) : M S unit :=
  match fmt with
  | [] => ret tt
  | c :: fmt1 =>
      if negb state then
        if c =? chr "%" then vprintf true fmt1 ap else putc c;; vprintf false fmt1 ap
      else
        if c =? chr "d" then with_arg (next_int ap) (fun x => printint udigits x 10 true) (vprintf false fmt1)
        else if c =? chr "l" then with_arg (next_long ap) (fun x => printint udigits (s32 x) 10 false) (vprintf false fmt1)
        else if c =? chr "x" then with_arg (next_int ap) (fun x => printint udigits x 16 false) (vprintf false fmt1)
        else if c =? chr "p" then with_arg (next_long ap) (printptr udigits) (vprintf false fmt1)
        else if c =? chr "s" then with_arg (next_str ap) put_all (vprintf false fmt1)
        else if c =? chr "c" then with_arg (next_int ap) (fun x => putc (u8 x)) (vprintf false fmt1)
        else if c =? chr "%" then putc c;; vprintf false fmt1 ap
        else putc (chr "%");; putc c;; vprintf false fmt1 ap
  end.
End Printf.
