(* ===== verification/PrintfProofs.v ===== *)
(** * Numbers and formats

    [printint] never leaves its buffer and prints the numeral of its argument;
    [printf] prints the text the format and the arguments describe. *)
From Stdlib Require Import Ascii.
From S2P Require Import Prelude Printf.

(** ** Numerals *)

(** The value of digits, the least significant first. *)
Fixpoint value (base : Z) (js : list Z) : Z :=
  match js with
  | [] => 0
  | j :: js' => j + base * value base js'
  end.

(** [js] is the numeral of [x], the least significant digit first. *)
Definition numeral (base x : Z) (js : list Z) : Prop :=
  js <> [] /\ Forall (fun j => 0 <= j < base) js /\ value base js = x /\ (last js = Some 0 -> js = [0]).

(** [text] spells the numeral of [x], the most significant digit first. *)
Definition spells (digits : list Z) (base x : Z) (text : list Z) : Prop :=
  exists js, numeral base x js /\ Forall2 (fun j d => digits !! Z.to_nat j = Some d) (rev js) text.

Lemma Forall2_rev_both {A B} (P : A -> B -> Prop) l k : Forall2 P l k -> Forall2 P (rev l) (rev k).
Proof. induction 1 as [|a b l k Hab _ IH]; cbn; [constructor|]. apply Forall2_app; [done|by repeat constructor]. Qed.

Lemma value_nonneg base js : 0 <= base -> Forall (fun j => 0 <= j < base) js -> 0 <= value base js.
Proof. intros Hb. induction 1 as [|j js Hj _ IH]; cbn; nia. Qed.

Lemma digits_loop_spec digits base k : forall fuel x buf,
  length digits = 16%nat -> 2 <= base <= 16 -> 0 <= x < base ^ Z.of_nat (S k) -> (k < fuel)%nat -> (length buf + S k <= 16)%nat ->
  exists js ds, digits_loop digits base fuel x buf = Some (buf ++ ds) /\ numeral base x js /\ Forall2 (fun j d => digits !! Z.to_nat j = Some d) js ds /\ (length ds <= S k)%nat.
Proof.
  induction k as [|k IH]; intros [|fuel] x buf Hd Hb Hx Hf Hl; try lia; cbn [digits_loop].
  all: pose proof (Z.mod_pos_bound x base ltac:(lia)) as Hm; destruct (lookup_lt_is_Some_2 digits (Z.to_nat (x mod base))) as [d Hdig]; [lia|].
  all: rewrite Hdig, decide_True by lia.
  - rewrite Z.pow_1_r in Hx. rewrite Z.div_small by lia. cbn. exists [x], [d]. split; [done|].
    rewrite Z.mod_small in Hdig by lia. split; [|split; [by repeat constructor|cbn; lia]]. split; [done|]. split; [by repeat constructor; lia|].
    split; [cbn; lia|]. by intros [= ->].
  - pose proof (Z.div_mod x base ltac:(lia)) as Hdm. assert (0 <= x / base) by (apply Z.div_pos; lia). destruct (Z.eqb_spec (x / base) 0) as [E|E].
    + exists [x mod base], [d]. split; [done|]. split; [|split; [by repeat constructor|cbn; lia]]. split; [done|]. split; [by repeat constructor; lia|].
      split; [cbn; lia|]. by intros [= ->].
    + assert (x / base < base ^ Z.of_nat (S k)).
      { apply Z.div_lt_upper_bound; [lia|]. rewrite <- Z.pow_succ_r by lia. replace (Z.succ (Z.of_nat (S k))) with (Z.of_nat (S (S k))) by lia. lia. }
      destruct (IH fuel (x / base) (buf ++ [d])) as (js & ds & -> & (N1 & N2 & N3 & N4) & HF & Hlen); [done|done|lia|lia|rewrite length_app; cbn; lia|].
      exists ((x mod base) :: js), (d :: ds). rewrite <- app_assoc. split; [done|]. split; [|split; [by constructor|cbn; lia]].
      split; [done|]. split; [by constructor|]. split; [cbn; rewrite N3; lia|]. destruct js as [|j js]; [done|]. intros Hlast.
      change (last (x mod base :: j :: js)) with (last (j :: js)) in Hlast. specialize (N4 Hlast). injection N4 as -> ->. cbn in N3. lia.
Qed.

Lemma spells_range base x xx : base = 10 \/ base = 16 -> x = u32 xx -> 0 <= x < base ^ Z.of_nat (S 9) /\ 2 <= base <= 16.
Proof.
  intros Hb ->. assert (0 <= u32 xx < 2 ^ 32) by (apply Z.mod_pos_bound; lia). split; [|destruct Hb; lia].
  destruct Hb as [-> | ->]; [change (10 ^ Z.of_nat 10) with 10000000000|change (16 ^ Z.of_nat 10) with 1099511627776]; lia.
Qed.

(** The number [printint] prints, without its sign. *)
Definition magnitude (xx : Z) (sign : bool) : Z := if sign then Z.abs xx else u32 xx.

Lemma printint_spec digits xx base sign :
  length digits = 16%nat -> base = 10 \/ base = 16 -> - 2 ^ 31 <= xx < 2 ^ 31 ->
  exists text, spells digits base (magnitude xx sign) text /\ (length text <= 10)%nat /\
    forall S (putc : Z -> M S unit) s, printint putc digits xx base sign s = put_all putc ((if sign && (xx <? 0) then # "-" else []) ++ text) s.
Proof.
  intros Hd Hb Hxx. set (neg := sign && (xx <? 0)). set (x := u32 (if neg then - xx else xx)).
  destruct (spells_range base x (if neg then - xx else xx) Hb eq_refl) as [Hx Hb'].
  destruct (digits_loop_spec digits base 9 32 x [] Hd Hb' Hx) as (js & ds & E & Hn & HF & Hlen); [lia|cbn; lia|].
  assert (Ex : x = magnitude xx sign).
  { unfold x, neg, magnitude. destruct sign; [|done]. cbn. destruct (Z.ltb_spec xx 0); rewrite u32_small by lia; lia. }
  exists (rev ds). rewrite length_rev. split; [|split; [done|]].
  - exists js. rewrite <- Ex. split; [done|]. by apply Forall2_rev_both.
  - intros S putc s. unfold printint. fold neg. fold x. rewrite E. cbn [app]. destruct neg; [|done]. rewrite decide_True by lia. by rewrite rev_app_distr.
Qed.

(** C38: [printint] stays within its buffer of 16 characters, whatever the number,
    and prints its numeral in the base: a minus sign if the number is signed and
    negative, and at most ten digits, no leading zeros, that spell the
    magnitude; the smallest [int] included. *)
Theorem printint_correct digits xx base sign :
  length digits = 16%nat -> base = 10 \/ base = 16 -> - 2 ^ 31 <= xx < 2 ^ 31 ->
  exists text, spells digits base (magnitude xx sign) text /\ (length text <= 10)%nat /\
    forall S (putc : Z -> M S unit) s, printint putc digits xx base sign s = put_all putc ((if sign && (xx <? 0) then # "-" else []) ++ text) s.
Proof. apply printint_spec. Qed.

(** ** Pointers *)

(** The sixteen hexadecimal digits of a word. *)
Definition spells16 (digits : list Z) (x : Z) (text : list Z) : Prop :=
  exists js, length js = 16%nat /\ Forall (fun j => 0 <= j < 16) js /\ value 16 (rev js) = x /\ Forall2 (fun j d => digits !! Z.to_nat j = Some d) js text.

Lemma value_snoc base js j : value base (js ++ [j]) = value base js + base ^ Z.of_nat (length js) * j.
Proof.
  induction js as [|i js IH]; cbn [app value length]; [change (base ^ Z.of_nat 0) with 1; lia|]. rewrite IH, Nat2Z.inj_succ, Z.pow_succ_r by lia. nia.
Qed.

Lemma top_nibble k y : (S k <= 16)%nat -> 0 <= y < 16 ^ Z.of_nat (S k) ->
  Z.shiftr (y * 16 ^ Z.of_nat (16 - S k)) 60 = y / 16 ^ Z.of_nat k /\
  u64 (Z.shiftl (y * 16 ^ Z.of_nat (16 - S k)) 4) = (y mod 16 ^ Z.of_nat k) * 16 ^ Z.of_nat (16 - k).
Proof.
  intros Hk Hy. assert (0 < 16 ^ Z.of_nat k) by (apply Z.pow_pos_nonneg; lia). assert (0 < 16 ^ Z.of_nat (16 - S k)) by (apply Z.pow_pos_nonneg; lia).
  rewrite Z.shiftr_div_pow2, Z.shiftl_mul_pow2 by lia. split.
  - replace (2 ^ 60) with (16 ^ Z.of_nat k * 16 ^ Z.of_nat (16 - S k)).
    + by rewrite Z.div_mul_cancel_r by lia.
    + rewrite <- Z.pow_add_r by lia. replace (Z.of_nat k + Z.of_nat (16 - S k)) with 15 by lia. done.
  - unfold u64. replace (2 ^ 64) with (16 ^ Z.of_nat k * 16 ^ Z.of_nat (16 - k)).
    2:{ rewrite <- Z.pow_add_r by lia. by replace (Z.of_nat k + Z.of_nat (16 - k)) with 16 by lia. }
    replace (y * 16 ^ Z.of_nat (16 - S k) * 2 ^ 4) with (y * 16 ^ Z.of_nat (16 - k)).
    + by rewrite Z.mul_mod_distr_r by lia.
    + replace (16 - k)%nat with (S (16 - S k)) by lia. rewrite Nat2Z.inj_succ, Z.pow_succ_r by lia. change (2 ^ 4) with 16. lia.
Qed.

Lemma printptr_loop_spec digits k : forall y, length digits = 16%nat -> (k <= 16)%nat -> 0 <= y < 16 ^ Z.of_nat k ->
  exists js text, length js = k /\ Forall (fun j => 0 <= j < 16) js /\ value 16 (rev js) = y /\ Forall2 (fun j d => digits !! Z.to_nat j = Some d) js text /\
    forall S (putc : Z -> M S unit) s, printptr_loop putc digits k (y * 16 ^ Z.of_nat (16 - k)) s = put_all putc text s.
Proof.
  induction k as [|k IH]; intros y Hd Hk Hy.
  - exists [], []. split; [done|]. split; [done|]. split; [cbn in *; lia|]. split; [constructor|done].
  - assert (0 < 16 ^ Z.of_nat k) by (apply Z.pow_pos_nonneg; lia). destruct (top_nibble k y Hk Hy) as [E1 E2].
    pose proof (Z.mod_pos_bound y (16 ^ Z.of_nat k) ltac:(lia)) as Hm. destruct (IH (y mod 16 ^ Z.of_nat k) Hd ltac:(lia) Hm) as (js & text & L & F & Hval & F2 & Hp).
    rewrite Nat2Z.inj_succ, Z.pow_succ_r in Hy by lia. assert (0 <= y / 16 ^ Z.of_nat k < 16) as Hq by (split; [apply Z.div_pos; lia|apply Z.div_lt_upper_bound; lia]).
    destruct (lookup_lt_is_Some_2 digits (Z.to_nat (y / 16 ^ Z.of_nat k))) as [d Hdig]; [lia|].
    exists ((y / 16 ^ Z.of_nat k) :: js), (d :: text). split; [cbn; lia|]. split; [by constructor|]. split.
    + cbn [rev]. rewrite value_snoc, length_rev, L, Hval. pose proof (Z.div_mod y (16 ^ Z.of_nat k) ltac:(lia)). lia.
    + split; [by constructor|]. intros S putc s. cbn [printptr_loop]. rewrite E1, Hdig. cbn [put_all]. unfold bind. destruct (putc d s) as [[[] s1]| | |]; [|done|done|done].
      by rewrite E2, Hp.
Qed.

Lemma put_all_app {S} (putc : Z -> M S unit) l1 l2 s : put_all putc (l1 ++ l2) s = (put_all putc l1;; put_all putc l2) s.
Proof. revert s. induction l1 as [|c l1 IH]; intros s; [done|]. cbn [app put_all]. unfold bind. destruct (putc c s) as [[[] s1]| | |]; [|done|done|done]. apply IH. Qed.

Lemma printptr_spec digits x : length digits = 16%nat -> 0 <= x < 2 ^ 64 ->
  exists text, spells16 digits x text /\ forall S (putc : Z -> M S unit) s, printptr putc digits x s = put_all putc (# "0x" ++ text) s.
Proof.
  intros Hd Hx. destruct (printptr_loop_spec digits 16 x Hd) as (js & text & L & F & Hval & F2 & Hp); [lia|by change (16 ^ Z.of_nat 16) with (2 ^ 64)|].
  exists text. split; [by exists js|]. intros S putc s. rewrite put_all_app. unfold printptr, bind. destruct (put_all putc _ s) as [[[] s1]| | |]; [|done|done|done].
  rewrite <- Hp. by rewrite Z.mul_1_r.
Qed.

(** ** Formats *)

Inductive item : Type :=
| Lit (c : Z)
| Dec (x : Z)
| Hex (x : Z)
| Long (x : Z)
| Ptr (x : Z)
| Str (s : list Z)
| Null
| Chr (c : Z)
| Pct.

Definition fmt_item (i : item) : list Z :=
  match i with
  | Lit c => [c]
  | Dec _ => # "%d" | Hex _ => # "%x" | Long _ => # "%l" | Ptr _ => # "%p"
  | Str _ | Null => # "%s" | Chr _ => # "%c" | Pct => # "%%"
  end.
Definition args_item (i : item) : list arg :=
  match i with
  | Dec x | Hex x | Chr x => [AInt x]
  | Long x | Ptr x => [ALong x]
  | Str s => [AStr s]
  | Null => [ANull]
  | Lit _ | Pct => []
  end.

(** The text of a number. *)
Definition number (digits : list Z) (base xx : Z) (sign : bool) (text : list Z) : Prop :=
  exists t, spells digits base (magnitude xx sign) t /\ (length t <= 10)%nat /\ text = (if sign && (xx <? 0) then # "-" else []) ++ t.

(** The text of an item; the kernel prints [%x] with a sign, user programs do not. *)
Definition text_item (digits : list Z) (hexsign : bool) (i : item) (text : list Z) : Prop :=
  match i with
  | Lit c => text = [c]
  | Dec x => number digits 10 x true text
  | Hex x => number digits 16 x hexsign text
  | Long x => number digits 10 (s32 x) false text
  | Ptr x => exists t, spells16 digits x t /\ text = # "0x" ++ t
  | Str s => text = s
  | Null => text = # "(null)"
  | Chr c => text = [u8 c]
  | Pct => text = # "%"
  end.

Definition item_ok (kernel : bool) (i : item) : Prop :=
  match i with
  | Lit c => c <> chr "%"
  | Dec x | Hex x => - 2 ^ 31 <= x < 2 ^ 31
  | Ptr x => 0 <= x < 2 ^ 64
  | Long x => kernel = false /\ 0 <= x < 2 ^ 64
  | Chr _ => kernel = false
  | Str _ | Null | Pct => True
  end.

Lemma number_spec digits base xx sign :
  length digits = 16%nat -> base = 10 \/ base = 16 -> - 2 ^ 31 <= xx < 2 ^ 31 ->
  exists text, number digits base xx sign text /\ forall S (putc : Z -> M S unit) s, printint putc digits xx base sign s = put_all putc text s.
Proof. intros Hd Hb Hx. destruct (printint_spec digits xx base sign Hd Hb Hx) as (t & H1 & H2 & H3). eexists. split; [by exists t|done]. Qed.

(** Printing a text and going on. *)
Lemma put_then {S} (putc : Z -> M S unit) (c k1 k2 : M S unit) text s :
  (forall s, c s = put_all putc text s) -> (forall s, k1 s = k2 s) -> (c;; k1) s = (put_all putc text;; k2) s.
Proof. intros Hc Hk. unfold bind. rewrite Hc. destruct (put_all putc text s) as [[[] s1]| | |]; [apply Hk|done|done|done]. Qed.

Lemma put_one {S} (putc : Z -> M S unit) c (k : M S unit) s : (putc c;; k) s = (put_all putc [c];; k) s.
Proof. unfold bind. cbn. unfold bind. by destruct (putc c s) as [[[] ?]| | |]. Qed.

(** One item of the kernel's [printf], and of [vprintf]. *)
Lemma kprintf_item i : item_ok true i -> exists text, text_item kdigits true i text /\
  forall S (putc : Z -> M S unit) fmt ap s, kprintf putc (fmt_item i ++ fmt) (args_item i ++ ap) s = (put_all putc text;; kprintf putc fmt ap) s.
Proof.
  intros Hi. destruct i as [c|x|x|x|x|t| |c|]; cbn in Hi.
  - exists [c]. split; [done|]. intros. cbn [fmt_item args_item app kprintf]. rewrite (proj2 (Z.eqb_neq _ _)) by done. apply put_one.
  - destruct (number_spec kdigits 10 x true eq_refl (or_introl eq_refl) Hi) as (text & Ht & Hp). exists text. split; [done|]. intros. by apply put_then.
  - destruct (number_spec kdigits 16 x true eq_refl (or_intror eq_refl) Hi) as (text & Ht & Hp). exists text. split; [done|]. intros. by apply put_then.
  - by destruct Hi.
  - destruct (printptr_spec kdigits x eq_refl Hi) as (text & Ht & Hp). exists (# "0x" ++ text). split; [by exists text|]. intros. by apply put_then.
  - exists t. split; [done|]. intros. by apply put_then.
  - exists (# "(null)"). split; [done|]. intros. by apply put_then.
  - done.
  - exists (# "%"). split; [done|]. intros. by apply (put_one putc (chr "%")).
Qed.

Lemma vprintf_item i : item_ok false i -> exists text, text_item udigits false i text /\
  forall S (putc : Z -> M S unit) fmt ap s, vprintf putc false (fmt_item i ++ fmt) (args_item i ++ ap) s = (put_all putc text;; vprintf putc false fmt ap) s.
Proof.
  intros Hi. destruct i as [c|x|x|x|x|t| |c|]; cbn in Hi.
  - exists [c]. split; [done|]. intros. cbn [fmt_item args_item app vprintf negb]. rewrite (proj2 (Z.eqb_neq _ _)) by done. apply put_one.
  - destruct (number_spec udigits 10 x true eq_refl (or_introl eq_refl) Hi) as (text & Ht & Hp). exists text. split; [done|]. intros. by apply put_then.
  - destruct (number_spec udigits 16 x false eq_refl (or_intror eq_refl) Hi) as (text & Ht & Hp). exists text. split; [done|]. intros. by apply put_then.
  - destruct (number_spec udigits 10 (s32 x) false eq_refl (or_introl eq_refl) (s32_range x)) as (text & Ht & Hp). exists text. split; [done|]. intros. by apply put_then.
  - destruct (printptr_spec udigits x eq_refl Hi) as (text & Ht & Hp). exists (# "0x" ++ text). split; [by exists text|]. intros. by apply put_then.
  - exists t. split; [done|]. intros. by apply put_then.
  - exists (# "(null)"). split; [done|]. intros. by apply put_then.
  - exists [u8 c]. split; [done|]. intros. by apply (put_one putc (u8 c)).
  - exists (# "%"). split; [done|]. intros. by apply (put_one putc (chr "%")).
Qed.

Lemma kprintf_spec items : Forall (item_ok true) items -> exists texts, Forall2 (text_item kdigits true) items texts /\
  forall S (putc : Z -> M S unit) s, kprintf putc (concat (fmt_item <$> items)) (concat (args_item <$> items)) s = put_all putc (concat texts) s.
Proof.
  induction 1 as [|i items Hi _ (texts & HF & Hp)]; [by exists []|]. destruct (kprintf_item i Hi) as (text & Ht & Hk). exists (text :: texts). split; [by constructor|].
  intros S putc s. cbn [fmap list_fmap concat]. rewrite Hk, put_all_app. unfold bind. destruct (put_all putc text s) as [[[] s1]| | |]; [apply Hp|done|done|done].
Qed.

