(* ===== verification/Uart.v ===== *)
(** * kernel/uart.c

    The serial line.  The device is an argument: [rd] reads one of its
    registers and [wr] writes one, on a state of its own.  [uart_tx_lock]
    makes each turn of [uartputc] a critical section, cut at its [sleep].

    Ghost state: the bytes put into the ring, by process, and the writes to the
    transmit register, with those that came out of the ring marked. *)
From S2P Require Import Prelude Ring.

Definition RHR : Z := 0.
Definition THR : Z := 0.
Definition IER : Z := 1.
Definition IER_RX_ENABLE : Z := Z.shiftl 1 0.
Definition IER_TX_ENABLE : Z := Z.shiftl 1 1.
Definition FCR : Z := 2.
Definition FCR_FIFO_ENABLE : Z := Z.shiftl 1 0.
Definition FCR_FIFO_CLEAR : Z := Z.shiftl 3 1.
Definition LCR : Z := 3.
Definition LCR_EIGHT_BITS : Z := Z.shiftl 3 0.
Definition LCR_BAUD_LATCH : Z := Z.shiftl 1 7.
Definition LSR : Z := 5.
Definition LSR_TX_IDLE : Z := Z.shiftl 1 5.
Definition UART_TX_BUF_SIZE : Z := 32.

(** A process in [consolewrite]: about to copy byte [i], asleep in [uartputc]
    with byte [c], or returned with [i]. *)
Inductive writer : Type :=
| WAt (i : Z)
| WFull (i c : Z) (awake : bool)
| WDone (i : Z).

Section Uart.
Context {D : Type} (rd : Z -> D -> Z * D) (wr : Z -> Z -> D -> D).

Record uart : Type := Uart {
  tx_buf : list Z;
  tx_w : Z;
  tx_r : Z;
  panicked : bool;
  udev : D;
  writers : nat -> writer;
  uput : list (nat * Z);       (* ghost *)
  thr : list (bool * Z);       (* ghost *)
}.
Definition set_tx x y z s := Uart x y z (panicked s) (udev s) (writers s) (uput s) (thr s).
Definition set_udev x s := Uart (tx_buf s) (tx_w s) (tx_r s) (panicked s) x (writers s) (uput s) (thr s).
Definition set_writers x s := Uart (tx_buf s) (tx_w s) (tx_r s) (panicked s) (udev s) x (uput s) (thr s).
Definition set_uput x s := Uart (tx_buf s) (tx_w s) (tx_r s) (panicked s) (udev s) (writers s) x (thr s).
Definition set_thr x s := Uart (tx_buf s) (tx_w s) (tx_r s) (panicked s) (udev s) (writers s) (uput s) x.

Definition ReadReg (r : Z) : M uart Z := fun s => let '(v, d) := rd r (udev s) in Ret (u8 v, set_udev d s).
Definition WriteReg (r v : Z) : M uart unit := modify (fun s => set_udev (wr r (u8 v) (udev s)) s).
(** A write to the transmit register. *)
Definition send (ring : bool) (c : Z) : M uart unit := WriteReg THR c;; modify (fun s => set_thr (thr s ++ [(ring, u8 c)]) s).

Definition uartinit : M uart unit :=
  WriteReg IER 0x00;;
  WriteReg LCR LCR_BAUD_LATCH;;
  WriteReg 0 0x03;;
  WriteReg 1 0x00;;
  WriteReg LCR LCR_EIGHT_BITS;;
  WriteReg FCR (Z.lor FCR_FIFO_ENABLE FCR_FIFO_CLEAR);;
  WriteReg IER (Z.lor IER_TX_ENABLE IER_RX_ENABLE).

(** [wakeup(&uart_tx_r)] *)
Definition wake_w (w : writer) : writer := match w with WFull i c _ => WFull i c true | _ => w end.
Definition wake_writers : M uart unit := modify (fun s => set_writers (fun t => wake_w (writers s t)) s).

(** The number of buffered bytes bounds the loop. *)
Fixpoint uartstart_loop (fuel : nat) : M uart unit :=
  s <- get;;
  if tx_w s =? tx_r s then ret tt else
  match fuel with
  | O => diverge
  | S fuel' =>
      v <- ReadReg LSR;;
      if Z.land v LSR_TX_IDLE =? 0 then ret tt else
      s <- get;;
      match tx_buf s !! Z.to_nat (tx_r s mod UART_TX_BUF_SIZE) with
      | None => fault
      | Some c =>
          modify (fun s => set_tx (tx_buf s) (tx_w s) (u64 (tx_r s + 1)) s);;
          wake_writers;;
          send true c;;
          uartstart_loop fuel'
      end
  end.
Definition uartstart : M uart unit := s <- get;; uartstart_loop (Z.to_nat (u64 (tx_w s - tx_r s))).

Definition set_writer (t : nat) (w : writer) : M uart unit := modify (fun s => set_writers (fun x => if decide (x = t) then w else writers s x) s).

(** [uartputc] by process [t] for byte [i] of its write, from its loop on. *)
Definition uartputc_loop (t : nat) (i c : Z) : M uart unit :=
  s <- get;;
  if tx_w s =? u64 (tx_r s + UART_TX_BUF_SIZE) then set_writer t (WFull i c false) else
  let j := Z.to_nat (tx_w s mod UART_TX_BUF_SIZE) in
  if decide (j < length (tx_buf s))%nat then
    modify (fun s => set_tx (<[j := u8 c]> (tx_buf s)) (u64 (tx_w s + 1)) (tx_r s) s);;
    modify (fun s => set_uput (uput s ++ [(t, u8 c)]) s);;
    uartstart;;
    set_writer t (WAt (i + 1))
  else fault.
Definition uartputc (t : nat) (i c : Z) : M uart unit :=
  s <- get;; if panicked s then diverge else uartputc_loop t i c.

(** [spin] bounds the wait for the device. *)
Fixpoint wait_tx (spin : nat) : M uart unit :=
  v <- ReadReg LSR;;
  if Z.land v LSR_TX_IDLE =? 0 then match spin with O => diverge | S k => wait_tx k end else ret tt.
Definition uartputc_sync (spin : nat) (c : Z) : M uart unit :=
  s <- get;; if panicked s then diverge else wait_tx spin;; send false c.

Definition uartgetc : M uart Z :=
  v <- ReadReg LSR;;
  if ctrue (Z.land v 0x01) then ReadReg RHR else ret (-1).

(** ** [consolewrite]

    Process [t] writes [n t] bytes; [src t i] is its byte [i], [None] if
    [either_copyin] fails there.  One turn of the loop. *)
Section Write.
Context (n : nat -> Z) (src : nat -> Z -> option Z).
Definition consolewrite_turn (t : nat) (i : Z) : M uart unit :=
  if i <? n t then
    match src t i with
    | None => set_writer t (WDone i)
    | Some c => uartputc t i (u8 c)
    end
  else set_writer t (WDone i).

(** Processes, interrupts, direct output, and the device by itself. *)
Inductive ustep : uart -> uart -> Prop :=
| us_turn s s' t i : writers s t = WAt i -> consolewrite_turn t i s = Ret (tt, s') -> ustep s s'
| us_wake s s' t i c : writers s t = WFull i c true -> uartputc_loop t i c s = Ret (tt, s') -> ustep s s'
| us_start s s' : uartstart s = Ret (tt, s') -> ustep s s'
| us_sync s s' spin c : uartputc_sync spin c s = Ret (tt, s') -> ustep s s'
| us_dev s d : ustep s (set_udev d s).
End Write.

Definition uart_init (buf : list Z) (d : D) : uart := Uart buf 0 0 false d (fun _ => WAt 0) [] [].
End Uart.
