(* ===== verification/UartProofs.v ===== *)
(** * The serial line transmits what is written, in order *)
From S2P Require Import Prelude Ring Uart.

#[local] Notation len l := (Z.of_nat (length l)).

Section Uart.
Context {D : Type} (rd : Z -> D -> Z * D) (wr : Z -> Z -> D -> D).
Context (n : nat -> Z) (src : nat -> Z -> option Z).
Implicit Types (s : uart (D := D)) (l : list Z).

(** The bytes of process [t], and the bytes that came out of the ring. *)
Definition bytes_of (t : nat) (p : list (nat * Z)) : list Z := snd <$> filter (fun x => fst x = t) p.
Definition ring_bytes (x : list (bool * Z)) : list Z := snd <$> filter (fun b => fst b = true) x.

#[local] Arguments bytes_of : simpl never.
#[local] Arguments ring_bytes : simpl never.

(** The first [i] bytes of what [t] writes. *)
Definition prefix_at (t : nat) (i : Z) l : Prop := len l = i /\ forall j b, l !! j = Some b -> exists c, src t (Z.of_nat j) = Some c /\ b = u8 c.

Definition writer_ok s (full : Prop) (t : nat) (w : writer) : Prop :=
  match w with
  | WAt i => prefix_at t i (bytes_of t (uput s)) /\ i <= Z.max 0 (n t)
  | WFull i c awake => prefix_at t i (bytes_of t (uput s)) /\ i < n t /\ (exists c0, src t i = Some c0 /\ c = u8 c0) /\ (awake = false -> full)
  | WDone i => prefix_at t i (bytes_of t (uput s)) /\ (i = Z.max 0 (n t) \/ (i < n t /\ src t i = None))
  end.

(** The ring holds [l].  The writers in [P] are between two sections. *)
Record uinv (P : nat -> Prop) l s : Prop := Uinv {
  ui_len : length (tx_buf s) = 32%nat;
  ui_room : len l <= 32;
  ui_r : u64 (tx_r s) = tx_r s;
  ui_w : tx_w s = u64 (tx_r s + len l);
  ui_ring : ring_holds UART_TX_BUF_SIZE (tx_buf s) (tx_r s) l;
  ui_fifo : ring_bytes (thr s) ++ l = snd <$> uput s;
  ui_bytes : Forall (fun b => u8 b = b) l;
  ui_panic : panicked s = false;
  ui_writers : forall t, P t -> writer_ok s (len l = 32) t (writers s t) }.

Lemma writer_mono s s' (full full' : Prop) t w : bytes_of t (uput s') = bytes_of t (uput s) -> (full -> full') -> writer_ok s full t w -> writer_ok s' full' t w.
Proof. intros E Hf. destruct w; cbn; rewrite E; naive_solver. Qed.

(** Waking lets a process off its promise that the ring is full. *)
Lemma writer_wake s full full' t w : writer_ok s full t w -> writer_ok s full' t (wake_w w).
Proof. destruct w; cbn; naive_solver. Qed.

Lemma uinv_dev P l s d : uinv P l s -> uinv P l (set_udev d s).
Proof. intros [u1 u2 u3 u4 u5 u6 u7 u8 u9]. by split. Qed.

Lemma wp_ReadReg r s Q : (forall v d, Q v (set_udev d s)) -> wp (ReadReg rd r) s Q.
Proof. intros HQ. unfold wp, ReadReg. destruct (rd r (udev s)) as [v d]. apply HQ. Qed.

(** ** [uartstart] *)

(** One byte goes from the ring to the device. *)
Definition popped (c : Z) s : uart :=
  Uart (tx_buf s) (tx_w s) (u64 (tx_r s + 1)) (panicked s) (wr THR (u8 c) (udev s)) (fun t => wake_w (writers s t)) (uput s) (thr s ++ [(true, u8 c)]).

Lemma uinv_popped P c l s : uinv P (c :: l) s -> uinv P l (popped c s).
Proof.
  intros [u1 u2 u3 u4 u5 u6 u7 u8 u9]. apply Forall_cons in u7 as [Hc u7]. cbn [length] in *. split; cbn; try done.
  - lia.
  - unfold u64. by rewrite Z.mod_mod.
  - rewrite u4. unfold u64. rewrite Zplus_mod_idemp_l. f_equal. lia.
  - eapply ring_cong; [done| |by eapply ring_pop]. symmetry. apply wrap_mod; [done|done|by exists (2 ^ 59)].
  - rewrite <- u6. unfold ring_bytes. rewrite filter_app, fmap_app. cbn. by rewrite Hc, <- app_assoc.
  - intros t Ht. by eapply (writer_wake s), u9.
Qed.

Lemma u64_room x k : u64 x = x -> 0 <= k <= 32 -> u64 (u64 (x + k) - x) = k /\ (u64 (x + k) = x -> k = 0).
Proof.
  intros Hx Hk. split; [apply wrap_distance; lia|]. intros E. apply (wrap_equal 64 x); [done|lia|lia|]. rewrite Z.add_0_r. unfold u64 in *. congruence.
Qed.

Lemma wp_uartstart_loop P l : forall s Q,
  uinv P l s -> (forall l' s', uinv P l' s' -> uput s' = uput s -> (forall t, writers s' t = writers s t \/ writers s' t = wake_w (writers s t)) -> Q tt s') ->
  wp (uartstart_loop rd wr (length l)) s Q.
Proof.
  induction l as [|c l IH]; intros s Q V HQ; pose proof (ui_w _ _ _ V) as Hw; cbn [uartstart_loop length]; apply wp_bind, wp_get.
  - cbn in Hw. rewrite Z.add_0_r, (ui_r _ _ _ V) in Hw. rewrite Hw, Z.eqb_refl. apply wp_ret. eapply HQ; [exact V|done|by left].
  - rewrite (proj2 (Z.eqb_neq _ _)).
    2:{ intros E. rewrite Hw in E. apply u64_room in E; [cbn in E; lia|apply (ui_r _ _ _ V)|]. pose proof (ui_room _ _ _ V). lia. }
    apply wp_bind, wp_ReadReg. intros v d. case_match; [apply wp_ret; eapply HQ; [by apply uinv_dev|done|by left]|].
    apply wp_bind, wp_get. pose proof (ring_head _ _ _ _ _ (ui_ring _ _ _ V)) as Hh. cbn. rewrite Hh.
    unfold wake_writers, send, WriteReg. apply wp_bind, wp_modify, wp_bind, wp_modify, wp_bind, wp_bind, wp_modify, wp_modify.
    apply IH; [by apply (uinv_popped P c l (set_udev d s)), uinv_dev|]. cbn. intros l' s' V' Hp Hws. eapply HQ; [exact V'|done|].
    intros t. right. destruct (Hws t) as [-> | ->]; [done|]. by destruct (writers s t).
Qed.

Lemma wp_uartstart P l s Q :
  uinv P l s -> (forall l' s', uinv P l' s' -> uput s' = uput s -> (forall t, writers s' t = writers s t \/ writers s' t = wake_w (writers s t)) -> Q tt s') ->
  wp (uartstart rd wr) s Q.
Proof.
  intros V HQ. unfold uartstart. apply wp_bind, wp_get. pose proof (ui_room _ _ _ V).
  replace (Z.to_nat (u64 (tx_w s - tx_r s))) with (length l); [by eapply wp_uartstart_loop|].
  rewrite (ui_w _ _ _ V), (proj1 (u64_room _ (len l) (ui_r _ _ _ V) ltac:(lia))). lia.
Qed.

(** ** [uartputc] *)

Definition everyone : nat -> Prop := fun _ => True.
Definition but (t : nat) : nat -> Prop := fun x => x <> t.

Lemma uinv_but t l s : uinv everyone l s -> uinv (but t) l s.
Proof. intros [u1 u2 u3 u4 u5 u6 u7 u8 u9]. split; auto. intros x _. by apply u9. Qed.

Lemma uinv_set_writer l s t w : uinv (but t) l s -> writer_ok s (len l = 32) t w -> uinv everyone l (set_writers (fun x => if decide (x = t) then w else writers s x) s).
Proof. intros [u1 u2 u3 u4 u5 u6 u7 u8 u9] Hw. split; try done. intros x _. cbn. case_decide; [by subst|by apply u9]. Qed.

Lemma bytes_of_app t p x c : bytes_of t (p ++ [(x, c)]) = bytes_of t p ++ (if decide (x = t) then [c] else []).
Proof. unfold bytes_of. rewrite filter_app, fmap_app. f_equal. rewrite filter_cons. cbn. by case_decide. Qed.

(** One byte goes into the ring. *)
Definition pushed (t : nat) (c : Z) s : uart :=
  Uart (<[Z.to_nat (tx_w s mod UART_TX_BUF_SIZE) := u8 c]> (tx_buf s)) (u64 (tx_w s + 1)) (tx_r s) (panicked s) (udev s) (writers s) (uput s ++ [(t, u8 c)]) (thr s).

Lemma uinv_pushed t c l s : uinv everyone l s -> len l < 32 -> uinv (but t) (l ++ [u8 c]) (pushed t c s).
Proof.
  intros [u1 u2 u3 u4 u5 u6 u7 u8' u9] Hl. split; cbn; rewrite ?length_app; try done.
  - by rewrite length_insert.
  - cbn. lia.
  - rewrite u4. unfold u64. rewrite Zplus_mod_idemp_l. f_equal. cbn. lia.
  - rewrite u4. unfold u64. rewrite (wrap_mod 64 UART_TX_BUF_SIZE); [|done|done|by exists (2 ^ 59)]. apply ring_push; [done|by rewrite u1|done|done].
  - rewrite app_assoc, u6, fmap_app. done.
  - apply Forall_app. split; [done|]. repeat constructor. unfold u8. by rewrite Z.mod_mod.
  - intros x Hx. apply (writer_mono s _ (len l = 32)); [|lia|by apply u9]. cbn. rewrite bytes_of_app, decide_False by (by apply not_eq_sym). by rewrite app_nil_r.
Qed.

Lemma prefix_snoc t i l c : prefix_at t i l -> src t i = Some c -> prefix_at t (i + 1) (l ++ [u8 (u8 c)]).
Proof.
  intros [Hl Hp] Hc. split; [rewrite length_app; cbn; lia|]. intros j b Hj. apply lookup_app_Some in Hj as [Hj|[Hge Hj]]; [by apply Hp|].
  pose proof (lookup_lt_Some _ _ _ Hj) as Hlt. cbn in Hlt. exists c. replace (Z.of_nat j) with i by lia. split; [done|].
  replace (j - length l)%nat with O in Hj by lia. injection Hj as <-. unfold u8. by rewrite Z.mod_mod.
Qed.

Lemma wp_uartputc_loop l s t i c c0 Q :
  uinv everyone l s -> prefix_at t i (bytes_of t (uput s)) -> i < n t -> src t i = Some c0 -> c = u8 c0 ->
  (forall l' s', uinv everyone l' s' -> Q tt s') -> wp (uartputc_loop rd wr t i c) s Q.
Proof.
  intros V Hp Hi Hsrc -> HQ. pose proof (ui_w _ _ _ V) as Hw. pose proof (ui_room _ _ _ V) as Hroom. unfold uartputc_loop. apply wp_bind, wp_get.
  destruct (Z.eqb_spec (tx_w s) (u64 (tx_r s + UART_TX_BUF_SIZE))) as [E|E].
  - rewrite Hw in E. apply (wrap_equal 64 (tx_r s)) in E; [|apply (ui_r _ _ _ V)|lia|done]. unfold set_writer. apply wp_modify. eapply HQ, uinv_set_writer.
    + by apply uinv_but.
    + split; [done|]. split; [done|]. split; [by exists c0|done].
  - rewrite decide_True.
    2:{ rewrite (ui_len _ _ _ V). pose proof (Z.mod_pos_bound (tx_w s) UART_TX_BUF_SIZE eq_refl). unfold UART_TX_BUF_SIZE in *. lia. }
    assert (len l <> 32) as Hne by (intros El; apply E; by rewrite Hw, El).
    apply wp_bind, wp_modify, wp_bind, wp_modify, wp_bind. eapply wp_uartstart; [apply (uinv_pushed t (u8 c0) l s V); lia|].
    intros l' s' V' Hput _. unfold set_writer. apply wp_modify. eapply HQ, uinv_set_writer; [exact V'|]. cbn. rewrite Hput. cbn.
    rewrite bytes_of_app, decide_True by done. split; [by apply prefix_snoc|lia].
Qed.

(** ** Direct output *)

Lemma wait_tx_inv spin : forall s s', wait_tx rd spin s = Ret (tt, s') -> exists d, s' = set_udev d s.
Proof.
  induction spin as [|k IH]; intros s s'; cbn [wait_tx]; unfold bind, ReadReg; destruct (rd LSR (udev s)) as [v d]; destruct (_ =? _); try done.
  - intros [= <-]. by exists d.
  - intros E. destruct (IH _ _ E) as [d' ->]. by exists d'.
  - intros [= <-]. by exists d.
Qed.

Lemma uinv_sync l s s' spin c : uinv everyone l s -> uartputc_sync rd wr spin c s = Ret (tt, s') -> uinv everyone l s'.
Proof.
  intros V. unfold uartputc_sync, bind, get. rewrite (ui_panic _ _ _ V). destruct (wait_tx rd spin s) as [[[] s1]| | |] eqn:E; [|done|done|done].
  apply wait_tx_inv in E as [d ->]. intros [= <-]. destruct V as [u1 u2 u3 u4 u5 u6 u7 u8' u9]. split; try done.
  cbn. unfold ring_bytes in *. rewrite filter_app, fmap_app. cbn. by rewrite app_nil_r.
Qed.

(** ** All interleavings *)

Lemma ustep_inv l s s' : uinv everyone l s -> ustep rd wr n src s s' -> exists l', uinv everyone l' s'.
Proof.
  intros V Hs. destruct Hs as [s s' t i Ht E|s s' t i c Ht E|s s' E|s s' spin c E|s d].
  - pose proof (ui_writers _ _ _ V t I) as Hw. rewrite Ht in Hw. destruct Hw as [Hp Hi]. revert E. unfold consolewrite_turn.
    destruct (Z.ltb_spec i (n t)) as [Hlt|Hge]; [destruct (src t i) as [c|] eqn:Hc|].
    + unfold uartputc, bind, get. rewrite (ui_panic _ _ _ V). intros E.
      eapply (wp_ret_inv _ s tt s' (fun _ s' => exists l', uinv everyone l' s')); [|exact E]. eapply wp_uartputc_loop; eauto.
    + intros [= <-]. eexists. apply uinv_set_writer; [by apply uinv_but|]. split; [done|]. by right.
    + intros [= <-]. eexists. apply uinv_set_writer; [by apply uinv_but|]. split; [done|]. left. destruct Hp as [Hp _]. lia.
  - pose proof (ui_writers _ _ _ V t I) as Hw. rewrite Ht in Hw. destruct Hw as (Hp & Hi & (c0 & Hc & Ec) & _).
    eapply (wp_ret_inv _ s tt s' (fun _ s' => exists l', uinv everyone l' s')); [|exact E]. eapply wp_uartputc_loop; eauto.
  - eapply (wp_ret_inv _ s tt s' (fun _ s' => exists l', uinv everyone l' s')); [|exact E]. eapply wp_uartstart; eauto.
  - exists l. by eapply uinv_sync.
  - exists l. by apply uinv_dev.
Qed.

Definition ureach (buf : list Z) (d : D) : uart -> Prop := rtc (ustep rd wr n src) (uart_init buf d).

Lemma ureach_inv buf d s : length buf = 32%nat -> ureach buf d s -> exists l, uinv everyone l s.
Proof.
  intros Hb Hr. assert (exists l, uinv everyone l (uart_init buf d)) as H0.
  { exists []. split; cbn; try done. intros t _. split; [by split|lia]. }
  revert H0. induction Hr as [|s1 s2 s3 H12 _ IH]; [done|]. intros [l V]. apply IH. by eapply ustep_inv.
Qed.

(** C36: The serial line loses, repeats and reorders nothing.  However any
    number of processes in [consolewrite], interrupts and direct output of the
    kernel interleave, and whatever the device does: what has gone from the
    ring to the device, followed by what is in the ring, is what the processes
    have put in, in that order; the ring holds at most [UART_TX_BUF_SIZE] bytes;
    the bytes of each process are the first bytes of its buffer in their
    order, as many as it has got to, and all it could copy once it has
    returned.  A process sleeps only while the ring is full. *)
Theorem uart_fifo buf d s :
  length buf = 32%nat -> ureach buf d s ->
  exists l, len l <= UART_TX_BUF_SIZE /\ ring_bytes (thr s) ++ l = snd <$> uput s /\
    forall t, match writers s t with
      | WAt i => prefix_at t i (bytes_of t (uput s))
      | WFull i c awake => prefix_at t i (bytes_of t (uput s)) /\ (awake = false -> len l = UART_TX_BUF_SIZE)
      | WDone i => prefix_at t i (bytes_of t (uput s)) /\ (i = Z.max 0 (n t) \/ (i < n t /\ src t i = None))
      end.
Proof.
  intros Hb Hr. destruct (ureach_inv buf d s Hb Hr) as [l V]. exists l. split; [apply (ui_room _ _ _ V)|]. split; [apply (ui_fifo _ _ _ V)|].
  intros t. pose proof (ui_writers _ _ _ V t I) as Hw. destruct (writers s t); naive_solver.
Qed.
End Uart.
