(* ===== verification/Console.v ===== *)
(** * kernel/console.c

    The console: input with line editing, echo through the serial line, and the
    critical sections of [consoleread] under [cons.lock], each of which runs to
    the return of the call or to its [sleep].  [procdump] of proc.c prints the
    process table for control-P.  The counters are 32 bits wide and wrap. *)
From Stdlib Require Import Ascii.
From S2P Require Import Prelude Riscv Mem KString Kalloc Vm Bio Block TxSpec Fs FsNames Pipe File Proc Ring Printf Uart.

Definition BACKSPACE : Z := 0x100.
Definition C (x : Z) : Z := x - 64.
Definition INPUT_BUF_SIZE : Z := 128.

Record cons : Type := Cons { cbuf : list Z; cr : Z; cw : Z; ce : Z }.

(** A process in [consoleread]: not called yet, asleep with [n] of
    [target] bytes to go, or returned. *)
Inductive reader : Type :=
| RIdle
| RWait (target n : Z) (awake : bool)
| RDone (r : Z).

(** ** [consoleread]

    One section, of at most [k] turns, with [n] of [target] bytes to go.
    [out acc i c] is [either_copyout] of byte [c] to [dst + i].  The bytes taken
    from the buffer are returned too. *)
Fixpoint consoleread_run {A} (k : nat) (killed : bool) (out : A -> Z -> Z -> A * bool) (acc : A) (target n : Z) (c : cons) : list Z * cons * A * section Z :=
  match k with
  | O => ([], c, acc, Done (s32 (target - n)))
  | S k' =>
      if cr c =? cw c then
        if killed then ([], c, acc, Fail) else ([], c, acc, Sleep n)
      else
        let ch := default 0 (cbuf c !! Z.to_nat (cr c mod INPUT_BUF_SIZE)) in
        let c1 := Cons (cbuf c) (u32 (cr c + 1)) (cw c) (ce c) in
        if ch =? C (chr "D") then
          if n <? target then ([], Cons (cbuf c1) (u32 (cr c1 - 1)) (cw c1) (ce c1), acc, Done (s32 (target - n)))
          else ([ch], c1, acc, Done (s32 (target - n)))
        else
          match out acc (target - n) ch with
          | (acc1, false) => ([ch], c1, acc1, Done (s32 (target - n)))
          | (acc1, true) =>
              if ch =? 10 then ([ch], c1, acc1, Done (s32 (target - (n - 1))))
              else let '(l, c2, acc2, r) := consoleread_run k' killed out acc1 target (n - 1) c1 in (ch :: l, c2, acc2, r)
          end
  end.
Definition consoleread {A} (killed : bool) (out : A -> Z -> Z -> A * bool) (acc : A) (target n : Z) (c : cons) : list Z * cons * A * section Z :=
  consoleread_run (Z.to_nat n) killed out acc target n c.

(** ** [procdump] *)

Definition state_name (x : procstate) : list Z :=
  match x with
  | UNUSED => # "unused"
  | USED => # "used"
  | SLEEPING => # "sleep "
  | RUNNABLE => # "runble"
  | RUNNING => # "run   "
  | ZOMBIE => # "zombie"
  end.

Section Procdump.
Context {S : Type} (putc : Z -> M S unit).
Fixpoint procdump_loop (ps : list proc) : M S unit :=
  match ps with
  | [] => ret tt
  | p :: ps' =>
      if decide (p_state p = UNUSED) then procdump_loop ps' else
      kprintf putc (# "%d %s %s") [AInt (p_pid p); AStr (state_name (p_state p)); AStr (cname (p_name p))];;
      kprintf putc [10] [];;
      procdump_loop ps'
  end.
Definition procdump (ps : list proc) : M S unit := kprintf putc [10] [];; procdump_loop ps.
End Procdump.

(** ** Input *)

Section Console.
Context {D : Type} (rd : Z -> D -> Z * D) (wr : Z -> Z -> D -> D).
(** How long [uartputc_sync] waits, and how many characters one interrupt
    delivers, at most. *)
Context (spin burst : nat).
Context (ptable : list proc).

Context {A : Type}.

(** [umem]: where the processes read to.  [taken]: ghost, the bytes readers have
    taken out of the buffer, in order. *)
Record con : Type := Con { con_c : cons; con_u : uart (D := D); readers : nat -> reader; umem : nat -> A; taken : list Z }.
Definition set_c x s := Con x (con_u s) (readers s) (umem s) (taken s).
Definition set_u x s := Con (con_c s) x (readers s) (umem s) (taken s).
Definition set_readers x s := Con (con_c s) (con_u s) x (umem s) (taken s).

Definition liftU {B} (c : M (uart (D := D)) B) : M con B := fun s =>
  match c (con_u s) with
  | Ret (a, u) => Ret (a, set_u u s)
  | Panic m => Panic m
  | Fault => Fault
  | Diverge => Diverge
  end.

Definition consputc (c : Z) : M con unit :=
  if c =? BACKSPACE then
    liftU (uartputc_sync rd wr spin 8);; liftU (uartputc_sync rd wr spin 32);; liftU (uartputc_sync rd wr spin 8)
  else liftU (uartputc_sync rd wr spin c).

(** [wakeup(&cons.r)] *)
Definition wake_r (r : reader) : reader := match r with RWait m n _ => RWait m n true | _ => r end.
Definition wake_readers : M con unit := modify (fun s => set_readers (fun t => wake_r (readers s t)) s).

Definition set_e (x : Z) : M con unit := modify (fun s => set_c (Cons (cbuf (con_c s)) (cr (con_c s)) (cw (con_c s)) x) s).

(** Control-U; the number of bytes being edited bounds the loop. *)
Fixpoint kill_line (fuel : nat) : M con unit :=
  s <- get;;
  let c := con_c s in
  if (ce c =? cw c) || (default 0 (cbuf c !! Z.to_nat (u32 (ce c - 1) mod INPUT_BUF_SIZE)) =? 10) then ret tt else
  match fuel with
  | O => diverge
  | S fuel' => set_e (u32 (ce c - 1));; consputc BACKSPACE;; kill_line fuel'
  end.

(** Any other key: the default case. *)
Definition console_key (c : Z) : M con unit :=
  s <- get;;
  let k := con_c s in
  if negb (c =? 0) && (u32 (ce k - cr k) <? INPUT_BUF_SIZE) then
    let c := if c =? 13 then 10 else c in
    consputc c;;
    s <- get;;
    let k := con_c s in
    let j := Z.to_nat (ce k mod INPUT_BUF_SIZE) in
    if decide (j < length (cbuf k))%nat then
      modify (set_c (Cons (<[j := u8 c]> (cbuf k)) (cr k) (cw k) (u32 (ce k + 1))));;
      s <- get;;
      let k := con_c s in
      if (c =? 10) || (c =? C (chr "D")) || (u32 (ce k - cr k) =? INPUT_BUF_SIZE) then
        modify (set_c (Cons (cbuf k) (cr k) (ce k) (ce k)));;
        wake_readers
      else ret tt
    else fault
  else ret tt.

Definition consoleintr (c : Z) : M con unit :=
  s <- get;;
  let k := con_c s in
  if c =? C (chr "P") then procdump consputc ptable
  else if c =? C (chr "U") then kill_line (Z.to_nat (u32 (ce k - cw k)))
  else if (c =? C (chr "H")) || (c =? 0x7f) then
    if ce k =? cw k then ret tt else set_e (u32 (ce k - 1));; consputc BACKSPACE
  else console_key c.

(** [uartintr] *)
Fixpoint uartintr_loop (fuel : nat) : M con unit :=
  c <- liftU (uartgetc rd);;
  if c =? -1 then ret tt else
  match fuel with
  | O => diverge
  | S fuel' => consoleintr c;; uartintr_loop fuel'
  end.
Definition uartintr : M con unit := uartintr_loop burst;; liftU (uartstart rd wr).

(** ** The system

    Readers, interrupts, and everything else that uses the serial line. *)
Inductive event : Type :=
| ERead (t : nat) (target : Z) (killed : bool)
| EResume (t : nat) (killed : bool)
| EAgain (t : nat)
| EType (c : Z)
| ELine.

Section System.
Context (out : nat -> A -> Z -> Z -> A * bool) (n : nat -> Z) (src : nat -> Z -> option Z).

Definition reader_of (target : Z) (r : section Z) : reader :=
  match r with
  | Done x => RDone x
  | Fail => RDone (-1)
  | Sleep k => RWait target k false
  end.
(** A section of [consoleread] by process [t] with [k] of [target] bytes to go. *)
Definition read_section (killed : bool) (t : nat) (target k : Z) (s : con) : con :=
  let '(l, c, acc, r) := consoleread killed (out t) (umem s t) target k (con_c s) in
  Con c (con_u s) (fun x => if decide (x = t) then reader_of target r else readers s x) (fun x => if decide (x = t) then acc else umem s x) (taken s ++ l).

Inductive cstep : event -> con -> con -> Prop :=
| cs_read s t target killed : readers s t = RIdle -> - 2 ^ 31 <= target < 2 ^ 31 -> cstep (ERead t target killed) s (read_section killed t target target s)
| cs_resume s t target k killed : readers s t = RWait target k true -> cstep (EResume t killed) s (read_section killed t target k s)
| cs_again s t r : readers s t = RDone r -> cstep (EAgain t) s (set_readers (fun x => if decide (x = t) then RIdle else readers s x) s)
(** The interrupt handler takes a character. *)
| cs_char s s1 s' c : liftU (uartgetc rd) s = Ret (c, s1) -> c <> -1 -> consoleintr c s1 = Ret (tt, s') -> cstep (EType c) s s'
| cs_uart s u : ustep rd wr n src (con_u s) u -> cstep ELine s (set_u u s).
End System.

Definition con_init (buf : list Z) (u : uart) (m : nat -> A) : con := Con (Cons buf 0 0 0) u (fun _ => RIdle) m [].
End Console.

(** A run with its events. *)
Inductive trace {X : Type} (step : event -> X -> X -> Prop) : list event -> X -> X -> Prop :=
| tr_nil s : trace step [] s s
| tr_snoc es e s s1 s2 : trace step es s s1 -> step e s1 s2 -> trace step (es ++ [e]) s s2.
