(* ===== verification/ConsoleProofs.v ===== *)
(** * The console is a line-buffered terminal

    The terminal is two lists: what has been typed and can be read, and the
    line being edited.  The console of console.c behaves like it. *)
From Stdlib Require Import Ascii.
From S2P Require Import Prelude Riscv Mem KString Kalloc Vm Bio Block TxSpec Fs FsNames Pipe File Proc Ring Printf PrintfProofs Uart UartProofs Console.

#[local] Notation len l := (Z.of_nat (length l)).

(** ** The terminal *)

Section Terminal.
Context {A : Type} (out : nat -> A -> Z -> Z -> A * bool) (ptable : list proc).

Record tty : Type := Tty {
  ready : list Z;
  edit : list Z;
  treaders : nat -> reader;
  tmem : nat -> A;
  ttaken : list Z;
  echo : list Z;
}.
Definition set_input x y z l T := Tty x y z (tmem T) (ttaken T) (echo T ++ l).
Definition say (l : list Z) (T : tty) : tty := set_input (ready T) (edit T) (treaders T) l T.

(** A read takes bytes up to a newline, or to an end of file, which counts only at
    the start. *)
Fixpoint tty_take (k : nat) (killed : bool) (put : A -> Z -> Z -> A * bool) (acc : A) (target n : Z) (q : list Z) : list Z * list Z * A * section Z :=
  match k, q with
  | O, _ => ([], q, acc, Done (s32 (target - n)))
  | S _, [] => ([], [], acc, if killed then Fail else Sleep n)
  | S k', ch :: q' =>
      if ch =? C (chr "D") then
        if n <? target then ([], q, acc, Done (s32 (target - n))) else ([ch], q', acc, Done (s32 (target - n)))
      else
        match put acc (target - n) ch with
        | (acc1, false) => ([ch], q', acc1, Done (s32 (target - n)))
        | (acc1, true) =>
            if ch =? 10 then ([ch], q', acc1, Done (s32 (target - (n - 1))))
            else let '(l, q2, acc2, r) := tty_take k' killed put acc1 target (n - 1) q' in (ch :: l, q2, acc2, r)
        end
  end.
Definition tty_read (killed : bool) (t : nat) (target k : Z) (T : tty) : tty :=
  let '(l, q, acc, r) := tty_take (Z.to_nat k) killed (out t) (tmem T t) target k (ready T) in
  Tty q (edit T) (fun x => if decide (x = t) then reader_of target r else treaders T x) (fun x => if decide (x = t) then acc else tmem T x) (ttaken T ++ l) (echo T).

(** The listing of control-P. *)
Definition proc_line (p : proc) (text : list Z) : Prop :=
  exists pid, number kdigits 10 (p_pid p) true pid /\ text = pid ++ # " " ++ state_name (p_state p) ++ # " " ++ cname (p_name p) ++ [10].
Definition dump_text (text : list Z) : Prop :=
  exists ls, Forall2 proc_line (filter (fun p => p_state p <> UNUSED) ptable) ls /\ text = 10 :: concat ls.

Definition rubout : list Z := [8; 32; 8].

Definition tty_key (c : Z) (T : tty) : tty :=
  if len (ready T ++ edit T) <? INPUT_BUF_SIZE then
    let c := if c =? 13 then 10 else c in
    let line := edit T ++ [c] in
    if (c =? 10) || (c =? C (chr "D")) || (len (ready T ++ line) =? INPUT_BUF_SIZE)
    then set_input (ready T ++ line) [] (fun t => wake_r (treaders T t)) [c] T
    else set_input (ready T) line (treaders T) [c] T
  else T.

Definition tty_type (c : Z) (T T' : tty) : Prop :=
  if c =? C (chr "P") then exists text, dump_text text /\ T' = say text T
  else if c =? C (chr "U") then T' = set_input (ready T) [] (treaders T) (concat (replicate (length (edit T)) rubout)) T
  else if (c =? C (chr "H")) || (c =? 0x7f) then
    T' = match edit T with [] => T | _ => set_input (ready T) (removelast (edit T)) (treaders T) rubout T end
  else if c =? 0 then T' = T
  else T' = tty_key c T.

Inductive ttystep : event -> tty -> tty -> Prop :=
| ts_read T t target killed : treaders T t = RIdle -> - 2 ^ 31 <= target < 2 ^ 31 -> ttystep (ERead t target killed) T (tty_read killed t target target T)
| ts_resume T t target k killed : treaders T t = RWait target k true -> ttystep (EResume t killed) T (tty_read killed t target k T)
| ts_again T t r : treaders T t = RDone r -> ttystep (EAgain t) T (set_input (ready T) (edit T) (fun x => if decide (x = t) then RIdle else treaders T x) [] T)
| ts_type T T' c : tty_type c T T' -> ttystep (EType c) T T'
(** Other output, of the kernel. *)
| ts_line T l : ttystep ELine T (say l T).

Definition tty_init (m : nat -> A) : tty := Tty [] [] (fun _ => RIdle) m [] [].
End Terminal.

(** ** The correspondence *)

(** The bytes the kernel has sent directly. *)
Definition direct (x : list (bool * Z)) : list Z := snd <$> filter (fun b => fst b = false) x.
#[local] Arguments direct : simpl never.

Definition byte (c : Z) : Prop := 0 <= c < 256.

(** The buffer holds the bytes that can be read, [q], and the line being edited. *)
Record holds (c : cons) (q e : list Z) : Prop := Holds {
  h_len : length (cbuf c) = 128%nat;
  h_r : u32 (cr c) = cr c;
  h_w : cw c = u32 (cr c + len q);
  h_e : ce c = u32 (cr c + len (q ++ e));
  h_room : len (q ++ e) <= 128;
  h_ring : ring_holds INPUT_BUF_SIZE (cbuf c) (cr c) (q ++ e);
  h_edit : Forall (fun x => x <> 10) e }.

Lemma u32_equal x n k : u32 x = x -> 0 <= n <= 128 -> 0 <= k <= 128 -> u32 (x + n) = u32 (x + k) -> n = k.
Proof. intros Hx Hn Hk. apply (wrap_equal 32 x); [done|lia|lia]. Qed.

Lemma u32_idem x y : u32 (u32 x + y) = u32 (x + y).
Proof. apply Zplus_mod_idemp_l. Qed.

Lemma u32_mod_buf x : u32 x mod INPUT_BUF_SIZE = x mod INPUT_BUF_SIZE.
Proof. apply wrap_mod; [done|done|by exists 33554432]. Qed.

Lemma holds_empty c q e : holds c q e -> (cr c =? cw c) = bool_decide (q = []).
Proof.
  intros H. pose proof (h_room _ _ _ H) as Hr. rewrite length_app in Hr. destruct q as [|x q].
  - rewrite bool_decide_true by done. rewrite (h_w _ _ _ H). cbn. rewrite Z.add_0_r, (h_r _ _ _ H). apply Z.eqb_refl.
  - rewrite bool_decide_false by done. apply Z.eqb_neq. intros E. rewrite (h_w _ _ _ H), <- (h_r _ _ _ H) in E at 1. rewrite <- (Z.add_0_r (cr c)) in E at 1.
    apply u32_equal in E; cbn [length] in *; [lia|apply (h_r _ _ _ H)|lia|lia].
Qed.

Lemma holds_pop c x q e : holds c (x :: q) e -> holds (Cons (cbuf c) (u32 (cr c + 1)) (cw c) (ce c)) q e /\ cbuf c !! Z.to_nat (cr c mod INPUT_BUF_SIZE) = Some x.
Proof.
  intros [h1 h2 h3 h4 h5 h6 h7]. cbn [length app] in *. split; [|by eapply ring_head]. split; cbn; try done.
  - unfold u32. by rewrite Z.mod_mod.
  - rewrite h3, u32_idem. f_equal. lia.
  - rewrite h4, u32_idem. f_equal. lia.
  - lia.
  - eapply ring_cong; [done| |by eapply ring_pop]. by rewrite u32_mod_buf.
Qed.

Lemma holds_noedit c q e : holds c q e -> (ce c =? cw c) = bool_decide (e = []).
Proof.
  intros H. pose proof (h_room _ _ _ H) as Hr. pose proof (h_e _ _ _ H) as He. pose proof (h_w _ _ _ H) as Hw. rewrite length_app in Hr, He. rewrite He, Hw. destruct e as [|x e].
  - rewrite bool_decide_true by done. cbn. rewrite Nat.add_0_r. apply Z.eqb_refl.
  - rewrite bool_decide_false by done. apply Z.eqb_neq. intros E. apply u32_equal in E; cbn [length] in *; [lia|apply (h_r _ _ _ H)|lia|lia].
Qed.

Lemma holds_size c q e : holds c q e -> u32 (ce c - cr c) = len (q ++ e) /\ u32 (ce c - cw c) = len e.
Proof.
  intros H. pose proof (h_room _ _ _ H) as Hr. rewrite (h_e _ _ _ H), (h_w _ _ _ H). rewrite length_app in *. split; [apply wrap_distance; lia|].
  unfold u32. rewrite <- Zminus_mod. replace (cr c + _ - _) with (len e) by lia. apply Z.mod_small. lia.
Qed.

(** The last byte of the line being edited goes. *)
Lemma holds_erase c q e x :
  holds c q (e ++ [x]) -> holds (Cons (cbuf c) (cr c) (cw c) (u32 (ce c - 1))) q e /\ cbuf c !! Z.to_nat (u32 (ce c - 1) mod INPUT_BUF_SIZE) = Some x.
Proof.
  intros [h1 h2 h3 h4 h5 h6 h7]. apply Forall_app in h7 as [h7 _]. rewrite app_assoc in *. rewrite !length_app in h4, h5. cbn in h4, h5.
  assert (u32 (ce c - 1) = u32 (cr c + len (q ++ e))) as E.
  { rewrite h4, length_app. unfold u32. rewrite Zminus_mod_idemp_l. f_equal. lia. }
  split.
  - split; cbn; try done; [rewrite length_app; lia|by eapply ring_prefix].
  - rewrite E, u32_mod_buf. by eapply ring_last.
Qed.

(** A byte is added to it. *)
Definition keyed (x : Z) (c : cons) : cons := Cons (<[Z.to_nat (ce c mod INPUT_BUF_SIZE) := x]> (cbuf c)) (cr c) (cw c) (u32 (ce c + 1)).

Lemma ring_keyed x c q e : holds c q e -> len (q ++ e) < 128 -> ring_holds INPUT_BUF_SIZE (cbuf (keyed x c)) (cr c) ((q ++ e) ++ [x]) /\ ce (keyed x c) = u32 (cr c + len (q ++ e) + 1).
Proof.
  intros [h1 h2 h3 h4 h5 h6 h7] Hl. cbn. rewrite h4, u32_mod_buf. split; [apply ring_push; [done|by rewrite h1|done|done]|]. by rewrite u32_idem.
Qed.

Lemma holds_key x c q e : holds c q e -> len (q ++ e) < 128 -> x <> 10 -> holds (keyed x c) q (e ++ [x]).
Proof.
  intros H Hl Hx. destruct (ring_keyed x c q e H Hl) as [Hr He]. destruct H as [h1 h2 h3 h4 h5 h6 h7]. split; try done.
  - cbn. by rewrite length_insert.
  - rewrite He, app_assoc, (length_app (q ++ e)). f_equal. cbn. lia.
  - rewrite app_assoc, (length_app (q ++ e)). cbn. lia.
  - by rewrite app_assoc.
  - apply Forall_app. by split; [|repeat constructor].
Qed.

Lemma holds_commit x c q e :
  holds c q e -> len (q ++ e) < 128 -> holds (Cons (cbuf (keyed x c)) (cr c) (ce (keyed x c)) (ce (keyed x c))) (q ++ e ++ [x]) [].
Proof.
  intros H Hl. destruct (ring_keyed x c q e H Hl) as [Hr He]. destruct H as [h1 h2 h3 h4 h5 h6 h7].
  assert (len (q ++ e ++ [x]) = len (q ++ e) + 1) as Hlen by (rewrite app_assoc, (length_app (q ++ e)); cbn; lia).
  split; cbn [cbuf cr cw ce]; rewrite ?app_nil_r, ?Hlen; try done.
  - cbn. by rewrite length_insert.
  - rewrite He. f_equal. lia.
  - rewrite He. f_equal. lia.
  - lia.
  - by rewrite app_assoc.
Qed.

(** [consoleread] takes what the terminal takes. *)
Lemma read_take {A} (put : A -> Z -> Z -> A * bool) killed target k : forall acc n c q e, holds c q e ->
  exists l q' acc' r c', consoleread_run k killed put acc target n c = (l, c', acc', r) /\ tty_take k killed put acc target n q = (l, q', acc', r) /\ holds c' q' e.
Proof.
  induction k as [|k IH]; intros acc n c q e H; cbn [consoleread_run tty_take]; [by eauto 10|]. rewrite (holds_empty _ _ _ H).
  destruct q as [|x q]; [rewrite bool_decide_true by done; destruct killed; eauto 10|]. rewrite bool_decide_false by done.
  destruct (holds_pop _ _ _ _ H) as [H1 ->]. cbn [from_option id cr cw ce cbuf]. destruct (x =? C (chr "D")).
  - case_match; [|by eauto 10]. do 5 eexists. split; [done|]. split; [done|]. assert (u32 (u32 (cr c + 1) - 1) = cr c) as E.
    { unfold u32 at 1 2. rewrite Zminus_mod_idemp_l. replace (cr c + 1 - 1) with (cr c) by lia. apply (h_r _ _ _ H). }
    rewrite E. by destruct c.
  - destruct (put acc (target - n) x) as [acc1 []]; [|by eauto 10]. case_match; [by eauto 10|].
    destruct (IH acc1 (n - 1) _ _ _ H1) as (l & q' & acc' & r & c' & -> & -> & H'). eauto 10.
Qed.

(** ** Output *)

Section Console.
Context {D : Type} (rd : Z -> D -> Z * D) (wr : Z -> Z -> D -> D) (spin : nat) (ptable : list proc).
Context {A : Type}.
Notation con := (con (D := D) (A := A)).
Implicit Types (s : con).

(** The transmit register is idle within [k] more reads of the status. *)
Fixpoint idle_within (k : nat) (d : D) : Prop :=
  let '(v, d') := rd LSR d in
  Z.land (u8 v) LSR_TX_IDLE <> 0 \/ match k with O => False | S k' => idle_within k' d' end.
Context (tx_ready : forall d, idle_within spin d).

Lemma wp_wait_tx k : forall (u : uart) Q, idle_within k (udev u) -> (forall d, Q tt (set_udev d u)) -> wp (wait_tx rd k) u Q.
Proof.
  induction k as [|k IH]; intros u Q Hi HQ; cbn [wait_tx]; cbn in Hi; apply wp_bind; unfold wp, ReadReg; destruct (rd LSR (udev u)) as [v d];
    (destruct (Z.eqb_spec (Z.land (u8 v) LSR_TX_IDLE) 0) as [E|E]; [|apply HQ]); destruct Hi as [Hi|Hi]; try done.
  apply IH; [done|]. intros d'. apply HQ.
Qed.

(** [s'] is [s] after the bytes [l] have been sent directly. *)
Definition said (l : list Z) s s' : Prop :=
  exists u, s' = set_u u s /\ panicked u = false /\ direct (thr u) = direct (thr (con_u s)) ++ l.

Lemma said_nil s : panicked (con_u s) = false -> said [] s s.
Proof. intros Hp. exists (con_u s). split; [by destruct s|]. split; [done|]. by rewrite app_nil_r. Qed.

Lemma said_trans l1 l2 s1 s2 s3 : said l1 s1 s2 -> said l2 s2 s3 -> said (l1 ++ l2) s1 s3.
Proof. intros (u1 & -> & P1 & E1) (u2 & -> & P2 & E2). exists u2. split; [done|]. split; [done|]. cbn in E2. by rewrite E2, E1, app_assoc. Qed.

Lemma direct_snoc x b c : direct (x ++ [(b, c)]) = direct x ++ (if b : bool then [] else [c]).
Proof. unfold direct. rewrite filter_app, fmap_app. by destruct b. Qed.

Lemma wp_sync c s Q : panicked (con_u s) = false -> (forall s', said [u8 c] s s' -> Q tt s') -> wp (liftU (uartputc_sync rd wr spin c)) s Q.
Proof using tx_ready.
  intros Hp HQ. assert (wp (uartputc_sync rd wr spin c) (con_u s) (fun _ u => Q tt (set_u u s))) as Hw.
  { unfold uartputc_sync. apply wp_bind, wp_get. rewrite Hp. apply wp_bind, wp_wait_tx; [apply tx_ready|]. intros d. unfold send, WriteReg.
    apply wp_bind, wp_modify, wp_modify. apply HQ. eexists. split; [reflexivity|]. split; [done|]. cbn. by rewrite direct_snoc. }
  apply wp_inv in Hw as ([] & u & E & HQu). unfold wp, liftU. by rewrite E.
Qed.

Lemma wp_consputc c s Q : panicked (con_u s) = false -> byte c -> (forall s', said [c] s s' -> Q tt s') -> wp (consputc rd wr spin c) s Q.
Proof using tx_ready.
  intros Hp Hc HQ. unfold consputc. rewrite (proj2 (Z.eqb_neq _ _)) by (unfold BACKSPACE, byte in *; lia). apply wp_sync; [done|]. rewrite u8_small by done. done.
Qed.

Lemma wp_rubout s Q : panicked (con_u s) = false -> (forall s', said rubout s s' -> Q tt s') -> wp (consputc rd wr spin BACKSPACE) s Q.
Proof using tx_ready.
  intros Hp HQ. unfold consputc. rewrite Z.eqb_refl. apply wp_bind, wp_sync; [done|]. intros s1 H1. pose proof H1 as (u1 & -> & P1 & _).
  apply wp_bind, wp_sync; [done|]. intros s2 H2. pose proof H2 as (u2 & -> & P2 & _). apply wp_sync; [done|]. intros s3 H3. apply HQ.
  apply (said_trans [8] [32; 8] _ _ _ H1), (said_trans [32] [8] _ _ _ H2 H3).
Qed.

Lemma wp_put_all l : forall s Q, panicked (con_u s) = false -> Forall byte l -> (forall s', said l s s' -> Q tt s') -> wp (put_all (consputc rd wr spin) l) s Q.
Proof using tx_ready.
  induction l as [|c l IH]; intros s Q Hp Hl HQ; cbn [put_all]; [apply wp_ret, HQ; by apply said_nil|]. apply Forall_cons in Hl as [Hc Hl].
  apply wp_bind, wp_consputc; [done|done|]. intros s1 H1. pose proof H1 as (u1 & -> & P1 & _). apply IH; [done|done|]. intros s2 H2. apply HQ. by apply (said_trans [c] l _ _ _ H1).
Qed.

(** ** The listing *)

Definition proc_ok (p : proc) : Prop := - 2 ^ 31 <= p_pid p < 2 ^ 31 /\ Forall byte (p_name p).

Lemma spelled_bytes base x text : spells kdigits base x text -> Forall byte text.
Proof.
  intros (js & _ & HF). assert (Hk : Forall byte kdigits) by (by apply (bool_decide_eq_true_1 (Forall (fun c => 0 <= c < 256) kdigits))).
  induction HF as [|j d js' text Hd _ IH]; constructor; [|done]. rewrite Forall_lookup in Hk. by eapply Hk.
Qed.

Lemma number_bytes base x sign text : number kdigits base x sign text -> Forall byte text.
Proof.
  intros (t & Ht & _ & ->). apply Forall_app. split; [|by eapply spelled_bytes]. destruct (_ && _); [|constructor]. by repeat constructor.
Qed.

Lemma cname_bytes l : Forall byte l -> Forall byte (cname l).
Proof. induction 1 as [|c l Hc _ IH]; cbn; [constructor|]. case_match; by constructor. Qed.

Lemma state_name_bytes x : Forall byte (state_name x).
Proof. destruct x; by apply (bool_decide_eq_true_1 (Forall (fun c => 0 <= c < 256) _)). Qed.

(** The line of a process. *)
Lemma proc_line_spec p : proc_ok p -> exists text, proc_line p (text ++ [10]) /\ Forall byte text /\
  forall S (putc : Z -> M S unit) (x : S), kprintf putc (# "%d %s %s") [AInt (p_pid p); AStr (state_name (p_state p)); AStr (cname (p_name p))] x = put_all putc text x.
Proof.
  intros [Hpid Hname]. set (items := [Dec (p_pid p); Lit 32; Str (state_name (p_state p)); Lit 32; Str (cname (p_name p))]).
  destruct (kprintf_spec items) as (texts & HF & Hp); [repeat constructor; cbn; try done; lia|].
  unfold items in HF. do 5 (let t := fresh "t" in apply Forall2_cons_inv_l in HF as (t & ? & ? & HF & ->)). apply Forall2_nil_inv_l in HF as ->.
  cbn [text_item] in *. subst. pose proof (number_bytes _ _ _ _ H) as Hb.
  exists (t ++ # " " ++ state_name (p_state p) ++ # " " ++ cname (p_name p)). split; [exists t; split; [done|]; by rewrite <- !app_assoc|]. split.
  - rewrite !Forall_app. split; [done|]. split; [by repeat constructor|]. split; [apply state_name_bytes|]. split; [by repeat constructor|by apply cname_bytes].
  - intros S putc x. pose proof (Hp S putc x) as E. cbn [concat app] in E. by rewrite app_nil_r in E.
Qed.

Lemma wp_newline s Q : panicked (con_u s) = false -> (forall s', said [10] s s' -> Q tt s') -> wp (kprintf (consputc rd wr spin) [10] []) s Q.
Proof using tx_ready. intros Hp HQ. change (wp (put_all (consputc rd wr spin) [10]) s Q). apply wp_put_all; [done|by repeat constructor|done]. Qed.

Lemma wp_procdump_loop ps : forall s Q, panicked (con_u s) = false -> Forall proc_ok ps ->
  (forall ls s', Forall2 proc_line (filter (fun p => p_state p <> UNUSED) ps) ls -> said (concat ls) s s' -> Q tt s') -> wp (procdump_loop (consputc rd wr spin) ps) s Q.
Proof using tx_ready.
  induction ps as [|p ps IH]; intros s Q Hp Hps HQ; cbn [procdump_loop]; [apply wp_ret, (HQ []); [constructor|by apply said_nil]|].
  apply Forall_cons in Hps as [Hpk Hps]. rewrite filter_cons in HQ. destruct (decide (p_state p = UNUSED)) as [E|E].
  - rewrite decide_False in HQ by (intros Hn; by apply Hn). by apply IH.
  - rewrite decide_True in HQ by done. destruct (proc_line_spec p Hpk) as (text & Hl & Hb & Hk). apply wp_bind. unfold wp at 1. rewrite Hk.
    change (wp (put_all (consputc rd wr spin) text) s (fun _ s' => wp (kprintf (consputc rd wr spin) [10] [];; procdump_loop (consputc rd wr spin) ps) s' Q)).
    apply wp_put_all; [done|done|]. intros s1 H1. pose proof H1 as (u1 & -> & P1 & _). apply wp_bind, wp_newline; [done|].
    intros s2 H2. pose proof H2 as (u2 & -> & P2 & _). apply IH; [done|done|]. intros ls s3 Hls H3. apply (HQ ((text ++ [10]) :: ls)); [by constructor|].
    cbn [concat]. eapply said_trans; [|exact H3]. by eapply said_trans.
Qed.

Lemma wp_procdump s Q : panicked (con_u s) = false -> Forall proc_ok ptable -> (forall text s', dump_text ptable text -> said text s s' -> Q tt s') ->
  wp (procdump (consputc rd wr spin) ptable) s Q.
Proof using tx_ready.
  intros Hp Hps HQ. unfold procdump. apply wp_bind, wp_newline; [done|]. intros s1 H1. pose proof H1 as (u1 & -> & P1 & _).
  apply wp_procdump_loop; [done|done|]. intros ls s2 Hls H2. apply (HQ (10 :: concat ls)); [by exists ls|]. by apply (said_trans [10] _ _ _ _ H1).
Qed.

(** ** Input *)

Notation tty := (tty (A := A)).

Record crel s (T : tty) : Prop := Crel {
  cl_buf : holds (con_c s) (ready T) (edit T);
  cl_readers : forall t, readers s t = treaders T t;
  cl_mem : forall t, umem s t = tmem T t;
  cl_taken : taken s = ttaken T;
  cl_echo : direct (thr (con_u s)) = echo T;
  cl_panic : panicked (con_u s) = false;
  cl_sleep : forall t target k, treaders T t = RWait target k false -> ready T = [] }.

(** Output leaves the input alone. *)
Lemma crel_said l s s' T : crel s T -> said l s s' -> crel s' (say l T).
Proof. intros [c1 c2 c3 c4 c5 c6 c7] (u & -> & Hp & Hd). split; try done. cbn. by rewrite Hd, c5. Qed.

(** The buffer changes to hold [q] and [e]. *)
Lemma crel_buf s T c q e rs : crel s T -> holds c q e -> (forall t, rs t = treaders T t) -> q = ready T ->
  crel (set_readers rs (set_c c s)) (set_input q e (treaders T) [] T).
Proof.
  intros [c1 c2 c3 c4 c5 c6 c7] Hh Hr ->. split; try done. cbn. by rewrite app_nil_r.
Qed.

Lemma crel_erase s T e x : crel s T -> edit T = e ++ [x] ->
  crel (set_c (Cons (cbuf (con_c s)) (cr (con_c s)) (cw (con_c s)) (u32 (ce (con_c s) - 1))) s) (set_input (ready T) e (treaders T) [] T).
Proof.
  intros [c1 c2 c3 c4 c5 c6 c7] He. rewrite He in c1. destruct (holds_erase _ _ _ _ c1) as [Hh _]. split; try done. cbn. by rewrite app_nil_r.
Qed.

Lemma wp_kill_line e : forall s T Q, crel s T -> edit T = e ->
  (forall s', crel s' (set_input (ready T) [] (treaders T) (concat (replicate (length e) rubout)) T) -> Q tt s') -> wp (kill_line rd wr spin (length e)) s Q.
Proof using tx_ready.
  induction e as [|x e IH] using rev_ind; intros s T Q H He HQ.
  - cbn [kill_line length]. apply wp_bind, wp_get. rewrite (holds_noedit _ _ _ (cl_buf _ _ H)), He. cbn. apply wp_ret, HQ.
    destruct H as [c1 c2 c3 c4 c5 c6 c7]. rewrite He in c1. split; try done. cbn. by rewrite app_nil_r.
  - rewrite length_app, Nat.add_comm. cbn [Nat.add length kill_line]. apply wp_bind, wp_get. pose proof (cl_buf _ _ H) as Hh.
    rewrite (holds_noedit _ _ _ Hh), He. rewrite He in Hh. destruct (holds_erase _ _ _ _ Hh) as [_ ->]. cbn [from_option id].
    rewrite bool_decide_false by (by intros [_ ?]%app_eq_nil). pose proof (h_edit _ _ _ Hh) as Hx. apply Forall_app in Hx as [_ Hx]. apply Forall_cons in Hx as [Hx _].
    rewrite (proj2 (Z.eqb_neq _ _) Hx). cbn [orb]. unfold set_e. apply wp_bind, wp_modify, wp_bind. pose proof (crel_erase _ _ _ _ H He) as H1.
    apply wp_rubout; [apply (cl_panic _ _ H)|]. intros s2 H2. eapply IH; [by eapply crel_said|done|]. cbn [ready edit treaders say set_input]. intros s3 H3. apply HQ.
    rewrite length_app, Nat.add_comm. destruct H3 as [c1 c2 c3 c4 c5 c6 c7]. split; try done. cbn in *. by rewrite c5, app_nil_r, <- app_assoc.
Qed.

(** The reply to a key. *)
Lemma wp_key c s T Q : crel s T -> byte c -> c <> 0 -> (forall s', crel s' (tty_key c T) -> Q tt s') -> wp (console_key rd wr spin c) s Q.
Proof using tx_ready.
  intros H Hc H0 HQ. unfold console_key. apply wp_bind, wp_get. cbv zeta. rewrite (proj2 (Z.eqb_neq _ _) H0). cbn [negb andb]. unfold tty_key in HQ. destruct (holds_size _ _ _ (cl_buf _ _ H)) as [-> _]. unfold INPUT_BUF_SIZE at 1 in HQ. unfold INPUT_BUF_SIZE at 1.
  destruct (Z.ltb_spec (len (ready T ++ edit T)) 128) as [Hl|Hl]; [|by apply wp_ret, HQ]. cbv zeta. cbv zeta in HQ. set (c' := if c =? 13 then 10 else c) in *.
  assert (byte c') as Hc' by (unfold byte in *; subst c'; destruct (c =? 13); lia).
  apply wp_bind, wp_consputc; [apply (cl_panic _ _ H)|done|]. intros s1 H1. pose proof (crel_said _ _ _ _ H H1) as HT. destruct H1 as (u & -> & _ & _).
  apply wp_bind, wp_get. cbn [con_c set_u]. pose proof (cl_buf _ _ H) as Hh. rewrite decide_True.
  2:{ rewrite (h_len _ _ _ Hh). pose proof (Z.mod_pos_bound (ce (con_c s)) INPUT_BUF_SIZE eq_refl). unfold INPUT_BUF_SIZE in *. lia. }
  apply wp_bind, wp_modify, wp_bind, wp_get. cbn [con_c set_c]. rewrite u8_small by done. fold (keyed c' (con_c s)).
  assert (u32 (ce (keyed c' (con_c s)) - cr (keyed c' (con_c s))) = len (ready T ++ edit T ++ [c'])) as ->.
  { destruct (ring_keyed c' _ _ _ Hh Hl) as [_ ->]. cbn [cr keyed]. rewrite app_assoc, (length_app (ready T ++ edit T)). rewrite <- Z.add_assoc.
    unfold u32. rewrite wrap_distance; [cbn; lia|lia]. }
  destruct HT as [c1 c2 c3 c4 c5 c6 c7]. destruct ((c' =? 10) || (c' =? C (chr "D")) || (len (ready T ++ edit T ++ [c']) =? INPUT_BUF_SIZE)) eqn:Ecommit.
  - unfold wake_readers. apply wp_bind, wp_modify, wp_modify. apply HQ. split; try done; cbn.
    + by apply holds_commit.
    + intros t. by rewrite (cl_readers _ _ H).
    + intros t target k Ht. by destruct (treaders T t).
  - apply wp_ret, HQ. apply orb_false_iff in Ecommit as [Ecommit _]. apply orb_false_iff in Ecommit as [E10 _]. split; try done; cbn.
    apply holds_key; [done|done|]. by apply Z.eqb_neq.
Qed.

Lemma wp_consoleintr c s T Q : Forall proc_ok ptable -> crel s T -> byte c ->
  (forall T' s', tty_type ptable c T T' -> crel s' T' -> Q tt s') -> wp (consoleintr rd wr spin ptable c) s Q.
Proof using tx_ready.
  intros Hps H Hc HQ. unfold consoleintr. apply wp_bind, wp_get. cbv zeta. unfold tty_type in HQ. pose proof (cl_buf _ _ H) as Hh. destruct (c =? C (chr "P")).
  { apply wp_procdump; [apply (cl_panic _ _ H)|done|]. intros text s' Ht Hs. eapply HQ; [by exists text|by eapply crel_said]. }
  destruct (c =? C (chr "U")).
  { destruct (holds_size _ _ _ Hh) as [_ ->]. rewrite Nat2Z.id. eapply wp_kill_line; [done|done|]. intros s' Hs. by eapply HQ. }
  destruct ((c =? C (chr "H")) || (c =? 0x7f)).
  { rewrite (holds_noedit _ _ _ Hh). destruct (edit T) as [|x e0] eqn:He.
    - rewrite bool_decide_true by done. apply wp_ret. by eapply HQ.
    - rewrite bool_decide_false by done. destruct (exists_last (l := x :: e0)) as (e & y & Ey); [done|]. rewrite Ey in *. unfold set_e. apply wp_bind, wp_modify.
      pose proof (crel_erase _ _ _ _ H He) as H1. apply wp_rubout; [apply (cl_panic _ _ H)|]. intros s2 H2. eapply HQ; [reflexivity|].
      rewrite removelast_last. pose proof (crel_said _ _ _ _ H1 H2) as [c1 c2 c3 c4 c5 c6 c7]. split; try done. cbn in *. by rewrite c5, app_nil_r. }
  destruct (Z.eqb_spec c 0) as [->|H0].
  - unfold console_key. apply wp_bind, wp_get. apply wp_ret. by eapply HQ.
  - apply wp_key with T; [done|done|done|]. intros s' Hs. by eapply HQ.
Qed.

(** ** The line *)

Lemma uartstart_direct fuel : forall (u u' : uart), uartstart_loop rd wr fuel u = Ret (tt, u') -> panicked u' = panicked u /\ direct (thr u') = direct (thr u).
Proof.
  induction fuel as [|fuel IH]; intros u u'; cbn [uartstart_loop]; unfold bind at 1, get at 1; destruct (_ =? _); try done; try (by intros [= <-]).
  unfold bind at 1, ReadReg. destruct (rd LSR (udev u)) as [v d]. destruct (_ =? _); [by intros [= <-]|]. unfold bind at 1, get at 1.
  destruct (tx_buf _ !! _) as [c|]; [|done]. unfold bind, modify, wake_writers, send, WriteReg, modify. intros E. apply IH in E as [E1 E2]. cbn in *.
  rewrite E1, E2, direct_snoc, app_nil_r. done.
Qed.

Lemma uartputc_direct t i c (u u' : uart) : uartputc_loop rd wr t i c u = Ret (tt, u') -> panicked u' = panicked u /\ direct (thr u') = direct (thr u).
Proof.
  unfold uartputc_loop, bind at 1, get at 1. destruct (_ =? _); [by intros [= <-]|]. case_decide; [|done]. unfold bind, modify, uartstart, bind, get.
  destruct (uartstart_loop _ _ _ _) as [[[] u1]| | |] eqn:E; [|done|done|done]. apply uartstart_direct in E as [E1 E2]. intros [= <-]. done.
Qed.

Lemma ustep_direct n src (u u' : uart) : panicked u = false -> ustep rd wr n src u u' -> panicked u' = false /\ exists l, direct (thr u') = direct (thr u) ++ l.
Proof.
  intros Hp Hs. assert (Hnil : forall v : uart (D := D), panicked v = panicked u /\ direct (thr v) = direct (thr u) -> panicked v = false /\ exists l, direct (thr v) = direct (thr u) ++ l).
  { intros v [-> ->]. split; [done|]. exists []. by rewrite app_nil_r. }
  destruct Hs as [u u' t i Ht E|u u' t i c Ht E|u u' E|u u' k c E|u d].
  - revert E. unfold consolewrite_turn. case_match; [case_match|]; [|by intros [= <-]; apply Hnil|by intros [= <-]; apply Hnil].
    unfold uartputc, bind, get. rewrite Hp. intros E. apply Hnil. by eapply uartputc_direct.
  - apply Hnil. by eapply uartputc_direct.
  - apply Hnil. unfold uartstart, bind, get in E. by eapply uartstart_direct.
  - revert E. unfold uartputc_sync, bind, get. rewrite Hp. destruct (wait_tx rd k u) as [[[] u1]| | |] eqn:E; [|done|done|done].
    apply wait_tx_inv in E as [d ->]. intros [= <-]. split; [done|]. exists [u8 c]. cbn. by rewrite direct_snoc.
  - by apply Hnil.
Qed.

Lemma uartgetc_inv s s1 c : liftU (uartgetc rd) s = Ret (c, s1) -> c <> -1 -> byte c /\ exists d, s1 = set_u (set_udev d (con_u s)) s.
Proof.
  unfold liftU, uartgetc, bind, ReadReg. destruct (rd LSR (udev (con_u s))) as [v d]. destruct (ctrue _); [|by intros [= <- <-]].
  cbn. destruct (rd RHR d) as [v' d']. intros [= <- <-] _. split; [apply u8_range|]. by exists d'.
Qed.

(** ** All interleavings *)

Section System.
Context (out : nat -> A -> Z -> Z -> A * bool) (n : nat -> Z) (src : nat -> Z -> option Z) (Hps : Forall proc_ok ptable).

Lemma tty_take_sleep (put : A -> Z -> Z -> A * bool) killed target k : forall acc m q l q' acc' r j,
  tty_take k killed put acc target m q = (l, q', acc', r) -> r = Sleep j -> q' = [].
Proof.
  induction k as [|k IH]; intros acc m q l q' acc' r j; cbn [tty_take]; [by intros [= <- <- <- <-]|]. destruct q as [|x q]; [by intros [= <- <- <- <-]|].
  destruct (_ =? _); [destruct (_ <? _); by intros [= <- <- <- <-]|]. destruct (put acc (target - m) x) as [acc1 []]; [|by intros [= <- <- <- <-]].
  destruct (_ =? _); [by intros [= <- <- <- <-]|]. destruct (tty_take k killed put acc1 target (m - 1) q) as [[[l1 q1] a1] r1] eqn:E. intros [= <- <- <- <-] Hr. by eapply IH.
Qed.

(** The bytes a read leaves are those there were, fewer at the front. *)
Lemma tty_take_app (put : A -> Z -> Z -> A * bool) killed target k : forall acc m q l q' acc' r, tty_take k killed put acc target m q = (l, q', acc', r) -> q = l ++ q'.
Proof.
  induction k as [|k IH]; intros acc m q l q' acc' r; cbn [tty_take]; [by intros [= <- <- <- <-]|]. destruct q as [|x q]; [by intros [= <- <- <- <-]|].
  destruct (_ =? _); [destruct (_ <? _); by intros [= <- <- <- <-]|]. destruct (put acc (target - m) x) as [acc1 []]; [|by intros [= <- <- <- <-]].
  destruct (_ =? _); [by intros [= <- <- <- <-]|]. destruct (tty_take k killed put acc1 target (m - 1) q) as [[[l1 q1] a1] r1] eqn:E. intros [= <- <- <- <-].
  cbn. by rewrite (IH _ _ _ _ _ _ _ E) at 1.
Qed.

Lemma crel_read s T killed t target k : crel s T -> crel (read_section out killed t target k s) (tty_read out killed t target k T).
Proof.
  intros [c1 c2 c3 c4 c5 c6 c7]. unfold read_section, tty_read, consoleread. rewrite c3.
  destruct (read_take (out t) killed target (Z.to_nat k) (tmem T t) k _ _ _ c1) as (l & q' & acc' & r & c' & -> & E & Hh). rewrite E. split; cbn; try done.
  - intros x. by case_decide.
  - intros x. by case_decide.
  - by rewrite c4.
  - intros x m j Hx. case_decide as Ht.
    + destruct r as [v| |j']; cbn in Hx; try done. by eapply tty_take_sleep.
    + pose proof (tty_take_app _ _ _ _ _ _ _ _ _ _ _ E) as Eq. rewrite (c7 _ _ _ Hx) in Eq. symmetry in Eq. by apply app_eq_nil in Eq as [_ ->].
Qed.

Lemma cstep_sim e s s' T : crel s T -> cstep rd wr spin ptable out n src e s s' -> exists T', ttystep out ptable e T T' /\ crel s' T'.
Proof using tx_ready Hps.
  intros H Hs. destruct Hs as [s t target killed Ht Hr|s t target k killed Ht|s t r Ht|s s1 s' c E Hc E'|s u Hu].
  - rewrite (cl_readers _ _ H) in Ht. eexists. split; [by apply ts_read|by apply crel_read].
  - rewrite (cl_readers _ _ H) in Ht. eexists. split; [by apply ts_resume|by apply crel_read].
  - rewrite (cl_readers _ _ H) in Ht. eexists. split; [by eapply ts_again|]. destruct H as [c1 c2 c3 c4 c5 c6 c7]. split; try done; cbn.
    + intros x. case_decide; [done|apply c2].
    + by rewrite app_nil_r.
    + intros x m j. case_decide; [done|apply c7].
  - destruct (uartgetc_inv _ _ _ E Hc) as [Hb [d ->]]. assert (crel (set_u (set_udev d (con_u s)) s) T) as H1 by (by destruct H; split).
    eapply (wp_ret_inv _ _ tt s' (fun _ s' => _)); [|exact E']. eapply wp_consoleintr; [done|exact H1|done|]. intros T' s2 Ht H2. exists T'. split; [by constructor|done].
  - destruct (ustep_direct _ _ _ _ (cl_panic _ _ H) Hu) as (Hp & l & Hd). exists (say l T). split; [constructor|]. eapply crel_said; [done|]. by exists u.
Qed.

Lemma trace_sim es s0 T0 s : crel s0 T0 -> trace (cstep rd wr spin ptable out n src) es s0 s -> exists T, trace (ttystep out ptable) es T0 T /\ crel s T.
Proof using tx_ready Hps.
  intros H0 Hrun. induction Hrun as [s0|es e s0 s1 s2 Hrun IH Hs]; [exists T0; by split; [constructor|]|].
  destruct (IH H0) as (T & Ht & H). destruct (cstep_sim _ _ _ _ H Hs) as (T' & Ht' & H'). exists T'. split; [by econstructor|done].
Qed.

(** C14: The console is a line-buffered terminal.  Every run of readers, typed
    characters, echo and other output in any order is a run of the terminal
    with the same events: the readers take the same bytes, which are the lines
    as edited with backspace and kill, up to a newline or an end of file; the
    echo is the terminal's; at most [INPUT_BUF_SIZE] bytes are kept.  A reader
    sleeps only while there is nothing to read, and after every run the
    console can take any character without getting stuck. *)
Theorem console_refines buf u m es s :
  length buf = 128%nat -> panicked u = false -> thr u = [] -> trace (cstep rd wr spin ptable out n src) es (con_init buf u m) s ->
  exists T, trace (ttystep out ptable) es (tty_init m) T /\ taken s = ttaken T /\ direct (thr (con_u s)) = echo T /\
    (forall t, readers s t = treaders T t /\ umem s t = tmem T t) /\ len (ready T ++ edit T) <= INPUT_BUF_SIZE /\
    (forall t target k, readers s t = RWait target k false -> ready T = [] /\ cr (con_c s) = cw (con_c s)) /\
    (forall c, 0 <= c < 256 -> exists s', consoleintr rd wr spin ptable c s = Ret (tt, s')).
Proof using tx_ready Hps.
  intros Hb Hp Hthr Hrun. assert (exists T, trace (ttystep out ptable) es (tty_init m) T /\ crel s T) as (T & Ht & H).
  { eapply trace_sim; [|exact Hrun]. split; cbn; try done. by rewrite Hthr. }
  exists T. split; [done|]. split; [apply (cl_taken _ _ H)|]. split; [apply (cl_echo _ _ H)|].
  split; [intros t; split; [apply (cl_readers _ _ H)|apply (cl_mem _ _ H)]|]. split; [apply (h_room _ _ _ (cl_buf _ _ H))|]. split.
  - intros t target k E. rewrite (cl_readers _ _ H) in E. pose proof (cl_sleep _ _ H _ _ _ E) as Er. split; [done|].
    apply Z.eqb_eq. rewrite (holds_empty _ _ _ (cl_buf _ _ H)). by apply bool_decide_true.
  - intros c Hc. assert (wp (consoleintr rd wr spin ptable c) s (fun _ _ => True)) as Hw by (by eapply wp_consoleintr).
    apply wp_inv in Hw as ([] & s' & E & _). eauto.
Qed.
End System.
End Console.
