(* ===== verification/ConsoleExamples.v ===== *)
(** * A session at the console

    A device with a queue of typed characters, always ready to send: concrete
    runs the theorems about output and input apply to. *)
From Stdlib Require Import Ascii.
From S2P Require Import Prelude Riscv Mem KString Kalloc Vm Bio Block TxSpec Fs FsNames Pipe File Proc Ring Printf PrintfProofs Uart UartProofs Console ConsoleProofs.

Definition line_rd (r : Z) (d : list Z) : Z * list Z :=
  if r =? LSR then (Z.lor LSR_TX_IDLE (match d with [] => 0 | _ => 1 end), d)
  else match d with [] => (0, []) | c :: d' => (c, d') end.
Definition line_wr (r v : Z) (d : list Z) : list Z := d.

Lemma line_ready d : idle_within line_rd 0 d.
Proof. left. by destruct d. Qed.

(** ** Output *)

Lemma printint_correct_witness : exists text, spells kdigits 10 2147483648 text /\ (length text <= 10)%nat /\
  forall S (putc : Z -> M S unit) s, printint putc kdigits (- 2 ^ 31) 10 true s = put_all putc (# "-" ++ text) s.
Proof. apply (printint_correct kdigits (- 2 ^ 31) 10 true); [reflexivity|left; reflexivity|lia]. Defined.


(** ** A process writes two bytes *)

Definition two (t : nat) : Z := 2.
Definition hi (t : nat) (i : Z) : option Z := (# "hi") !! Z.to_nat i.
Definition line0 : uart (D := list Z) := uart_init (replicate 32 0) [].
Definition uout (c : M (uart (D := list Z)) unit) (s : uart) : uart := match c s with Ret (_, s') => s' | _ => s end.
Definition line1 : uart := uout (consolewrite_turn line_rd line_wr two hi 0 0) line0.

Lemma uart_fifo_witness : exists l, ring_bytes (thr line1) ++ l = [104].
Proof.
  destruct (uart_fifo line_rd line_wr two hi (replicate 32 0) [] line1) as (l & _ & E & _); [reflexivity| |exists l; exact E].
  apply rtc_once. apply (us_turn _ _ _ _ _ _ O 0); [reflexivity|]. vm_compute. reflexivity.
Defined.

(** ** A line is typed and read *)

(** The memory of a reader: the bytes it has got. *)
Definition into (t : nat) (m : list Z) (i c : Z) : list Z * bool := (m ++ [c], true).
Definition desk0 : con := con_init (replicate 128 0) (uart_init (replicate 32 0) [97; 8; 98; 13]) (fun _ : nat => [] : list Z).
Definition cout (c : Z) (s : con (D := list Z) (A := list Z)) : con :=
  match liftU (uartgetc line_rd) s with
  | Ret (_, s1) => match consoleintr line_rd line_wr 0 [] c s1 with Ret (_, s') => s' | _ => s end
  | _ => s
  end.
Definition desk1 : con := cout 97 desk0.
Definition desk2 : con := cout 8 desk1.
Definition desk3 : con := cout 98 desk2.
Definition desk4 : con := cout 13 desk3.
Definition desk5 : con := read_section into false 0 10 10 desk4.

Definition char_ok (c : Z) (s : con (D := list Z) (A := list Z)) : bool :=
  match liftU (uartgetc line_rd) s with
  | Ret (c', s1) => (c' =? c) && negb (c =? -1) && match consoleintr line_rd line_wr 0 [] c s1 with Ret _ => true | _ => false end
  | _ => false
  end.

Lemma char_step c s : char_ok c s = true -> cstep line_rd line_wr 0 [] into two hi (EType c) s (cout c s).
Proof.
  unfold char_ok, cout. destruct (liftU (uartgetc line_rd) s) as [[c' s1]| | |] eqn:E; try done. intros [[Ec Hn]%andb_true_iff H]%andb_true_iff.
  apply Z.eqb_eq in Ec as ->. apply negb_true_iff, Z.eqb_neq in Hn. destruct (consoleintr line_rd line_wr 0 [] c s1) as [[[] s2]| | |] eqn:E'; try done. by eapply cs_char.
Qed.

Lemma desk_run : trace (cstep line_rd line_wr 0 [] into two hi) [EType 97; EType 8; EType 98; EType 13; ERead 0 10 false] desk0 desk5.
Proof.
  refine (tr_snoc _ [EType 97; EType 8; EType 98; EType 13] (ERead 0 10 false) desk0 desk4 desk5 _ _).
  2:{ unfold desk5. apply cs_read; [vm_compute; reflexivity|lia]. }
  apply (tr_snoc _ [EType 97; EType 8; EType 98]) with desk3; [|apply char_step; vm_compute; reflexivity].
  apply (tr_snoc _ [EType 97; EType 8]) with desk2; [|apply char_step; vm_compute; reflexivity].
  apply (tr_snoc _ [EType 97]) with desk1; [|apply char_step; vm_compute; reflexivity].
  apply (tr_snoc _ []) with desk0; [constructor|apply char_step; vm_compute; reflexivity].
Qed.

Lemma console_refines_witness : exists T, trace (ttystep into []) [EType 97; EType 8; EType 98; EType 13; ERead 0 10 false] (tty_init (fun _ => [])) T /\ ttaken T = [98; 10].
Proof.
  destruct (console_refines line_rd line_wr 0 [] line_ready into two hi (Forall_nil_2 _) (replicate 128 0) (uart_init (replicate 32 0) [97; 8; 98; 13]) (fun _ => [])
    [EType 97; EType 8; EType 98; EType 13; ERead 0 10 false] desk5 eq_refl eq_refl eq_refl desk_run) as (T & Ht & Etaken & _).
  exists T. split; [exact Ht|]. rewrite <- Etaken. vm_compute. reflexivity.
Defined.
