(* ===== verification/Virtio.v ===== *)
(** * kernel/virtio_disk.c

    The queues the driver shares with the disk, and its critical sections.
    Everything in them happens under [vdisk_lock]: a process that sleeps in
    [virtio_disk_rw] gives the lock up, so the routine is cut at its two calls
    of [sleep].  The device works at the same time, through the queues alone.

    A descriptor's address is one of the objects the driver points it at. *)
From S2P Require Import Prelude Riscv Mem Bio.

Definition NUM : Z := 8.
Definition VRING_DESC_F_NEXT : Z := 1.
Definition VRING_DESC_F_WRITE : Z := 2.
Definition VIRTIO_BLK_T_IN : Z := 0.
Definition VIRTIO_BLK_T_OUT : Z := 1.
(** [sizeof(struct virtio_blk_req)]. *)
Definition req_size : Z := 16.

(** What an address can be: [&disk.ops[i]], the data of a buffer,
    [&disk.info[i].status], or null. *)
Inductive vaddr : Type := ANull | AOp (i : nat) | AData (b : nat) | AStatus (i : nat).

Record virtq_desc : Type := Desc { d_addr : vaddr; d_len : Z; d_flags : Z; d_next : Z }.
Record virtio_blk_req : Type := Req { r_type : Z; r_reserved : Z; r_sector : Z }.
(** [disk.info[i]]. *)
Record vinfo : Type := Info { i_b : option nat; i_status : Z }.
(** The fields of [struct buf] the driver uses. *)
Record vbuf : Type := Vbuf { vb_blockno : Z; vb_data : block; vb_disk : Z }.

Definition desc0 : virtq_desc := Desc ANull 0 0 0.

Definition set_d_addr (x : vaddr) (d : virtq_desc) := Desc x (d_len d) (d_flags d) (d_next d).
Definition set_d_len (x : Z) (d : virtq_desc) := Desc (d_addr d) x (d_flags d) (d_next d).
Definition set_d_flags (x : Z) (d : virtq_desc) := Desc (d_addr d) (d_len d) x (d_next d).
Definition set_d_next (x : Z) (d : virtq_desc) := Desc (d_addr d) (d_len d) (d_flags d) x.
Definition set_i_b (x : option nat) (i : vinfo) := Info x (i_status i).
Definition set_i_status (x : Z) (i : vinfo) := Info (i_b i) x.
Definition set_vb_data (x : block) (b : vbuf) := Vbuf (vb_blockno b) x (vb_disk b).
Definition set_vb_disk (x : Z) (b : vbuf) := Vbuf (vb_blockno b) (vb_data b) x.

(** Where a process is in [virtio_disk_rw(b, write)]: outside; asleep on
    [&disk.free[0]]; asleep on [b] with its descriptors; returned.  [awake] says
    that a [wakeup] has reached it.  [want] is a ghost: the block as the
    request found it, the buffer's data for a write, the disk's for a read. *)
Inductive vproc : Type :=
| Outside
| WaitFree (b : nat) (write awake : bool)
| WaitDone (b : nat) (write : bool) (idx : list nat) (awake : bool) (want : block)
| Returned (b : nat) (write : bool) (want : block).

Record vdisk : Type := Vdisk {
  desc : list virtq_desc;
  avail_idx : Z;
  avail_ring : list Z;
  vused_idx : Z;               (* disk.used->idx *)
  used_ring : list Z;          (* the ids in disk.used->ring *)
  vfree : list bool;
  used_idx : Z;                (* how far the driver has looked *)
  info : list vinfo;
  ops : list virtio_blk_req;
  vbufs : nat -> vbuf;
  media : memory;              (* the bytes of the disk *)
  last_avail : Z;              (* the device: how far it has looked *)
  working : list nat;          (* the device: chains it is working on *)
  vprocs : nat -> vproc;
}.

Definition set_desc x s := Vdisk x (avail_idx s) (avail_ring s) (vused_idx s) (used_ring s) (vfree s) (used_idx s) (info s) (ops s) (vbufs s) (media s) (last_avail s) (working s) (vprocs s).
Definition set_avail_idx x s := Vdisk (desc s) x (avail_ring s) (vused_idx s) (used_ring s) (vfree s) (used_idx s) (info s) (ops s) (vbufs s) (media s) (last_avail s) (working s) (vprocs s).
Definition set_avail_ring x s := Vdisk (desc s) (avail_idx s) x (vused_idx s) (used_ring s) (vfree s) (used_idx s) (info s) (ops s) (vbufs s) (media s) (last_avail s) (working s) (vprocs s).
Definition set_vused x y s := Vdisk (desc s) (avail_idx s) (avail_ring s) x y (vfree s) (used_idx s) (info s) (ops s) (vbufs s) (media s) (last_avail s) (working s) (vprocs s).
Definition set_vfree x s := Vdisk (desc s) (avail_idx s) (avail_ring s) (vused_idx s) (used_ring s) x (used_idx s) (info s) (ops s) (vbufs s) (media s) (last_avail s) (working s) (vprocs s).
Definition set_used_idx x s := Vdisk (desc s) (avail_idx s) (avail_ring s) (vused_idx s) (used_ring s) (vfree s) x (info s) (ops s) (vbufs s) (media s) (last_avail s) (working s) (vprocs s).
Definition set_info x s := Vdisk (desc s) (avail_idx s) (avail_ring s) (vused_idx s) (used_ring s) (vfree s) (used_idx s) x (ops s) (vbufs s) (media s) (last_avail s) (working s) (vprocs s).
Definition set_ops x s := Vdisk (desc s) (avail_idx s) (avail_ring s) (vused_idx s) (used_ring s) (vfree s) (used_idx s) (info s) x (vbufs s) (media s) (last_avail s) (working s) (vprocs s).
Definition set_vbufs x s := Vdisk (desc s) (avail_idx s) (avail_ring s) (vused_idx s) (used_ring s) (vfree s) (used_idx s) (info s) (ops s) x (media s) (last_avail s) (working s) (vprocs s).
Definition set_media x s := Vdisk (desc s) (avail_idx s) (avail_ring s) (vused_idx s) (used_ring s) (vfree s) (used_idx s) (info s) (ops s) (vbufs s) x (last_avail s) (working s) (vprocs s).
Definition set_device x y s := Vdisk (desc s) (avail_idx s) (avail_ring s) (vused_idx s) (used_ring s) (vfree s) (used_idx s) (info s) (ops s) (vbufs s) (media s) x y (vprocs s).
Definition set_vprocs x s := Vdisk (desc s) (avail_idx s) (avail_ring s) (vused_idx s) (used_ring s) (vfree s) (used_idx s) (info s) (ops s) (vbufs s) (media s) (last_avail s) (working s) x.

(** ** Access to the arrays *)

Definition nget {A} (f : vdisk -> list A) (i : Z) : M vdisk A :=
  fun s => match (if 0 <=? i then f s !! Z.to_nat i else None) with Some x => Ret (x, s) | None => Fault end.
Definition nput {A} (f : vdisk -> list A) (g : list A -> vdisk -> vdisk) (i : Z) (h : A -> A) : M vdisk unit :=
  x <- nget f i;; modify (fun s => g (<[Z.to_nat i := h x]> (f s)) s).
Definition put_desc : Z -> (virtq_desc -> virtq_desc) -> M vdisk unit := nput desc set_desc.
Definition put_info : Z -> (vinfo -> vinfo) -> M vdisk unit := nput info set_info.
Definition put_buf (b : nat) (h : vbuf -> vbuf) : M vdisk unit :=
  modify (fun s => set_vbufs (fun x => if decide (x = b) then h (vbufs s x) else vbufs s x) s).

(** ** Sleeping *)

Inductive vchan : Type := ChFree | ChBuf (b : nat).
Definition wake_v (c : vchan) (p : vproc) : vproc :=
  match p, c with
  | WaitFree b w _, ChFree => WaitFree b w true
  | WaitDone b w idx a want, ChBuf b' => if decide (b = b') then WaitDone b w idx true want else p
  | _, _ => p
  end.
Definition vwakeup (c : vchan) : M vdisk unit := modify (fun s => set_vprocs (fun t => wake_v c (vprocs s t)) s).
Definition set_proc (t : nat) (p : vproc) : M vdisk unit :=
  modify (fun s => set_vprocs (fun x => if decide (x = t) then p else vprocs s x) s).

(** ** Descriptors *)

Fixpoint first_free (l : list bool) (i : Z) : option Z :=
  match l with
  | [] => None
  | true :: _ => Some i
  | false :: l' => first_free l' (i + 1)
  end.
Definition alloc_desc : M vdisk Z :=
  l <- gets vfree;;
  match first_free l 0 with
  | Some i => nput vfree set_vfree i (fun _ => false);; ret i
  | None => ret (-1)
  end.

Definition free_desc (i : Z) : M vdisk unit :=
  if i >=? NUM then panic "free_desc 1" else
  fr <- nget vfree i;;
  if fr : bool then panic "free_desc 2" else
  put_desc i (set_d_addr ANull);;
  put_desc i (set_d_len 0);;
  put_desc i (set_d_flags 0);;
  put_desc i (set_d_next 0);;
  nput vfree set_vfree i (fun _ => true);;
  vwakeup ChFree.

Fixpoint free_chain (fuel : nat) (i : Z) : M vdisk unit :=
  match fuel with
  | O => diverge
  | S fuel' =>
      d <- nget desc i;;
      free_desc i;;
      if ctrue (Z.land (d_flags d) VRING_DESC_F_NEXT) then free_chain fuel' (d_next d) else ret tt
  end.

Fixpoint free_descs (l : list Z) : M vdisk unit :=
  match l with
  | [] => ret tt
  | i :: l' => free_desc i;; free_descs l'
  end.
(** [alloc3_desc]: [idx] holds the descriptors taken so far. *)
Fixpoint alloc_descs (n : nat) (idx : list Z) : M vdisk (option (list Z)) :=
  match n with
  | O => ret (Some idx)
  | S n' =>
      i <- alloc_desc;;
      if i <? 0 then free_descs idx;; ret None else alloc_descs n' (idx ++ [i])
  end.
Definition alloc3_desc : M vdisk (option (list Z)) := alloc_descs 3 [].

(** ** Requests *)

(** The block as the request finds it. *)
Definition wanted (s : vdisk) (b : nat) (write : bool) : block :=
  if write then vb_data (vbufs s b) else rd_bytes (Z.to_nat BSIZE) (media s) (vb_blockno (vbufs s b) * BSIZE).

(** Formatting the descriptors and handing the chain to the device. *)
Definition submit (t b : nat) (write : bool) (i0 i1 i2 : Z) : M vdisk unit :=
  s <- get;;
  let sector := u32 (vb_blockno (vbufs s b) * (BSIZE / 512)) in
  nput ops set_ops i0 (fun _ => Req (if write then VIRTIO_BLK_T_OUT else VIRTIO_BLK_T_IN) 0 sector);;
  put_desc i0 (set_d_addr (AOp (Z.to_nat i0)));;
  put_desc i0 (set_d_len req_size);;
  put_desc i0 (set_d_flags VRING_DESC_F_NEXT);;
  put_desc i0 (set_d_next i1);;
  put_desc i1 (set_d_addr (AData b));;
  put_desc i1 (set_d_len BSIZE);;
  put_desc i1 (set_d_flags (if write then 0 else VRING_DESC_F_WRITE));;
  put_desc i1 (fun d => set_d_flags (Z.lor (d_flags d) VRING_DESC_F_NEXT) d);;
  put_desc i1 (set_d_next i2);;
  put_info i0 (set_i_status 0xff);;
  put_desc i2 (set_d_addr (AStatus (Z.to_nat i0)));;
  put_desc i2 (set_d_len 1);;
  put_desc i2 (set_d_flags VRING_DESC_F_WRITE);;
  put_desc i2 (set_d_next 0);;
  put_buf b (set_vb_disk 1);;
  put_info i0 (set_i_b (Some b));;
  a <- gets avail_idx;;
  nput avail_ring set_avail_ring (a mod NUM) (fun _ => i0);;
  modify (fun s => set_avail_idx (u16 (avail_idx s + 1)) s);;
  set_proc t (WaitDone b write [Z.to_nat i0; Z.to_nat i1; Z.to_nat i2] false (wanted s b write)).

(** [virtio_disk_rw] from its start, or from the [sleep] on [&disk.free[0]], to
    its next [sleep]: the first look at [b->disk] finds it set. *)
Definition rw_begin (t b : nat) (write : bool) : M vdisk unit :=
  r <- alloc3_desc;;
  match r with
  | None => set_proc t (WaitFree b write false)
  | Some [i0; i1; i2] => submit t b write i0 i1 i2
  | Some _ => fault
  end.

(** From the [sleep] on [b]. *)
Definition rw_end (t b : nat) (write : bool) (idx : list nat) (want : block) : M vdisk unit :=
  s <- get;;
  if vb_disk (vbufs s b) =? 1 then set_proc t (WaitDone b write idx false want) else
  match idx with
  | i0 :: _ =>
      put_info (Z.of_nat i0) (set_i_b None);;
      free_chain (Z.to_nat NUM) (Z.of_nat i0);;
      set_proc t (Returned b write want)
  | [] => fault
  end.

(** ** Interrupts *)

(** The number of used entries bounds the loop. *)
Fixpoint intr_loop (fuel : nat) : M vdisk unit :=
  s <- get;;
  if used_idx s =? vused_idx s then ret tt else
  match fuel with
  | O => diverge
  | S fuel' =>
      id <- nget used_ring (used_idx s mod NUM);;
      i <- nget info id;;
      if negb (i_status i =? 0) then panic "virtio_disk_intr status" else
      match i_b i with
      | None => fault
      | Some b =>
          put_buf b (set_vb_disk 0);;
          vwakeup (ChBuf b);;
          modify (fun s => set_used_idx (u16 (used_idx s + 1)) s);;
          intr_loop fuel'
      end
  end.
Definition virtio_disk_intr : M vdisk unit :=
  s <- get;; intr_loop (Z.to_nat (u16 (vused_idx s - used_idx s))).

(** ** The device

    What the virtio specification says a block device may do to the queues: take
    the next available chain, and, in any order, complete one it has taken,
    with success. *)

Definition dev_take (s s' : vdisk) : Prop :=
  last_avail s <> avail_idx s /\
  exists h, avail_ring s !! Z.to_nat (last_avail s mod NUM) = Some h /\
    s' = set_device (u16 (last_avail s + 1)) (working s ++ [Z.to_nat h]) s.

(** The request of the chain at [h]: a header, a data buffer and a status byte. *)
Definition chain_at (s : vdisk) (h : nat) : option (virtio_blk_req * nat * Z * Z * nat) :=
  d0 ← desc s !! h;
  d1 ← desc s !! Z.to_nat (d_next d0);
  d2 ← desc s !! Z.to_nat (d_next d1);
  match d_addr d0, d_addr d1, d_addr d2 with
  | AOp i, AData b, AStatus j =>
      r ← ops s !! i;
      if ctrue (Z.land (d_flags d0) VRING_DESC_F_NEXT) && ctrue (Z.land (d_flags d1) VRING_DESC_F_NEXT) && negb (ctrue (Z.land (d_flags d2) VRING_DESC_F_NEXT))
      then Some (r, b, d_len d1, d_flags d1, j) else None
  | _, _, _ => None
  end.

(** The transfer of [len] bytes at [sector]. *)
Definition transfer (r : virtio_blk_req) (b : nat) (len flags : Z) (s : vdisk) : option vdisk :=
  let a := r_sector r * 512 in
  if (r_type r =? VIRTIO_BLK_T_OUT) && negb (ctrue (Z.land flags VRING_DESC_F_WRITE))
  then Some (set_media (wr_bytes (media s) a (take (Z.to_nat len) (vb_data (vbufs s b)))) s)
  else if (r_type r =? VIRTIO_BLK_T_IN) && ctrue (Z.land flags VRING_DESC_F_WRITE)
  then Some (set_vbufs (fun x => if decide (x = b) then set_vb_data (rd_bytes (Z.to_nat len) (media s) a) (vbufs s x) else vbufs s x) s)
  else None.

Definition dev_finish (s s' : vdisk) : Prop :=
  exists h w1 w2 r b len flags j s1 i,
    working s = w1 ++ h :: w2 /\ chain_at s h = Some (r, b, len, flags, j) /\ transfer r b len flags s = Some s1 /\ info s1 !! j = Some i /\
    s' = set_device (last_avail s) (w1 ++ w2)
           (set_vused (u16 (vused_idx s + 1)) (<[Z.to_nat (vused_idx s mod NUM) := Z.of_nat h]> (used_ring s))
             (set_info (<[j := set_i_status 0 i]> (info s1)) s1)).

(** ** The machine *)

(** The buffer a process has in [virtio_disk_rw]. *)
Definition buf_of (p : vproc) : option nat :=
  match p with
  | Outside => None
  | WaitFree b _ _ | WaitDone b _ _ _ _ | Returned b _ _ => Some b
  end.
(** No process uses [b] or block [n]: the buffer's sleep lock, and the one
    buffer for each block of the cache. *)
Definition exclusive (s : vdisk) (b : nat) (n : Z) : Prop :=
  forall t b', buf_of (vprocs s t) = Some b' -> b' <> b /\ vb_blockno (vbufs s b') <> n.
(** A buffer holds one block, of a disk of less than a terabyte. *)
Definition buf_ok (b : vbuf) : Prop :=
  0 <= vb_blockno b < 2 ^ 31 /\ length (vb_data b) = Z.to_nat BSIZE /\ Forall (fun x => 0 <= x < 256) (vb_data b) /\ vb_disk b = 0.

Section Steps.
(** The device, as a relation on the shared state. *)
Variable device : vdisk -> vdisk -> Prop.

Inductive vstep : vdisk -> vdisk -> Prop :=
(** A process calls [virtio_disk_rw]. *)
| vs_call s s' t b w :
    vprocs s t = Outside -> exclusive s b (vb_blockno (vbufs s b)) -> buf_ok (vbufs s b) ->
    rw_begin t b w s = Ret (tt, s') -> vstep s s'
(** A process that has been woken up runs. *)
| vs_retry s s' t b w :
    vprocs s t = WaitFree b w true -> rw_begin t b w s = Ret (tt, s') -> vstep s s'
| vs_check s s' t b w idx want :
    vprocs s t = WaitDone b w idx true want -> rw_end t b w idx want s = Ret (tt, s') -> vstep s s'
(** An interrupt. *)
| vs_intr s s' : virtio_disk_intr s = Ret (tt, s') -> vstep s s'
| vs_device s s' : device s s' -> vstep s s'
(** The callers go on, and use buffers that no process is transferring. *)
| vs_leave s t b w want :
    vprocs s t = Returned b w want -> vstep s (set_vprocs (fun x => if decide (x = t) then Outside else vprocs s x) s)
| vs_client s b n d :
    exclusive s b n -> vstep s (set_vbufs (fun x => if decide (x = b) then Vbuf n d (vb_disk (vbufs s x)) else vbufs s x) s).
End Steps.

(** After [virtio_disk_init]: queues of zeros, all descriptors free. *)
Definition vdisk_init (media : memory) : vdisk :=
  Vdisk (replicate (Z.to_nat NUM) desc0) 0 (replicate (Z.to_nat NUM) 0) 0 (replicate (Z.to_nat NUM) 0)
    (replicate (Z.to_nat NUM) true) 0 (replicate (Z.to_nat NUM) (Info None 0)) (replicate (Z.to_nat NUM) (Req 0 0 0))
    (fun _ => Vbuf 0 [] 0) media 0 [] (fun _ => Outside).
