(* ===== verification/VirtioProofs.v ===== *)
(** * The disk driver under all interleavings

    The invariant of the queues: which descriptors belong to which request and
    where each request is, from the available ring through the device and the
    used ring back to the process that waits for it. *)
From S2P Require Import Prelude Riscv Mem Bio Ring Virtio.

(** ** Lists of flags *)

Definition nfree (l : list bool) : nat := length (filter (fun b : bool => b = true) l).
#[global] Arguments nfree : simpl never.

Lemma nfree_cons b l : nfree (b :: l) = ((if b then 1 else 0) + nfree l)%nat.
Proof. unfold nfree. rewrite filter_cons. by destruct b. Qed.

Lemma nfree_insert l i (b c : bool) : l !! i = Some b -> (nfree (<[i := c]> l) + (if b then 1 else 0) = nfree l + (if c then 1 else 0))%nat.
Proof.
  revert i. induction l as [|a l IH]; intros i Hi; [done|]. destruct i as [|i]; simpl in Hi.
  - injection Hi as ->. change (<[O := c]> (b :: l)) with (c :: l). rewrite !nfree_cons. lia.
  - change (<[S i := c]> (a :: l)) with (a :: <[i := c]> l). rewrite !nfree_cons. specialize (IH i Hi). lia.
Qed.

Lemma nfree_take l i : l !! i = Some true -> nfree l = S (nfree (<[i := false]> l)).
Proof. intros Hi. pose proof (nfree_insert _ _ _ false Hi) as H. simpl in H. lia. Qed.

Lemma nfree_give l i : l !! i = Some false -> nfree (<[i := true]> l) = S (nfree l).
Proof. intros Hi. pose proof (nfree_insert _ _ _ true Hi) as H. simpl in H. lia. Qed.

Lemma first_free_some l k i : first_free l k = Some i -> exists j, i = k + Z.of_nat j /\ l !! j = Some true.
Proof.
  revert k. induction l as [|[] l IH]; intros k Hf; simpl in Hf; [done|injection Hf as <-; exists O; split; [lia|done]|].
  destruct (IH _ Hf) as (j & -> & Hj). exists (S j). split; [lia|done].
Qed.

Lemma first_free_none l k : first_free l k = None -> nfree l = O.
Proof.
  revert k. induction l as [|[] l IH]; intros k Hf; simpl in Hf; [done|done|]. rewrite nfree_cons. by apply (IH (k + 1)).
Qed.

Lemma taken_ne (l : list bool) (i j : nat) : <[i := false]> l !! j = Some true -> j <> i /\ l !! j = Some true.
Proof.
  intros Hj. destruct (decide (i = j)) as [->|Hne]; [|by rewrite list_lookup_insert_ne in Hj].
  apply lookup_lt_Some in Hj as Hl. rewrite length_insert in Hl. by rewrite list_lookup_insert_eq in Hj.
Qed.

Lemma put3_lookup (l : list bool) v i0 i1 i2 i :
  (i0 < length l)%nat -> (i1 < length l)%nat -> (i2 < length l)%nat ->
  (i ∈ [i0; i1; i2] -> <[i2 := v]> (<[i1 := v]> (<[i0 := v]> l)) !! i = Some v) /\
  (i ∉ [i0; i1; i2] -> <[i2 := v]> (<[i1 := v]> (<[i0 := v]> l)) !! i = l !! i).
Proof.
  intros L0 L1 L2. rewrite !elem_of_cons, elem_of_nil. split.
  - intros Hi. destruct (decide (i = i2)) as [->|]; [apply list_lookup_insert_eq; by rewrite !length_insert|]. rewrite list_lookup_insert_ne by done.
    destruct (decide (i = i1)) as [->|]; [apply list_lookup_insert_eq; by rewrite !length_insert|]. rewrite list_lookup_insert_ne by done.
    destruct Hi as [->|Hi]; [by apply list_lookup_insert_eq|tauto].
  - intros Hi. rewrite !list_lookup_insert_ne; [done|..]; intros ->; tauto.
Qed.

(** ** Access to the arrays *)

Lemma wp_nget {A} (f : vdisk -> list A) i x s Q : f s !! i = Some x -> Q x s -> wp (nget f (Z.of_nat i)) s Q.
Proof. intros Hi HQ. unfold wp, nget. rewrite (proj2 (Z.leb_le _ _)) by lia. by rewrite Nat2Z.id, Hi. Qed.

Lemma nput_eq {A} (f : vdisk -> list A) g i h x s : f s !! i = Some x -> nput f g (Z.of_nat i) h s = Ret (tt, g (<[i := h x]> (f s)) s).
Proof. intros Hi. unfold nput, bind, nget, modify. rewrite (proj2 (Z.leb_le _ _)) by lia. by rewrite Nat2Z.id, Hi. Qed.

Lemma wp_nput {A} (f : vdisk -> list A) g i h x s Q : f s !! i = Some x -> Q tt (g (<[i := h x]> (f s)) s) -> wp (nput f g (Z.of_nat i) h) s Q.
Proof. intros Hi HQ. unfold wp. by rewrite (nput_eq _ _ _ _ _ _ Hi). Qed.

(** ** Descriptors *)

Notation full s := (length (desc s) = 8%nat /\ length (vfree s) = 8%nat).

Lemma wp_alloc_desc s Q :
  (forall i, vfree s !! i = Some true -> Q (Z.of_nat i) (set_vfree (<[i := false]> (vfree s)) s)) ->
  (nfree (vfree s) = O -> Q (-1) s) -> wp alloc_desc s Q.
Proof.
  intros H1 H2. unfold alloc_desc. apply wp_bind, wp_gets. destruct (first_free (vfree s) 0) as [i|] eqn:E.
  - apply first_free_some in E as (j & -> & Hj). rewrite Z.add_0_l. apply wp_bind. eapply wp_nput; [exact Hj|]. by apply wp_ret, H1.
  - apply wp_ret, H2. by eapply first_free_none.
Qed.

(** What freeing descriptors may do to the sleepers. *)
Definition woken (p p' : nat -> vproc) : Prop := forall t, p' t = p t \/ p' t = wake_v ChFree (p t).

Lemma woken_refl p : woken p p.
Proof. by left. Qed.

Lemma wake_free_idem p : wake_v ChFree (wake_v ChFree p) = wake_v ChFree p.
Proof. by destruct p. Qed.

Lemma woken_trans p1 p2 p3 : woken p1 p2 -> woken p2 p3 -> woken p1 p3.
Proof.
  intros H1 H2 t. destruct (H1 t) as [E1|E1], (H2 t) as [E2|E2]; rewrite E2, E1; auto. right. apply wake_free_idem.
Qed.

Lemma wp_free_desc i s Q :
  full s -> vfree s !! i = Some false ->
  Q tt (Vdisk (<[i := desc0]> (desc s)) (avail_idx s) (avail_ring s) (vused_idx s) (used_ring s) (<[i := true]> (vfree s)) (used_idx s) (info s) (ops s)
    (vbufs s) (media s) (last_avail s) (working s) (fun t => wake_v ChFree (vprocs s t))) ->
  wp (free_desc (Z.of_nat i)) s Q.
Proof.
  intros [Hd Hf] Hi HQ. assert (i < 8)%nat by (rewrite <- Hf; by eapply lookup_lt_Some).
  destruct (lookup_lt_is_Some_2 (desc s) i) as [d Hdi]; [lia|].
  unfold free_desc. rewrite Z.geb_leb, (proj2 (Z.leb_gt _ _)) by (unfold NUM; lia).
  apply wp_bind. eapply wp_nget; [exact Hi|]. unfold put_desc.
  apply wp_bind. eapply wp_nput; [exact Hdi|]. apply wp_bind. eapply wp_nput; [cbn; apply list_lookup_insert_eq; lia|].
  apply wp_bind. eapply wp_nput; [cbn; rewrite list_insert_insert_eq; apply list_lookup_insert_eq; lia|].
  apply wp_bind. eapply wp_nput; [cbn; rewrite !list_insert_insert_eq; apply list_lookup_insert_eq; lia|].
  apply wp_bind. eapply wp_nput; [exact Hi|]. unfold vwakeup. wp_step. cbn. rewrite !list_insert_insert_eq. by destruct d.
Qed.

(** A failed allocation: the free descriptors may have been cleared, and the
    processes waiting for descriptors woken. *)
Definition cleared (s s' : vdisk) : Prop :=
  exists d p, s' = set_vprocs p (set_desc d s) /\ length d = 8%nat /\ (forall i, vfree s !! i = Some false -> d !! i = desc s !! i) /\ woken (vprocs s) p.

Definition taken (s : vdisk) (i0 i1 i2 : nat) : vdisk := set_vfree (<[i2 := false]> (<[i1 := false]> (<[i0 := false]> (vfree s)))) s.

Lemma wp_alloc3 s Q :
  full s ->
  (forall i0 i1 i2, NoDup [i0; i1; i2] -> Forall (fun i => vfree s !! i = Some true) [i0; i1; i2] ->
     Q (Some [Z.of_nat i0; Z.of_nat i1; Z.of_nat i2]) (taken s i0 i1 i2)) ->
  (forall s', cleared s s' -> (nfree (vfree s) < 3)%nat -> Q None s') ->
  wp alloc3_desc s Q.
Proof.
  intros [Hd Hf] H1 H2. unfold alloc3_desc, alloc_descs.
  apply wp_bind, wp_alloc_desc; cycle 1.
  { intros Hn. cbn. apply H2; [|lia]. exists (desc s), (vprocs s). split; [by destruct s|]. split; [done|]. split; [done|]. apply woken_refl. }
  intros i0 H0. rewrite (proj2 (Z.ltb_ge _ _)) by lia. pose proof (lookup_lt_Some _ _ _ H0).
  apply wp_bind, wp_alloc_desc; cbn -[free_descs]; cycle 1.
  { intros Hn. apply wp_bind. cbn [free_descs]. apply wp_bind, wp_free_desc; [by cbn; rewrite length_insert|apply list_lookup_insert_eq; lia|].
    apply wp_ret, wp_ret, H2.
    - exists (<[i0 := desc0]> (desc s)), (fun t => wake_v ChFree (vprocs s t)). cbn. rewrite list_insert_insert_eq, (list_insert_id _ _ _ H0). split; [reflexivity|].
      split; [by rewrite length_insert|]. split; [|by right]. intros i Hi. apply list_lookup_insert_ne. congruence.
    - rewrite (nfree_take _ _ H0). lia. }
  intros i1 Hi1. apply taken_ne in Hi1 as Hi1'. destruct Hi1' as [Hne1 H1']. rewrite (proj2 (Z.ltb_ge _ _)) by lia. pose proof (lookup_lt_Some _ _ _ H1').
  apply wp_bind, wp_alloc_desc; cbn -[free_descs]; cycle 1.
  { intros Hn. apply wp_bind. cbn [free_descs]. apply wp_bind, wp_free_desc; [by cbn; rewrite !length_insert|..].
    { cbn. rewrite list_lookup_insert_ne by done. apply list_lookup_insert_eq; lia. }
    apply wp_bind, wp_free_desc; [by cbn; rewrite !length_insert|..].
    { cbn. rewrite list_lookup_insert_ne by done. apply list_lookup_insert_eq. rewrite length_insert. lia. }
    apply wp_ret, wp_ret, H2.
    - exists (<[i1 := desc0]> (<[i0 := desc0]> (desc s))), (fun t => wake_v ChFree (wake_v ChFree (vprocs s t))).
      assert (<[i1 := true]> (<[i0 := true]> (<[i1 := false]> (<[i0 := false]> (vfree s)))) = vfree s) as E.
      { rewrite (list_insert_insert_ne _ i0 i1), list_insert_insert_eq, list_insert_insert_eq, !list_insert_id; try done. by rewrite list_insert_id. }
      cbn. rewrite E. split; [reflexivity|].
      split; [by rewrite !length_insert|]. split; [|by right; rewrite wake_free_idem]. intros i Hi. rewrite !list_lookup_insert_ne by congruence. done.
    - rewrite (nfree_take _ _ H0), (nfree_take _ _ Hi1). lia. }
  intros i2 Hi2. apply taken_ne in Hi2 as [Hne2 H2']. apply taken_ne in H2' as [Hne2' H2'].
  rewrite (proj2 (Z.ltb_ge _ _)) by lia. apply wp_ret. apply (H1 i0 i1 i2).
  - repeat constructor; set_solver.
  - by repeat constructor.
Qed.

(** ** Rings *)

Lemma u16_mod_num x : u16 x mod NUM = x mod NUM.
Proof. apply wrap_mod; [done|done|by exists 8192]. Qed.

Lemma u16_add x y : u16 (u16 x + y) = u16 (x + y).
Proof. unfold u16. apply Zplus_mod_idemp_l. Qed.

(** A ring of the heads of chains. *)
Notation heads r base l := (ring_holds NUM r base (Z.of_nat <$> l)).

Lemma heads_u16 r x l : heads r x l -> heads r (u16 x) l.
Proof. apply ring_cong; [done|]. by rewrite u16_mod_num. Qed.

Lemma heads_push r base h l :
  length r = 8%nat -> (length l < 8)%nat -> heads r base l -> heads (<[Z.to_nat ((base + Z.of_nat (length l)) mod NUM) := Z.of_nat h]> r) base (l ++ [h]).
Proof.
  intros Hr Hl H. rewrite fmap_app, <- (length_fmap Z.of_nat l). apply ring_push; [done|unfold NUM; lia|rewrite length_fmap; unfold NUM; lia|done].
Qed.

Lemma bounded_length (l : list nat) n : NoDup l -> (forall x, x ∈ l -> (x < n)%nat) -> (length l <= n)%nat.
Proof.
  intros Hn Hl. cut (l ⊆+ seq 0 n); [intros H; apply submseteq_length in H; by rewrite length_seq in H|]. apply NoDup_submseteq; [done|].
  intros x Hx. apply elem_of_seq. specialize (Hl x Hx). lia.
Qed.

(** ** Requests *)

(** The state [submit] leaves. *)
Definition submitted (t b : nat) (w : bool) (i0 i1 i2 : nat) (s : vdisk) : vdisk :=
  Vdisk
    (<[i2 := Desc (AStatus i0) 1 VRING_DESC_F_WRITE 0]>
      (<[i1 := Desc (AData b) BSIZE (if w then 1 else 3) (Z.of_nat i2)]> (<[i0 := Desc (AOp i0) req_size VRING_DESC_F_NEXT (Z.of_nat i1)]> (desc s))))
    (u16 (avail_idx s + 1)) (<[Z.to_nat (avail_idx s mod NUM) := Z.of_nat i0]> (avail_ring s)) (vused_idx s) (used_ring s) (vfree s) (used_idx s)
    (<[i0 := Info (Some b) 0xff]> (info s))
    (<[i0 := Req (if w then VIRTIO_BLK_T_OUT else VIRTIO_BLK_T_IN) 0 (u32 (vb_blockno (vbufs s b) * (BSIZE / 512)))]> (ops s))
    (fun x => if decide (x = b) then set_vb_disk 1 (vbufs s x) else vbufs s x) (media s) (last_avail s) (working s)
    (fun x => if decide (x = t) then WaitDone b w [i0; i1; i2] false (wanted s b w) else vprocs s x).

Definition sized (s : vdisk) : Prop :=
  length (desc s) = 8%nat /\ length (avail_ring s) = 8%nat /\ length (used_ring s) = 8%nat /\ length (vfree s) = 8%nat /\ length (info s) = 8%nat /\ length (ops s) = 8%nat.


(** Two writes of one descriptor. *)
Lemma wp_put_merge {B} i h1 h2 (k : M vdisk B) s Q :
  (i < length (desc s))%nat -> wp (put_desc (Z.of_nat i) (fun d => h2 (h1 d));; k) s Q -> wp (put_desc (Z.of_nat i) h1;; put_desc (Z.of_nat i) h2;; k) s Q.
Proof.
  intros Hi. destruct (lookup_lt_is_Some_2 _ _ Hi) as [x Hx]. unfold wp, bind, put_desc. rewrite !(nput_eq _ _ _ _ _ _ Hx).
  rewrite (nput_eq desc set_desc _ _ (h1 x)) by (by apply list_lookup_insert_eq). cbn. by rewrite list_insert_insert_eq.
Qed.

Ltac look := cbn; first [eassumption | apply list_lookup_insert_eq; rewrite ?length_insert; lia | rewrite list_lookup_insert_ne by congruence; look].
Ltac merge := apply wp_put_merge; [by cbn; rewrite ?length_insert; lia|].
Ltac put1 := apply wp_bind; eapply wp_nput; [look|].

Lemma wp_submit t b w i0 i1 i2 s Q :
  sized s -> NoDup [i0; i1; i2] -> (i0 < 8)%nat -> (i1 < 8)%nat -> (i2 < 8)%nat ->
  Q tt (submitted t b w i0 i1 i2 s) -> wp (submit t b w (Z.of_nat i0) (Z.of_nat i1) (Z.of_nat i2)) s Q.
Proof.
  intros (Hd & Ha & _ & _ & Hi & Ho) Hnd H0 H1 H2 HQ. apply NoDup_cons in Hnd as [Hn0 Hnd]. apply NoDup_cons in Hnd as [Hn1 _].
  assert (i0 <> i1 /\ i0 <> i2 /\ i1 <> i2) as (N1 & N2 & N3) by set_solver. clear Hn0 Hn1.
  destruct (lookup_lt_is_Some_2 (desc s) i0) as [d0 E0]; [lia|]. destruct (lookup_lt_is_Some_2 (desc s) i1) as [d1 E1]; [lia|].
  destruct (lookup_lt_is_Some_2 (desc s) i2) as [d2 E2]; [lia|]. destruct (lookup_lt_is_Some_2 (ops s) i0) as [o0 EO]; [lia|].
  destruct (lookup_lt_is_Some_2 (info s) i0) as [f0 EI]; [lia|].
  assert (Hm : 0 <= avail_idx s mod NUM < 8) by (apply Z.mod_pos_bound; unfold NUM; lia).
  destruct (lookup_lt_is_Some_2 (avail_ring s) (Z.to_nat (avail_idx s mod NUM))) as [a0 EA]; [lia|].
  unfold submit. apply wp_bind, wp_get. put1. do 3 merge. put1. do 4 merge. put1. put1. do 3 merge. put1.
  unfold put_buf. apply wp_bind, wp_modify. put1. apply wp_bind, wp_gets. rewrite <- (Z2Nat.id (_ mod _)) by (cbn; lia). put1.
  apply wp_bind, wp_modify. unfold set_proc. apply wp_modify.
  cbn. rewrite !Nat2Z.id, list_insert_insert_eq. destruct w; exact HQ.
Qed.

(** ** The invariant *)

Definition blk (s : vdisk) (n : Z) : block := rd_bytes (Z.to_nat BSIZE) (media s) (n * BSIZE).

(** The descriptors of a process. *)
Definition owned (p : vproc) : list nat := match p with WaitDone _ _ idx _ _ => idx | _ => [] end.

(** The request of [virtio_disk_rw(b, w)] in the chain [i0], [i1], [i2]. *)
Record chained (s : vdisk) (b : nat) (w : bool) (i0 i1 i2 : nat) : Prop := Chained {
  ch_0 : desc s !! i0 = Some (Desc (AOp i0) req_size VRING_DESC_F_NEXT (Z.of_nat i1));
  ch_1 : desc s !! i1 = Some (Desc (AData b) BSIZE (if w then 1 else 3) (Z.of_nat i2));
  ch_2 : desc s !! i2 = Some (Desc (AStatus i0) 1 VRING_DESC_F_WRITE 0);
  ch_op : ops s !! i0 = Some (Req (if w then VIRTIO_BLK_T_OUT else VIRTIO_BLK_T_IN) 0 (vb_blockno (vbufs s b) * 2));
  ch_free : Forall (fun i => vfree s !! i = Some false) [i0; i1; i2];
  ch_nodup : NoDup [i0; i1; i2] }.

(** The buffer without its [disk] field. *)
Definition vb_ok (b : vbuf) : Prop :=
  0 <= vb_blockno b < 2 ^ 31 /\ length (vb_data b) = Z.to_nat BSIZE /\ Forall (fun x => 0 <= x < 256) (vb_data b).

(** A section that moves no data. *)
Definition quiet (s s' : vdisk) : Prop :=
  media s' = media s /\ forall x, vb_data (vbufs s' x) = vb_data (vbufs s x) /\ vb_blockno (vbufs s' x) = vb_blockno (vbufs s x).

(** Where a request is: on its way to the device or in it ([P]), on its way
    back ([U]), or acknowledged. *)
Inductive stage (P U : list nat) (s : vdisk) (b : nat) (w : bool) (h : nat) (awake : bool) (want : block) : Prop :=
| st_pending st :
    h ∈ P -> info s !! h = Some (Info (Some b) st) -> vb_disk (vbufs s b) = 1 ->
    (if w then vb_data (vbufs s b) = want else blk s (vb_blockno (vbufs s b)) = want) -> stage P U s b w h awake want
| st_used :
    h ∈ U -> info s !! h = Some (Info (Some b) 0) -> vb_disk (vbufs s b) = 1 ->
    vb_data (vbufs s b) = want -> blk s (vb_blockno (vbufs s b)) = want -> stage P U s b w h awake want
| st_acked inf :
    h ∉ P -> h ∉ U -> info s !! h = Some inf -> vb_disk (vbufs s b) = 0 -> awake = true ->
    vb_data (vbufs s b) = want -> blk s (vb_blockno (vbufs s b)) = want -> stage P U s b w h awake want.

Definition proc_ok (P U : list nat) (s : vdisk) (p : vproc) : Prop :=
  match p with
  | Outside => True
  | WaitFree b w awake => buf_ok (vbufs s b) /\ (awake = false -> (nfree (vfree s) < 3)%nat)
  | WaitDone b w idx awake want =>
      vb_ok (vbufs s b) /\ exists i0 i1 i2, idx = [i0; i1; i2] /\ chained s b w i0 i1 i2 /\ stage P U s b w i0 awake want
  | Returned b w want => buf_ok (vbufs s b) /\ vb_data (vbufs s b) = want /\ blk s (vb_blockno (vbufs s b)) = want
  end.

(** Two processes share no buffer, no block and no descriptor. *)
Definition separate (s : vdisk) (p p' : vproc) : Prop :=
  (forall b b', buf_of p = Some b -> buf_of p' = Some b' -> b' <> b /\ vb_blockno (vbufs s b') <> vb_blockno (vbufs s b)) /\
  (forall i, i ∈ owned p -> i ∉ owned p').

(** [Q]: the entries of the available ring the device has not taken; [U]: those
    of the used ring the driver has not looked at. *)
Record vinv (Q U : list nat) (s : vdisk) : Prop := Vinv {
  vi_sized : sized s;
  vi_avail_idx : avail_idx s = u16 (last_avail s + Z.of_nat (length Q));
  vi_used_idx : vused_idx s = u16 (used_idx s + Z.of_nat (length U));
  vi_idx : u16 (last_avail s) = last_avail s /\ u16 (used_idx s) = used_idx s;
  vi_avail : heads (avail_ring s) (last_avail s) Q;
  vi_used : heads (used_ring s) (used_idx s) U;
  vi_nodup : NoDup (Q ++ working s ++ U);
  vi_head : forall h, h ∈ Q ++ working s ++ U -> exists t, owned (vprocs s t) !! O = Some h;
  vi_owner : forall i, vfree s !! i = Some false -> exists t, i ∈ owned (vprocs s t);
  vi_proc : forall t, proc_ok (Q ++ working s) U s (vprocs s t);
  vi_sep : forall t t', t <> t' -> separate s (vprocs s t) (vprocs s t') }.

(** What a process relies on. *)
Lemma proc_frame P U s P' U' s' p :
  proc_ok P U s p ->
  (forall i, i ∈ owned p -> desc s' !! i = desc s !! i /\ vfree s' !! i = vfree s !! i /\ ops s' !! i = ops s !! i /\ info s' !! i = info s !! i) ->
  (forall i, i ∈ owned p -> (i ∈ P' <-> i ∈ P) /\ (i ∈ U' <-> i ∈ U)) ->
  (forall b, buf_of p = Some b -> vbufs s' b = vbufs s b /\ blk s' (vb_blockno (vbufs s b)) = blk s (vb_blockno (vbufs s b))) ->
  (forall b w, p = WaitFree b w false -> (nfree (vfree s') < 3)%nat) ->
  proc_ok P' U' s' p.
Proof.
  intros Hp Hi Hq Hb Hn. destruct p as [|b w a|b w idx a want|b w want]; cbn in *; [done|..]; destruct (Hb b eq_refl) as [Eb Em]; rewrite Eb.
  - destruct Hp as [Hp1 Hp2]. split; [done|]. intros ->. by eapply Hn.
  - destruct Hp as (Hok & i0 & i1 & i2 & -> & Hc & Hs). split; [done|]. exists i0, i1, i2. split; [done|].
    destruct (Hi i0) as (D0 & F0 & O0 & I0); [rewrite !elem_of_cons; auto|]. destruct (Hi i1) as (D1 & F1 & _); [rewrite !elem_of_cons; auto|]. destruct (Hi i2) as (D2 & F2 & _); [rewrite !elem_of_cons; auto|].
    destruct (Hq i0) as [QP QU]; [rewrite !elem_of_cons; auto|]. split.
    + destruct Hc as [c0 c1 c2 co cf cn]. split; try congruence. apply Forall_cons in cf as [? cf]. apply Forall_cons in cf as [? cf]. apply Forall_cons in cf as [? _].
      repeat constructor; congruence.
    + destruct Hs; [eapply st_pending|eapply st_used|eapply st_acked]; rewrite ?Eb, ?Em, ?I0; try done; try tauto; by destruct w.
  - by rewrite Em.
Qed.

Lemma proc_wake P U s p : proc_ok P U s p -> proc_ok P U s (wake_v ChFree p).
Proof. destruct p; cbn; naive_solver. Qed.

Lemma proc_vprocs P U s f p : proc_ok P U s p -> proc_ok P U (set_vprocs f s) p.
Proof. intros Hp. eapply proc_frame; [exact Hp|..]; try done. intros b w ->. by apply Hp. Qed.

Lemma owned_busy P U s p i : proc_ok P U s p -> i ∈ owned p -> vfree s !! i = Some false.
Proof.
  destruct p as [| | |]; cbn; try by intros _ ?%not_elem_of_nil. intros (_ & i0 & i1 & i2 & -> & Hc & _) Hi.
  pose proof (ch_free _ _ _ _ _ _ Hc) as F. rewrite Forall_forall in F. by apply F.
Qed.

Lemma separate_sym s p p' : separate s p p' -> separate s p' p.
Proof. intros [H1 H2]. split; [|set_solver]. intros b b' Hb Hb'. destruct (H1 b' b Hb' Hb) as [? ?]. split; congruence. Qed.

(** Waking processes changes neither their buffers nor their descriptors. *)
Lemma buf_of_wake c p : buf_of (wake_v c p) = buf_of p.
Proof. destruct p, c; try done. cbn. by case_decide. Qed.

Lemma owned_wake c p : owned (wake_v c p) = owned p.
Proof. destruct p, c; try done. cbn. by case_decide. Qed.

Lemma woken_same p p' t : woken p p' -> buf_of (p' t) = buf_of (p t) /\ owned (p' t) = owned (p t).
Proof. intros H. destruct (H t) as [-> | ->]; [done|]. by rewrite buf_of_wake, owned_wake. Qed.

Lemma vinv_cleared Q U s s' : cleared s s' -> vinv Q U s -> vinv Q U s'.
Proof.
  intros (d & p & -> & Hd & Hf & Hw) [v1 v2 v3 v4 v5 v6 v7 v8 v9 v10 v11]. destruct v1 as (Hd0 & Hl).
  split; try done; cbn.
  - intros h Hh. destruct (v8 h Hh) as [t Ht]. exists t. by rewrite (proj2 (woken_same _ _ t Hw)).
  - intros i Hi. destruct (v9 i Hi) as [t Ht]. exists t. by rewrite (proj2 (woken_same _ _ t Hw)).
  - intros t. assert (proc_ok (Q ++ working s) U (set_vprocs p (set_desc d s)) (vprocs s t)) as Hp; [|destruct (Hw t) as [-> | ->]; [done|by apply proc_wake]].
    eapply proc_frame; [apply v10|..]; try done.
    + intros i Hi. split; [|done]. apply Hf. by eapply owned_busy.
    + intros b w Hb. specialize (v10 t). rewrite Hb in v10. by apply v10.
  - intros t t' Hne. destruct (woken_same _ _ t Hw) as [Eb Eo]. destruct (woken_same _ _ t' Hw) as [Eb' Eo'].
    unfold separate. rewrite Eb, Eo, Eb', Eo'. by apply v11.
Qed.

(** A process moves, keeping its descriptors. *)
Lemma vinv_move Q U s t p :
  vinv Q U s -> owned p = owned (vprocs s t) -> proc_ok (Q ++ working s) U s p -> (forall t', t' <> t -> separate s p (vprocs s t')) ->
  vinv Q U (set_vprocs (fun x => if decide (x = t) then p else vprocs s x) s).
Proof.
  intros [v1 v2 v3 v4 v5 v6 v7 v8 v9 v10 v11] Ho Hp Hs. split; try done; cbn.
  - intros h Hh. destruct (v8 h Hh) as [t' Ht]. exists t'. case_decide; [|done]. subst. by rewrite Ho.
  - intros h Hh. destruct (v9 h Hh) as [t' Ht]. exists t'. case_decide; [|done]. subst. by rewrite Ho.
  - intros t'. apply proc_vprocs. by case_decide.
  - intros t1 t2 Hne. repeat case_decide; subst; [done|by apply Hs|by apply separate_sym, Hs|by apply v11].
Qed.

(** No other process has [b] or its block. *)
Definition alone (s : vdisk) (t b : nat) : Prop :=
  forall t' b', t' <> t -> buf_of (vprocs s t') = Some b' -> b' <> b /\ vb_blockno (vbufs s b') <> vb_blockno (vbufs s b).

Lemma separate_alone s t b p t' : alone s t b -> buf_of p = Some b -> owned p = [] -> t' <> t -> separate s p (vprocs s t').
Proof. intros Ha Hb Ho Hne. split; [|rewrite Ho; set_solver]. intros b1 b2 H1 H2. assert (b1 = b) as -> by congruence. by apply (Ha t'). Qed.

Lemma u32_sector n : 0 <= n < 2 ^ 31 -> u32 (n * (BSIZE / 512)) = n * 2.
Proof. intros Hn. change (BSIZE / 512) with 2. apply u32_small. lia. Qed.

Lemma alone_cleared s s' t b : cleared s s' -> alone s t b -> alone s' t b.
Proof. intros (d & p & -> & _ & _ & Hw) Ha t' b' Hne Hb. cbn in *. rewrite (proj1 (woken_same _ _ t' Hw)) in Hb. by apply (Ha t'). Qed.

Lemma owned_lt Q U s t i : vinv Q U s -> i ∈ owned (vprocs s t) -> vfree s !! i = Some false /\ (i < 8)%nat.
Proof.
  intros V Hi. pose proof (owned_busy _ _ _ _ _ (vi_proc _ _ _ V t) Hi) as Hb. split; [done|].
  destruct (vi_sized _ _ _ V) as (_ & _ & _ & Hf & _). rewrite <- Hf. by eapply lookup_lt_Some.
Qed.

Lemma head_owned Q U s h : vinv Q U s -> h ∈ Q ++ working s ++ U -> vfree s !! h = Some false /\ (h < 8)%nat.
Proof.
  intros V Hh. destruct (vi_head _ _ _ V h Hh) as [t Ht]. eapply owned_lt; [exact V|]. by eapply list_elem_of_lookup_2.
Qed.

Lemma heads_length Q U s h : vinv Q U s -> vfree s !! h = Some true -> (length Q < 8)%nat.
Proof.
  intros V Hh. assert (h ∉ Q) as Hn by (intros Hin; destruct (head_owned Q U s h V) as [E _]; [set_solver|congruence]).
  destruct (vi_sized _ _ _ V) as (_ & _ & _ & Hf & _). cut (length (h :: Q) <= 8)%nat; [simpl; lia|].
  apply bounded_length; [apply NoDup_cons; split; [done|by pose proof (vi_nodup _ _ _ V) as [? _]%NoDup_app]|].
  intros x [->|Hx]%elem_of_cons; [rewrite <- Hf; by eapply lookup_lt_Some|]. apply (head_owned Q U s x V). set_solver.
Qed.

Lemma taken_lookup s i0 i1 i2 i :
  Forall (fun i => vfree s !! i = Some true) [i0; i1; i2] ->
  (i ∈ [i0; i1; i2] -> vfree (taken s i0 i1 i2) !! i = Some false) /\ (i ∉ [i0; i1; i2] -> vfree (taken s i0 i1 i2) !! i = vfree s !! i).
Proof.
  intros F. rewrite !Forall_cons in F. destruct F as (F0 & F1 & F2 & _). apply put3_lookup; by eapply lookup_lt_Some.
Qed.

Lemma taken_nfree s i0 i1 i2 :
  NoDup [i0; i1; i2] -> Forall (fun i => vfree s !! i = Some true) [i0; i1; i2] -> nfree (vfree s) = (3 + nfree (vfree (taken s i0 i1 i2)))%nat.
Proof.
  intros N F. rewrite !Forall_cons in F. destruct F as (F0 & F1 & F2 & _). rewrite !NoDup_cons, !elem_of_cons in N. cbn.
  rewrite (nfree_take _ i0), (nfree_take (<[i0 := false]> _) i1), (nfree_take (<[i1 := false]> _) i2); [lia|..]; rewrite ?list_lookup_insert_ne; try done; intros ->; tauto.
Qed.

Section Submit.
Context (Q U : list nat) (s : vdisk) (t b : nat) (w : bool) (i0 i1 i2 : nat).
Context (V : vinv Q U s) (Hnd : NoDup [i0; i1; i2]) (Hfr : Forall (fun i => vfree s !! i = Some true) [i0; i1; i2]).
Context (Hown : owned (vprocs s t) = []) (Hbuf : buf_ok (vbufs s b)) (Halone : alone s t b).
Let s' := submitted t b w i0 i1 i2 (taken s i0 i1 i2).

Lemma new_lt : (i0 < 8)%nat /\ (i1 < 8)%nat /\ (i2 < 8)%nat.
Proof.
  destruct (vi_sized _ _ _ V) as (_ & _ & _ & Hf & _). rewrite !Forall_cons in Hfr. destruct Hfr as (F0 & F1 & F2 & _).
  rewrite <- Hf. split; [|split]; by eapply lookup_lt_Some.
Qed.

Lemma new_ne : i0 <> i1 /\ i0 <> i2 /\ i1 <> i2.
Proof. rewrite !NoDup_cons, !elem_of_cons in Hnd. naive_solver. Qed.

(** The three descriptors belong to nobody. *)
Lemma new_unowned t' i : i ∈ [i0; i1; i2] -> i ∉ owned (vprocs s t').
Proof.
  intros Hi Ho. rewrite Forall_forall in Hfr. specialize (Hfr i Hi). pose proof (owned_busy _ _ _ _ _ (vi_proc _ _ _ V t') Ho). congruence.
Qed.

Lemma new_notin : i0 ∉ Q ++ working s ++ U.
Proof. intros Hin. destruct (vi_head _ _ _ V _ Hin) as [t' Ht]. apply list_elem_of_lookup_2 in Ht. by apply (new_unowned t' i0) in Ht; [|left]. Qed.

Lemma submit_chained : chained s' b w i0 i1 i2.
Proof.
  destruct new_lt as (? & ? & ?). destruct new_ne as (? & ? & ?). destruct (vi_sized _ _ _ V) as (Hd & _ & _ & Hf & _ & Ho). split; cbn; try done.
  - rewrite !list_lookup_insert_ne by done. apply list_lookup_insert_eq. lia.
  - rewrite list_lookup_insert_ne by done. apply list_lookup_insert_eq. rewrite length_insert. lia.
  - apply list_lookup_insert_eq. rewrite !length_insert. lia.
  - rewrite decide_True by done. rewrite list_lookup_insert_eq by lia. do 2 f_equal. apply u32_sector, Hbuf.
  - apply Forall_forall. intros i Hi. by apply (taken_lookup s i0 i1 i2 i Hfr).
Qed.

Lemma submit_other t' : t' <> t -> proc_ok ((Q ++ [i0]) ++ working s) U s' (vprocs s t').
Proof.
  intros Hne. assert (Ho : forall i, i ∈ owned (vprocs s t') -> i ∉ [i0; i1; i2]) by (intros i H1 H2; by apply (new_unowned t' i)).
  eapply proc_frame; [apply (vi_proc _ _ _ V)|..]; cbn.
  - intros i Hi%Ho. pose proof (proj2 (taken_lookup s i0 i1 i2 i Hfr) Hi) as E. cbn in E. rewrite E. clear E. rewrite !not_elem_of_cons in Hi. destruct Hi as (? & ? & ? & _).
    by rewrite !list_lookup_insert_ne by done.
  - intros i Hi%Ho. rewrite !not_elem_of_cons in Hi. set_solver.
  - intros b' Hb. destruct (Halone t' b' Hne Hb) as [Hb1 _]. by rewrite decide_False.
  - intros b' w' Hb. pose proof (vi_proc _ _ _ V t') as Hp. rewrite Hb in Hp. destruct Hp as [_ Hp]. pose proof (taken_nfree s i0 i1 i2 Hnd Hfr) as Hn. cbn in Hn.
    specialize (Hp eq_refl). lia.
Qed.

Lemma vinv_submit : vinv (Q ++ [i0]) U s'.
Proof.
  destruct new_lt as (L0 & L1 & L2). destruct (vi_sized _ _ _ V) as (Hd & Ha & Hu & Hf & Hi & Ho). split; cbn.
  - repeat split; cbn; by rewrite ?length_insert.
  - rewrite (vi_avail_idx _ _ _ V), u16_add, length_app. cbn. f_equal. lia.
  - apply (vi_used_idx _ _ _ V).
  - apply (vi_idx _ _ _ V).
  - rewrite (vi_avail_idx _ _ _ V), u16_mod_num. apply heads_push; [done| |apply (vi_avail _ _ _ V)].
    rewrite Forall_cons in Hfr. by eapply heads_length, Hfr.
  - apply (vi_used _ _ _ V).
  - rewrite <- app_assoc. cbn. rewrite <- Permutation_middle. constructor; [apply new_notin|apply (vi_nodup _ _ _ V)].
  - intros h Hh. destruct (decide (h = i0)) as [->|Hne]; [exists t; by rewrite decide_True|].
    destruct (vi_head _ _ _ V h) as [t' Ht]; [set_solver|]. exists t'. case_decide; [|done]. subst. by rewrite Hown in Ht.
  - intros i Hb. destruct (decide (i ∈ [i0; i1; i2])) as [Hin|Hin]; [exists t; by rewrite decide_True|].
    pose proof (proj2 (taken_lookup s i0 i1 i2 i Hfr) Hin) as E. cbn in E. rewrite E in Hb. destruct (vi_owner _ _ _ V _ Hb) as [t' Ht]. exists t'. case_decide; [|done].
    subst. rewrite Hown in Ht. by apply not_elem_of_nil in Ht.
  - intros t'. case_decide; [|by apply submit_other]. subst. cbn -[In]. destruct Hbuf as (B1 & B2 & B3 & B4). rewrite decide_True by done. split; [done|].
    exists i0, i1, i2. split; [done|]. split; [apply submit_chained|]. eapply st_pending; cbn; [set_solver| | |].
    + apply list_lookup_insert_eq. lia.
    + by rewrite decide_True.
    + rewrite decide_True by done. by destruct w.
  - assert (Hs : forall t', t' <> t -> separate s' (WaitDone b w [i0; i1; i2] false (wanted s b w)) (vprocs s t')).
    { intros t' Hne. split; cbn; [|intros i; apply new_unowned]. intros b1 b2 [= <-] Hb2. destruct (Halone t' b2 Hne Hb2).
      by rewrite decide_False, decide_True. }
    intros t1 t2 Hne. repeat case_decide; subst; [done|by apply Hs|by apply separate_sym, Hs|].
    destruct (vi_sep _ _ _ V t1 t2 Hne) as [S1 S2]. split; [|done]. intros b1 b2 Hb1 Hb2. cbn.
    destruct (Halone t1 b1), (Halone t2 b2); try done. rewrite !decide_False by done. by apply S1.
Qed.
End Submit.

(** ** [virtio_disk_rw] up to a [sleep] *)

Lemma wp_rw_begin Q U s t b w R :
  vinv Q U s -> owned (vprocs s t) = [] -> buf_ok (vbufs s b) -> alone s t b ->
  (forall Q' s', vinv Q' U s' -> quiet s s' -> ((nfree (vfree s) >= 3)%nat -> exists idx, vprocs s' t = WaitDone b w idx false (wanted s b w)) ->
     ((nfree (vfree s) < 3)%nat -> vprocs s' t = WaitFree b w false) -> (forall t', t' <> t -> vprocs s' t' = vprocs s t' \/ vprocs s' t' = wake_v ChFree (vprocs s t')) ->
     R tt s') -> wp (rw_begin t b w) s R.
Proof.
  intros V Ho Hb Ha HR. pose proof (vi_sized _ _ _ V) as Hsz. pose proof Hsz as (Hd & Hl & Hu & Hf & Hi & Hop).
  unfold rw_begin. apply wp_bind, wp_alloc3; [done|..].
  - intros i0 i1 i2 Hnd Hfr. destruct (new_lt Q U s i0 i1 i2 V Hfr) as (? & ? & ?). apply wp_submit; try done.
    { by repeat split; cbn; rewrite ?length_insert. }
    pose proof (taken_nfree s i0 i1 i2 Hnd Hfr). eapply HR; [by eapply (vinv_submit Q U s t b w i0 i1 i2)|split; [done|intros x; cbn; by case_decide]|..]; cbn.
    + intros _. eexists. by rewrite decide_True.
    + lia.
    + intros t' Hne. rewrite decide_False by done. by left.
  - intros s' Hc Hn. pose proof (vinv_cleared _ _ _ _ Hc V) as V'. pose proof (alone_cleared _ _ _ _ Hc Ha) as Ha'.
    destruct Hc as (d & p & -> & Hdl & Hdf & Hw). unfold set_proc. apply wp_modify.
    eapply HR; [eapply vinv_move; [exact V'|..]|done|..]; cbn; try done.
    + by rewrite (proj2 (woken_same _ _ t Hw)).
    + intros t' Hne. by apply (separate_alone (set_vprocs p (set_desc d s)) t b (WaitFree b w false) t').
    + lia.
    + intros _. by rewrite decide_True.
    + intros t' Hne. rewrite decide_False by done. apply Hw.
Qed.

(** ** [virtio_disk_rw] after its [sleep] *)

(** The state [rw_end] leaves once the transfer is done. *)
Definition released (t b : nat) (w : bool) (i0 i1 i2 : nat) (want : block) (inf : vinfo) (s : vdisk) : vdisk :=
  Vdisk (<[i2 := desc0]> (<[i1 := desc0]> (<[i0 := desc0]> (desc s)))) (avail_idx s) (avail_ring s) (vused_idx s) (used_ring s)
    (<[i2 := true]> (<[i1 := true]> (<[i0 := true]> (vfree s)))) (used_idx s) (<[i0 := set_i_b None inf]> (info s)) (ops s) (vbufs s) (media s)
    (last_avail s) (working s)
    (fun x => if decide (x = t) then Returned b w want else wake_v ChFree (wake_v ChFree (wake_v ChFree (vprocs s x)))).

Lemma wp_released t b w i0 i1 i2 want inf s R :
  sized s -> chained s b w i0 i1 i2 -> info s !! i0 = Some inf -> vb_disk (vbufs s b) = 0 ->
  R tt (released t b w i0 i1 i2 want inf s) -> wp (rw_end t b w [i0; i1; i2] want) s R.
Proof.
  intros (Hd & _ & _ & Hf & Hi & _) [c0 c1 c2 _ cf cn] Hinf Hb HR. rewrite !Forall_cons in cf. destruct cf as (F0 & F1 & F2 & _).
  rewrite !NoDup_cons, !elem_of_cons in cn. assert (i0 <> i1 /\ i0 <> i2 /\ i1 <> i2) as (N1 & N2 & N3) by naive_solver.
  unfold rw_end. apply wp_bind, wp_get. rewrite Hb. cbn [Z.eqb Pos.eqb]. apply wp_bind. unfold put_info. eapply wp_nput; [exact Hinf|].
  change (Z.to_nat NUM) with 8%nat. apply wp_bind. cbn [free_chain]. apply wp_bind. eapply wp_nget; [exact c0|].
  apply wp_bind, wp_free_desc; [done|done|]. cbn [d_flags d_next free_chain]. change (ctrue (Z.land VRING_DESC_F_NEXT VRING_DESC_F_NEXT)) with true. cbn iota.
  apply wp_bind. eapply wp_nget; [cbn; rewrite list_lookup_insert_ne by done; exact c1|].
  apply wp_bind, wp_free_desc; [by cbn; rewrite !length_insert|by cbn; rewrite list_lookup_insert_ne|]. cbn [d_flags d_next free_chain].
  replace (ctrue (Z.land (if w then 1 else 3) VRING_DESC_F_NEXT)) with true by (by destruct w). cbn iota.
  apply wp_bind. eapply wp_nget; [cbn; rewrite !list_lookup_insert_ne by done; exact c2|].
  apply wp_bind, wp_free_desc; [by cbn; rewrite !length_insert|by cbn; rewrite !list_lookup_insert_ne|]. cbn [d_flags d_next].
  change (ctrue (Z.land VRING_DESC_F_WRITE VRING_DESC_F_NEXT)) with false. apply wp_ret. unfold set_proc. apply wp_modify. exact HR.
Qed.

Section Release.
Context (Q U : list nat) (s : vdisk) (t b : nat) (w awake : bool) (i0 i1 i2 : nat) (want : block) (inf : vinfo).
Context (V : vinv Q U s) (Ht : vprocs s t = WaitDone b w [i0; i1; i2] awake want) (Hinf : info s !! i0 = Some inf) (Hc : chained s b w i0 i1 i2).
Context (Hn : i0 ∉ Q ++ working s ++ U) (Hb : buf_ok (vbufs s b)) (Hw : vb_data (vbufs s b) = want) (Hm : blk s (vb_blockno (vbufs s b)) = want).
Let s' := released t b w i0 i1 i2 want inf s.

Lemma release_vfree i : (i ∈ [i0; i1; i2] -> vfree s' !! i = Some true) /\ (i ∉ [i0; i1; i2] -> vfree s' !! i = vfree s !! i).
Proof using Hc. pose proof (ch_free _ _ _ _ _ _ Hc) as F. rewrite !Forall_cons in F. destruct F as (F0 & F1 & F2 & _). apply put3_lookup; by eapply lookup_lt_Some. Qed.

Lemma release_nfree : nfree (vfree s') = (3 + nfree (vfree s))%nat.
Proof using Hc.
  clear - Hc.
  pose proof (ch_free _ _ _ _ _ _ Hc) as F. rewrite !Forall_cons in F. destruct F as (F0 & F1 & F2 & _).
  pose proof (ch_nodup _ _ _ _ _ _ Hc) as N. rewrite !NoDup_cons, !elem_of_cons in N. cbn.
  rewrite (nfree_give _ i2), (nfree_give _ i1), (nfree_give _ i0); [lia|..]; rewrite ?list_lookup_insert_ne; try done; intros ->; tauto.
Qed.

Lemma release_other t' : t' <> t -> proc_ok (Q ++ working s) U s' (wake_v ChFree (wake_v ChFree (wake_v ChFree (vprocs s t')))).
Proof.
  intros Hne. rewrite !wake_free_idem. assert (Ho : forall i, i ∈ owned (vprocs s t') -> i ∉ [i0; i1; i2]).
  { intros i H1 H2. destruct (vi_sep _ _ _ V t t') as [_ Hs]; [done|]. rewrite Ht in Hs. by apply (Hs i). }
  assert (Hp : proc_ok (Q ++ working s) U s (wake_v ChFree (vprocs s t'))) by apply proc_wake, (vi_proc _ _ _ V).
  eapply proc_frame; [exact Hp|..]; try done.
  - rewrite owned_wake. intros i Hi%Ho. rewrite (proj2 (release_vfree i) Hi). cbn. rewrite !not_elem_of_cons in Hi. destruct Hi as (? & ? & ? & _).
    by rewrite !list_lookup_insert_ne by done.
  - intros b' w' Hb'. by destruct (vprocs s t').
Qed.

Lemma vinv_release : vinv Q U s'.
Proof.
  destruct (vi_sized _ _ _ V) as (Hd & Ha & Hu & Hf & Hi & Ho). destruct V as [_ v2 v3 v4 v5 v6 v7 v8 v9 v10 v11]. split; try done; cbn.
  - repeat split; cbn; by rewrite ?length_insert.
  - intros h Hh. destruct (v8 h Hh) as [t' E]. exists t'. case_decide; [|by rewrite !owned_wake]. subst. rewrite Ht in E. injection E as <-. done.
  - intros i Hib. destruct (decide (i ∈ [i0; i1; i2])) as [Hin|Hin].
    { pose proof (proj1 (release_vfree i) Hin) as E. cbn in E. congruence. }
    pose proof (proj2 (release_vfree i) Hin) as E. cbn in E. rewrite E in Hib. destruct (v9 i Hib) as [t' Ht']. exists t'.
    case_decide; [|by rewrite !owned_wake]. subst. by rewrite Ht in Ht'.
  - intros t'. case_decide; [done|by apply release_other].
  - intros t1 t2 Hne. assert (Hs : forall x, buf_of (vprocs s' x) = buf_of (vprocs s x) /\ (forall i, i ∈ owned (vprocs s' x) -> i ∈ owned (vprocs s x))).
    { intros x. cbn. case_decide; [subst; rewrite Ht; split; [done|by intros i Hx%not_elem_of_nil]|]. by rewrite !buf_of_wake, !owned_wake. }
    destruct (Hs t1) as [E1 O1], (Hs t2) as [E2 O2]. destruct (v11 t1 t2 Hne) as [S1 S2]. cbn in *. split; [by rewrite E1, E2|].
    intros i H1 H2. by apply (S2 i); [apply O1|apply O2].
Qed.
End Release.

Lemma stage_cases Q U s t b w idx a want :
  vinv Q U s -> vprocs s t = WaitDone b w idx a want ->
  exists i0 i1 i2, idx = [i0; i1; i2] /\ chained s b w i0 i1 i2 /\ vb_ok (vbufs s b) /\ stage (Q ++ working s) U s b w i0 a want.
Proof. intros V Ht. pose proof (vi_proc _ _ _ V t) as Hp. rewrite Ht in Hp. destruct Hp as (? & i0 & i1 & i2 & -> & ? & ?). eauto 10. Qed.

Lemma wp_rw_end Q U s t b w idx a want R :
  vinv Q U s -> vprocs s t = WaitDone b w idx a want ->
  (forall s', vinv Q U s' -> quiet s s' ->
     (vb_disk (vbufs s b) = 1 -> s' = set_vprocs (fun x => if decide (x = t) then WaitDone b w idx false want else vprocs s x) s) ->
     (vb_disk (vbufs s b) = 0 -> vprocs s' t = Returned b w want /\ nfree (vfree s') = (3 + nfree (vfree s))%nat /\
        forall t', t' <> t -> vprocs s' t' = wake_v ChFree (vprocs s t')) -> R tt s') ->
  wp (rw_end t b w idx want) s R.
Proof.
  intros V Ht HR. destruct (stage_cases _ _ _ _ _ _ _ _ _ V Ht) as (i0 & i1 & i2 & -> & Hc & Hok & Hst).
  assert (vb_disk (vbufs s b) = 1 -> wp (rw_end t b w [i0; i1; i2] want) s R) as H1.
  { intros Hb. unfold rw_end. apply wp_bind, wp_get. rewrite Hb. cbn. unfold set_proc. apply wp_modify. apply HR; [|done|done|lia].
    apply vinv_move; [done|by rewrite Ht|..].
    - split; [done|]. exists i0, i1, i2. split; [done|]. split; [done|]. destruct Hst; [by eapply st_pending|by eapply st_used|lia].
    - intros t' Hne. pose proof (vi_sep _ _ _ V t t') as Hs. rewrite Ht in Hs. by apply Hs. }
  destruct Hst as [st Hin Hinf Hb Hd|Hin Hinf Hb Hd Hm|inf Hn1 Hn2 Hinf Hb Ha Hd Hm]; [by apply H1|by apply H1|]. clear H1.
  eapply wp_released; try done; [apply (vi_sized _ _ _ V)|]. apply HR; [|done|lia|].
  - eapply vinv_release; try done; [set_solver|]. by destruct Hok as (? & ? & ?).
  - intros _. split; [by cbn; rewrite decide_True|]. split; [by eapply release_nfree|].
    intros t' Hne. cbn. rewrite decide_False by done. by rewrite !wake_free_idem.
Qed.

(** ** Interrupts *)

(** The state after one turn of the loop of [virtio_disk_intr]. *)
Definition acked (b : nat) (s : vdisk) : vdisk :=
  set_used_idx (u16 (used_idx s + 1)) (set_vprocs (fun t => wake_v (ChBuf b) (vprocs s t))
    (set_vbufs (fun x => if decide (x = b) then set_vb_disk 0 (vbufs s x) else vbufs s x) s)).

(** The head of the used ring belongs to a process. *)
Lemma used_head Q h U s :
  vinv Q (h :: U) s -> exists t b w i1 i2 a want, vprocs s t = WaitDone b w [h; i1; i2] a want /\ chained s b w h i1 i2 /\ vb_ok (vbufs s b) /\
    h ∉ Q ++ working s /\ h ∉ U /\ info s !! h = Some (Info (Some b) 0) /\ vb_disk (vbufs s b) = 1 /\ vb_data (vbufs s b) = want /\ blk s (vb_blockno (vbufs s b)) = want.
Proof.
  intros V. pose proof (vi_nodup _ _ _ V) as Hn. rewrite app_assoc in Hn. apply NoDup_app in Hn as (_ & Hd & Hn). apply NoDup_cons in Hn as [HU _].
  destruct (vi_head _ _ _ V h) as [t Ht]; [set_solver|]. destruct (vprocs s t) as [| |b w idx a want|] eqn:E; try done.
  destruct (stage_cases _ _ _ _ _ _ _ _ _ V E) as (i0 & i1 & i2 & -> & Hc & Hok & Hs). injection Ht as ->.
  exists t, b, w, i1, i2, a, want. assert (h ∉ Q ++ working s) by (intros Hx; apply (Hd h Hx); left).
  destruct Hs as [|Hin|? ? Hin]; [done|done|]. by destruct Hin; left.
Qed.

Lemma wake_other Q U s t b t' : vinv Q U s -> buf_of (vprocs s t) = Some b -> t' <> t -> wake_v (ChBuf b) (vprocs s t') = vprocs s t'.
Proof.
  intros V Hb Hne. destruct (vi_sep _ _ _ V t' t Hne) as [Hs _]. destruct (vprocs s t') as [| |b' w' idx' a' want'|]; try done. cbn.
  case_decide; [|done]. subst. by destruct (Hs b b).
Qed.

Lemma vinv_acked Q h U s t b w i1 i2 a want :
  vinv Q (h :: U) s -> vprocs s t = WaitDone b w [h; i1; i2] a want -> chained s b w h i1 i2 -> vb_ok (vbufs s b) -> h ∉ Q ++ working s -> h ∉ U ->
  info s !! h = Some (Info (Some b) 0) -> vb_data (vbufs s b) = want -> blk s (vb_blockno (vbufs s b)) = want -> vinv Q U (acked b s).
Proof.
  intros V Ht Hc Hok HnQ HnU Hinf Hd Hm. assert (Hoth : forall t', t' <> t -> wake_v (ChBuf b) (vprocs s t') = vprocs s t').
  { intros t' Hne. eapply (wake_other _ _ s t); [exact V|by rewrite Ht|done]. }
  assert (Hsame : forall x, buf_of (vprocs (acked b s) x) = buf_of (vprocs s x) /\ owned (vprocs (acked b s) x) = owned (vprocs s x)).
  { intros x. cbn. by rewrite buf_of_wake, owned_wake. }
  destruct V as [v1 v2 v3 v4 v5 v6 v7 v8 v9 v10 v11]. split; try done.
  - cbn. rewrite v3, u16_add. cbn. f_equal. lia.
  - split; [apply v4|]. cbn. unfold u16. by rewrite Z.mod_mod.
  - cbn. apply heads_u16. by eapply ring_pop.
  - cbn. rewrite app_assoc in *. apply NoDup_app in v7 as (? & Hx & ?%NoDup_cons_1_2). apply NoDup_app. split; [done|]. split; [set_solver|done].
  - intros x Hx. destruct (v8 x) as [t' Ht']; [cbn in Hx; set_solver|]. exists t'. by rewrite (proj2 (Hsame t')).
  - intros i Hi. destruct (v9 i Hi) as [t' Ht']. exists t'. by rewrite (proj2 (Hsame t')).
  - intros t'. destruct (decide (t' = t)) as [->|Hne]; cbn.
    + rewrite Ht. cbn. rewrite decide_True by done. cbn. rewrite decide_True by done. split; [done|]. exists h, i1, i2. split; [done|].
      split; [destruct Hc; split; try done; cbn; by rewrite decide_True|]. eapply st_acked; cbn; rewrite ?decide_True by done; done.
    + rewrite Hoth by done. destruct (v11 t' t Hne) as [Sb So]. rewrite Ht in Sb, So. eapply proc_frame; [apply v10|..]; try done; cbn.
      * intros i Hi. split; [done|]. assert (i <> h) by (intros ->; apply (So h Hi); left). set_solver.
      * intros b' Hb'. destruct (Sb b' b Hb') as [Hx _]; [done|]. rewrite decide_False by congruence. done.
      * intros b' w' Hb'. specialize (v10 t'). rewrite Hb' in v10. by apply v10.
  - intros t1 t2 Hne. destruct (Hsame t1) as [B1 O1], (Hsame t2) as [B2 O2]. unfold separate. rewrite B1, O1, B2, O2. destruct (v11 t1 t2 Hne) as [S1 S2].
    split; [|done]. intros b1 b2 H1 H2. destruct (S1 b1 b2 H1 H2) as [? ?]. cbn. repeat case_decide; done.
Qed.

Lemma used_length Q U s : vinv Q U s -> (length U <= 8)%nat.
Proof.
  intros V. pose proof (vi_nodup _ _ _ V) as Hn. rewrite app_assoc in Hn. apply NoDup_app in Hn as (_ & _ & Hn).
  apply bounded_length; [done|]. intros x Hx. apply (head_owned Q U s x V). set_solver.
Qed.

Lemma u16_room x n : u16 x = x -> 0 <= n <= 8 -> u16 (u16 (x + n) - x) = n /\ (x = u16 (x + n) -> n = 0).
Proof.
  intros Hx Hn. split; [apply wrap_distance; lia|]. intros E. apply (wrap_equal 16 x); [done|lia|lia|]. rewrite Z.add_0_r. unfold u16 in *. congruence.
Qed.

Lemma wp_intr_loop U : forall Q s R,
  vinv Q U s ->
  (forall s', vinv Q [] s' -> quiet s s' -> vfree s' = vfree s -> working s' = working s -> avail_idx s' = avail_idx s ->
     (forall t, exists b, vprocs s' t = vprocs s t \/ vprocs s' t = wake_v (ChBuf b) (vprocs s t)) -> R tt s') ->
  wp (intr_loop (length U)) s R.
Proof.
  induction U as [|h U IH]; intros Q s R V HR; pose proof (used_length _ _ _ V) as Hlen; pose proof (vi_used_idx _ _ _ V) as Hu;
    destruct (vi_idx _ _ _ V) as [_ Hix].
  - cbn [intr_loop length]. apply wp_bind, wp_get. replace (used_idx s =? vused_idx s) with true.
    + apply wp_ret, HR; try done. intros t. exists O. by left.
    + rewrite Hu. cbn. rewrite Z.add_0_r, Hix. by rewrite Z.eqb_refl.
  - cbn [intr_loop length]. apply wp_bind, wp_get. replace (used_idx s =? vused_idx s) with false.
    2:{ symmetry. apply Z.eqb_neq. intros E. rewrite Hu in E. cbn in Hlen. apply u16_room in E; cbn [length] in *; [lia|done|lia]. }
    destruct (used_head _ _ _ _ V) as (t & b & w & i1 & i2 & a & want & Ht & Hc & Hok & H1 & H2 & H3 & H4 & H5 & H6).
    pose proof (ring_head _ _ _ _ _ (vi_used _ _ _ V)) as Hr.
    assert (Hm : 0 <= used_idx s mod NUM) by (apply Z.mod_pos_bound; unfold NUM; lia).
    rewrite <- (Z2Nat.id _ Hm). apply wp_bind. eapply wp_nget; [exact Hr|]. apply wp_bind. eapply wp_nget; [exact H3|]. cbn [i_status i_b negb Z.eqb].
    unfold put_buf, vwakeup. apply wp_bind, wp_modify, wp_bind, wp_modify, wp_bind, wp_modify.
    apply (IH Q); [by apply (vinv_acked Q h U s t b w i1 i2 a want)|]. intros s' V' [E1 Eb] E2 E3 E4 Hp. apply HR; try done.
    { split; [done|]. intros x. destruct (Eb x) as [-> ->]. cbn. by case_decide. }
    intros t'. destruct (Hp t') as [b' Hb']. cbn in Hb'. destruct Hb' as [Hb'|Hb']; [exists b; by right|].
    destruct (decide (t' = t)) as [->|Hne].
    + rewrite Ht in Hb'. cbn in Hb'. rewrite decide_True in Hb' by done. exists b. right. rewrite Ht, Hb'. cbn. by repeat case_decide.
    + rewrite (wake_other _ _ s t b t' V) in Hb'; [exists b'; by right|by rewrite Ht|done].
Qed.

Lemma intr_fuel Q U s : vinv Q U s -> Z.to_nat (u16 (vused_idx s - used_idx s)) = length U.
Proof.
  intros V. rewrite (vi_used_idx _ _ _ V). pose proof (used_length _ _ _ V).
  destruct (u16_room (used_idx s) (Z.of_nat (length U))) as [-> _]; [apply (vi_idx _ _ _ V)|lia|lia].
Qed.

(** ** The device *)

Lemma avail_head Q U s : vinv Q U s -> last_avail s <> avail_idx s -> exists h Q', Q = h :: Q' /\ avail_ring s !! Z.to_nat (last_avail s mod NUM) = Some (Z.of_nat h).
Proof.
  intros V Hne. destruct Q as [|h Q'].
  - exfalso. apply Hne. rewrite (vi_avail_idx _ _ _ V). cbn. rewrite Z.add_0_r. by rewrite (proj1 (vi_idx _ _ _ V)).
  - exists h, Q'. split; [done|]. by apply (ring_head _ _ _ _ _ (vi_avail _ _ _ V)).
Qed.

Lemma vinv_take Q U s s' : vinv Q U s -> dev_take s s' -> exists Q', vinv Q' U s' /\ s' = set_device (last_avail s') (working s') s /\ exists h, Q = h :: Q' /\ working s' = working s ++ [h].
Proof.
  intros V (Hne & x & Hx & ->). destruct (avail_head _ _ _ V Hne) as (h & Q' & -> & Hr). rewrite Hr in Hx. injection Hx as <-. rewrite Nat2Z.id.
  exists Q'. split; [|split; [done|by exists h]]. assert (Hperm : (h :: Q') ++ working s ≡ₚ Q' ++ working s ++ [h]) by (rewrite app_assoc; cbn; apply Permutation_cons_append).
  assert (Hperm' : (h :: Q') ++ working s ++ U ≡ₚ Q' ++ (working s ++ [h]) ++ U) by (rewrite !app_assoc; rewrite <- (app_assoc Q'); by rewrite <- Hperm).
  destruct V as [v1 v2 v3 v4 v5 v6 v7 v8 v9 v10 v11]. split; try done; cbn.
  - rewrite v2, u16_add. f_equal. cbn [length]. lia.
  - split; [|apply v4]. unfold u16. by rewrite Z.mod_mod.
  - apply heads_u16. by eapply ring_pop.
  - by rewrite <- Hperm'.
  - intros y Hy. apply v8. by rewrite Hperm'.
  - intros t. eapply proc_frame; [apply v10|..]; try done.
    + intros i _. by rewrite Hperm.
    + intros b w Hb. specialize (v10 t). rewrite Hb in v10. by apply v10.
Qed.

Lemma blk_wr m n n' d :
  length d = Z.to_nat BSIZE -> Forall (fun x => 0 <= x < 256) d ->
  rd_bytes (Z.to_nat BSIZE) (wr_bytes m (n * BSIZE) d) (n' * BSIZE) = if decide (n' = n) then d else rd_bytes (Z.to_nat BSIZE) m (n' * BSIZE).
Proof.
  intros Hl Hd. case_decide as E; [subst; rewrite <- Hl; by apply rd_wr_bytes|]. apply rd_bytes_agree. intros x Hx.
  apply wr_bytes_frame. rewrite Hl. unfold BSIZE in *. lia.
Qed.

Lemma chain_at_chained s b w h i1 i2 :
  chained s b w h i1 i2 -> chain_at s h = Some (Req (if w then VIRTIO_BLK_T_OUT else VIRTIO_BLK_T_IN) 0 (vb_blockno (vbufs s b) * 2), b, BSIZE, if w then 1 else 3, h).
Proof.
  intros [c0 c1 c2 co _ _]. unfold chain_at. rewrite c0. cbn [mbind option_bind d_next d_addr d_flags]. rewrite Nat2Z.id, c1. cbn [mbind option_bind d_next d_addr d_flags].
  rewrite Nat2Z.id, c2. cbn [mbind option_bind d_next d_addr d_flags d_len]. rewrite co. by destruct w.
Qed.

(** The memory and the disk after the transfer of a request. *)
Definition transferred (b : nat) (w : bool) (s : vdisk) : vdisk :=
  if w then set_media (wr_bytes (media s) (vb_blockno (vbufs s b) * BSIZE) (vb_data (vbufs s b))) s
  else set_vbufs (fun x => if decide (x = b) then set_vb_data (blk s (vb_blockno (vbufs s b))) (vbufs s x) else vbufs s x) s.

Lemma transfer_chained s b (w : bool) :
  vb_ok (vbufs s b) ->
  transfer (Req (if w then VIRTIO_BLK_T_OUT else VIRTIO_BLK_T_IN) 0 (vb_blockno (vbufs s b) * 2)) b BSIZE (if w then 1 else 3) s = Some (transferred b w s).
Proof.
  intros (_ & Hl & _). unfold transfer, transferred, blk. cbn [r_sector r_type]. replace (vb_blockno (vbufs s b) * 2 * 512) with (vb_blockno (vbufs s b) * BSIZE) by (unfold BSIZE; lia).
  destruct w; [|done]. rewrite take_ge by lia. done.
Qed.

(** A transfer, seen from the buffers. *)
Lemma transferred_this s b (w : bool) want :
  vb_ok (vbufs s b) -> (if w then vb_data (vbufs s b) = want else blk s (vb_blockno (vbufs s b)) = want) ->
  let s1 := transferred b w s in
  vb_ok (vbufs s1 b) /\ vb_blockno (vbufs s1 b) = vb_blockno (vbufs s b) /\ vb_disk (vbufs s1 b) = vb_disk (vbufs s b) /\
  vb_data (vbufs s1 b) = want /\ blk s1 (vb_blockno (vbufs s b)) = want.
Proof.
  intros (H1 & H2 & H3) Hw. destruct w; cbn.
  - split; [done|]. split; [done|]. split; [done|]. split; [done|]. unfold blk. cbn. rewrite blk_wr by done. by rewrite decide_True.
  - rewrite decide_True by done. cbn. split; [|done]. split; [done|]. split; [apply rd_bytes_length|apply rd_bytes_byte].
Qed.

Lemma transferred_other s b w b' :
  vb_ok (vbufs s b) -> b' <> b -> vb_blockno (vbufs s b') <> vb_blockno (vbufs s b) ->
  vbufs (transferred b w s) b' = vbufs s b' /\ blk (transferred b w s) (vb_blockno (vbufs s b')) = blk s (vb_blockno (vbufs s b')).
Proof.
  intros (H1 & H2 & H3) Hb Hn. destruct w; cbn; [|by rewrite decide_False]. split; [done|]. unfold blk. cbn. rewrite blk_wr by done. by rewrite decide_False.
Qed.

Lemma working_head Q U s h :
  vinv Q U s -> h ∈ working s -> exists t b w i1 i2 a want, vprocs s t = WaitDone b w [h; i1; i2] a want /\ chained s b w h i1 i2 /\ vb_ok (vbufs s b) /\
    (exists st, info s !! h = Some (Info (Some b) st)) /\ vb_disk (vbufs s b) = 1 /\ (if w then vb_data (vbufs s b) = want else blk s (vb_blockno (vbufs s b)) = want).
Proof.
  intros V Hh. pose proof (vi_nodup _ _ _ V) as Hn. rewrite app_assoc in Hn. apply NoDup_app in Hn as (_ & Hd & _).
  destruct (vi_head _ _ _ V h) as [t Ht]; [set_solver|]. destruct (vprocs s t) as [| |b w idx a want|] eqn:E; try done.
  destruct (stage_cases _ _ _ _ _ _ _ _ _ V E) as (i0 & i1 & i2 & -> & Hc & Hok & Hs). injection Ht as ->.
  exists t, b, w, i1, i2, a, want. assert (h ∈ Q ++ working s) as HP by set_solver.
  destruct Hs as [st| |]; [by eauto 10|by destruct (Hd h HP)|done].
Qed.

(** The state after the device has completed the chain at [h]. *)
Definition finished (h b : nat) (w : bool) (w1 w2 : list nat) (s : vdisk) : vdisk :=
  set_device (last_avail s) (w1 ++ w2)
    (set_vused (u16 (vused_idx s + 1)) (<[Z.to_nat (vused_idx s mod NUM) := Z.of_nat h]> (used_ring s))
      (set_info (<[h := Info (Some b) 0]> (info s)) (transferred b w s))).

Lemma finish_inv Q U s s' :
  vinv Q U s -> dev_finish s s' -> exists h w1 w2 t b w i1 i2 a want, working s = w1 ++ h :: w2 /\ vprocs s t = WaitDone b w [h; i1; i2] a want /\
    chained s b w h i1 i2 /\ vb_ok (vbufs s b) /\ vb_disk (vbufs s b) = 1 /\ (if w then vb_data (vbufs s b) = want else blk s (vb_blockno (vbufs s b)) = want) /\
    s' = finished h b w w1 w2 s.
Proof.
  intros V (h & w1 & w2 & r & b' & len & flags & j & s1 & i & Hw & Hch & Htr & Hi & ->).
  destruct (working_head Q U s h V) as (t & b & w & i1 & i2 & a & want & Ht & Hc & Hok & (st & Hst) & Hd & Hwant); [rewrite Hw; set_solver|].
  rewrite (chain_at_chained _ _ _ _ _ _ Hc) in Hch. injection Hch as <- <- <- <- <-. rewrite transfer_chained in Htr by done. injection Htr as <-.
  exists h, w1, w2, t, b, w, i1, i2, a, want. repeat (split; [done|]). unfold finished.
  assert (info (transferred b w s) = info s) as E by (by destruct w). rewrite E in Hi. rewrite Hi in Hst. injection Hst as ->. cbn. by rewrite E.
Qed.

Lemma transferred_form b w s : exists f m, transferred b w s = set_vbufs f (set_media m s).
Proof. exists (vbufs (transferred b w s)), (media (transferred b w s)). by destruct w, s. Qed.

Lemma vinv_finish Q U s h w1 w2 t b w i1 i2 a want :
  vinv Q U s -> working s = w1 ++ h :: w2 -> vprocs s t = WaitDone b w [h; i1; i2] a want -> chained s b w h i1 i2 -> vb_ok (vbufs s b) ->
  vb_disk (vbufs s b) = 1 -> (if w then vb_data (vbufs s b) = want else blk s (vb_blockno (vbufs s b)) = want) ->
  vinv Q (U ++ [h]) (finished h b w w1 w2 s).
Proof.
  intros V Hw Ht Hc Hok Hdisk Hwant. destruct (transferred_this s b w want Hok Hwant) as (T1 & T2 & T3 & T4 & T5).
  pose proof (transferred_other s b w) as TO. unfold finished. destruct (transferred_form b w s) as (f & m & E). rewrite E in *. cbn in T1, T2, T3, T4, T5, TO. clear E.
  assert (Hperm : Q ++ working s ++ U ≡ₚ Q ++ (w1 ++ w2) ++ U ++ [h]).
  { rewrite Hw. apply Permutation_app_head. rewrite <- (Permutation_middle w1 w2). cbn. rewrite Permutation_cons_append. by rewrite app_assoc. }
  destruct (head_owned Q U s h V) as [_ Hlt]; [rewrite Hw; set_solver|].
  assert (HU : (length U < 8)%nat).
  { pose proof (vi_nodup _ _ _ V) as Hn. rewrite Hperm, !app_assoc in Hn. apply bounded_length with (n := 8%nat) in Hn; [rewrite !length_app in Hn; cbn in Hn; lia|].
    intros x Hx. apply (head_owned Q U s x V). rewrite Hperm. by rewrite !app_assoc. }
  assert (Hne : forall t' i, t' <> t -> i ∈ owned (vprocs s t') -> i <> h).
  { intros t' i H1 H2 ->. destruct (vi_sep _ _ _ V t' t H1) as [_ Hs]. apply (Hs h H2). rewrite Ht. left. }
  destruct (vi_sized _ _ _ V) as (Hs1 & Hs2 & Hs3 & Hs4 & Hs5 & Hs6). destruct V as [v1 v2 v3 v4 v5 v6 v7 v8 v9 v10 v11]. split; try done; cbn.
  - repeat split; cbn; by rewrite ?length_insert.
  - rewrite v3, u16_add, length_app. cbn. f_equal. lia.
  - rewrite v3, u16_mod_num. by apply heads_push.
  - by rewrite <- Hperm.
  - intros x Hx. apply v8. by rewrite Hperm.
  - intros t'. destruct (decide (t' = t)) as [->|Hnt].
    + rewrite Ht. cbn. split; [done|]. exists h, i1, i2. split; [done|]. split; [destruct Hc; split; try done; cbn; by rewrite T2|].
      eapply st_used; cbn; [set_solver|apply list_lookup_insert_eq; lia|congruence|done|]. by rewrite T2.
    + eapply proc_frame; [apply v10|..]; cbn; try done.
      * intros i Hi. rewrite list_lookup_insert_ne; [done|]. intros <-. by apply (Hne t' h).
      * intros i Hi. specialize (Hne t' i Hnt Hi). rewrite Hw. set_solver.
      * intros b' Hb'. destruct (v11 t' t Hnt) as [Sb _]. rewrite Ht in Sb. destruct (Sb b' b Hb') as [B1 B2]; [done|]. apply TO; congruence.
      * intros b' w' Hb'. specialize (v10 t'). rewrite Hb' in v10. by apply v10.
  - assert (HB : forall x y, buf_of (vprocs s x) = Some y -> vb_blockno (f y) = vb_blockno (vbufs s y)).
    { intros x y Hy. destruct (decide (x = t)) as [->|Hx]; [rewrite Ht in Hy; by injection Hy as <-|].
      destruct (v11 x t Hx) as [Sb _]. rewrite Ht in Sb. destruct (Sb y b Hy) as [B1 B2]; [done|]. destruct (TO y) as [-> _]; congruence. }
    intros t1 t2 Hn. destruct (v11 t1 t2 Hn) as [S1 S2]. split; [|done]. intros b1 b2 H1 H2. cbn. rewrite (HB t1 b1 H1), (HB t2 b2 H2). by apply S1.
Qed.
