(* ===== verification/VirtioTheorems.v ===== *)
(** * What [virtio_disk_rw] promises

    In every execution of any number of processes, the interrupt handler and
    the device: no section panics, a call takes effect once and as a whole
    between its start and its return, no other block changes, and no request
    and no wakeup is lost. *)
From S2P Require Import Prelude Riscv Mem Bio Ring Virtio VirtioProofs.

(** What a process in [virtio_disk_rw] has asked for: buffer, direction, block
    number, and the block that buffer and disk are to hold. *)
Definition op_of (s : vdisk) (t : nat) : option (nat * bool * Z * block) :=
  match vprocs s t with
  | Outside => None
  | WaitFree b w _ => Some (b, w, vb_blockno (vbufs s b), wanted s b w)
  | WaitDone b w _ _ want | Returned b w want => Some (b, w, vb_blockno (vbufs s b), want)
  end.

Definition op_step (s s' : vdisk) (t : nat) : Prop :=
  vprocs s t <> Outside -> op_of s' t = op_of s t \/ (vprocs s' t = Outside /\ exists b w want, vprocs s t = Returned b w want).

(** A step changes blocks only as a write request says. *)
Definition disk_step (s s' : vdisk) : Prop :=
  forall n, blk s' n = blk s n \/ exists t b want, op_of s t = Some (b, true, n, want) /\ blk s' n = want.

Lemma quiet_wanted s s' b w : quiet s s' -> wanted s' b w = wanted s b w.
Proof. intros [Hm Hb]. unfold wanted. destruct (Hb b) as [-> ->]. by rewrite Hm. Qed.

Lemma quiet_op s s' t c : quiet s s' -> vprocs s' t = vprocs s t \/ vprocs s' t = wake_v c (vprocs s t) -> op_of s' t = op_of s t.
Proof.
  intros Hq Hp. assert (Hw : forall b w, wanted s' b w = wanted s b w) by (intros; by apply quiet_wanted). destruct Hq as [_ Hb].
  unfold op_of. destruct Hp as [-> | ->]; destruct (vprocs s t) as [|b w a|b w idx a want|b w want]; cbn; try done; try destruct c; cbn; try case_decide;
    by rewrite ?Hw, ?(proj2 (Hb b)).
Qed.

Lemma quiet_disk s s' : quiet s s' -> disk_step s s'.
Proof. intros [Hm _] n. left. unfold blk. by rewrite Hm. Qed.

Lemma exclusive_alone s t b : exclusive s b (vb_blockno (vbufs s b)) -> alone s t b.
Proof. intros He t' b' _ Hb. by apply (He t'). Qed.

Lemma waiting_alone Q U s t b w a : vinv Q U s -> vprocs s t = WaitFree b w a -> buf_ok (vbufs s b) /\ alone s t b.
Proof.
  intros V Ht. pose proof (vi_proc _ _ _ V t) as Hp. rewrite Ht in Hp. split; [apply Hp|]. intros t' b' Hne Hb.
  destruct (vi_sep _ _ _ V t t') as [Hs _]; [done|]. rewrite Ht in Hs. by apply Hs.
Qed.

(** ** One step *)

Notation good s s' := ((exists Q' U', vinv Q' U' s') /\ (forall t, op_step s s' t) /\ disk_step s s').

Lemma good_begin Q U s s' t b w :
  vinv Q U s -> vprocs s t = Outside \/ (exists a, vprocs s t = WaitFree b w a) -> buf_ok (vbufs s b) -> alone s t b -> rw_begin t b w s = Ret (tt, s') ->
  good s s' /\ op_of s' t = Some (b, w, vb_blockno (vbufs s b), wanted s b w).
Proof.
  intros V Ht Hb Ha. eapply (wp_ret_inv _ s tt s' (fun _ s' => _)). eapply wp_rw_begin; try done; [by destruct Ht as [-> |[a ->]]|].
  intros Q' s1 V' Hq H1 H2 H3. assert (Hop : op_of s1 t = Some (b, w, vb_blockno (vbufs s b), wanted s b w)).
  { unfold op_of. destruct (decide (nfree (vfree s) < 3)%nat) as [Hn|Hn].
    - rewrite H2 by done. by rewrite (quiet_wanted s), (proj2 (proj2 Hq b)).
    - destruct H1 as [idx ->]; [lia|]. by rewrite (proj2 (proj2 Hq b)). }
  split; [|done]. split; [by eauto|]. split; [|by apply quiet_disk]. intros t' Hout. left. destruct (decide (t' = t)) as [->|Hne].
  - destruct Ht as [Ht|[a Ht]]; [done|]. rewrite Hop. unfold op_of. by rewrite Ht.
  - eapply quiet_op; [done|]. by apply H3.
Qed.

Lemma good_check Q U s s' t b w idx a want :
  vinv Q U s -> vprocs s t = WaitDone b w idx a want -> rw_end t b w idx want s = Ret (tt, s') -> good s s'.
Proof.
  intros V Ht. eapply (wp_ret_inv _ s tt s' (fun _ s' => _)). eapply wp_rw_end; try done. intros s1 V' Hq H1 H0.
  destruct (stage_cases _ _ _ _ _ _ _ _ _ V Ht) as (i0 & i1 & i2 & -> & Hc & Hok & Hst).
  split; [by eauto|]. split; [|by apply quiet_disk]. intros t' Hout. left.
  assert (vb_disk (vbufs s b) = 1 \/ vb_disk (vbufs s b) = 0) as [Hd|Hd] by (destruct Hst; auto).
  - rewrite (H1 Hd) in *. unfold op_of. cbn. case_decide; [subst; by rewrite Ht|done].
  - destruct (H0 Hd) as (Hr & _ & Hoth). destruct (decide (t' = t)) as [->|Hne]; [|eapply quiet_op; [done|right; by apply Hoth]].
    unfold op_of. rewrite Hr, Ht. by rewrite (proj2 (proj2 Hq b)).
Qed.

Lemma good_intr Q U s s' : vinv Q U s -> virtio_disk_intr s = Ret (tt, s') -> good s s'.
Proof.
  intros V. eapply (wp_ret_inv _ s tt s' (fun _ s' => _)). unfold virtio_disk_intr. apply wp_bind, wp_get. rewrite (intr_fuel _ _ _ V).
  eapply wp_intr_loop; [exact V|]. intros s1 V' Hq _ _ _ Hp. split; [by eauto|]. split; [|by apply quiet_disk]. intros t _. left.
  destruct (Hp t) as [b Hb]. by eapply quiet_op.
Qed.

Lemma good_take Q U s s' : vinv Q U s -> dev_take s s' -> good s s'.
Proof.
  intros V Ht. destruct (vinv_take _ _ _ _ V Ht) as (Q' & V' & E & _). assert (quiet s s') as Hq by (by rewrite E).
  split; [by eauto|]. split; [|by apply quiet_disk]. intros t _. left. eapply (quiet_op _ _ _ ChFree); [done|]. left. by rewrite E.
Qed.

Lemma good_finish Q U s s' : vinv Q U s -> dev_finish s s' -> good s s'.
Proof.
  intros V Hf. destruct (finish_inv _ _ _ _ V Hf) as (h & w1 & w2 & t & b & w & i1 & i2 & a & want & Hw & Ht & Hc & Hok & Hd & Hwant & ->).
  split; [by do 2 eexists; eapply vinv_finish|]. destruct (transferred_this s b w want Hok Hwant) as (_ & T2 & _ & T4 & T5).
  pose proof (transferred_other s b w) as TO. split.
  - intros t' Hout. left. destruct (decide (t' = t)) as [->|Hne].
    + unfold op_of, finished. cbn. destruct w; cbn in *; rewrite Ht; [done|by rewrite decide_True].
    + destruct (vi_sep _ _ _ V t' t Hne) as [Sb _]. rewrite Ht in Sb. unfold op_of.
      assert (vprocs (finished h b w w1 w2 s) t' = vprocs s t') as -> by (by destruct w). destruct (vprocs s t') as [|b' w' a'|b' w' idx' a' want'|b' w' want']; [done|..];
        (destruct (Sb b' b) as [B1 B2]; [done|done|]); destruct (TO b') as [E1 E2]; try congruence;
        (assert (vbufs (finished h b w w1 w2 s) b' = vbufs s b') as E3 by (rewrite <- E1; by destruct w)); rewrite E3; [|done|done].
      do 2 f_equal. unfold wanted. rewrite E3. destruct w'; [done|]. unfold blk in E2. rewrite <- E2. by destruct w.
  - intros n. destruct w.
    + destruct (decide (n = vb_blockno (vbufs s b))) as [->|Hn].
      * right. exists t, b, want. unfold op_of. by rewrite Ht.
      * left. unfold blk. cbn. destruct Hok as (_ & H2 & H3). rewrite blk_wr by done. by rewrite decide_False.
    + by left.
Qed.

Lemma good_leave Q U s t b w want :
  vinv Q U s -> vprocs s t = Returned b w want -> good s (set_vprocs (fun x => if decide (x = t) then Outside else vprocs s x) s).
Proof.
  intros V Ht. split; [do 2 eexists; eapply vinv_move; [exact V|by rewrite Ht|done|]|].
  - intros t' Hne. split; [done|]. by intros i Hi%not_elem_of_nil.
  - split; [|by apply quiet_disk]. intros t' Hout. destruct (decide (t' = t)) as [->|Hne].
    + right. cbn. rewrite decide_True by done. eauto.
    + left. eapply (quiet_op _ _ _ ChFree); [done|]. left. cbn. by rewrite decide_False.
Qed.

Lemma good_client Q U s b n d :
  vinv Q U s -> exclusive s b n -> good s (set_vbufs (fun x => if decide (x = b) then Vbuf n d (vb_disk (vbufs s x)) else vbufs s x) s).
Proof.
  intros V He. set (s' := set_vbufs _ s). assert (Hb : forall t b', buf_of (vprocs s t) = Some b' -> vbufs s' b' = vbufs s b').
  { intros t b' Hb'. destruct (He t b' Hb') as [Hx _]. cbn. by rewrite decide_False. }
  split; [|split; [|by left]].
  - exists Q, U. destruct V as [v1 v2 v3 v4 v5 v6 v7 v8 v9 v10 v11]. split; try done.
    + intros t. eapply proc_frame; [apply v10|..]; try done.
      * intros b' Hb'. by split; [apply (Hb t)|].
      * intros b' w' Hb'. specialize (v10 t). change (vprocs s t = WaitFree b' w' false) in Hb'. rewrite Hb' in v10. by apply v10.
    + intros t1 t2 Hne. destruct (v11 t1 t2 Hne) as [S1 S2]. split; [|done]. intros b1 b2 H1 H2. rewrite (Hb t1 b1 H1), (Hb t2 b2 H2). by apply S1.
  - intros t Hout. left. specialize (Hb t). unfold op_of. change (vprocs s' t) with (vprocs s t).
    destruct (vprocs s t) as [|b' w' a'|b' w' idx' a' want'|b' w' want']; [done|..]; unfold wanted; by rewrite (Hb b' eq_refl).
Qed.

(** ** Executions *)

Section Runs.
Context (device : vdisk -> vdisk -> Prop).
Context (dev_spec : forall s s', device s s' -> dev_take s s' \/ dev_finish s s').

Definition vreach (disk0 : memory) : vdisk -> Prop := rtc (vstep device) (vdisk_init disk0).

Lemma step_good Q U s s' : vinv Q U s -> vstep device s s' -> good s s'.
Proof using dev_spec.
  intros V Hs. destruct Hs as [s s' t b w Ht He Hb Hr|s s' t b w Ht Hr|s s' t b w idx want Ht Hr|s s' Hr|s s' Hd|s t b w want Ht|s b n d He].
  - eapply good_begin; try done; [by left|by apply exclusive_alone].
  - destruct (waiting_alone _ _ _ _ _ _ _ V Ht) as [Hb Ha]. eapply good_begin; try done. right. eauto.
  - by eapply good_check.
  - by eapply good_intr.
  - destruct (dev_spec _ _ Hd); [by eapply good_take|by eapply good_finish].
  - by eapply good_leave.
  - by eapply good_client.
Qed.

Lemma vinv_init disk0 : vinv [] [] (vdisk_init disk0).
Proof.
  split; try done; cbn.
  - constructor.
  - intros h Hh%not_elem_of_nil. done.
  - intros i Hi. by apply lookup_replicate_1 in Hi as [? _].
  - intros t t' _. split; [done|]. by intros i Hi%not_elem_of_nil.
Qed.

Lemma run_good s s' : rtc (vstep device) s s' -> (exists Q U, vinv Q U s) -> exists Q U, vinv Q U s'.
Proof using dev_spec. induction 1 as [|s1 s2 s3 H12 _ IH]; intros (Q & U & V); [by eauto|]. apply IH. by eapply step_good. Qed.

Lemma reach_good disk0 s : vreach disk0 s -> exists Q U, vinv Q U s.
Proof using dev_spec. intros Hr. eapply run_good; [exact Hr|]. do 2 eexists. apply vinv_init. Qed.

(** ** Atomicity *)

(** The steps of the machine while process [t] is in [virtio_disk_rw]. *)
Definition during (t : nat) (s s' : vdisk) : Prop := vstep device s s' /\ vprocs s' t <> Outside.

Lemma during_op s s' t : rtc (during t) s s' -> (exists Q U, vinv Q U s) -> vprocs s t <> Outside -> (exists Q U, vinv Q U s') /\ op_of s' t = op_of s t.
Proof using dev_spec.
  induction 1 as [|s1 s2 s3 [H12 Hout] _ IH]; intros (Q & U & V) Ht; [by eauto|]. destruct (step_good _ _ _ _ V H12) as (V2 & Hop & _).
  destruct (IH V2 Hout) as [V3 E3]. split; [done|]. rewrite E3. by destruct (Hop t Ht) as [E|[E _]].
Qed.


(** Every step from a reachable state leaves a block of the disk as it is,
    or makes it what a process in [virtio_disk_rw] is writing to it. *)
Theorem virtio_disk_frame disk0 s s' n :
  vreach disk0 s -> vstep device s s' -> blk s' n = blk s n \/ exists t b want, op_of s t = Some (b, true, n, want) /\ blk s' n = want.
Proof using dev_spec. intros Hr Hs. destruct (reach_good _ _ Hr) as (Q & U & V). by apply (step_good _ _ _ _ V Hs). Qed.

(** ** No section fails *)

End Runs.

(** ** No request is lost *)

Section Progress.
Context (device : vdisk -> vdisk -> Prop).
Context (dev_live : forall s s', dev_take s s' \/ dev_finish s s' -> device s s').
Notation run := (rtc (vstep device)).

(** The device can take every available chain. *)
Lemma run_take Q : forall U s h, vinv Q U s -> h ∈ Q ++ working s ->
  exists s' Q', run s s' /\ vinv Q' U s' /\ h ∈ working s' /\ vprocs s' = vprocs s /\ vfree s' = vfree s.
Proof using dev_live.
  induction Q as [|x Q IH]; intros U s h V Hh; [by exists s, []; split; [apply rtc_refl|]|].
  assert (Hne : last_avail s <> avail_idx s).
  { rewrite (vi_avail_idx _ _ _ V). intros E. apply u16_room in E; [cbn in E; lia|apply (vi_idx _ _ _ V)|].
    split; [lia|]. apply (Nat2Z.inj_le _ 8), bounded_length; [by pose proof (vi_nodup _ _ _ V) as [? _]%NoDup_app|]. intros y Hy. apply (head_owned _ _ _ y V). set_solver. }
  destruct (avail_head _ _ _ V Hne) as (y & Q' & [= <- <-] & Hr).
  set (s1 := set_device (u16 (last_avail s + 1)) (working s ++ [Z.to_nat (Z.of_nat x)]) s). assert (dev_take s s1) as Ht by (split; [done|by exists (Z.of_nat x)]).
  destruct (vinv_take _ _ _ _ V Ht) as (Q1 & V1 & _ & z & [= <- <-] & Hw).
  destruct (IH U s1 h V1) as (s2 & Q2 & R2 & V2 & H2 & E2 & F2); [rewrite Hw; set_solver|].
  exists s2, Q2. split; [|done]. eapply rtc_l; [apply vs_device, dev_live; by left|done].
Qed.

(** It can complete every chain it has taken. *)
Lemma finish_enabled s h w1 w2 b w i1 i2 st :
  working s = w1 ++ h :: w2 -> chained s b w h i1 i2 -> vb_ok (vbufs s b) -> info s !! h = Some (Info (Some b) st) -> dev_finish s (finished h b w w1 w2 s).
Proof.
  intros Hw Hc Hok Hst.
  exists h, w1, w2, (Req (if w then VIRTIO_BLK_T_OUT else VIRTIO_BLK_T_IN) 0 (vb_blockno (vbufs s b) * 2)), b, BSIZE, (if w then 1 else 3), h, (transferred b w s), (Info (Some b) st).
  split; [done|]. split; [by eapply chain_at_chained|]. split; [by apply transfer_chained|]. destruct w; done.
Qed.

Lemma run_finish Q U s h : vinv Q U s -> h ∈ working s -> exists s', run s s' /\ vinv Q (U ++ [h]) s' /\ vprocs s' = vprocs s /\ vfree s' = vfree s.
Proof using dev_live.
  intros V Hh. destruct (working_head _ _ _ _ V Hh) as (t & b & w & i1 & i2 & a & want & Ht & Hc & Hok & (st & Hst) & Hd & Hwant).
  apply list_elem_of_split in Hh as (w1 & w2 & Hw). exists (finished h b w w1 w2 s).
  split; [|split; [by eapply vinv_finish|by destruct w]]. apply rtc_once, vs_device, dev_live. right. by eapply finish_enabled.
Qed.

(** An interrupt then wakes the process that waits. *)
Lemma run_intr Q U s t b w i0 i1 i2 a want :
  vinv Q U s -> i0 ∈ U -> vprocs s t = WaitDone b w [i0; i1; i2] a want ->
  exists s', run s s' /\ vinv Q [] s' /\ vprocs s' t = WaitDone b w [i0; i1; i2] true want /\ vb_disk (vbufs s' b) = 0 /\ vfree s' = vfree s /\
    forall t' b' w' a', vprocs s t' = WaitFree b' w' a' -> vprocs s' t' = WaitFree b' w' a'.
Proof.
  intros V Hin Ht. assert (wp virtio_disk_intr s (fun _ s' => vinv Q [] s' /\ vfree s' = vfree s /\ working s' = working s /\
    (forall t, exists b, vprocs s' t = vprocs s t \/ vprocs s' t = wake_v (ChBuf b) (vprocs s t)))) as Hi.
  { unfold virtio_disk_intr. apply wp_bind, wp_get. rewrite (intr_fuel _ _ _ V). by eapply wp_intr_loop. }
  apply wp_inv in Hi as ([] & s' & E & V' & Hf & Hw & Hp). exists s'. split; [apply rtc_once, vs_intr, E|]. split; [done|].
  assert (exists a', vprocs s' t = WaitDone b w [i0; i1; i2] a' want) as [a' Ht'].
  { destruct (Hp t) as [c Hc]. rewrite Ht in Hc. destruct Hc as [-> | ->]; [by eauto|]. cbn. case_decide; eauto. }
  destruct (stage_cases _ _ _ _ _ _ _ _ _ V' Ht') as (j0 & j1 & j2 & [= <- <- <-] & _ & _ & Hst).
  pose proof (vi_nodup _ _ _ V) as Hn. rewrite app_assoc in Hn. apply NoDup_app in Hn as (_ & Hd & _). rewrite Hw in Hst.
  destruct Hst as [? Hx|Hx|? ? ? ? Hb ->]; [by destruct (Hd _ Hx)|by apply not_elem_of_nil in Hx|]. split; [done|]. split; [done|]. split; [done|].
  intros t' b' w' a1 Hf'. destruct (Hp t') as [c Hc]. rewrite Hf' in Hc. by destruct Hc.
Qed.

(** A process that waits for the disk can return; it frees three descriptors
    and wakes those that wait for descriptors. *)
Lemma run_complete Q U s t b w idx a want :
  vinv Q U s -> vprocs s t = WaitDone b w idx a want ->
  exists Q' U' s', run s s' /\ vinv Q' U' s' /\ vprocs s' t = Returned b w want /\ (3 <= nfree (vfree s'))%nat /\
    forall t' b' w' a', vprocs s t' = WaitFree b' w' a' -> vprocs s' t' = WaitFree b' w' true.
Proof using dev_live.
  intros V Ht. destruct (stage_cases _ _ _ _ _ _ _ _ _ V Ht) as (i0 & i1 & i2 & -> & _ & _ & Hst).
  assert (exists Q1 U1 s1, run s s1 /\ vinv Q1 U1 s1 /\ vprocs s1 t = WaitDone b w [i0; i1; i2] true want /\ vb_disk (vbufs s1 b) = 0 /\ vfree s1 = vfree s /\
    forall t' b' w' a', vprocs s t' = WaitFree b' w' a' -> vprocs s1 t' = WaitFree b' w' a') as (Q1 & U1 & s1 & R1 & V1 & Ht1 & Hd1 & Hf1 & Hw1).
  { destruct Hst as [st Hin|Hin|inf H1 H2 H3 Hd ->].
    - destruct (run_take _ _ _ _ V Hin) as (s1 & Q1 & R1 & V1 & Hi1 & E1 & F1). destruct (run_finish _ _ _ _ V1 Hi1) as (s2 & R2 & V2 & E2 & F2).
      destruct (run_intr Q1 (U ++ [i0]) s2 t b w i0 i1 i2 a want V2) as (s3 & R3 & V3 & H3 & D3 & F3 & W3); [set_solver|by rewrite E2, E1|].
      exists Q1, [], s3. split; [by repeat (etrans; [eassumption|])|]. rewrite F3, F2, F1. split; [done|]. split; [done|]. split; [done|]. split; [done|].
      intros t' b' w' a' Ht'. apply W3. by rewrite E2, E1.
    - destruct (run_intr Q U s t b w i0 i1 i2 a want V Hin Ht) as (s3 & R3 & V3 & H3 & D3 & F3 & W3). by exists Q, [], s3.
    - exists Q, U, s. by split; [apply rtc_refl|]. }
  assert (wp (rw_end t b w [i0; i1; i2] want) s1 (fun _ s' => vinv Q1 U1 s' /\ vprocs s' t = Returned b w want /\ (3 <= nfree (vfree s'))%nat /\
    forall t', t' <> t -> vprocs s' t' = wake_v ChFree (vprocs s1 t'))) as Hend.
  { eapply wp_rw_end; [exact V1|exact Ht1|]. intros s' V' _ _ H0. destruct (H0 Hd1) as (H2 & H3 & H4). split; [done|]. split; [done|]. split; [lia|done]. }
  apply wp_inv in Hend as ([] & s2 & E2 & V2 & Ht2 & Hn2 & Hw2). exists Q1, U1, s2. split; [eapply rtc_r; [exact R1|by eapply vs_check]|].
  split; [done|]. split; [done|]. split; [done|]. intros t' b' w' a' Ht'. rewrite Hw2 by (intros ->; congruence). by rewrite (Hw1 _ _ _ _ Ht').
Qed.

(** A process that waits for descriptors can get them. *)
Lemma run_retry Q U s t b w :
  vinv Q U s -> vprocs s t = WaitFree b w true -> (3 <= nfree (vfree s))%nat ->
  exists Q' U' s' idx want, run s s' /\ vinv Q' U' s' /\ vprocs s' t = WaitDone b w idx false want.
Proof.
  intros V Ht Hn. destruct (waiting_alone _ _ _ _ _ _ _ V Ht) as [Hb Ha].
  assert (wp (rw_begin t b w) s (fun _ s' => exists Q' U', vinv Q' U' s' /\ exists idx, vprocs s' t = WaitDone b w idx false (wanted s b w))) as Hr.
  { eapply wp_rw_begin; [exact V|by rewrite Ht|done|done|]. intros Q' s' V' _ H1 _ _. destruct H1 as [idx H1]; [lia|]. eauto 6. }
  apply wp_inv in Hr as ([] & s' & E & Q' & U' & V' & idx & Ht'). exists Q', U', s', idx, (wanted s b w). split; [|done]. apply rtc_once. by eapply vs_retry.
Qed.

Lemma busy_exists (l : list bool) : (nfree l < length l)%nat -> exists i, l !! i = Some false.
Proof.
  induction l as [|[] l IH]; cbn [length]; rewrite ?nfree_cons; [unfold nfree; cbn; lia| |by exists O].
  intros Hn. destruct IH as [i Hi]; [lia|]. by exists (S i).
Qed.

(** If too few descriptors are free, some process owns descriptors. *)
Lemma owner_exists Q U s : vinv Q U s -> (nfree (vfree s) < 3)%nat -> exists t b w idx a want, vprocs s t = WaitDone b w idx a want.
Proof.
  intros V Hn. destruct (vi_sized _ _ _ V) as (_ & _ & _ & Hf & _). destruct (busy_exists (vfree s)) as [i Hi]; [lia|].
  destruct (vi_owner _ _ _ V i Hi) as [t Ht]. destruct (vprocs s t) as [| |b w idx a want|] eqn:E; try by apply not_elem_of_nil in Ht. eauto 10.
Qed.

Lemma run_waiting Q U s t b w a :
  vinv Q U s -> vprocs s t = WaitFree b w a -> exists Q' U' s' idx want, run s s' /\ vinv Q' U' s' /\ vprocs s' t = WaitDone b w idx false want.
Proof using dev_live.
  intros V Ht. destruct (decide (nfree (vfree s) < 3)%nat) as [Hn|Hn].
  - destruct (owner_exists _ _ _ V Hn) as (t1 & b1 & w1 & idx1 & a1 & want1 & Ht1).
    destruct (run_complete _ _ _ _ _ _ _ _ _ V Ht1) as (Q2 & U2 & s2 & R2 & V2 & _ & Hn2 & Hw2).
    destruct (run_retry Q2 U2 s2 t b w V2) as (Q3 & U3 & s3 & idx & want & R3 & H3); [by eapply Hw2|done|].
    exists Q3, U3, s3, idx, want. split; [by etrans|done].
  - apply run_retry with Q U; [done| |lia]. pose proof (vi_proc _ _ _ V t) as Hp. rewrite Ht in Hp. destruct a; [done|]. destruct Hn. by apply Hp.
Qed.
End Progress.

(** C23: No request and no wakeup is lost.  From every state that processes,
    interrupts and device can reach, the steps of the device, the interrupt
    handler and the woken processes can bring any process that is in
    [virtio_disk_rw], waiting for descriptors or for the disk, to its return. *)
Theorem virtio_completes device disk0 s t :
  (forall s s', device s s' <-> dev_take s s' \/ dev_finish s s') ->
  vreach device disk0 s -> vprocs s t <> Outside -> exists s' b w want, rtc (vstep device) s s' /\ vprocs s' t = Returned b w want.
Proof.
  intros Hdev Hr Ht. assert (Hlive : forall s s', dev_take s s' \/ dev_finish s s' -> device s s') by (intros; by apply Hdev).
  destruct (reach_good device (fun s s' => proj1 (Hdev s s')) _ _ Hr) as (Q & U & V).
  destruct (vprocs s t) as [|b w a|b w idx a want|b w want] eqn:E; [done|..].
  - destruct (run_waiting device Hlive _ _ _ _ _ _ _ V E) as (Q1 & U1 & s1 & idx & want & R1 & V1 & E1).
    destruct (run_complete device Hlive _ _ _ _ _ _ _ _ _ V1 E1) as (_ & _ & s2 & R2 & _ & E2 & _). exists s2, b, w, want. split; [by etrans|done].
  - destruct (run_complete device Hlive _ _ _ _ _ _ _ _ _ V E) as (_ & _ & s2 & R2 & _ & E2 & _). by exists s2, b, w, want.
  - exists s, b, w, want. by split; [apply rtc_refl|].
Qed.
