(* ===== verification/VirtioInit.v ===== *)
(** * kernel/virtio_disk.c: the start of the driver

    [virtio_disk_init] over the registers of the device, which are an argument,
    and the page allocator; the writes to the registers are recorded. *)
From S2P Require Import Prelude Riscv Mem KString Kalloc.

(** The registers of virtio.h, in its order. *)
Inductive mmio : Type :=
| MAGIC_VALUE | VERSION | DEVICE_ID | VENDOR_ID | DEVICE_FEATURES | DRIVER_FEATURES | QUEUE_SEL | QUEUE_NUM_MAX | QUEUE_NUM | QUEUE_READY
| QUEUE_NOTIFY | INTERRUPT_STATUS | INTERRUPT_ACK | STATUS | QUEUE_DESC_LOW | QUEUE_DESC_HIGH | DRIVER_DESC_LOW | DRIVER_DESC_HIGH
| DEVICE_DESC_LOW | DEVICE_DESC_HIGH.
Definition mmio_offset (r : mmio) : Z :=
  match r with
  | MAGIC_VALUE => 0x000 | VERSION => 0x004 | DEVICE_ID => 0x008 | VENDOR_ID => 0x00c | DEVICE_FEATURES => 0x010 | DRIVER_FEATURES => 0x020
  | QUEUE_SEL => 0x030 | QUEUE_NUM_MAX => 0x034 | QUEUE_NUM => 0x038 | QUEUE_READY => 0x044 | QUEUE_NOTIFY => 0x050
  | INTERRUPT_STATUS => 0x060 | INTERRUPT_ACK => 0x064 | STATUS => 0x070 | QUEUE_DESC_LOW => 0x080 | QUEUE_DESC_HIGH => 0x084
  | DRIVER_DESC_LOW => 0x090 | DRIVER_DESC_HIGH => 0x094 | DEVICE_DESC_LOW => 0x0a0 | DEVICE_DESC_HIGH => 0x0a4
  end.
(** [R(r)], the address of a register. *)
Definition R (r : mmio) : Z := VIRTIO0 + mmio_offset r.

Definition S_ACKNOWLEDGE : Z := 1.
Definition S_DRIVER : Z := 2.
Definition S_DRIVER_OK : Z := 4.
Definition S_FEATURES_OK : Z := 8.
(** VIRTIO_BLK_F_RO, _SCSI, _CONFIG_WCE, _MQ, VIRTIO_F_ANY_LAYOUT,
    VIRTIO_RING_F_EVENT_IDX and _INDIRECT_DESC, as [virtio_disk_init] clears them. *)
Definition unwanted_features : list Z := [5; 7; 11; 12; 27; 29; 28].
Definition QNUM : Z := 8.

Section Init.
(** Reading and writing a register at an address; [D] is the state of the device. *)
Context {D : Type} (rd : Z -> D -> Z * D) (wr : Z -> Z -> D -> D).

(** The allocator, the device, the writes to its registers, and the fields of
    [struct disk] that are set. *)
Record vini : Type := Vini { vi_k : kst; vi_d : D; vi_log : list (mmio * Z); vi_desc : Z; vi_avail : Z; vi_used : Z; vi_free : list bool }.

Definition get_reg (r : mmio) : M vini Z := fun s =>
  let '(v, d) := rd (R r) (vi_d s) in Ret (u32 v, Vini (vi_k s) d (vi_log s) (vi_desc s) (vi_avail s) (vi_used s) (vi_free s)).
Definition put_reg (r : mmio) (v : Z) : M vini unit := modify (fun s =>
  Vini (vi_k s) (wr (R r) (u32 v) (vi_d s)) (vi_log s ++ [(r, u32 v)]) (vi_desc s) (vi_avail s) (vi_used s) (vi_free s)).
Definition liftV {A} (c : M kst A) : M vini A := fun s =>
  match c (vi_k s) with
  | Ret (a, k) => Ret (a, Vini k (vi_d s) (vi_log s) (vi_desc s) (vi_avail s) (vi_used s) (vi_free s))
  | Panic msg => Panic msg
  | Fault => Fault
  | Diverge => Diverge
  end.

(** [features &= ~(1 << bit);] *)
Definition clear_feature (features bit : Z) : Z := Z.land features (u64 (Z.lnot (Z.shiftl 1 bit))).

Definition virtio_disk_init : M vini unit :=
  magic <- get_reg MAGIC_VALUE;;
  if negb (magic =? 0x74726976) then panic "could not find virtio disk" else
  version <- get_reg VERSION;;
  if negb (version =? 2) then panic "could not find virtio disk" else
  device <- get_reg DEVICE_ID;;
  if negb (device =? 2) then panic "could not find virtio disk" else
  vendor <- get_reg VENDOR_ID;;
  if negb (vendor =? 0x554d4551) then panic "could not find virtio disk" else
  let status := 0 in
  put_reg STATUS status;;
  let status := Z.lor status S_ACKNOWLEDGE in
  put_reg STATUS status;;
  let status := Z.lor status S_DRIVER in
  put_reg STATUS status;;
  features <- get_reg DEVICE_FEATURES;;
  put_reg DRIVER_FEATURES (fold_left clear_feature unwanted_features features);;
  let status := Z.lor status S_FEATURES_OK in
  put_reg STATUS status;;
  status <- get_reg STATUS;;
  if Z.land status S_FEATURES_OK =? 0 then panic "virtio disk FEATURES_OK unset" else
  put_reg QUEUE_SEL 0;;
  ready <- get_reg QUEUE_READY;;
  if ctrue ready then panic "virtio disk should not be ready" else
  max <- get_reg QUEUE_NUM_MAX;;
  if max =? 0 then panic "virtio disk has no queue 0" else
  if max <? QNUM then panic "virtio disk max queue too short" else
  desc <- liftV kalloc;;
  avail <- liftV kalloc;;
  used <- liftV kalloc;;
  modify (fun s => Vini (vi_k s) (vi_d s) (vi_log s) desc avail used (vi_free s));;
  if (desc =? 0) || (avail =? 0) || (used =? 0) then panic "virtio disk kalloc" else
  liftV (kmemset desc 0 PGSIZE);;
  liftV (kmemset avail 0 PGSIZE);;
  liftV (kmemset used 0 PGSIZE);;
  put_reg QUEUE_NUM QNUM;;
  put_reg QUEUE_DESC_LOW desc;;
  put_reg QUEUE_DESC_HIGH (Z.shiftr desc 32);;
  put_reg DRIVER_DESC_LOW avail;;
  put_reg DRIVER_DESC_HIGH (Z.shiftr avail 32);;
  put_reg DEVICE_DESC_LOW used;;
  put_reg DEVICE_DESC_HIGH (Z.shiftr used 32);;
  put_reg QUEUE_READY 1;;
  modify (fun s => Vini (vi_k s) (vi_d s) (vi_log s) (vi_desc s) (vi_avail s) (vi_used s) (replicate (Z.to_nat QNUM) true));;
  put_reg STATUS (Z.lor status S_DRIVER_OK).

(** ** The start of the driver is correct *)

(** What the VIRTIO documentation says of the registers of a block device: the
    identification, a status that reads back as it was written, which accepts
    the features, and a queue that is not in use and long enough. *)
Record documented : Prop := Documented {
  dc_magic d : u32 (rd (R MAGIC_VALUE) d).1 = 0x74726976;
  dc_version d : u32 (rd (R VERSION) d).1 = 2;
  dc_device d : u32 (rd (R DEVICE_ID) d).1 = 2;
  dc_vendor d : u32 (rd (R VENDOR_ID) d).1 = 0x554d4551;
  dc_status d v : (rd (R STATUS) (wr (R STATUS) v d)).1 = v;
  dc_ready d : u32 (rd (R QUEUE_READY) (wr (R QUEUE_SEL) 0 d)).1 = 0;
  dc_max d : QNUM <= u32 (rd (R QUEUE_NUM_MAX) d).1
}.

Lemma wp_get_reg r k d lg a b c fr Q : (forall d', Q (u32 (rd (R r) d).1) (Vini k d' lg a b c fr)) -> wp (get_reg r) (Vini k d lg a b c fr) Q.
Proof. intros H. unfold wp, get_reg. cbn [vi_d vi_k vi_log vi_desc vi_avail vi_used vi_free]. destruct (rd (R r) d) as [v d'] eqn:E. apply (H d'). Qed.
Lemma wp_put_reg r v k d lg a b c fr (Q : unit -> vini -> Prop) : Q tt (Vini k (wr (R r) (u32 v) d) (lg ++ [(r, u32 v)]) a b c fr) -> wp (put_reg r v) (Vini k d lg a b c fr) Q.
Proof. intros H. by apply wp_modify. Qed.
Lemma wp_liftV {A} (c : M kst A) s (Q : A -> vini -> Prop) :
  wp c (vi_k s) (fun a k => Q a (Vini k (vi_d s) (vi_log s) (vi_desc s) (vi_avail s) (vi_used s) (vi_free s))) -> wp (liftV c) s Q.
Proof. unfold wp, liftV. by destruct (c (vi_k s)) as [[a k]| | |]. Qed.

Lemma clear_feature_bit f b i : 0 <= b < 64 -> 0 <= i -> Z.testbit (clear_feature f b) i = Z.testbit f i && negb (i =? b) && (i <? 64).
Proof.
  intros Hb Hi. unfold clear_feature, u64. rewrite Z.land_spec, <- andb_assoc. f_equal. destruct (Z.ltb_spec i 64); [|rewrite andb_false_r; apply Z.mod_pow2_bits_high; lia].
  rewrite andb_true_r, Z.mod_pow2_bits_low, Z.lnot_spec, Z.shiftl_spec by lia. f_equal. destruct (Z.eqb_spec i b) as [->|Hne]; [by rewrite Z.sub_diag|].
  destruct (Z.lt_ge_cases i b); [by apply Z.testbit_neg_r; lia|]. apply Z.bits_above_log2; cbn; lia.
Qed.

Lemma clear_features_bits l : forall f i, (forall b, b ∈ l -> 0 <= b < 64) -> i ∈ l -> Z.testbit (fold_left clear_feature l f) i = false.
Proof.
  assert (Hkeep : forall l f i, (forall b, b ∈ l -> 0 <= b < 64) -> 0 <= i -> Z.testbit f i = false -> Z.testbit (fold_left clear_feature l f) i = false).
  { clear l. induction l as [|b l IH]; intros f i Hb Hi Hf; cbn [fold_left]; [done|]. apply IH; [intros x Hx; apply Hb; by right|done|]. rewrite clear_feature_bit by (done || apply Hb; left). by rewrite Hf. }
  induction l as [|b l IH]; intros f i Hb Hi; [by apply not_elem_of_nil in Hi|]. cbn [fold_left]. apply elem_of_cons in Hi as [->|Hi]; [|apply IH; [intros x Hx; apply Hb; by right|done]].
  assert (0 <= b < 64) by (apply Hb; left). apply Hkeep; [intros x Hx; apply Hb; by right|lia|]. rewrite clear_feature_bit, Z.eqb_refl by lia. by rewrite andb_false_r.
Qed.

(** The writes of a start: reset, the steps of the status up to the features,
    the queue, and the last step only when the queue is ready. *)
Definition start_log (f p1 p2 p3 : Z) : list (mmio * Z) :=
  [(STATUS, 0); (STATUS, 1); (STATUS, 3); (DRIVER_FEATURES, f); (STATUS, 11); (QUEUE_SEL, 0); (QUEUE_NUM, 8);
   (QUEUE_DESC_LOW, p1); (QUEUE_DESC_HIGH, 0); (DRIVER_DESC_LOW, p2); (DRIVER_DESC_HIGH, 0); (DEVICE_DESC_LOW, p3); (DEVICE_DESC_HIGH, 0);
   (QUEUE_READY, 1); (STATUS, 15)].

Context {L : Layout}.

(** Three pages for the queues, cleared. *)
Lemma wp_queue_pages s p1 p2 p3 l (rest : Z -> Z -> Z -> M vini unit) (Q : unit -> vini -> Prop) :
  free_list (vi_k s) (p1 :: p2 :: p3 :: l) ->
  (forall k, free_list k l -> mod_only [p1; p2; p3] (mem (vi_k s)) (mem k) -> (forall p x, p ∈ [p1; p2; p3] -> p <= x < p + PGSIZE -> ld8 (mem k) x = 0) ->
    (forall p, p ∈ [p1; p2; p3] -> 0 < p < 2 ^ 32) -> wp (rest p1 p2 p3) (Vini k (vi_d s) (vi_log s) p1 p2 p3 (vi_free s)) Q) ->
  wp (desc <- liftV kalloc;; avail <- liftV kalloc;; used <- liftV kalloc;;
      modify (fun s => Vini (vi_k s) (vi_d s) (vi_log s) desc avail used (vi_free s));;
      if (desc =? 0) || (avail =? 0) || (used =? 0) then panic "virtio disk kalloc" else
      liftV (kmemset desc 0 PGSIZE);; liftV (kmemset avail 0 PGSIZE);; liftV (kmemset used 0 PGSIZE);; rest desc avail used) s Q.
Proof.
  intros Hf HQ. apply wp_bind, wp_liftV. eapply wp_mono; [by apply wp_kalloc_cons|]. cbn beta. intros q1 k1 (-> & P1 & F1 & N1 & M1 & _).
  apply wp_bind, wp_liftV. eapply wp_mono; [by apply wp_kalloc_cons|]. cbn beta. intros q2 k2 (-> & P2 & F2 & N2 & M2 & _).
  apply wp_bind, wp_liftV. eapply wp_mono; [by apply wp_kalloc_cons|]. cbn beta. intros q3 k3 (-> & P3 & F3 & N3 & M3 & _).
  cbn [vi_k vi_d vi_log vi_desc vi_avail vi_used vi_free] in *. apply wp_bind, wp_modify. cbn [vi_k vi_d vi_log vi_desc vi_avail vi_used vi_free].
  pose proof (page_ok_bounds _ P1) as B1. pose proof (page_ok_bounds _ P2) as B2. pose proof (page_ok_bounds _ P3) as B3. unfold PHYSTOP, KERNBASE, PGSIZE in B1, B2, B3.
  rewrite (proj2 (Z.eqb_neq p1 0)), (proj2 (Z.eqb_neq p2 0)), (proj2 (Z.eqb_neq p3 0)) by lia. cbn [orb].
  apply wp_bind, wp_liftV, wp_kmemset; [apply (page_ok_in_ram p1); [done|lia|lia]|]. apply wp_bind, wp_liftV, wp_kmemset; [apply (page_ok_in_ram p2); [done|lia|lia]|]. apply wp_bind, wp_liftV, wp_kmemset; [apply (page_ok_in_ram p3); [done|lia|lia]|].
  cbn [vi_k vi_d vi_log vi_desc vi_avail vi_used vi_free mem freelist]. set (m4 := memset _ p3 0 PGSIZE). rewrite !not_elem_of_cons in N1. rewrite not_elem_of_cons in N2.
  assert (Hmod : mod_only [p1; p2; p3] (mem k3) m4).
  { unfold m4. repeat (eapply mod_only_trans; [|eapply mod_only_sub; [apply memset_mod_only|intros q ->%list_elem_of_singleton; rewrite !elem_of_cons; auto]]). apply mod_only_refl. }
  apply HQ.
  - eapply (free_list_frame [p1; p2; p3] k3); [done|done|exact Hmod|]. intros q. rewrite !elem_of_cons. intros [->|[->|[->|Hq%not_elem_of_nil]]]; [split; [apply P1|tauto]|split; [apply P2|tauto]|split; [apply P3|tauto]|done].
  - intros x Hx. assert (Hone : forall q, q ∈ [p1; p2; p3] -> forall r, r ∈ [q] -> ~ (r <= x < r + PGSIZE)) by (intros q Hq r ->%list_elem_of_singleton; by apply Hx).
    cbn [mem]. rewrite <- Hmod by done. rewrite (M1 x), (M2 x), (M3 x); [done|apply Hone; rewrite !elem_of_cons; auto..].
  - intros q x. rewrite !elem_of_cons. intros [->|[->|[->|Hq%not_elem_of_nil]]] Hx; [..|done]; unfold m4; cbn [mem]; rewrite !memset_at; change (u8 0) with 0; zcases.
  - intros q. rewrite !elem_of_cons. intros [->|[->|[->|Hq%not_elem_of_nil]]]; [lia|lia|lia|done].
Qed.

(** The driver starts: with a device as documented and three free pages,
    [virtio_disk_init] returns; the queues are three pages of zeros that nobody
    else has, no other memory changes, every descriptor is free; and the writes
    to the registers are the steps of a start in their order, without the
    features the driver does not know, and with the addresses of the pages. *)
Theorem virtio_init_correct s p1 p2 p3 l :
  documented -> free_list (vi_k s) (p1 :: p2 :: p3 :: l) -> vi_log s = [] ->
  exists s' f, virtio_disk_init s = Ret (tt, s') /\ vi_desc s' = p1 /\ vi_avail s' = p2 /\ vi_used s' = p3 /\ vi_free s' = replicate 8 true /\
    free_list (vi_k s') l /\ mod_only [p1; p2; p3] (mem (vi_k s)) (mem (vi_k s')) /\ (forall p x, p ∈ [p1; p2; p3] -> p <= x < p + PGSIZE -> ld8 (mem (vi_k s')) x = 0) /\
    vi_log s' = start_log f p1 p2 p3 /\ forall b, b ∈ unwanted_features -> Z.testbit f b = false.
Proof.
  intros Hd Hf Hlog. cut (wp virtio_disk_init s (fun _ s' => exists f, vi_desc s' = p1 /\ vi_avail s' = p2 /\ vi_used s' = p3 /\ vi_free s' = replicate 8 true /\
    free_list (vi_k s') l /\ mod_only [p1; p2; p3] (mem (vi_k s)) (mem (vi_k s')) /\ (forall p x, p ∈ [p1; p2; p3] -> p <= x < p + PGSIZE -> ld8 (mem (vi_k s')) x = 0) /\
    vi_log s' = start_log f p1 p2 p3 /\ forall b, b ∈ unwanted_features -> Z.testbit f b = false)).
  { intros ([] & s' & E & f & H)%wp_inv. by exists s', f. }
  destruct s as [k d lg a b c fr]. cbn [vi_log vi_k] in Hlog, Hf |- *. subst lg.
  unfold virtio_disk_init. apply wp_bind, wp_get_reg. intros d1. rewrite (dc_magic Hd). cbn [Z.eqb Pos.eqb negb]. apply wp_bind, wp_get_reg. intros d2. rewrite (dc_version Hd). cbn [Z.eqb Pos.eqb negb].
  apply wp_bind, wp_get_reg. intros d3. rewrite (dc_device Hd). cbn [Z.eqb Pos.eqb negb]. apply wp_bind, wp_get_reg. intros d4. rewrite (dc_vendor Hd). cbn [Z.eqb Pos.eqb negb]. cbv zeta.
  do 3 apply wp_bind, wp_put_reg. apply wp_bind, wp_get_reg. intros d5. set (f := fold_left clear_feature _ _). apply wp_bind, wp_put_reg, wp_bind, wp_put_reg, wp_bind, wp_get_reg. intros d6. rewrite (dc_status Hd).
  change (u32 (u32 (Z.lor _ S_FEATURES_OK))) with 11. change (Z.land 11 S_FEATURES_OK =? 0) with false. cbv iota. apply wp_bind, wp_put_reg, wp_bind, wp_get_reg. intros d7. change (u32 0) with 0. rewrite (dc_ready Hd). cbn [ctrue Z.eqb negb].
  apply wp_bind, wp_get_reg. intros d8. pose proof (dc_max Hd d7) as Hmax. unfold QNUM in *. rewrite (proj2 (Z.eqb_neq _ 0)), (proj2 (Z.ltb_ge _ 8)) by lia.
  apply (wp_queue_pages _ p1 p2 p3 l (fun desc avail used => _)); [exact Hf|]. intros k' Fk Mk Zk Bk. cbn [vi_k vi_d vi_log vi_free]. do 8 apply wp_bind, wp_put_reg. apply wp_bind, wp_modify. apply wp_put_reg. exists (u32 f).
  do 4 (split; [done|]). split; [done|]. split; [done|]. split; [done|]. split.
  - assert (Hlow : forall p, p ∈ [p1; p2; p3] -> u32 p = p /\ u32 (Z.shiftr p 32) = 0).
    { intros p Hp%Bk. split; [apply u32_small; lia|]. rewrite Z.shiftr_div_pow2, Z.div_small by lia. done. }
    destruct (Hlow p1), (Hlow p2), (Hlow p3); [rewrite !elem_of_cons; auto..|]. cbn [vi_log]. unfold start_log. rewrite <- !app_assoc. cbn [app]. repeat f_equal; done.
  - intros b' Hb. unfold u32. rewrite Z.mod_pow2_bits_low; [|unfold unwanted_features in Hb; rewrite !elem_of_cons in Hb; destruct Hb as [->|[->|[->|[->|[->|[->|[->|[]%not_elem_of_nil]]]]]]]; lia].
    apply clear_features_bits; [|done]. intros x Hx. unfold unwanted_features in Hx. rewrite !elem_of_cons in Hx. destruct Hx as [->|[->|[->|[->|[->|[->|[->|[]%not_elem_of_nil]]]]]]]; lia.
Qed.
End Init.

(** A device of the kind [documented] describes: its state is its status. *)
Definition model_rd (a : Z) (d : Z) : Z * Z :=
  (if a =? R MAGIC_VALUE then 0x74726976 else if a =? R VENDOR_ID then 0x554d4551 else if a =? R STATUS then d
   else if a =? R QUEUE_NUM_MAX then 1024 else if (a =? R VERSION) || (a =? R DEVICE_ID) then 2 else 0, d).
Definition model_wr (a v : Z) (d : Z) : Z := if a =? R STATUS then v else d.
Lemma model_documented : documented model_rd model_wr.
Proof. by split. Qed.
