(* ===== verification/VirtioExamples.v ===== *)
(** * A write, from the call to the return

    One process writes block 3 and a device that does what the specification
    allows serves it: a run the theorems about [virtio_disk_rw] apply to. *)
From S2P Require Import Prelude Riscv Mem Bio Virtio VirtioProofs VirtioTheorems.

Definition qemu (s s' : vdisk) : Prop := dev_take s s' \/ dev_finish s s'.

Definition out (c : M vdisk unit) (s : vdisk) : vdisk := match c s with Ret (_, s') => s' | _ => s end.
Definition returns (c : M vdisk unit) (s : vdisk) : bool := match c s with Ret _ => true | _ => false end.

Lemma out_eq c s : returns c s = true -> c s = Ret (tt, out c s).
Proof. unfold returns, out. by destruct (c s) as [[[] s']| | |]. Qed.

Definition sevens : block := replicate 1024 7.
Definition run0 : vdisk := vdisk_init (fun _ => 0).
(** The buffer filled, the call, the device's two steps, the interrupt, the
    return. *)
Definition run1 : vdisk := set_vbufs (fun x => if decide (x = O) then Vbuf 3 sevens (vb_disk (vbufs run0 x)) else vbufs run0 x) run0.
Definition run2 : vdisk := out (rw_begin 0 0 true) run1.
Definition run3 : vdisk := set_device 1 [O] run2.
Definition run4 : vdisk := finished 0 0 true [] [] run3.
Definition run5 : vdisk := out virtio_disk_intr run4.
Definition run6 : vdisk := out (rw_end 0 0 true [0; 1; 2]%nat sevens) run5.

Lemma run1_reach : vreach qemu (fun _ => 0) run1.
Proof. apply rtc_once. by apply vs_client. Qed.

Lemma run1_ready : vprocs run1 O = Outside /\ exclusive run1 O (vb_blockno (vbufs run1 O)) /\ buf_ok (vbufs run1 O).
Proof. split; [done|]. split; [done|]. by apply (bool_decide_eq_true_1 (0 <= 3 < 2 ^ 31 /\ length sevens = Z.to_nat BSIZE /\ Forall (fun x => 0 <= x < 256) sevens /\ 0 = 0)). Qed.

Lemma run2_call : rw_begin 0 0 true run1 = Ret (tt, run2).
Proof. apply out_eq. by vm_compute. Qed.

Lemma run2_proc : vprocs run2 O = WaitDone 0 true [0; 1; 2]%nat false sevens.
Proof. by vm_compute. Qed.

Lemma run2_reach : vreach qemu (fun _ => 0) run2.
Proof. eapply rtc_r; [exact run1_reach|]. destruct run1_ready as (? & ? & ?). by eapply vs_call, run2_call. Qed.

Lemma run3_step : during qemu 0 run2 run3.
Proof. split; [|by vm_compute]. apply vs_device. left. split; [by vm_compute|]. exists 0. split; [by vm_compute|done]. Qed.

Lemma run3_buf : vb_ok (vbufs run3 0).
Proof. assert (vbufs run3 0 = Vbuf 3 sevens 1) as -> by (by vm_compute). destruct run1_ready as (_ & _ & H1 & H2 & H3 & _). by split. Qed.

Lemma run4_step : during qemu 0 run3 run4.
Proof.
  split; [|by vm_compute]. apply vs_device. right. apply (finish_enabled run3 0 [] [] 0 true 1 2 255); [done| |exact run3_buf|by vm_compute].
  split; try by vm_compute.
  - by repeat constructor; vm_compute.
  - by apply (bool_decide_eq_true_1 (NoDup [0; 1; 2]%nat)).
Qed.

Lemma run5_step : during qemu 0 run4 run5.
Proof. split; [|by vm_compute]. apply vs_intr, out_eq. by vm_compute. Qed.

Lemma run6_step : during qemu 0 run5 run6.
Proof. split; [|by vm_compute]. eapply (vs_check _ _ _ O O true [0; 1; 2]%nat sevens); [by vm_compute|]. apply out_eq. by vm_compute. Qed.


Lemma virtio_disk_frame_witness : blk run3 5 = blk run2 5 \/ exists t b want, op_of run2 t = Some (b, true, 5, want) /\ blk run3 5 = want.
Proof. apply (virtio_disk_frame qemu (fun _ _ H => H) (fun _ => 0) run2 run3 5 run2_reach). apply run3_step. Defined.


Lemma virtio_completes_witness : exists s' b w want, rtc (vstep qemu) run2 s' /\ vprocs s' O = Returned b w want.
Proof. apply (virtio_completes qemu (fun _ => 0) run2 O); [by split|apply run2_reach|by rewrite run2_proc]. Defined.
