(* ===== verification/Umalloc.v ===== *)
(** * user/umalloc.c

    The allocator of user programs.  Headers of 16 bytes, a pointer and a 32-bit
    size in units of headers, lie in the memory of the process; the free blocks
    are a circular list in the order of their addresses.  [sbrk] is an
    argument: the system call.  The loops carry fuel, since the C has no bound. *)
From S2P Require Import Prelude Mem.

(** The memory of the process, its end, and the static variable [freep]. *)
Record heap : Type := Heap { hmem : memory; brk : Z; freep : Z }.
Definition set_hmem x s := Heap x (brk s) (freep s).
Definition set_freep x s := Heap (hmem s) (brk s) x.

(** [sizeof(Header)], the fields, and pointer arithmetic on headers. *)
Definition HSIZE : Z := 16.
Definition h_ptr (p : Z) : M heap Z := gets (fun s => ld64 (hmem s) p).
Definition h_size (p : Z) : M heap Z := gets (fun s => ld32 (hmem s) (p + 8)).
Definition set_ptr (p v : Z) : M heap unit := modify (fun s => set_hmem (st64 (hmem s) p v) s).
Definition set_size (p v : Z) : M heap unit := modify (fun s => set_hmem (st32 (hmem s) (p + 8) (u32 v)) s).
Definition units (p n : Z) : Z := u64 (p + n * HSIZE).

Section Umalloc.
(** [base] is the address of the static header. *)
Context (base : Z) (sbrk : Z -> M heap Z) (fuel : nat).

(** The loop of [free]: where the block at [bp] belongs. *)
Fixpoint find_place (k : nat) (bp p : Z) : M heap Z :=
  match k with
  | O => diverge
  | S k' =>
      n <- h_ptr p;;
      if (bp >? p) && (bp <? n) then ret p
      else if (p >=? n) && ((bp >? p) || (bp <? n)) then ret p
      else find_place k' bp n
  end.

(** Joining the block at [bp] to its upper neighbour [n], and to its lower
    neighbour [p]. *)
Definition join_next (bp n sz : Z) : M heap unit :=
  if units bp sz =? n then
    nsz <- h_size n;;
    set_size bp (sz + nsz);;
    nn <- h_ptr n;;
    set_ptr bp nn
  else set_ptr bp n.
Definition join_prev (p bp psz : Z) : M heap unit :=
  if units p psz =? bp then
    sz <- h_size bp;;
    set_size p (psz + sz);;
    bn <- h_ptr bp;;
    set_ptr p bn
  else set_ptr p bp.

Definition free (ap : Z) : M heap unit :=
  let bp := units ap (-1) in
  f <- gets freep;;
  p <- find_place fuel bp f;;
  n <- h_ptr p;;
  sz <- h_size bp;;
  join_next bp n sz;;
  psz <- h_size p;;
  join_prev p bp psz;;
  modify (set_freep p).

(** [sbrk] takes an [int]; its error value is the pointer -1. *)
Definition morecore (nu : Z) : M heap Z :=
  let nu := if nu <? 4096 then 4096 else nu in
  p <- sbrk (s32 (nu * HSIZE));;
  if p =? u64 (-1) then ret 0 else
  set_size p nu;;
  free (units p 1);;
  gets freep.

Definition nunits (nbytes : Z) : Z := u32 ((nbytes + HSIZE - 1) / HSIZE + 1).

(** Taking [n] units from the block at [p]. *)
Definition take_units (n prevp p sz : Z) : M heap Z :=
  r <- (if sz =? n then
          q <- h_ptr p;;
          set_ptr prevp q;;
          ret p
        else
          set_size p (sz - n);;
          sz <- h_size p;;
          let p := units p sz in
          set_size p n;;
          ret p);;
  modify (set_freep prevp);;
  ret (units r 1).

Fixpoint malloc_loop (k : nat) (n prevp p : Z) : M heap Z :=
  match k with
  | O => diverge
  | S k' =>
      sz <- h_size p;;
      if sz >=? n then
        take_units n prevp p sz
      else
        f <- gets freep;;
        if p =? f then
          p <- morecore n;;
          if p =? 0 then ret 0 else q <- h_ptr p;; malloc_loop k' n p q
        else q <- h_ptr p;; malloc_loop k' n p q
  end.

Definition malloc (nbytes : Z) : M heap Z :=
  let n := nunits nbytes in
  f <- gets freep;;
  (if f =? 0 then
     modify (set_freep base);;
     set_ptr base base;;
     set_size base 0
   else ret tt);;
  prevp <- gets freep;;
  p <- h_ptr prevp;;
  malloc_loop fuel n prevp p.
End Umalloc.
