(* ===== verification/UmallocProofs.v ===== *)
(** * malloc and free are correct

    The circular list of free blocks as a list in the order of addresses; every
    call returns, blocks in use never overlap and are never touched. *)
From S2P Require Import Prelude Mem Umalloc.

(** A block: the address of its header, and its size in units. *)
Local Notation block := (Z * Z)%type.
Implicit Types (l fl al : list block) (m : memory).

(** ** Blocks *)

Definition apart (x y : block) : Prop := x.1 + 16 * x.2 <= y.1 \/ y.1 + 16 * y.2 <= x.1.

Lemma apart_sym x y : apart x y -> apart y x.
Proof. unfold apart. lia. Qed.

(** In the order of addresses, with gaps, from [lo] on.  The static header has
    size 0 and takes 16 bytes too. *)
Definition reach (x : block) : Z := x.1 + Z.max 15 (16 * x.2).
Fixpoint spaced (lo : Z) l : Prop :=
  match l with
  | [] => True
  | x :: l' => lo < x.1 /\ spaced (reach x) l'
  end.

Lemma spaced_app lo l1 l2 : spaced lo (l1 ++ l2) <-> spaced lo l1 /\ spaced (default lo (reach <$> last l1)) l2.
Proof.
  revert lo. induction l1 as [|x l1 IH]; intros lo; [cbn; tauto|]. cbn [app spaced]. rewrite IH. rewrite last_cons. destruct (last l1); cbn; tauto.
Qed.

Lemma spaced_mono lo lo' l : lo' <= lo -> spaced lo l -> spaced lo' l.
Proof. destruct l as [|x l]; cbn; [done|]. intros ? [? ?]. split; [lia|done]. Qed.

Lemma spaced_in lo l x : spaced lo l -> x ∈ l -> lo < x.1.
Proof.
  revert lo. induction l as [|y l IH]; intros lo Hs Hx; [by apply not_elem_of_nil in Hx|]. destruct Hs as [H1 H2].
  apply elem_of_cons in Hx as [->|Hx]; [done|]. pose proof (IH _ H2 Hx). unfold reach in *. lia.
Qed.

Lemma spaced_length lo hi l : spaced lo l -> (forall x, x ∈ l -> reach x < hi) -> lo < hi -> 16 * Z.of_nat (length l) < hi - lo.
Proof.
  revert lo. induction l as [|x l IH]; intros lo Hs Hh Hle; cbn [length]; [lia|]. destruct Hs as [H1 H2].
  pose proof (Hh x ltac:(left)). specialize (IH _ H2 ltac:(intros y Hy; apply Hh; by right) ltac:(lia)). unfold reach in *. lia.
Qed.

(** ** The list in memory *)

Definition haddr (z : Z) l : Z := match l with [] => z | x :: _ => x.1 end.

Fixpoint linked m l (z : Z) : Prop :=
  match l with
  | [] => True
  | x :: l' => ld64 m x.1 = haddr z l' /\ ld32 m (x.1 + 8) = x.2 /\ linked m l' z
  end.

Lemma linked_app m l1 l2 z : linked m (l1 ++ l2) z <-> linked m l1 (haddr z l2) /\ linked m l2 z.
Proof.
  induction l1 as [|x l1 IH]; cbn [app linked]; [tauto|]. rewrite IH. assert (haddr z (l1 ++ l2) = haddr (haddr z l2) l1) as -> by (by destruct l1). tauto.
Qed.

Lemma linked_frame m m' l z : linked m l z -> (forall x, x ∈ l -> ld64 m' x.1 = ld64 m x.1 /\ ld32 m' (x.1 + 8) = ld32 m (x.1 + 8)) -> linked m' l z.
Proof.
  induction l as [|x l IH]; cbn; [done|]. intros (H1 & H2 & H3) Hf. destruct (Hf x ltac:(left)) as [-> ->]. split; [done|]. split; [done|].
  apply IH; [done|]. intros y Hy. apply Hf. by right.
Qed.

(** Accesses to different headers. *)
Lemma ld64_st64_apart m a b v : b + 8 <= a \/ a + 8 <= b -> ld64 (st64 m a v) b = ld64 m b.
Proof. intros. by apply ld64_st64_ne. Qed.
Lemma ld32_st64_apart m a b v : b + 4 <= a \/ a + 8 <= b -> ld32 (st64 m a v) b = ld32 m b.
Proof. intros. apply ldn_stn_ne. lia. Qed.
Lemma ld64_st32_apart m a b v : b + 8 <= a \/ a + 4 <= b -> ld64 (st32 m a v) b = ld64 m b.
Proof. intros. apply ldn_stn_ne. lia. Qed.
Lemma ld32_st32_apart m a b v : b + 4 <= a \/ a + 4 <= b -> ld32 (st32 m a v) b = ld32 m b.
Proof. intros. apply ldn_stn_ne. lia. Qed.
Lemma ld32_st32_same m a v : 0 <= v < 2 ^ 32 -> ld32 (st32 m a v) a = v.
Proof. intros. unfold ld32, st32. rewrite ldn_stn_eq. by apply Z.mod_small. Qed.
Lemma st32_frame m a v x : x < a \/ a + 4 <= x -> ld8 (st32 m a v) x = ld8 m x.
Proof. intros. apply stn_frame. lia. Qed.

(** Memories that differ at one header only. *)
Definition only_at (a : Z) m m' : Prop := forall x, x < a \/ a + 16 <= x -> ld8 m' x = ld8 m x.

Lemma only_at_refl a m : only_at a m m.
Proof. done. Qed.
Lemma only_at_ptr a m v : only_at a m (st64 m a v).
Proof. intros x Hx. apply st64_frame. lia. Qed.
Lemma only_at_size a m v : only_at a m (st32 m (a + 8) v).
Proof. intros x Hx. apply st32_frame. lia. Qed.
Lemma only_at_trans a m1 m2 m3 : only_at a m1 m2 -> only_at a m2 m3 -> only_at a m1 m3.
Proof. intros H1 H2 x Hx. by rewrite H2, H1. Qed.

Lemma only_at_hdr a m m' x : only_at a m m' -> x + 16 <= a \/ a + 16 <= x -> ld64 m' x = ld64 m x /\ ld32 m' (x + 8) = ld32 m (x + 8).
Proof. intros H Hx. split; apply ldn_agree; intros y Hy; symmetry; rewrite <- (H y); try done; lia. Qed.

Lemma linked_only a m m' l z : only_at a m m' -> (forall x, x ∈ l -> x.1 + 16 <= a \/ a + 16 <= x.1) -> linked m l z -> linked m' l z.
Proof. intros Ho Hx Hl. eapply linked_frame; [exact Hl|]. intros x Hin. by eapply only_at_hdr, Hx. Qed.

(** ** The place of a block *)

(** The units in a list of blocks. *)
Fixpoint total l : Z :=
  match l with
  | [] => 0
  | x :: l' => x.2 + total l'
  end.

Lemma total_app l1 l2 : total (l1 ++ l2) = total l1 + total l2.
Proof. induction l1 as [|x l1 IH]; cbn [app total]; [lia|]. rewrite IH. lia. Qed.

Section Umalloc.
Context (base : Z).
Notation circle fl := ((base, 0) :: fl).

Lemma spaced_order lo l l1 x l2 y : l = l1 ++ x :: l2 -> spaced lo l -> y ∈ l2 -> reach x < y.1.
Proof. intros -> Hs Hy. apply spaced_app in Hs as [_ [_ Hs]]. by eapply spaced_in. Qed.

(** The blocks below [bp], the last of them [q], and those above. *)
Record place fl (bp : Z) (l1 : list block) (q : block) (l2 : list block) : Prop := Place {
  pl_eq : circle fl = l1 ++ q :: l2;
  pl_below : forall x, x ∈ l1 ++ [q] -> x.1 < bp;
  pl_above : forall x, x ∈ l2 -> bp < x.1 }.

Lemma split_at bp l : forall lo x0, spaced lo l -> x0.1 < bp -> (forall x, x ∈ l -> x.1 <> bp) ->
  exists l1 q l2, x0 :: l = l1 ++ q :: l2 /\ (forall x, x ∈ l1 ++ [q] -> x.1 < bp) /\ (forall x, x ∈ l2 -> bp < x.1).
Proof.
  induction l as [|y l IH]; intros lo x0 Hs H0 Hne.
  - exists [], x0, []. split; [done|]. split; intros x Hx; [by apply list_elem_of_singleton in Hx as ->|by apply not_elem_of_nil in Hx].
  - destruct Hs as [H1 H3]. pose proof (Hne y ltac:(left)) as Hy. destruct (Z.lt_ge_cases y.1 bp) as [Hlt|Hge].
    + destruct (IH _ y H3 Hlt) as (l1 & q & l2 & E & Hlo & Hhi); [intros x Hx; apply Hne; by right|]. exists (x0 :: l1), q, l2. cbn. rewrite E. split; [done|].
      split; [|done]. intros x [->|Hx]%elem_of_cons; [done|by apply Hlo].
    + exists [], x0, (y :: l). split; [done|]. split; intros x Hx; [by apply list_elem_of_singleton in Hx as ->|].
      apply elem_of_cons in Hx as [->|Hx]; [lia|]. pose proof (spaced_in _ _ _ H3 Hx). unfold reach in *. lia.
Qed.

Lemma place_exists fl bp : spaced (base - 1) (circle fl) -> base < bp -> (forall x, x ∈ fl -> x.1 <> bp) -> exists l1 q l2, place fl bp l1 q l2.
Proof. intros [_ Hs] Hb Hne. destruct (split_at bp fl _ (base, 0) Hs Hb Hne) as (l1 & q & l2 & E & H1 & H2). by exists l1, q, l2. Qed.

Section Find.
Context (fl : list block) (s : heap) (bp : Z) (Hl : linked (hmem s) (circle fl) base) (Hs : spaced (base - 1) (circle fl)) (Hbp : base < bp).

Lemma find_forward mid : forall k l1 x l2, circle fl = l1 ++ x :: mid ++ l2 -> (forall y, y ∈ x :: mid -> y.1 < bp) -> (forall y, y ∈ l2 -> bp < y.1) -> (length mid < k)%nat ->
  wp (find_place k bp x.1) s (fun r s' => s' = s /\ Some r = fst <$> last (x :: mid)).
Proof using Hl Hs Hbp.
  induction mid as [|y mid IH]; intros [|k] l1 x l2 E Hlo Hhi Hk; cbn [length] in Hk; try lia; cbn [find_place]; apply wp_bind, wp_gets;
    pose proof (Hlo x ltac:(left)) as Hx; pose proof Hl as Hlx; rewrite E in Hlx; apply linked_app in Hlx as [_ (Hn & _)]; rewrite Hn.
  - cbn [app]. rewrite Z.gtb_ltb, (proj2 (Z.ltb_lt _ _) Hx). cbn [andb orb]. destruct l2 as [|z l2]; cbn [haddr].
    + rewrite (proj2 (Z.ltb_ge _ _)) by lia. rewrite Z.geb_leb, (proj2 (Z.leb_le _ _)); [by apply wp_ret|].
      pose proof (spaced_in _ _ x Hs ltac:(rewrite E; set_solver)). lia.
    + rewrite (proj2 (Z.ltb_lt _ _)) by (apply Hhi; left). by apply wp_ret.
  - cbn [app haddr]. pose proof (Hlo y ltac:(right; left)) as Hy. rewrite (proj2 (Z.ltb_ge bp y.1)) by lia. rewrite andb_false_r.
    pose proof (spaced_order _ _ l1 x (y :: mid ++ l2) y E Hs ltac:(left)) as Hxy. unfold reach in Hxy.
    rewrite Z.geb_leb, (proj2 (Z.leb_gt _ _)) by lia. cbn [andb]. eapply wp_mono; [apply (IH k (l1 ++ [x]) y l2)|].
    + by rewrite <- app_assoc.
    + intros z Hz. apply Hlo. by right.
    + done.
    + lia.
    + intros r s' [-> Hr]. split; [done|]. by rewrite Hr.
Qed.

Lemma find_wrap l2 : forall k l1 x Q, circle fl = l1 ++ x :: l2 -> bp < x.1 -> wp (find_place k bp base) s Q -> wp (find_place (S (length l2) + k) bp x.1) s Q.
Proof using Hl Hs Hbp.
  induction l2 as [|y l2 IH]; intros k l1 x Q E Hx HQ; cbn [length Nat.add find_place]; apply wp_bind, wp_gets;
    pose proof Hl as Hlx; rewrite E in Hlx; apply linked_app in Hlx as [_ (Hn & _)]; rewrite Hn; cbn [haddr];
    rewrite Z.gtb_ltb, (proj2 (Z.ltb_ge x.1 bp)) by lia; cbn [andb orb].
  - rewrite (proj2 (Z.ltb_ge bp base)) by lia. by rewrite andb_false_r.
  - pose proof (spaced_order _ _ l1 x (y :: l2) y E Hs ltac:(left)) as Hxy. unfold reach in Hxy. rewrite Z.geb_leb, (proj2 (Z.leb_gt _ _)) by lia. cbn [andb].
    apply (IH k (l1 ++ [x])); [by rewrite <- app_assoc|lia|done].
Qed.

Lemma wp_find_place k l1 q l2 x :
  place fl bp l1 q l2 -> x ∈ circle fl -> (2 * length fl + 2 <= k)%nat -> wp (find_place k bp x.1) s (fun r s' => s' = s /\ r = q.1).
Proof using Hl Hs Hbp.
  intros [E Hlo Hhi] Hx Hk.
  assert (Hfw : forall k n1 y mid, l1 ++ [q] = n1 ++ y :: mid -> (length fl < k)%nat -> wp (find_place k bp y.1) s (fun r s' => s' = s /\ r = q.1)).
  { intros k' n1 y mid E1 Hk'. assert (circle fl = n1 ++ y :: mid ++ l2) as E2 by (rewrite E, (cons_middle q), app_assoc, E1, <- app_assoc; done).
    eapply wp_mono; [eapply (find_forward mid k' n1 y l2); [done| |done|]|].
    - intros z Hz. apply Hlo. rewrite E1. set_solver.
    - apply (f_equal length) in E2. cbn in E2. rewrite !length_app in E2. cbn in E2. rewrite length_app in E2. lia.
    - intros r s' [-> Hr]. split; [done|]. assert (last (l1 ++ [q]) = last (y :: mid)) as El by (by rewrite E1, last_app_cons). rewrite last_snoc in El. rewrite <- El in Hr.
      by injection Hr. }
  destruct (decide (x ∈ l1 ++ [q])) as [Hin|Hin].
  - apply list_elem_of_split in Hin as (n1 & mid & E1). by eapply Hfw; [|lia].
  - assert (x ∈ l2) as Hx2 by (rewrite E in Hx; set_solver). apply list_elem_of_split in Hx2 as (n1 & m2 & E2).
    assert (length m2 <= length fl)%nat. { apply (f_equal length) in E. rewrite E2 in E. cbn in E. rewrite !length_app in E. cbn in E. rewrite length_app in E. cbn in E. lia. }
    replace k with (S (length m2) + (k - S (length m2)))%nat by lia. eapply (find_wrap m2 _ (l1 ++ q :: n1) x).
    + by rewrite E, E2, <- app_assoc.
    + apply Hhi. rewrite E2. set_solver.
    + destruct l1 as [|z l1]; cbn in E; injection E as E1 E3.
      * subst q. apply (Hfw _ [] (base, 0) []); [done|lia].
      * subst z. apply (Hfw _ [] (base, 0) (l1 ++ [q])); [done|lia].
Qed.
End Find.

(** ** [free] *)

Lemma units_eq p n : 0 <= p + n * 16 < 2 ^ 64 -> units p n = p + 16 * n.
Proof. intros H. unfold units, HSIZE. rewrite u64_small by lia. lia. Qed.

(** Joining the block at [bp] with the one that follows it. *)
Lemma wp_join_next s bp n l2 Q :
  linked (hmem s) l2 base -> 0 <= base < bp -> 1 <= n -> bp + 16 * n <= 2 ^ 34 -> ld32 (hmem s) (bp + 8) = n ->
  (forall x, x ∈ l2 -> bp + 16 * n <= x.1 /\ 1 <= x.2 /\ x.1 + 16 * x.2 <= 2 ^ 34) ->
  (forall m1 n' l2', only_at bp (hmem s) m1 -> linked m1 ((bp, n') :: l2') base ->
     (n' = n /\ l2' = l2 /\ (forall y, haddr base l2 = y -> y <> bp + 16 * n)) \/ (exists nn, l2 = (bp + 16 * n, nn) :: l2' /\ n' = n + nn) -> Q tt (set_hmem m1 s)) ->
  wp (join_next bp (haddr base l2) n) s Q.
Proof.
  intros Hl Hbase Hn Hb Hsz Hx HQ. unfold join_next. rewrite units_eq by lia. destruct (Z.eqb_spec (bp + 16 * n) (haddr base l2)) as [E|E].
  - destruct l2 as [|[a nn] l2]; cbn in E; [lia|]. subst a. cbn [haddr fst]. destruct Hl as (L1 & L2 & L3). cbn in L1, L2.
    destruct (Hx (bp + 16 * n, nn) ltac:(left)) as (X1 & X2 & X3). cbn in X1, X2, X3.
    apply wp_bind, wp_gets. rewrite L2. apply wp_bind, wp_modify, wp_bind, wp_gets. rewrite u32_small by lia. cbn [hmem set_hmem].
    rewrite ld64_st32_apart, L1 by lia. unfold set_ptr. apply wp_modify. apply (HQ _ (n + nn) l2).
    + eapply only_at_trans; [apply only_at_size|apply only_at_ptr].
    + cbn. split; [apply ld64_st64_eq|split].
      * destruct l2 as [|[y yn] l2]; cbn; [lia|]. destruct (Hx (y, yn)) as (Y1 & Y2 & Y3); [right; left|]. cbn in *. lia.
      * rewrite ld32_st64_apart, ld32_st32_same by lia. done.
      * eapply linked_only; [eapply only_at_trans; [apply only_at_size|apply only_at_ptr]| |exact L3]. intros x Hin. destruct (Hx x ltac:(by right)). lia.
    + right. by exists nn.
  - unfold set_ptr. apply wp_modify. apply (HQ _ n l2); [apply only_at_ptr| |left; by repeat split; intros; congruence].
    cbn. split; [apply ld64_st64_eq|split].
    + destruct l2 as [|[y yn] l2]; cbn; [lia|]. destruct (Hx (y, yn)) as (Y1 & Y2 & Y3); [left|]. cbn in *. lia.
    + by rewrite ld32_st64_apart by lia.
    + eapply linked_only; [apply only_at_ptr| |exact Hl]. intros x Hin. destruct (Hx x Hin). lia.
Qed.

(** Joining it with the one before. *)
Lemma wp_join_prev s bp n l1 q l2 Q :
  linked (hmem s) ((bp, n) :: l2) base -> linked (hmem s) l1 q.1 -> ld32 (hmem s) (q.1 + 8) = q.2 -> 0 <= q.1 -> 0 <= q.2 -> 1 <= n -> bp + 16 * n <= 2 ^ 34 -> q.1 + 16 <= bp ->
  q.1 + 16 * q.2 <= bp -> 0 <= base < 2 ^ 34 -> (forall x, x ∈ l1 -> x.1 + 16 <= q.1) -> (forall x, x ∈ l2 -> bp + 16 <= x.1 < 2 ^ 34) ->
  (forall m' tail, only_at q.1 (hmem s) m' -> linked m' (l1 ++ tail) base ->
     (q.1 + 16 * q.2 = bp /\ tail = (q.1, q.2 + n) :: l2) \/ (q.1 + 16 * q.2 < bp /\ tail = q :: (bp, n) :: l2) -> Q tt (set_hmem m' s)) ->
  wp (join_prev q.1 bp q.2) s Q.
Proof.
  intros (L1 & L2 & L3) Hl1 Hq Hq0 Hq2 Hn Hb Hqb Hqe Hbase H1 H2 HQ. cbn in L1, L2. unfold join_prev. rewrite units_eq by lia.
  assert (Hnext : 0 <= haddr base l2 < 2 ^ 64) by (destruct l2 as [|x l2]; cbn; [lia|]; specialize (H2 x ltac:(left)); lia).
  destruct (Z.eqb_spec (q.1 + 16 * q.2) bp) as [E|E].
  - apply wp_bind, wp_gets. rewrite L2. apply wp_bind, wp_modify, wp_bind, wp_gets. rewrite u32_small by lia. cbn [hmem set_hmem].
    rewrite ld64_st32_apart, L1 by lia. unfold set_ptr. apply wp_modify.
    assert (Ho : only_at q.1 (hmem s) (st64 (st32 (hmem s) (q.1 + 8) (q.2 + n)) q.1 (haddr base l2))) by (eapply only_at_trans; [apply only_at_size|apply only_at_ptr]).
    eapply HQ; [exact Ho| |left; done]. apply linked_app. split; [eapply linked_only; [exact Ho| |exact Hl1]; intros x Hx; left; by apply H1|]. cbn.
    split; [by rewrite ld64_st64_eq|]. split; [by rewrite ld32_st64_apart, ld32_st32_same by lia|]. eapply linked_only; [exact Ho| |exact L3]. intros x Hx. specialize (H2 x Hx). lia.
  - unfold set_ptr. apply wp_modify. assert (Ho : only_at q.1 (hmem s) (st64 (hmem s) q.1 bp)) by apply only_at_ptr.
    eapply HQ; [exact Ho| |right; split; [lia|done]]. apply linked_app. split; [eapply linked_only; [exact Ho| |exact Hl1]; intros x Hx; left; by apply H1|].
    split; [cbn; rewrite ld64_st64_eq by lia; done|]. split; [by rewrite ld32_st64_apart by lia|].
    eapply linked_only; [exact Ho| |by split]. intros x [->|Hx]%elem_of_cons; [cbn; lia|]. specialize (H2 x Hx). lia.
Qed.

Context (limit : Z) (fuel : nat) (Hbase : 0 < base) (Hlimit : base + 16 <= limit <= 2 ^ 32).

Definition within (e : Z) (x : block) : Prop := base + 16 <= x.1 /\ 1 <= x.2 /\ x.1 + 16 * x.2 <= e.

Record list_ok fl (s : heap) : Prop := ListOk {
  lo_linked : linked (hmem s) (circle fl) base;
  lo_spaced : spaced (base - 1) (circle fl);
  lo_free : exists x, x ∈ circle fl /\ freep s = x.1;
  lo_in : forall x, x ∈ fl -> within (brk s) x;
  lo_brk : base + 16 <= brk s <= limit }.

(** [bp], of [n] units, joined with the next block or not. *)
Definition joined (bp n : Z) l2 (n' : Z) l2' : Prop :=
  (n' = n /\ l2' = l2 /\ (forall y, haddr base l2 = y -> y <> bp + 16 * n)) \/ (exists nn, l2 = (bp + 16 * n, nn) :: l2' /\ n' = n + nn).

Lemma joined_facts e lo bp n l2 n' l2' :
  joined bp n l2 n' l2' -> spaced lo l2 -> within e (bp, n) -> (forall x, x ∈ l2 -> bp + 16 * n <= x.1 /\ within e x) ->
  spaced (bp + 16 * n') l2' /\ (forall x, x ∈ l2' -> x ∈ l2) /\ within e (bp, n') /\ n <= n' /\ n' + total l2' = n + total l2 /\
  (forall y, 1 <= y.2 -> apart (bp, n) y -> (forall x, x ∈ l2 -> apart x y) -> apart (bp, n') y).
Proof.
  intros [(-> & -> & Hne)|(nn & -> & ->)] Hs Hw H2.
  - split; [|split; [done|split; [done|split; [done|split; [done|done]]]]]. destruct l2 as [|x l2]; [done|]. destruct Hs as [_ Hs].
    destruct (H2 x ltac:(left)) as [H3 _]. specialize (Hne x.1 eq_refl). split; [lia|done].
  - destruct (H2 (bp + 16 * n, nn) ltac:(left)) as [_ (W1 & W2 & W3)]. destruct Hw as (X1 & X2 & X3). destruct Hs as [_ Hs]. cbn in *. split.
    { eapply spaced_mono; [|exact Hs]. unfold reach. cbn. lia. }
    split; [intros x Hx; by right|]. split; [repeat split; cbn; lia|]. split; [lia|]. split; [lia|].
    intros y Hy A1 A2. specialize (A2 (bp + 16 * n, nn) ltac:(left)). unfold apart in *. cbn in *. lia.
Qed.

(** The list after the block has been put in its place. *)
Lemma inserted e fl bp n l1 q l2 n' l2' tail :
  place fl bp l1 q l2 -> spaced (base - 1) (circle fl) -> within e (bp, n) -> (forall x, x ∈ fl -> within e x /\ apart x (bp, n)) -> joined bp n l2 n' l2' ->
  (q.1 + 16 * q.2 = bp /\ tail = (q.1, q.2 + n') :: l2') \/ (q.1 + 16 * q.2 < bp /\ tail = q :: (bp, n') :: l2') ->
  exists fl', l1 ++ tail = circle fl' /\ spaced (base - 1) (circle fl') /\ (forall x, x ∈ fl' -> within e x) /\ (exists x, x ∈ fl' /\ n <= x.2) /\ total fl' = total fl + n /\
    (forall y, 1 <= y.2 -> apart (bp, n) y -> (forall x, x ∈ fl -> apart x y) -> forall x, x ∈ fl' -> apart x y) /\ (exists x, x ∈ circle fl' /\ x.1 = q.1).
Proof.
  intros [E Hlo Hhi] Hs Hw Hfl HJ Ht. pose proof Hs as Hs0. rewrite E in Hs. apply spaced_app in Hs as [S1 [S2 S3]].
  assert (Hin : forall x, x ∈ l2 -> x ∈ fl).
  { intros x Hx. assert (x ∈ circle fl) as Hc by (rewrite E; set_solver). apply elem_of_cons in Hc as [->|Hc]; [|done]. specialize (Hhi _ Hx). destruct Hw. cbn in *. lia. }
  destruct (joined_facts e _ bp n l2 n' l2' HJ S3 Hw) as (J1 & J2 & J3 & J4 & J5 & J6).
  { intros x Hx. destruct (Hfl x (Hin x Hx)) as [W A]. split; [|done]. specialize (Hhi _ Hx). destruct W as (? & ? & ?). unfold apart in A. cbn in A. lia. }
  destruct J3 as (W1 & W2 & W3). cbn in W1, W2, W3.
  assert (Hq : q.1 + 16 <= bp /\ 0 <= q.2 /\ (q = (base, 0) \/ q ∈ fl)).
  { assert (q ∈ circle fl) as Hc by (rewrite E; set_solver). apply elem_of_cons in Hc as [->|Hc]; [cbn; destruct Hw; cbn in *; split; [lia|]; by split; [|left]|].
    destruct (Hfl q Hc) as [(? & ? & ?) A]. pose proof (Hlo q ltac:(set_solver)). unfold apart in A. cbn in A. split; [lia|]. split; [lia|by right]. }
  destruct Hq as (Q1 & Q2 & Q3).
  assert (Htail : spaced (default (base - 1) (reach <$> last l1)) tail /\ total tail = q.2 + total l2 + n /\ (exists x, x ∈ tail /\ n <= x.2) /\
    (forall x, x ∈ tail -> x = q \/ (within e x /\ forall y, 1 <= y.2 -> apart (bp, n) y -> (forall z, z ∈ fl -> apart z y) -> apart x y))).
  { destruct Ht as [[Hj ->]|[Hj ->]].
    - assert (q ∈ fl) as Hqf by (destruct Q3 as [->|]; [cbn in Hj; lia|done]). destruct (Hfl q Hqf) as [(X1 & X2 & X3) A]. split.
      { split; [done|]. eapply spaced_mono; [|exact J1]. unfold reach. cbn. lia. }
      split; [cbn; lia|]. split; [eexists; split; [left|cbn; lia]|]. intros x [->|Hx]%elem_of_cons; right.
      + split; [repeat split; cbn; lia|]. intros y Hy A1 A2. pose proof (J6 y Hy A1 ltac:(intros z Hz; by apply A2, Hin)) as A3. specialize (A2 q Hqf). unfold apart in *. cbn in *. lia.
      + split; [apply Hfl, Hin, J2, Hx|]. intros y _ _ A2. apply A2, Hin, J2, Hx.
    - split.
      { split; [done|]. split; [unfold reach; cbn; lia|]. eapply spaced_mono; [|exact J1]. unfold reach. cbn. lia. }
      split; [cbn; lia|]. split; [exists (bp, n'); split; [right; left|done]|]. intros x [->|[->|Hx]%elem_of_cons]%elem_of_cons; [by left| |]; right.
      + split; [by repeat split|]. intros y Hy A1 A2. apply J6; [done|done|]. intros z Hz. by apply A2, Hin.
      + split; [apply Hfl, Hin, J2, Hx|]. intros y _ _ A2. apply A2, Hin, J2, Hx. }
  destruct Htail as (T1 & T2 & T3 & T4). assert (Hsp : spaced (base - 1) (l1 ++ tail)) by (apply spaced_app; done).
  assert (Hq1 : exists x, x ∈ l1 ++ tail /\ x.1 = q.1).
  { destruct Ht as [[_ ->]|[_ ->]]; eexists; (split; [apply elem_of_app; right; left|done]). }
  destruct l1 as [|b0 l1]; cbn in E; injection E as E1 E2.
  - subst q. destruct Ht as [[Hj _]|[_ ->]]; [cbn in Hj; lia|]. subst l2. exists ((bp, n') :: l2'). split; [done|]. split; [done|]. split; [|split; [|split; [|split; [|done]]]].
    + intros x Hx. destruct (T4 x ltac:(by right)) as [->|[Hx' _]]; [|done]. exfalso. apply elem_of_cons in Hx as [Hx|Hx]; [injection Hx; lia|].
      destruct (Hfl _ (J2 _ Hx)) as [(? & ? & ?) _]. cbn in *. lia.
    + exists (bp, n'). split; [left|done].
    + cbn in T2 |- *. lia.
    + intros y Hy A1 A2 x Hx. destruct (T4 x ltac:(by right)) as [->|[_ Hx']]; [|by apply Hx']. exfalso. apply elem_of_cons in Hx as [Hx|Hx]; [injection Hx; lia|].
      destruct (Hfl _ (J2 _ Hx)) as [(? & ? & ?) _]. cbn in *. lia.
  - subst b0. assert (q ∈ fl) as Hqf by (rewrite E2; set_solver). exists (l1 ++ tail). split; [done|]. split; [done|]. split; [|split; [|split; [|split; [|done]]]].
    + intros x [Hx|Hx]%elem_of_app; [apply Hfl; rewrite E2; set_solver|]. destruct (T4 x Hx) as [->|[Hx' _]]; [by apply Hfl|done].
    + destruct T3 as (x & Hx & Hn). exists x. split; [set_solver|done].
    + rewrite E2, !total_app. cbn [total]. lia.
    + intros y Hy A1 A2 x [Hx|Hx]%elem_of_app; [apply A2; rewrite E2; set_solver|]. destruct (T4 x Hx) as [->|[_ Hx']]; [by apply A2|by apply Hx'].
Qed.

(** Bytes that are in no header of the list. *)
Definition outside fl (a : Z) : Prop := forall x, x ∈ circle fl -> a < x.1 \/ x.1 + 16 <= a.

Lemma wp_free fl s bp n Q :
  list_ok fl s -> within (brk s) (bp, n) -> ld32 (hmem s) (bp + 8) = n -> (forall x, x ∈ fl -> apart x (bp, n)) -> (2 * length fl + 2 <= fuel)%nat ->
  (forall fl' s', list_ok fl' s' -> brk s' = brk s -> total fl' = total fl + n -> (exists x, x ∈ fl' /\ n <= x.2) ->
     (forall y, 1 <= y.2 -> apart (bp, n) y -> (forall x, x ∈ fl -> apart x y) -> forall x, x ∈ fl' -> apart x y) ->
     (forall a, outside fl a -> a < bp \/ bp + 16 <= a -> ld8 (hmem s') a = ld8 (hmem s) a) -> Q tt s') ->
  wp (free fuel (bp + 16)) s Q.
Proof using Hbase Hlimit.
  intros [Hl Hs (x0 & Hx0 & Hf) Hin Hbrk] Hw Hsz Hap Hfuel HQ. pose proof Hw as (W1 & W2 & W3). cbn in W1, W2, W3.
  unfold free. replace (units (bp + 16) (-1)) with bp by (rewrite units_eq; lia). apply wp_bind, wp_gets. rewrite Hf.
  destruct (place_exists fl bp) as (l1 & q & l2 & HP); [done|lia| |].
  { intros x Hx Ex. destruct (Hin x Hx) as (? & ? & ?). specialize (Hap x Hx). unfold apart in Hap. cbn in Hap. lia. }
  apply wp_bind. eapply wp_mono; [eapply (wp_find_place fl s bp Hl Hs); [lia|exact HP|exact Hx0|exact Hfuel]|]. intros r s' [-> ->].
  pose proof HP as [E Hlo Hhi]. pose proof Hl as Hl'. rewrite E in Hl'. apply linked_app in Hl' as [L1 (Lq & Lqs & L2)].
  assert (Hin2 : forall x, x ∈ l2 -> bp + 16 * n <= x.1 /\ within (brk s) x).
  { intros x Hx. specialize (Hhi x Hx). assert (x ∈ circle fl) as Hc by (rewrite E; set_solver). apply elem_of_cons in Hc as [->|Hc]; [cbn in Hhi; lia|].
    specialize (Hap x Hc). destruct (Hin x Hc) as (? & ? & ?). unfold apart in Hap. cbn in Hap. split; [lia|done]. }
  assert (Hq : base <= q.1 /\ q.1 + 16 <= bp /\ 0 <= q.2 /\ q.1 + 16 * q.2 <= bp).
  { pose proof (Hlo q ltac:(set_solver)) as Hqb. assert (q ∈ circle fl) as Hc by (rewrite E; set_solver). apply elem_of_cons in Hc as [->|Hc]; [cbn; lia|].
    specialize (Hap q Hc). destruct (Hin q Hc) as (? & ? & ?). unfold apart in Hap. cbn in Hap. lia. }
  destruct Hq as (Q0 & Q1 & Q2 & Q3).
  assert (H1 : forall x, x ∈ l1 -> x.1 + 16 <= q.1).
  { intros x Hx. apply list_elem_of_split in Hx as (k1 & k2 & ->). pose proof (spaced_order (base - 1) (circle fl) k1 x (k2 ++ q :: l2) q ltac:(by rewrite E, <- app_assoc) Hs ltac:(set_solver)) as Ho.
    unfold reach in Ho. lia. }
  apply wp_bind, wp_gets. rewrite Lq. apply wp_bind, wp_gets. rewrite Hsz.
  apply wp_bind, wp_join_next; [done|lia|done|lia|done|intros x Hx; destruct (Hin2 x Hx) as [? (? & ? & ?)]; lia|].
  intros m1 n' l2' Ho1 Hl2 HJ. apply wp_bind, wp_gets. cbn [hmem set_hmem].
  destruct (joined_facts (brk s) _ bp n l2 n' l2' HJ ltac:(rewrite E in Hs; apply spaced_app in Hs as [_ [_ Hs]]; exact Hs) Hw Hin2) as (_ & J2 & (_ & J3 & J4) & _). cbn in J3, J4.
  assert (Lq1 : ld32 m1 (q.1 + 8) = q.2) by (rewrite <- Lqs; apply (only_at_hdr bp _ _ q.1 Ho1); lia). rewrite Lq1.
  apply wp_bind, (wp_join_prev _ bp n' l1 q l2'); cbn [hmem set_hmem]; try done; try lia.
  { eapply linked_only; [exact Ho1| |exact L1]. intros x Hx. specialize (H1 x Hx). lia. }
  { intros x Hx. destruct (Hin2 x (J2 x Hx)) as [? (? & ? & ?)]. destruct (Hin2 x (J2 x Hx)). lia. }
  intros m2 tail Ho2 Hl3 Ht. apply wp_modify.
  destruct (inserted (brk s) fl bp n l1 q l2 n' l2' tail HP Hs Hw ltac:(intros x Hx; split; [by apply Hin|by apply Hap]) HJ Ht) as (fl' & E' & I1 & I2 & I3 & I4 & I5 & I6).
  apply (HQ fl'); try done.
  - split; [by rewrite <- E'|done| |done|done]. destruct I6 as (x & Hx & Ex). by exists x.
  - intros a Ha Hab. cbn. rewrite (Ho2 a); [by apply Ho1|]. apply Ha. rewrite E. set_solver.
Qed.

(** ** [malloc] *)

(** The block [b] of [n] units has been taken out of the free list. *)
Record took fl s (b n : Z) fl' s' : Prop := Took {
  tk_ok : list_ok fl' s';
  tk_brk : brk s' = brk s;
  tk_in : within (brk s) (b, n);
  tk_hdr : ld32 (hmem s') (b + 8) = n;
  tk_apart : forall x, x ∈ fl' -> apart x (b, n);
  tk_others : forall y, 1 <= y.2 -> (forall x, x ∈ fl -> apart x y) -> apart (b, n) y /\ forall x, x ∈ fl' -> apart x y;
  tk_total : total fl = total fl' + n;
  tk_frame : forall a, outside fl a -> a < b \/ b + 16 <= a -> ld8 (hmem s') a = ld8 (hmem s) a }.

Lemma circle_fl fl l1 x l2 : circle fl = l1 ++ x :: l2 -> l1 <> [] -> exists l1', l1 = (base, 0) :: l1' /\ fl = l1' ++ x :: l2.
Proof. intros E Hne. destruct l1 as [|y l1]; [done|]. cbn in E. injection E as <- ->. eauto. Qed.

(** A block of exactly the size is unlinked. *)
Lemma took_whole fl s l1 pr x l2 :
  list_ok fl s -> circle fl = (l1 ++ [pr]) ++ x :: l2 ->
  exists fl', took fl s x.1 x.2 fl' (set_freep pr.1 (set_hmem (st64 (hmem s) pr.1 (haddr base l2)) s)).
Proof using Hbase Hlimit.
  intros [Hl Hs Hf Hin Hbrk] E. destruct (circle_fl _ _ _ _ E) as (l1' & E1 & E2); [by destruct l1|].
  pose proof Hs as Hs'. rewrite E in Hs'. apply spaced_app in Hs' as [S1 [S2 S3]]. pose proof Hl as Hl'. rewrite E in Hl'. apply linked_app in Hl' as [L1 (Lx & Lxs & L2)].
  apply linked_app in L1 as [L1 (Lp & Lps & _)]. rewrite last_snoc in S2. cbn in S2. pose proof S1 as S1'. apply spaced_app in S1 as [S1 [S4 _]].
  assert (Hx : x ∈ fl) by (rewrite E2; set_solver). pose proof (Hin x Hx) as (W1 & W2 & W3). pose proof (spaced_in _ _ pr S1' ltac:(set_solver)) as Hpr.
  assert (Hnext : 0 <= haddr base l2 < 2 ^ 64).
  { destruct l2 as [|y l2]; cbn; [lia|]. destruct (Hin y) as (? & ? & ?); [rewrite E2; set_solver|]. lia. }
  assert (Ho : only_at pr.1 (hmem s) (st64 (hmem s) pr.1 (haddr base l2))) by apply only_at_ptr.
  assert (Hlow : forall y, y ∈ l1 -> reach y < pr.1).
  { intros y Hy. apply list_elem_of_split in Hy as (k1 & k2 & ->). eapply (spaced_order (base - 1) (circle fl) k1 y (k2 ++ pr :: x :: l2) pr); [|done|set_solver].
    rewrite E. by rewrite <- !app_assoc. }
  assert (Hhigh : forall y, y ∈ l2 -> reach x < y.1) by (intros y Hy; by eapply spaced_in).
  assert (circle (l1' ++ l2) = (l1 ++ [pr]) ++ l2) as E' by (by rewrite E1).
  exists (l1' ++ l2). split; cbn [hmem brk set_freep set_hmem]; try done.
  - split; cbn [hmem brk freep set_freep set_hmem].
    + rewrite E'. apply linked_app. split.
      * apply linked_app. split; [eapply linked_only; [exact Ho| |exact L1]; intros y Hy; specialize (Hlow y Hy); unfold reach in Hlow; lia|].
        split; [by rewrite ld64_st64_eq|]. split; [by rewrite ld32_st64_apart by lia|done].
      * eapply linked_only; [exact Ho| |exact L2]. intros y Hy. specialize (Hhigh y Hy). unfold reach in *. lia.
    + rewrite E'. apply spaced_app. split; [done|]. rewrite last_snoc. cbn. eapply spaced_mono; [|exact S3]. unfold reach in *. lia.
    + exists pr. split; [rewrite E'; set_solver|done].
    + intros y Hy. apply Hin. rewrite E2. set_solver.
    + done.
  - rewrite ld32_st64_apart by (unfold reach in S2; lia). done.
  - intros y Hy. apply elem_of_app in Hy as [Hy|Hy].
    + left. assert (reach y < x.1) as Hr; [|destruct (Hin y) as (? & ? & ?); [rewrite E2; set_solver|]; unfold reach in Hr; cbn; lia].
      apply list_elem_of_split in Hy as (k1 & k2 & ->). eapply (spaced_order (base - 1) (circle fl) ((base, 0) :: k1) y (k2 ++ x :: l2) x); [|done|set_solver].
      rewrite E2. cbn. by rewrite <- app_assoc.
    + right. specialize (Hhigh y Hy). unfold reach in Hhigh. cbn. lia.
  - intros y Hy A. split; [by destruct x; apply A|]. intros z Hz. apply A. rewrite E2. set_solver.
  - rewrite E2, !total_app. cbn [total]. lia.
  - intros a Ha _. apply Ho, Ha. rewrite E. set_solver.
Qed.

(** The upper end of a larger block is split off. *)
Lemma took_part fl s l1 pr x l2 n :
  list_ok fl s -> circle fl = (l1 ++ [pr]) ++ x :: l2 -> 1 <= n < x.2 ->
  let b := x.1 + 16 * (x.2 - n) in
  exists fl', took fl s b n fl' (set_freep pr.1 (set_hmem (st32 (st32 (hmem s) (x.1 + 8) (x.2 - n)) (b + 8) n) s)).
Proof using Hbase Hlimit.
  intros [Hl Hs Hf Hin Hbrk] E Hn b. destruct (circle_fl _ _ _ _ E) as (l1' & E1 & E2); [by destruct l1|].
  pose proof Hs as Hs'. rewrite E in Hs'. apply spaced_app in Hs' as [S1 [S2 S3]]. pose proof Hl as Hl'. rewrite E in Hl'. apply linked_app in Hl' as [L1 (Lx & Lxs & L2)].
  assert (Hx : x ∈ fl) by (rewrite E2; set_solver). pose proof (Hin x Hx) as (W1 & W2 & W3).
  set (m' := st32 (st32 (hmem s) (x.1 + 8) (x.2 - n)) (b + 8) n).
  assert (Ho : forall a, (a < x.1 \/ x.1 + 16 <= a) -> (a < b \/ b + 16 <= a) -> ld8 m' a = ld8 (hmem s) a) by (intros a H1 H2; unfold m'; rewrite !st32_frame by lia; done).
  assert (Hhdr : forall a, (a + 16 <= x.1 \/ x.1 + 16 <= a) -> (a + 16 <= b \/ b + 16 <= a) -> ld64 m' a = ld64 (hmem s) a /\ ld32 m' (a + 8) = ld32 (hmem s) (a + 8)).
  { intros a H1 H2. split; apply ldn_agree; intros y Hy; apply Ho; lia. }
  assert (Hbx : x.1 + 16 <= b) by (unfold b; lia).
  assert (Hlow : forall y, y ∈ l1 ++ [pr] -> reach y < x.1).
  { intros y Hy. apply list_elem_of_split in Hy as (k1 & k2 & Ek). eapply (spaced_order (base - 1) (circle fl) k1 y (k2 ++ x :: l2) x); [|done|set_solver].
    rewrite E, Ek. by rewrite <- app_assoc. }
  assert (Hhigh : forall y, y ∈ l2 -> reach x < y.1) by (intros y Hy; by eapply spaced_in).
  assert (circle (l1' ++ (x.1, x.2 - n) :: l2) = (l1 ++ [pr]) ++ (x.1, x.2 - n) :: l2) as E' by (by rewrite E1).
  exists (l1' ++ (x.1, x.2 - n) :: l2). split; cbn [hmem brk set_freep set_hmem]; fold m'; try done.
  - split; cbn [hmem brk freep set_freep set_hmem]; fold m'.
    + rewrite E'. apply linked_app. split; [|split; [|split]].
      * eapply linked_frame; [exact L1|]. intros y Hy. specialize (Hlow y Hy). unfold reach in Hlow. apply Hhdr; lia.
      * cbn [fst]. unfold m'. rewrite !ld64_st32_apart by lia. done.
      * cbn [fst snd]. unfold m'. rewrite ld32_st32_apart, ld32_st32_same by lia. done.
      * eapply linked_frame; [exact L2|]. intros y Hy. specialize (Hhigh y Hy). unfold reach, b in *. apply Hhdr; lia.
    + rewrite E'. apply spaced_app. split; [done|]. split; [done|]. eapply spaced_mono; [|exact S3]. unfold reach. cbn. lia.
    + exists pr. split; [rewrite E'; set_solver|done].
    + intros y Hy. apply elem_of_app in Hy as [Hy|[->|Hy]%elem_of_cons]; [apply Hin; rewrite E2; set_solver|repeat split; cbn; lia|apply Hin; rewrite E2; set_solver].
    + done.
  - unfold b. repeat split; cbn; lia.
  - unfold m'. rewrite ld32_st32_same by lia. done.
  - intros y Hy. apply elem_of_app in Hy as [Hy|[->|Hy]%elem_of_cons].
    + left. destruct (Hin y) as (? & ? & ?); [rewrite E2; set_solver|]. assert (y ∈ l1 ++ [pr]) as Hy' by (rewrite E1; by right). specialize (Hlow y Hy'). unfold reach in Hlow. cbn. lia.
    + left. unfold b. cbn. lia.
    + right. specialize (Hhigh y Hy). unfold reach in Hhigh. unfold b. cbn. lia.
  - intros y Hy A. pose proof (A x Hx) as Ax. unfold apart in Ax. split; [unfold apart, b; cbn; lia|]. intros z Hz. apply elem_of_app in Hz as [Hz|[->|Hz]%elem_of_cons].
    + apply A. rewrite E2. set_solver.
    + unfold apart. cbn. lia.
    + apply A. rewrite E2. set_solver.
  - rewrite E2, !total_app. cbn [total snd]. lia.
  - intros a Ha Hab. apply Ho; [|done]. apply Ha. rewrite E. set_solver.
Qed.

Lemma wp_take_units fl s l1 pr x l2 n Q :
  list_ok fl s -> circle fl = (l1 ++ [pr]) ++ x :: l2 -> 1 <= n <= x.2 ->
  (forall b fl' s', took fl s b n fl' s' -> Q (b + 16) s') -> wp (take_units n pr.1 x.1 x.2) s Q.
Proof using Hbase Hlimit.
  intros H E Hn HQ. pose proof H as [Hl Hs Hf Hin Hbrk]. destruct (circle_fl _ _ _ _ E) as (l1' & E1 & E2); [by destruct l1|].
  destruct (Hin x) as (W1 & W2 & W3); [rewrite E2; set_solver|]. rewrite E in Hl. apply linked_app in Hl as [_ (Lx & Lxs & _)].
  unfold take_units. destruct (Z.eqb_spec x.2 n) as [En|En].
  - apply wp_bind, wp_bind, wp_gets. rewrite Lx. unfold set_ptr. apply wp_bind, wp_modify, wp_ret, wp_bind, wp_modify, wp_ret.
    rewrite units_eq, Z.mul_1_r by lia. destruct (took_whole fl s l1 pr x l2 H E) as [fl' HT]. rewrite En in HT. by eapply HQ.
  - apply wp_bind. unfold set_size. apply wp_bind, wp_modify, wp_bind, wp_gets. cbn [hmem set_hmem]. rewrite u32_small, ld32_st32_same, units_eq by lia.
    apply wp_bind, wp_modify, wp_ret, wp_bind, wp_modify, wp_ret. rewrite units_eq, Z.mul_1_r by lia. cbn [hmem set_hmem]. rewrite u32_small by lia.
    destruct (took_part fl s l1 pr x l2 n H E ltac:(lia)) as [fl' HT]. by eapply HQ.
Qed.

(** ** The search *)

Context (sbrk : Z -> M heap Z).
Notation loop := (malloc_loop sbrk fuel).
(** No free block is large enough. *)
Definition none_fits fl (n : Z) : Prop := forall x, x ∈ fl -> x.2 < n.

(** The blocks [seg] after [pr], none of which [freep] points to, are looked at. *)
Lemma wp_scan fl s n Q seg : forall k l1 pr l2,
  list_ok fl s -> 1 <= n -> circle fl = l1 ++ pr :: seg ++ l2 -> (forall x, x ∈ seg -> x.1 <> freep s) -> (length seg <= k)%nat ->
  (forall b fl' s', took fl s b n fl' s' -> Q (b + 16) s') ->
  (none_fits seg n -> wp (loop (k - length seg) n (default pr (last seg)).1 (haddr base l2)) s Q) ->
  wp (loop k n pr.1 (haddr (haddr base l2) seg)) s Q.
Proof using Hbase Hlimit.
  induction seg as [|x seg IH]; intros k l1 pr l2 H Hn E Hf Hk HT HN.
  - cbn in *. rewrite Nat.sub_0_r in HN. apply HN. intros x Hx. by apply not_elem_of_nil in Hx.
  - cbn [length] in Hk. destruct k as [|k]; [lia|]. cbn [haddr malloc_loop]. pose proof (lo_linked _ _ H) as Hl. rewrite E in Hl.
    apply linked_app in Hl as [_ (_ & _ & Lx & Lxs & _)]. apply wp_bind, wp_gets. rewrite Lxs.
    assert (E' : circle fl = (l1 ++ [pr]) ++ x :: (seg ++ l2)) by (by rewrite <- app_assoc). destruct (x.2 >=? n) eqn:Hfit; rewrite Z.geb_leb in Hfit.
    + apply Z.leb_le in Hfit. apply (wp_take_units fl s l1 pr x (seg ++ l2)); [done|done|lia|done].
    + apply Z.leb_gt in Hfit. apply wp_bind, wp_gets. rewrite (proj2 (Z.eqb_neq _ _)) by (apply Hf; left). apply wp_bind, wp_gets. rewrite Lx.
      assert (haddr base (seg ++ l2) = haddr (haddr base l2) seg) as -> by (by destruct seg).
      apply (IH k (l1 ++ [pr]) x l2); [done|done|done| |lia|done|].
      * intros y Hy. apply Hf. by right.
      * intros HN'. cbn [length Nat.sub] in HN. rewrite last_cons in HN. destruct (last seg) as [y|] eqn:El; cbn in HN |- *; apply HN;
          intros z [->|Hz]%elem_of_cons; try done; by apply HN'.
Qed.

(** What happens when the whole list has been looked at. *)
Definition exhausted (k : nat) (n : Z) : M heap Z :=
  p <- morecore sbrk fuel n;; if p =? 0 then ret 0 else q <- h_ptr p;; loop k n p q.

Lemma wp_search fl s n k Q :
  list_ok fl s -> 1 <= n -> (length fl + 2 <= k)%nat -> (forall b fl' s', took fl s b n fl' s' -> Q (b + 16) s') ->
  (none_fits fl n -> forall k', (k <= k' + length fl + 1)%nat -> wp (exhausted k' n) s Q) ->
  wp (q <- h_ptr (freep s);; loop k n (freep s) q) s Q.
Proof using Hbase Hlimit.
  intros H Hn Hk HT HN. pose proof H as [Hl Hs (x0 & Hx0 & Hf) Hin Hbrk]. apply list_elem_of_split in Hx0 as (l1 & l2 & E).
  assert (Hne : forall k1 x k2, circle fl = k1 ++ x :: k2 -> forall y, y ∈ k2 -> y.1 <> x.1).
  { intros k1 x k2 Ek y Hy. pose proof (spaced_order _ _ k1 x k2 y Ek Hs Hy) as Ho. unfold reach in Ho. lia. }
  assert (Hlen : (length l1 + length l2 = length fl)%nat) by (apply (f_equal length) in E; cbn in E; rewrite length_app in E; cbn in E; lia).
  pose proof Hl as Hl'. rewrite E in Hl'. apply linked_app in Hl' as [L1 (Lx & Lxs & L2)]. apply wp_bind, wp_gets. rewrite Hf, Lx.
  assert (l2 = l2 ++ []) as E0 by (by rewrite app_nil_r).
  change (wp (loop k n x0.1 (haddr (haddr base []) l2)) s Q). eapply (wp_scan fl s n Q l2 k l1 x0 []); [done|done|by rewrite app_nil_r| |lia|done|].
  { rewrite Hf. intros y Hy. by eapply Hne. }
  intros N2. cbn [haddr]. destruct (k - length l2)%nat as [|k1] eqn:Ek1; [lia|]. cbn [malloc_loop]. destruct Hl as (Lb & Lbs & _). cbn in Lb, Lbs.
  apply wp_bind, wp_gets. rewrite Lbs. rewrite Z.geb_leb, (proj2 (Z.leb_gt _ _)) by lia. apply wp_bind, wp_gets. rewrite Hf.
  destruct l1 as [|b0 l1]; cbn in E; injection E as E1 E2.
  - subst x0. rewrite Z.eqb_refl. subst l2. apply HN; [done|]. cbn in Hlen. lia.
  - subst b0. assert (x0.1 <> base) as Hx0 by (apply not_eq_sym; intros Eb; eapply (Hne [] (base, 0) fl eq_refl x0); [rewrite E2; set_solver|done]).
    rewrite (proj2 (Z.eqb_neq _ _)) by done. apply wp_bind, wp_gets. rewrite Lb. cbn in Hlen.
    assert (haddr base fl = haddr (haddr base (x0 :: l2)) l1) as -> by (rewrite E2; by destruct l1).
    apply (wp_scan fl s n Q l1 k1 [] (base, 0) (x0 :: l2)); [done|done|by rewrite E2| |lia|done|].
    { rewrite Hf. intros y Hy Ey. apply list_elem_of_split in Hy as (u & v & ->). 
      apply (Hne ((base, 0) :: u) y (v ++ x0 :: l2) ltac:(rewrite E2; cbn; by rewrite <- app_assoc) x0); [set_solver|done]. }
    intros N1. cbn [haddr]. destruct (k1 - length l1)%nat as [|k2] eqn:Ek2; [lia|]. cbn [malloc_loop]. apply wp_bind, wp_gets. rewrite Lxs.
    destruct (x0.2 >=? n) eqn:Hfit; rewrite Z.geb_leb in Hfit.
    + apply Z.leb_le in Hfit. destruct l1 as [|y l1 _] using rev_ind.
      * apply (wp_take_units fl s [] (base, 0) x0 l2); [done|by rewrite E2|lia|done].
      * rewrite last_snoc. apply (wp_take_units fl s ((base, 0) :: l1) y x0 l2); [done|rewrite E2; cbn; done|lia|done].
    + apply Z.leb_gt in Hfit. apply wp_bind, wp_gets. rewrite Hf, Z.eqb_refl. apply HN; [|lia]. intros y Hy. rewrite E2 in Hy.
      apply elem_of_app in Hy as [Hy|[->|Hy]%elem_of_cons]; [by apply N1|done|by apply N2].
Qed.

(** ** Blocks in use *)

(** A block in use below [e] that the free list does not overlap. *)
Definition safe fl (e : Z) (y : block) : Prop := within e y /\ forall x, x ∈ fl -> apart x y.
Definition kept (y : block) (s s' : heap) : Prop := forall a, y.1 <= a < y.1 + 16 * y.2 -> ld8 (hmem s') a = ld8 (hmem s) a.

Lemma kept_hdr y s s' : 1 <= y.2 -> kept y s s' -> ld32 (hmem s') (y.1 + 8) = ld32 (hmem s) (y.1 + 8).
Proof. intros Hy Hk. apply ldn_agree. intros a Ha. apply Hk. lia. Qed.

Lemma safe_outside fl e y a : (forall x, x ∈ fl -> 1 <= x.2) -> safe fl e y -> y.1 <= a < y.1 + 16 * y.2 -> outside fl a.
Proof.
  intros H1 [(W1 & W2 & W3) A] Ha x [->|Hx]%elem_of_cons; [cbn; lia|]. specialize (H1 x Hx). specialize (A x Hx). unfold apart in A. lia.
Qed.

Lemma took_safe fl s b n fl' s' y : list_ok fl s -> took fl s b n fl' s' -> safe fl (brk s) y -> safe fl' (brk s') y /\ apart (b, n) y /\ kept y s s'.
Proof.
  intros H [t1 t2 t3 t4 t5 t6 t7 t8] Hy. pose proof Hy as [(W1 & W2 & W3) A]. destruct (t6 y W2 A) as [A1 A2]. destruct t3 as (X1 & X2 & X3). cbn in *.
  split; [|split; [done|]].
  - split; [|done]. rewrite t2. by repeat split.
  - intros a Ha. apply t8; [eapply safe_outside; [|exact Hy|exact Ha]; intros x Hx; by apply (lo_in _ _ H)|]. unfold apart in A1. cbn in A1. lia.
Qed.

(** [free] of a block in use. *)
Lemma wp_free_safe fl s bp n Q :
  list_ok fl s -> safe fl (brk s) (bp, n) -> ld32 (hmem s) (bp + 8) = n -> (2 * length fl + 2 <= fuel)%nat ->
  (forall fl' s', list_ok fl' s' -> brk s' = brk s -> (exists x, x ∈ fl' /\ n <= x.2) -> (forall y, safe fl (brk s) y -> apart (bp, n) y -> safe fl' (brk s') y /\ kept y s s') -> Q tt s') ->
  wp (free fuel (bp + 16)) s Q.
Proof using Hbase Hlimit.
  intros H [Hw Ha] Hsz Hfuel HQ. eapply wp_free; try done. intros fl' s' H' Hb _ Hfit Hap Hfr. apply (HQ fl'); try done.
  intros y Hy Ay. pose proof Hy as [(W1 & W2 & W3) A]. destruct Hw as (X1 & X2 & X3). cbn in X1, X2, X3. split.
  - split; [rewrite Hb; by repeat split|]. by apply Hap.
  - intros a Ha'. apply Hfr; [eapply safe_outside; [|exact Hy|exact Ha']; intros x Hx; by apply (lo_in _ _ H)|]. unfold apart in Ay. cbn in Ay. lia.
Qed.

(** ** [morecore] *)

Definition sbrk_spec : Prop := forall n s, 0 < n < 2 ^ 31 ->
  wp (sbrk n) s (fun r s' => (r = u64 (-1) /\ s' = s) \/
    (r = brk s /\ brk s' = brk s + n /\ brk s' <= limit /\ freep s' = freep s /\ forall a, a < brk s -> ld8 (hmem s') a = ld8 (hmem s) a)).
Context (Hsbrk : sbrk_spec).

Lemma hdr_below (m m' : memory) e x : (forall a, a < e -> ld8 m' a = ld8 m a) -> x + 16 <= e -> ld64 m' x = ld64 m x /\ ld32 m' (x + 8) = ld32 m (x + 8).
Proof. intros Hm Hx. split; apply ldn_agree; intros y Hy; apply Hm; lia. Qed.

(** More memory above the old end leaves the list as it is. *)
Lemma list_ok_grow fl s s' : list_ok fl s -> freep s' = freep s -> brk s <= brk s' <= limit -> (forall a, a < brk s -> ld8 (hmem s') a = ld8 (hmem s) a) -> list_ok fl s'.
Proof.
  intros [Hl Hs Hf Hin Hbrk] Ef Eb Em. split; [|done|by rewrite Ef| |lia].
  - eapply linked_frame; [exact Hl|]. intros x [->|Hx]%elem_of_cons; apply (hdr_below _ _ (brk s)); try done; cbn; [lia|]. destruct (Hin x Hx) as (? & ? & ?). lia.
  - intros x Hx. destruct (Hin x Hx) as (? & ? & ?). repeat split; lia.
Qed.

Lemma wp_morecore fl s n Q :
  list_ok fl s -> 1 <= n -> n * 16 < 2 ^ 31 -> (2 * length fl + 2 <= fuel)%nat -> Q 0 s ->
  (forall fl' s', list_ok fl' s' -> brk s <= brk s' -> (exists x, x ∈ fl' /\ n <= x.2) -> (forall y, safe fl (brk s) y -> safe fl' (brk s') y /\ kept y s s') -> Q (freep s') s') ->
  wp (morecore sbrk fuel n) s Q.
Proof using Hbase Hlimit Hsbrk.
  intros H Hn Hn31 Hfuel HQ0 HQ. unfold morecore. cbv zeta. set (nu := if n <? 4096 then 4096 else n).
  assert (Hnu : n <= nu /\ nu * 16 < 2 ^ 31) by (unfold nu; destruct (Z.ltb_spec n 4096); lia). rewrite s32_small by (unfold HSIZE; lia).
  apply wp_bind. eapply wp_mono; [apply Hsbrk; unfold HSIZE; lia|]. intros r s1 [[-> ->]|(-> & Eb & Hlim & Ef & Em)]; [rewrite Z.eqb_refl; by apply wp_ret|].
  pose proof (lo_brk _ _ H) as Hbrk. unfold HSIZE in Eb. rewrite (proj2 (Z.eqb_neq _ _)) by (change (u64 (-1)) with (2 ^ 64 - 1); lia).
  unfold set_size. apply wp_bind, wp_modify. rewrite u32_small by lia. rewrite units_eq, Z.mul_1_r by lia.
  set (s2 := set_hmem (st32 (hmem s1) (brk s + 8) nu) s1).
  assert (Em2 : forall a, a < brk s -> ld8 (hmem s2) a = ld8 (hmem s) a) by (intros a Ha; cbn; rewrite st32_frame by lia; by apply Em).
  assert (H2 : list_ok fl s2) by (eapply list_ok_grow; [exact H|done|cbn; lia|done]).
  assert (Hsafe : forall y, safe fl (brk s) y -> safe fl (brk s2) y) by (intros y [(? & ? & ?) ?]; split; [repeat split; cbn; lia|done]).
  apply wp_bind. eapply (wp_free_safe fl s2 (brk s) nu); [done| |by cbn; rewrite ld32_st32_same by lia|done|].
  - split; [repeat split; cbn; lia|]. intros x Hx. destruct (lo_in _ _ H x Hx) as (? & ? & ?). left. cbn. lia.
  - intros fl' s3 H3 Eb3 (x & Hx & Hxn) Hk. apply wp_gets. cbn in Eb3. apply (HQ fl'); [done|lia|exists x; split; [done|lia]|].
    intros y Hy. pose proof Hy as [(W1 & W2 & W3) A]. destruct (Hk y (Hsafe y Hy)) as [K1 K2]; [right; cbn; lia|]. split; [done|].
    intros a Ha. rewrite K2 by done. apply Em2. lia.
Qed.

(** ** [malloc] as a whole *)

Context (Hfuel : limit + 64 <= 4 * Z.of_nat fuel).

Lemma list_fuel fl s : list_ok fl s -> (4 * length fl + 16 <= fuel)%nat.
Proof using Hbase Hlimit Hfuel.
  intros H. pose proof (lo_brk _ _ H). pose proof (spaced_length (base - 1) (brk s + 1) (circle fl) (lo_spaced _ _ H)) as Hl. cbn [length] in Hl.
  assert (16 * Z.of_nat (S (length fl)) < brk s + 1 - (base - 1)); [|lia]. apply Hl; [|lia].
  intros x [->|Hx]%elem_of_cons; [unfold reach; cbn; lia|]. destruct (lo_in _ _ H x Hx) as (? & ? & ?). unfold reach. lia.
Qed.

(** What a successful call gives: a block [b] of [n] units. *)
Record got fl s (b n : Z) fl' s' : Prop := Got {
  gt_ok : list_ok fl' s';
  gt_brk : brk s <= brk s';
  gt_safe : safe fl' (brk s') (b, n);
  gt_hdr : ld32 (hmem s') (b + 8) = n;
  gt_others : forall y, safe fl (brk s) y -> safe fl' (brk s') y /\ apart (b, n) y /\ kept y s s' }.

Lemma took_got fl s b n fl' s' : list_ok fl s -> took fl s b n fl' s' -> got fl s b n fl' s'.
Proof.
  intros H Ht. pose proof Ht as [t1 t2 t3 t4 t5 t6 t7 t8]. split; [done|lia|split; [by rewrite t2|done]|done|]. intros y Hy. by eapply took_safe.
Qed.

Lemma wp_malloc_list fl s n Q :
  list_ok fl s -> 1 <= n -> n * 16 < 2 ^ 31 -> Q 0 s -> (forall b fl' s', got fl s b n fl' s' -> Q (b + 16) s') ->
  wp (q <- h_ptr (freep s);; loop fuel n (freep s) q) s Q.
Proof using Hbase Hlimit Hsbrk Hfuel.
  intros H Hn Hn31 HQ0 HQ. pose proof (list_fuel _ _ H) as Hf. apply (wp_search fl s n); [done|done|lia| |].
  - intros b fl' s' Ht. by eapply HQ, took_got.
  - intros _ k' Hk'. unfold exhausted. apply wp_bind, (wp_morecore fl s n); [done|done|done|lia|by apply wp_ret|].
    intros fl1 s1 H1 Hb (x & Hx & Hxn) Hsafe. pose proof (list_fuel _ _ H1) as Hf1. destruct (lo_free _ _ H1) as (x1 & Hx1 & Ef1).
    assert (freep s1 <> 0). { rewrite Ef1. pose proof (spaced_in _ _ _ (lo_spaced _ _ H1) Hx1). lia. }
    rewrite (proj2 (Z.eqb_neq _ _)) by done.
    apply (wp_search fl1 s1 n); [done|done|lia| |].
    + intros b fl2 s2 Ht. apply (HQ b fl2). destruct (took_got _ _ _ _ _ _ H1 Ht) as [g1 g2 g3 g4 g5]. split; try done; [lia|].
      intros y Hy. destruct (Hsafe y Hy) as [S1 K1]. destruct (g5 y S1) as (S2 & A2 & K2). split; [done|]. split; [done|]. intros a Ha. by rewrite K2, K1.
    + intros Hnone. specialize (Hnone x Hx). lia.
Qed.

(** The state of the allocator: before the first call, or with a free list;
    [al] are the blocks in use. *)
Fixpoint sep (l : list block) : Prop :=
  match l with
  | [] => True
  | y :: l' => (forall z, z ∈ l' -> apart y z) /\ sep l'
  end.
Definition heap_ok al s : Prop :=
  sep al /\ (forall y, y ∈ al -> ld32 (hmem s) (y.1 + 8) = y.2) /\ base + 16 <= brk s <= limit /\
  ((freep s = 0 /\ al = []) \/ exists fl, list_ok fl s /\ forall y, y ∈ al -> safe fl (brk s) y).

(** The first call sets up the empty list. *)
Lemma list_ok_first s : base + 16 <= brk s <= limit -> list_ok [] (set_hmem (st32 (st64 (hmem s) base base) (base + 8) 0) (set_freep base s)).
Proof using Hbase Hlimit Hfuel.
  intros Hb. split.
  - cbn. split; [|split; [by rewrite ld32_st32_same by lia|done]]. rewrite ld64_st32_apart by lia. apply ld64_st64_eq. lia.
  - split; [cbn; lia|done].
  - exists (base, 0). split; [left|done].
  - intros x Hx. by apply not_elem_of_nil in Hx.
  - done.
Qed.

Lemma nunits_eq nbytes : 0 <= nbytes < 2 ^ 31 - 2 ^ 16 -> nunits nbytes = (nbytes + 15) / 16 + 1 /\ 1 <= nunits nbytes /\ nunits nbytes * 16 < 2 ^ 31 /\ nbytes <= 16 * (nunits nbytes - 1).
Proof.
  intros Hn. unfold nunits, HSIZE. replace (nbytes + 16 - 1) with (nbytes + 15) by lia. pose proof (Z.div_mod (nbytes + 15) 16 ltac:(lia)) as Hd.
  pose proof (Z.mod_pos_bound (nbytes + 15) 16 ltac:(lia)) as Hm. assert (0 <= (nbytes + 15) / 16) by (apply Z.div_pos; lia). rewrite u32_small by lia. lia.
Qed.

Lemma wp_malloc al s nbytes Q :
  heap_ok al s -> 0 <= nbytes < 2 ^ 31 - 2 ^ 16 ->
  (forall s', heap_ok al s' -> (forall y, y ∈ al -> kept y s s') -> Q 0 s') ->
  (forall b s', heap_ok ((b, nunits nbytes) :: al) s' -> within (brk s') (b, nunits nbytes) -> (forall y, y ∈ al -> kept y s s') -> Q (b + 16) s') ->
  wp (malloc base sbrk fuel nbytes) s Q.
Proof using Hbase Hlimit Hsbrk Hfuel.
  intros (Hsep & Hhdr & Hb & Hst) Hn HQ0 HQ. destruct (nunits_eq nbytes Hn) as (_ & N1 & N2 & _).
  assert (Hmain : forall fl s0, list_ok fl s0 -> (forall y, y ∈ al -> safe fl (brk s0) y /\ kept y s s0) -> (forall y, y ∈ al -> 1 <= y.2) ->
    wp (q <- h_ptr (freep s0);; loop fuel (nunits nbytes) (freep s0) q) s0 Q).
  { intros fl s0 H0 Hy0 Hy1. assert (Hh0 : forall y, y ∈ al -> ld32 (hmem s0) (y.1 + 8) = y.2) by (intros y Hy; rewrite (kept_hdr y s); [by apply Hhdr|by apply Hy1|by apply Hy0]).
    apply (wp_malloc_list fl s0); [done|done|done| |].
    - apply HQ0; [|intros y Hy; by apply Hy0]. split; [done|]. split; [done|]. split; [apply (lo_brk _ _ H0)|]. right. exists fl. split; [done|]. intros y Hy. by apply Hy0.
    - intros b fl' s' [g1 g2 g3 g4 g5]. apply HQ; [|apply g3|].
      + split; [split; [intros z Hz; by apply (g5 z), Hy0|done]|]. split; [|split; [apply (lo_brk _ _ g1)|right; exists fl'; split; [done|]]].
        * intros y [->|Hy]%elem_of_cons; [done|]. destruct (g5 y) as (_ & _ & K); [by apply Hy0|]. rewrite (kept_hdr y s0); [by apply Hh0|by apply Hy1|done].
        * intros y [->|Hy]%elem_of_cons; [done|]. by apply (g5 y), Hy0.
      + intros y Hy a Ha. destruct (Hy0 y Hy) as [Sy Ky]. destruct (g5 y Sy) as (_ & _ & K). by rewrite K, Ky. }
  unfold malloc. cbv zeta. apply wp_bind, wp_gets. destruct Hst as [[Ef ->]|(fl & Hl & Hs)].
  - rewrite Ef. cbn [Z.eqb]. unfold set_ptr, set_size. apply wp_bind, wp_bind, wp_modify, wp_bind, wp_modify, wp_modify, wp_bind, wp_gets.
    apply (Hmain [] (set_hmem (st32 (st64 (hmem s) base base) (base + 8) 0) (set_freep base s))); [by apply list_ok_first|..]; intros y Hy; by apply not_elem_of_nil in Hy.
  - destruct (lo_free _ _ Hl) as (x & Hx & Ex). rewrite (proj2 (Z.eqb_neq _ _)).
    2:{ rewrite Ex. pose proof (spaced_in _ _ _ (lo_spaced _ _ Hl) Hx). lia. }
    apply wp_bind, wp_ret, wp_bind, wp_gets. apply (Hmain fl s); [done|..]; intros y Hy; [by split; [apply Hs|]|]. destruct (Hs y Hy) as [(? & ? & ?) _]. done.
Qed.

Lemma wp_free_used al1 y al2 s Q :
  heap_ok (al1 ++ y :: al2) s -> (forall s', heap_ok (al1 ++ al2) s' -> (forall z, z ∈ al1 ++ al2 -> kept z s s') -> Q tt s') -> wp (free fuel (y.1 + 16)) s Q.
Proof using Hbase Hlimit Hsbrk Hfuel.
  intros (Hsep & Hhdr & Hb & Hst) HQ. destruct Hst as [[_ E]|(fl & Hl & Hs)]; [by destruct al1|]. pose proof (list_fuel _ _ Hl).
  assert (Hap : forall z, z ∈ al1 ++ al2 -> apart y z).
  { intros z Hz. clear - Hsep Hz. induction al1 as [|x al1 IH]; cbn in *; [by apply Hsep|]. destruct Hsep as [H1 H2]. apply elem_of_cons in Hz as [->|Hz]; [apply apart_sym, H1; set_solver|by apply IH]. }
  assert (Hsep' : sep (al1 ++ al2)).
  { clear - Hsep. induction al1 as [|x al1 IH]; cbn in *; [apply Hsep|]. destruct Hsep as [H1 H2]. split; [intros z Hz; apply H1; set_solver|by apply IH]. }
  destruct y as [b n]. eapply (wp_free_safe fl s b n); [done|apply Hs; set_solver|apply (Hhdr (b, n)); set_solver|lia|].
  intros fl' s' H' Hb' _ Hk. assert (Hk' : forall z, z ∈ al1 ++ al2 -> safe fl' (brk s') z /\ kept z s s') by (intros z Hz; apply Hk; [apply Hs; set_solver|by apply Hap]).
  apply HQ; [|intros z Hz; by apply Hk']. split; [done|]. split; [|split; [apply (lo_brk _ _ H')|right; exists fl'; split; [done|intros z Hz; by apply Hk']]].
  intros z Hz. destruct (Hk' z Hz) as [[(? & ? & ?) _] K]. rewrite (kept_hdr z s); [apply Hhdr; set_solver|done|done].
Qed.

(** ** Programs *)

(** The calls of a program, which frees only what it has got, once, and writes
    only to what it has got. *)
Inductive hstep : heap * list block -> heap * list block -> Prop :=
| hs_malloc s s' al nbytes r :
    0 <= nbytes < 2 ^ 31 - 2 ^ 16 -> malloc base sbrk fuel nbytes s = Ret (r, s') ->
    hstep (s, al) (s', if r =? 0 then al else (r - 16, nunits nbytes) :: al)
| hs_free s s' al1 y al2 : free fuel (y.1 + 16) s = Ret (tt, s') -> hstep (s, al1 ++ y :: al2) (s', al1 ++ al2)
| hs_write s al y m' :
    y ∈ al -> (forall a, ~ (y.1 + 16 <= a < y.1 + 16 * y.2) -> ld8 m' a = ld8 (hmem s) a) -> hstep (s, al) (set_hmem m' s, al).

Lemma sep_apart al y z : sep al -> y ∈ al -> z ∈ al -> z = y \/ apart y z.
Proof.
  induction al as [|x al IH]; [intros _ Hy; by apply not_elem_of_nil in Hy|]. intros [H1 H2] [->|Hy]%elem_of_cons [->|Hz]%elem_of_cons; [by left|right; by apply H1| |by apply IH].
  right. by apply apart_sym, H1.
Qed.

Lemma heap_ok_write al s y m' :
  heap_ok al s -> y ∈ al -> (forall a, ~ (y.1 + 16 <= a < y.1 + 16 * y.2) -> ld8 m' a = ld8 (hmem s) a) -> heap_ok al (set_hmem m' s).
Proof.
  intros (Hsep & Hhdr & Hb & Hst) Hy Hm. destruct Hst as [[_ ->]|(fl & Hl & Hs)]; [by apply not_elem_of_nil in Hy|]. destruct (Hs y Hy) as [(W1 & W2 & W3) A].
  split; [done|]. split; [|split; [done|right; exists fl; split; [|done]]].
  - intros z Hz. rewrite <- (Hhdr z Hz). apply ldn_agree. intros a Ha. apply Hm. destruct (Hs z Hz) as [(? & ? & ?) _].
    destruct (sep_apart al y z Hsep Hy Hz) as [->|Az]; [lia|]. unfold apart in Az. lia.
  - destruct Hl as [Hl Hsp Hf Hin Hbrk]. split; [|done|done|done|done]. eapply linked_frame; [exact Hl|].
    assert (Hx : forall x, x ∈ circle fl -> x.1 + 16 <= y.1 + 16 \/ y.1 + 16 * y.2 <= x.1).
    { intros x [->|Hx]%elem_of_cons; [cbn; lia|]. destruct (Hin x Hx) as (? & ? & ?). specialize (A x Hx). unfold apart in A. lia. }
    intros x Hin'. specialize (Hx x Hin'). split; apply ldn_agree; intros a Ha; apply Hm; lia.
Qed.

Lemma hstep_ok p p' : heap_ok p.2 p.1 -> hstep p p' -> heap_ok p'.2 p'.1.
Proof using Hbase Hlimit Hsbrk Hfuel.
  intros H Hs. destruct Hs as [s s' al nbytes r Hn E|s s' al1 y al2 E|s al y m' Hy Hm]; cbn in *.
  - eapply (wp_ret_inv _ s r s' (fun r s' => heap_ok (if r =? 0 then al else (r - 16, nunits nbytes) :: al) s')); [|exact E]. eapply wp_malloc; [exact H|done|done|].
    intros b s1 H1 (W1 & _) _. cbn in W1. rewrite (proj2 (Z.eqb_neq _ _)) by lia. by replace (b + 16 - 16) with b by lia.
  - eapply (wp_ret_inv _ s tt s' (fun _ s' => heap_ok (al1 ++ al2) s')); [|exact E]. eapply wp_free_used; [exact H|done].
  - by eapply heap_ok_write.
Qed.

Lemma hreach_ok e s al : base + 16 <= brk e <= limit -> freep e = 0 -> rtc hstep (e, []) (s, al) -> heap_ok al s.
Proof using Hbase Hlimit Hsbrk Hfuel.
  intros Hb Hf Hr. remember (e, []) as p eqn:Ep. remember (s, al) as p' eqn:Ep'. assert (heap_ok p.2 p.1) as H0.
  { subst p. split; [done|]. split; [intros y Hy; by apply not_elem_of_nil in Hy|]. split; [done|]. by left. }
  assert (heap_ok p'.2 p'.1) as H1; [|by rewrite Ep' in H1]. clear Ep Ep'. induction Hr as [|p1 p2 p3 H12 _ IH]; [done|]. by eapply IH, hstep_ok.
Qed.


(** ** Requests near 4 GB *)

(** Putting the first block in the list that has only the static header. *)
Lemma wp_free_first s b n Q :
  freep s = base -> ld64 (hmem s) base = base -> ld32 (hmem s) (base + 8) = 0 -> ld32 (hmem s) (b + 8) = n -> base + 16 <= b -> b + 16 * n < 2 ^ 64 -> 0 <= n < 2 ^ 32 ->
  (forall s', brk s' = brk s -> freep s' = base -> ld64 (hmem s') base = b -> ld32 (hmem s') (base + 8) = 0 -> ld32 (hmem s') (b + 8) = n -> Q tt s') ->
  wp (free fuel (b + 16)) s Q.
Proof using Hbase Hlimit Hsbrk Hfuel.
  intros Ef E0 E1 E2 Hb Hn Hn' HQ. unfold free. cbv zeta. replace (units (b + 16) (-1)) with b by (unfold units, HSIZE; rewrite u64_small; lia).
  apply wp_bind, wp_gets, wp_bind. rewrite Ef. destruct fuel as [|k]; [lia|]. cbn [find_place]. apply wp_bind, wp_gets. rewrite E0.
  replace ((b >? base) && (b <? base)) with false by lia. replace ((base >=? base) && _) with true by lia.
  apply wp_ret, wp_bind, wp_gets. rewrite E0. apply wp_bind, wp_gets. rewrite E2. apply wp_bind. unfold join_next.
  rewrite (proj2 (Z.eqb_neq _ _)) by (rewrite units_eq; lia). apply wp_modify, wp_bind, wp_gets. cbn [hmem set_hmem]. rewrite ld32_st64_apart, E1 by lia.
  apply wp_bind. unfold join_prev. rewrite (proj2 (Z.eqb_neq _ _)) by (rewrite units_eq; lia). do 2 apply wp_modify. cbn [hmem set_hmem].
  apply HQ; cbn [hmem brk freep set_hmem set_freep]; [done|done|apply ld64_st64_eq; lia|by rewrite !ld32_st64_apart by lia|by rewrite !ld32_st64_apart by lia].
Qed.

(** Requests of almost 4 GB are granted without memory.  [morecore] computes
    the bytes it needs as an unsigned long and [sbrk] takes an int, so the first
    [malloc] of 2^32 - 1 bytes asks [sbrk] for 16 bytes; when they are granted,
    [malloc] returns the end of the heap. *)
Theorem malloc_truncates s :
  base + 16 <= brk s <= limit -> freep s = 0 -> (forall s1, brk s1 = brk s -> exists s2, sbrk 16 s1 = Ret (brk s1, s2)) ->
  exists r s0, malloc base sbrk fuel (2 ^ 32 - 1) s = Ret (r, s0) /\ r = brk s0 /\ brk s0 = brk s + 16.
Proof using Hbase Hlimit Hsbrk Hfuel.
  intros Hb Ef Hg. apply (wp_inv _ s (fun r s0 => r = brk s0 /\ brk s0 = brk s + 16)). unfold malloc. cbv zeta.
  apply wp_bind, wp_gets. rewrite Ef. cbn [Z.eqb]. unfold set_ptr, set_size. apply wp_bind, wp_bind, wp_modify, wp_bind, wp_modify, wp_modify, wp_bind, wp_gets.
  set (s1 := set_hmem _ _). assert (L1 : ld64 (hmem s1) base = base /\ ld32 (hmem s1) (base + 8) = 0) by (destruct (list_ok_first s Hb) as [(L1 & L2 & _) _ _ _ _]; by split). destruct L1 as [L1 L2].
  change (nunits (2 ^ 32 - 1)) with 268435457. apply wp_bind, wp_gets. change (freep s1) with base. rewrite L1.
  assert (exists k, fuel = S (S k)) as [k Ek] by (exists (fuel - 2)%nat; lia).
  replace (malloc_loop sbrk fuel fuel) with (malloc_loop sbrk fuel (S (S k))) by (by rewrite <- Ek). cbn [malloc_loop]. apply wp_bind, wp_gets. rewrite L2. cbn [Z.geb Z.compare]. apply wp_bind, wp_gets. change (freep s1) with base. rewrite Z.eqb_refl.
  apply wp_bind. unfold morecore. cbn [Z.ltb Z.compare Pos.compare Pos.compare_cont]. apply wp_bind. change (s32 (268435457 * HSIZE)) with 16. destruct (Hg s1 eq_refl) as [s2 Eg]. pose proof (wp_ret_inv _ _ _ _ _ (Hsbrk 16 s1 ltac:(lia)) Eg) as [[E' _]|(_ & B2 & B3 & F2 & M2)];
    [change (brk s1) with (brk s) in E'; change (u64 (-1)) with (2 ^ 64 - 1) in E'; lia|]. apply (wp_eq _ _ _ _ _ Eg).
  change (brk s1) with (brk s) in *. rewrite (proj2 (Z.eqb_neq (brk s) _)) by (change (u64 (-1)) with (2 ^ 64 - 1); lia). unfold set_size. apply wp_bind, wp_modify, wp_bind.
  rewrite units_eq by lia. destruct (hdr_below (hmem s1) (hmem s2) (brk s) base M2) as [D1 D2]; [lia|].
  apply (wp_free_first _ (brk s) 268435457); cbn [hmem brk freep set_hmem set_freep]; [by rewrite F2|by rewrite ld64_st32_apart, D1 by lia|by rewrite ld32_st32_apart, D2 by lia|by rewrite ld32_st32_same|lia|lia|lia|].
  intros s3 B4 F4 M4 _ M5. apply wp_gets. rewrite F4. rewrite (proj2 (Z.eqb_neq base 0)) by lia. apply wp_bind, wp_gets. rewrite M4.
  apply wp_bind, wp_gets. rewrite M5. cbn [Z.geb Z.compare Pos.compare Pos.compare_cont]. unfold take_units.
  rewrite Z.eqb_refl. apply wp_bind, wp_bind, wp_gets, wp_bind, wp_modify, wp_ret, wp_bind, wp_modify, wp_ret. cbn [brk set_hmem set_freep]. rewrite units_eq by lia. lia.
Qed.
End Umalloc.
