(* ===== verification/Ulib.v ===== *)
(** * user/ulib.c

    The library of user programs over the memory of the process.  A string has
    no bound in the C, so the loops that look for its end carry fuel and give
    [None] when it runs out.  [read] is an argument: the system call.  [strlen],
    [memset] and [memcmp] are the routines of [KString], loop for loop. *)
From Stdlib Require Import Ascii.
From S2P Require Import Prelude Mem KString Printf.

(** ** Strings *)

(** [while( ( *s++ = *t++ ) != 0);] *)
Fixpoint strcpy (fuel : nat) (m : memory) (s t : Z) : option memory :=
  match fuel with
  | O => None
  | S k => let m' := st8 m s (ld8 m t) in
           if ctrue (ld8 m t) then strcpy k m' (s + 1) (t + 1) else Some m'
  end.

Fixpoint strcmp (fuel : nat) (m : memory) (p q : Z) : option Z :=
  match fuel with
  | O => None
  | S k => if ctrue (ld8 m p) && (ld8 m p =? ld8 m q) then strcmp k m (p + 1) (q + 1)
           else Some (ld8 m p - ld8 m q)
  end.

Fixpoint strchr (fuel : nat) (m : memory) (s c : Z) : option Z :=
  match fuel with
  | O => None
  | S k => if ctrue (ld8 m s) then if ld8 m s =? c then Some s else strchr k m (s + 1) c
           else Some 0
  end.

(** An [int], so the sum wraps. *)
Fixpoint atoi_from (fuel : nat) (m : memory) (s n : Z) : option Z :=
  match fuel with
  | O => None
  | S k => if (chr "0" <=? ld8 m s) && (ld8 m s <=? chr "9") then atoi_from k m (s + 1) (s32 (n * 10 + ld8 m s - chr "0"))
           else Some n
  end.
Definition atoi (fuel : nat) (m : memory) (s : Z) : option Z := atoi_from fuel m s 0.

(** The copy is upwards exactly when the source is above the destination. *)
Definition memmove (m : memory) (vdst vsrc n : Z) : memory :=
  if vsrc >? vdst then memmove_up (Z.to_nat n) m vdst vsrc
  else memmove_down (Z.to_nat n) m (vdst + n) (vsrc + n).

(** ** A process *)

(** Its memory, what its input is connected to, and what it has written to its
    output. *)
Record prog {E : Type} : Type := Prog { umem : memory; uenv : E; uout : list Z }.
Arguments prog : clear implicits.
Arguments Prog {E} _ _ _.

Section Gets.
Context {E : Type} (read : Z -> Z -> M (prog E) Z).

Definition poke (a v : Z) : M (prog E) unit := modify (fun s => Prog (st8 (umem s) a v) (uenv s) (uout s)).

(** [buf] and the address [c] of the local variable; [i] characters so far. *)
Fixpoint gets_loop (k : nat) (buf max c i : Z) : M (prog E) Z :=
  if i + 1 <? max then
    match k with
    | O => diverge
    | S k' =>
        cc <- read c 1;;
        if cc <? 1 then ret i else
        ch <- gets (fun s => ld8 (umem s) c);;
        poke (buf + i) ch;;
        if (ch =? chr "010") || (ch =? chr "013") then ret (i + 1) else gets_loop k' buf max c (i + 1)
    end
  else ret i.
Definition ugets (buf max c : Z) : M (prog E) Z :=
  i <- gets_loop (Z.to_nat max) buf max c 0;;
  poke (buf + i) 0;;
  ret buf.
End Gets.
