(* ===== verification/UlibProofs.v ===== *)
(** * Strings, numbers and lines

    Strings in memory, what [read] promises, that [atoi] undoes [printint], and
    that [gets] reads a line within its buffer. *)
From Stdlib Require Import Ascii.
From S2P Require Import Prelude Mem KString Printf PrintfProofs Ulib.

Implicit Types (m : memory) (l : list Z) (fuel k : nat).

(** ** Strings in memory *)

Fixpoint cstring m (a : Z) l : Prop :=
  match l with
  | [] => ld8 m a = 0
  | c :: l' => c <> 0 /\ ld8 m a = c /\ cstring m (a + 1) l'
  end.

Lemma cstring_agree m m' a l : cstring m a l -> (forall x, a <= x <= a + Z.of_nat (length l) -> ld8 m' x = ld8 m x) -> cstring m' a l.
Proof.
  revert a. induction l as [|c l IH]; intros a; cbn [cstring length]; intros H Hm; [rewrite Hm; [done|lia]|].
  destruct H as (H1 & H2 & H3). split; [done|]. split; [rewrite Hm; [done|lia]|]. apply IH; [done|]. intros x Hx. apply Hm. lia.
Qed.

Lemma cstring_app m a l1 l2 : cstring m a (l1 ++ l2) -> cstring m (a + Z.of_nat (length l1)) l2.
Proof.
  revert a. induction l1 as [|c l1 IH]; intros a; cbn [app cstring length]; [by replace (a + Z.of_nat 0) with a by lia|].
  intros (_ & _ & H). apply IH in H. by replace (a + Z.of_nat (S (length l1))) with (a + 1 + Z.of_nat (length l1)) by lia.
Qed.

Lemma cstring_rd m a l1 l2 : cstring m a (l1 ++ l2) -> rd_bytes (length l1) m a = l1.
Proof.
  revert a. induction l1 as [|c l1 IH]; intros a; cbn [app cstring length rd_bytes]; [done|]. intros (_ & -> & H). by rewrite (IH _ H).
Qed.

(** Ending a string early, and storing a string. *)
Lemma cstring_cut m m' a l1 l2 : cstring m a (l1 ++ l2) -> ld8 m' (a + Z.of_nat (length l1)) = 0 -> (forall x, a <= x < a + Z.of_nat (length l1) -> ld8 m' x = ld8 m x) -> cstring m' a l1.
Proof.
  revert a. induction l1 as [|c l1 IH]; intros a; cbn [app cstring length]; intros H H0 Hm; [by replace (a + Z.of_nat 0) with a in H0 by lia|].
  destruct H as (H1 & H2 & H3). split; [done|]. split; [rewrite Hm; [done|lia]|].
  apply IH; [done| |intros x Hx; apply Hm; lia]. by replace (a + 1 + Z.of_nat (length l1)) with (a + Z.of_nat (S (length l1))) by lia.
Qed.

Lemma cstring_intro m a l : (forall c, c ∈ l -> c <> 0) -> (forall i c, l !! i = Some c -> ld8 m (a + Z.of_nat i) = c) -> ld8 m (a + Z.of_nat (length l)) = 0 -> cstring m a l.
Proof.
  revert a. induction l as [|c l IH]; intros a Hz Hl H0; cbn [cstring length] in *; [by replace (a + Z.of_nat 0) with a in H0 by lia|].
  split; [apply Hz; left|]. split; [specialize (Hl O c eq_refl); by replace (a + Z.of_nat 0) with a in Hl by lia|].
  apply IH; [intros d Hd; apply Hz; by right| |by replace (a + 1 + Z.of_nat (length l)) with (a + Z.of_nat (S (length l))) by lia].
  intros i d Hd. specialize (Hl (S i) d Hd). by replace (a + 1 + Z.of_nat i) with (a + Z.of_nat (S i)) by lia.
Qed.

Lemma cstring_lookup m a l i c : cstring m a l -> l !! i = Some c -> ld8 m (a + Z.of_nat i) = c /\ c <> 0.
Proof.
  revert a i. induction l as [|d l IH]; intros a i; cbn [cstring]; [done|]. intros (H1 & H2 & H3) Hi. destruct i as [|i]; cbn in Hi.
  - injection Hi as ->. by replace (a + Z.of_nat 0) with a by lia.
  - destruct (IH _ _ H3 Hi). by replace (a + Z.of_nat (S i)) with (a + 1 + Z.of_nat i) by lia.
Qed.

(** ** Input *)

Section Read.
Context {E : Type} (read : Z -> Z -> M (prog E) Z) (rest : E -> list Z).
Implicit Type s : prog E.

(** [read(fd, a, n)]: some of the input that is left, at least a byte of it if
    there is any and [n] is not 0. *)
Definition read_spec : Prop := forall a n s, 0 <= n ->
  wp (read a n) s (fun v s' => uout s' = uout s /\
    ((v <= 0 /\ (n = 0 \/ rest (uenv s) = []) /\ rest (uenv s') = rest (uenv s) /\ forall x, ld8 (umem s') x = ld8 (umem s) x) \/
     (exists l, v = Z.of_nat (length l) /\ 0 < v <= n /\ rest (uenv s) = l ++ rest (uenv s') /\
        (forall i c, l !! i = Some c -> ld8 (umem s') (a + Z.of_nat i) = c) /\ (forall x, x < a \/ a + n <= x -> ld8 (umem s') x = ld8 (umem s) x)))).
End Read.

(** ** Numbers *)

(** A run of characters in memory. *)
Definition stored m (a : Z) l : Prop := forall i c, l !! i = Some c -> ld8 m (a + Z.of_nat i) = c.

Lemma stored_cons m a c l : stored m a (c :: l) <-> ld8 m a = c /\ stored m (a + 1) l.
Proof.
  unfold stored. split.
  - intros H. split; [specialize (H O c eq_refl); by replace (a + Z.of_nat 0) with a in H by lia|].
    intros i d Hd. specialize (H (S i) d Hd). by replace (a + 1 + Z.of_nat i) with (a + Z.of_nat (S i)) by lia.
  - intros [H1 H2] [|i] d Hd; cbn in Hd; [injection Hd as <-; by replace (a + Z.of_nat 0) with a by lia|].
    replace (a + Z.of_nat (S i)) with (a + 1 + Z.of_nat i) by lia. by apply H2.
Qed.

Definition is_digit (c : Z) : bool := (chr "0" <=? c) && (c <=? chr "9").

Lemma udigits_digit j d : 0 <= j < 10 -> udigits !! Z.to_nat j = Some d -> is_digit d = true /\ d - chr "0" = j.
Proof.
  intros Hj E. assert (Hc : j ∈ [0; 1; 2; 3; 4; 5; 6; 7; 8; 9]) by (rewrite !elem_of_cons; lia). rewrite !elem_of_cons in Hc.
  repeat destruct Hc as [->|Hc]; try (vm_compute in E; injection E as <-; by split). by apply not_elem_of_nil in Hc.
Qed.

(** The most significant digit first. *)
Definition horner (n : Z) (js : list Z) : Z := fold_left (fun n j => n * 10 + j) js n.

Lemma horner_ge js : forall n, 0 <= n -> Forall (fun j => 0 <= j < 10) js -> n <= horner n js.
Proof.
  induction js as [|j js IH]; intros n Hn Hj; cbn; [lia|]. apply Forall_cons in Hj as [Hj Hjs]. etransitivity; [|apply IH; [lia|done]]. lia.
Qed.

Lemma horner_value js : horner 0 (rev js) = value 10 js.
Proof. unfold horner. rewrite <- fold_left_rev_right, rev_involutive. induction js as [|j js IH]; cbn; [done|]. cbn in IH. rewrite IH. lia. Qed.

Lemma atoi_from_spec js text : forall fuel m s n,
  Forall (fun j => 0 <= j < 10) js -> Forall2 (fun j d => udigits !! Z.to_nat j = Some d) js text -> stored m s text -> is_digit (ld8 m (s + Z.of_nat (length text))) = false ->
  (length text < fuel)%nat -> 0 <= n -> horner n js < 2 ^ 31 -> atoi_from fuel m s n = Some (horner n js).
Proof.
  intros fuel m s n Hj Ht. revert fuel s n. induction Ht as [|j d js text Hd Ht IH]; intros fuel s n Hm Hend Hf Hn Hv; (destruct fuel as [|k]; [cbn in Hf; lia|]); cbn [atoi_from length] in *.
  - replace (s + Z.of_nat 0) with s in Hend by lia. unfold is_digit in Hend. by rewrite Hend.
  - apply Forall_cons in Hj as [Hj Hjs]. apply stored_cons in Hm as [-> Hm]. destruct (udigits_digit j d Hj Hd) as [Hdig E]. unfold is_digit in Hdig. rewrite Hdig.
    change (horner n (j :: js)) with (horner (n * 10 + j) js) in *. pose proof (horner_ge js (n * 10 + j) ltac:(lia) Hjs).
    replace (n * 10 + d - chr "0") with (n * 10 + j) by lia. rewrite s32_small by lia.
    apply IH; [done|done| |lia|lia|done]. by replace (s + 1 + Z.of_nat (length text)) with (s + Z.of_nat (S (length text))) by lia.
Qed.

(** C39: [atoi] undoes [printint]: for any [int] that is not negative, the
    characters [printf] prints for it in decimal, read back from memory up to a
    character that is no digit, are that number. *)
Theorem atoi_printint x :
  0 <= x < 2 ^ 31 ->
  exists text, (forall S (putc : Z -> M S unit) s, printint putc udigits x 10 true s = put_all putc text s) /\
    forall fuel m a, stored m a text -> is_digit (ld8 m (a + Z.of_nat (length text))) = false -> (10 < fuel)%nat -> atoi fuel m a = Some x.
Proof.
  intros Hx. destruct (printint_spec udigits x 10 true eq_refl (or_introl eq_refl) ltac:(lia)) as (text & (js & (_ & Hj & Hv & _) & HF) & Hlen & Hp).
  exists text. split.
  - intros S putc s. rewrite Hp. by replace (true && (x <? 0)) with false by lia.
  - intros fuel m a Hs Hend Hf. unfold magnitude in Hv. rewrite Z.abs_eq in Hv by lia. unfold atoi. rewrite <- horner_value in Hv.
    rewrite (atoi_from_spec (rev js) text); try done; [by rewrite Hv|by apply Forall_rev|lia|rewrite Hv; lia].
Qed.

(** ** Lines *)

Section Gets.
Context {E : Type} (read : Z -> Z -> M (prog E) Z) (rest : E -> list Z).
Context (Hread : read_spec read rest) (buf max c : Z) (Hmax : 0 < max) (Hc : c < buf \/ buf + max <= c).
Implicit Type s : prog E.

Definition ends_line (x : Z) : bool := (x =? chr "010") || (x =? chr "013").

(** Nothing but the buffer and the local variable changes. *)
Definition gets_frame m m' : Prop := forall x, x < buf \/ buf + max <= x -> x <> c -> ld8 m' x = ld8 m x.

(** [l] is the line [gets] takes from the input: all of it up to a line end, the end of the input or the end of the buffer. *)
Record taken l (inp inp' : list Z) : Prop := Taken {
  tk_input : inp = l ++ inp';
  tk_fits : Z.of_nat (length l) < max;
  tk_inner : forall l1 x l2, l = l1 ++ x :: l2 -> l2 <> [] -> ends_line x = false;
  tk_last : Z.of_nat (length l) + 1 = max \/ inp' = [] \/ exists l1 x, l = l1 ++ [x] /\ ends_line x = true
}.

Lemma wp_gets_loop k l s :
  stored (umem s) buf l -> (forall x, x ∈ l -> ends_line x = false) -> Z.of_nat (length l) < max -> max - Z.of_nat (length l) <= Z.of_nat k + 1 ->
  wp (gets_loop read k buf max c (Z.of_nat (length l))) s (fun i s' => exists l', i = Z.of_nat (length (l ++ l')) /\ stored (umem s') buf (l ++ l') /\
    taken (l ++ l') (l ++ rest (uenv s)) (rest (uenv s')) /\ uout s' = uout s /\ gets_frame (umem s) (umem s')).
Proof using Hread Hmax Hc.
  revert l s. induction k as [|k IH]; intros l s Hs Hl Hlen Hk; cbn [gets_loop].
  all: assert (Hstop : forall s', stored (umem s') buf l -> rest (uenv s') = rest (uenv s) -> uout s' = uout s -> gets_frame (umem s) (umem s') -> (Z.of_nat (length l) + 1 = max \/ rest (uenv s) = []) ->
    exists l', Z.of_nat (length l) = Z.of_nat (length (l ++ l')) /\ stored (umem s') buf (l ++ l') /\ taken (l ++ l') (l ++ rest (uenv s)) (rest (uenv s')) /\ uout s' = uout s /\ gets_frame (umem s) (umem s')).
  1,3: intros s' H1 H2 H3 H4 H5; exists []; rewrite app_nil_r; split; [done|]; split; [done|]; split; [|done];
    (split; [by rewrite H2|done|intros l1 x l2 -> _; apply Hl, elem_of_app; right; left|rewrite H2; tauto]).
  - replace (_ + 1 <? max) with false by lia. apply wp_ret. apply Hstop; [done|done|done|done|lia].
  - destruct (Z.ltb_spec (Z.of_nat (length l) + 1) max) as [Hlt|Hge]; [|apply wp_ret, Hstop; [done|done|done|done|lia]].
    apply wp_bind. eapply wp_mono; [apply Hread; lia|]. intros v s1 [Ho [(Hv & Hend & Hr & Hm)|(l0 & -> & Hv & Hr & Hl0 & Hm)]]; cbn beta.
    { replace (v <? 1) with true by lia. apply wp_ret, Hstop; [|done|done|by intros x _ _; apply Hm|destruct Hend; [lia|by right]]. intros i x Hi. rewrite Hm. by apply Hs. }
    replace (_ <? 1) with false by lia. destruct l0 as [|x l0]; [cbn in Hv; lia|]. destruct l0; [|cbn [length] in Hv; lia].
    apply wp_bind, wp_gets. specialize (Hl0 O x eq_refl). replace (c + Z.of_nat 0) with c in Hl0 by lia. rewrite Hl0. unfold poke. apply wp_bind, wp_modify.
    set (s2 := Prog _ _ _). assert (Hfr : gets_frame (umem s) (umem s2)).
    { intros y Hy Hne. cbn [umem s2]. rewrite ld8_st8, (proj2 (Z.eqb_neq y _)) by lia. apply Hm. lia. }
    assert (Hx : 0 <= x < 256) by (rewrite <- Hl0; apply ld8_range).
    assert (Hs2 : stored (umem s2) buf (l ++ [x])).
    { intros i y Hi. cbn [umem s2]. rewrite ld8_st8. apply lookup_app_Some in Hi as [Hi|[Hge Hi]].
      - apply lookup_lt_Some in Hi as Hlt'. rewrite (proj2 (Z.eqb_neq _ _)) by lia. rewrite Hm by lia. by apply Hs.
      - apply lookup_lt_Some in Hi as Hlt'. cbn in Hlt'. replace (i - length l)%nat with O in Hi by lia. injection Hi as <-.
        rewrite (proj2 (Z.eqb_eq _ _)) by lia. by apply u8_small. }
    assert (Hlen2 : Z.of_nat (length l) + 1 = Z.of_nat (length (l ++ [x]))) by (rewrite length_app; cbn [length]; lia). rewrite Hlen2. fold (ends_line x).
    destruct (ends_line x) eqn:Ex.
    + apply wp_ret. exists [x]. split; [done|]. split; [done|]. split; [|done]. split; [by rewrite Hr, app_assoc|lia| |by right; right; exists l, x].
      intros l1 y l2 El Hne. apply Hl. destruct (exists_last Hne) as (l3 & z & ->). rewrite app_comm_cons, app_assoc in El. apply app_inj_tail in El as [-> _]. apply elem_of_app. right. left.
    + eapply wp_mono; [apply (IH (l ++ [x]) s2); [done| |lia|lia]|].
      { intros y [Hy|Hy%list_elem_of_singleton]%elem_of_app; [by apply Hl|by subst y]. }
      intros i s' (l' & -> & Hs' & Ht & Ho' & Hf'). exists (x :: l'). rewrite <- app_assoc in *. cbn [app] in *. cbn [uenv uout s2] in Ht, Ho'.
      split; [done|]. split; [done|]. rewrite Hr. split; [by rewrite <- app_assoc in Ht|]. split; [by rewrite Ho'|]. intros y Hy Hne. by rewrite Hf', Hfr.
Qed.

(** [gets] reads one line within its buffer, and terminates: whatever the
    input and the pieces it comes in, it takes from the input a line with its
    end, or what there is before the end of the input, or the [max - 1] bytes
    that fit; stores it with a NUL after it in the buffer, and changes no other
    byte of memory but its local variable. *)
Theorem gets_correct s :
  exists s' l, ugets read buf max c s = Ret (buf, s') /\ taken l (rest (uenv s)) (rest (uenv s')) /\
    stored (umem s') buf (l ++ [0]) /\ uout s' = uout s /\ gets_frame (umem s) (umem s').
Proof using Hread Hmax Hc.
  cut (wp (ugets read buf max c) s (fun v s' => v = buf /\ exists l, taken l (rest (uenv s)) (rest (uenv s')) /\ stored (umem s') buf (l ++ [0]) /\ uout s' = uout s /\ gets_frame (umem s) (umem s'))).
  { intros (v & s' & Eq & -> & l & H)%wp_inv. by exists s', l. }
  unfold ugets. apply wp_bind. eapply wp_mono; [apply (wp_gets_loop (Z.to_nat max) [] s); [done|intros x Hx; by apply not_elem_of_nil in Hx|cbn; lia|cbn; lia]|].
  cbn [app]. intros i s' (l & -> & Hs & Ht & Ho & Hf). unfold poke. apply wp_bind, wp_modify, wp_ret. split; [done|]. exists l. cbn [umem uenv uout]. pose proof (tk_fits _ _ _ Ht).
  split; [done|]. split; [|split; [done|]].
  - intros j y Hj. rewrite ld8_st8. apply lookup_app_Some in Hj as [Hj|[Hge Hj]].
    + apply lookup_lt_Some in Hj as Hlt. rewrite (proj2 (Z.eqb_neq _ _)) by lia. by apply Hs.
    + apply lookup_lt_Some in Hj as Hlt. cbn in Hlt. replace (j - length l)%nat with O in Hj by lia. injection Hj as <-. by rewrite (proj2 (Z.eqb_eq _ _)) by lia.
  - intros x Hx Hne. rewrite ld8_st8, (proj2 (Z.eqb_neq _ _)) by lia. by apply Hf.
Qed.
End Gets.
