(* ===== verification/Grep.v ===== *)
(** * user/grep.c

    The matcher of regular expressions, on strings in the memory of the
    process, and the loop that reads a file into a buffer of 1024 bytes and
    prints the lines that match. *)
From Stdlib Require Import Ascii.
From S2P Require Import Prelude Mem KString Printf Ulib.

(** ** The matcher *)

(** [matchhere] and [matchstar] call each other; the fuel bounds the depth. *)
Fixpoint matchhere (fuel : nat) (m : memory) (re text : Z) : option Z :=
  match fuel with
  | O => None
  | S k =>
      if ld8 m re =? 0 then Some 1
      else if ld8 m (re + 1) =? chr "*" then matchstar k m (ld8 m re) (re + 2) text
      else if (ld8 m re =? chr "$") && (ld8 m (re + 1) =? 0) then Some (Z.b2z (ld8 m text =? 0))
      else if negb (ld8 m text =? 0) && ((ld8 m re =? chr ".") || (ld8 m re =? ld8 m text)) then matchhere k m (re + 1) (text + 1)
      else Some 0
  end
with matchstar (fuel : nat) (m : memory) (c re text : Z) : option Z :=
  match fuel with
  | O => None
  | S k =>
      match matchhere k m re text with
      | None => None
      | Some r =>
          if ctrue r then Some 1
          else if negb (ld8 m text =? 0) && ((ld8 m text =? c) || (c =? chr ".")) then matchstar k m c re (text + 1)
          else Some 0
      end
  end.

(** The loop of [match], which looks at every suffix of the text. *)
Fixpoint match_loop (turns fuel : nat) (m : memory) (re text : Z) : option Z :=
  match turns with
  | O => None
  | S k =>
      match matchhere fuel m re text with
      | None => None
      | Some r =>
          if ctrue r then Some 1
          else if ld8 m text =? 0 then Some 0 else match_loop k fuel m re (text + 1)
      end
  end.
Definition match_ (fuel : nat) (m : memory) (re text : Z) : option Z :=
  if ld8 m re =? chr "^" then matchhere fuel m (re + 1) text
  else match_loop fuel fuel m re text.

(** ** The file *)

Section Grep.
(** [buf] is the address of the array; [fuel] bounds the searches for the end of
    a string, the lines of a buffer and the reads. *)
Context {E : Type} (read : Z -> Z -> M (prog E) Z) (buf : Z) (fuel : nat).

Definition sizeof_buf : Z := 1024.
Definition orelse {A} (o : option A) : M (prog E) A := match o with Some x => ret x | None => diverge end.

(** [write(1, p, n)] *)
Definition write (p n : Z) : M (prog E) unit :=
  modify (fun s => Prog (umem s) (uenv s) (uout s ++ rd_bytes (Z.to_nat n) (umem s) p)).

(** The inner loop: the lines of the buffer from [p] on; the rest is at the result. *)
Fixpoint grep_lines (k : nat) (pattern p : Z) : M (prog E) Z :=
  match k with
  | O => diverge
  | S k' =>
      m <- gets umem;;
      q <- orelse (strchr fuel m p (chr "010"));;
      if q =? 0 then ret p else
      poke q 0;;
      m <- gets umem;;
      r <- orelse (match_ fuel m pattern p);;
      (if ctrue r then
         poke q (chr "010");;
         write p (q + 1 - p)
       else ret tt);;
      grep_lines k' pattern (q + 1)
  end.

Fixpoint grep_loop (k : nat) (pattern m : Z) : M (prog E) unit :=
  match k with
  | O => diverge
  | S k' =>
      n <- read (buf + m) (sizeof_buf - m - 1);;
      if n >? 0 then
        let m := m + n in
        poke (buf + m) 0;;
        p <- grep_lines fuel pattern buf;;
        (if m >? 0 then
           let m := m - (p - buf) in
           modify (fun s => Prog (memmove (umem s) buf p m) (uenv s) (uout s));;
           grep_loop k' pattern m
         else grep_loop k' pattern m)
      else ret tt
  end.
Definition grep (pattern : Z) : M (prog E) unit := grep_loop fuel pattern 0.
End Grep.
