(* ===== verification/GrepProofs.v ===== *)
(** * grep prints the lines that match

    The language of a pattern, that the matcher decides it, and that [grep]
    prints the lines of its input in it, whatever pieces the input comes in. *)
From Stdlib Require Import Ascii.
From S2P Require Import Prelude Mem KString Printf PrintfProofs Ulib UlibProofs Grep.

Implicit Types (m : memory) (l r t w : list Z) (fuel k : nat).

(** ** Patterns *)

Inductive item : Type := One (p : Z) | Star (p : Z).
Definition accepts (p c : Z) : Prop := p = chr "." \/ p = c.

(** The items of a pattern after a leading [^], and whether it ends in [$]. *)
Fixpoint parse r : list item * bool :=
  match r with
  | [] => ([], false)
  | c :: r' =>
      match r' with
      | [] => if c =? chr "$" then ([], true) else ([One c], false)
      | d :: r'' =>
          if d =? chr "*" then let (its, e) := parse r'' in (Star c :: its, e)
          else let (its, e) := parse r' in (One c :: its, e)
      end
  end.

Fixpoint lang (its : list item) w : Prop :=
  match its with
  | [] => w = []
  | One p :: its' => exists c w', w = c :: w' /\ accepts p c /\ lang its' w'
  | Star p :: its' => exists u v, w = u ++ v /\ Forall (accepts p) u /\ lang its' v
  end.

(** A beginning of the text is in the language, all of it if the pattern ends in [$]. *)
Definition here (p : list item * bool) t : Prop := exists w s, t = w ++ s /\ lang p.1 w /\ (p.2 = true -> s = []).

(** The text has a part in the language of the pattern. *)
Definition matches r t : Prop :=
  exists pre mid post, t = pre ++ mid ++ post /\
    match r with
    | c :: r' => if c =? chr "^" then pre = [] /\ lang (parse r').1 mid /\ ((parse r').2 = true -> post = [])
                 else lang (parse r).1 mid /\ ((parse r).2 = true -> post = [])
    | [] => lang (parse r).1 mid /\ ((parse r).2 = true -> post = [])
    end.

Lemma here_one p its e t : here (One p :: its, e) t <-> exists c t', t = c :: t' /\ accepts p c /\ here (its, e) t'.
Proof.
  unfold here. cbn. split.
  - intros (w & s & -> & (c & w' & -> & Ha & Hl) & He). exists c, (w' ++ s). split; [done|]. split; [done|]. by exists w', s.
  - intros (c & t' & -> & Ha & w & s & -> & Hl & He). exists (c :: w), s. split; [done|]. split; [by exists c, w|done].
Qed.

Definition here_star (p : Z) (q : list item * bool) t : Prop := exists u v, t = u ++ v /\ Forall (accepts p) u /\ here q v.

Lemma here_star_spec p its e t : here (Star p :: its, e) t <-> here_star p (its, e) t.
Proof.
  unfold here, here_star. cbn. split.
  - intros (w & s & -> & (u & v & -> & Ha & Hl) & He). exists u, (v ++ s). rewrite <- app_assoc. split; [done|]. split; [done|]. by exists v, s.
  - intros (u & v & -> & Ha & w & s & -> & Hl & He). exists (u ++ w), s. rewrite app_assoc. split; [done|]. split; [by exists u, w|done].
Qed.

(** One turn of the loop of [matchstar]. *)
Lemma here_star_unfold p q t : here_star p q t <-> here q t \/ exists c t', t = c :: t' /\ accepts p c /\ here_star p q t'.
Proof.
  unfold here_star. split.
  - intros (u & v & -> & Ha & Hh). destruct Ha as [|c u Hc Hu]; [by left|]. right. exists c, (u ++ v). split; [done|]. split; [done|]. by exists u, v.
  - intros [Hh|(c & t' & -> & Hc & u & v & -> & Ha & Hh)]; [by exists [], t|]. exists (c :: u), v. split; [done|]. split; [by constructor|done].
Qed.

(** ** The matcher decides the language *)

Definition decides (o : option Z) (P : Prop) : Prop := exists b : bool, o = Some (Z.b2z b) /\ (b = true <-> P).

Lemma decides_iff o P Q : decides o P -> (P <-> Q) -> decides o Q.
Proof. intros (b & E & H) HPQ. exists b. split; [done|]. by rewrite H. Qed.
Lemma decides_yes (P : Prop) : P -> decides (Some 1) P.
Proof. intros H. by exists true. Qed.
Lemma decides_no (P : Prop) : ~ P -> decides (Some 0) P.
Proof. intros H. by exists false. Qed.

Lemma here_nil e t : here ([], e) t <-> (e = true -> t = []).
Proof.
  unfold here. cbn. split; [intros (w & s & -> & -> & He); done|]. intros He. exists [], t. done.
Qed.

(** What [matchhere] does with an item of one character. *)
Lemma decides_one k m c its e re text t :
  c <> 0 -> cstring m text t -> (forall t', cstring m (text + 1) t' -> (length t' < length t)%nat -> decides (matchhere k m (re + 1) (text + 1)) (here (its, e) t')) ->
  decides (if negb (ld8 m text =? 0) && ((c =? chr ".") || (c =? ld8 m text)) then matchhere k m (re + 1) (text + 1) else Some 0) (here (One c :: its, e) t).
Proof.
  intros Hc Ht IH. destruct t as [|d t]; cbn [cstring] in Ht.
  - rewrite Ht. apply decides_no. rewrite here_one. naive_solver.
  - destruct Ht as (Hd & Ed & Ht). rewrite Ed, (proj2 (Z.eqb_neq d 0) Hd). cbn [negb andb]. destruct ((c =? chr ".") || (c =? d)) eqn:E.
    + eapply decides_iff; [apply IH; [done|cbn; lia]|]. rewrite here_one. split; [intros H; exists d, t|naive_solver].
      split; [done|]. split; [|done]. apply orb_true_iff in E as [->%Z.eqb_eq| ->%Z.eqb_eq]; [by left|by right].
    + apply decides_no. rewrite here_one. intros (? & ? & [= <- <-] & [->| ->] & _); rewrite Z.eqb_refl in E; [done|by rewrite orb_true_r in E].
Qed.

Lemma match_both fuel :
  (forall m re text r t, cstring m re r -> cstring m text t -> (length r + length t < fuel)%nat -> decides (matchhere fuel m re text) (here (parse r) t)) /\
  (forall m c re text r t, cstring m re r -> cstring m text t -> (length r + length t + 1 < fuel)%nat -> decides (matchstar fuel m c re text) (here_star c (parse r) t)).
Proof.
  induction fuel as [|k [IH1 IH2]]; [split; intros; lia|]. split.
  - intros m re text r t Hr Ht Hk. cbn [matchhere]. destruct r as [|c r]; cbn [cstring] in Hr.
    { rewrite Hr. apply decides_yes. by exists [], t. }
    destruct Hr as (Hc & -> & Hr). rewrite (proj2 (Z.eqb_neq c 0) Hc). cbn [parse]. destruct r as [|d r].
    + pose proof Hr as Hr0. cbn [cstring] in Hr. rewrite Hr. change (0 =? chr "*") with false. rewrite Z.eqb_refl, andb_true_r. destruct (Z.eqb_spec c (chr "$")) as [->|Hd].
      * destruct t as [|d t]; cbn [cstring] in Ht; [rewrite Ht; apply decides_yes; by apply here_nil|].
        destruct Ht as (Hd & -> & _). rewrite (proj2 (Z.eqb_neq d 0) Hd). apply decides_no. rewrite here_nil. intros H. by specialize (H eq_refl).
      * apply decides_one; [done|done|]. intros t' Ht' Hl. apply (IH1 m (re + 1) (text + 1) [] t'); [done|done|cbn in *; lia].
    + pose proof Hr as (Hd & -> & Hr'). destruct (Z.eqb_spec d (chr "*")) as [->|Hs].
      * destruct (parse r) as [its e] eqn:Ep. eapply decides_iff; [|symmetry; apply here_star_spec]. rewrite <- Ep. apply IH2; [by replace (re + 2) with (re + 1 + 1) by lia|done|cbn in *; lia].
      * rewrite (proj2 (Z.eqb_neq d 0) Hd), andb_false_r. destruct (parse (d :: r)) as [its e] eqn:Ep.
        apply decides_one; [done|done|]. intros t' Ht' Hl. rewrite <- Ep. apply IH1; [done|done|cbn in *; lia].
  - intros m c re text r t Hr Ht Hk. cbn [matchstar]. destruct (IH1 m re text r t Hr Ht) as (b & -> & Hb); [lia|]. destruct b; cbn [Z.b2z ctrue].
    { apply decides_yes. apply here_star_unfold. left. by apply Hb. }
    assert (Hno : ~ here (parse r) t) by (rewrite <- Hb; done). change (ctrue 0) with false. cbv iota. destruct t as [|d t]; cbn [cstring] in Ht.
    + rewrite Ht. apply decides_no. rewrite here_star_unfold. naive_solver.
    + destruct Ht as (Hd & Ed & Ht). rewrite Ed, (proj2 (Z.eqb_neq d 0) Hd). cbn [negb andb]. destruct ((d =? c) || (c =? chr ".")) eqn:E.
      * eapply decides_iff; [apply IH2; [done|exact Ht|cbn in *; lia]|]. rewrite (here_star_unfold c _ (d :: t)). split; [|naive_solver].
        intros H. right. exists d, t. split; [done|]. split; [|done]. apply orb_true_iff in E as [->%Z.eqb_eq| ->%Z.eqb_eq]; [by right|by left].
      * apply decides_no. rewrite here_star_unfold. intros [?|(? & ? & [= <- <-] & [->| ->] & _)]; [done|rewrite Z.eqb_refl, orb_true_r in E; done|by rewrite Z.eqb_refl in E].
Qed.

Lemma match_loop_spec turns fuel m re text r t :
  cstring m re r -> cstring m text t -> (length r + length t < fuel)%nat -> (length t < turns)%nat ->
  decides (match_loop turns fuel m re text) (exists pre t', t = pre ++ t' /\ here (parse r) t').
Proof.
  revert text t. induction turns as [|k IH]; intros text t Hr Ht Hf Hk; [lia|]. cbn [match_loop]. destruct (proj1 (match_both fuel) m re text r t Hr Ht Hf) as (b & -> & Hb). destruct b; cbn [Z.b2z].
  { apply decides_yes. exists [], t. split; [done|by apply Hb]. }
  assert (Hno : ~ here (parse r) t) by (rewrite <- Hb; done). change (ctrue 0) with false. cbv iota. destruct t as [|d t]; cbn [cstring] in Ht.
  - rewrite Ht. apply decides_no. intros (pre & t' & E & H). symmetry in E. apply app_nil in E as [-> ->]. done.
  - destruct Ht as (Hd & -> & Ht). rewrite (proj2 (Z.eqb_neq d 0) Hd). eapply decides_iff; [apply IH; [done|exact Ht|cbn in *; lia|cbn in *; lia]|]. split.
    + intros (pre & t' & -> & H). by exists (d :: pre), t'.
    + intros (pre & t' & E & H). destruct pre as [|d' pre]; cbn in E; [by subst t'|]. injection E as <- ->. by exists pre, t'.
Qed.

Lemma match_spec fuel m re text r t :
  cstring m re r -> cstring m text t -> (length r + length t < fuel)%nat -> decides (match_ fuel m re text) (matches r t).
Proof.
  intros Hr Ht Hf. unfold match_.
  assert (Hloop : decides (match_loop fuel fuel m re text) (exists pre mid post, t = pre ++ mid ++ post /\ lang (parse r).1 mid /\ ((parse r).2 = true -> post = []))).
  { eapply decides_iff; [apply (match_loop_spec fuel fuel m re text r t); [done|done|done|lia]|]. unfold here. naive_solver. }
  unfold matches. destruct r as [|c r]; cbn [cstring] in Hr; [by rewrite Hr|]. destruct Hr as (Hc & -> & Hr). destruct (c =? chr "^"); [|done].
  eapply decides_iff; [apply (proj1 (match_both fuel) m (re + 1) text r t); [done|done|cbn in *; lia]|]. unfold here. split.
  - intros (w & s & -> & H). exists [], w, s. naive_solver.
  - intros (pre & mid & post & -> & -> & H). by exists mid, post.
Qed.

(** C26: The matcher decides the language of the pattern, and terminates: for any
    pattern and text, with fuel for their lengths, [match] answers 1 exactly if
    a part of the text is in the language of the items of the pattern, at the
    beginning if the pattern starts with [^] and at the end if it ends in [$];
    otherwise it answers 0. *)
Theorem match_correct fuel m re text r t :
  cstring m re r -> cstring m text t -> (length r + length t < fuel)%nat ->
  exists b : bool, match_ fuel m re text = Some (Z.b2z b) /\ (b = true <-> matches r t).
Proof. apply match_spec. Qed.

(** ** Lines *)

Notation newline := (chr "010").

Lemma strchr_no fuel m p l c : cstring m p l -> c ∉ l -> (length l < fuel)%nat -> strchr fuel m p c = Some 0.
Proof.
  revert p l. induction fuel as [|k IH]; intros p l H Hc Hf; [lia|]. cbn [strchr]. destruct l as [|d l]; cbn [cstring] in H; [by rewrite H|].
  destruct H as (Hd & -> & H). apply not_elem_of_cons in Hc as [Hc1 Hc2]. unfold ctrue. rewrite (proj2 (Z.eqb_neq d 0) Hd), (proj2 (Z.eqb_neq d c)) by done. cbn [negb].
  apply (IH _ l); [done|done|cbn in Hf; lia].
Qed.

Lemma strchr_yes fuel m p l1 c l2 : cstring m p (l1 ++ c :: l2) -> c ∉ l1 -> (length l1 < fuel)%nat -> strchr fuel m p c = Some (p + Z.of_nat (length l1)).
Proof.
  revert p l1. induction fuel as [|k IH]; intros p l1 H Hc Hf; [lia|]. cbn [strchr]. destruct l1 as [|d l1]; cbn [app cstring length] in *.
  - destruct H as (Hd & -> & H). unfold ctrue. rewrite (proj2 (Z.eqb_neq c 0) Hd), Z.eqb_refl. cbn [negb]. f_equal. lia.
  - destruct H as (Hd & -> & H). apply not_elem_of_cons in Hc as [Hc1 Hc2]. unfold ctrue. rewrite (proj2 (Z.eqb_neq d 0) Hd), (proj2 (Z.eqb_neq d c)) by done. cbn [negb].
    rewrite (IH _ l1); [f_equal; lia|done|done|lia].
Qed.

(** What is printed of an input: the lines that match, up to the first that does
    not fit in the buffer and without a last line that does not end. *)
Inductive grepped r : list Z -> list Z -> Prop :=
| g_end l : newline ∉ l -> grepped r l []
| g_long l rest : newline ∉ l -> (1022 < length l)%nat -> grepped r (l ++ newline :: rest) []
| g_yes l rest o : newline ∉ l -> (length l <= 1022)%nat -> matches r l -> grepped r rest o -> grepped r (l ++ newline :: rest) (l ++ newline :: o)
| g_no l rest o : newline ∉ l -> (length l <= 1022)%nat -> ~ matches r l -> grepped r rest o -> grepped r (l ++ newline :: rest) o.

Lemma line_split l : newline ∉ l \/ exists l1 l2, l = l1 ++ newline :: l2 /\ newline ∉ l1.
Proof.
  induction l as [|c l IH]; [left; apply not_elem_of_nil|]. destruct (decide (c = newline)) as [->|Hc]; [right; exists [], l; split; [done|apply not_elem_of_nil]|].
  destruct IH as [H|(l1 & l2 & -> & H)]; [left; by apply not_elem_of_cons|]. right. exists (c :: l1), l2. split; [done|by apply not_elem_of_cons].
Qed.

Lemma grepped_full r l rest : newline ∉ l -> length l = 1023%nat -> grepped r (l ++ rest) [].
Proof.
  intros Hl Hlen. destruct (line_split rest) as [H|(l1 & l2 & -> & H)].
  - apply g_end. by apply not_elem_of_app.
  - rewrite app_assoc. apply g_long; [by apply not_elem_of_app|]. rewrite length_app. lia.
Qed.

Section Grep.
Context {E : Type} (read : Z -> Z -> M (prog E) Z) (rest : E -> list Z) (buf : Z) (fuel : nat).
Implicit Type s : prog E.

Context (Hread : read_spec read rest) (Hbuf : 0 < buf) (pattern : Z) (r : list Z).
Context (Hfuel : (length r + 1100 < fuel)%nat) (Hpat : pattern + Z.of_nat (length r) < buf \/ buf + sizeof_buf <= pattern).

Definition outside_buf m m' : Prop := forall x, x < buf \/ buf + sizeof_buf <= x -> ld8 m' x = ld8 m x.

Lemma pattern_kept m m' : cstring m pattern r -> outside_buf m m' -> cstring m' pattern r.
Proof using Hfuel Hpat. intros H Ho. eapply cstring_agree; [exact H|]. intros x Hx. apply Ho. lia. Qed.

(** The part of a buffer [l] up to its last newline is dealt with: [o] is printed. *)
Definition printed l l2 o : Prop := forall rest o', grepped r (l2 ++ rest) o' -> grepped r (l ++ rest) (o ++ o').

Lemma wp_grep_lines k p l s (Q : Z -> prog E -> Prop) :
  cstring (umem s) pattern r -> cstring (umem s) p l -> buf <= p -> p + Z.of_nat (length l) < buf + sizeof_buf -> (length l < k)%nat ->
  (forall l1 l2 o s', l = l1 ++ l2 -> newline ∉ l2 -> cstring (umem s') (p + Z.of_nat (length l1)) l2 -> outside_buf (umem s) (umem s') -> uenv s' = uenv s ->
     uout s' = uout s ++ o -> printed l l2 o -> Q (p + Z.of_nat (length l1)) s') ->
  wp (grep_lines fuel k pattern p) s Q.
Proof using Hbuf Hfuel Hpat.
  revert p l s Q. induction k as [|k IH]; intros p l s Q Hp Hl Hb1 Hb2 Hk HQ; [lia|]. unfold sizeof_buf in *. cbn [grep_lines]. apply wp_bind, wp_gets, wp_bind.
  destruct (line_split l) as [Hn|(l1 & l2 & -> & Hn)].
  - rewrite (strchr_no fuel _ _ l) by (done || lia). apply wp_ret. change (0 =? 0) with true. apply wp_ret.
    replace p with (p + Z.of_nat (length (@nil Z))) by (cbn; lia). apply (HQ [] l []); [done|done|by cbn; rewrite Z.add_0_r|done|done|by rewrite app_nil_r|by intros rs o' H].
  - rewrite length_app in Hb2, Hk. cbn [length] in Hb2, Hk. rewrite (strchr_yes fuel _ _ l1 _ l2) by (done || lia). apply wp_ret. rewrite (proj2 (Z.eqb_neq _ 0)) by lia.
    set (q := p + Z.of_nat (length l1)). unfold poke. apply wp_bind, wp_modify, wp_bind, wp_gets, wp_bind. cbn [umem].
    assert (H0 : ld8 (st8 (umem s) q 0) q = 0) by (by rewrite ld8_st8, Z.eqb_refl).
    assert (Hne : forall v x, x <> q -> ld8 (st8 (umem s) q v) x = ld8 (umem s) x) by (intros v x Hx; rewrite ld8_st8; by destruct (Z.eqb_spec x q)).
    destruct (match_spec fuel (st8 (umem s) q 0) pattern p r l1) as (b & -> & Hb).
    { eapply pattern_kept; [exact Hp|]. intros x Hx. apply Hne. unfold sizeof_buf in Hx. lia. }
    { eapply cstring_cut; [exact Hl|done|]. intros x Hx. apply Hne. lia. }
    { lia. }
    apply wp_ret. pose proof (cstring_app _ _ l1 (newline :: l2) Hl) as (_ & _ & Hl2).
    (* the rest of the buffer, whatever is stored at [q] *)
    assert (Hgo : forall m' o, m' = st8 (umem s) q 0 \/ m' = st8 (st8 (umem s) q 0) q newline ->
      printed (l1 ++ newline :: l2) l2 o -> wp (grep_lines fuel k pattern (q + 1)) (Prog m' (uenv s) (uout s ++ o)) Q).
    { intros m' o Hm Hpr. assert (Hm' : forall x, x <> q -> ld8 m' x = ld8 (umem s) x).
      { intros x Hx. destruct Hm as [-> | ->]; [by apply Hne|]. rewrite ld8_st8. destruct (Z.eqb_spec x q); [done|]. by apply Hne. }
      apply (IH (q + 1) l2); cbn [umem uenv uout]; [|eapply cstring_agree; [exact Hl2|intros x Hx; apply Hm'; lia]|lia|unfold sizeof_buf; lia|lia|].
      { eapply pattern_kept; [exact Hp|]. intros x Hx. apply Hm'. unfold sizeof_buf in Hx. lia. }
      intros l3 l4 o' s' -> Hn' Hs' Ho' Hu' Huo' Hpr'. replace (q + 1 + Z.of_nat (length l3)) with (p + Z.of_nat (length (l1 ++ newline :: l3))) in * by (rewrite length_app; cbn; lia).
      apply (HQ _ l4 (o ++ o')); [by rewrite <- app_assoc|done|done| |done|by rewrite Huo', app_assoc|].
      - intros x Hx. rewrite Ho' by done. apply Hm'. unfold sizeof_buf in Hx. lia.
      - intros rs o3 H. rewrite <- (app_assoc o). apply Hpr, Hpr', H. }
    apply wp_bind. destruct b; cbn [Z.b2z].
    + change (ctrue 1) with true. cbv iota. apply wp_bind, wp_modify. unfold write. apply wp_modify. cbn [umem uenv uout].
      replace (rd_bytes _ _ p) with (l1 ++ [newline]); [apply Hgo; [by right|]|].
      * intros rs o' H. rewrite <- !app_assoc. apply g_yes; [done|lia|by apply Hb|done].
      * replace (Z.to_nat (q + 1 - p)) with (length (l1 ++ [newline])) by (rewrite length_app; cbn [length]; unfold q; lia). symmetry. apply (cstring_rd _ _ _ l2). rewrite <- app_assoc.
        eapply cstring_agree; [exact Hl|]. intros x Hx. rewrite ld8_st8. destruct (Z.eqb_spec x q) as [->|]; [|by apply Hne]. symmetry. change (u8 newline) with newline. by apply (cstring_app _ _ l1 (newline :: l2) Hl).
    + change (ctrue 0) with false. cbv iota. apply wp_ret. rewrite <- (app_nil_r (uout s)). apply Hgo; [by left|].
      intros rs o' H. rewrite <- app_assoc. apply g_no; [done|lia|by rewrite <- Hb|done].
Qed.

(** [memmove] to a lower address, or in place. *)
Lemma memmove_lower m d p n x : d <= p -> 0 <= n -> ld8 (memmove m d p n) x = if (d <=? x) && (x <? d + n) then ld8 m (p + (x - d)) else ld8 m x.
Proof.
  clear. intros Hd Hn. unfold memmove. destruct (Z.gtb_spec p d).
  - rewrite memmove_up_at by lia. rewrite Z2Nat.id by lia. done.
  - rewrite memmove_down_at, Z2Nat.id by lia. replace (d + n - n) with d by lia. by replace (p + n + (x - (d + n))) with (p + (x - d)) by lia.
Qed.

(** [l] is the line the buffer begins with; the rest of it is still to be read. *)
Lemma wp_grep_loop k l s :
  cstring (umem s) pattern r -> (forall i c, l !! i = Some c -> ld8 (umem s) (buf + Z.of_nat i) = c) -> newline ∉ l -> (length l <= 1023)%nat ->
  (forall c, c ∈ l ++ rest (uenv s) -> c <> 0) -> (length (rest (uenv s)) < k)%nat ->
  wp (grep_loop read buf fuel k pattern (Z.of_nat (length l))) s (fun _ s' => outside_buf (umem s) (umem s') /\ exists o, grepped r (l ++ rest (uenv s)) o /\ uout s' = uout s ++ o).
Proof using Hread Hbuf Hfuel Hpat.
  revert l s. induction k as [|k IH]; intros l s Hp Hl Hn Hlen Hz Hk; [lia|]. cbn [grep_loop]. unfold sizeof_buf. apply wp_bind. eapply wp_mono; [apply Hread; lia|].
  intros v s1 [Ho [(Hv & Hend & _ & Hm)|(c & -> & Hv & Hr & Hc & Hm)]]; cbn beta.
  - replace (v >? 0) with false by lia. apply wp_ret. split; [intros x _; apply Hm|]. exists []. rewrite app_nil_r. split; [|done].
    destruct Hend as [H| ->]; [|rewrite app_nil_r; by apply g_end]. apply grepped_full; [done|lia].
  - replace (Z.of_nat (length c) >? 0) with true by lia. unfold poke. apply wp_bind, wp_modify, wp_bind. set (m1 := st8 (umem s1) (buf + (Z.of_nat (length l) + Z.of_nat (length c))) 0).
    assert (Hout : outside_buf (umem s) m1).
    { intros x Hx. unfold m1, sizeof_buf in *. rewrite ld8_st8. rewrite (proj2 (Z.eqb_neq x _)) by lia. apply Hm. lia. }
    rewrite Hr in Hz, Hk. rewrite length_app in Hk. apply (wp_grep_lines fuel buf (l ++ c)); cbn [umem uenv uout]; [by eapply pattern_kept| |lia|rewrite length_app; unfold sizeof_buf; lia|rewrite length_app; lia|].
    { apply cstring_intro; [intros d Hd; apply Hz; rewrite app_assoc; apply elem_of_app; by left| |unfold m1; by rewrite length_app, Nat2Z.inj_add, ld8_st8, Z.eqb_refl].
      intros i d Hi. unfold m1. rewrite ld8_st8. pose proof (lookup_lt_Some _ _ _ Hi) as Hil. rewrite length_app in Hil. rewrite (proj2 (Z.eqb_neq _ _)) by lia.
      apply lookup_app_Some in Hi as [Hi|[Hge Hi]]; [apply lookup_lt_Some in Hi as Hlt; rewrite Hm by lia; by apply Hl|].
      specialize (Hc _ _ Hi). by replace (buf + Z.of_nat i) with (buf + Z.of_nat (length l) + Z.of_nat (i - length l)) by lia. }
    intros l1 l2 o s2 El Hn2 Hl2 Hout2 He2 Ho2 Hpr. replace (Z.of_nat (length l) + Z.of_nat (length c) >? 0) with true by lia. cbv zeta. apply wp_bind, wp_modify.
    assert (Hsum : (length l1 + length l2 = length l + length c)%nat) by (by rewrite <- !length_app, El).
    replace (Z.of_nat (length l) + _ - _) with (Z.of_nat (length l2)) by lia. set (s3 := Prog _ _ _).
    assert (Hm3 : forall x, ld8 (umem s3) x = if (buf <=? x) && (x <? buf + Z.of_nat (length l2)) then ld8 (umem s2) (buf + Z.of_nat (length l1) + (x - buf)) else ld8 (umem s2) x).
    { intros x. apply memmove_lower; lia. }
    assert (Hout3 : outside_buf (umem s) (umem s3)).
    { intros x Hx. rewrite <- Hout, <- Hout2, Hm3 by done. unfold sizeof_buf in Hx. by rewrite (proj2 (andb_false_iff _ _)) by lia. }
    eapply wp_mono; [apply IH; try done|].
    + by eapply pattern_kept.
    + intros i d Hi. pose proof (lookup_lt_Some _ _ _ Hi). rewrite Hm3. rewrite (proj2 (andb_true_iff _ _)) by lia. destruct (cstring_lookup _ _ _ _ _ Hl2 Hi) as [<- _]. f_equal. lia.
    + lia.
    + cbn [uenv s3]. rewrite He2. cbn [uenv]. intros d Hd. apply Hz. rewrite app_assoc, El, <- app_assoc. apply elem_of_app. by right.
    + cbn [uenv s3]. rewrite He2. cbn [uenv]. lia.
    + intros [] s' (Hout' & o' & Hg & Hu). split; [intros x Hx; by rewrite Hout', Hout3|]. cbn [uenv uout s3] in Hg, Hu. rewrite He2 in Hg. cbn [uenv] in Hg.
      exists (o ++ o'). rewrite Hr, app_assoc. split; [by apply Hpr|]. rewrite Hu, Ho2, app_assoc. cbn [uout]. by rewrite Ho.
Qed.

(** C25: [grep] prints the lines that match, and terminates: for any input without
    NUL bytes, read in any pieces, the output is the lines of the input that
    match the pattern, each with its newline, in order, up to the first line of
    more than 1022 bytes, where [grep] stops; a last line without a newline is
    not printed.  No byte outside the buffer changes. *)
Theorem grep_correct s :
  cstring (umem s) pattern r -> (forall c, c ∈ rest (uenv s) -> c <> 0) -> (length (rest (uenv s)) < fuel)%nat ->
  exists s' o, grep read buf fuel pattern s = Ret (tt, s') /\ grepped r (rest (uenv s)) o /\ uout s' = uout s ++ o /\ outside_buf (umem s) (umem s').
Proof using Hread Hbuf Hfuel Hpat.
  intros Hp Hz Hk. pose proof (wp_grep_loop fuel [] s Hp) as H. apply wp_inv in H as ([] & s' & Es & Ho & o & Hg & Hu); [|done|apply not_elem_of_nil|cbn; lia|done|done].
  by exists s', o.
Qed.
End Grep.
