(* ===== verification/Sh.v ===== *)
(** * user/sh.c

    The shell: reading, parsing and running a command.  What it asks of the
    kernel is the tree of its system calls with a branch for every result.

    In the parser a token is two pointers into the line; the nodes of
    a command are allocated as the parser goes and [parseexec] fills in a node
    others already point to, so the nodes are a store, a pointer to one its
    index.  [malloc] is taken to succeed.  The recursive descent carries fuel,
    since the C has no bound on it. *)
From Stdlib Require Import Ascii.
From S2P Require Import Prelude Mem KString Printf Ulib Sysfile.

Definition MAXARGS : Z := 10.

(** [struct cmd] and its kinds. *)
Inductive node : Type :=
| EXEC (argv eargv : list Z)
| REDIR (cmd : nat) (file efile mode fd : Z)
| PIPE (left right : nat)
| LIST (left right : nat)
| BACK (cmd : nat).

(** The memory of the line, the pointer [*ps] the parser moves, the nodes. *)
Record sh : Type := Shell { lmem : memory; ps : Z; nodes : list node }.
Definition set_lmem x s := Shell x (ps s) (nodes s).
Definition set_ps x s := Shell (lmem s) x (nodes s).
Definition set_nodes x s := Shell (lmem s) (ps s) x.

(** ** Constructors *)

Definition new (n : node) : M sh nat :=
  ns <- gets nodes;;
  modify (set_nodes (ns ++ [n]));;
  ret (length ns).
Definition execcmd : M sh nat := new (EXEC (replicate (Z.to_nat MAXARGS) 0) (replicate (Z.to_nat MAXARGS) 0)).
Definition redircmd (subcmd : nat) (file efile mode fd : Z) : M sh nat := new (REDIR subcmd file efile mode fd).
Definition pipecmd (left right : nat) : M sh nat := new (PIPE left right).
Definition listcmd (left right : nat) : M sh nat := new (LIST left right).
Definition backcmd (subcmd : nat) : M sh nat := new (BACK subcmd).

(** ** Tokens *)

Definition whitespace : list Z := [chr " "; chr "009"; chr "013"; chr "010"; chr "011"].
Definition symbols : list Z := # "<|>&;()".

(** [strchr] of a constant string, as a condition: NUL is in no string. *)
Definition inchars (l : list Z) (c : Z) : bool := existsb (Z.eqb c) l.

(** [while(s < es && cond) s++;] with at most [k] turns. *)
Fixpoint skip_while (f : Z -> bool) (k : nat) (m : memory) (es s : Z) : Z :=
  match k with
  | O => s
  | S k' => if (s <? es) && f (ld8 m s) then skip_while f k' m es (s + 1) else s
  end.
Definition skip_space (m : memory) (es s : Z) : Z := skip_while (inchars whitespace) (Z.to_nat (es - s)) m es s.
Definition skip_word (m : memory) (es s : Z) : Z :=
  skip_while (fun c => negb (inchars whitespace c) && negb (inchars symbols c)) (Z.to_nat (es - s)) m es s.

(** The token with its bounds [q] and [eq]. *)
Definition gettoken (es : Z) : M sh (Z * Z * Z) :=
  m <- gets lmem;;
  s <- gets ps;;
  let s := skip_space m es s in
  let q := s in
  let c := ld8 m s in
  let '(r, s) :=
    if c =? 0 then (c, s)
    else if inchars (# "|();&<") c then (c, s + 1)
    else if c =? chr ">" then if ld8 m (s + 1) =? chr ">" then (chr "+", s + 1 + 1) else (c, s + 1)
    else (chr "a", skip_word m es s) in
  let eq := s in
  modify (set_ps (skip_space m es s));;
  ret (r, q, eq).

Definition peek (es : Z) (toks : list Z) : M sh bool :=
  m <- gets lmem;;
  s <- gets ps;;
  let s := skip_space m es s in
  modify (set_ps s);;
  ret (negb (ld8 m s =? 0) && inchars toks (ld8 m s)).

(** ** The parser *)

Fixpoint parseredirs (k : nat) (es : Z) (cmd : nat) : M sh nat :=
  match k with
  | O => diverge
  | S k' =>
      b <- peek es (# "<>");;
      if b then
        t <- gettoken es;;
        f <- gettoken es;;
        let '(tok, _, _) := t in
        let '(r, q, eq) := f in
        if negb (r =? chr "a") then panic "missing file for redirection" else
        cmd <- (if tok =? chr "<" then redircmd cmd q eq O_RDONLY 0
                else if tok =? chr ">" then redircmd cmd q eq (Z.lor (Z.lor O_WRONLY O_CREATE) O_TRUNC) 1
                else if tok =? chr "+" then redircmd cmd q eq (Z.lor O_WRONLY O_CREATE) 1
                else ret cmd);;
        parseredirs k' es cmd
      else ret cmd
  end.

(** [cmd->argv[argc] = q; cmd->eargv[argc] = eq;] *)
Definition set_arg (cmd : nat) (argc q eq : Z) : M sh unit :=
  ns <- gets nodes;;
  match ns !! cmd with
  | Some (EXEC argv eargv) =>
      if argc <? MAXARGS then modify (set_nodes (<[cmd := EXEC (<[Z.to_nat argc := q]> argv) (<[Z.to_nat argc := eq]> eargv)]> ns))
      else fault
  | _ => fault
  end.

(** The loop of [parseexec] over the arguments. *)
Fixpoint parseargs (k : nat) (es : Z) (cmd rt : nat) (argc : Z) : M sh nat :=
  match k with
  | O => diverge
  | S k' =>
      b <- peek es (# "|)&;");;
      if b then set_arg cmd argc 0 0;; ret rt else
      t <- gettoken es;;
      let '(tok, q, eq) := t in
      if tok =? 0 then set_arg cmd argc 0 0;; ret rt else
      if negb (tok =? chr "a") then panic "syntax" else
      set_arg cmd argc q eq;;
      let argc := argc + 1 in
      if argc >=? MAXARGS then panic "too many args" else
      rt <- parseredirs k' es rt;;
      parseargs k' es cmd rt argc
  end.

(** The loop of [parseline] over the ampersands. *)
Fixpoint parseback (k : nat) (es : Z) (cmd : nat) : M sh nat :=
  match k with
  | O => diverge
  | S k' =>
      b <- peek es (# "&");;
      if b then
        gettoken es;;
        cmd <- backcmd cmd;;
        parseback k' es cmd
      else ret cmd
  end.

Fixpoint parseline (k : nat) (es : Z) : M sh nat :=
  match k with
  | O => diverge
  | S k' =>
      cmd <- parsepipe k' es;;
      cmd <- parseback k' es cmd;;
      b <- peek es (# ";");;
      if b then
        gettoken es;;
        r <- parseline k' es;;
        listcmd cmd r
      else ret cmd
  end
with parsepipe (k : nat) (es : Z) : M sh nat :=
  match k with
  | O => diverge
  | S k' =>
      cmd <- parseexec k' es;;
      b <- peek es (# "|");;
      if b then
        gettoken es;;
        r <- parsepipe k' es;;
        pipecmd cmd r
      else ret cmd
  end
with parseexec (k : nat) (es : Z) : M sh nat :=
  match k with
  | O => diverge
  | S k' =>
      b <- peek es (# "(");;
      if b then parseblock k' es
      else
        cmd <- execcmd;;
        rt <- parseredirs k' es cmd;;
        parseargs k' es cmd rt 0
  end
with parseblock (k : nat) (es : Z) : M sh nat :=
  match k with
  | O => diverge
  | S k' =>
      b <- peek es (# "(");;
      if negb b then panic "parseblock" else
      gettoken es;;
      cmd <- parseline k' es;;
      b <- peek es (# ")");;
      if negb b then panic "syntax - missing )" else
      gettoken es;;
      parseredirs k' es cmd
  end.

(** ** The end of the strings *)

Definition sh_poke (a v : Z) : M sh unit := modify (fun s => set_lmem (st8 (lmem s) a v) s).

(** [for(i=0; ecmd->argv[i]; i++) *ecmd->eargv[i] = 0;] *)
Fixpoint end_args (argv eargv : list Z) : M sh unit :=
  match argv, eargv with
  | q :: argv', eq :: eargv' => if q =? 0 then ret tt else sh_poke eq 0;; end_args argv' eargv'
  | _, _ => fault
  end.

Fixpoint nulterminate (k : nat) (cmd : nat) : M sh unit :=
  match k with
  | O => diverge
  | S k' =>
      ns <- gets nodes;;
      match ns !! cmd with
      | Some (EXEC argv eargv) => end_args argv eargv
      | Some (REDIR c _ efile _ _) => nulterminate k' c;; sh_poke efile 0
      | Some (PIPE l r) | Some (LIST l r) => nulterminate k' l;; nulterminate k' r
      | Some (BACK c) => nulterminate k' c
      | None => fault
      end
  end.

(** What is written to standard error before a panic is not part of the state. *)
Definition parsecmd (k : nat) (s : Z) : M sh nat :=
  m <- gets lmem;;
  match strlen k m s with
  | None => diverge
  | Some n =>
      let es := s + n in
      modify (set_ps s);;
      cmd <- parseline k es;;
      peek es [];;
      s <- gets ps;;
      if negb (s =? es) then panic "syntax" else
      nulterminate k cmd;;
      ret cmd
  end.

(** ** Running a command

    [Fork] has the child, the parent and the failure; a format is spelt as in the
    source.  [Unfinished] is no system call: the fuel ran out, or the parser
    faulted. *)

Inductive run : Type :=
| Exit (status : Z)
| Exec (path : Z) (argv : list Z) (failed : run)
| Close (fd : Z) (next : run)
| Open (path mode : Z) (next : Z -> run)
| Dup (fd : Z) (next : Z -> run)
| Pipe (next : option (Z * Z) -> run)
| Fork (child parent failed : run)
| Wait (next : run)
| Chdir (path : Z) (next : Z -> run)
| Fprintf (fmt : string) (arg : Z) (next : run)
| Unfinished.

(** [panic] of the shell: its message, then the end. *)
Definition sh_panic (msg : string) : run := Fprintf msg 0 (Exit 1).
Definition fork1 (child parent : run) : run := Fork child parent (sh_panic "fork").

(** [argv] up to its null pointer. *)
Fixpoint arguments (argv : list Z) : list Z :=
  match argv with
  | [] => []
  | q :: argv' => if q =? 0 then [] else q :: arguments argv'
  end.

(** [runcmd] never returns; the fuel bounds the depth of the command. *)
Fixpoint runcmd (k : nat) (ns : list node) (cmd : nat) : run :=
  match k with
  | O => Unfinished
  | S k' =>
      match ns !! cmd with
      | None => Exit 1
      | Some (EXEC argv _) =>
          match arguments argv with
          | [] => Exit 1
          | path :: _ => Exec path (arguments argv) (Fprintf "exec %s failed\n" path (Exit 0))
          end
      | Some (REDIR c file _ mode fd) =>
          Close fd (Open file mode (fun r =>
            if r <? 0 then Fprintf "open %s failed\n" file (Exit 1) else runcmd k' ns c))
      | Some (LIST l r) =>
          fork1 (runcmd k' ns l) (Wait (runcmd k' ns r))
      | Some (PIPE l r) =>
          Pipe (fun v =>
            match v with
            | None => sh_panic "pipe"
            | Some (p0, p1) =>
                fork1 (Close 1 (Dup p1 (fun _ => Close p0 (Close p1 (runcmd k' ns l)))))
                  (fork1 (Close 0 (Dup p0 (fun _ => Close p0 (Close p1 (runcmd k' ns r)))))
                    (Close p0 (Close p1 (Wait (Wait (Exit 0))))))
            end)
      | Some (BACK c) => fork1 (runcmd k' ns c) (Exit 0)
      end
  end.

(** ** The loop of [main] *)

(** [getcmd]: the prompt and a line.  [c] is the address of the local variable
    of [gets]. *)
Definition getcmd {E} (read : Z -> Z -> M (prog E) Z) (buf nbuf c : Z) : M (prog E) Z :=
  modify (fun s => Prog (umem s) (uenv s) (uout s ++ # "$ "));;
  modify (fun s => Prog (memset (umem s) buf 0 nbuf) (uenv s) (uout s));;
  ugets read buf nbuf c;;
  b <- gets (fun s => ld8 (umem s) buf);;
  if b =? 0 then ret (-1) else ret 0.

(** What [main] does with the line at [buf]; [next] is the rest of the loop. *)
Definition main_turn (k : nat) (m : memory) (buf : Z) (next : memory -> run) : run :=
  if (ld8 m buf =? chr "c") && (ld8 m (buf + 1) =? chr "d") && (ld8 m (buf + 2) =? chr " ") then
    match strlen k m buf with
    | None => Unfinished
    | Some n =>
        let m' := st8 m (buf + n - 1) 0 in
        Chdir (buf + 3) (fun r => if r <? 0 then Fprintf "cannot cd %s\n" (buf + 3) (next m') else next m')
    end
  else
    fork1 (match parsecmd k buf (Shell m buf []) with
           | Ret (cmd, s) => runcmd k (nodes s) cmd
           | Panic msg => sh_panic msg
           | _ => Unfinished
           end)
      (Wait (next m)).
