(* ===== verification/ShGrammar.v ===== *)
(** * The language of the shell

    Tokens, the grammar of commands over them as rules, that the grammar is
    unambiguous, and a text for every command that has it as its meaning. *)
From Stdlib Require Import Ascii.
From S2P Require Import Prelude Mem KString Printf Sysfile Sh.

(** ** Tokens *)

Inductive token : Type := Sym (c : Z) | Append | Word (w : list Z).
Implicit Types (ts : list token) (w l : list Z).

Definition word_char (c : Z) : bool := negb (inchars whitespace c) && negb (inchars symbols c).
Definition flush l : list token := match l with [] => [] | _ => [Word l] end.

(** The tokens of a text; [cur] is the word read so far. *)
Fixpoint lex (cur : list Z) l : list token :=
  match l with
  | [] => flush cur
  | c :: l' =>
      if inchars whitespace c then flush cur ++ lex [] l'
      else if inchars symbols c then
        flush cur ++
        match l' with
        | d :: l'' => if (c =? chr ">") && (d =? chr ">") then Append :: lex [] l'' else Sym c :: lex [] l'
        | [] => [Sym c]
        end
      else lex (cur ++ [c]) l'
  end.

(** ** Commands *)

Inductive tree : Type :=
| TExec (args : list (list Z))
| TRedir (t : tree) (file : list Z) (mode fd : Z)
| TPipe (l r : tree)
| TList (l r : tree)
| TBack (t : tree).

Definition redir : Type := list Z * (Z * Z).
Implicit Types (t : tree) (rs : list redir) (ws : list (list Z)).

(** How a redirection token opens its file, and as which descriptor. *)
Definition redirects (k : token) : option (Z * Z) :=
  match k with
  | Append => Some (Z.lor O_WRONLY O_CREATE, 1)
  | Sym c => if c =? chr "<" then Some (O_RDONLY, 0)
             else if c =? chr ">" then Some (Z.lor (Z.lor O_WRONLY O_CREATE) O_TRUNC, 1) else None
  | Word _ => None
  end.

(** The redirections of a command, the first the innermost. *)
Definition wrap rs t : tree := fold_left (fun t r => TRedir t r.1 r.2.1 r.2.2) rs t.
Definition backs (n : nat) t : tree := Nat.iter n TBack t.

(** ** The grammar *)

(** The next token is one of the characters. *)
Definition next_in (cs : list Z) ts : Prop := match ts with Sym c :: _ => inchars cs c = true | _ => False end.

Inductive redirs : list token -> list redir -> list token -> Prop :=
| r_done ts : (forall k ts', ts = k :: ts' -> redirects k = None) -> redirs ts [] ts
| r_more k md w ts rs ts' : redirects k = Some md -> redirs ts rs ts' -> redirs (k :: Word w :: ts) ((w, md) :: rs) ts'.

Inductive args : list token -> list (list Z) -> list redir -> list token -> Prop :=
| a_stop ts : ts = [] \/ next_in (# "|)&;") ts -> args ts [] [] ts
| a_word w ts rs ts1 ws rs' ts2 : redirs ts rs ts1 -> args ts1 ws rs' ts2 -> args (Word w :: ts) (w :: ws) (rs ++ rs') ts2.

Inductive g_line : list token -> tree -> list token -> Prop :=
| gl_one ts t ts1 n ts2 : g_pipe ts t ts1 -> ts1 = replicate n (Sym (chr "&")) ++ ts2 -> ~ next_in (# "&;") ts2 -> g_line ts (backs n t) ts2
| gl_more ts t ts1 n ts2 t' ts3 :
    g_pipe ts t ts1 -> ts1 = replicate n (Sym (chr "&")) ++ Sym (chr ";") :: ts2 -> g_line ts2 t' ts3 -> g_line ts (TList (backs n t) t') ts3
with g_pipe : list token -> tree -> list token -> Prop :=
| gp_one ts t ts1 : g_exec ts t ts1 -> ~ next_in (# "|") ts1 -> g_pipe ts t ts1
| gp_more ts t ts1 t' ts2 : g_exec ts t (Sym (chr "|") :: ts1) -> g_pipe ts1 t' ts2 -> g_pipe ts (TPipe t t') ts2
with g_exec : list token -> tree -> list token -> Prop :=
| ge_block ts t ts1 rs ts2 : g_line ts t (Sym (chr ")") :: ts1) -> redirs ts1 rs ts2 -> g_exec (Sym (chr "(") :: ts) (wrap rs t) ts2
| ge_simple ts rs ts1 ws rs' ts2 :
    ~ next_in (# "(") ts -> redirs ts rs ts1 -> args ts1 ws rs' ts2 -> Z.of_nat (length ws) < MAXARGS -> g_exec ts (wrap (rs ++ rs') (TExec ws)) ts2.

Scheme g_line_rule := Minimality for g_line Sort Prop
with g_pipe_rule := Minimality for g_pipe Sort Prop
with g_exec_rule := Minimality for g_exec Sort Prop.
Combined Scheme g_rules from g_line_rule, g_pipe_rule, g_exec_rule.

(** ** The grammar is unambiguous *)

Lemma redirs_fun ts rs ts' : redirs ts rs ts' -> forall rs2 ts2, redirs ts rs2 ts2 -> rs = rs2 /\ ts' = ts2.
Proof.
  induction 1 as [ts H|k md w ts rs ts' Hk _ IH]; intros rs2 ts2 H2; inversion H2 as [? H0|? md' ? ? rs3 ? Hk' H3]; subst.
  - done.
  - by rewrite (H _ _ eq_refl) in Hk'.
  - by rewrite (H0 _ _ eq_refl) in Hk.
  - destruct (IH _ _ H3) as [-> ->]. rewrite Hk in Hk'. by injection Hk' as ->.
Qed.

Lemma args_fun ts ws rs ts' : args ts ws rs ts' -> forall ws2 rs2 ts2, args ts ws2 rs2 ts2 -> ws = ws2 /\ rs = rs2 /\ ts' = ts2.
Proof.
  induction 1 as [ts H|w ts rs ts1 ws rs' ts2 Hr _ IH]; intros ws3 rs3 ts3 H2; inversion H2 as [? H0|? ? rs4 ts4 ? rs5 ? Hr' H3]; subst; [done|by destruct H|by destruct H0|].
  destruct (redirs_fun _ _ _ Hr _ _ Hr') as [-> ->]. by destruct (IH _ _ _ H3) as (-> & -> & ->).
Qed.

Lemma amps_fun n n' ts ts' : replicate n (Sym (chr "&")) ++ ts = replicate n' (Sym (chr "&")) ++ ts' -> ~ next_in (# "&") ts -> ~ next_in (# "&") ts' -> n = n' /\ ts = ts'.
Proof.
  revert n'. induction n as [|n IH]; intros [|n'] E H H'; cbn in E; [done|subst ts; by destruct H|subst ts'; by destruct H'|]. injection E as E. by destruct (IH _ E H H') as [-> ->].
Qed.

Lemma next_amp ts : ~ next_in (# "&;") ts -> ~ next_in (# "&") ts.
Proof. intros H H1. apply H. destruct ts as [|[c| |w] ts]; try done. unfold next_in, inchars in *. cbn in H1 |- *. rewrite orb_false_r in H1. by rewrite H1. Qed.

Lemma g_fun :
  (forall ts t ts1, g_line ts t ts1 -> forall t2 ts2, g_line ts t2 ts2 -> t = t2 /\ ts1 = ts2) /\
  (forall ts t ts1, g_pipe ts t ts1 -> forall t2 ts2, g_pipe ts t2 ts2 -> t = t2 /\ ts1 = ts2) /\
  (forall ts t ts1, g_exec ts t ts1 -> forall t2 ts2, g_exec ts t2 ts2 -> t = t2 /\ ts1 = ts2).
Proof.
  apply g_rules.
  - intros ts t ts1 n ts2 _ IH -> Hn t4 ts4 H. inversion H as [? t' ts1' n' ? Hp E Hn'|? t' ts1' n' ts3 ? ? Hp E Hl]; subst; destruct (IH _ _ Hp) as [-> E2]; apply amps_fun in E2 as [-> E2]; try done; try by apply next_amp. by subst.
  - intros ts t ts1 n ts2 t' ts3 _ IH -> _ IH2 t4 ts4 H. inversion H as [? t5 ts1' n' ? Hp E Hn'|? t5 ts1' n' ts5 ? ? Hp E Hl]; subst; destruct (IH _ _ Hp) as [-> E2]; apply amps_fun in E2 as [-> E2]; try done; try by apply next_amp.
    + by subst ts4.
    + injection E2 as ->. by destruct (IH2 _ _ Hl) as [-> ->].
  - intros ts t ts1 _ IH Hn t2 ts2 H. inversion H as [? ? ? He Hn'|? ? ts3 ? ? He Hp]; subst; destruct (IH _ _ He) as [-> E2]; [done|]. by subst ts1.
  - intros ts t ts1 t' ts2 _ IH _ IH2 t4 ts4 H. inversion H as [? ? ? He Hn'|? ? ts3 ? ? He Hp]; subst; destruct (IH _ _ He) as [-> E2]; [by subst ts4|]. injection E2 as ->. by destruct (IH2 _ _ Hp) as [-> ->].
  - intros ts t ts1 rs ts2 _ IH Hr t4 ts4 H. inversion H as [? ? ? rs2 ? Hl Hr'|? ? ? ? ? ? Hn]; subst; [|by destruct Hn]. destruct (IH _ _ Hl) as [-> [= ->]]. by destruct (redirs_fun _ _ _ Hr _ _ Hr') as [-> ->].
  - intros ts rs ts1 ws rs' ts2 Hn Hr Ha _ t4 ts4 H. inversion H as [? ? ? rs2 ? Hl Hr'|? ? ? ? ? ? Hn' Hr' Ha']; subst; [by destruct Hn|].
    destruct (redirs_fun _ _ _ Hr _ _ Hr') as [-> ->]. by destruct (args_fun _ _ _ _ Ha _ _ _ Ha') as (-> & -> & ->).
Qed.

(** ** The size of a command *)

Fixpoint depth t : nat :=
  match t with
  | TExec _ => 1
  | TRedir t' _ _ _ | TBack t' => S (depth t')
  | TPipe l r | TList l r => S (Nat.max (depth l) (depth r))
  end.

Lemma depth_pos t : (1 <= depth t)%nat.
Proof. destruct t; cbn; lia. Qed.

Lemma depth_wrap rs t : depth (wrap rs t) = (length rs + depth t)%nat.
Proof. revert t. induction rs as [|r rs IH]; intros t; [done|]. cbn [wrap fold_left length]. unfold wrap in IH. rewrite IH. cbn. lia. Qed.
Lemma depth_backs n t : depth (backs n t) = (n + depth t)%nat.
Proof. unfold backs. induction n as [|n IH]; [done|]. rewrite Nat.iter_succ. cbn [depth]. lia. Qed.

Lemma redirs_length ts rs ts' : redirs ts rs ts' -> (length rs + length ts' <= length ts)%nat.
Proof. induction 1; cbn; lia. Qed.
Lemma args_length ts ws rs ts' : args ts ws rs ts' -> (length rs + length ts' <= length ts)%nat.
Proof. induction 1 as [|w ts rs ts1 ws rs' ts2 H%redirs_length _ IH]; cbn; [lia|]. rewrite length_app. lia. Qed.

Lemma g_length :
  (forall ts t ts1, g_line ts t ts1 -> (depth t + length ts1 <= S (length ts))%nat) /\
  (forall ts t ts1, g_pipe ts t ts1 -> (depth t + length ts1 <= S (length ts))%nat) /\
  (forall ts t ts1, g_exec ts t ts1 -> (depth t + length ts1 <= S (length ts))%nat).
Proof.
  apply g_rules.
  - intros ts t ts1 n ts2 _ IH -> _. rewrite depth_backs. rewrite length_app, length_replicate in IH. lia.
  - intros ts t ts1 n ts2 t' ts3 _ IH -> _ IH2. pose proof (depth_pos t). pose proof (depth_pos t'). cbn [depth]. rewrite depth_backs. rewrite length_app, length_replicate in IH. cbn [length] in IH. lia.
  - done.
  - intros ts t ts1 t' ts2 _ IH _ IH2. pose proof (depth_pos t). pose proof (depth_pos t'). cbn [depth length] in *. lia.
  - intros ts t ts1 rs ts2 _ IH H%redirs_length. rewrite depth_wrap. cbn [length] in *. lia.
  - intros ts rs ts1 ws rs' ts2 _ H%redirs_length H2%args_length _. rewrite depth_wrap, length_app. cbn. lia.
Qed.

(** ** A text for every command *)

Definition op_of (mode : Z) : list token :=
  if mode =? O_RDONLY then [Sym (chr "<")] else if mode =? Z.lor O_WRONLY O_CREATE then [Append] else [Sym (chr ">")].

(** The parts of a command in parentheses. *)
Definition paren ts : list token := Sym (chr "(") :: ts ++ [Sym (chr ")")].
Fixpoint tokens_of t : list token :=
  match t with
  | TExec ws => Word <$> ws
  | TRedir t' f mode _ => paren (tokens_of t') ++ op_of mode ++ [Word f]
  | TPipe l r => paren (tokens_of l) ++ Sym (chr "|") :: paren (tokens_of r)
  | TList l r => paren (tokens_of l) ++ Sym (chr ";") :: paren (tokens_of r)
  | TBack t' => paren (tokens_of t') ++ [Sym (chr "&")]
  end.

(** A space after every token. *)
Definition render (k : token) : list Z :=
  match k with
  | Sym c => [c; chr " "]
  | Append => [chr ">"; chr ">"; chr " "]
  | Word w => w ++ [chr " "]
  end.
Definition show t : list Z := tokens_of t ≫= render.

Definition word_ok w : Prop := w <> [] /\ Forall (fun c => word_char c = true) w.
Definition mode_ok (mode fd : Z) : Prop := exists k, redirects k = Some (mode, fd).
Fixpoint tree_ok t : Prop :=
  match t with
  | TExec ws => Z.of_nat (length ws) < MAXARGS /\ Forall word_ok ws
  | TRedir t' f mode fd => tree_ok t' /\ word_ok f /\ mode_ok mode fd
  | TPipe l r | TList l r => tree_ok l /\ tree_ok r
  | TBack t' => tree_ok t'
  end.

Definition token_ok (k : token) : Prop := match k with Sym c => inchars symbols c = true | Append => True | Word w => word_ok w end.

Lemma lex_word cur w l : Forall (fun c => word_char c = true) w -> lex cur (w ++ l) = lex (cur ++ w) l.
Proof.
  revert cur. induction w as [|c w IH]; intros cur Hw; cbn [app lex]; [by rewrite app_nil_r|]. apply Forall_cons in Hw as [Hc Hw].
  unfold word_char in Hc. apply andb_true_iff in Hc as [->%negb_true_iff ->%negb_true_iff]. rewrite IH by done. by rewrite <- app_assoc.
Qed.

Lemma symbol_space c : inchars symbols c = true -> inchars whitespace c = false.
Proof. unfold inchars. cbn. intros H. repeat (apply orb_true_iff in H as [->%Z.eqb_eq|H]; [done|]). done. Qed.

Lemma lex_render ts : Forall token_ok ts -> lex [] (ts ≫= render) = ts.
Proof.
  induction 1 as [|k ts Hk _ IH]; [done|]. rewrite bind_cons. destruct k as [c| |w]; cbn [render token_ok app] in *.
  - cbn [lex]. rewrite (symbol_space c Hk), Hk. change (chr " " =? chr ">") with false. rewrite andb_false_r. change (inchars whitespace (chr " ")) with true. cbn [flush app]. by rewrite IH.
  - change (lex [] (chr ">" :: chr ">" :: chr " " :: (ts ≫= render))) with (Append :: lex [] (ts ≫= render)). by rewrite IH.
  - destruct Hk as [Hne Hw]. rewrite <- app_assoc, lex_word by done. cbn [app lex]. change (inchars whitespace (chr " ")) with true. cbv iota. rewrite IH. by destruct w.
Qed.

Lemma op_of_spec mode fd : mode_ok mode fd -> exists k, op_of mode = [k] /\ redirects k = Some (mode, fd) /\ token_ok k.
Proof.
  intros (k & Hk). destruct k as [c| |w]; unfold redirects in Hk; [|injection Hk as <- <-; by exists Append|done].
  destruct (Z.eqb_spec c (chr "<")) as [E|]; [subst c; injection Hk as <- <-; by exists (Sym (chr "<"))|]. destruct (Z.eqb_spec c (chr ">")) as [E|]; [subst c|done].
  injection Hk as <- <-. by exists (Sym (chr ">")).
Qed.

Lemma tokens_of_ok t : tree_ok t -> Forall token_ok (tokens_of t).
Proof.
  assert (Hp : forall ts, Forall token_ok ts -> Forall token_ok (paren ts)).
  { intros ts H. apply Forall_cons. split; [done|]. apply Forall_app. split; [done|]. by apply Forall_singleton. }
  induction t as [ws|t IH f mode fd|l IHl r IHr|l IHl r IHr|t IH]; cbn [tree_ok tokens_of].
  - intros [_ Hw]. by apply Forall_fmap.
  - intros (Ht & Hf & Hm). destruct (op_of_spec _ _ Hm) as (k & -> & _ & Hk). apply Forall_app. split; [by apply Hp, IH|]. by repeat apply Forall_cons_2.
  - intros [Hl Hr]. apply Forall_app. split; [by apply Hp, IHl|]. apply Forall_cons. split; [done|by apply Hp, IHr].
  - intros [Hl Hr]. apply Forall_app. split; [by apply Hp, IHl|]. apply Forall_cons. split; [done|by apply Hp, IHr].
  - intros Ht. apply Forall_app. split; [by apply Hp, IH|]. by apply Forall_singleton.
Qed.

(** What may follow a command on its own: nothing, or the parenthesis that closes it. *)
Definition closes ts : Prop := match ts with [] => True | Sym c :: _ => c = chr ")" | _ => False end.

Lemma closes_args ts : closes ts -> ts = [] \/ next_in (# "|)&;") ts.
Proof. destruct ts as [|[c| |w] ts]; cbn; try done; [by left|]. intros ->. by right. Qed.
Lemma closes_redirs ts : closes ts -> redirs ts [] ts.
Proof. intros H. apply r_done. intros k ts' ->. destruct k; cbn in *; try done. by subst. Qed.
Lemma closes_next cs ts : closes ts -> inchars cs (chr ")") = false -> ~ next_in cs ts.
Proof. destruct ts as [|[c| |w] ts]; unfold closes, next_in; try done; try tauto. intros -> H H1. by rewrite H in H1. Qed.

Lemma args_words ws ts : closes ts -> args ((Word <$> ws) ++ ts) ws [] ts.
Proof.
  intros Hc. induction ws as [|w ws IH]; [by apply a_stop, closes_args|]. cbn. apply (a_word w _ [] ((Word <$> ws) ++ ts) ws [] ts); [|done].
  destruct ws; [by apply closes_redirs|]. apply r_done. by intros k ts' [= <- <-].
Qed.

(** A command that is one element of a pipeline. *)
Lemma line_exec ts t ts1 : g_exec ts t ts1 -> closes ts1 -> g_line ts t ts1.
Proof.
  intros H Hc. apply (gl_one ts t ts1 0 ts1); [|done|by apply closes_next]. apply gp_one; [done|by apply closes_next].
Qed.
Lemma block_exec t ts : (forall ts, closes ts -> g_line (tokens_of t ++ ts) t ts) -> (forall k ts', ts = k :: ts' -> redirects k = None) -> g_exec (paren (tokens_of t) ++ ts) t ts.
Proof.
  intros IH Hr. unfold paren. cbn [app]. rewrite <- app_assoc. cbn [app]. apply (ge_block _ t ts [] ts); [by apply IH|by apply r_done].
Qed.

Lemma line_tokens t : tree_ok t -> forall ts, closes ts -> g_line (tokens_of t ++ ts) t ts.
Proof.
  induction t as [ws|t IH f mode fd|l IHl r IHr|l IHl r IHr|t IH]; cbn [tree_ok tokens_of]; intros Hok ts Hc.
  - apply line_exec; [|done]. apply (ge_simple _ [] ((Word <$> ws) ++ ts) ws [] ts); [|destruct ws; [by apply closes_redirs|apply r_done; by intros k ts' [= <- <-]]|by apply args_words|apply Hok].
    destruct ws; [by apply closes_next|by intros []].
  - destruct Hok as (Ht & _ & Hm). destruct (op_of_spec _ _ Hm) as (k & -> & Hk & _). apply line_exec; [|done]. unfold paren. cbn [app]. rewrite <- !app_assoc. cbn [app].
    apply (ge_block _ t (k :: Word f :: ts) [(f, (mode, fd))] ts); [by apply IH|]. apply r_more; [done|by apply closes_redirs].
  - destruct Hok as [Hl Hr]. rewrite <- app_assoc. cbn [app]. apply (gl_one _ _ ts 0 ts); [|done|by apply closes_next].
    eapply gp_more; [apply block_exec; [by apply IHl|by intros k ts' [= <- <-]]|]. apply gp_one; [|by apply closes_next].
    apply block_exec; [by apply IHr|]. intros k ts' ->. destruct k; cbn in *; try done. by subst.
  - destruct Hok as [Hl Hr]. rewrite <- app_assoc. cbn [app]. apply (gl_more _ l (Sym (chr ";") :: paren (tokens_of r) ++ ts) 0 (paren (tokens_of r) ++ ts) r ts); [|done|].
    + apply gp_one; [apply block_exec; [by apply IHl|by intros k ts' [= <- <-]]|by cbn].
    + apply line_exec; [|done]. apply block_exec; [by apply IHr|]. intros k ts' ->. destruct k; cbn in *; try done. by subst.
  - rewrite <- app_assoc. cbn [app]. apply (gl_one _ t (Sym (chr "&") :: ts) 1 ts); [|done|by apply closes_next].
    apply gp_one; [apply block_exec; [by apply IH|by intros k ts' [= <- <-]]|by cbn].
Qed.

(** The text of a command has that command as its meaning. *)
Lemma show_line t : tree_ok t -> g_line (lex [] (show t)) t [].
Proof.
  intros H. unfold show. rewrite lex_render by (by apply tokens_of_ok). rewrite <- (app_nil_r (tokens_of t)). by apply line_tokens.
Qed.
