(* ===== verification/ShProofs.v ===== *)
(** * The shell parses its language

    The parser against the grammar: on every line it returns the command the
    grammar gives it, its words as strings, or reports an error exactly when the
    grammar gives it none. *)
From Stdlib Require Import Ascii.
From S2P Require Import Prelude Mem KString Printf PrintfProofs Ulib UlibProofs Sysfile Sh ShGrammar.

Implicit Types (ts : list token) (w l : list Z) (t : tree) (rs : list redir) (ws : list (list Z)) (ns : list node).

(** ** Results that may be errors *)

(** [c] returns with [Q], or panics with [P]; it does not fault and does not
    run for ever. *)
Definition attempt {S A} (c : M S A) (s : S) (Q : A -> S -> Prop) (P : Prop) : Prop :=
  match c s with
  | Ret (a, s') => Q a s'
  | Panic _ => P
  | Fault | Diverge => False
  end.

Lemma attempt_wp {S A} (c : M S A) s (Q : A -> S -> Prop) P : wp c s Q -> attempt c s Q P.
Proof. unfold wp, attempt. by destruct (c s) as [[a s']| | |]. Qed.
Lemma attempt_bind {S A B} (c : M S A) (f : A -> M S B) s Q P : attempt c s (fun a s' => attempt (f a) s' Q P) P -> attempt (bind c f) s Q P.
Proof. unfold attempt, bind. by destruct (c s) as [[a s']| | |]. Qed.
Lemma attempt_mono {S A} (c : M S A) s (Q Q' : A -> S -> Prop) (P P' : Prop) : attempt c s Q P -> (forall a s', Q a s' -> Q' a s') -> (P -> P') -> attempt c s Q' P'.
Proof. unfold attempt. intros H HQ HP. destruct (c s) as [[a s']| | |]; auto. Qed.
Lemma attempt_ret {S A} (a : A) (s : S) (Q : A -> S -> Prop) P : Q a s -> attempt (ret a) s Q P.
Proof. done. Qed.

(** ** Characters *)

Lemma symbols_split c : inchars symbols c = inchars (# "|();&<") c || (c =? chr ">").
Proof.
  unfold inchars. cbn. destruct (c =? chr "<"), (c =? chr "|"), (c =? chr ">"), (c =? chr "&"), (c =? chr ";"), (c =? chr "("), (c =? chr ")"); reflexivity.
Qed.

Lemma sub_symbols cs : forallb (inchars symbols) cs = true -> forall c, inchars cs c = true -> inchars symbols c = true.
Proof. intros H c Hc. unfold inchars in Hc. apply existsb_exists in Hc as (x & Hx & ->%Z.eqb_eq). by apply (proj1 (forallb_forall _ _) H). Qed.

(** A character a word ends before. *)
Definition end_char (c : Z) : Prop := c = 0 \/ word_char c = false.

Lemma skip_while_spec f k (m : memory) es s l :
  cstring m s l -> s + Z.of_nat (length l) = es -> k = Z.to_nat (es - s) ->
  exists l1 l2, l = l1 ++ l2 /\ Forall (fun c => f c = true) l1 /\ (forall c l', l2 = c :: l' -> f c = false) /\ skip_while f k m es s = s + Z.of_nat (length l1).
Proof.
  revert s l. induction k as [|k IH]; intros s l Hl He Hk; cbn [skip_while].
  - exists [], l. split; [done|]. split; [done|]. split; [|cbn; lia]. intros c l' ->. cbn in He. lia.
  - destruct l as [|c l]; cbn [length] in He; [lia|]. destruct Hl as (Hc & -> & Hl). replace (s <? es) with true by lia. cbn [andb]. destruct (f c) eqn:Ef.
    + destruct (IH (s + 1) l Hl ltac:(lia) ltac:(lia)) as (l1 & l2 & -> & H1 & H2 & ->). exists (c :: l1), l2. split; [done|]. split; [by apply Forall_cons|]. split; [done|]. cbn [length]. lia.
    + exists [], (c :: l). split; [done|]. split; [done|]. split; [by intros ? ? [= <- <-]|cbn; lia].
Qed.

(** ** Tokens of a text *)

Lemma lex_space l1 l2 : Forall (fun c => inchars whitespace c = true) l1 -> lex [] (l1 ++ l2) = lex [] l2.
Proof. induction 1 as [|c l1 Hc _ IH]; [done|]. cbn [app lex]. by rewrite Hc. Qed.

Lemma lex_max w l : word_ok w -> (forall c l', l = c :: l' -> word_char c = false) -> lex [] (w ++ l) = Word w :: lex [] l.
Proof.
  intros [Hne Hw] Hl. rewrite lex_word by done. cbn [app]. assert (Ef : flush w = [Word w]) by (by destruct w). destruct l as [|c l]; [done|]. specialize (Hl c l eq_refl). cbn [lex].
  destruct (inchars whitespace c) eqn:E1; [by rewrite Ef|]. destruct (inchars symbols c) eqn:E2; [by rewrite Ef|]. unfold word_char in Hl. by rewrite E1, E2 in Hl.
Qed.

Section Line.
(** The line [l0] at [a0]. *)
Context (m : memory) (a0 es : Z) (Ha0 : 0 < a0).
Implicit Type s : sh.

(** The parser is at the tokens [ts]. *)
Definition pos s ts : Prop := lmem s = m /\ a0 <= ps s /\ exists l, cstring m (ps s) l /\ ps s + Z.of_nat (length l) = es /\ lex [] l = ts.

Definition word_at (q eq : Z) w : Prop := a0 <= q /\ q + Z.of_nat (length w) = eq /\ eq <= es /\ word_ok w /\ ~ 0%Z ∈ w /\ stored m q w /\ end_char (ld8 m eq).

(** The spaces before a token do not matter. *)
Lemma skip_space_spec p l : cstring m p l -> p + Z.of_nat (length l) = es ->
  exists l', cstring m (skip_space m es p) l' /\ skip_space m es p + Z.of_nat (length l') = es /\ p <= skip_space m es p /\ lex [] l' = lex [] l /\ forall c l2, l' = c :: l2 -> inchars whitespace c = false.
Proof.
  intros Hl He. unfold skip_space. destruct (skip_while_spec (inchars whitespace) _ m es p l Hl He eq_refl) as (l1 & l2 & -> & H1 & H2 & ->).
  rewrite length_app in He. exists l2. split; [by apply cstring_app|]. split; [lia|]. split; [lia|]. by rewrite lex_space.
Qed.

Definition tok_next (cs : list Z) ts : bool := match ts with Sym c :: _ => inchars cs c | Append :: _ => inchars cs (chr ">") | _ => false end.

Lemma lex_first c l : inchars whitespace c = false ->
  (inchars symbols c = true -> exists ts, lex [] (c :: l) = Sym c :: ts \/ (c = chr ">" /\ lex [] (c :: l) = Append :: ts)) /\
  (inchars symbols c = false -> exists w l', c :: l = w ++ l' /\ w <> [] /\ Forall (fun c => word_char c = true) w /\ (forall c l2, l' = c :: l2 -> word_char c = false)).
Proof.
  intros Hw. split; intros Hs.
  - cbn [lex]. rewrite Hw, Hs. cbn [flush app]. destruct l as [|d l]; [exists []; by left|]. destruct ((c =? chr ">") && (d =? chr ">")) eqn:E; [|eexists; by left].
    apply andb_true_iff in E as [->%Z.eqb_eq _]. eexists. by right.
  - assert (Hc : word_char c = true) by (unfold word_char; by rewrite Hw, Hs). clear Hw Hs. revert c Hc. induction l as [|d l IH]; intros c Hc.
    + exists [c], []. split; [done|]. split; [done|]. split; [by apply Forall_singleton|done].
    + destruct (word_char d) eqn:Hd.
      * destruct (IH d Hd) as (w & l' & -> & Hne & HF & Hl'). exists (c :: w), l'. split; [done|]. split; [done|]. split; [by apply Forall_cons|done].
      * exists [c], (d :: l). split; [done|]. split; [done|]. split; [by apply Forall_singleton|by intros ? ? [= <- <-]].
Qed.

Lemma wp_peek cs s ts Q :
  pos s ts -> (forall c, inchars cs c = true -> inchars symbols c = true) ->
  (forall s', pos s' ts -> nodes s' = nodes s -> (ts = [] <-> ps s' = es) -> Q (tok_next cs ts) s') -> wp (peek es cs) s Q.
Proof.
  intros (Hm & Ha & l & Hl & He & Ht) Hcs HQ. unfold peek. apply wp_bind, wp_gets, wp_bind, wp_gets, wp_bind, wp_modify, wp_ret. rewrite Hm.
  destruct (skip_space_spec (ps s) l Hl He) as (l' & Hl' & He' & Hp & Hx & Hw). rewrite Ht in Hx. clear Ht. set (p := skip_space m es (ps s)) in *.
  assert (Hnext : (ts = [] <-> p = es) /\ negb (ld8 m p =? 0) && inchars cs (ld8 m p) = tok_next cs ts).
  { destruct l' as [|c l']; [cbn in Hl', Hx, He'; rewrite Hl', <- Hx; split; [split; [lia|done]|done]|].
    destruct Hl' as (Hc & -> & Hl'). rewrite (proj2 (Z.eqb_neq c 0) Hc). cbn [negb andb length] in *. specialize (Hw c l' eq_refl). destruct (lex_first c l' Hw) as [Hsym Hword].
    destruct (inchars symbols c) eqn:Es.
    - destruct (Hsym eq_refl) as (ts' & [E|[-> E]]); rewrite E in Hx; subst ts; cbn [tok_next]; (split; [split; [intros [=]|lia]|reflexivity]).
    - destruct (Hword eq_refl) as (w & l2 & E & Hne & HF & Hl2). rewrite E, lex_max in Hx by done. subst ts. cbn [tok_next]. split; [split; [intros [=]|lia]|].
      destruct (inchars cs c) eqn:Ec; [|done]. by rewrite (Hcs c Ec) in Es. }
  destruct Hnext as [Hn ->]. apply HQ; [|done|done]. split; [done|]. cbn [ps set_ps]. split; [lia|]. by exists l'.
Qed.

Definition code (k : token) : Z := match k with Sym c => c | Append => chr "+" | Word _ => chr "a" end.

(** After a token that ends at [p]. *)
Lemma pos_after p l s : cstring m p l -> p + Z.of_nat (length l) = es -> a0 <= p -> lmem s = m -> pos (set_ps (skip_space m es p) s) (lex [] l).
Proof.
  intros Hl He Hp Hm. destruct (skip_space_spec p l Hl He) as (l' & Hl' & He' & Hp' & Hx & _). split; [done|]. cbn [ps set_ps]. split; [lia|]. by exists l'.
Qed.

Lemma skip_word_spec p w l : cstring m p (w ++ l) -> p + Z.of_nat (length (w ++ l)) = es -> Forall (fun c => word_char c = true) w -> (forall c l2, l = c :: l2 -> word_char c = false) ->
  skip_word m es p = p + Z.of_nat (length w).
Proof.
  intros Hc He Hw Hl. unfold skip_word. destruct (skip_while_spec word_char _ m es p (w ++ l) Hc He eq_refl) as (l1 & l2 & E & H1 & H2 & E'). change (fun c => _) with word_char. rewrite E'. f_equal. f_equal.
  clear - E Hw Hl H1 H2. revert l1 E H1. induction Hw as [|c w Hc _ IH]; intros l1 E H1; cbn in E.
  - destruct H1 as [|c l1 Hc _]; [done|]. subst l. by rewrite (Hl c _ eq_refl) in Hc.
  - destruct H1 as [|c' l1 Hc' H1]; [cbn in E; by rewrite (H2 c (w ++ l) (eq_sym E)) in Hc|]. injection E as <- E. cbn. f_equal. by apply IH.
Qed.

Lemma cstring_nz p l : cstring m p l -> ~ 0%Z ∈ l.
Proof.
  revert p. induction l as [|c l IH]; intros p; [intros _; apply not_elem_of_nil|]. intros (Hc & _ & Hl). apply not_elem_of_cons. split; [done|by eapply IH].
Qed.

Lemma wp_gettoken s ts Q :
  pos s ts ->
  (ts = [] -> forall q eq s', pos s' [] -> nodes s' = nodes s -> Q (0, q, eq) s') ->
  (forall k ts' q eq s', ts = k :: ts' -> token_ok k -> (forall w, k = Word w -> word_at q eq w) -> pos s' ts' -> nodes s' = nodes s -> Q (code k, q, eq) s') ->
  wp (gettoken es) s Q.
Proof.
  intros (Hm & Ha & l & Hl & He & Ht) Q0 Q1. unfold gettoken. apply wp_bind, wp_gets, wp_bind, wp_gets. rewrite Hm. cbv zeta.
  destruct (skip_space_spec (ps s) l Hl He) as (l' & Hl' & He' & Hp & Hx & Hw). rewrite Ht in Hx. clear Ht Hl He l. set (p := skip_space m es (ps s)) in *.
  destruct l' as [|c l].
  { cbn [cstring] in Hl'. rewrite Hl'. cbn [Z.eqb]. apply wp_bind, wp_modify, wp_ret. apply Q0; [done| |done]. by apply (pos_after p [] s); [done|done|lia|done]. }
  pose proof Hl' as (Hc & -> & Hl). rewrite (proj2 (Z.eqb_neq c 0) Hc). specialize (Hw c l eq_refl). cbn [length] in He'. destruct (inchars (# "|();&<") c) eqn:E6.
  { assert (Hs : inchars symbols c = true) by (by rewrite symbols_split, E6). apply wp_bind, wp_modify, wp_ret.
    apply (Q1 (Sym c) (lex [] l)); [|done|done|apply pos_after; [done|lia|lia|done]|done]. rewrite <- Hx. cbn [lex]. rewrite Hw, Hs. cbn [flush app].
    destruct l as [|d l]; [done|]. destruct (Z.eqb_spec c (chr ">")) as [E|]; [by rewrite E in E6|done]. }
  destruct (Z.eqb_spec c (chr ">")) as [->|Hgt].
  { cbn [lex] in Hx. change (inchars whitespace (chr ">")) with false in Hx. change (inchars symbols (chr ">")) with true in Hx. change (chr ">" =? chr ">") with true in Hx. cbn [flush app andb] in Hx.
    assert (Hone : ld8 m (p + 1) <> chr ">" -> Sym (chr ">") :: lex [] l = ts).
    { intros Hd. destruct l as [|d l]; [done|]. destruct Hl as (_ & E & _). destruct (Z.eqb_spec d (chr ">")); [congruence|done]. }
    destruct (Z.eqb_spec (ld8 m (p + 1)) (chr ">")) as [Ed|Ed]; apply wp_bind, wp_modify, wp_ret.
    - destruct l as [|d l]; [cbn in Hl; by rewrite Ed in Hl|]. destruct Hl as (Hd0 & Ed' & Hl). assert (d = chr ">") as -> by congruence. change (chr ">" =? chr ">") with true in Hx. cbv iota in Hx. cbn [length] in He'.
      apply (Q1 Append (lex [] l)); [done|done|done|apply pos_after; [done|lia|lia|done]|done].
    - apply (Q1 (Sym (chr ">")) (lex [] l)); [by rewrite <- Hone|done|done|apply pos_after; [done|lia|lia|done]|done]. }
  assert (Hs : inchars symbols c = false) by (rewrite symbols_split, E6; by apply Z.eqb_neq). destruct (proj2 (lex_first c l Hw) Hs) as (w & l2 & E & Hne & HF & Hl2).
  rewrite E in Hl', Hx. rewrite lex_max in Hx by done. assert (Hlen : p + Z.of_nat (length (w ++ l2)) = es) by (rewrite <- E; cbn [length]; lia).
  rewrite (skip_word_spec p w l2) by done. rewrite length_app in Hlen. apply wp_bind, wp_modify, wp_ret.
  apply (Q1 (Word w) (lex [] l2)); [done|done| |apply pos_after; [by apply cstring_app|lia|lia|done]|done]. intros w' [= <-].
  split; [lia|]. split; [done|]. split; [lia|]. split; [done|]. split; [intros H0; eapply cstring_nz; [exact Hl'|]; apply elem_of_app; by left|]. split.
  - intros i d Hd. apply (cstring_lookup m p (w ++ l2) i d Hl'). by apply lookup_app_l_Some.
  - apply cstring_app in Hl'. destruct l2 as [|d l2]; [by left|]. destruct Hl' as (_ & -> & _). right. by eapply Hl2.
Qed.
End Line.


(** ** Commands in the store *)

(** The nodes below [n] are as before. *)
Definition keeps (n : nat) ns ns' : Prop := (n <= length ns')%nat /\ forall i, (i < n)%nat -> ns' !! i = ns !! i.

Lemma keeps_refl ns n : (n <= length ns)%nat -> keeps n ns ns.
Proof. by split. Qed.
Lemma keeps_trans n n' ns1 ns2 ns3 : keeps n ns1 ns2 -> keeps n' ns2 ns3 -> (n <= n')%nat -> keeps n ns1 ns3.
Proof. intros [H1 H2] [H3 H4] Hn. split; [lia|]. intros i Hi. rewrite H4 by lia. by apply H2. Qed.
Lemma keeps_app ns n x : (n <= length ns)%nat -> keeps n ns (ns ++ x).
Proof. intros Hn. split; [rewrite length_app; lia|]. intros i Hi. by apply lookup_app_l; lia. Qed.
Lemma keeps_lookup ns ns' i x : keeps (length ns) ns ns' -> ns !! i = Some x -> ns' !! i = Some x.
Proof. intros [_ H] Hi. rewrite H; [done|]. by eapply lookup_lt_Some. Qed.

Section Store.
(** What the pointers to a word mean. *)
Context (W : Z -> Z -> list Z -> Prop).

Definition filled (argv eargv : list Z) ws : Prop :=
  length argv = Z.to_nat MAXARGS /\ length eargv = Z.to_nat MAXARGS /\ forall i w, ws !! i = Some w -> exists q eq, argv !! i = Some q /\ eargv !! i = Some eq /\ W q eq w.
Definition args_at (argv eargv : list Z) ws : Prop := filled argv eargv ws /\ argv !! length ws = Some 0.

Fixpoint tree_at ns t (p : nat) : Prop :=
  match t with
  | TExec ws => exists argv eargv, ns !! p = Some (EXEC argv eargv) /\ args_at argv eargv ws
  | TRedir t' w mode fd => exists c q eq, ns !! p = Some (REDIR c q eq mode fd) /\ W q eq w /\ tree_at ns t' c
  | TPipe l r => exists a b, ns !! p = Some (PIPE a b) /\ tree_at ns l a /\ tree_at ns r b
  | TList l r => exists a b, ns !! p = Some (LIST a b) /\ tree_at ns l a /\ tree_at ns r b
  | TBack t' => exists c, ns !! p = Some (BACK c) /\ tree_at ns t' c
  end.

Lemma tree_at_keeps ns ns' t p : keeps (length ns) ns ns' -> tree_at ns t p -> tree_at ns' t p.
Proof.
  intros Hk. pose proof (keeps_lookup ns ns') as L. revert p. induction t as [ws|t IH f mode fd|l IHl r IHr|l IHl r IHr|t IH]; intros p; cbn [tree_at]; naive_solver.
Qed.

(** [p] is the node [c] with the redirections [rs] around it. *)
Fixpoint chain ns (p : nat) rs (c : nat) : Prop :=
  match rs with
  | [] => p = c
  | r :: rs' => exists c' q eq, ns !! c' = Some (REDIR c q eq r.2.1 r.2.2) /\ W q eq r.1 /\ chain ns p rs' c'
  end.

Lemma chain_keeps ns ns' p rs c : keeps (length ns) ns ns' -> chain ns p rs c -> chain ns' p rs c.
Proof.
  intros Hk. pose proof (keeps_lookup ns ns') as L. revert c. induction rs as [|r rs IH]; intros c; cbn [chain]; naive_solver.
Qed.

Lemma chain_app ns p1 p2 rs1 rs2 c : chain ns p1 rs1 c -> chain ns p2 rs2 p1 -> chain ns p2 (rs1 ++ rs2) c.
Proof. revert c. induction rs1 as [|r rs1 IH]; intros c; cbn [chain app]; [by intros ->|]. naive_solver. Qed.

(** Filling in the node in the middle. *)
Lemma chain_exec ns p rs c e x y x' y' : ns !! e = Some (EXEC x y) -> chain ns p rs c -> chain (<[e := EXEC x' y']> ns) p rs c.
Proof.
  intros He. revert c. induction rs as [|r rs IH]; intros c; cbn [chain]; [done|]. intros (c' & q & eq & Hc & Hw & H). exists c', q, eq.
  split; [|split; [done|by apply IH]]. rewrite list_lookup_insert_ne; [done|]. intros ->. congruence.
Qed.

Lemma chain_tree ns p rs c t : tree_at ns t c -> chain ns p rs c -> tree_at ns (wrap rs t) p.
Proof.
  revert c t. induction rs as [|r rs IH]; intros c t Ht; cbn [chain]; [by intros ->|]. intros (c' & q & eq & Hc & Hw & H). unfold wrap. cbn [fold_left]. eapply IH; [|exact H]. by exists c, q, eq.
Qed.

Lemma filled_nil : filled (replicate (Z.to_nat MAXARGS) 0) (replicate (Z.to_nat MAXARGS) 0) [].
Proof. split; [done|]. split; [done|]. done. Qed.

Lemma filled_snoc argv eargv ws q eq w :
  filled argv eargv ws -> Z.of_nat (length ws) < MAXARGS -> W q eq w -> filled (<[length ws := q]> argv) (<[length ws := eq]> eargv) (ws ++ [w]).
Proof.
  unfold filled, MAXARGS. intros (L1 & L2 & H) Hn Hw. rewrite !length_insert. split; [done|]. split; [done|]. intros i v Hi. apply lookup_app_Some in Hi as [Hi|[Hge Hi]].
  - destruct (H i v Hi) as (q' & eq' & H1 & H2 & H3). apply lookup_lt_Some in Hi. exists q', eq'. by rewrite !list_lookup_insert_ne by lia.
  - apply lookup_lt_Some in Hi as Hlt. cbn in Hlt. assert (i = length ws) as -> by lia. rewrite Nat.sub_diag in Hi. injection Hi as <-. exists q, eq. by rewrite !list_lookup_insert_eq by lia.
Qed.

Lemma args_at_end argv eargv ws : filled argv eargv ws -> Z.of_nat (length ws) < MAXARGS -> args_at (<[length ws := 0]> argv) (<[length ws := 0]> eargv) ws.
Proof.
  unfold args_at, filled, MAXARGS. intros (L1 & L2 & H) Hn. rewrite !length_insert. split; [|by rewrite list_lookup_insert_eq by lia]. split; [done|]. split; [done|].
  intros i v Hi. apply lookup_lt_Some in Hi as Hlt. rewrite !list_lookup_insert_ne by lia. by apply H.
Qed.
End Store.

(** ** The parser *)

Section Parse.
Context (m : memory) (a0 es : Z) (Ha0 : 0 < a0).
Implicit Type s : sh.
Notation pos := (pos m a0 es).
Notation word_at := (word_at m a0 es).
Notation tree_at := (tree_at word_at).
Notation chain := (chain word_at).
Notation filled := (filled word_at).
Notation args_at := (args_at word_at).

Lemma pos_nodes s ts ns : pos s ts -> pos (set_nodes ns s) ts.
Proof. done. Qed.

Lemma wp_new n s (Q : nat -> sh -> Prop) : Q (length (nodes s)) (set_nodes (nodes s ++ [n]) s) -> wp (new n) s Q.
Proof. intros H. unfold new. by apply wp_bind, wp_gets, wp_bind, wp_modify, wp_ret. Qed.

Lemma new_lookup ns (n : node) : (ns ++ [n]) !! length ns = Some n.
Proof. by rewrite lookup_app_r, Nat.sub_diag by lia. Qed.

(** The node for a redirection token. *)
Lemma redircmd_code {B} k md c q eq (f : nat -> M sh B) :
  redirects k = Some md ->
  (x <- (if code k =? chr "<" then redircmd c q eq O_RDONLY 0
         else if code k =? chr ">" then redircmd c q eq (Z.lor (Z.lor O_WRONLY O_CREATE) O_TRUNC) 1
         else if code k =? chr "+" then redircmd c q eq (Z.lor O_WRONLY O_CREATE) 1 else ret c);; f x) =
  (x <- redircmd c q eq md.1 md.2;; f x).
Proof.
  destruct k as [x| |w]; cbn [redirects code]; [|by intros [= <-]|done]. destruct (x =? chr "<"); [by intros [= <-]|]. destruct (x =? chr ">"); [by intros [= <-]|done].
Qed.

Lemma redir_next ts : tok_next (# "<>") ts = true <-> exists k ts' md, ts = k :: ts' /\ redirects k = Some md.
Proof.
  destruct ts as [|[c| |w] ts]; cbn [tok_next]; [naive_solver| |naive_solver|naive_solver]. unfold inchars. cbn [fmap list_fmap String.list_ascii_of_string existsb]. rewrite orb_false_r, orb_true_iff, !Z.eqb_eq. split.
  - intros [-> | ->]; by repeat eexists.
  - intros (k & ts' & md & [= <- <-] & H). cbn [redirects] in H. destruct (Z.eqb_spec c (chr "<")); [by left|]. destruct (Z.eqb_spec c (chr ">")); [by right|done].
Qed.

Lemma code_word k : token_ok k -> (code k =? chr "a") = true -> exists w, k = Word w.
Proof. destruct k as [c| |w]; cbn [token_ok code]; [|done|by exists w]. by intros H ->%Z.eqb_eq. Qed.

Lemma parseredirs_spec k : forall cmd s ts, pos s ts -> (length ts < k)%nat ->
  attempt (parseredirs k es cmd) s
    (fun p s' => exists rs ts', redirs ts rs ts' /\ pos s' ts' /\ keeps (length (nodes s)) (nodes s) (nodes s') /\ chain (nodes s') p rs cmd)
    (forall rs ts', ~ redirs ts rs ts').
Proof.
  induction k as [|k IH]; intros cmd s ts Hp Hk; [lia|]. cbn [parseredirs]. apply attempt_bind, attempt_wp. eapply wp_peek; [exact Hp|by apply sub_symbols|].
  intros s1 Hp1 En _. destruct (tok_next (# "<>") ts) eqn:Eb.
  2:{ apply attempt_ret. exists [], ts. split; [|split; [done|split; [by rewrite En; apply keeps_refl|done]]]. apply r_done. intros x ts' ->.
      destruct (redirects x) as [md|] eqn:E; [|done]. assert (tok_next (# "<>") (x :: ts') = true); [|congruence]. apply redir_next. by exists x, ts', md. }
  apply redir_next in Eb as (x & ts1 & md & -> & Hx). apply attempt_bind, attempt_wp. eapply wp_gettoken; [exact Hp1|done|]. intros x' ts' q0 eq0 s2 [= <- <-] _ _ Hp2 En2.
  apply attempt_bind, attempt_wp. eapply wp_gettoken; [exact Hp2| |].
  { intros -> q eq s3 _ _. cbn. intros rs ts' H. inversion H as [? H0|]; subst. by rewrite (H0 _ _ eq_refl) in Hx. }
  intros y ts2 q eq s3 -> Hy Hw Hp3 En3. destruct (code y =? chr "a") eqn:Ey; cbn [negb].
  2:{ cbn. intros rs ts' H. inversion H as [? H0|]; subst; [by rewrite (H0 _ _ eq_refl) in Hx|done]. }
  apply code_word in Ey as [w ->]; [|done]. rewrite (redircmd_code x md) by done. apply attempt_bind, attempt_wp, wp_new. cbn [length] in Hk.
  eapply attempt_mono; [apply (IH _ _ ts2); [by apply pos_nodes|lia]|..]; cbn [nodes set_nodes].
  - intros p s' (rs & ts' & Hr & Hp' & Hk' & Hc). rewrite En3, En2, En in *. exists ((w, md) :: rs), ts'. split; [by apply r_more|]. split; [done|].
    split; [eapply keeps_trans; [by apply keeps_app|exact Hk'|rewrite length_app; lia]|]. cbn [chain]. eexists _, q, eq. split; [|split; [by apply Hw|exact Hc]].
    eapply keeps_lookup; [exact Hk'|]. apply new_lookup.
  - intros Hno rs ts' H. inversion H as [? H0|? ? ? ? rs2 ? Hx2 H2]; subst; [by rewrite (H0 _ _ eq_refl) in Hx|]. by apply (Hno rs2 ts').
Qed.

Lemma wp_set_arg e argc q eq s argv eargv (Q : unit -> sh -> Prop) :
  nodes s !! e = Some (EXEC argv eargv) -> argc < MAXARGS -> Q tt (set_nodes (<[e := EXEC (<[Z.to_nat argc := q]> argv) (<[Z.to_nat argc := eq]> eargv)]> (nodes s)) s) -> wp (set_arg e argc q eq) s Q.
Proof. intros He Ha HQ. unfold set_arg. apply wp_bind, wp_gets. rewrite He. replace (argc <? MAXARGS) with true by lia. by apply wp_modify. Qed.

Lemma keeps_insert ns e x : (e < length ns)%nat -> keeps e ns (<[e := x]> ns).
Proof. intros He. split; [rewrite length_insert; lia|]. intros i Hi. by rewrite list_lookup_insert_ne by lia. Qed.

Lemma next_stop ts : tok_next (# "|)&;") ts = true <-> next_in (# "|)&;") ts.
Proof. destruct ts as [|[c| |w] ts]; cbn [tok_next next_in]; naive_solver. Qed.

Lemma args_word_inv w ts ws rs ts' : args (Word w :: ts) ws rs ts' -> exists rs1 ts1 ws' rs', redirs ts rs1 ts1 /\ args ts1 ws' rs' ts' /\ ws = w :: ws'.
Proof. intros H. inversion H as [? Hn|]; subst; [|naive_solver]. destruct Hn as [|[]]; done. Qed.

(** What [parseargs] leaves at the end: the node filled in. *)
Definition args_done (e : nat) ws rs ns ns' (p : nat) : Prop :=
  keeps e ns ns' /\ chain ns' p rs e /\ exists argv eargv, ns' !! e = Some (EXEC argv eargv) /\ args_at argv eargv ws.

Lemma wp_end_args e rt s argv eargv ws rs (Q : nat -> sh -> Prop) :
  nodes s !! e = Some (EXEC argv eargv) -> filled argv eargv ws -> Z.of_nat (length ws) < MAXARGS -> chain (nodes s) rt rs e ->
  (forall s', args_done e ws rs (nodes s) (nodes s') rt -> lmem s' = lmem s -> ps s' = ps s -> Q rt s') -> wp (set_arg e (Z.of_nat (length ws)) 0 0;; ret rt) s Q.
Proof.
  intros He Hf Hl Hc HQ. apply wp_bind. eapply wp_set_arg; [done|done|]. apply wp_ret. apply HQ; [|done|done]. apply lookup_lt_Some in He as Hlt. cbn [nodes set_nodes]. rewrite Nat2Z.id.
  split; [by apply keeps_insert|]. split; [by eapply chain_exec|]. rewrite list_lookup_insert_eq by done. do 2 eexists. split; [done|]. by apply args_at_end.
Qed.

Lemma parseargs_spec k : forall e rt s ts ws0 rs0 argv eargv,
  pos s ts -> (length ts < k)%nat -> nodes s !! e = Some (EXEC argv eargv) -> filled argv eargv ws0 -> Z.of_nat (length ws0) < MAXARGS -> chain (nodes s) rt rs0 e ->
  attempt (parseargs k es e rt (Z.of_nat (length ws0))) s
    (fun p s' => exists ws rs ts', args ts ws rs ts' /\ Z.of_nat (length (ws0 ++ ws)) < MAXARGS /\ pos s' ts' /\ args_done e (ws0 ++ ws) (rs0 ++ rs) (nodes s) (nodes s') p)
    (forall ws rs ts', args ts ws rs ts' -> MAXARGS <= Z.of_nat (length (ws0 ++ ws))).
Proof.
  induction k as [|k IH]; intros e rt s ts ws0 rs0 argv eargv Hp Hk He Hf Hl Hc; [lia|]. cbn [parseargs]. apply attempt_bind, attempt_wp. eapply wp_peek; [exact Hp|by apply sub_symbols|].
  intros s1 Hp1 En _. rewrite <- En in He, Hc.
  assert (Hend : forall s2, pos s2 ts -> nodes s2 = nodes s1 -> ts = [] \/ next_in (# "|)&;") ts ->
    attempt (set_arg e (Z.of_nat (length ws0)) 0 0;; ret rt) s2
      (fun p s' => exists ws rs ts', args ts ws rs ts' /\ Z.of_nat (length (ws0 ++ ws)) < MAXARGS /\ pos s' ts' /\ args_done e (ws0 ++ ws) (rs0 ++ rs) (nodes s) (nodes s') p)
      (forall ws rs ts', args ts ws rs ts' -> MAXARGS <= Z.of_nat (length (ws0 ++ ws)))).
  { intros s2 (P1 & P2 & P3) E2 Hstop. apply attempt_wp. rewrite <- E2 in He, Hc. eapply wp_end_args; [done|done|done|done|]. intros s' Hd Em Ep. exists [], [], ts. rewrite !app_nil_r.
    split; [by apply a_stop|]. split; [done|]. split; [|by rewrite <- En, <- E2]. unfold ShProofs.pos. by rewrite Em, Ep. }
  destruct (tok_next (# "|)&;") ts) eqn:Eb; [apply Hend; [done|done|right; by apply next_stop]|].
  apply attempt_bind, attempt_wp. eapply wp_gettoken; [exact Hp1| |].
  { intros -> q eq s2 Hp2 E2. cbn [Z.eqb]. apply Hend; [done|done|by left]. }
  intros x ts1 q eq s2 -> Hx Hw Hp2 E2. assert (Hcode : (code x =? 0) = false).
  { destruct x as [c| |w]; [|done|done]. cbn [code token_ok] in *. destruct (Z.eqb_spec c 0) as [->|]; done. }
  rewrite Hcode. destruct (code x =? chr "a") eqn:Ex; cbn [negb].
  2:{ cbn. intros ws rs ts' H. inversion H as [? [?|Hn]|]; subst; [done| |done]. apply next_stop in Hn. congruence. }
  apply code_word in Ex as [w ->]; [|done]. rewrite <- E2 in He, Hc. apply lookup_lt_Some in He as Hlt. apply attempt_bind, attempt_wp. eapply wp_set_arg; [done|done|]. rewrite Nat2Z.id. cbv zeta.
  destruct (Z.geb_spec (Z.of_nat (length ws0) + 1) MAXARGS) as [Hge|Hlt'].
  { cbn. intros ws rs ts' (? & ? & ws' & ? & _ & _ & ->)%args_word_inv. rewrite length_app. cbn [length]. lia. }
  cbn [length] in Hk. set (s3 := set_nodes _ s2). apply attempt_bind. eapply attempt_mono; [apply (parseredirs_spec k rt s3 ts1); [by apply pos_nodes|lia]|..].
  2:{ intros Hno ws rs ts' (rs1 & ts2 & ? & ? & Hr & _)%args_word_inv. by destruct (Hno rs1 ts2). }
  intros rt' s4 (rs1 & ts2 & Hr & Hp4 & Hk4 & Hc4). pose proof (redirs_length _ _ _ Hr).
  assert (He3 : nodes s3 !! e = Some (EXEC (<[length ws0 := q]> argv) (<[length ws0 := eq]> eargv))) by (cbn [nodes set_nodes s3]; by rewrite list_lookup_insert_eq).
  assert (Hk3 : keeps e (nodes s2) (nodes s4)).
  { eapply keeps_trans; [by apply (keeps_insert (nodes s2) e)|exact Hk4|]. apply lookup_lt_Some in He3. lia. }
  replace (Z.of_nat (length ws0) + 1) with (Z.of_nat (length (ws0 ++ [w]))) by (rewrite length_app; cbn [length]; lia).
  eapply attempt_mono; [eapply (IH e rt' s4 ts2 (ws0 ++ [w]) (rs0 ++ rs1)); [done|lia|by eapply keeps_lookup|by apply filled_snoc; [| |apply Hw]|rewrite length_app; cbn [length]; lia|]|..].
  - eapply chain_app; [|exact Hc4]. eapply chain_keeps; [exact Hk4|]. by eapply chain_exec.
  - intros p s' (ws & rs & ts' & Ha & Hl' & Hp' & Hd1 & Hd2). rewrite <- !app_assoc in *. exists (w :: ws), (rs1 ++ rs), ts'. split; [by eapply a_word|]. split; [done|]. split; [done|].
    split; [|done]. rewrite <- En, <- E2. by eapply keeps_trans.
  - intros Hno ws rs ts' (rs2 & ts3 & ws2 & rs3 & Hr2 & Ha2 & ->)%args_word_inv. destruct (redirs_fun _ _ _ Hr _ _ Hr2) as [-> ->].
    specialize (Hno _ _ _ Ha2). by rewrite <- app_assoc in Hno.
Qed.

Lemma parseback_spec k : forall cmd s ts t, pos s ts -> (length ts < k)%nat -> tree_at (nodes s) t cmd ->
  wp (parseback k es cmd) s (fun p s' => exists n ts', ts = replicate n (Sym (chr "&")) ++ ts' /\ ~ next_in (# "&") ts' /\ pos s' ts' /\
    keeps (length (nodes s)) (nodes s) (nodes s') /\ tree_at (nodes s') (backs n t) p).
Proof.
  induction k as [|k IH]; intros cmd s ts t Hp Hk Ht; [lia|]. cbn [parseback]. apply wp_bind. eapply wp_peek; [exact Hp|by apply sub_symbols|]. intros s1 Hp1 En _.
  destruct (tok_next (# "&") ts) eqn:Eb.
  - assert (exists ts1, ts = Sym (chr "&") :: ts1) as [ts1 ->].
    { destruct ts as [|[c| |w] ts]; try done. cbn [tok_next] in Eb. unfold inchars in Eb. cbn [fmap list_fmap String.list_ascii_of_string existsb] in Eb. rewrite orb_false_r in Eb. apply Z.eqb_eq in Eb as ->. by exists ts. }
    apply wp_bind. eapply wp_gettoken; [exact Hp1|done|]. intros x ts2 q eq s2 [= <- <-] _ _ Hp2 E2. apply wp_bind, wp_new. cbn [length] in Hk.
    eapply wp_mono; [apply (IH _ _ ts1 (TBack t)); [by apply pos_nodes|lia|]|]; cbn [nodes set_nodes].
    + exists cmd. split; [apply new_lookup|]. rewrite E2, En. eapply tree_at_keeps; [by apply keeps_app|done].
    + intros p s' (n & ts' & -> & Hn & Hp' & Hk' & Ht'). exists (S n), ts'. split; [done|]. split; [done|]. split; [done|]. split.
      * rewrite E2, En in Hk'. eapply keeps_trans; [by apply keeps_app|exact Hk'|rewrite length_app; lia].
      * unfold backs in *. by rewrite Nat.iter_succ_r.
  - apply wp_ret. exists 0%nat, ts. split; [done|]. split; [|split; [done|split; [by rewrite En; apply keeps_refl|by rewrite En]]].
    destruct ts as [|[c| |w] ts]; cbn [tok_next next_in] in *; [by intros []|congruence|by intros []|by intros []].
Qed.

(** [c] parses what [G] describes. *)
Definition parses (G : list token -> tree -> list token -> Prop) (c : M sh nat) s ts : Prop :=
  attempt c s (fun p s' => exists t ts', G ts t ts' /\ pos s' ts' /\ keeps (length (nodes s)) (nodes s) (nodes s') /\ tree_at (nodes s') t p) (forall t ts', ~ G ts t ts').

Lemma next_one c ts : c <> chr ">" -> tok_next [c] ts = true -> exists ts', ts = Sym c :: ts'.
Proof.
  intros Hc. destruct ts as [|[d| |w] ts]; cbn [tok_next]; try done; unfold inchars; cbn [existsb]; rewrite orb_false_r; intros Hd%Z.eqb_eq; [|congruence].
  subst d. by exists ts.
Qed.
Lemma next_one_no c ts : tok_next [c] ts = false -> ~ next_in [c] ts.
Proof. destruct ts as [|[d| |w] ts]; cbn [tok_next next_in]; [by intros _ []|congruence|by intros _ []|by intros _ []]. Qed.
Lemma next_two c d ts : ~ next_in [c] ts -> ~ next_in [d] ts -> ~ next_in [c; d] ts.
Proof.
  destruct ts as [|[x| |w] ts]; cbn [next_in]; try tauto. unfold inchars. cbn [existsb]. intros H1 H2 H3. rewrite orb_false_r in *. apply orb_true_iff in H3. tauto.
Qed.

(** A rule that goes on after a first part when the next token is [c]. *)
Lemma parseline_step k s ts :
  (forall s ts, pos s ts -> (4 * length ts + 3 <= k)%nat -> parses g_pipe (parsepipe k es) s ts) ->
  (forall s ts, pos s ts -> (4 * length ts + 4 <= k)%nat -> parses g_line (parseline k es) s ts) ->
  pos s ts -> (4 * length ts + 4 <= S k)%nat -> parses g_line (parseline (S k) es) s ts.
Proof.
  intros IHp IHl Hp Hk. unfold parses. cbn [parseline]. apply attempt_bind. eapply attempt_mono; [apply IHp; [exact Hp|lia]|..].
  2:{ intros Hno t ts' H. inversion H; subst; by eapply Hno. }
  intros p1 s1 (t1 & ts1 & G1 & Hp1 & Hk1 & Ht1). pose proof (proj1 (proj2 g_length) _ _ _ G1). pose proof (depth_pos t1). apply attempt_bind, attempt_wp.
  eapply wp_mono; [apply (parseback_spec k p1 s1 ts1 t1); [done|lia|done]|]. cbn beta. intros p2 s2 (n & ts2 & -> & Hn & Hp2 & Hk2 & Ht2). rewrite length_app in *.
  apply attempt_bind, attempt_wp. eapply wp_peek; [exact Hp2|by apply sub_symbols|]. intros s3 Hp3 E3 _. change (# ";") with [chr ";"]. destruct (tok_next [chr ";"] ts2) eqn:Eb.
  2:{ apply attempt_ret. exists (backs n t1), ts2. rewrite E3. split; [eapply gl_one; [exact G1|done|apply next_two; [done|by apply next_one_no]]|]. split; [done|]. split; [|done].
      eapply keeps_trans; [exact Hk1|exact Hk2|apply Hk1]. }
  apply next_one in Eb as [ts3 ->]; [|done].
  apply attempt_bind, attempt_wp. eapply wp_gettoken; [exact Hp3|done|]. intros x ts4 q eq s4 [= <- <-] _ _ Hp4 E4. cbn [length] in *. apply attempt_bind. eapply attempt_mono; [apply IHl; [exact Hp4|lia]|..].
  2:{ intros Hno t ts' H'. inversion H' as [? t2 ts5 n' ? G2 E Hn'|? t2 ts5 n' ts6 ? ? G2 E Hl]; subst; destruct (proj1 (proj2 g_fun) _ _ _ G1 _ _ G2) as [<- E5]; apply amps_fun in E5 as [-> E5]; try done; try by apply next_amp.
      - subst ts'. by destruct Hn'.
      - injection E5 as <-. by eapply Hno. }
  intros p5 s5 (t' & ts5 & G5 & Hp5 & Hk5 & Ht5). apply attempt_wp, wp_new. rewrite E4, E3 in Hk5. exists (TList (backs n t1) t'), ts5. split; [by eapply gl_more|]. split; [by apply pos_nodes|]. cbn [nodes set_nodes]. split.
  - eapply keeps_trans; [eapply keeps_trans; [eapply keeps_trans; [exact Hk1|exact Hk2|apply Hk1]|exact Hk5|]|by apply keeps_app|]; [destruct Hk1, Hk2; lia|destruct Hk1, Hk2, Hk5; lia].
  - exists p2, p5. split; [apply new_lookup|]. split; (eapply tree_at_keeps; [by apply keeps_app|]); [by eapply tree_at_keeps|done].
Qed.

Lemma parsepipe_step k s ts :
  (forall s ts, pos s ts -> (4 * length ts + 2 <= k)%nat -> parses g_exec (parseexec k es) s ts) ->
  (forall s ts, pos s ts -> (4 * length ts + 3 <= k)%nat -> parses g_pipe (parsepipe k es) s ts) ->
  pos s ts -> (4 * length ts + 3 <= S k)%nat -> parses g_pipe (parsepipe (S k) es) s ts.
Proof.
  intros IHe IHp Hp Hk. unfold parses. cbn [parsepipe]. apply attempt_bind. eapply attempt_mono; [apply IHe; [exact Hp|lia]|..].
  2:{ intros Hno t ts' H. inversion H; subst; by eapply Hno. }
  intros p1 s1 (t1 & ts1 & G1 & Hp1 & Hk1 & Ht1). pose proof (proj2 (proj2 g_length) _ _ _ G1). pose proof (depth_pos t1).
  apply attempt_bind, attempt_wp. eapply wp_peek; [exact Hp1|by apply sub_symbols|]. intros s3 Hp3 E3 _. change (# "|") with [chr "|"]. destruct (tok_next [chr "|"] ts1) eqn:Eb.
  2:{ apply attempt_ret. exists t1, ts1. rewrite E3. split; [apply gp_one; [done|by apply next_one_no]|done]. }
  apply next_one in Eb as [ts3 ->]; [|done].
  apply attempt_bind, attempt_wp. eapply wp_gettoken; [exact Hp3|done|]. intros x ts4 q eq s4 [= <- <-] _ _ Hp4 E4. cbn [length] in *. apply attempt_bind. eapply attempt_mono; [apply IHp; [exact Hp4|lia]|..].
  2:{ intros Hno t ts' H'. inversion H' as [? ? ? G2 Hn|? t2 ts5 ? ? G2 G3]; subst; destruct (proj2 (proj2 g_fun) _ _ _ G1 _ _ G2) as [<- E5]; [subst ts'; by destruct Hn|]. injection E5 as <-. by eapply Hno. }
  intros p5 s5 (t' & ts5 & G5 & Hp5 & Hk5 & Ht5). apply attempt_wp, wp_new. rewrite E4, E3 in Hk5. exists (TPipe t1 t'), ts5. split; [by eapply gp_more|]. split; [by apply pos_nodes|]. cbn [nodes set_nodes]. split.
  - eapply keeps_trans; [eapply keeps_trans; [exact Hk1|exact Hk5|]|by apply keeps_app|]; [destruct Hk1; lia|destruct Hk1, Hk5; lia].
  - exists p1, p5. split; [apply new_lookup|]. split; (eapply tree_at_keeps; [by apply keeps_app|]); [by eapply tree_at_keeps|done].
Qed.

Lemma parseblock_step k s ts :
  (forall s ts, pos s ts -> (4 * length ts + 4 <= k)%nat -> parses g_line (parseline k es) s ts) ->
  pos s (Sym (chr "(") :: ts) -> (4 * length ts + 5 <= S k)%nat -> parses g_exec (parseblock (S k) es) s (Sym (chr "(") :: ts).
Proof.
  intros IHl Hp Hk. unfold parses. cbn [parseblock]. apply attempt_bind, attempt_wp. eapply wp_peek; [exact Hp|by apply sub_symbols|]. intros s1 Hp1 E1 _.
  change (tok_next (# "(") (Sym (chr "(") :: ts)) with true. cbn [negb]. apply attempt_bind, attempt_wp. eapply wp_gettoken; [exact Hp1|done|]. intros x ts2 q eq s2 [= <- <-] _ _ Hp2 E2.
  assert (Hblk : forall t ts', g_exec (Sym (chr "(") :: ts) t ts' -> exists t1 ts1 rs, g_line ts t1 (Sym (chr ")") :: ts1) /\ redirs ts1 rs ts').
  { intros t ts' H. inversion H as [|? ? ? ? ? ? Hn]; subst; [naive_solver|]. by destruct Hn. }
  apply attempt_bind. eapply attempt_mono; [apply IHl; [exact Hp2|lia]|..].
  2:{ intros Hno t ts' (t1 & ts1 & rs & G & _)%Hblk. by eapply Hno. }
  intros p3 s3 (t3 & ts3 & G3 & Hp3 & Hk3 & Ht3). pose proof (proj1 g_length _ _ _ G3). pose proof (depth_pos t3). apply attempt_bind, attempt_wp. eapply wp_peek; [exact Hp3|by apply sub_symbols|]. intros s4 Hp4 E4 _.
  change (# ")") with [chr ")"]. destruct (tok_next [chr ")"] ts3) eqn:Eb; cbn [negb].
  2:{ cbn. intros t ts' (t1 & ts1 & rs & G & _)%Hblk. destruct (proj1 g_fun _ _ _ G3 _ _ G) as [_ ->]. done. }
  apply next_one in Eb as [ts5 ->]; [|done]. cbn [length] in *. apply attempt_bind, attempt_wp. eapply wp_gettoken; [exact Hp4|done|]. intros x ts6 q' eq' s5 [= <- <-] _ _ Hp5 E5.
  eapply attempt_mono; [apply (parseredirs_spec k p3 s5 ts5); [exact Hp5|lia]|..].
  - intros p6 s6 (rs & ts6 & Hr & Hp6 & Hk6 & Hc). exists (wrap rs t3), ts6. rewrite E5, E4 in Hk6. rewrite E2, E1 in Hk3. split; [by eapply ge_block|]. split; [done|]. split; [eapply keeps_trans; [exact Hk3|exact Hk6|apply Hk3]|].
    eapply chain_tree; [|exact Hc]. by eapply tree_at_keeps.
  - intros Hno t ts' (t1 & ts1 & rs & G & Hr)%Hblk. destruct (proj1 g_fun _ _ _ G3 _ _ G) as [_ [= ->]]. by eapply Hno.
Qed.

Lemma parseexec_step k s ts :
  (forall s ts, pos s (Sym (chr "(") :: ts) -> (4 * length ts + 5 <= k)%nat -> parses g_exec (parseblock k es) s (Sym (chr "(") :: ts)) ->
  pos s ts -> (4 * length ts + 2 <= S k)%nat -> parses g_exec (parseexec (S k) es) s ts.
Proof.
  intros IHb Hp Hk. unfold parses. cbn [parseexec]. apply attempt_bind, attempt_wp. eapply wp_peek; [exact Hp|by apply sub_symbols|]. intros s1 Hp1 E1 _.
  change (# "(") with [chr "("]. destruct (tok_next [chr "("] ts) eqn:Eb.
  { apply next_one in Eb as [ts1 ->]; [|done]. cbn [length] in Hk. rewrite <- E1. apply IHb; [done|lia]. }
  assert (Hsim : forall t ts', g_exec ts t ts' -> exists rs1 ts1 ws rs2, redirs ts rs1 ts1 /\ args ts1 ws rs2 ts' /\ Z.of_nat (length ws) < MAXARGS).
  { intros t ts' H. inversion H; subst; [done|naive_solver]. }
  apply attempt_bind, attempt_wp, wp_new. rewrite E1. set (s2 := set_nodes _ s1). set (e := length (nodes s)). apply attempt_bind.
  assert (He : nodes s2 !! e = Some (EXEC (replicate (Z.to_nat MAXARGS) 0) (replicate (Z.to_nat MAXARGS) 0))) by apply new_lookup.
  eapply attempt_mono; [apply (parseredirs_spec k e s2 ts); [by apply pos_nodes|lia]|..].
  2:{ intros Hno t ts' (rs1 & ts1 & ws & rs2 & Hr & _)%Hsim. by eapply Hno. }
  intros p3 s3 (rs3 & ts3 & Hr3 & Hp3 & Hk3 & Hc3). pose proof (redirs_length _ _ _ Hr3).
  eapply attempt_mono; [eapply (parseargs_spec k e p3 s3 ts3 [] rs3); [done|lia|by eapply keeps_lookup|apply filled_nil|done|done]|..].
  - cbn [app]. intros p4 s4 (ws & rs4 & ts4 & Ha & Hl & Hp4 & Hk4 & Hc4 & argv & eargv & He4 & Hargs). exists (wrap (rs3 ++ rs4) (TExec ws)), ts4. split; [eapply ge_simple; [by apply next_one_no|done|done|done]|]. split; [done|]. split.
    + eapply keeps_trans; [eapply keeps_trans; [by apply keeps_app|exact Hk3|]|exact Hk4|done]. cbn [nodes set_nodes s2]. rewrite length_app. lia.
    + eapply chain_tree; [|exact Hc4]. by exists argv, eargv.
  - cbn [app]. intros Hno t ts' (rs1 & ts1 & ws & rs2 & Hr & Ha & Hl)%Hsim. destruct (redirs_fun _ _ _ Hr3 _ _ Hr) as [-> ->]. specialize (Hno _ _ _ Ha). lia.
Qed.

Lemma parse_spec k :
  (forall s ts, pos s ts -> (4 * length ts + 4 <= k)%nat -> parses g_line (parseline k es) s ts) /\
  (forall s ts, pos s ts -> (4 * length ts + 3 <= k)%nat -> parses g_pipe (parsepipe k es) s ts) /\
  (forall s ts, pos s ts -> (4 * length ts + 2 <= k)%nat -> parses g_exec (parseexec k es) s ts) /\
  (forall s ts, pos s (Sym (chr "(") :: ts) -> (4 * length ts + 5 <= k)%nat -> parses g_exec (parseblock k es) s (Sym (chr "(") :: ts)).
Proof.
  induction k as [|k (IHl & IHp & IHe & IHb)]; [repeat split; intros; lia|]. repeat split; intros s ts Hp Hk.
  - by apply parseline_step.
  - by apply parsepipe_step.
  - by apply parseexec_step.
  - by apply parseblock_step.
Qed.

(** ** The ends of the words *)

(** Some characters that end words are NUL now. *)
Definition ended (m' : memory) : Prop := forall x, ld8 m' x = ld8 m x \/ (ld8 m' x = 0 /\ a0 <= x <= es /\ end_char (ld8 m x)).
Definition more_ended (m' m'' : memory) : Prop := forall x, ld8 m' x = 0 -> ld8 m'' x = 0.
Definition word_ended (m' : memory) (q eq : Z) w : Prop := word_at q eq w /\ ld8 m' eq = 0.

Lemma poke_ended m' q eq w : ended m' -> word_at q eq w -> ended (st8 m' eq 0) /\ more_ended m' (st8 m' eq 0) /\ word_ended (st8 m' eq 0) q eq w.
Proof.
  intros He Hw. pose proof Hw as (W1 & W2 & W3 & _ & _ & _ & W4). split; [|split; [|split; [done|]]].
  - intros x. rewrite ld8_st8. destruct (Z.eqb_spec x eq) as [->|]; [|apply He]. right. split; [done|]. split; [lia|done].
  - intros x Hx. rewrite ld8_st8. by destruct (x =? eq).
  - by rewrite ld8_st8, Z.eqb_refl.
Qed.

Lemma tree_at_mono (W W' : Z -> Z -> list Z -> Prop) ns t p : (forall q eq w, W q eq w -> W' q eq w) -> ShProofs.tree_at W ns t p -> ShProofs.tree_at W' ns t p.
Proof.
  intros HW. revert p. induction t as [ws|t IH f mode fd|l IHl r IHr|l IHl r IHr|t IH]; intros p; cbn [ShProofs.tree_at]; [|naive_solver..].
  intros (argv & eargv & Hp & (L1 & L2 & Hi) & H0). exists argv, eargv. split; [done|]. split; [|done]. split; [done|]. split; [done|]. intros i w Hw. destruct (Hi i w Hw) as (q & eq & ? & ? & ?). exists q, eq. eauto.
Qed.

Lemma ended_more (m' m'' : memory) q eq w : more_ended m' m'' -> word_ended m' q eq w -> word_ended m'' q eq w.
Proof. intros Hm [H1 H2]. split; [done|by apply Hm]. Qed.

Lemma wp_end_words argv eargv ws s : 
  ended (lmem s) -> (forall i w, ws !! i = Some w -> exists q eq, argv !! i = Some q /\ eargv !! i = Some eq /\ word_at q eq w) -> argv !! length ws = Some 0 -> length argv = length eargv ->
  wp (end_args argv eargv) s (fun _ s' => nodes s' = nodes s /\ ended (lmem s') /\ more_ended (lmem s) (lmem s') /\
    forall i w, ws !! i = Some w -> exists q eq, argv !! i = Some q /\ eargv !! i = Some eq /\ word_ended (lmem s') q eq w).
Proof using Ha0.
  revert argv eargv s. induction ws as [|w ws IH]; intros argv eargv s He Hw H0 Hlen; cbn [length] in H0.
  - destruct argv as [|q argv]; [done|]. destruct eargv as [|eq eargv]; [done|]. injection H0 as ->. cbn [end_args Z.eqb]. apply wp_ret. split; [done|]. split; [done|]. split; [by intros x|done].
  - destruct (Hw O w eq_refl) as (q & eq & Hq & Heq & Hwd). destruct argv as [|q' argv]; [done|]. destruct eargv as [|eq' eargv]; [done|]. injection Hq as ->. injection Heq as ->. cbn [end_args].
    rewrite (proj2 (Z.eqb_neq q 0)) by (destruct Hwd; lia). destruct (poke_ended _ _ _ _ He Hwd) as (P1 & P2 & P3). unfold sh_poke. apply wp_bind, wp_modify.
    eapply wp_mono; [apply (IH argv eargv (set_lmem (st8 (lmem s) eq 0) s) P1); [intros i v Hv; by apply (Hw (S i))|done|by injection Hlen]|]. cbn [lmem nodes set_lmem].
    intros _ s' (E & H1 & H2 & H3). split; [done|]. split; [done|]. split; [intros x Hx; by apply H2, P2|]. intros [|i] v Hv; [injection Hv as <-; exists q, eq; split; [done|]; split; [done|by eapply ended_more]|]. by apply H3.
Qed.

Lemma nulterminate_spec k : forall p s t, ended (lmem s) -> tree_at (nodes s) t p -> (depth t <= k)%nat ->
  wp (nulterminate k p) s (fun _ s' => nodes s' = nodes s /\ ended (lmem s') /\ more_ended (lmem s) (lmem s') /\ ShProofs.tree_at (word_ended (lmem s')) (nodes s') t p).
Proof using Ha0.
  induction k as [|k IH]; intros p s t He Ht Hd; [pose proof (depth_pos t); lia|]. cbn [nulterminate]. apply wp_bind, wp_gets.
  (* two parts one after the other *)
  assert (Htwo : forall (l r : tree) a b, tree_at (nodes s) l a -> tree_at (nodes s) r b -> (depth l <= k)%nat -> (depth r <= k)%nat ->
    wp (nulterminate k a;; nulterminate k b) s (fun _ s' => nodes s' = nodes s /\ ended (lmem s') /\ more_ended (lmem s) (lmem s') /\
      ShProofs.tree_at (word_ended (lmem s')) (nodes s') l a /\ ShProofs.tree_at (word_ended (lmem s')) (nodes s') r b)).
  { intros l r a b Hl Hr Dl Dr. apply wp_bind. eapply wp_mono; [apply (IH a s l); done|]. cbn beta. intros _ s1 (E1 & H1 & M1 & T1). eapply wp_mono; [apply (IH b s1 r); [done|by rewrite E1|done]|]. cbn beta.
    intros _ s2 (E2 & H2 & M2 & T2). split; [by rewrite E2|]. split; [done|]. split; [intros x Hx; by apply M2, M1|]. split; [|done]. rewrite E2. eapply tree_at_mono; [|exact T1]. intros q eq w. by apply ended_more. }
  destruct t as [ws|t f mode fd|l r|l r|t]; cbn [ShProofs.tree_at depth] in Ht, Hd.
  - destruct Ht as (argv & eargv & Hn & (L1 & L2 & Hw) & H0). rewrite Hn. eapply wp_mono; [apply (wp_end_words argv eargv ws s); [done|done|done|congruence]|]. cbn beta. intros _ s' (E & H1 & H2 & H3).
    split; [done|]. split; [done|]. split; [done|]. rewrite E. by exists argv, eargv.
  - destruct Ht as (c & q & eq & Hn & Hw & Ht). rewrite Hn. apply wp_bind. eapply wp_mono; [apply (IH c s t); [done|done|lia]|]. cbn beta. intros _ s1 (E1 & H1 & M1 & T1).
    destruct (poke_ended _ _ _ _ H1 Hw) as (P1 & P2 & P3). apply wp_modify. cbn [lmem nodes set_lmem]. split; [done|]. split; [done|]. split; [intros x Hx; by apply P2, M1|].
    exists c, q, eq. rewrite E1 in *. split; [done|]. split; [done|]. eapply tree_at_mono; [|exact T1]. intros q' eq' w'. by apply ended_more.
  - destruct Ht as (a & b & Hn & Hl & Hr). rewrite Hn. eapply wp_mono; [apply (Htwo l r a b); [done|done|lia|lia]|]. cbn beta. intros _ s' (E & H1 & H2 & H3 & H4). split; [done|]. split; [done|]. split; [done|]. exists a, b. by rewrite E in *.
  - destruct Ht as (a & b & Hn & Hl & Hr). rewrite Hn. eapply wp_mono; [apply (Htwo l r a b); [done|done|lia|lia]|]. cbn beta. intros _ s' (E & H1 & H2 & H3 & H4). split; [done|]. split; [done|]. split; [done|]. exists a, b. by rewrite E in *.
  - destruct Ht as (c & Hn & Ht). rewrite Hn. eapply wp_mono; [apply (IH c s t); [done|done|lia]|]. cbn beta. intros _ s1 (E1 & H1 & M1 & T1). split; [done|]. split; [done|]. split; [done|]. exists c. by rewrite E1 in *.
Qed.

(** A word whose end is marked is a string. *)
Lemma word_string m' q eq w : ended m' -> word_ended m' q eq w -> cstring m' q w.
Proof.
  intros He ((W1 & W2 & W3 & [_ W4] & W5 & W6 & _) & H0). apply cstring_intro; [|intros i c Hi|by rewrite W2].
  - intros c Hc ->. done.
  - destruct (He (q + Z.of_nat i)) as [->|(_ & _ & Hend)]; [by apply W6|]. rewrite (W6 i c Hi) in Hend. apply list_elem_of_lookup_2 in Hi as Hin. destruct Hend as [->|Hend]; [done|].
    rewrite Forall_forall in W4. specialize (W4 c Hin). congruence.
Qed.
End Parse.

(** ** The command *)

(** The pointer [q] is to the string [w]. *)
Definition names (m : memory) (q : Z) w : Prop := 0 < q /\ cstring m q w.

(** The node [p] is the command [t], its words strings in the memory. *)
Definition command_at (s : sh) t (p : nat) : Prop := tree_at (fun q _ w => names (lmem s) q w) (nodes s) t p.

Lemma cstring_cstr k (m : memory) a l : cstring m a l -> (length l < k)%nat -> strlen k m a = Some (Z.of_nat (length l)).
Proof.
  unfold strlen. intros H Hk. assert (Hg : forall l a' n, a' = a + n -> cstring m a' l -> (length l < k)%nat -> strlen_from k m a n = Some (n + Z.of_nat (length l))).
  { clear. induction k as [|k IH]; intros l a' n -> H Hk; [lia|]. cbn [strlen_from]. destruct l as [|c l]; cbn [cstring length] in *; [rewrite H; cbn; f_equal; lia|]. destruct H as (Hc & -> & H). unfold ctrue.
    rewrite (proj2 (Z.eqb_neq c 0) Hc). cbn [negb]. rewrite (IH l (a + n + 1) (n + 1)); [f_equal; lia|lia|done|lia]. }
  apply (Hg l a 0); [lia|done|done].
Qed.

Lemma lex_length l : forall cur, (length (lex cur l) <= length l + length (flush cur))%nat.
Proof.
  assert (Hf : forall x : list Z, (length (flush x) <= 1)%nat) by (intros []; cbn; lia).
  remember (length l) as n eqn:En. revert l En. induction n as [n IH] using lt_wf_ind. intros l -> cur. destruct l as [|c l]; cbn [lex length]; [lia|].
  destruct (inchars whitespace c); [rewrite length_app; pose proof (IH (length l) ltac:(cbn; lia) l eq_refl []); cbn in *; lia|]. destruct (inchars symbols c).
  - rewrite length_app. destruct l as [|d l]; [cbn; lia|]. destruct ((c =? chr ">") && (d =? chr ">")); cbn [length].
    + pose proof (IH (length l) ltac:(cbn; lia) l eq_refl []). cbn in *. lia.
    + pose proof (IH (length (d :: l)) ltac:(cbn; lia) (d :: l) eq_refl []). cbn [length flush] in *. lia.
  - pose proof (IH (length l) ltac:(cbn; lia) l eq_refl (cur ++ [c])). pose proof (Hf (cur ++ [c])). lia.
Qed.

Lemma parsecmd_spec k a0 l s :
  0 < a0 -> cstring (lmem s) a0 l -> (4 * length l + 4 <= k)%nat ->
  attempt (parsecmd k a0) s
    (fun p s' => exists t, g_line (lex [] l) t [] /\ command_at s' t p /\ keeps (length (nodes s)) (nodes s) (nodes s') /\ forall x, x < a0 \/ a0 + Z.of_nat (length l) < x -> ld8 (lmem s') x = ld8 (lmem s) x)
    (forall t, ~ g_line (lex [] l) t []).
Proof.
  intros Ha Hl Hk. unfold parsecmd. apply attempt_bind, attempt_wp, wp_gets. rewrite (cstring_cstr k _ _ l) by (done || lia). cbv zeta. set (es := a0 + Z.of_nat (length l)).
  apply attempt_bind, attempt_wp, wp_modify. set (s1 := set_ps a0 s). pose proof (lex_length l []) as Hlen. cbn [flush length] in Hlen.
  assert (Hp1 : pos (lmem s) a0 es s1 (lex [] l)) by (split; [done|]; split; [cbn; lia|]; by exists l).
  apply attempt_bind. eapply attempt_mono; [apply (proj1 (parse_spec (lmem s) a0 es k) s1 (lex [] l) Hp1); lia|..].
  2:{ intros Hno t. apply Hno. }
  intros p s2 (t & ts2 & G & Hp2 & Hk2 & Ht2). apply attempt_bind, attempt_wp. eapply wp_peek; [exact Hp2|by apply sub_symbols|]. intros s3 Hp3 E3 Hend.
  apply attempt_bind, attempt_wp, wp_gets. destruct (Z.eqb_spec (ps s3) es) as [Es|Es]; cbn [negb].
  2:{ cbn. intros t' G'. destruct (proj1 g_fun _ _ _ G _ _ G') as [_ ->]. by destruct (proj1 Hend eq_refl). }
  apply Hend in Es as ->. pose proof (proj1 g_length _ _ _ G). apply attempt_wp, wp_bind. destruct Hp3 as (Em & _). rewrite <- E3 in Ht2.
  eapply wp_mono; [apply (nulterminate_spec (lmem s) a0 es Ha k p s3 t); [rewrite Em; by intros x; left|done|cbn in *; lia]|]. cbn beta. intros _ s4 (E4 & He & _ & Ht). apply wp_ret.
  exists t. split; [done|]. split; [|split].
  - eapply tree_at_mono; [|exact Ht]. intros q eq w Hw. split; [destruct Hw as [[? _] _]; lia|by eapply word_string].
  - by rewrite E4, E3.
  - intros x Hx. destruct (He x) as [->|(_ & Hx' & _)]; [done|]. unfold es in Hx'. lia.
Qed.

(** C7: The shell parses its language: for every line, with fuel for its length,
    [parsecmd] either returns the one command the grammar gives the tokens of the
    line, its words NUL-terminated strings, changing no byte outside the line,
    or panics, and then the grammar gives the line no command.  It always
    terminates, and never writes past [argv]. *)
Theorem parsecmd_correct k a0 l s :
  0 < a0 -> cstring (lmem s) a0 l -> (4 * length l + 4 <= k)%nat ->
  (exists p s' t, parsecmd k a0 s = Ret (p, s') /\ g_line (lex [] l) t [] /\ command_at s' t p /\
     forall x, x < a0 \/ a0 + Z.of_nat (length l) < x -> ld8 (lmem s') x = ld8 (lmem s) x) \/
  ((exists msg, parsecmd k a0 s = Panic msg) /\ forall t, ~ g_line (lex [] l) t []).
Proof.
  intros Ha Hl Hk. pose proof (parsecmd_spec k a0 l s Ha Hl Hk) as H. unfold attempt in H. destruct (parsecmd k a0 s) as [[p s']|msg| |]; [left|right|done|done].
  - destruct H as (t & G & Ht & _ & Hm). by exists p, s', t.
  - split; [by exists msg|done].
Qed.

(** C35: Every command has a text, and the shell reads it back: [show] writes a
    command with parentheses and spaces, and parsing what it writes gives the
    command, for all commands whose words have no special characters and that
    have fewer than ten arguments. *)
Theorem parsecmd_show k a0 t s :
  0 < a0 -> tree_ok t -> cstring (lmem s) a0 (show t) -> (4 * length (show t) + 4 <= k)%nat ->
  exists p s', parsecmd k a0 s = Ret (p, s') /\ command_at s' t p.
Proof.
  intros Ha Ht Hl Hk. pose proof (parsecmd_spec k a0 (show t) s Ha Hl Hk) as H. pose proof (show_line t Ht) as G. unfold attempt in H.
  destruct (parsecmd k a0 s) as [[p s']|msg| |]; [|by destruct (H t)|done|done]. destruct H as (t' & G' & Hc & _). exists p, s'. split; [done|]. by destruct (proj1 g_fun _ _ _ G _ _ G') as [<- _].
Qed.
