(* ===== verification/ShRunProofs.v ===== *)
(** * The programs of a command get the right files

    What the system calls of the shell do to the file descriptors of its
    processes, and that every program of a command starts with the standard
    descriptors the command gives it, and no other. *)
From Stdlib Require Import Ascii.
From S2P Require Import Prelude Mem KString Printf PrintfProofs Ulib UlibProofs Sysfile Sh ShGrammar ShProofs.

(** ** Descriptors *)

(** What a descriptor refers to: a file that was opened, an end of a pipe, or
    something from before. *)
Inductive desc : Type :=
| DFile (name : list Z) (mode : Z)
| DRead (pipe : nat)
| DWrite (pipe : nat)
| DOther (n : nat).

Notation fdtab := (list (option desc)).
Implicit Types (fds rest : fdtab) (d i o : desc) (t l r : tree) (ns : list node).

(** The lowest descriptor that is free. *)
Fixpoint lowest fds : option nat :=
  match fds with
  | [] => None
  | None :: _ => Some O
  | Some _ :: fds' => S <$> lowest fds'
  end.

(** What an observer of the processes sees: a program starts, a process waits. *)
Inductive event : Type := Starts (ws : list (list Z)) | Waits.

Section Run.
(** The memory of the shell. *)
Context (m : memory).

(** Some process of the run comes to the event, with the descriptors. *)
Inductive reaches : run -> fdtab -> event -> fdtab -> Prop :=
| rc_exec path argv ws k fds : Forall2 (names m) argv ws -> reaches (Exec path argv k) fds (Starts ws) fds
| rc_exec_failed path argv k fds e fds' : reaches k fds e fds' -> reaches (Exec path argv k) fds e fds'
| rc_close fd k fds e fds' : reaches k (<[Z.to_nat fd := None]> fds) e fds' -> reaches (Close fd k) fds e fds'
| rc_open path w mode k fds n e fds' :
    names m path w -> lowest fds = Some n -> reaches (k (Z.of_nat n)) (<[n := Some (DFile w mode)]> fds) e fds' -> reaches (Open path mode k) fds e fds'
| rc_open_failed path mode k fds e fds' : reaches (k (-1)) fds e fds' -> reaches (Open path mode k) fds e fds'
| rc_dup fd k fds n d e fds' : fds !! Z.to_nat fd = Some (Some d) -> lowest fds = Some n -> reaches (k (Z.of_nat n)) (<[n := Some d]> fds) e fds' -> reaches (Dup fd k) fds e fds'
| rc_pipe p k fds n0 n1 e fds' :
    lowest fds = Some n0 -> lowest (<[n0 := Some (DRead p)]> fds) = Some n1 ->
    reaches (k (Some (Z.of_nat n0, Z.of_nat n1))) (<[n1 := Some (DWrite p)]> (<[n0 := Some (DRead p)]> fds)) e fds' -> reaches (Pipe k) fds e fds'
| rc_pipe_failed k fds e fds' : reaches (k None) fds e fds' -> reaches (Pipe k) fds e fds'
| rc_child c p f fds e fds' : reaches c fds e fds' -> reaches (Fork c p f) fds e fds'
| rc_parent c p f fds e fds' : reaches p fds e fds' -> reaches (Fork c p f) fds e fds'
| rc_fork_failed c p f fds e fds' : reaches f fds e fds' -> reaches (Fork c p f) fds e fds'
| rc_wait k fds : reaches (Wait k) fds Waits fds
| rc_wait_next k fds e fds' : reaches k fds e fds' -> reaches (Wait k) fds e fds'
| rc_chdir path k v fds e fds' : reaches (k v) fds e fds' -> reaches (Chdir path k) fds e fds'
| rc_fprintf fmt arg k fds e fds' : reaches k fds e fds' -> reaches (Fprintf fmt arg k) fds e fds'.

(** ** What a command means *)

(** A process of the command [t], which has input [i] and output [o], comes to
    the event with input and output of its own. *)
Inductive wired : tree -> desc -> desc -> event -> desc -> desc -> Prop :=
| w_exec ws i o : ws <> [] -> wired (TExec ws) i o (Starts ws) i o
| w_in t f mode i o e i' o' : wired t (DFile f mode) o e i' o' -> wired (TRedir t f mode 0) i o e i' o'
| w_out t f mode i o e i' o' : wired t i (DFile f mode) e i' o' -> wired (TRedir t f mode 1) i o e i' o'
| w_left l r p i o e i' o' : wired l i (DWrite p) e i' o' -> wired (TPipe l r) i o e i' o'
| w_right l r p i o e i' o' : wired r (DRead p) o e i' o' -> wired (TPipe l r) i o e i' o'
| w_pipe_wait l r i o : wired (TPipe l r) i o Waits i o
| w_first l r i o e i' o' : wired l i o e i' o' -> wired (TList l r) i o e i' o'
| w_second l r i o e i' o' : wired r i o e i' o' -> wired (TList l r) i o e i' o'
| w_list_wait l r i o : wired (TList l r) i o Waits i o
| w_back t i o e i' o' : wired t i o e i' o' -> wired (TBack t) i o e i' o'.

(** Redirections are of the standard input or output. *)
Fixpoint std_redirs t : Prop :=
  match t with
  | TExec _ => True
  | TRedir t' _ _ fd => (fd = 0 \/ fd = 1) /\ std_redirs t'
  | TPipe l r | TList l r => std_redirs l /\ std_redirs r
  | TBack t' => std_redirs t'
  end.

(** ** Lemmas *)

Lemma cstring_fun a (l1 l2 : list Z) : cstring m a l1 -> cstring m a l2 -> l1 = l2.
Proof.
  revert a l2. induction l1 as [|c l1 IH]; intros a [|d l2]; cbn [cstring]; [done|intros ? (? & ? & _); congruence|intros (? & ? & _) ?; congruence|].
  intros (_ & E1 & H1) (_ & E2 & H2). f_equal; [congruence|by eapply IH].
Qed.
Lemma names_fun q w1 w2 : names m q w1 -> names m q w2 -> w1 = w2.
Proof. intros [_ H1] [_ H2]. by eapply cstring_fun. Qed.
Lemma names_list_fun argv ws1 ws2 : Forall2 (names m) argv ws1 -> Forall2 (names m) argv ws2 -> ws1 = ws2.
Proof.
  intros H1. revert ws2. induction H1 as [|q w argv ws Hq _ IH]; intros ws2 H2; inversion H2 as [|? w2 ? ws3 Hq2 H3]; subst; [done|]. f_equal; [by eapply names_fun|by apply IH].
Qed.

(** The arguments of a node are the words of the command. *)
Lemma arguments_spec argv eargv ws : args_at (fun q _ w => names m q w) argv eargv ws -> Forall2 (names m) (arguments argv) ws.
Proof.
  intros [(_ & _ & Hw) H0]. assert (Hw' : forall j w, ws !! j = Some w -> exists q, argv !! j = Some q /\ names m q w) by (intros j w Hi; destruct (Hw j w Hi) as (q & _ & ? & _ & ?); by exists q).
  clear Hw eargv. revert argv H0 Hw'. induction ws as [|w ws IH]; intros argv H0 Hw; cbn [length] in H0.
  - destruct argv as [|q argv]; [done|]. injection H0 as ->. constructor.
  - destruct argv as [|q argv]; [done|]. destruct (Hw O w eq_refl) as (q' & [= <-] & Hq). cbn [arguments]. rewrite (proj2 (Z.eqb_neq q 0)) by (destruct Hq; lia).
    constructor; [done|]. apply IH; [done|]. intros j v Hj. by apply (Hw (S j)).
Qed.

Lemma lowest_free fds n : lowest fds = Some n -> fds !! n = Some None.
Proof.
  revert n. induction fds as [|[d|] fds IH]; intros n; cbn [lowest]; [done| |by intros [= <-]]. destruct (lowest fds) as [k|]; [|done]. intros [= <-]. by apply IH.
Qed.

(** Closing what was just opened. *)
Lemma close_again fds n d : lowest fds = Some n -> <[n := None]> (<[n := Some d]> fds) = fds.
Proof. intros H. rewrite list_insert_insert_eq. apply list_insert_id. by apply lowest_free. Qed.

Lemma close_both fds n0 n1 d0 d1 :
  lowest fds = Some n0 -> lowest (<[n0 := Some d0]> fds) = Some n1 -> <[n1 := None]> (<[n0 := None]> (<[n1 := Some d1]> (<[n0 := Some d0]> fds))) = fds.
Proof.
  intros H0 H1. assert (n0 <> n1) as Hne.
  { intros <-. apply lowest_free in H0, H1. rewrite list_lookup_insert_eq in H1 by (by eapply lookup_lt_Some). done. }
  rewrite (list_insert_insert_ne _ n0 n1), list_insert_insert_eq, (close_again fds n0) by done. apply list_insert_id. apply lowest_free in H1. by rewrite list_lookup_insert_ne in H1.
Qed.

Lemma no_fail msg fds e fds' : ~ reaches (sh_panic msg) fds e fds'.
Proof. intros H. inversion H as [| | | | | | | | | | | | | |? ? ? ? ? ? H1]; subst. inversion H1. Qed.

Lemma fork1_inv c p fds e fds' : reaches (fork1 c p) fds e fds' -> reaches c fds e fds' \/ reaches p fds e fds'.
Proof. intros H. inversion H; subst; [by left|by right|by edestruct no_fail]. Qed.

(** Tables of which the first two descriptors are the standard ones. *)
Lemma std_insert n x (a b : option desc) rest : <[S (S n) := x]> (a :: b :: rest) = a :: b :: <[n := x]> rest.
Proof. done. Qed.
Lemma std_close_in (a b : option desc) rest : <[Z.to_nat 0 := None]> (a :: b :: rest) = None :: b :: rest.
Proof. done. Qed.
Lemma std_close_out (a b : option desc) rest : <[Z.to_nat 1 := None]> (a :: b :: rest) = a :: None :: rest.
Proof. done. Qed.
Lemma std_lookup n (a b : option desc) rest : (a :: b :: rest) !! S (S n) = rest !! n.
Proof. done. Qed.
Lemma std_lowest i o rest n : lowest (Some i :: Some o :: rest) = Some n <-> exists k, n = S (S k) /\ lowest rest = Some k.
Proof. cbn [lowest]. destruct (lowest rest) as [k|]; cbn; naive_solver. Qed.

Lemma close_inv fd k fds e fds' : reaches (Close fd k) fds e fds' <-> reaches k (<[Z.to_nat fd := None]> fds) e fds'.
Proof. split; [intros H; by inversion H|apply rc_close]. Qed.
Lemma dup_inv fd k fds e fds' : reaches (Dup fd k) fds e fds' <-> exists n d, fds !! Z.to_nat fd = Some (Some d) /\ lowest fds = Some n /\ reaches (k (Z.of_nat n)) (<[n := Some d]> fds) e fds'.
Proof. split; [intros H; inversion H; subst; by do 2 eexists|]. intros (n & d & H1 & H2 & H3). by eapply rc_dup. Qed.

(** The wiring of a pipeline: the left child and the right child. *)
Definition piped p k0 k1 i o rest : fdtab := <[S (S k1) := Some (DWrite p)]> (<[S (S k0) := Some (DRead p)]> (Some i :: Some o :: rest)).

Lemma piped_lookup p k0 k1 i o rest :
  lowest rest = Some k0 -> lowest (<[k0 := Some (DRead p)]> rest) = Some k1 ->
  piped p k0 k1 i o rest !! S (S k0) = Some (Some (DRead p)) /\ piped p k0 k1 i o rest !! S (S k1) = Some (Some (DWrite p)).
Proof.
  intros H0%lowest_free H1%lowest_free. unfold piped. rewrite !std_insert, !std_lookup. pose proof (lookup_lt_Some _ _ _ H1) as L1. pose proof (lookup_lt_Some _ _ _ H0) as L0. split; [|by apply list_lookup_insert_eq].
  rewrite list_lookup_insert_ne; [by apply list_lookup_insert_eq|]. intros ->. by rewrite list_lookup_insert_eq in H1.
Qed.

Lemma pipe_left p k0 k1 c i o rest e fds' :
  lowest rest = Some k0 -> lowest (<[k0 := Some (DRead p)]> rest) = Some k1 ->
  reaches (Close 1 (Dup (Z.of_nat (S (S k1))) (fun _ => Close (Z.of_nat (S (S k0))) (Close (Z.of_nat (S (S k1))) c)))) (piped p k0 k1 i o rest) e fds' <->
  reaches c (Some i :: Some (DWrite p) :: rest) e fds'.
Proof.
  intros H0 H1. destruct (piped_lookup p k0 k1 i o rest H0 H1) as [_ L]. unfold piped in *. rewrite !std_insert, std_lookup in L. rewrite close_inv, dup_inv, !std_insert, std_close_out, Nat2Z.id, std_lookup, L.
  assert (Hc : reaches (Close (Z.of_nat (S (S k0))) (Close (Z.of_nat (S (S k1))) c)) (Some i :: Some (DWrite p) :: <[k1 := Some (DWrite p)]> (<[k0 := Some (DRead p)]> rest)) e fds' <-> reaches c (Some i :: Some (DWrite p) :: rest) e fds').
  { rewrite !close_inv, !Nat2Z.id, !std_insert. by rewrite close_both. }
  rewrite <- Hc. cbn [lowest]. split; [intros (n & d & [= <-] & [= <-] & H); exact H|]. intros H. by exists 1%nat, (DWrite p).
Qed.

Lemma pipe_right p k0 k1 c i o rest e fds' :
  lowest rest = Some k0 -> lowest (<[k0 := Some (DRead p)]> rest) = Some k1 ->
  reaches (Close 0 (Dup (Z.of_nat (S (S k0))) (fun _ => Close (Z.of_nat (S (S k0))) (Close (Z.of_nat (S (S k1))) c)))) (piped p k0 k1 i o rest) e fds' <->
  reaches c (Some (DRead p) :: Some o :: rest) e fds'.
Proof.
  intros H0 H1. destruct (piped_lookup p k0 k1 i o rest H0 H1) as [L _]. unfold piped in *. rewrite !std_insert, std_lookup in L. rewrite close_inv, dup_inv, !std_insert, std_close_in, Nat2Z.id, std_lookup, L.
  assert (Hc : reaches (Close (Z.of_nat (S (S k0))) (Close (Z.of_nat (S (S k1))) c)) (Some (DRead p) :: Some o :: <[k1 := Some (DWrite p)]> (<[k0 := Some (DRead p)]> rest)) e fds' <-> reaches c (Some (DRead p) :: Some o :: rest) e fds').
  { rewrite !close_inv, !Nat2Z.id, !std_insert. by rewrite close_both. }
  rewrite <- Hc. cbn [lowest]. split; [intros (n & d & [= <-] & [= <-] & H); exact H|]. intros H. by exists 0%nat, (DRead p).
Qed.

Lemma pipe_parent p k0 k1 i o rest e fds' :
  lowest rest = Some k0 -> lowest (<[k0 := Some (DRead p)]> rest) = Some k1 ->
  reaches (Close (Z.of_nat (S (S k0))) (Close (Z.of_nat (S (S k1))) (Wait (Wait (Exit 0))))) (piped p k0 k1 i o rest) e fds' <-> e = Waits /\ fds' = Some i :: Some o :: rest.
Proof.
  intros H0 H1. rewrite !close_inv, !Nat2Z.id. unfold piped. rewrite !std_insert, close_both by done. split; [|intros [-> ->]; constructor].
  intros H. inversion H as [| | | | | | | | | | |? ?|? ? ? ? H2| |]; subst; [done|]. inversion H2 as [| | | | | | | | | | |? ?|? ? ? ? H3| |]; subst; [done|]. inversion H3.
Qed.

(** Two descriptors are free. *)
Definition two_free rest : Prop := exists k0 k1, lowest rest = Some k0 /\ forall d, lowest (<[k0 := Some d]> rest) = Some k1.

Notation command ns t p := (tree_at (fun q _ w => names m q w) ns t p).
Notation std i o rest := (Some i :: Some o :: rest).

(** Reopening a standard descriptor as the file [w]. *)
Lemma open_inv path mode c fds e fds' :
  reaches (Open path mode (fun v => if v <? 0 then Fprintf "open %s failed\n" path (Exit 1) else c)) fds e fds' <->
  exists w n, names m path w /\ lowest fds = Some n /\ reaches c (<[n := Some (DFile w mode)]> fds) e fds'.
Proof.
  split.
  - intros H. inversion H as [| | |? w ? ? ? n ? ? Hw Hn H1|? ? ? ? ? ? H1| | | | | | | | | |]; subst.
    + exists w, n. rewrite (proj2 (Z.ltb_ge (Z.of_nat n) 0)) in H1 by (clear; lia). done.
    + cbn in H1. inversion H1 as [| | | | | | | | | | | | | |? ? ? ? ? ? H2]; subst. inversion H2.
  - intros (w & n & Hw & Hn & H). eapply rc_open; [done|done|]. by rewrite (proj2 (Z.ltb_ge (Z.of_nat n) 0)) by (clear; lia).
Qed.

Lemma runcmd_sound k ns rest : forall p t i o e fds',
  command ns t p -> std_redirs t -> (depth t <= k)%nat -> reaches (runcmd k ns p) (std i o rest) e fds' -> exists i' o', fds' = std i' o' rest /\ wired t i o e i' o'.
Proof.
  induction k as [|k IH]; intros p t i o e fds' Ht Hs Hd H; [pose proof (depth_pos t); lia|]. cbn [runcmd] in H. destruct t as [ws|t f mode fd|l r|l r|t]; cbn [tree_at std_redirs depth] in Ht, Hs, Hd.
  - destruct Ht as (argv & eargv & Hn & Ha). rewrite Hn in H. apply arguments_spec in Ha as Hw. destruct (arguments argv) as [|path argv'] eqn:E; [inversion H|]. inversion H as [? ? ws' ? ? Hw'|? ? ? ? ? ? H1| | | | | | | | | | | | |]; subst.
    + rewrite (names_list_fun _ _ _ Hw' Hw). exists i, o. split; [done|]. apply w_exec. by inversion Hw.
    + inversion H1 as [| | | | | | | | | | | | | |? ? ? ? ? ? H2]; subst. inversion H2.
  - destruct Ht as (c & q & eq & Hn & Hq & Ht). rewrite Hn in H. apply close_inv, open_inv in H as (w & n & Hw & Hl & H). rewrite (names_fun _ _ _ Hw Hq) in H. destruct Hs as [[-> | ->] Hs].
    + rewrite std_close_in in Hl, H. injection Hl as <-. apply (IH c t) in H as (i' & o' & -> & H); [|done|done|lia]. exists i', o'. split; [done|by apply w_in].
    + rewrite std_close_out in Hl, H. injection Hl as <-. apply (IH c t) in H as (i' & o' & -> & H); [|done|done|lia]. exists i', o'. split; [done|by apply w_out].
  - destruct Ht as (a & b & Hn & Hl & Hr). rewrite Hn in H. inversion H as [| | | | | |pid ? ? n0 n1 ? ? L0 L1 H1|? ? ? ? H1| | | | | | |]; subst; [|by apply no_fail in H1].
    apply std_lowest in L0 as (k0 & -> & L0). rewrite std_insert in L1. apply std_lowest in L1 as (k1 & -> & L1). fold (piped pid k0 k1 i o rest) in H1.
    apply fork1_inv in H1 as [H1|[H1|H1]%fork1_inv].
    + apply pipe_left in H1; [|done|done]. apply (IH a l) in H1 as (i' & o' & -> & H1); [|done|apply Hs|lia]. exists i', o'. split; [done|by eapply w_left].
    + apply pipe_right in H1; [|done|done]. apply (IH b r) in H1 as (i' & o' & -> & H1); [|done|apply Hs|lia]. exists i', o'. split; [done|by eapply w_right].
    + apply pipe_parent in H1 as [-> ->]; [|done|done]. exists i, o. split; [done|apply w_pipe_wait].
  - destruct Ht as (a & b & Hn & Hl & Hr). rewrite Hn in H. apply fork1_inv in H as [H|H].
    + apply (IH a l) in H as (i' & o' & -> & H); [|done|apply Hs|lia]. exists i', o'. split; [done|by apply w_first].
    + inversion H as [| | | | | | | | | | |? ?|? ? ? ? H1| |]; subst; [exists i, o; split; [done|apply w_list_wait]|]. apply (IH b r) in H1 as (i' & o' & -> & H1); [|done|apply Hs|lia]. exists i', o'. split; [done|by apply w_second].
  - destruct Ht as (c & Hn & Ht). rewrite Hn in H. apply fork1_inv in H as [H|H]; [|inversion H]. apply (IH c t) in H as (i' & o' & -> & H); [|done|done|lia]. exists i', o'. split; [done|by apply w_back].
Qed.

Lemma runcmd_pipe k ns p a b pid i o rest e fds' :
  ns !! p = Some (PIPE a b) -> two_free rest ->
  reaches (runcmd k ns a) (std i (DWrite pid) rest) e fds' \/ reaches (runcmd k ns b) (std (DRead pid) o rest) e fds' \/ (e = Waits /\ fds' = std i o rest) ->
  reaches (runcmd (S k) ns p) (std i o rest) e fds'.
Proof.
  intros Hn (k0 & k1 & L0 & L1) H. cbn [runcmd]. rewrite Hn. apply (rc_pipe pid _ _ (S (S k0)) (S (S k1))); [apply std_lowest; by exists k0|rewrite std_insert; apply std_lowest; by exists k1|].
  fold (piped pid k0 k1 i o rest). unfold fork1. destruct H as [H|[H|[-> ->]]].
  - apply rc_child. by apply pipe_left.
  - apply rc_parent, rc_child. by apply pipe_right.
  - apply rc_parent, rc_parent. by apply pipe_parent.
Qed.

Lemma runcmd_complete t i o e i' o' : wired t i o e i' o' -> forall k ns p rest,
  command ns t p -> (depth t <= k)%nat -> two_free rest -> reaches (runcmd k ns p) (std i o rest) e (std i' o' rest).
Proof.
  induction 1 as [ws i o Hne|t f mode i o e i' o' _ IH|t f mode i o e i' o' _ IH|l r pid i o e i' o' _ IH|l r pid i o e i' o' _ IH|l r i o|l r i o e i' o' _ IH|l r i o e i' o' _ IH|l r i o|t i o e i' o' _ IH];
    intros k ns p rest Ht Hd Hf; (destruct k as [|k]; [cbn in Hd; lia|]); cbn [tree_at depth] in Ht, Hd.
  - destruct Ht as (argv & eargv & Hn & Ha). apply arguments_spec in Ha as Hw. cbn [runcmd]. rewrite Hn. destruct (arguments argv) as [|path argv']; [by inversion Hw; subst|]. by apply rc_exec.
  - destruct Ht as (c & q & eq & Hn & Hq & Ht). cbn [runcmd]. rewrite Hn. apply close_inv, open_inv. rewrite std_close_in. exists f, 0%nat. split; [done|]. split; [done|]. apply IH; [done|lia|done].
  - destruct Ht as (c & q & eq & Hn & Hq & Ht). cbn [runcmd]. rewrite Hn. apply close_inv, open_inv. rewrite std_close_out. exists f, 1%nat. split; [done|]. split; [done|]. apply IH; [done|lia|done].
  - destruct Ht as (a & b & Hn & Hl & Hr). eapply (runcmd_pipe k ns p a b pid); [done|done|]. left. apply IH; [done|lia|done].
  - destruct Ht as (a & b & Hn & Hl & Hr). eapply (runcmd_pipe k ns p a b pid); [done|done|]. right. left. apply IH; [done|lia|done].
  - destruct Ht as (a & b & Hn & Hl & Hr). eapply (runcmd_pipe k ns p a b 0); [done|done|]. by right; right.
  - destruct Ht as (a & b & Hn & Hl & Hr). cbn [runcmd]. rewrite Hn. apply rc_child, IH; [done|lia|done].
  - destruct Ht as (a & b & Hn & Hl & Hr). cbn [runcmd]. rewrite Hn. apply rc_parent, rc_wait_next, IH; [done|lia|done].
  - destruct Ht as (a & b & Hn & Hl & Hr). cbn [runcmd]. rewrite Hn. apply rc_parent, rc_wait.
  - destruct Ht as (c & Hn & Ht). cbn [runcmd]. rewrite Hn. apply rc_child, IH; [done|lia|done].
Qed.
End Run.

Lemma redirs_std ts rs ts' : redirs ts rs ts' -> forall t, std_redirs t -> std_redirs (wrap rs t).
Proof.
  induction 1 as [|k [mode fd] w ts rs ts' Hk _ IH]; intros t Ht; [done|]. apply (IH (TRedir t w mode fd)). split; [|done].
  destruct k as [c| |v]; cbn in Hk; [|injection Hk as <- <-; by right|done]. repeat case_match; simplify_eq; auto.
Qed.
Lemma args_std ts ws rs ts' : args ts ws rs ts' -> forall t, std_redirs t -> std_redirs (wrap rs t).
Proof.
  induction 1 as [|w ts rs ts1 ws rs' ts2 Hr _ IH]; intros t Ht; [done|]. unfold wrap. rewrite fold_left_app. apply IH. by eapply redirs_std.
Qed.
Lemma g_std :
  (forall ts t ts1, g_line ts t ts1 -> std_redirs t) /\ (forall ts t ts1, g_pipe ts t ts1 -> std_redirs t) /\ (forall ts t ts1, g_exec ts t ts1 -> std_redirs t).
Proof.
  assert (Hb : forall n t, std_redirs t -> std_redirs (backs n t)) by (intros n t Ht; induction n; done).
  apply g_rules; try done.
  - intros; auto.
  - intros; split; auto.
  - intros ts t ts1 rs ts2 _ IH Hr. by eapply redirs_std.
  - intros ts rs ts1 ws rs' ts2 _ Hr Ha _. unfold wrap. rewrite fold_left_app. eapply args_std; [exact Ha|]. by eapply redirs_std.
Qed.

(** C6: The processes of a command get the files it says, and no others: when the
    shell has parsed a line, the programs [runcmd] starts and the processes that
    wait for them are exactly those of the one command the grammar gives the
    line, each with the standard input and output that the redirections and the
    pipes around it give it, and the other descriptors as they were.  So the ends
    of every pipe are closed in every process that does not use them, the waiting
    shell included. *)
Theorem runcmd_correct k a0 (l : list Z) s p s' :
  0 < a0 -> cstring (lmem s) a0 l -> (4 * length l + 4 <= k)%nat -> parsecmd k a0 s = Ret (p, s') ->
  exists t, g_line (lex [] l) t [] /\ forall i o rest e fds', two_free rest ->
    reaches (lmem s') (runcmd k (nodes s') p) (Some i :: Some o :: rest) e fds' <-> exists i' o', fds' = Some i' :: Some o' :: rest /\ wired t i o e i' o'.
Proof.
  intros Ha Hl Hk E. pose proof (parsecmd_spec k a0 l s Ha Hl Hk) as H. unfold attempt in H. rewrite E in H. destruct H as (t & G & Ht & _). exists t. split; [done|]. intros i o rest e fds' Hf.
  pose proof (proj1 g_length _ _ _ G) as Hd. pose proof (lex_length l []) as Hlen. cbn [flush length] in *. split.
  - apply runcmd_sound; [done|exact (proj1 g_std _ _ _ G)|lia].
  - intros (i' & o' & -> & Hw). eapply runcmd_complete; [exact Hw|exact Ht|lia|done].
Qed.
