(* ===== verification/UserExamples.v ===== *)
(** * Programs at work

    Concrete texts, an input that comes three bytes at a time, lines for the
    shell and a heap: what the theorems about the user programs say of them. *)
From Stdlib Require Import Ascii.
From S2P Require Import Prelude Mem Umalloc UmallocProofs KString Printf PrintfProofs Ulib UlibProofs Grep GrepProofs Sysfile Sh ShGrammar ShProofs ShRunProofs.

(** A text at an address, and nothing else. *)
Definition lay (a : Z) (l : list Z) : memory := fun x => if (a <=? x) then nth (Z.to_nat (x - a)) l 0 else 0.

Fixpoint cstringb (m : memory) (a : Z) (l : list Z) : bool :=
  match l with
  | [] => ld8 m a =? 0
  | c :: l' => negb (c =? 0) && (ld8 m a =? c) && cstringb m (a + 1) l'
  end.
Lemma cstringb_ok m a l : cstringb m a l = true -> cstring m a l.
Proof.
  revert a. induction l as [|c l IH]; intros a; cbn [cstringb cstring]; [by intros ->%Z.eqb_eq|]. intros [[H1%negb_true_iff%Z.eqb_neq H2%Z.eqb_eq]%andb_true_iff H3]%andb_true_iff. auto.
Qed.

(** ** The matcher *)

Definition desk : memory := fun x => if x <? 100 then lay 1 (# "^a.*c$") x else lay 100 (# "abcc") x.

Lemma match_correct_witness : exists b : bool, match_ 11 desk 1 100 = Some (Z.b2z b) /\ (b = true <-> matches (# "^a.*c$") (# "abcc")).
Proof. apply (match_correct 11 desk 1 100 (# "^a.*c$") (# "abcc")); [apply cstringb_ok; reflexivity|apply cstringb_ok; reflexivity|cbn; lia]. Defined.

(** ** Input in pieces *)

Definition pieces (a n : Z) : M (prog (list Z)) Z := fun s =>
  let l := take (Nat.min 3 (Z.to_nat n)) (uenv s) in
  Ret (Z.of_nat (length l), Prog (wr_bytes (umem s) a l) (drop (length l) (uenv s)) (uout s)).
Definition bytes_of (e : list Z) : list Z := u8 <$> e.

Lemma pieces_spec : read_spec pieces bytes_of.
Proof.
  intros a n s Hn. unfold wp, pieces. cbn [umem uenv uout]. split; [done|]. set (k := Nat.min 3 (Z.to_nat n)). set (l := take k (uenv s)). assert (El : uenv s = l ++ drop (length l) (uenv s)).
  { rewrite <- (take_drop k (uenv s)) at 1. fold l. f_equal. unfold l. rewrite length_take. destruct (Nat.le_gt_cases k (length (uenv s))); [by rewrite Nat.min_l|]. rewrite Nat.min_r by lia. by rewrite !drop_ge by lia. }
  assert (Hlen : (length l <= k)%nat) by (unfold l; rewrite length_take; lia).
  assert (Hz : l = [] -> n = 0 \/ uenv s = []). { unfold l, k. destruct (uenv s) as [|d e]; [by right|]. intros Hl. left. destruct (Z.to_nat n) eqn:En; [lia|done]. }
  assert (Hk : Z.of_nat k <= n) by lia. clearbody l k. destruct l as [|c l'].
  - left. split; [done|]. split; [|done]. destruct (Hz eq_refl) as [->|E]; [by left|right]. unfold bytes_of. by rewrite E.
  - right. exists (u8 <$> c :: l'). rewrite length_fmap. split; [done|]. split; [cbn [length] in *; lia|]. unfold bytes_of. split; [by rewrite <- fmap_app, <- El|]. split.
    + intros i x Hi. rewrite list_lookup_fmap in Hi. destruct ((c :: l') !! i) as [y|] eqn:Ey; [|done]. injection Hi as <-. apply wr_bytes_at; [lia|]. by replace (Z.to_nat (a + Z.of_nat i - a)) with i by lia.
    + intros x Hx. apply wr_bytes_frame. lia.
Qed.

Definition table : prog (list Z) := Prog (lay 10 (# "a*b")) [97; 98; 10; 99; 10; 98] [].

Lemma grep_correct_witness : exists s' o, grep pieces 4096 2000 10 table = Ret (tt, s') /\ grepped (# "a*b") (bytes_of [97; 98; 10; 99; 10; 98]) o /\ uout s' = o.
Proof.
  destruct (grep_correct pieces bytes_of 4096 2000 pieces_spec ltac:(lia) 10 (# "a*b") ltac:(apply Nat.ltb_lt; vm_compute; reflexivity) ltac:(left; vm_compute; reflexivity) table) as (s' & o & E & G & U & _).
  - apply cstringb_ok. reflexivity.
  - intros c Hc. vm_compute in Hc. repeat (apply elem_of_cons in Hc as [->|Hc]; [lia|]). by apply not_elem_of_nil in Hc.
  - apply Nat.ltb_lt. vm_compute. reflexivity.
  - exists s', o. split; [exact E|]. split; [exact G|exact U].
Defined.

Lemma atoi_printint_witness : exists text, (forall S (putc : Z -> M S unit) s, printint putc udigits 2026 10 true s = put_all putc text s) /\
  forall fuel m a, stored m a text -> is_digit (ld8 m (a + Z.of_nat (length text))) = false -> (10 < fuel)%nat -> atoi fuel m a = Some 2026.
Proof. apply (atoi_printint 2026). lia. Defined.

Lemma gets_correct_witness : exists s' l, ugets pieces 4096 100 10 table = Ret (4096, s') /\ taken 100 l (bytes_of (uenv table)) (bytes_of (uenv s')).
Proof.
  destruct (gets_correct pieces bytes_of pieces_spec 4096 100 10 ltac:(lia) ltac:(left; lia) table) as (s' & l & E & T & _). exists s', l. split; [exact E|exact T].
Defined.

(** ** Lines for the shell *)

Definition line1 : list Z := # "ls ; (cat < in | wc >> out) &".
Definition term1 : sh := Shell (lay 64 line1) 0 [].

Lemma parsecmd_correct_witness :
  (exists p s' t, parsecmd 200 64 term1 = Ret (p, s') /\ g_line (lex [] line1) t [] /\ command_at s' t p /\
     forall x, x < 64 \/ 64 + Z.of_nat (length line1) < x -> ld8 (lmem s') x = ld8 (lmem term1) x) \/
  ((exists msg, parsecmd 200 64 term1 = Panic msg) /\ forall t, ~ g_line (lex [] line1) t []).
Proof. apply (parsecmd_correct 200 64 line1 term1); [lia|apply cstringb_ok; vm_compute; reflexivity|cbn; lia]. Defined.

Definition tree1 : tree := TPipe (TRedir (TExec [(# "cat"); (# "x")]) (# "in") O_RDONLY 0) (TBack (TExec [(# "wc")])).
Definition term2 : sh := Shell (lay 64 (show tree1)) 0 [].

Lemma tree1_ok : tree_ok tree1.
Proof.
  cbn. repeat split; try lia; try done; try (repeat (apply Forall_cons; split; [|]); try done; by repeat constructor).
  by exists (Sym (chr "<")).
Qed.

Lemma parsecmd_show_witness : exists p s', parsecmd 400 64 term2 = Ret (p, s') /\ command_at s' tree1 p.
Proof. apply (parsecmd_show 400 64 tree1 term2); [lia|apply tree1_ok|apply cstringb_ok; vm_compute; reflexivity|vm_compute; lia]. Defined.

Definition parsed : outcome (nat * sh) := parsecmd 200 64 term1.
Definition node1 : nat := match parsed with Ret (p, _) => p | _ => O end.
Definition term1' : sh := match parsed with Ret (_, s) => s | _ => term1 end.
Lemma parsed_eq : parsecmd 200 64 term1 = Ret (node1, term1').
Proof. assert ((match parsed with Ret _ => true | _ => false end) = true) by (vm_compute; reflexivity). unfold node1, term1'. fold parsed. by destruct parsed as [[p s]| | |]. Qed.

Lemma runcmd_correct_witness : exists t, g_line (lex [] line1) t [] /\ forall i o rest e fds', two_free rest ->
  reaches (lmem term1') (runcmd 200 (nodes term1') node1) (Some i :: Some o :: rest) e fds' <-> exists i' o', fds' = Some i' :: Some o' :: rest /\ wired t i o e i' o'.
Proof.
  refine (runcmd_correct 200 64 line1 term1 node1 term1' _ _ _ parsed_eq); [lia|apply cstringb_ok; vm_compute; reflexivity|cbn; lia].
Defined.

(** ** A program that allocates

    A heap that grows up to 256 KB, and a program that takes two blocks, fills
    the second and gives the first back. *)

Definition top : Z := 2 ^ 18.
Definition turns : nat := Z.to_nat (2 ^ 16 + 16).

Definition grow (n : Z) : M heap Z := fun s =>
  if brk s + n <=? top then Ret (brk s, Heap (hmem s) (brk s + n) (freep s)) else Ret (u64 (-1), s).

Lemma grow_spec : sbrk_spec top grow.
Proof.
  intros n s Hn. unfold wp, grow. destruct (Z.leb_spec (brk s + n) top); [|by left]. right. repeat split; cbn; lia.
Qed.

Definition hout {A} (c : M heap A) (s : heap) : heap := match c s with Ret (_, s') => s' | _ => s end.
Definition gives (c : M heap Z) (r : Z) (s : heap) : bool := match c s with Ret (x, _) => x =? r | _ => false end.
Definition done_at (c : M heap unit) (s : heap) : bool := match c s with Ret _ => true | _ => false end.

Lemma gives_eq c r s : gives c r s = true -> c s = Ret (r, hout c s).
Proof. unfold gives, hout. destruct (c s) as [[x s']| | |]; try done. by intros ->%Z.eqb_eq. Qed.
Lemma done_at_eq c s : done_at c s = true -> c s = Ret (tt, hout c s).
Proof. unfold done_at, hout. by destruct (c s) as [[[] s']| | |]. Qed.

Definition heap0 : heap := Heap (fun _ => 0) 4096 0.
Definition heap1 : heap := hout (malloc 64 grow turns 100) heap0.
Definition heap2 : heap := hout (malloc 64 grow turns 40) heap1.
Definition heap3 : heap := set_hmem (st8 (hmem heap2) 69460 7) heap2.
Definition heap4 : heap := hout (free turns 69520) heap3.

Lemma run4 : rtc (hstep 64 turns grow) (heap0, []) (heap4, [(69440, 4)]).
Proof.
  eapply rtc_l; [apply (hs_malloc _ _ _ heap0 heap1 [] 100 69520); [lia|apply gives_eq; vm_compute; reflexivity]|]. cbn [Z.eqb].
  eapply rtc_l; [apply (hs_malloc _ _ _ heap1 heap2 _ 40 69456); [lia|apply gives_eq; vm_compute; reflexivity]|]. cbn [Z.eqb].
  eapply rtc_l; [apply (hs_write _ _ _ heap2 _ (69440, 4) (st8 (hmem heap2) 69460 7)); [left|]|].
  { cbn. intros a Ha. rewrite ld8_st8. by destruct (Z.eqb_spec a 69460); [lia|]. }
  change (69456 - 16, nunits 40) with (69440, 4). change (69520 - 16, nunits 100) with (69504, 8).
  eapply rtc_l; [apply (hs_free _ _ _ heap3 heap4 [(69440, 4)] (69504, 8) []); apply done_at_eq; vm_compute; reflexivity|]. apply rtc_refl.
Qed.

Lemma turns_enough : top + 64 <= 4 * Z.of_nat turns.
Proof. vm_compute. congruence. Qed.


Lemma malloc_truncates_witness : exists r s', malloc 64 grow turns (2 ^ 32 - 1) heap0 = Ret (r, s') /\ r = brk s' /\ brk s' = 4096 + 16.
Proof.
  refine (malloc_truncates 64 top turns ltac:(lia) ltac:(unfold top; lia) grow grow_spec turns_enough heap0 ltac:(unfold heap0, top; cbn; lia) eq_refl _).
  intros s1 E. unfold grow. rewrite E. cbn. by eexists.
Defined.
